(* ===== verification/_CoqProject ===== *)
-Q . S2P
Prelude.v
Text.v
Wire.v
Runtime.v
Decode.v
Script.v
Compress.v
Chain.v
Merkle.v
Versionbits.v
Utxo.v
Validate.v
Engine.v
Context.v
Block.v
Process.v
Storage.v
Extend.v
Agree.v
Start.v
Mining.v
Reading.v
VM.v
Builder.v
Lifecycle.v
Tags.v
Auth.v
Amount.v
Peg.v
Spend.v
Redeem.v
Lineage.v
State.v
Tiers.v
Build.v
Load.v
SigningLog.v
Registry.v
Cutover.v
Fence.v
Cosigner.v
Coordinator.v
Signing.v
Run.v
Answers.v
Proven.v
Agreement.v
