(* ===== verification/Prelude.v ===== *)
(** * DogecoinVM

    A model of DogecoinVM, a Snowman virtual machine whose blocks are those of
    an embedded btcd, and of its bridge to Dogecoin, with the theorems that make
    them correct.  Names under [src/] are kept.

    ** The program

    - [src/vm] is the virtual machine.  The consensus engine calls it to parse,
      build, verify, accept and reject blocks; it hands accepted blocks to btcd
      and writes them before it answers.
    - [src/btcd] is the chain: encodings, scripts, the block index, the unspent
      outputs, the consensus rules with the peg reserve DogecoinVM adds, block
      templates, and the tables it stores.
    - [src/cmd/dogevm] is the bridge.  A coordinator reads both chains and
      proposes transactions: a release credits a Dogecoin deposit on DogecoinVM
      from the reserve, a payout pays a peg-out on Dogecoin, a cancellation and a
      refund give a deposit back.  Signers of a multisignature set check each
      proposal against their own view of the chains and their own log, and sign.
      Every transaction of the peg spends the chain's anchor first, so that two
      of them conflict.  A cutover, with its fences, retires what a lost log may
      have signed.

    ** The files

    Shared: [Prelude] (results, a state and error monad with its [run] logic and
    [preserves], int64 arithmetic, Go's sort and map ranges), [Text] (hexadecimal
    and decimal), [Runtime] (a concrete runtime and cheap digests, for runs).

    The chain:
    - [Wire], [Decode], [Block]: btcd/wire and chainhash.
    - [Script], [Engine]: btcd/txscript, its parsing and building and its engine;
      reading signatures (btcec/ecdsa) and running a block's inputs (scriptval.go).
    - [Compress], [Storage]: compress.go and the tables of chainio.go.
    - [Chain]: blockindex.go, chainview.go, workmath.  Nodes live in a heap.
    - [Merkle], [Versionbits]: rolling_merkle.go; thresholdstate.go, versionbits.go.
    - [Utxo]: utxoviewpoint.go and utxocache.go.
    - [Validate], [Context]: validate.go, weight.go, difficulty.go.
    - [Process]: process.go, accept.go and chain.go; the state is [BlockChain].
    - [Extend], [Agree], [Reading]: theorems about a block on the tip, a checked
      block that is then connected, and what only reads.
    - [Start]: New, createChainState, initChainState, InitConsistentState.
    - [Mining]: btcd/mining.

    The virtual machine: [VM] (vm.go, block_adapter.go; the state is [VM]),
    [Builder] (block_builder.go, a step relation), [Lifecycle] (the engine's
    calls and the abstract chain they refine).

    The bridge:
    - [Tags], [Amount], [Tiers]: tags.go, params.go, tiers.go.
    - [Peg], [State]: the data of bridge.go, chains.go and signers.go; the state
      read from the chains is [pegState].  [Spend],
      [Redeem]: who can spend the set's coins, and that signers can.
    - [Lineage]: lineage.go.  [Load]: load and audit.  [Build]: coin selection
      and transactions.
    - [SigningLog]: the log of cosign.go and evidence.go.  [Registry]:
      registry.go.  [Cutover], [Fence]: cutover.go, fence.go.
    - [Auth], [Cosigner]: who a signer answers, and what it checks, logs and
      signs.  [Signing], [Answers], [Run], [Proven]: theorems about one answer
      and about every sequence of requests.
    - [Coordinator]: what the coordinator proposes, which signatures it takes
      and what it sends.  [Agreement]: coordinator and signer on one view.

    ** What the theorems show

    - The node.  It refines an abstract chain of accepted blocks whatever the
      engine calls and whichever database transaction fails
      ([Lifecycle.vm_refines]); no output is spent twice and the coins are worth
      what the blocks made ([coins_safe]); accepts of verified blocks succeed
      ([engine_live]); restarts keep the chain ([restart_durable]), any number of
      them, each after calls no write of which failed; what is built is accepted
      ([built_accepted]); parsing is exact ([parse_exact]); the engine is told to
      build ([Builder.wait_ends]).
    - Its parts.  Encodings and tables are read back ([Decode.BtcDecode_spec],
      [decodeTx_encodeTx], [Storage.tables_stored]), the Merkle root and the
      version bits equal their textbook definitions, segwit never activates, and
      the selection of a template's transactions ends.
    - The reserve.  A block that spends a coin locked with the signers' script
      carries the signatures the set requires, its scripts run by the engine
      ([Spend.reserve_needs_signers]), and what the signers assemble passes it
      ([Redeem.assembled_spends]).
    - A signer.  Over all requests, failed writes and restarts (which open the
      log on disk again) it pays an action once and never both credits and returns
      a deposit, if the blocks its nodes show stay ([Run]); each
      answer is what its view justifies, logged before it leaves, and the fees it
      counts as unseen cover what logged transactions may still pay ([Answers],
      [SigningLog.unseenFees_covers]); limits hold; one process of it accepts no
      request twice ([Auth.replays_refused]).
    - The coordinator sends only what enough signers vouch for, sends again only
      what its view shows waiting, and two transactions of one step to one chain
      conflict ([Coordinator.sends_backed]); an honest signer agrees with it
      ([Agreement.signer_agrees]).
    - The peg's state.  Messages count only on signers' transactions, every
      deposit is owed once ([Load]), every signer finds the same anchor
      ([Lineage]), transactions are exact to the koinu ([Build], [Fence]), and a
      log is trusted again only when nothing it may have signed can spend, over
      all requests and restarts ([Proven.proven_all_cleared]).

    ** How the code is modelled

    A Go function is a function, one that fails returns a [result], a method
    that changes its receiver runs in [St], whose errors keep the state they
    leave.  Fixed-width integers are [Z] with their wrap-around.  Bytes are lists
    of [Z].  Pointers that are shared and compared are heap addresses.  Orders Go
    leaves open (maps, unstable sorts) come from [GoRuntime], and a theorem holds
    for each.  Failures of the database and of the memory accounting are lists of
    answers the state holds.  Clocks and the mempool are arguments.

    Fuel.  Every walk up the block tree (ancestors, forks, windows of a
    deployment, replays) is given one step more than the node's height, and each
    step goes to a lower node.  Walks over a script, over the inputs of a fence or
    over 64-bit numbers are given the length or the 64 turns those have.  The
    lineage is given a step for each coin and one more, as the code bounds it;
    the template's loop a turn for each transaction and one more; the script
    engine, in each of its scripts, a step for each byte; orphans as many
    as the pool holds, and two.  That a bound is never what ends a loop is part of
    [Lineage.tip_spec], [Versionbits.deploymentState_cached],
    [Merkle.CalcMerkleRoot_spec], [Mining.selection_spec],
    [Lifecycle.restart_durable] and [Engine.Execute_ends].

    Classes state what code outside the model promises: [Crypto] with
    [CryptoOk] (SHA-256 and RIPEMD-160 give digests of their length), [PubKeys]
    (points decompress to what was compressed), [ScriptEngine] (running a block's
    scripts, with no law; [Engine.btcdScripts] implements it), [Ecdsa] with
    [EcdsaOk] (parsing of keys, verification, and a cache filled by it),
    [GoRuntime] (sorting sorts, a range visits each key once).  Each has
    an instance the witnesses run on.

    ** Not modelled

    - Elliptic curves: keys and verification are parameters.  Witness programs
      and taproot: they never activate.  The theorems about the node hold for any
      script engine; those about the reserve for btcd's.
    - The mempool's policy: a template is built from any transactions it gives.
    - The database's files: a transaction of it is one step that happens or fails.
    - Peers, synchronisation, RPC, indexes, gossip, HTTP and TLS, the command
      lines, the web service and the ceremony: input and output around what is
      modelled.  A chain the bridge reads is a record of what its node answers.
    - Checkpoints and pruning, which DogecoinVM does not use; InvalidateBlock and
      ReconsiderBlock, which only RPC calls; the CPU miner.
    - Decoding addresses operators type, and reading configuration files. *)

From stdpp Require Export base gmap sets list strings sorting fin_maps.
From Stdlib Require Export ZArith Lia.

#[export] Set Default Goal Selector "!".

Open Scope Z_scope.

(** ** Errors and results

    A Go function returning [(T, error)] is a function to [result T]. The
    sentinel errors the code tests with errors.Is are constructors of their
    own, and so are the rule errors of btcd; every other error keeps only its
    message.  A run-time panic is an outcome too. *)

Inductive error :=
| errPaused | errInsolvent | errLineEnded | errQuarantined
| errCancelSent | errCreditable | errNotRefundable
| errBroken | errParentNotAccepted | errWrongHeight | errNonCanonicalBlock
| errNoCoinbase | errBlockProcessing | errNotInitialized | errNotFound
| ruleError (msg : string)
| goPanic (msg : string)
| Errorf (msg : string).

#[export] Instance error_eq_dec : EqDecision error.
Proof. solve_decision. Defined.

Inductive result (A : Type) :=
| Ok (a : A)
| Err (e : error).
Arguments Ok {A} a.
Arguments Err {A} e.

#[export] Instance result_ret : MRet result := fun A => @Ok A.
#[export] Instance result_bind : MBind result := fun A B f m =>
  match m with Ok a => f a | Err e => Err e end.
#[export] Instance result_fmap : FMap result := fun A B f m =>
  match m with Ok a => Ok (f a) | Err e => Err e end.

(** [check b e; k] is Go's [if !b { return e }]. *)
Definition ensure (b : bool) (e : error) : result unit :=
  if b then Ok tt else Err e.

Definition is_ok {A} (r : result A) : bool :=
  match r with Ok _ => true | Err _ => false end.

Definition from_option_err {A} (o : option A) (e : error) : result A :=
  match o with Some a => Ok a | None => Err e end.

Lemma bind_Ok_l {A B} (f : A → result B) a : (Ok a ≫= f) = f a.
Proof. done. Qed.

Lemma bind_Ok {A B} (f : A → result B) m b :
  m ≫= f = Ok b ↔ ∃ a, m = Ok a ∧ f a = Ok b.
Proof. destruct m; simpl; naive_solver. Qed.

Lemma ensure_Err b e e' : ensure b e = Err e' ↔ b = false ∧ e' = e.
Proof. destruct b; simpl; naive_solver. Qed.

Lemma ensure_Ok b e u : ensure b e = Ok u ↔ b = true.
Proof. destruct b, u; simpl; naive_solver. Qed.

(** ** A state monad whose errors keep the state already written

    [St S A] is a method with receiver state [S] returning [(A, error)]:
    what it wrote before failing stays written. *)

Definition St (S A : Type) := S → result A * S.

#[export] Instance st_ret {S} : MRet (St S) := fun A a s => (Ok a, s).
#[export] Instance st_bind {S} : MBind (St S) := fun A B f m s =>
  match m s with (Ok a, s') => f a s' | (Err e, s') => (Err e, s') end.

Definition st_get {S} : St S S := fun s => (Ok s, s).
Definition st_put {S} (s' : S) : St S unit := fun _ => (Ok tt, s').
Definition st_lift {S A} (r : result A) : St S A := fun s => (r, s).
Definition st_ensure {S} (b : bool) (e : error) : St S unit := st_lift (ensure b e).

Lemma st_get_bind {S A} (f : S → St S A) s : (st_get ≫= f) s = f s s.
Proof. done. Qed.

Lemma st_bind_run {S A B} (f : A → St S B) (m : St S A) s :
  (m ≫= f) s = match m s with (Ok a, s') => f a s' | (Err e, s') => (Err e, s') end.
Proof. done. Qed.

Lemma st_lift_bind {S A B} (r : result A) (f : A → St S B) s :
  (st_lift r ≫= f) s = match r with Ok a => f a s | Err e => (Err e, s) end.
Proof. by destruct r. Qed.

Lemma st_bind_Ok {S A B} (f : A → St S B) (m : St S A) s b s' :
  (m ≫= f) s = (Ok b, s') ↔ ∃ a s1, m s = (Ok a, s1) ∧ f a s1 = (Ok b, s').
Proof.
  unfold mbind, st_bind. destruct (m s) as [[a|e] s1]; naive_solver.
Qed.

(** A method keeps R between the state it starts in and the one it leaves,
    whether it succeeds or fails. *)
Definition preserves {S A} (R : S → S → Prop) (m : St S A) : Prop :=
  ∀ s r s', m s = (r, s') → R s s'.

Lemma preserves_ret {S A} (R : S → S → Prop) `{!Reflexive R} (a : A) : preserves R (mret a).
Proof. intros s r s' [= _ <-]. reflexivity. Qed.

Lemma preserves_lift {S A} (R : S → S → Prop) `{!Reflexive R} (a : result A) : preserves R (st_lift a).
Proof. intros s r s' [= _ <-]. reflexivity. Qed.

Lemma preserves_get {S} (R : S → S → Prop) `{!Reflexive R} : preserves R st_get.
Proof. intros s r s' [= _ <-]. reflexivity. Qed.

Lemma preserves_bind {S A B} (R : S → S → Prop) `{!Transitive R} (m : St S A) (f : A → St S B) :
  preserves R m → (∀ a, preserves R (f a)) → preserves R (m ≫= f).
Proof.
  intros Hm Hf s r s'. unfold mbind, st_bind. destruct (m s) as [[a|e] s1] eqn:E.
  - intros Hfa. transitivity s1; [by eapply Hm|by eapply Hf].
  - intros [= _ <-]. by eapply Hm.
Qed.

(** A check that is passed. *)
Lemma preserves_lift_bind {S A B} (R : S → S → Prop) `{!PreOrder R} (x : result A) (f : A → St S B) :
  (∀ a, x = Ok a → preserves R (f a)) → preserves R (st_lift x ≫= f).
Proof.
  intros Hf c r c'. rewrite st_bind_run. destruct x as [a|e]; cbn [st_lift]; [by apply Hf|]. intros [= _ <-]. reflexivity.
Qed.

(** What a run of a method satisfies. *)
Definition run {S A} (m : St S A) (s : S) (Q : result A → S → Prop) : Prop :=
  match m s with (r, s') => Q r s' end.

Lemma run_ret {S A} (a : A) (s : S) Q : Q (Ok a) s → run (mret a) s Q.
Proof. done. Qed.

Lemma run_lift {S A} (r : result A) (s : S) Q : Q r s → run (st_lift r) s Q.
Proof. done. Qed.

Lemma run_bind {S A B} (m : St S A) (f : A → St S B) s Q :
  run m s (fun r s' => match r with Ok a => run (f a) s' Q | Err e => Q (Err e) s' end) → run (m ≫= f) s Q.
Proof. unfold run, mbind, st_bind. by destruct (m s) as [[a|e] s1]. Qed.

Lemma run_get {S A} (f : S → St S A) s Q : run (f s) s Q → run (st_get ≫= f) s Q.
Proof. done. Qed.

Lemma run_lift_bind {S A B} (r : result A) (f : A → St S B) s Q :
  (∀ a, r = Ok a → run (f a) s Q) → (∀ e, r = Err e → Q (Err e) s) → run (st_lift r ≫= f) s Q.
Proof. intros Ha He. apply run_bind, run_lift. destruct r; eauto. Qed.

Lemma run_mono {S A} (m : St S A) s (Q Q' : result A → S → Prop) :
  run m s Q → (∀ r s', Q r s' → Q' r s') → run m s Q'.
Proof. unfold run. destruct (m s) as [r s']. auto. Qed.

Lemma run_and {S A} (m : St S A) s (Q Q' : result A → S → Prop) :
  run m s Q → run m s Q' → run m s (fun r s' => Q r s' ∧ Q' r s').
Proof. unfold run. by destruct (m s). Qed.

Lemma run_preserves {S A} (R : S → S → Prop) (m : St S A) s :
  preserves R m → run m s (fun _ s' => R s s').
Proof. intros Hm. unfold run. destruct (m s) as [r s'] eqn:E. by eapply Hm. Qed.

(** ** int64 arithmetic *)

Definition two63 : Z := 9223372036854775808.
Definition two64 : Z := 18446744073709551616.

Definition wrap64 (z : Z) : Z := (z + two63) mod two64 - two63.

Definition i64_ok (z : Z) : Prop := - two63 ≤ z < two63.

Declare Scope go_scope.
Delimit Scope go_scope with go.
Notation "x [+] y" := (wrap64 (x + y)) (at level 50, left associativity) : go_scope.
Notation "x [-] y" := (wrap64 (x - y)) (at level 50, left associativity) : go_scope.
Notation "x [*] y" := (wrap64 (x * y)) (at level 40, left associativity) : go_scope.
Open Scope go_scope.

Definition uint32 (z : Z) : Z := z mod 4294967296.
Definition two32 : Z := 4294967296.

Lemma wrap64_small z : i64_ok z → wrap64 z = z.
Proof.
  unfold i64_ok, wrap64, two63, two64. intros H. rewrite Z.mod_small; lia.
Qed.

Lemma wrap64_ok z : i64_ok (wrap64 z).
Proof.
  unfold i64_ok, wrap64, two63, two64.
  pose proof (Z.mod_pos_bound (z + 9223372036854775808) 18446744073709551616). lia.
Qed.

Lemma wrap64_mod a b : a mod two64 = b mod two64 → wrap64 a = wrap64 b.
Proof.
  intros H. unfold wrap64. f_equal.
  rewrite (Zplus_mod a), H, <- Zplus_mod. done.
Qed.

Lemma wrap64_eq_mod a : wrap64 a mod two64 = a mod two64.
Proof.
  unfold wrap64. rewrite Zminus_mod_idemp_l. f_equal. lia.
Qed.

Lemma wrap64_wrap64 a : wrap64 (wrap64 a) = wrap64 a.
Proof. apply wrap64_small, wrap64_ok. Qed.

Lemma wrap64_add_l a b : wrap64 (wrap64 a + b) = wrap64 (a + b).
Proof.
  apply wrap64_mod. rewrite <- Zplus_mod_idemp_l, wrap64_eq_mod.
  by rewrite Zplus_mod_idemp_l.
Qed.

Lemma wrap64_add_r a b : wrap64 (a + wrap64 b) = wrap64 (a + b).
Proof. by rewrite Z.add_comm, wrap64_add_l, Z.add_comm. Qed.

Lemma wrap64_sub_l a b : wrap64 (wrap64 a - b) = wrap64 (a - b).
Proof. apply (wrap64_add_l a (- b)). Qed.

Lemma wrap64_sub_r a b : wrap64 (a - wrap64 b) = wrap64 (a - b).
Proof.
  apply wrap64_mod. rewrite <- Zminus_mod_idemp_r, wrap64_eq_mod.
  by rewrite Zminus_mod_idemp_r.
Qed.

(** Pushes every inner wrap-around to the outside, where ranges remove it. *)
Ltac wrap64_norm :=
  repeat (rewrite wrap64_add_l || rewrite wrap64_add_r ||
          rewrite wrap64_sub_l || rewrite wrap64_sub_r || rewrite wrap64_wrap64).

Ltac i64 := unfold i64_ok, two63 in *; lia.

(** ** Sums *)

Definition sumZ (l : list Z) : Z := foldr Z.add 0 l.

(** [for _, x := range l { total += x }] *)
Definition sum64 (l : list Z) : Z := foldl (fun t x => t [+] x) 0 l.

Lemma sumZ_cons x l : sumZ (x :: l) = x + sumZ l.
Proof. done. Qed.

Lemma sumZ_app l1 l2 : sumZ (l1 ++ l2) = sumZ l1 + sumZ l2.
Proof. induction l1 as [|x l1 IH]; simpl; [lia|]. unfold sumZ in *. simpl. lia. Qed.

Lemma sumZ_Permutation l1 l2 : l1 ≡ₚ l2 → sumZ l1 = sumZ l2.
Proof. induction 1; simpl in *; unfold sumZ in *; simpl; lia. Qed.

#[export] Instance sumZ_Proper : Proper ((≡ₚ) ==> (=)) sumZ.
Proof. intros l1 l2. apply sumZ_Permutation. Qed.

Lemma sumZ_zero l : Forall (fun x => x = 0) l → sumZ l = 0.
Proof. induction 1 as [|x l -> _ IH]; [done|]. by rewrite sumZ_cons, IH. Qed.

Lemma sumZ_nonneg l : Forall (fun x => 0 ≤ x) l → 0 ≤ sumZ l.
Proof. induction 1; simpl; unfold sumZ in *; simpl; lia. Qed.

Lemma foldl_add64 l t :
  foldl (fun t x => t [+] x) t l = if decide (l = []) then t else wrap64 (t + sumZ l).
Proof.
  revert t. induction l as [|x l IH]; intros t; [done|].
  rewrite decide_False by done. simpl. rewrite IH.
  case_decide; subst; simpl; [f_equal; lia|]. rewrite wrap64_add_l. f_equal.
  unfold sumZ; simpl; lia.
Qed.

Lemma sum64_wrap l : sum64 l = wrap64 (sumZ l).
Proof. unfold sum64. rewrite foldl_add64. case_decide; subst; done. Qed.

Lemma sum64_small l : i64_ok (sumZ l) → sum64 l = sumZ l.
Proof. intros. by rewrite sum64_wrap, wrap64_small. Qed.

(** ** Loops *)

(** What holds before a loop and is kept by each round holds after it. *)
Lemma foldl_inv {A B} (P : A → Prop) (f : A → B → A) (l : list B) a :
  P a → (∀ a x, x ∈ l → P a → P (f a x)) → P (foldl f a l).
Proof.
  revert a. induction l as [|x l IH]; intros a Ha Hf; [done|]. simpl.
  apply IH; [apply Hf; [by left|done]|]. intros a' y Hy. apply Hf. by right.
Qed.

(** [for _, x := range l { if p(x) { total += v(x) } }] *)
Lemma foldl_sum_if {A} (p : A → bool) (v : A → Z) l t :
  wrap64 (foldl (fun t x => if p x then t [+] v x else t) t l) =
  wrap64 (t + sumZ (v <$> filter (fun x => p x = true) l)).
Proof.
  revert t. induction l as [|x l IH]; intros t; simpl; [f_equal; lia|].
  rewrite IH, filter_cons. destruct (p x).
  - rewrite decide_True, fmap_cons, wrap64_add_l, sumZ_cons by done. f_equal. lia.
  - by rewrite decide_False.
Qed.

Lemma sumZ_le_filter {A} (P : A → Prop) `{∀ x, Decision (P x)} (v : A → Z) l :
  Forall (fun x => 0 ≤ v x) l → 0 ≤ sumZ (v <$> filter P l) ≤ sumZ (v <$> l).
Proof.
  induction 1 as [|x l Hx Hl IH]; [done|]. rewrite filter_cons.
  case_decide; rewrite ?fmap_cons, ?sumZ_cons in *; lia.
Qed.

Lemma foldl_sum_if_exact {A} (p : A → bool) (v : A → Z) l :
  Forall (fun x => 0 ≤ v x) l → sumZ (v <$> l) < two63 →
  foldl (fun t x => if p x then t [+] v x else t) 0 l = sumZ (v <$> filter (fun x => p x = true) l).
Proof.
  intros Hl Hs. pose proof (sumZ_le_filter (fun x => p x = true) v l Hl) as Hb.
  assert (Hr : i64_ok (foldl (fun t x => if p x then t [+] v x else t) 0 l)).
  { apply foldl_inv; [done|]. intros t x _ Ht. destruct (p x); [apply wrap64_ok|done]. }
  rewrite <- (wrap64_small _ Hr), foldl_sum_if. apply wrap64_small. i64.
Qed.

(** Sums over parts of a list that cover another part exactly once. *)
Lemma sumZ_three_filters {A} (p q r o : A → bool) (v : A → Z) l :
  (∀ x, x ∈ l → Z.b2z (p x) + Z.b2z (q x) + Z.b2z (r x) = Z.b2z (o x)) →
  sumZ (v <$> filter (fun x => p x = true) l) + sumZ (v <$> filter (fun x => q x = true) l) +
  sumZ (v <$> filter (fun x => r x = true) l) = sumZ (v <$> filter (fun x => o x = true) l).
Proof.
  induction l as [|x l IH]; intros Hx; [done|].
  specialize (IH ltac:(intros y Hy; apply Hx; by right)).
  specialize (Hx x ltac:(by left)). rewrite !filter_cons.
  destruct (p x), (q x), (r x), (o x); simpl in Hx; try lia;
    repeat ((rewrite decide_True by done) || (rewrite decide_False by done));
    rewrite ?fmap_cons, ?sumZ_cons; lia.
Qed.

(** ** Bytes *)

Abbreviation bytes := (list Z).

Definition byte_ok (b : Z) : Prop := 0 ≤ b < 256.
Definition bytes_ok (l : bytes) : Prop := Forall byte_ok l.

(** Little-endian encodings (encoding/binary). *)
Fixpoint le_bytes (n : nat) (z : Z) : bytes :=
  match n with O => [] | S n => z mod 256 :: le_bytes n (z / 256) end.

Fixpoint le_Z (l : bytes) : Z :=
  match l with [] => 0 | b :: l => b + 256 * le_Z l end.

Lemma le_bytes_length n z : length (le_bytes n z) = n.
Proof. revert z. induction n; simpl; auto. Qed.

Lemma le_bytes_ok n z : bytes_ok (le_bytes n z).
Proof.
  revert z. induction n as [|n IH]; intros z; [constructor|].
  constructor; [apply Z.mod_pos_bound; lia|apply IH].
Qed.

Lemma le_Z_le_bytes n z : 0 ≤ z < 256 ^ Z.of_nat n → le_Z (le_bytes n z) = z.
Proof.
  revert z. induction n as [|n IH]; intros z Hz; simpl; [simpl in Hz; lia|].
  rewrite IH.
  - pose proof (Z.div_mod z 256). lia.
  - rewrite Nat2Z.inj_succ, Z.pow_succ_r in Hz by lia.
    split; [apply Z.div_pos; lia|apply Z.div_lt_upper_bound; lia].
Qed.

Lemma le_bytes_le_Z l : bytes_ok l → le_bytes (length l) (le_Z l) = l.
Proof.
  induction 1 as [|b l Hb Hl IH]; [done|]. unfold byte_ok in Hb.
  cbn [length le_Z le_bytes].
  rewrite (Z.mul_comm 256), Z.mod_add, Z.mod_small, Z.div_add, Z.div_small by lia.
  by rewrite Z.add_0_l, IH.
Qed.

Lemma cons_last {A} (x : A) l : (x :: l) !! length l = Some (default x (last l)).
Proof. revert x; induction l as [|y l IH]; intros x; [done|]. cbn [length]. rewrite last_cons. simpl. rewrite IH. by destruct (last l). Qed.

Lemma le_Z_app l l' : le_Z (l ++ l') = le_Z l + 256 ^ Z.of_nat (length l) * le_Z l'.
Proof.
  induction l as [|b l IH]; [change (le_Z l' = 0 + 1 * le_Z l'); lia|]. cbn [app le_Z length].
  rewrite IH, Nat2Z.inj_succ, Z.pow_succ_r by lia. lia.
Qed.

Lemma le_Z_bounds l : bytes_ok l → 0 ≤ le_Z l < 256 ^ Z.of_nat (length l).
Proof.
  induction 1 as [|b l Hb Hl IH]; [simpl; lia|]. unfold byte_ok in Hb.
  cbn [length le_Z]. rewrite Nat2Z.inj_succ, Z.pow_succ_r by lia. lia.
Qed.

(** ** The runtime

    Two things Go leaves open: in which order sort.Slice leaves equal
    elements, and in which order range visits a map. Every theorem holds for
    any choice that keeps the documented promise. *)

(** less is a strict weak order, as sort.Slice asks of it. *)
Definition weak_order {A} (less : A → A → bool) : Prop :=
  (∀ x y, less x y = true → less y x = false) ∧
  (∀ x y z, less x z = true → less x y = true ∨ less y z = true).

Class GoRuntime := {
  sort_slice : ∀ {A}, (A → A → bool) → list A → list A;
  map_range : ∀ {K A} `{Countable K}, gmap K A → list (K * A);
}.

Class GoRuntimeOk `{GoRuntime} := {
  sort_slice_perm : ∀ {A} (less : A → A → bool) l, sort_slice less l ≡ₚ l;
  sort_slice_sorted : ∀ {A} (less : A → A → bool) l,
    weak_order less → StronglySorted (fun x y => less y x = false) (sort_slice less l);
  map_range_perm : ∀ {K A} `{Countable K} (m : gmap K A), map_range m ≡ₚ map_to_list m;
}.

(** ** Automation *)

Create HintDb doge.

#[export] Hint Resolve wrap64_ok le_bytes_ok : doge.

(** What a method built from methods that preserve a relation preserves. *)
Create HintDb steps.
#[export] Hint Resolve preserves_ret preserves_lift preserves_get : steps.

Ltac preserve :=
  repeat first
    [ progress intros
    | solve [eauto with steps typeclass_instances]
    | apply preserves_bind; [apply _|..]
    | match goal with |- preserves _ (if ?b then _ else _) => destruct b end
    | match goal with |- preserves _ (match ?x with _ => _ end) => destruct x end ].

(** Inverts every [Ok] bind and guard of a hypothesis. *)
Ltac ok_inv :=
  repeat match goal with
  | H : mbind _ _ = Ok _ |- _ => apply bind_Ok in H as (? & ? & ?)
  | H : ensure _ _ = Ok _ |- _ => apply ensure_Ok in H
  | H : Ok _ = Ok _ |- _ => injection H as H
  | H : Err _ = Ok _ |- _ => discriminate H
  | H : mret _ = Ok _ |- _ => injection H as H
  end.
