(* ===== verification/Text.v ===== *)
(** Strings: the parts of Go's encoding/hex, strconv and strings packages the
    program's identifiers go through. A Go string is a [string]: its
    characters are its bytes. Hexadecimal ([hex_encode], [hex_decode]) and
    decimal ([dec], [parse_uint]) forms each come with their round trip. *)

From Stdlib Require Import Ascii String.
From stdpp Require Import strings.
From S2P Require Import Prelude.

(** ** Characters *)

Definition code (c : ascii) : Z := Z.of_N (N_of_ascii c).
Definition chr (z : Z) : ascii := ascii_of_N (Z.to_N z).

Lemma code_chr z : byte_ok z → code (chr z) = z.
Proof.
  intros Hz. unfold code, chr, byte_ok in *.
  rewrite N_ascii_embedding; lia.
Qed.

Lemma code_ok c : byte_ok (code c).
Proof.
  unfold code, byte_ok. pose proof (N_ascii_bounded c). lia.
Qed.

(** ** encoding/hex *)

Definition hex_digit (n : Z) : ascii := if n <? 10 then chr (48 + n) else chr (87 + n).

Definition unhex (c : ascii) : option Z :=
  let n := code c in
  if (48 <=? n) && (n <=? 57) then Some (n - 48)
  else if (97 <=? n) && (n <=? 102) then Some (n - 87)
  else if (65 <=? n) && (n <=? 70) then Some (n - 55)
  else None.

(** hex.EncodeToString *)
Fixpoint hex_encode (l : bytes) : string :=
  match l with
  | [] => EmptyString
  | b :: l => String (hex_digit (b / 16)) (String (hex_digit (b mod 16)) (hex_encode l))
  end.

(** hex.DecodeString *)
Fixpoint hex_decode (s : string) : option bytes :=
  match s with
  | EmptyString => Some []
  | String a (String b s) =>
      x ← unhex a; y ← unhex b; l ← hex_decode s; Some (16 * x + y :: l)
  | String _ EmptyString => None
  end.

Lemma unhex_hex_digit n : 0 ≤ n < 16 → unhex (hex_digit n) = Some n.
Proof.
  intros Hn. unfold hex_digit, unhex.
  destruct (Z.ltb_spec n 10); rewrite code_chr by (unfold byte_ok; lia).
  - rewrite (proj2 (Z.leb_le 48 _)), (proj2 (Z.leb_le _ 57)) by lia. simpl. f_equal. lia.
  - rewrite (proj2 (Z.leb_gt _ 57)), andb_false_r by lia.
    rewrite (proj2 (Z.leb_le 97 _)), (proj2 (Z.leb_le _ 102)) by lia. simpl. f_equal. lia.
Qed.

Lemma hex_decode_encode l : bytes_ok l → hex_decode (hex_encode l) = Some l.
Proof.
  induction 1 as [|b l Hb Hl IH]; [done|]. unfold byte_ok in Hb. simpl.
  rewrite !unhex_hex_digit.
  - simpl. rewrite IH. simpl. do 2 f_equal. pose proof (Z.div_mod b 16). lia.
  - split; [apply Z.div_pos|apply Z.div_lt_upper_bound]; lia.
  - apply Z.mod_pos_bound. lia.
Qed.

Lemma hex_encode_length l : String.length (hex_encode l) = (2 * length l)%nat.
Proof. induction l as [|b l IH]; simpl; [done|]. rewrite IH. lia. Qed.

Lemma unhex_range c n : unhex c = Some n → 0 ≤ n < 16.
Proof.
  unfold unhex. intros H.
  repeat case_match; simplify_eq;
    repeat match goal with H : (_ && _)%bool = true |- _ =>
      apply andb_true_iff in H as [?%Z.leb_le ?%Z.leb_le] end; lia.
Qed.

Lemma hex_decode_ok s l : hex_decode s = Some l → bytes_ok l.
Proof.
  revert l. induction s as [s IH] using (induction_ltof1 _ String.length).
  unfold ltof in IH. intros l Hl.
  destruct s as [|a [|b s]]; simplify_eq/=; [constructor|].
  destruct (unhex a) as [x|] eqn:Ha, (unhex b) as [y|] eqn:Hb; simplify_eq/=.
  destruct (hex_decode s) as [l'|] eqn:Hs; simplify_eq/=.
  apply unhex_range in Ha, Hb. constructor; [unfold byte_ok; lia|].
  eapply (IH s); [simpl; lia|done].
Qed.

(** No hexadecimal digit is a colon: an outpoint's hash ends at its colon. *)
Lemma hex_decode_length s l : hex_decode s = Some l → String.length s = (2 * length l)%nat.
Proof.
  revert s. enough (He : ∀ n s, (String.length s ≤ n)%nat → ∀ l, hex_decode s = Some l →
    String.length s = (2 * length l)%nat) by (intros s; by eapply He).
  clear l. intros n. induction n as [|n IH]; intros s Hn l.
  { destruct s; simpl in *; [by intros [= <-]|lia]. }
  destruct s as [|a [|b s]]; simpl in *; [by intros [= <-]|done|].
  destruct (unhex a); simpl; [|done]. destruct (unhex b); simpl; [|done].
  destruct (hex_decode s) as [l'|] eqn:E; simpl; [|done]. intros [= <-]. simpl.
  rewrite (IH s) with (l := l'); [lia|lia|done].
Qed.

Lemma hex_digit_not_colon n : 0 ≤ n < 16 → hex_digit n ≠ ":"%char.
Proof.
  intros Hn H. apply (f_equal code) in H. unfold hex_digit in H.
  destruct (Z.ltb_spec n 10); rewrite code_chr in H by (unfold byte_ok; lia);
    vm_compute (code ":"%char) in H; lia.
Qed.

(** The bytes of a string. *)
Definition ofString (s : string) : bytes := code <$> list_ascii_of_string s.

(** ** strconv: decimals *)

Definition digit (n : Z) : ascii := chr (48 + n).
Definition is_digit (c : ascii) : bool := (48 <=? code c) && (code c <=? 57).
Definition undigit (c : ascii) : Z := code c - 48.

(** The digits of [n], before [acc]; [fuel] at least the number of digits. *)
Fixpoint dec_go (fuel : nat) (n : Z) (acc : string) : string :=
  match fuel with
  | O => acc
  | S fuel =>
      if n <? 10 then String (digit n) acc
      else dec_go fuel (n / 10) (String (digit (n mod 10)) acc)
  end.

(** strconv.FormatUint(n, 10) *)
Definition dec (n : Z) : string := dec_go (S (Z.to_nat (Z.log2 n))) n EmptyString.

(** The value of a string of digits read after [acc]. *)
Fixpoint undec (acc : Z) (s : string) : option Z :=
  match s with
  | EmptyString => Some acc
  | String c s => if is_digit c then undec (acc * 10 + undigit c) s else None
  end.

(** strconv.ParseUint(s, 10, bits), where max is the largest value. *)
Definition parse_uint (max : Z) (s : string) : option Z :=
  match s with
  | EmptyString => None
  | _ => n ← undec 0 s; if n <=? max then Some n else None
  end.

Lemma digit_spec n : 0 ≤ n < 10 → is_digit (digit n) = true ∧ undigit (digit n) = n.
Proof.
  intros Hn. unfold is_digit, undigit, digit. rewrite code_chr by (unfold byte_ok; lia).
  rewrite (proj2 (Z.leb_le 48 _)), (proj2 (Z.leb_le _ 57)) by lia. split; [done|lia].
Qed.

Lemma log2_div10 n : 10 ≤ n → (Z.to_nat (Z.log2 (n / 10)) < Z.to_nat (Z.log2 n))%nat.
Proof.
  intros Hn.
  assert (Hq : 0 < n / 10) by (apply Z.div_str_pos; lia).
  assert (Hl : Z.log2 (n / 10) + 1 ≤ Z.log2 n).
  { rewrite Z.add_1_r, <- Z.log2_double by lia. apply Z.log2_le_mono.
    pose proof (Z.div_mod n 10). pose proof (Z.mod_pos_bound n 10). lia. }
  pose proof (Z.log2_nonneg (n / 10)). lia.
Qed.

Lemma undec_dec_go fuel n acc start :
  0 ≤ n → (Z.to_nat (Z.log2 n) < fuel)%nat →
  ∃ k, 0 < k ∧ undec start (dec_go fuel n acc) = undec (start * k + n) acc.
Proof.
  revert n acc start. induction fuel as [|fuel IH]; intros n acc start Hn Hf; [lia|].
  cbn [dec_go]. destruct (Z.ltb_spec n 10).
  - exists 10. split; [lia|]. simpl.
    destruct (digit_spec n) as [-> ->]; [lia|done].
  - pose proof (log2_div10 n). pose proof (Z.div_pos n 10).
    destruct (IH (n / 10) (String (digit (n mod 10)) acc) start) as (k & Hk & ->); [lia..|].
    exists (k * 10). split; [lia|]. simpl.
    pose proof (Z.mod_pos_bound n 10).
    destruct (digit_spec (n mod 10)) as [-> ->]; [lia|].
    f_equal. pose proof (Z.div_mod n 10). lia.
Qed.

Lemma undec_dec n : 0 ≤ n → undec 0 (dec n) = Some n.
Proof.
  intros Hn. unfold dec.
  destruct (undec_dec_go (S (Z.to_nat (Z.log2 n))) n EmptyString 0) as (k & _ & ->); [lia..|].
  done.
Qed.

Lemma dec_go_nonempty fuel n acc : dec_go (S fuel) n acc ≠ EmptyString.
Proof.
  revert n acc. induction fuel as [|fuel IH]; intros n acc; cbn [dec_go];
    destruct (n <? 10); try done. apply IH.
Qed.

Lemma parse_uint_dec max n : 0 ≤ n ≤ max → parse_uint max (dec n) = Some n.
Proof.
  intros Hn. unfold parse_uint.
  destruct (dec n) as [|c s] eqn:E; [by apply dec_go_nonempty in E|].
  rewrite <- E, undec_dec by lia. simpl.
  by rewrite (proj2 (Z.leb_le n max)) by lia.
Qed.

Lemma dec_inj n m : 0 ≤ n → 0 ≤ m → dec n = dec m → n = m.
Proof.
  intros Hn Hm H. apply (f_equal (undec 0)) in H. rewrite !undec_dec in H by lia. by simplify_eq.
Qed.

Lemma parse_uint_range max s n : parse_uint max s = Some n → n ≤ max.
Proof.
  unfold parse_uint. destruct s as [|c s]; [done|].
  destruct (undec 0 _); simpl; [|done]. case_match eqn:E; intros; simplify_eq.
  by apply Z.leb_le.
Qed.

(** ** strings *)

(** The parts of s around its last colon (strings.LastIndexByte). *)
Fixpoint cut_last (s : string) : option (string * string) :=
  match s with
  | EmptyString => None
  | String c s =>
      match cut_last s with
      | Some (a, b) => Some (String c a, b)
      | None => if decide (c = ":"%char) then Some (EmptyString, s) else None
      end
  end.

Fixpoint no_colon (s : string) : Prop :=
  match s with EmptyString => True | String c s => c ≠ ":"%char ∧ no_colon s end.

Lemma cut_last_None s : no_colon s → cut_last s = None.
Proof.
  induction s as [|c s IH]; [done|]. intros [Hc Hs]. simpl.
  rewrite IH by done. by rewrite decide_False.
Qed.

Lemma cut_last_app a b : no_colon b → cut_last (a +:+ String ":" b) = Some (a, b).
Proof.
  intros Hb. induction a as [|c a IH]; cbn [cut_last String.app].
  - simpl. by rewrite cut_last_None.
  - simpl in *. by rewrite IH.
Qed.

Lemma digit_not_colon n : 0 ≤ n < 10 → digit n ≠ ":"%char.
Proof.
  intros Hn H. apply (f_equal code) in H. unfold digit in H.
  rewrite code_chr in H by (unfold byte_ok; lia). vm_compute (code ":"%char) in H. lia.
Qed.

Lemma dec_go_no_colon fuel n acc : 0 ≤ n → no_colon acc → no_colon (dec_go fuel n acc).
Proof.
  revert n acc. induction fuel as [|fuel IH]; intros n acc Hn Ha; [done|].
  cbn [dec_go]. destruct (Z.ltb_spec n 10).
  - split; [apply digit_not_colon; lia|done].
  - apply IH; [apply Z.div_pos; lia|]. split; [|done].
    apply digit_not_colon, Z.mod_pos_bound. lia.
Qed.

Lemma dec_no_colon n : 0 ≤ n → no_colon (dec n).
Proof. intros. by apply dec_go_no_colon. Qed.

Lemma string_app_inj_l (a b c : string) : a +:+ b = a +:+ c → b = c.
Proof. induction a; simpl; intros H; [done|]. simplify_eq. auto. Qed.

(** ** The strings package, on ASCII *)

Definition is_space (c : ascii) : bool :=
  (code c =? 32) || ((9 <=? code c) && (code c <=? 13)).

Fixpoint trim_left (s : string) : string :=
  match s with
  | String c s' => if is_space c then trim_left s' else s
  | EmptyString => EmptyString
  end.

(** Whether every character is a space. *)
Fixpoint all_space (s : string) : bool :=
  match s with EmptyString => true | String c s => is_space c && all_space s end.

Fixpoint trim_right (s : string) : string :=
  match s with
  | EmptyString => EmptyString
  | String c s' => if all_space s then EmptyString else String c (trim_right s')
  end.

(** strings.TrimSpace *)
Definition trim_space (s : string) : string := trim_right (trim_left s).

(** strings.Split(s, sep) for a one-character sep: always at least one part. *)
Fixpoint split_on (sep : ascii) (s : string) : list string :=
  match s with
  | EmptyString => [EmptyString]
  | String c s =>
      if decide (c = sep) then EmptyString :: split_on sep s
      else match split_on sep s with
           | part :: parts => String c part :: parts
           | [] => [String c EmptyString]
           end
  end.

(** strings.Cut(s, sep): around the first sep, if any. *)
Fixpoint cut (sep : ascii) (s : string) : option (string * string) :=
  match s with
  | EmptyString => None
  | String c s =>
      if decide (c = sep) then Some (EmptyString, s)
      else match cut sep s with Some (a, b) => Some (String c a, b) | None => None end
  end.

(** strings.Fields(s), with the field being read. *)
Fixpoint fields_go (cur : string) (s : string) : list string :=
  match s with
  | EmptyString => if decide (cur = EmptyString) then [] else [cur]
  | String c s =>
      if is_space c
      then (if decide (cur = EmptyString) then [] else [cur]) ++ fields_go EmptyString s
      else fields_go (cur +:+ String c EmptyString) s
  end.
Definition fields (s : string) : list string := fields_go EmptyString s.

(** strconv.ParseInt(s, 10, 64) *)
Definition parse_int (s : string) : option Z :=
  match s with
  | String "-" s => n ← parse_uint two63 s; Some (- n)
  | String "+" s => parse_uint (two63 - 1) s
  | _ => parse_uint (two63 - 1) s
  end.

Lemma cut_app a b : no_colon a → cut ":" (a +:+ String ":" b) = Some (a, b).
Proof.
  induction a as [|c a IH]; intros Ha; simpl; [done|].
  destruct Ha as [Hc Ha]. rewrite decide_False by done. by rewrite IH.
Qed.
