(* ===== verification/Wire.v ===== *)
(** Transactions and their encoding: src/btcd/wire/msgtx.go, the variable
    length integers of src/btcd/wire/common.go, and the hashes of
    src/btcd/chaincfg/chainhash. [MsgTx] is a transaction, [Serialize] its
    encoding and [TxHash] its identifier; the decoder is in [Decode.v]. SHA-256
    and RIPEMD-160 are the operations of [Crypto]. *)

From Stdlib Require Import Ascii String.
From stdpp Require Import strings.
From S2P Require Import Prelude Text.

(** ** Cryptographic primitives *)

Class Crypto := {
  sha256 : bytes → bytes;
  ripemd160 : bytes → bytes;
}.

(** What is documented of them: the size of a digest, which is bytes. *)
Class CryptoOk `{Crypto} : Prop := {
  sha256_length l : length (sha256 l) = 32%nat;
  sha256_bytes l : bytes_ok (sha256 l);
  ripemd160_length l : length (ripemd160 l) = 20%nat;
  ripemd160_bytes l : bytes_ok (ripemd160 l);
}.

(** ** chainhash.Hash: 32 bytes *)

Definition HashSize : nat := 32.
Definition zeroHash : bytes := replicate HashSize 0.

Definition hash_ok (h : bytes) : Prop := length h = HashSize ∧ bytes_ok h.

(** String is the hexadecimal string of the byte-reversed hash. *)
Definition Hash_String (h : bytes) : string := hex_encode (reverse h).

(** Decode: at most 64 digits, odd lengths and short strings padded with
    leading zeros, then the bytes reversed. *)
Definition NewHashFromStr (s : string) : result bytes :=
  if (64 <? Z.of_nat (String.length s)) then Err (Errorf "max hash string length is 64 bytes") else
  let s := if Nat.even (String.length s) then s else String "0" s in
  l ← from_option_err (hex_decode s) (Errorf "invalid hex");
  Ok (reverse (replicate (HashSize - length l) 0 ++ l)).

Lemma NewHashFromStr_String h : hash_ok h → NewHashFromStr (Hash_String h) = Ok h.
Proof.
  intros [Hlen Hok]. unfold NewHashFromStr, Hash_String.
  rewrite hex_encode_length, length_reverse, Hlen. cbn -[hex_encode hex_decode reverse].
  rewrite hex_decode_encode by (by apply Forall_reverse).
  cbn [from_option_err mbind result_bind].
  rewrite length_reverse, Hlen, Nat.sub_diag. cbn [replicate app].
  by rewrite reverse_involutive.
Qed.

Lemma Hash_String_inj h1 h2 :
  hash_ok h1 → hash_ok h2 → Hash_String h1 = Hash_String h2 → h1 = h2.
Proof.
  intros H1 H2 H. apply (f_equal NewHashFromStr) in H.
  rewrite !NewHashFromStr_String in H by done. by simplify_eq.
Qed.

Lemma NewHashFromStr_ok s h : NewHashFromStr s = Ok h → hash_ok h.
Proof.
  unfold NewHashFromStr. destruct (Z.ltb_spec 64 (Z.of_nat (String.length s))) as [|Hlen]; [done|].
  set (s' := if Nat.even _ then _ else _).
  assert (Hlen' : (String.length s' ≤ 64)%nat).
  { subst s'. destruct (Nat.even (String.length s)) eqn:E; [lia|]. simpl.
    destruct (decide (String.length s = 64%nat)) as [E'|]; [by rewrite E' in E|lia]. }
  destruct (hex_decode s') as [l|] eqn:E; simpl; [|done]. intros [= <-].
  pose proof (hex_decode_length _ _ E). apply hex_decode_ok in E. split.
  - rewrite length_reverse, length_app, length_replicate. unfold HashSize. lia.
  - apply Forall_reverse, Forall_app. split; [|done]. apply Forall_replicate. unfold byte_ok. lia.
Qed.

(** ** Outpoints, inputs, outputs, transactions *)

Record OutPoint := mkOutPoint { Hash : bytes; Index : Z }.

#[export] Instance OutPoint_eq_dec : EqDecision OutPoint.
Proof. solve_decision. Defined.
#[export] Instance OutPoint_countable : Countable OutPoint.
Proof.
  refine (inj_countable' (fun o => (Hash o, Index o)) (fun '(h, i) => mkOutPoint h i) _).
  by intros [].
Defined.

Definition zeroOutPoint : OutPoint := mkOutPoint zeroHash 0.

Definition outpoint_ok (o : OutPoint) : Prop := hash_ok (Hash o) ∧ 0 ≤ Index o < two32.

Definition OutPoint_String (o : OutPoint) : string :=
  Hash_String (Hash o) +:+ String ":" (dec (Index o)).

(** parseOutPoint reads TXID:VOUT. *)
Definition parseOutPoint (s : string) : result OutPoint :=
  match cut_last s with
  | None => Err (Errorf "deposit must be TXID:VOUT")
  | Some (h, v) =>
      hash ← NewHashFromStr h;
      vout ← from_option_err (parse_uint (two32 - 1) v) (Errorf "invalid vout");
      Ok (mkOutPoint hash (uint32 vout))
  end.

Lemma parseOutPoint_OutPoint_String o :
  outpoint_ok o → parseOutPoint (OutPoint_String o) = Ok o.
Proof.
  intros [Hh Hi]. unfold parseOutPoint, OutPoint_String.
  rewrite cut_last_app by (apply dec_no_colon; lia).
  rewrite NewHashFromStr_String by done. simpl.
  rewrite parse_uint_dec by (unfold two32 in *; lia). simpl.
  unfold uint32. rewrite Z.mod_small by (unfold two32 in *; lia). by destruct o.
Qed.

Lemma parseOutPoint_ok s o : parseOutPoint s = Ok o → outpoint_ok o.
Proof.
  unfold parseOutPoint. destruct (cut_last s) as [[h v]|]; [|done]. intros E. ok_inv. subst.
  split; [by eapply NewHashFromStr_ok|]. simpl. by apply Z.mod_pos_bound.
Qed.

Lemma OutPoint_String_inj o1 o2 :
  outpoint_ok o1 → outpoint_ok o2 → OutPoint_String o1 = OutPoint_String o2 → o1 = o2.
Proof.
  intros H1 H2 H. apply (f_equal parseOutPoint) in H.
  rewrite !parseOutPoint_OutPoint_String in H by done. by simplify_eq.
Qed.

Record TxIn := mkTxIn {
  PreviousOutPoint : OutPoint;
  SignatureScript : bytes;
  Witness : list bytes;
  Sequence : Z;
}.

Record TxOut := mkTxOut { Value : Z; PkScript : bytes }.

Record MsgTx := mkMsgTx {
  Version : Z;
  txIn : list TxIn;
  txOut : list TxOut;
  LockTime : Z;
}.

#[export] Instance TxIn_eq_dec : EqDecision TxIn.
Proof. solve_decision. Defined.
#[export] Instance TxOut_eq_dec : EqDecision TxOut.
Proof. solve_decision. Defined.
#[export] Instance MsgTx_eq_dec : EqDecision MsgTx.
Proof. solve_decision. Defined.

Definition TxVersion : Z := 1.
Definition MaxTxInSequenceNum : Z := 4294967295.
Definition MaxPrevOutIndex : Z := 4294967295.

Definition NewTxIn (prevOut : OutPoint) (signatureScript : bytes) (witness : list bytes) : TxIn :=
  mkTxIn prevOut signatureScript witness MaxTxInSequenceNum.

Definition NewTxOut (value : Z) (pkScript : bytes) : TxOut := mkTxOut value pkScript.

Definition NewMsgTx (version : Z) : MsgTx := mkMsgTx version [] [] 0.

Definition AddTxIn (msg : MsgTx) (ti : TxIn) : MsgTx :=
  mkMsgTx (Version msg) (txIn msg ++ [ti]) (txOut msg) (LockTime msg).

Definition AddTxOut (msg : MsgTx) (to : TxOut) : MsgTx :=
  mkMsgTx (Version msg) (txIn msg) (txOut msg ++ [to]) (LockTime msg).

(** The outpoints a transaction spends. *)
Definition prevOuts (tx : MsgTx) : list OutPoint := PreviousOutPoint <$> txIn tx.

(** A coinbase's input names no output. *)
Definition nullOut : OutPoint := mkOutPoint zeroHash MaxPrevOutIndex.

(** The outputs a transaction spends. *)
Definition spentOuts (tx : MsgTx) : list OutPoint := filter (fun op => op ≠ nullOut) (prevOuts tx).

Definition HasWitness (msg : MsgTx) : bool :=
  existsb (fun ti => negb (Nat.eqb (length (Witness ti)) 0)) (txIn msg).

(** ** Encoding *)

Definition WriteVarInt (val : Z) : bytes :=
  if val <? 253 then [val]
  else if val <=? 65535 then 253 :: le_bytes 2 val
  else if val <=? 4294967295 then 254 :: le_bytes 4 val
  else 255 :: le_bytes 8 val.

Definition WriteVarBytes (l : bytes) : bytes := WriteVarInt (Z.of_nat (length l)) ++ l.

Definition writeOutPoint (op : OutPoint) : bytes := Hash op ++ le_bytes 4 (Index op).

Definition writeTxIn (ti : TxIn) : bytes :=
  writeOutPoint (PreviousOutPoint ti) ++ WriteVarBytes (SignatureScript ti) ++
  le_bytes 4 (Sequence ti).

Definition WriteTxOut (to : TxOut) : bytes :=
  le_bytes 8 (Value to mod two64) ++ WriteVarBytes (PkScript to).

Definition writeTxWitness (wit : list bytes) : bytes :=
  WriteVarInt (Z.of_nat (length wit)) ++ concat (WriteVarBytes <$> wit).

Definition TxFlagMarker : Z := 0.
Definition WitnessFlag : Z := 1.

(** btcEncode; [witnessEncoding] is enc == WitnessEncoding. *)
Definition btcEncode (witnessEncoding : bool) (msg : MsgTx) : bytes :=
  let doWitness := witnessEncoding && HasWitness msg in
  le_bytes 4 (Version msg mod two32) ++
  (if doWitness then [TxFlagMarker; WitnessFlag] else []) ++
  WriteVarInt (Z.of_nat (length (txIn msg))) ++ concat (writeTxIn <$> txIn msg) ++
  WriteVarInt (Z.of_nat (length (txOut msg))) ++ concat (WriteTxOut <$> txOut msg) ++
  (if doWitness then concat ((fun ti => writeTxWitness (Witness ti)) <$> txIn msg) else []) ++
  le_bytes 4 (LockTime msg).

Definition Serialize (msg : MsgTx) : bytes := btcEncode true msg.
Definition SerializeNoWitness (msg : MsgTx) : bytes := btcEncode false msg.

Section hashing.
Context `{Crypto}.

(** chainhash.DoubleHashRaw *)
Definition DoubleHashRaw (serialized : bytes) : bytes := sha256 (sha256 serialized).

Definition TxHash (msg : MsgTx) : bytes := DoubleHashRaw (SerializeNoWitness msg).

(** unsignedHash is a transaction's txid with its signatures stripped. *)
Definition stripSigs (tx : MsgTx) : MsgTx :=
  mkMsgTx (Version tx)
    ((fun ti => mkTxIn (PreviousOutPoint ti) [] [] (Sequence ti)) <$> txIn tx)
    (txOut tx) (LockTime tx).

Definition unsignedHash (tx : MsgTx) : bytes := TxHash (stripSigs tx).

Definition Hash160 (buf : bytes) : bytes := ripemd160 (sha256 buf).

Lemma TxHash_ok `{!CryptoOk} msg : hash_ok (TxHash msg).
Proof. split; [apply sha256_length|apply sha256_bytes]. Qed.
End hashing.

(** encodeTx and decodeTx: hexadecimal. *)
Definition encodeTx (tx : MsgTx) : string := hex_encode (Serialize tx).

(** ** Integers of a width *)

(** A 64-bit pattern as an int64, and a 32-bit one as an int32. *)
Definition int64_of (u : Z) : Z := wrap64 u.
Definition int32_of (u : Z) : Z := if u <? 2147483648 then u else u - two32.

Definition u32_ok (z : Z) : Prop := 0 ≤ z < two32.

Lemma int32_of_mod v : -2147483648 ≤ v < 2147483648 → int32_of (v mod two32) = v.
Proof.
  intros Hv. unfold int32_of, two32.
  destruct (Z.ltb_spec v 0).
  - rewrite <- (Z.mod_unique_pos v 4294967296 (-1) (v + 4294967296)) by lia.
    rewrite (proj2 (Z.ltb_ge _ _)) by lia. lia.
  - rewrite Z.mod_small by lia. by rewrite (proj2 (Z.ltb_lt _ _)) by lia.
Qed.

Lemma int32_of_range u : u32_ok u → -2147483648 ≤ int32_of u < 2147483648 ∧ int32_of u mod two32 = u.
Proof.
  unfold u32_ok, int32_of, two32. intros Hu. destruct (Z.ltb_spec u 2147483648); split; try lia.
  - by apply Z.mod_small.
  - symmetry. apply (Z.mod_unique_pos _ _ (-1)); lia.
Qed.

Lemma int64_of_mod v : i64_ok v → int64_of (v mod two64) = v.
Proof. intros Hv. unfold int64_of. rewrite <- (wrap64_small v Hv) at 2. apply wrap64_mod. by rewrite Z.mod_mod. Qed.

Lemma int64_of_range u : 0 ≤ u < two64 → int64_of u mod two64 = u.
Proof. intros Hu. unfold int64_of. rewrite wrap64_eq_mod. by apply Z.mod_small. Qed.

(** A concrete transaction: two inputs (one with a script and a witness) and
    two outputs. *)
Definition sampleTx : MsgTx :=
  mkMsgTx 2
    [mkTxIn (mkOutPoint (replicate 32 7) 1) [81; 82] [[1; 2]; []] MaxTxInSequenceNum;
     mkTxIn (mkOutPoint (replicate 32 255) 0) [] [] 4294967293]
    [mkTxOut 100000000 [169]; mkTxOut (-1) []] 17.
