(* ===== verification/Runtime.v ===== *)
(** A runtime for concrete runs: a Go runtime that sorts by insertion and
    ranges over a map in its own order, and cheap digests. *)

From S2P Require Import Prelude.
From S2P Require Import Wire.

(** ** A runtime: insertion sort, and a map in its own order *)

Fixpoint insert_by {A} (less : A → A → bool) (x : A) (l : list A) : list A :=
  match l with
  | [] => [x]
  | y :: l => if less y x then y :: insert_by less x l else x :: y :: l
  end.

Definition insertion_sort {A} (less : A → A → bool) (l : list A) : list A :=
  foldr (insert_by less) [] l.

Definition goRuntime : GoRuntime := {|
  sort_slice := @insertion_sort;
  map_range := fun K A _ _ m => map_to_list m;
|}.

Lemma insert_by_perm {A} (less : A → A → bool) x l : insert_by less x l ≡ₚ x :: l.
Proof.
  induction l as [|y l IH]; [done|]. simpl. case_match; [|done].
  rewrite IH. apply Permutation_swap.
Qed.

Lemma insertion_sort_perm {A} (less : A → A → bool) l : insertion_sort less l ≡ₚ l.
Proof.
  induction l as [|x l IH]; [done|]. simpl. by rewrite insert_by_perm, IH.
Qed.

Lemma insert_by_sorted {A} (less : A → A → bool) x l :
  weak_order less → StronglySorted (fun x y => less y x = false) l →
  StronglySorted (fun x y => less y x = false) (insert_by less x l).
Proof.
  intros [Has Hwk]. induction 1 as [|y l Hl IH Hy]; [repeat constructor|]. simpl.
  case_match eqn:E.
  - constructor; [done|]. rewrite insert_by_perm. constructor; [by apply Has|done].
  - constructor; [by constructor|]. constructor; [done|].
    eapply Forall_impl; [exact Hy|]. intros z Hz. destruct (less z x) eqn:E'; [|done].
    destruct (Hwk z y x E'); congruence.
Qed.

Lemma goRuntime_ok : @GoRuntimeOk goRuntime.
Proof.
  split.
  - intros. apply insertion_sort_perm.
  - intros A less l Hw. induction l as [|x l IH]; [constructor|].
    by apply insert_by_sorted.
  - done.
Qed.

(** ** Digests *)

(** A cheap hash for concrete runs: digests of the right size, of the bytes
    as digits to a base. *)
Definition mix (l : bytes) : Z := foldl (fun a b => (a * 257 + b + 1) mod 1099511627776) 0 l.

Definition toyCrypto : Crypto := {|
  sha256 := fun l => le_bytes 5 (mix l) ++ replicate 27 0;
  ripemd160 := fun l => le_bytes 5 (mix l) ++ replicate 15 0;
|}.

Lemma toyCrypto_ok : @CryptoOk toyCrypto.
Proof.
  split; intros l; [done| |done|];
    (apply Forall_app; split; [apply le_bytes_ok|apply Forall_replicate; unfold byte_ok; lia]).
Qed.
