(* ===== verification/Decode.v ===== *)
(** Reading transactions: src/btcd/wire/msgtx.go and the variable length
    integers of src/btcd/wire/common.go. A [reader] is what is left of the
    input, with what is left of the slab the scripts of one transaction are
    read into. [reads] says that a reader takes exactly an encoding, [soundly]
    that whatever it took was one, and [safe] that it does not panic. *)

From Stdlib Require Import Ascii String.
From stdpp Require Import strings.
From S2P Require Import Prelude.
From S2P Require Import Text.
From S2P Require Import Wire.

(** ** Readers *)

Record reader := mkReader { unread : bytes; room : Z }.

(** io.ReadFull. *)
Definition ReadFull (n : nat) : St reader bytes := fun r =>
  if decide (length (unread r) < n)%nat then (Err (Errorf "unexpected EOF"), r)
  else (Ok (take n (unread r)), mkReader (drop n (unread r)) (room r)).

Definition readLE (n : nat) : St reader Z := l ← ReadFull n; mret (le_Z l).

Definition ReadVarInt : St reader Z :=
  discriminant ← readLE 1;
  if discriminant =? 255 then
    rv ← readLE 8; _ ← st_ensure (4294967296 <=? rv) (Errorf "non-canonical varint"); mret rv
  else if discriminant =? 254 then
    rv ← readLE 4; _ ← st_ensure (65536 <=? rv) (Errorf "non-canonical varint"); mret rv
  else if discriminant =? 253 then
    rv ← readLE 2; _ ← st_ensure (253 <=? rv) (Errorf "non-canonical varint"); mret rv
  else mret discriminant.

(** ** Transactions *)

Definition MaxMessagePayload : Z := 33554432.
Definition maxTxInPerMessage : Z := MaxMessagePayload / 41 + 1.
Definition maxTxOutPerMessage : Z := MaxMessagePayload / 9 + 1.
Definition maxWitnessItemsPerInput : Z := 4000000.
Definition maxWitnessItemSize : Z := 4000000.
Definition scriptSlabSize : Z := 4194304.

Definition sliceBounds : error := goPanic "slice bounds out of range".

(** The slab is sliced to the length the input claims, then cut behind it. *)
Definition sliceSlab (count : Z) : St reader unit :=
  r ← st_get; st_ensure (count <=? room r) sliceBounds.

Definition cutSlab (count : Z) : St reader unit := fun r => (Ok tt, mkReader (unread r) (room r - count)).

Definition readScript : St reader bytes :=
  count ← ReadVarInt;
  _ ← st_ensure (count <=? maxWitnessItemSize) (Errorf "script is larger than the max allowed size");
  _ ← sliceSlab count;
  s ← ReadFull (Z.to_nat count);
  _ ← cutSlab count;
  mret s.

Definition readOutPoint : St reader OutPoint :=
  h ← ReadFull 32; i ← readLE 4; mret (mkOutPoint h i).

Definition readTxIn : St reader TxIn :=
  op ← readOutPoint; s ← readScript; q ← readLE 4; mret (mkTxIn op s [] q).

Definition readTxOut : St reader TxOut :=
  v ← readLE 8; s ← readScript; mret (mkTxOut (int64_of v) s).

(** [for i := 0; i < n; i++ { l[i] = m }] *)
Fixpoint readMany {A} (n : nat) (m : St reader A) : St reader (list A) :=
  match n with
  | O => mret []
  | S n => x ← m; l ← readMany n m; mret (x :: l)
  end.

Definition readWitness (ti : TxIn) : St reader TxIn :=
  witCount ← ReadVarInt;
  _ ← st_ensure (witCount <=? maxWitnessItemsPerInput) (Errorf "too many witness items");
  w ← readMany (Z.to_nat witCount) readScript;
  mret (mkTxIn (PreviousOutPoint ti) (SignatureScript ti) w (Sequence ti)).

Fixpoint readWitnesses (l : list TxIn) : St reader (list TxIn) :=
  match l with
  | [] => mret []
  | ti :: l => ti' ← readWitness ti; l' ← readWitnesses l; mret (ti' :: l')
  end.

(** The marker and the flag, when the input count is not where it is expected. *)
Definition readTxInCount : St reader (bool * Z) :=
  count0 ← ReadVarInt;
  if count0 =? TxFlagMarker then
    flag ← readLE 1;
    _ ← st_ensure (flag =? WitnessFlag) (Errorf "witness tx but flag byte is wrong");
    count ← ReadVarInt; mret (true, count)
  else mret (false, count0).

Definition readTxWitnesses (flagged : bool) (ins : list TxIn) : St reader (list TxIn) :=
  if flagged then
    ins' ← readWitnesses ins;
    _ ← st_ensure (HasWitness (mkMsgTx 0 ins' [] 0)) (Errorf "witness flag set but tx has no witnesses");
    mret ins'
  else mret ins.

(** btcDecode with the witness encoding. *)
Definition btcDecode : St reader MsgTx :=
  version ← readLE 4;
  '(flagged, count) ← readTxInCount;
  _ ← st_ensure (count <=? maxTxInPerMessage) (Errorf "too many input transactions");
  ins ← readMany (Z.to_nat count) readTxIn;
  outCount ← ReadVarInt;
  _ ← st_ensure (outCount <=? maxTxOutPerMessage) (Errorf "too many output transactions");
  outs ← readMany (Z.to_nat outCount) readTxOut;
  ins' ← readTxWitnesses flagged ins;
  lockTime ← readLE 4;
  mret (mkMsgTx (int32_of version) ins' outs lockTime).

(** Every transaction gets the whole slab. *)
Definition borrowSlab : St reader unit := fun r => (Ok tt, mkReader (unread r) scriptSlabSize).

Definition BtcDecode : St reader MsgTx := borrowSlab;; btcDecode.

Definition Deserialize (r : bytes) : result MsgTx := (BtcDecode (mkReader r 0)).1.

Definition decodeTx (hexTx : string) : result MsgTx :=
  raw ← from_option_err (hex_decode hexTx) (Errorf "invalid hex");
  Deserialize raw.

(** ** Well-formed transactions

    What Go's types and the decoder's limits guarantee of a decoded one. *)

Definition script_ok (s : bytes) : Prop :=
  bytes_ok s ∧ Z.of_nat (length s) ≤ maxWitnessItemSize.

Record txin_ok (ti : TxIn) : Prop := {
  txin_ok_prev : outpoint_ok (PreviousOutPoint ti);
  txin_ok_script : script_ok (SignatureScript ti);
  txin_ok_wit : Forall script_ok (Witness ti);
  txin_ok_wits : Z.of_nat (length (Witness ti)) ≤ maxWitnessItemsPerInput;
  txin_ok_seq : u32_ok (Sequence ti);
}.

Record txout_ok (to : TxOut) : Prop := {
  txout_ok_value : i64_ok (Value to);
  txout_ok_script : script_ok (PkScript to);
}.

(** What the scripts of a transaction take of the slab. *)
Definition size (s : bytes) : Z := Z.of_nat (length s).
Definition sigSize (ti : TxIn) : Z := size (SignatureScript ti).
Definition witSize (ti : TxIn) : Z := sumZ (size <$> Witness ti).
Definition pkSize (to : TxOut) : Z := size (PkScript to).
Definition slabSize (tx : MsgTx) : Z :=
  sumZ (sigSize <$> txIn tx) + sumZ (pkSize <$> txOut tx) + sumZ (witSize <$> txIn tx).

Record tx_ok (tx : MsgTx) : Prop := {
  tx_ok_version : -2147483648 ≤ Version tx < 2147483648;
  tx_ok_in : Forall txin_ok (txIn tx);
  tx_ok_out : Forall txout_ok (txOut tx);
  tx_ok_lock : u32_ok (LockTime tx);
  tx_ok_ins : 0 < Z.of_nat (length (txIn tx)) ≤ maxTxInPerMessage;
  tx_ok_outs : Z.of_nat (length (txOut tx)) ≤ maxTxOutPerMessage;
  tx_ok_slab : slabSize tx ≤ scriptSlabSize;
}.

Lemma sizes_nonneg {A} (f : A → Z) l : (∀ x, 0 ≤ f x) → 0 ≤ sumZ (f <$> l).
Proof. intros Hf. apply sumZ_nonneg, Forall_fmap, Forall_forall. intros x _. apply Hf. Qed.

Lemma size_nonneg s : 0 ≤ size s.
Proof. unfold size. lia. Qed.

Lemma witSize_nonneg ti : 0 ≤ witSize ti.
Proof. apply sizes_nonneg, size_nonneg. Qed.

(** ** What is written is read

    [reads m enc k x]: the reader takes exactly [enc] off the input and [k]
    off the slab, giving [x]. *)
Definition reads {A} (m : St reader A) (enc : bytes) (k : Z) (x : A) : Prop :=
  ∀ rest room, k ≤ room → m (mkReader (enc ++ rest) room) = (Ok x, mkReader rest (room - k)).

Lemma reads_ret {A} (x : A) : reads (mret x) [] 0 x.
Proof. intros rest room _. by rewrite Z.sub_0_r. Qed.

Lemma reads_bind {A B} (m : St reader A) (f : A → St reader B) e1 e2 k1 k2 x y :
  0 ≤ k2 → reads m e1 k1 x → reads (f x) e2 k2 y → reads (m ≫= f) (e1 ++ e2) (k1 + k2) y.
Proof.
  intros Hk H1 H2 rest room Hr. rewrite st_bind_run, <- app_assoc, H1 by lia. rewrite H2 by lia.
  by rewrite <- Z.sub_add_distr.
Qed.

Lemma reads_ensure {B} b e (m : St reader B) enc k y :
  b = true → reads m enc k y → reads (_ ← st_ensure b e; m) enc k y.
Proof. intros -> H rest room. apply H. Qed.

(** The last reader of a chain, whose result is only repackaged. *)
Lemma reads_bind_ret {A B} (m : St reader A) (f : A → B) e k x :
  reads m e k x → reads (y ← m; mret (f y)) e k (f x).
Proof. intros H rest room Hr. by rewrite st_bind_run, H. Qed.

(** A reader that takes nothing off the slab, before the rest. *)
Lemma reads_bind0 {A B} (m : St reader A) (f : A → St reader B) e1 e2 k x y :
  0 ≤ k → reads m e1 0 x → reads (f x) e2 k y → reads (m ≫= f) (e1 ++ e2) k y.
Proof. intros Hk H1 H2. replace k with (0 + k) by lia. by eapply reads_bind. Qed.

Lemma reads_full n l : length l = n → reads (ReadFull n) l 0 l.
Proof.
  intros <- rest room _. unfold ReadFull. simpl. rewrite decide_False by (rewrite length_app; lia).
  by rewrite take_app_length, drop_app_length, Z.sub_0_r.
Qed.

Lemma reads_le n z : 0 ≤ z < 256 ^ Z.of_nat n → reads (readLE n) (le_bytes n z) 0 z.
Proof.
  intros Hz. unfold readLE. rewrite <- (le_Z_le_bytes n z) at 2 by done.
  apply (reads_bind_ret (ReadFull n) le_Z). apply reads_full, le_bytes_length.
Qed.

Lemma reads_le1 b : byte_ok b → reads (readLE 1) [b] 0 b.
Proof.
  intros Hb. unfold byte_ok in Hb. replace [b] with (le_bytes 1 b); [apply reads_le; simpl; lia|].
  simpl. by rewrite Z.mod_small.
Qed.

Lemma reads_VarInt v : 0 ≤ v < two64 → reads ReadVarInt (WriteVarInt v) 0 v.
Proof.
  intros Hv. unfold WriteVarInt, ReadVarInt, two64 in *.
  assert (Hd : ∀ d f enc y, byte_ok d → reads (f d) enc 0 y →
    reads (discriminant ← readLE 1; f discriminant : St reader Z) (d :: enc) 0 y).
  { intros d f enc y Hb Hk. apply (reads_bind0 (readLE 1) f [d] enc 0 d); [done|by apply reads_le1|done]. }
  destruct (Z.ltb_spec v 253); [|destruct (Z.leb_spec v 65535);
    [|destruct (Z.leb_spec v 4294967295)]]; apply Hd; try (unfold byte_ok; lia).
  1: { rewrite !(proj2 (Z.eqb_neq v _)) by lia. apply reads_ret. }
  all: rewrite <- (app_nil_r (le_bytes _ _)); eapply reads_bind0;
    [done|apply reads_le; simpl; lia|].
  all: apply reads_ensure; [apply Z.leb_le; lia|apply reads_ret].
Qed.

Lemma reads_script s : script_ok s → reads readScript (WriteVarBytes s) (size s) s.
Proof.
  intros [_ Hs]. unfold readScript, WriteVarBytes, maxWitnessItemSize, size in *.
  apply (reads_bind0 _ _ _ _ _ (Z.of_nat (length s))); [lia|apply reads_VarInt; unfold two64; lia|].
  apply reads_ensure; [apply Z.leb_le; lia|]. intros rest room Hr.
  rewrite st_bind_run. unfold sliceSlab. rewrite st_get_bind. cbn [Decode.room].
  rewrite (proj2 (Z.leb_le _ _)) by done. unfold st_ensure at 1, st_lift at 1, ensure.
  rewrite st_bind_run, (reads_full _ s (eq_sym (Nat2Z.id _))) by lia.
  rewrite st_bind_run. cbn [cutSlab unread Decode.room]. by rewrite Z.sub_0_r.
Qed.

Lemma reads_outpoint op : outpoint_ok op → reads readOutPoint (writeOutPoint op) 0 op.
Proof.
  intros [[Hl Hb] Hi]. unfold readOutPoint, writeOutPoint.
  eapply reads_bind0; [done|by apply reads_full|].
  destruct op as [h i]. apply (reads_bind_ret (readLE 4) (mkOutPoint h)).
  apply reads_le. unfold two32 in Hi. simpl in *. lia.
Qed.

Definition noWitness (ti : TxIn) : TxIn :=
  mkTxIn (PreviousOutPoint ti) (SignatureScript ti) [] (Sequence ti).

Lemma reads_u32 {B} (f : Z → B) z : u32_ok z → reads (y ← readLE 4; mret (f y)) (le_bytes 4 z) 0 (f z).
Proof. intros Hz. apply (reads_bind_ret (readLE 4) f), reads_le. unfold u32_ok, two32 in Hz. simpl. lia. Qed.

Lemma reads_txin ti : txin_ok ti → reads readTxIn (writeTxIn ti) (sigSize ti) (noWitness ti).
Proof.
  intros [Hp Hs _ _ Hq]. unfold readTxIn, writeTxIn, sigSize. pose proof (size_nonneg (SignatureScript ti)).
  eapply reads_bind0; [done|by apply reads_outpoint|]. rewrite <- (Z.add_0_r (size _)).
  eapply reads_bind; [done|by apply reads_script|]. by apply (reads_u32 (mkTxIn _ _ [])).
Qed.

Lemma reads_txout to : txout_ok to → reads readTxOut (WriteTxOut to) (pkSize to) to.
Proof.
  intros [Hv Hs]. unfold readTxOut, WriteTxOut, pkSize. pose proof (size_nonneg (PkScript to)).
  eapply reads_bind0; [done|apply reads_le; apply (Z.mod_pos_bound _ two64); done|].
  destruct to as [v s]; simpl in *. rewrite int64_of_mod by done.
  apply (reads_bind_ret readScript (mkTxOut _)). by apply reads_script.
Qed.

Lemma reads_many {A} (m : St reader A) (enc : A → bytes) (k : A → Z) (f : A → A) l :
  (∀ x, 0 ≤ k x) → (∀ x, x ∈ l → reads m (enc x) (k x) (f x)) →
  reads (readMany (length l) m) (concat (enc <$> l)) (sumZ (k <$> l)) (f <$> l).
Proof.
  intros Hk. induction l as [|x l IH]; intros Hl; [apply reads_ret|].
  rewrite !fmap_cons, sumZ_cons. cbn [length readMany concat].
  eapply reads_bind; [by apply sizes_nonneg|apply Hl; by left|].
  apply (reads_bind_ret (readMany (length l) m) (cons (f x))).
  apply IH. intros y Hy. apply Hl. by right.
Qed.

Lemma reads_witness ti :
  txin_ok ti → reads (readWitness (noWitness ti)) (writeTxWitness (Witness ti)) (witSize ti) ti.
Proof.
  intros [_ _ Hw Hn _]. unfold readWitness, writeTxWitness, maxWitnessItemsPerInput in *.
  eapply reads_bind0; [apply witSize_nonneg|apply reads_VarInt; unfold two64; lia|].
  apply reads_ensure; [apply Z.leb_le; lia|]. rewrite Nat2Z.id. unfold witSize.
  destruct ti as [p s w q]; simpl in *.
  apply (reads_bind_ret (readMany (length w) readScript) (fun w => mkTxIn p s w q)).
  rewrite <- (list_fmap_id w) at 4.
  apply reads_many; [apply size_nonneg|]. intros x Hx. rewrite Forall_forall in Hw. by apply reads_script, Hw.
Qed.

Lemma reads_witnesses l :
  Forall txin_ok l →
  reads (readWitnesses (noWitness <$> l))
    (concat ((fun ti => writeTxWitness (Witness ti)) <$> l)) (sumZ (witSize <$> l)) l.
Proof.
  induction 1 as [|ti l Hti Hl IH]; [apply reads_ret|]. rewrite !fmap_cons, sumZ_cons. cbn [readWitnesses concat].
  eapply reads_bind; [apply sizes_nonneg, witSize_nonneg|by apply reads_witness|].
  by apply (reads_bind_ret (readWitnesses _) (cons ti)).
Qed.

Lemma HasWitness_false l v o t :
  HasWitness (mkMsgTx v l o t) = false → noWitness <$> l = l.
Proof.
  unfold HasWitness; simpl. induction l as [|[p s w q] l IH]; [done|].
  simpl. intros [Hw Hl]%orb_false_iff. destruct w; [|done].
  unfold noWitness at 1; simpl. by f_equal; apply IH.
Qed.

(** The marker and the flag before the input count. *)
Definition witnessMark (flagged : bool) : bytes := if flagged then [TxFlagMarker; WitnessFlag] else [].

Definition witnessPart (flagged : bool) (ins : list TxIn) : bytes :=
  if flagged then concat ((fun ti => writeTxWitness (Witness ti)) <$> ins) else [].

Lemma reads_inCount flagged n :
  0 < n < two64 → reads readTxInCount (witnessMark flagged ++ WriteVarInt n) 0 (flagged, n).
Proof.
  intros Hn. unfold readTxInCount. destruct flagged.
  - change (witnessMark true) with (WriteVarInt 0 ++ [1]). rewrite <- app_assoc.
    eapply reads_bind0; [done|by apply reads_VarInt|]. cbn [Z.eqb TxFlagMarker].
    eapply reads_bind0; [done|by apply reads_le1|]. apply reads_ensure; [done|].
    apply (reads_bind_ret ReadVarInt (pair true)), reads_VarInt. lia.
  - change (witnessMark false) with (@nil Z). rewrite app_nil_l, <- (app_nil_r (WriteVarInt n)).
    eapply reads_bind0; [done|apply reads_VarInt; lia|].
    rewrite (proj2 (Z.eqb_neq _ _)) by (unfold TxFlagMarker; lia). apply reads_ret.
Qed.

Lemma reads_txWitnesses l :
  Forall txin_ok l → reads (readTxWitnesses (HasWitness (mkMsgTx 0 l [] 0)) (noWitness <$> l))
    (witnessPart (HasWitness (mkMsgTx 0 l [] 0)) l) (sumZ (witSize <$> l)) l.
Proof.
  intros Hl. destruct (HasWitness _) eqn:Hw; unfold readTxWitnesses, witnessPart.
  - rewrite <- (app_nil_r (concat _)), <- (Z.add_0_r (sumZ _)).
    eapply reads_bind; [done|by apply reads_witnesses|]. apply reads_ensure; [done|apply reads_ret].
  - rewrite (HasWitness_false _ _ _ _ Hw). replace (sumZ (witSize <$> l)) with 0; [apply reads_ret|].
    clear Hl. induction l as [|ti l IH]; [done|]. cbn [HasWitness existsb txIn] in Hw.
    apply orb_false_iff in Hw as [Hti Hl]. rewrite fmap_cons, sumZ_cons, <- IH by done.
    unfold witSize. by destruct (Witness ti).
Qed.

Lemma reads_tx tx : tx_ok tx → reads btcDecode (Serialize tx) (slabSize tx) tx.
Proof.
  intros [Hv Hi Ho Hl Hni Hno _]. unfold btcDecode, Serialize, btcEncode, slabSize. cbn [andb].
  change maxTxInPerMessage with 818401 in *. change maxTxOutPerMessage with 3728271 in *.
  assert (Hin : reads (readMany (length (txIn tx)) readTxIn)
    (concat (writeTxIn <$> txIn tx)) (sumZ (sigSize <$> txIn tx)) (noWitness <$> txIn tx)).
  { apply reads_many; [intros; apply size_nonneg|]. intros ti Hti. rewrite Forall_forall in Hi. by apply reads_txin, Hi. }
  assert (Hout : reads (readMany (length (txOut tx)) readTxOut)
    (concat (WriteTxOut <$> txOut tx)) (sumZ (pkSize <$> txOut tx)) (txOut tx)).
  { rewrite <- (list_fmap_id (txOut tx)) at 4. apply reads_many; [intros; apply size_nonneg|].
    intros to Hto. rewrite Forall_forall in Ho. by apply reads_txout, Ho. }
  pose proof (sizes_nonneg sigSize (txIn tx) ltac:(intros; apply size_nonneg)).
  pose proof (sizes_nonneg pkSize (txOut tx) ltac:(intros; apply size_nonneg)).
  pose proof (sizes_nonneg witSize (txIn tx) witSize_nonneg).
  eapply reads_bind0; [lia|apply reads_le; apply (Z.mod_pos_bound _ two32); done|].
  rewrite app_assoc. eapply (reads_bind0 _ _ _ _ _ (HasWitness tx, _));
    [lia|apply (reads_inCount (HasWitness tx)); unfold two64; lia|].
  apply reads_ensure; [apply Z.leb_le; lia|]. rewrite Nat2Z.id, <- Z.add_assoc.
  eapply reads_bind; [lia|done|].
  eapply reads_bind0; [lia|apply reads_VarInt; unfold two64; lia|].
  apply reads_ensure; [apply Z.leb_le; lia|]. rewrite Nat2Z.id.
  eapply reads_bind; [lia|done|]. rewrite <- (Z.add_0_r (sumZ (witSize <$> _))).
  eapply reads_bind; [lia|by apply (reads_txWitnesses (txIn tx))|].
  destruct tx as [v i o t]; simpl in *. rewrite int32_of_mod by done. by apply (reads_u32 (mkMsgTx v i o)).
Qed.

(** ** What is read was written

    [soundly m enc k P]: whatever the reader gives satisfies [P], its encoding
    is what was taken off the input, and its scripts fit the slab. *)
Definition soundly {A} (m : St reader A) (enc : A → bytes) (k : A → Z) (P : A → Prop) : Prop :=
  ∀ r x r', bytes_ok (unread r) → m r = (Ok x, r') →
    unread r = enc x ++ unread r' ∧ bytes_ok (unread r') ∧ room r' = room r - k x ∧
    (0 ≤ room r → 0 ≤ room r') ∧ P x.

(** Opens the first reader of a chain. *)
Ltac take_bind H x r :=
  apply st_bind_Ok in H as (x & r & ? & H).

Ltac take_ensure H :=
  let E := fresh in let u := fresh in let r := fresh in
  apply st_bind_Ok in H as (u & r & E & H); unfold st_ensure, st_lift in E; injection E as E <-;
  apply ensure_Ok in E.

Lemma sound_full n : soundly (ReadFull n) id (fun _ => 0) (fun l => length l = n ∧ bytes_ok l).
Proof.
  intros [l k] x r' Hb. unfold ReadFull. simpl. case_decide; [done|]. intros [= <- <-]. simpl.
  rewrite take_drop, length_take_le, Z.sub_0_r by lia. split_and!; try done; [by apply Forall_drop|by apply Forall_take].
Qed.

Lemma sound_le n : soundly (readLE n) (le_bytes n) (fun _ => 0) (fun z => 0 ≤ z < 256 ^ Z.of_nat n).
Proof.
  intros r z r' Hb H. unfold readLE in H. take_bind H l r1. injection H as <- <-.
  destruct (sound_full n r l r1 Hb) as (E&Hb'&Hr&Hr'&El&Hl); [done|]. unfold id in E.
  pose proof (le_bytes_le_Z l Hl) as Ez. pose proof (le_Z_bounds l Hl). rewrite El in *.
  split_and!; try done; [by rewrite Ez|lia..].
Qed.

Lemma sound_VarInt : soundly ReadVarInt WriteVarInt (fun _ => 0) (fun v => 0 ≤ v < two64).
Proof.
  intros r v r' Hb H. unfold ReadVarInt in H. take_bind H d r1.
  destruct (sound_le 1 r d r1 Hb) as (E&Hb1&Hr&Hr'&Hd); [done|]. simpl in Hd.
  assert (le_bytes 1 d = [d]) as Ed by (simpl; by rewrite Z.mod_small).
  rewrite Ed in E. unfold two64, WriteVarInt.
  destruct (Z.eqb_spec d 255) as [->|]; [|destruct (Z.eqb_spec d 254) as [->|]; [|destruct (Z.eqb_spec d 253) as [->|]]].
  4: { injection H as <- <-. rewrite (proj2 (Z.ltb_lt d 253)) by lia. split_and!; try done; lia. }
  all: take_bind H v' r2; take_ensure H; injection H as <- <-.
  all: match goal with H : readLE ?n _ = _ |- _ => destruct (sound_le n _ _ _ Hb1 H) as (E2&Hb2&Hr2&Hr2'&Hv) end.
  all: match goal with H : (_ <=? _) = true |- _ => apply Z.leb_le in H end; simpl in Hv.
  all: rewrite E, E2; destruct (Z.ltb_spec v' 253), (Z.leb_spec v' 65535), (Z.leb_spec v' 4294967295);
    try lia; split_and!; try done; lia.
Qed.

Lemma sound_script : soundly readScript WriteVarBytes size script_ok.
Proof.
  intros r s r' Hb H. unfold readScript in H. take_bind H c r1.
  destruct (sound_VarInt r c r1 Hb) as (E&Hb1&Hr&Hr'&Hc); [done|]. take_ensure H.
  apply st_bind_Ok in H as ([]&r2&Hs&H). unfold sliceSlab in Hs. rewrite st_get_bind in Hs.
  unfold st_ensure, st_lift in Hs. injection Hs as Hs <-. apply ensure_Ok, Z.leb_le in Hs.
  take_bind H s' r3. apply st_bind_Ok in H as ([]&r4&[= <-]&[= <- <-]).
  destruct (sound_full (Z.to_nat c) r1 s' r3 Hb1) as (E1&Hb3&Hr3&_&El&Hbs); [done|]. apply (f_equal Z.of_nat) in El.
  rewrite Z2Nat.id in El by lia. apply Z.leb_le in H1. unfold WriteVarBytes, size, script_ok. cbn [unread Decode.room].
  rewrite El, E, E1, <- app_assoc. unfold id. split_and!; try done; lia.
Qed.

Lemma sound_outpoint : soundly readOutPoint writeOutPoint (fun _ => 0) outpoint_ok.
Proof.
  intros r op r' Hb H. unfold readOutPoint in H. take_bind H h r1. take_bind H i r2. injection H as <- <-.
  destruct (sound_full 32 r h r1 Hb) as (E&Hb1&Hr&Hr'&Hh&Hhb); [done|].
  destruct (sound_le 4 r1 i r2 Hb1) as (E2&Hb2&Hr2&Hr2'&Hi); [done|].
  unfold writeOutPoint, outpoint_ok, hash_ok, two32. simpl in *. rewrite E, E2, <- app_assoc. unfold id.
  split_and!; try done; lia.
Qed.

Lemma sound_txin : soundly readTxIn writeTxIn sigSize (fun ti => txin_ok ti ∧ noWitness ti = ti).
Proof.
  intros r ti r' Hb H. unfold readTxIn in H. take_bind H op r1. take_bind H s r2. take_bind H q r3. injection H as <- <-.
  destruct (sound_outpoint r op r1 Hb) as (E&Hb1&Hr&Hr'&Hop); [done|].
  destruct (sound_script r1 s r2 Hb1) as (E2&Hb2&Hr2&Hr2'&Hs); [done|].
  destruct (sound_le 4 r2 q r3 Hb2) as (E3&Hb3&Hr3&Hr3'&Hq); [done|].
  unfold writeTxIn, sigSize. simpl in *. rewrite E, E2, E3, <- !app_assoc.
  split_and!; try done; try lia.
Qed.

Lemma sound_txout : soundly readTxOut WriteTxOut pkSize txout_ok.
Proof.
  intros r to r' Hb H. unfold readTxOut in H. take_bind H v r1. take_bind H s r2. injection H as <- <-.
  destruct (sound_le 8 r v r1 Hb) as (E&Hb1&Hr&Hr'&Hv); [done|].
  destruct (sound_script r1 s r2 Hb1) as (E2&Hb2&Hr2&Hr2'&Hs); [done|].
  unfold WriteTxOut, pkSize. cbn [Value PkScript]. rewrite int64_of_range, E, E2, <- app_assoc by done.
  split_and!; try done; [lia|lia|]. split; [apply wrap64_ok|done].
Qed.

Lemma sound_many {A} (m : St reader A) enc k (P : A → Prop) n :
  soundly m enc k P →
  soundly (readMany n m) (fun l => concat (enc <$> l)) (fun l => sumZ (k <$> l)) (fun l => length l = n ∧ Forall P l).
Proof.
  intros Hm. induction n as [|n IH]; intros r l r' Hb H; cbn [readMany] in H.
  - injection H as <- <-. simpl. rewrite Z.sub_0_r. split_and!; try done.
  - take_bind H x r1. take_bind H l' r2. injection H as <- <-.
    destruct (Hm r x r1 Hb) as (E&Hb1&Hr&Hr'&Hx); [done|].
    destruct (IH r1 l' r2 Hb1) as (E2&Hb2&Hr2&Hr2'&Hl&HF); [done|].
    rewrite !fmap_cons, sumZ_cons, E, E2. cbn [concat length]. rewrite <- app_assoc.
    split_and!; try done; try lia. by constructor.
Qed.

Lemma noWitness_witSize l : Forall (fun ti => noWitness ti = ti) l → sumZ (witSize <$> l) = 0.
Proof.
  induction 1 as [|ti l Hti Hl IH]; [done|]. rewrite fmap_cons, sumZ_cons, IH. by rewrite <- Hti.
Qed.

Lemma sound_witness ti :
  txin_ok ti → noWitness ti = ti →
  soundly (readWitness ti) (fun ti' => writeTxWitness (Witness ti')) witSize (fun ti' => txin_ok ti' ∧ noWitness ti' = ti).
Proof.
  intros [Hp Hs _ _ Hq] En r ti' r' Hb H. unfold readWitness in H. take_bind H c r1.
  destruct (sound_VarInt r c r1 Hb) as (E&Hb1&Hr&Hr'&Hc); [done|]. take_ensure H. take_bind H w r2.
  injection H as <- <-.
  match goal with H : readMany _ _ r1 = _ |- _ =>
    destruct (sound_many _ _ _ _ (Z.to_nat c) sound_script _ _ _ Hb1 H) as (E2&Hb2&Hr2&Hr2'&El&Hw) end.
  match goal with H : (_ <=? _) = true |- _ => apply Z.leb_le in H as Hle end.
  apply (f_equal Z.of_nat) in El. rewrite Z2Nat.id in El by lia.
  unfold writeTxWitness, witSize, noWitness in *. cbn [Witness PreviousOutPoint SignatureScript Sequence] in *.
  rewrite El, E, E2, <- app_assoc. split_and!; try done; try lia. split; simpl; try done. lia.
Qed.

Lemma sound_witnesses l :
  Forall txin_ok l → Forall (fun ti => noWitness ti = ti) l →
  soundly (readWitnesses l) (fun l' => concat ((fun ti => writeTxWitness (Witness ti)) <$> l'))
    (fun l' => sumZ (witSize <$> l')) (fun l' => Forall txin_ok l' ∧ noWitness <$> l' = l).
Proof.
  intros Hl. induction Hl as [|ti l Hti Hl IH]; intros Hn r l' r' Hb H; cbn [readWitnesses] in H.
  - injection H as <- <-. simpl. rewrite Z.sub_0_r. split_and!; try done.
  - apply Forall_cons in Hn as [En Hn]. take_bind H ti' r1. take_bind H l2 r2. injection H as <- <-.
    destruct (sound_witness ti Hti En r ti' r1 Hb) as (E&Hb1&Hr&Hr'&Hx&Ex); [done|].
    destruct (IH Hn r1 l2 r2 Hb1) as (E2&Hb2&Hr2&Hr2'&HF&El); [done|].
    rewrite !fmap_cons, sumZ_cons, E, E2. cbn [concat]. rewrite <- app_assoc.
    split_and!; try done; try lia; [by constructor|congruence].
Qed.

Lemma writeTxIn_noWitness l : concat (writeTxIn <$> (noWitness <$> l)) = concat (writeTxIn <$> l).
Proof. rewrite <- list_fmap_compose. done. Qed.

Lemma sigSize_noWitness l : sumZ (sigSize <$> (noWitness <$> l)) = sumZ (sigSize <$> l).
Proof. rewrite <- list_fmap_compose. done. Qed.

Lemma sound_inCount :
  soundly readTxInCount (fun '(flagged, n) => witnessMark flagged ++ WriteVarInt n) (fun _ => 0)
    (fun '(flagged, n) => 0 ≤ n < two64 ∧ (flagged = false → 0 < n)).
Proof.
  intros r [flagged n] r' Hb H. unfold readTxInCount in H. take_bind H c r1.
  destruct (sound_VarInt r c r1 Hb) as (E&Hb1&Hr&Hr'&Hc); [done|].
  destruct (Z.eqb_spec c TxFlagMarker) as [->|Hne].
  - take_bind H flag r2. take_ensure H. take_bind H n' r3. injection H as <- <- <-.
    destruct (sound_le 1 r1 flag r2 Hb1) as (E2&Hb2&Hr2&Hr2'&Hf); [done|].
    destruct (sound_VarInt r2 n' r3 Hb2) as (E3&Hb3&Hr3&Hr3'&Hn); [done|].
    match goal with H : (_ =? _) = true |- _ => apply Z.eqb_eq in H as -> end.
    rewrite E, E2, E3. split_and!; try done; try lia.
  - injection H as <- <- <-. rewrite E. split_and!; try done; try lia. intros _. unfold TxFlagMarker in Hne. lia.
Qed.

Lemma sound_txWitnesses flagged l :
  Forall txin_ok l → Forall (fun ti => noWitness ti = ti) l →
  soundly (readTxWitnesses flagged l) (witnessPart flagged) (fun l' => sumZ (witSize <$> l'))
    (fun l' => Forall txin_ok l' ∧ noWitness <$> l' = l ∧ HasWitness (mkMsgTx 0 l' [] 0) = flagged).
Proof.
  intros Hl Hn r l' r' Hb H. unfold readTxWitnesses in H. destruct flagged.
  - take_bind H l2 r1. take_ensure H. injection H as <- <-.
    match goal with H : readWitnesses l r = _ |- _ =>
      destruct (sound_witnesses l Hl Hn r _ _ Hb H) as (E&Hb1&Hr&Hr'&HF&El) end. split_and!; try done.
  - injection H as <- <-. rewrite (noWitness_witSize l Hn), Z.sub_0_r. split_and!; try done.
    + induction Hn as [|ti l Hti Hn' IH]; [done|]. apply Forall_cons in Hl as [_ Hl]. rewrite fmap_cons. f_equal; auto.
    + unfold HasWitness. cbn [txIn]. clear - Hn. induction Hn as [|ti l Hti Hn IH]; [done|]. simpl. by rewrite <- Hti, IH.
Qed.

Lemma HasWitness_nonempty v l o t : HasWitness (mkMsgTx v l o t) = true → (0 < length l)%nat.
Proof. unfold HasWitness. destruct l; simpl; [done|lia]. Qed.

Lemma sound_tx : soundly btcDecode Serialize slabSize (fun tx => 0 ≤ scriptSlabSize - slabSize tx → tx_ok tx).
Proof.
  intros r tx r' Hb H. unfold btcDecode in H. take_bind H v r1. apply st_bind_Ok in H as ([flagged c]&r2&Hc&H).
  destruct (sound_le 4 r v r1 Hb) as (E1&Hb1&Hr1&Hp1&Hv); [done|].
  destruct (sound_inCount r1 _ r2 Hb1 Hc) as (E2&Hb2&Hr2&Hp2&Hc2&Hf). take_ensure H. take_bind H ins r3.
  match goal with H : readMany _ readTxIn _ = _ |- _ =>
    destruct (sound_many _ _ _ _ _ sound_txin _ _ _ Hb2 H) as (E3&Hb3&Hr3&Hp3&El3&HF3) end.
  apply Forall_and in HF3 as [Hin Hnw]. take_bind H oc r4.
  destruct (sound_VarInt r3 oc r4 Hb3) as (E4&Hb4&Hr4&Hp4&Hoc); [done|]. take_ensure H. take_bind H outs r5.
  match goal with H : readMany _ readTxOut _ = _ |- _ =>
    destruct (sound_many _ _ _ _ _ sound_txout _ _ _ Hb4 H) as (E5&Hb5&Hr5&Hp5&El5&Hout) end.
  take_bind H ins' r6.
  match goal with H : readTxWitnesses _ _ _ = _ |- _ =>
    destruct (sound_txWitnesses _ _ Hin Hnw _ _ _ Hb5 H) as (E6&Hb6&Hr6&Hp6&Hin'&Ein&Hw) end.
  take_bind H lk r7. injection H as <- <-.
  destruct (sound_le 4 r6 lk r7 Hb6) as (E7&Hb7&Hr7&Hp7&Hlt); [done|].
  repeat match goal with H : (_ <=? _) = true |- _ => apply Z.leb_le in H end.
  destruct (int32_of_range v) as [Hv1 Hv2]; [done|].
  assert (length ins' = length ins) as Elen by (rewrite <- Ein; by rewrite length_fmap).
  apply (f_equal Z.of_nat) in El3, El5. rewrite Z2Nat.id in El3, El5 by lia.
  assert (HasWitness (mkMsgTx (int32_of v) ins' outs lk) = flagged) as Hw' by exact Hw.
  split_and!; try done.
  - unfold Serialize, btcEncode. cbn [andb Version txIn txOut LockTime]. rewrite Hw', Hv2, Elen, El3, El5.
    rewrite E1, E2, E3, E4, E5, E6, E7, <- Ein, writeTxIn_noWitness, <- !app_assoc. done.
  - unfold slabSize. cbn [txIn txOut]. rewrite <- Ein, sigSize_noWitness in Hr3. lia.
  - lia.
  - intros Hslab. split; cbn [Version txIn txOut LockTime]; try done; [|lia|lia].
    destruct flagged; [apply HasWitness_nonempty in Hw; lia|specialize (Hf eq_refl); lia].
Qed.

(** ** Panics

    The slab holds 4 MiB and a script may claim 4,000,000 bytes, whatever the
    scripts before it have left of the slab. *)

(** A reader that does not panic on an input the slab has room for. *)
Definition roomy (r : reader) : Prop := Z.of_nat (length (unread r)) + maxWitnessItemSize ≤ room r.

Definition safe {A} (m : St reader A) : Prop :=
  ∀ r, roomy r → run m r (fun x r' => (∀ msg, x ≠ Err (goPanic msg)) ∧ roomy r').

Lemma safe_ret {A} (x : A) : safe (mret x).
Proof. intros r Hr. by apply run_ret. Qed.

Lemma safe_bind {A B} (m : St reader A) (f : A → St reader B) : safe m → (∀ x, safe (f x)) → safe (m ≫= f).
Proof.
  intros Hm Hf r Hr. apply run_bind. eapply run_mono; [by apply Hm|]. intros [x|e] r' [Hx Hr']; [by apply Hf|].
  split; [|done]. intros msg [= ->]. by apply (Hx msg).
Qed.

Lemma safe_ensure b e : (∀ msg, e ≠ goPanic msg) → safe (st_ensure b e).
Proof. intros He r Hr. apply run_lift. destruct b; split; try done. intros msg [= ->]. by apply (He msg). Qed.

Lemma safe_full n : safe (ReadFull n).
Proof.
  intros r Hr. unfold run, ReadFull, roomy in *. case_decide; [done|]. cbn [unread room]. rewrite length_drop. split; [done|lia].
Qed.

Create HintDb readers.
#[export] Hint Resolve safe_ret safe_bind safe_full : readers.
#[export] Hint Extern 1 (safe (st_ensure _ (Errorf _))) => (by apply safe_ensure) : readers.

Ltac safely :=
  repeat first
    [ progress intros
    | solve [eauto with readers]
    | apply safe_bind
    | match goal with |- safe (if ?b then _ else _) => destruct b end
    | match goal with |- safe (match ?x with _ => _ end) => destruct x end ].

Lemma safe_le n : safe (readLE n).
Proof. unfold readLE. safely. Qed.
#[export] Hint Resolve safe_le : readers.

Lemma safe_VarInt : safe ReadVarInt.
Proof. unfold ReadVarInt. safely. Qed.
#[export] Hint Resolve safe_VarInt : readers.

Lemma safe_script : safe readScript.
Proof.
  unfold readScript. apply safe_bind; [apply safe_VarInt|]. intros count r Hr. apply run_lift_bind.
  - intros [] Hc%ensure_Ok%Z.leb_le. apply run_bind. unfold sliceSlab. apply run_get, run_lift.
    unfold roomy in *. rewrite (proj2 (Z.leb_le _ _)) by lia. cbn [ensure]. apply run_bind. unfold run at 1, ReadFull.
    case_decide; [done|]. apply run_bind. unfold run at 1, cutSlab. apply run_ret. cbn [unread room].
    rewrite length_drop. split; [done|lia].
  - intros e [_ ->]%ensure_Err. by split.
Qed.
#[export] Hint Resolve safe_script : readers.

Lemma safe_many {A} n (m : St reader A) : safe m → safe (readMany n m).
Proof. intros Hm. induction n; cbn [readMany]; safely. Qed.
#[export] Hint Resolve safe_many : readers.

Lemma safe_txin : safe readTxIn.
Proof. unfold readTxIn, readOutPoint. safely. Qed.

Lemma safe_txout : safe readTxOut.
Proof. unfold readTxOut. safely. Qed.

Lemma safe_witnesses l : safe (readWitnesses l).
Proof. induction l; cbn [readWitnesses]; [safely|]. unfold readWitness. safely. Qed.
#[export] Hint Resolve safe_txin safe_txout safe_witnesses : readers.

Lemma safe_tx : safe btcDecode.
Proof. unfold btcDecode, readTxInCount, readTxWitnesses. safely. Qed.

(** An input whose second script claims more than the first, of [n] bytes, has
    left of the slab. *)
Definition longIn (n : nat) : TxIn := mkTxIn zeroOutPoint (replicate n 0) [] 0.

Definition overflowing (n : nat) : bytes :=
  le_bytes 4 1 ++ WriteVarInt 2 ++ writeTxIn (longIn n) ++ writeOutPoint zeroOutPoint ++ WriteVarInt 4000000.

Lemma longIn_ok n : Z.of_nat n ≤ maxWitnessItemSize → txin_ok (longIn n).
Proof.
  intros Hn. assert (∀ k, bytes_ok (replicate k 0)) as Hb by (intros; apply Forall_replicate; unfold byte_ok; lia).
  split; cbn; [|split; [done|by rewrite length_replicate]|done|unfold maxWitnessItemsPerInput; lia|done].
  split; [split; [done|apply (Hb 32%nat)]|done].
Qed.

Lemma overflowing_length n : 65536 ≤ Z.of_nat n < 4294967296 → Z.of_nat (length (overflowing n)) = Z.of_nat n + 91.
Proof.
  intros Hn. unfold overflowing, writeTxIn, WriteVarBytes, longIn. cbn [PreviousOutPoint SignatureScript Sequence].
  rewrite !length_app, length_replicate. unfold WriteVarInt at 2.
  rewrite (proj2 (Z.ltb_ge _ _)), (proj2 (Z.leb_gt _ _)), (proj2 (Z.leb_le _ _)) by lia.
  cbn [length]. rewrite !le_bytes_length.
  change (length (WriteVarInt 2)) with 1%nat. change (length (writeOutPoint zeroOutPoint)) with 36%nat.
  change (length (WriteVarInt 4000000)) with 5%nat. lia.
Qed.

Lemma overflowing_panics n k :
  194304 < Z.of_nat n ≤ maxWitnessItemSize → (BtcDecode (mkReader (overflowing n) k)).1 = Err sliceBounds.
Proof.
  intros Hn. unfold BtcDecode. rewrite st_bind_run. cbn [borrowSlab unread]. unfold btcDecode, overflowing.
  rewrite st_bind_run, (reads_le 4 1) by done.
  rewrite st_bind_run, (reads_inCount false 2 ltac:(unfold two64; lia)) by done.
  rewrite st_bind_run. cbn [st_ensure st_lift]. change (ensure (2 <=? maxTxInPerMessage) _) with (Ok tt).
  change (Z.to_nat 2) with 2%nat. cbn [readMany].
  assert (sigSize (longIn n) = Z.of_nat n) as Es by (unfold sigSize, size; cbn; by rewrite length_replicate).
  assert (sigSize (longIn n) ≤ scriptSlabSize - 0 - 0) as Hs by (rewrite Es; unfold scriptSlabSize, maxWitnessItemSize in *; lia).
  rewrite st_bind_run, st_bind_run, (reads_txin (longIn n) (longIn_ok n ltac:(lia)) _ _ Hs).
  rewrite st_bind_run, st_bind_run. unfold readTxIn at 1. rewrite st_bind_run, Es.
  rewrite (reads_outpoint zeroOutPoint (txin_ok_prev _ (longIn_ok 0 ltac:(done)))) by ( unfold scriptSlabSize, maxWitnessItemSize in *; lia).
  rewrite st_bind_run. unfold readScript at 1. rewrite <- (app_nil_r (WriteVarInt 4000000)).
  rewrite st_bind_run, (reads_VarInt 4000000) by (unfold two64, scriptSlabSize, maxWitnessItemSize in *; lia).
  rewrite st_bind_run. cbn [st_ensure st_lift]. change (ensure (4000000 <=? maxWitnessItemSize) _) with (Ok tt).
  rewrite st_bind_run. unfold sliceSlab. rewrite st_get_bind. cbn [room st_ensure st_lift].
  rewrite (proj2 (Z.leb_gt _ _)) by (unfold scriptSlabSize, maxWitnessItemSize in *; lia). done.
Qed.

(** A transaction's bytes determine it, even followed by other bytes. *)
Lemma Serialize_inj tx1 tx2 l1 l2 :
  tx_ok tx1 → tx_ok tx2 → Serialize tx1 ++ l1 = Serialize tx2 ++ l2 → tx1 = tx2 ∧ l1 = l2.
Proof.
  intros H1 H2 E. pose proof (reads_tx tx1 H1 l1 scriptSlabSize (tx_ok_slab _ H1)) as R1.
  pose proof (reads_tx tx2 H2 l2 scriptSlabSize (tx_ok_slab _ H2)) as R2. rewrite E, R2 in R1. by injection R1.
Qed.

(** ** The hexadecimal form the nodes exchange *)

Lemma concat_bytes {A} (f : A → bytes) l :
  (∀ x, x ∈ l → bytes_ok (f x)) → bytes_ok (concat (f <$> l)).
Proof.
  induction l as [|x l IH]; intros H; [constructor|].
  apply Forall_app; split; [apply H; by left|]. apply IH. intros y Hy. apply H. by right.
Qed.

Lemma WriteVarInt_bytes v : 0 ≤ v → bytes_ok (WriteVarInt v).
Proof.
  intros Hv. unfold WriteVarInt.
  destruct (Z.ltb_spec v 253); [repeat constructor; unfold byte_ok; lia|].
  repeat case_match; (constructor; [unfold byte_ok; lia|apply le_bytes_ok]).
Qed.

Lemma WriteVarBytes_bytes s : script_ok s → bytes_ok (WriteVarBytes s).
Proof.
  intros [Hs _]. apply Forall_app; split; [apply WriteVarInt_bytes; lia|done].
Qed.

#[export] Hint Resolve WriteVarInt_bytes WriteVarBytes_bytes Nat2Z.is_nonneg : doge.

Lemma bytes_ok_app l1 l2 : bytes_ok l1 → bytes_ok l2 → bytes_ok (l1 ++ l2).
Proof. apply Forall_app_2. Qed.

(** Splits a goal about a concatenation into its parts. *)
Ltac bytes_split :=
  repeat match goal with |- bytes_ok (_ ++ _) => apply bytes_ok_app end; eauto with doge.

Lemma writeTxIn_bytes ti : txin_ok ti → bytes_ok (writeTxIn ti).
Proof.
  intros [[[_ Hh] _] Hs _ _ _]. unfold writeTxIn, writeOutPoint. bytes_split.
Qed.

Lemma WriteTxOut_bytes to : txout_ok to → bytes_ok (WriteTxOut to).
Proof.
  intros [_ Hs]. unfold WriteTxOut. bytes_split.
Qed.

Lemma writeTxWitness_bytes w : Forall script_ok w → bytes_ok (writeTxWitness w).
Proof.
  intros Hw. unfold writeTxWitness. bytes_split.
  rewrite Forall_forall in Hw. apply concat_bytes. eauto with doge.
Qed.

Lemma Serialize_bytes tx : tx_ok tx → bytes_ok (Serialize tx).
Proof.
  intros [_ Hi Ho _ _ _ _]. rewrite !Forall_forall in *. unfold Serialize, btcEncode.
  bytes_split.
  - destruct (_ && _); repeat constructor; unfold byte_ok, TxFlagMarker, WitnessFlag; lia.
  - apply concat_bytes. intros. by apply writeTxIn_bytes, Hi.
  - apply concat_bytes. intros. by apply WriteTxOut_bytes, Ho.
  - destruct (_ && _); [|constructor]. apply concat_bytes.
    intros ti Hti. by apply writeTxWitness_bytes, txin_ok_wit, Hi.
Qed.

Lemma sampleTx_ok : tx_ok sampleTx.
Proof.
  assert (bytes_ok (replicate 32 7)) by (repeat constructor; unfold byte_ok; lia).
  assert (bytes_ok (replicate 32 255)) by (repeat constructor; unfold byte_ok; lia).
  constructor; repeat constructor; simpl;
    unfold byte_ok, two63, two32, MaxTxInSequenceNum, maxWitnessItemSize,
      maxWitnessItemsPerInput, maxTxInPerMessage, maxTxOutPerMessage, MaxMessagePayload,
      outpoint_ok in *; try done; lia.
Qed.

Lemma Deserialize_Serialize tx : tx_ok tx → Deserialize (Serialize tx) = Ok tx.
Proof.
  intros Hok. unfold Deserialize, BtcDecode. rewrite st_bind_run. cbn [borrowSlab unread].
  pose proof (reads_tx tx Hok [] scriptSlabSize (tx_ok_slab _ Hok)) as R. rewrite app_nil_r in R. by rewrite R.
Qed.

(** C29. decodeTx is the inverse of encodeTx on every well-formed transaction,
    whatever its scripts, witnesses, versions and negative values: a
    transaction that crosses a node's hexadecimal interface comes back
    unchanged. *)
Theorem decodeTx_encodeTx tx : tx_ok tx → decodeTx (encodeTx tx) = Ok tx.
Proof.
  intros Hok. unfold decodeTx, encodeTx. rewrite hex_decode_encode by by apply Serialize_bytes.
  by apply Deserialize_Serialize.
Qed.

Lemma decodeTx_encodeTx_witness : decodeTx (encodeTx sampleTx) = Ok sampleTx.
Proof. apply (decodeTx_encodeTx sampleTx), sampleTx_ok. Defined.

(** C33. The decoder is exact. It reads a transaction off an input just when
    the input starts with the encoding of that transaction and the transaction
    is one Go's types and the limits of the decoder allow: every integer in its
    width, at least one input, no script over 4,000,000 bytes, and all scripts
    within the slab. So a transaction has one encoding, what is decoded is well
    formed, and no bytes are lost or invented. *)
Theorem BtcDecode_spec bs k tx rest :
  bytes_ok bs →
  ((BtcDecode (mkReader bs k)).1 = Ok tx ∧ unread (BtcDecode (mkReader bs k)).2 = rest) ↔
  (tx_ok tx ∧ bs = Serialize tx ++ rest).
Proof.
  intros Hb. unfold BtcDecode. rewrite st_bind_run. cbn [borrowSlab unread]. split.
  - destruct (btcDecode _) as [x r'] eqn:E. simpl. intros [-> <-].
    destruct (sound_tx (mkReader bs scriptSlabSize) _ _ Hb E) as (Ebs&_&Hr&Hp&Hok). cbn [room unread] in *. split; [|done].
    apply Hok. rewrite <- Hr. apply Hp. done.
  - intros [Hok ->]. by rewrite (reads_tx tx Hok rest scriptSlabSize (tx_ok_slab _ Hok)).
Qed.

Lemma BtcDecode_spec_witness :
  (BtcDecode (mkReader (Serialize sampleTx ++ [9]) 0)).1 = Ok sampleTx ∧
  unread (BtcDecode (mkReader (Serialize sampleTx ++ [9]) 0)).2 = [9].
Proof.
  apply (BtcDecode_spec (Serialize sampleTx ++ [9]) 0 sampleTx [9]).
  - apply bytes_ok_app; [apply Serialize_bytes, sampleTx_ok|]. repeat constructor; unfold byte_ok; lia.
  - split; [apply sampleTx_ok|reflexivity].
Defined.

(** C34. The decoder does not panic on an input of up to 194,304 bytes, and
    does on one of 194,396: the scripts of a transaction are read into a slab
    of 4 MiB that each claims up to 4,000,000 bytes of, and the claim is
    compared with that limit but not with what the scripts before it left. *)
Theorem Deserialize_panics :
  (∀ bs msg, Z.of_nat (length bs) ≤ 194304 → Deserialize bs ≠ Err (goPanic msg)) ∧
  (∃ bs, Z.of_nat (length bs) = 194396 ∧ Deserialize bs = Err sliceBounds).
Proof.
  split.
  - intros bs msg Hl. unfold Deserialize, BtcDecode. rewrite st_bind_run. cbn [borrowSlab unread].
    assert (roomy (mkReader bs scriptSlabSize)) as Hr.
    { unfold roomy, scriptSlabSize, maxWitnessItemSize. cbn [unread room]. lia. }
    pose proof (safe_tx _ Hr) as Hs. unfold run in Hs. destruct (btcDecode _). apply Hs.
  - exists (overflowing (Z.to_nat 194305)). split; [rewrite overflowing_length|apply overflowing_panics];
      rewrite Z2Nat.id; unfold maxWitnessItemSize; lia.
Qed.
