(* ===== verification/Script.v ===== *)
(** Scripts (src/btcd/txscript): the builder, the tokenizer, the standard
    classes and the data scripts the peg's messages travel in. *)

From S2P Require Import Prelude Text Wire.

(** ** Opcodes and limits *)

Definition OP_0 : Z := 0.
Definition OP_DATA_20 : Z := 20.
Definition OP_DATA_21 : Z := 21.
Definition OP_DATA_32 : Z := 32.
Definition OP_DATA_33 : Z := 33.
Definition OP_DATA_65 : Z := 65.
Definition OP_PUSHDATA1 : Z := 76.
Definition OP_PUSHDATA2 : Z := 77.
Definition OP_PUSHDATA4 : Z := 78.
Definition OP_1NEGATE : Z := 79.
Definition OP_1 : Z := 81.
Definition OP_16 : Z := 96.
Definition OP_RETURN : Z := 106.
Definition OP_DROP : Z := 117.
Definition OP_DUP : Z := 118.
Definition OP_EQUAL : Z := 135.
Definition OP_EQUALVERIFY : Z := 136.
Definition OP_HASH160 : Z := 169.
Definition OP_CHECKSIG : Z := 172.
Definition OP_CHECKMULTISIG : Z := 174.

Definition MaxScriptSize : Z := 10000.
Definition MaxScriptElementSize : Z := 520.
Definition LockTimeThreshold : Z := 500000000.
Definition SigHashAll : Z := 1.
Definition MaxDataCarrierSize : Z := 80.

(** The length column of opcodeArray: 1, the bytes of a fixed push, or minus
    the width of a parsed length. *)
Definition opcodeLength (op : Z) : Z :=
  if (1 <=? op) && (op <=? 75) then op + 1
  else if op =? OP_PUSHDATA1 then -1
  else if op =? OP_PUSHDATA2 then -2
  else if op =? OP_PUSHDATA4 then -4
  else 1.

(** ** ScriptBuilder *)

Record ScriptBuilder := mkBuilder { bscript : bytes; berr : option error }.

Definition NewScriptBuilder : ScriptBuilder := mkBuilder [] None.

Definition notCanonical : error := Errorf "script is not canonical".

Definition AddOp (b : ScriptBuilder) (opcode : Z) : ScriptBuilder :=
  match berr b with
  | Some _ => b
  | None =>
      if MaxScriptSize <? Z.of_nat (length (bscript b)) + 1
      then mkBuilder (bscript b) (Some notCanonical)
      else mkBuilder (bscript b ++ [opcode]) None
  end.

Definition canonicalDataSize (data : bytes) : Z :=
  let dataLen := Z.of_nat (length data) in
  let d0 := data !!! 0%nat in
  if dataLen =? 0 then 1
  else if (dataLen =? 1) && (d0 <=? 16) then 1
  else if (dataLen =? 1) && (d0 =? 129) then 1
  else if dataLen <? OP_PUSHDATA1 then 1 + dataLen
  else if dataLen <=? 255 then 2 + dataLen
  else if dataLen <=? 65535 then 3 + dataLen
  else 5 + dataLen.

(** The bytes addData appends. *)
Definition pushBytes (data : bytes) : bytes :=
  let dataLen := Z.of_nat (length data) in
  let d0 := data !!! 0%nat in
  if (dataLen =? 0) || ((dataLen =? 1) && (d0 =? 0)) then [OP_0]
  else if (dataLen =? 1) && (d0 <=? 16) then [OP_1 - 1 + d0]
  else if (dataLen =? 1) && (d0 =? 129) then [OP_1NEGATE]
  else (if dataLen <? OP_PUSHDATA1 then [dataLen]
        else if dataLen <=? 255 then [OP_PUSHDATA1; dataLen]
        else if dataLen <=? 65535 then OP_PUSHDATA2 :: le_bytes 2 dataLen
        else OP_PUSHDATA4 :: le_bytes 4 dataLen) ++ data.

Definition addData (b : ScriptBuilder) (data : bytes) : ScriptBuilder :=
  mkBuilder (bscript b ++ pushBytes data) (berr b).

Definition AddData (b : ScriptBuilder) (data : bytes) : ScriptBuilder :=
  match berr b with
  | Some _ => b
  | None =>
      if MaxScriptSize <? Z.of_nat (length (bscript b)) + canonicalDataSize data
      then mkBuilder (bscript b) (Some notCanonical)
      else if MaxScriptElementSize <? Z.of_nat (length data)
      then mkBuilder (bscript b) (Some notCanonical)
      else addData b data
  end.

(** scriptNum.Bytes: little-endian sign and magnitude; eight bytes hold any
    int64's magnitude. *)
Fixpoint magnitude (fuel : nat) (n : Z) : bytes :=
  match fuel with
  | O => []
  | S fuel => if 0 <? n then Z.land n 255 :: magnitude fuel (Z.shiftr n 8) else []
  end.

Definition scriptNumBytes (n : Z) : bytes :=
  if n =? 0 then []
  else
    let isNegative := n <? 0 in
    let result := magnitude 8 (if isNegative then wrap64 (- n) else n) in
    let i := (length result - 1)%nat in
    let top := result !!! i in
    if negb (Z.land top 128 =? 0) then result ++ [if isNegative then 128 else 0]
    else if isNegative then <[i := Z.lor top 128]> result
    else result.

Definition AddInt64 (b : ScriptBuilder) (val : Z) : ScriptBuilder :=
  match berr b with
  | Some _ => b
  | None =>
      if MaxScriptSize <? Z.of_nat (length (bscript b)) + 1
      then mkBuilder (bscript b) (Some notCanonical)
      else if val =? 0 then mkBuilder (bscript b ++ [OP_0]) None
      else if (val =? -1) || ((1 <=? val) && (val <=? 16))
      then mkBuilder (bscript b ++ [OP_1 - 1 + val]) None
      else AddData b (scriptNumBytes val)
  end.

(** Script returns what was built up to the first error, and the error. *)
Definition Script (b : ScriptBuilder) : result bytes :=
  match berr b with None => Ok (bscript b) | Some e => Err e end.

(** ** ScriptTokenizer

    [trest] is script[offset:]; [tdata] is None for Go's nil. A script is a
    slice shorter than 2^31 bytes, so int32 lengths are exact. *)
Record ScriptTokenizer := mkTok {
  trest : bytes; top : Z; tdata : option bytes; terr : bool;
}.

Definition MakeScriptTokenizer (script : bytes) : ScriptTokenizer :=
  mkTok script 0 None false.

Definition Done (t : ScriptTokenizer) : bool :=
  terr t || match trest t with [] => true | _ => false end.

Definition tokFail (t : ScriptTokenizer) : bool * ScriptTokenizer :=
  (false, mkTok (trest t) (top t) (tdata t) true).

Definition Next (t : ScriptTokenizer) : bool * ScriptTokenizer :=
  if Done t then (false, t)
  else match trest t with
  | [] => (false, t)
  | op :: script =>
      let l := opcodeLength op in
      if l =? 1 then (true, mkTok script op None false)
      else if 1 <? l then
        if Z.of_nat (length (op :: script)) <? l then tokFail t
        else (true, mkTok (drop (Z.to_nat (l - 1)) script) op
                      (Some (take (Z.to_nat (l - 1)) script)) false)
      else
        let w := Z.to_nat (- l) in
        if Z.of_nat (length script) <? - l then tokFail t
        else
          let dataLen := int32_of (le_Z (take w script)) in
          let script' := drop w script in
          if (Z.of_nat (length script') <? dataLen) || (dataLen <? 0) then tokFail t
          else (true, mkTok (drop (Z.to_nat dataLen) script') op
                        (Some (take (Z.to_nat dataLen) script')) false)
  end.

Definition IsSmallInt (op : Z) : bool := (op =? OP_0) || ((OP_1 <=? op) && (op <=? OP_16)).

Definition AsSmallInt (op : Z) : Z := if op =? OP_0 then 0 else op - (OP_1 - 1).

(** [len(t.Data())] *)
Definition dataLen (t : ScriptTokenizer) : Z :=
  match tdata t with Some d => Z.of_nat (length d) | None => 0 end.

(** ** Standard classes *)

Definition slice (i j : nat) (l : bytes) : bytes := take (j - i) (drop i l).

Definition at_ (l : bytes) (i : nat) (b : Z) : bool := (l !!! i) =? b.

Definition extractCompressedPubKey (script : bytes) : option bytes :=
  if Nat.eqb (length script) 35 && at_ script 34 OP_CHECKSIG && at_ script 0 OP_DATA_33
     && (at_ script 1 2 || at_ script 1 3)
  then Some (slice 1 34 script) else None.

Definition extractUncompressedPubKey (script : bytes) : option bytes :=
  if Nat.eqb (length script) 67 && at_ script 66 OP_CHECKSIG && at_ script 0 OP_DATA_65
     && (at_ script 1 4 || at_ script 1 6 || at_ script 1 7)
  then Some (slice 1 66 script) else None.

Definition extractPubKey (script : bytes) : option bytes :=
  match extractCompressedPubKey script with
  | Some k => Some k
  | None => extractUncompressedPubKey script
  end.

Definition isPubKeyScript (script : bytes) : bool := bool_decide (is_Some (extractPubKey script)).

Definition extractPubKeyHash (script : bytes) : option bytes :=
  if Nat.eqb (length script) 25 && at_ script 0 OP_DUP && at_ script 1 OP_HASH160
     && at_ script 2 OP_DATA_20 && at_ script 23 OP_EQUALVERIFY && at_ script 24 OP_CHECKSIG
  then Some (slice 3 23 script) else None.

Definition isPubKeyHashScript (script : bytes) : bool :=
  bool_decide (is_Some (extractPubKeyHash script)).

Definition extractScriptHash (script : bytes) : option bytes :=
  if Nat.eqb (length script) 23 && at_ script 0 OP_HASH160 && at_ script 1 OP_DATA_20
     && at_ script 22 OP_EQUAL
  then Some (slice 2 22 script) else None.

Definition isScriptHashScript (script : bytes) : bool :=
  bool_decide (is_Some (extractScriptHash script)).

Definition extractWitnessPubKeyHash (script : bytes) : option bytes :=
  if Nat.eqb (length script) 22 && at_ script 0 OP_0 && at_ script 1 OP_DATA_20
  then Some (slice 2 22 script) else None.

Definition extractWitnessV0ScriptHash (script : bytes) : option bytes :=
  if Nat.eqb (length script) 34 && at_ script 0 OP_0 && at_ script 1 OP_DATA_32
  then Some (slice 2 34 script) else None.

Definition extractWitnessV1KeyBytes (script : bytes) : option bytes :=
  if Nat.eqb (length script) 34 && at_ script 0 OP_1 && at_ script 1 OP_DATA_32
  then Some (slice 2 34 script) else None.

(** The loop of extractMultisigScriptDetails over the public keys: the
    tokenizer it stops at, and how many it counted. Each [Next] takes a byte,
    so the script's length bounds it ([pubKeyLoop_fuel]). *)
Fixpoint pubKeyLoop (fuel : nat) (t : ScriptTokenizer) (numPubKeys : Z) : ScriptTokenizer * Z :=
  match fuel with
  | O => (t, numPubKeys)
  | S fuel =>
      match Next t with
      | (false, t') => (t', numPubKeys)
      | (true, t') =>
          if IsSmallInt (top t') then (t', numPubKeys)
          else pubKeyLoop fuel t' (numPubKeys + 1)
      end
  end.

(** extractMultisigScriptDetails without its public keys: the required
    signatures and the number of keys of a valid script. *)
Definition extractMultisigScriptDetails (script : bytes) : option (Z * Z) :=
  if Nat.ltb (length script) 3 || negb (at_ script (length script - 1) OP_CHECKMULTISIG) then None
  else
    let '(ok, t) := Next (MakeScriptTokenizer script) in
    if negb ok || negb (IsSmallInt (top t)) then None
    else
      let requiredSigs := AsSmallInt (top t) in
      let '(t, numPubKeys) := pubKeyLoop (S (length (trest t))) t 0 in
      if Done t then None
      else if negb (IsSmallInt (top t)) || negb (AsSmallInt (top t) =? numPubKeys) then None
      else if negb (Nat.eqb (length (trest t)) 1) then None
      else Some (requiredSigs, numPubKeys).

Definition isMultisigScript (script : bytes) : bool :=
  bool_decide (is_Some (extractMultisigScriptDetails script)).

Definition isNullDataScript (script : bytes) : bool :=
  match script with
  | [] => false
  | b :: rest =>
      if negb (b =? OP_RETURN) then false
      else match rest with
      | [] => true
      | _ =>
          let '(ok, t) := Next (MakeScriptTokenizer rest) in
          ok && Done t && (IsSmallInt (top t) || (top t <=? OP_PUSHDATA4))
             && (dataLen t <=? MaxDataCarrierSize)
      end
  end.

Inductive ScriptClass :=
| NonStandardTy | PubKeyTy | PubKeyHashTy | WitnessV0PubKeyHashTy | ScriptHashTy
| WitnessV0ScriptHashTy | MultiSigTy | NullDataTy | WitnessV1TaprootTy | WitnessUnknownTy.

#[export] Instance ScriptClass_eq_dec : EqDecision ScriptClass.
Proof. solve_decision. Defined.

Definition typeOfScript (scriptVersion : Z) (script : bytes) : ScriptClass :=
  if scriptVersion =? 0 then
    if isPubKeyScript script then PubKeyTy
    else if isPubKeyHashScript script then PubKeyHashTy
    else if isScriptHashScript script then ScriptHashTy
    else if bool_decide (is_Some (extractWitnessPubKeyHash script)) then WitnessV0PubKeyHashTy
    else if bool_decide (is_Some (extractWitnessV0ScriptHash script)) then WitnessV0ScriptHashTy
    else if isMultisigScript script then MultiSigTy
    else if isNullDataScript script then NullDataTy
    else NonStandardTy
  else if scriptVersion =? 1 then
    if bool_decide (is_Some (extractWitnessV1KeyBytes script)) then WitnessV1TaprootTy
    else NonStandardTy
  else NonStandardTy.

Definition GetScriptClass (script : bytes) : ScriptClass :=
  let classSegWit := typeOfScript 0 script in
  if negb (bool_decide (classSegWit = NonStandardTy)) then classSegWit
  else typeOfScript 1 script.

(** ** Scripts the code builds and reads *)

Definition NullDataScript (data : bytes) : result bytes :=
  if MaxDataCarrierSize <? Z.of_nat (length data)
  then Err (Errorf "data size is larger than max allowed size")
  else Script (AddData (AddOp NewScriptBuilder OP_RETURN) data).

Definition MultiSigScript (pubkeys : list bytes) (nrequired : Z) : result bytes :=
  if Z.of_nat (length pubkeys) <? nrequired
  then Err (Errorf "unable to generate multisig script")
  else
    let builder := foldl AddData (AddInt64 NewScriptBuilder nrequired) pubkeys in
    Script (AddOp (AddInt64 builder (Z.of_nat (length pubkeys))) OP_CHECKMULTISIG).

(** The loop of PushedData; bounded like [pubKeyLoop]. *)
Fixpoint pushedLoop (fuel : nat) (t : ScriptTokenizer) : list bytes * ScriptTokenizer :=
  match fuel with
  | O => ([], t)
  | S fuel =>
      match Next t with
      | (false, t') => ([], t')
      | (true, t') =>
          let here := match tdata t' with
            | Some d => [d]
            | None => if top t' =? OP_0 then [[]] else []
            end in
          let '(more, t'') := pushedLoop fuel t' in (here ++ more, t'')
      end
  end.

Definition PushedData (script : bytes) : result (list bytes) :=
  let '(data, t) := pushedLoop (S (length script)) (MakeScriptTokenizer script) in
  if terr t then Err (Errorf "malformed push") else Ok data.

(** ** The tokenizer always advances, so every loop over it ends *)

Lemma Next_true t t' :
  Next t = (true, t') → (length (trest t') < length (trest t))%nat ∧ terr t' = false.
Proof.
  unfold Next, tokFail. intros H. repeat case_match; simplify_eq; simpl;
    rewrite ?length_drop; repeat split; lia.
Qed.

Lemma pubKeyLoop_fuel fuel t n :
  (length (trest t) < fuel)%nat →
  pubKeyLoop fuel t n = pubKeyLoop (S (length (trest t))) t n.
Proof.
  remember (length (trest t)) as m eqn:Hm.
  revert fuel t n Hm. induction m as [m IH] using lt_wf_ind; intros fuel t n -> Hf.
  destruct fuel as [|fuel]; [lia|]. simpl.
  destruct (Next t) as [[] t'] eqn:Hn; [|done].
  apply Next_true in Hn as [Hn _]. case_match; [done|].
  rewrite (IH (length (trest t')) ltac:(lia) fuel t' _ eq_refl) by lia.
  symmetry. rewrite (IH (length (trest t')) ltac:(lia) (length (trest t)) t' _ eq_refl) by lia.
  done.
Qed.

Lemma pushedLoop_fuel fuel t :
  (length (trest t) < fuel)%nat →
  pushedLoop fuel t = pushedLoop (S (length (trest t))) t.
Proof.
  remember (length (trest t)) as m eqn:Hm.
  revert fuel t Hm. induction m as [m IH] using lt_wf_ind; intros fuel t -> Hf.
  destruct fuel as [|fuel]; [lia|]. simpl.
  destruct (Next t) as [[] t'] eqn:Hn; [|done].
  apply Next_true in Hn as [Hn _].
  rewrite (IH (length (trest t')) ltac:(lia) fuel t' eq_refl) by lia.
  rewrite (IH (length (trest t')) ltac:(lia) (length (trest t)) t' eq_refl) by lia.
  done.
Qed.

(** ** What the builder builds, the tokenizer reads *)

(** A push the size rules accept and no small-integer opcode stands for. *)
Definition plain_data (data : bytes) : Prop := (2 ≤ length data ≤ 75)%nat.

Lemma pushBytes_plain data :
  plain_data data → pushBytes data = Z.of_nat (length data) :: data.
Proof.
  unfold plain_data, pushBytes, OP_PUSHDATA1. intros Hd.
  rewrite !(proj2 (Z.eqb_neq (Z.of_nat (length data)) _)) by lia. simpl.
  by rewrite (proj2 (Z.ltb_lt _ _)) by lia.
Qed.

Lemma AddOp_ok s op :
  Z.of_nat (length s) < MaxScriptSize → AddOp (mkBuilder s None) op = mkBuilder (s ++ [op]) None.
Proof.
  intros Hs. unfold AddOp, MaxScriptSize in *; simpl. by rewrite (proj2 (Z.ltb_ge _ _)) by lia.
Qed.

Lemma AddData_plain s data :
  plain_data data → Z.of_nat (length s) + 76 ≤ MaxScriptSize →
  AddData (mkBuilder s None) data = mkBuilder (s ++ Z.of_nat (length data) :: data) None.
Proof.
  intros Hd Hs. unfold AddData, addData; simpl. rewrite pushBytes_plain by done.
  unfold plain_data, canonicalDataSize, MaxScriptSize, MaxScriptElementSize, OP_PUSHDATA1 in *.
  rewrite !(proj2 (Z.eqb_neq (Z.of_nat (length data)) _)) by lia. simpl.
  rewrite (proj2 (Z.ltb_lt (Z.of_nat (length data)) _)) by lia.
  by rewrite !(proj2 (Z.ltb_ge _ _)) by lia.
Qed.

Lemma Next_plain data rest op d :
  plain_data data →
  Next (mkTok (Z.of_nat (length data) :: data ++ rest) op d false) =
  (true, mkTok rest (Z.of_nat (length data)) (Some data) false).
Proof.
  intros Hd. unfold plain_data in Hd. unfold Next, opcodeLength; cbn [Done trest terr orb].
  rewrite !(proj2 (Z.leb_le _ _)) by lia. cbn [andb].
  rewrite (proj2 (Z.eqb_neq _ _)), (proj2 (Z.ltb_lt 1 _)) by lia.
  rewrite (proj2 (Z.ltb_ge _ _)) by (cbn [length]; rewrite length_app; lia).
  replace (Z.to_nat (Z.of_nat (length data) + 1 - 1)) with (length data) by lia.
  by rewrite drop_app_length, take_app_length.
Qed.

Lemma NullDataScript_plain data :
  plain_data data → NullDataScript data = Ok (OP_RETURN :: Z.of_nat (length data) :: data).
Proof.
  intros Hd. unfold NullDataScript, MaxDataCarrierSize, NewScriptBuilder.
  rewrite (proj2 (Z.ltb_ge _ _)) by (unfold plain_data in *; lia).
  rewrite AddOp_ok by done. by rewrite AddData_plain by done.
Qed.

Lemma PushedData_NullData data :
  plain_data data →
  PushedData (OP_RETURN :: Z.of_nat (length data) :: data) = Ok [data].
Proof.
  intros Hd. unfold PushedData, MakeScriptTokenizer.
  change (pushedLoop (S ?n)) with (fun t => pushedLoop (S n) t).
  cbn [length pushedLoop]. cbn [Next Done trest terr orb opcodeLength andb Z.leb Z.eqb].
  cbn -[Z.of_nat Next pushedLoop].
  pose proof (Next_plain data [] OP_RETURN None Hd) as HN. rewrite app_nil_r in HN.
  rewrite HN. cbn [tdata].
  destruct data as [|b data]; [unfold plain_data in Hd; simpl in Hd; lia|].
  done.
Qed.

Lemma GetScriptClass_NullData data :
  plain_data data → GetScriptClass (OP_RETURN :: Z.of_nat (length data) :: data) = NullDataTy.
Proof.
  intros Hd. set (s := OP_RETURN :: _).
  assert (H0 : ∀ z, z ≠ OP_RETURN → at_ s 0 z = false).
  { intros z Hz. apply Z.eqb_neq. by intros <-. }
  assert (Hm : extractMultisigScriptDetails s = None).
  { unfold extractMultisigScriptDetails. case_match; done. }
  assert (Hn : isNullDataScript s = true).
  { unfold isNullDataScript, s, MakeScriptTokenizer. cbn [negb Z.eqb].
    pose proof (Next_plain data [] 0 None Hd) as HN. rewrite app_nil_r in HN. rewrite HN.
    unfold plain_data in Hd. simpl. unfold dataLen; simpl.
    rewrite !(proj2 (Z.leb_le _ _)) by (unfold OP_PUSHDATA4, MaxDataCarrierSize; lia).
    by rewrite orb_true_r. }
  unfold GetScriptClass, typeOfScript, isPubKeyScript, isPubKeyHashScript, isScriptHashScript,
    isMultisigScript, extractPubKey, extractCompressedPubKey, extractUncompressedPubKey,
    extractPubKeyHash, extractScriptHash, extractWitnessPubKeyHash, extractWitnessV0ScriptHash.
  rewrite !H0 by done. rewrite !andb_false_r, Hm, Hn. done.
Qed.

Lemma slice_app pre h post :
  slice (length pre) (length pre + length h) (pre ++ h ++ post) = h.
Proof.
  unfold slice. rewrite drop_app_length.
  replace (length pre + length h - length pre)%nat with (length h) by lia.
  by rewrite take_app_length.
Qed.

Lemma extractScriptHash_inv s h :
  extractScriptHash s = Some h →
  s = OP_HASH160 :: OP_DATA_20 :: h ++ [OP_EQUAL] ∧ length h = 20%nat.
Proof.
  unfold extractScriptHash, at_. intros H. case_match eqn:Hc; [|done].
  rewrite !andb_true_iff, !Z.eqb_eq, Nat.eqb_eq in Hc. destruct Hc as [[[Hl H0] H1] H22].
  do 23 (destruct s as [|? s]; [discriminate Hl|]). destruct s; [|discriminate Hl].
  cbn in H0, H1, H22, H. by simplify_eq.
Qed.

Lemma extractPubKeyHash_inv s h :
  extractPubKeyHash s = Some h →
  s = OP_DUP :: OP_HASH160 :: OP_DATA_20 :: h ++ [OP_EQUALVERIFY; OP_CHECKSIG] ∧ length h = 20%nat.
Proof.
  unfold extractPubKeyHash, at_. intros H. case_match eqn:Hc; [|done].
  rewrite !andb_true_iff, !Z.eqb_eq, Nat.eqb_eq in Hc. destruct Hc as [[[[[Hl H0] H1] H2] H3] H4].
  do 25 (destruct s as [|? s]; [discriminate Hl|]). destruct s; [|discriminate Hl].
  cbn in H0, H1, H2, H3, H4, H. by simplify_eq.
Qed.
