(* ===== verification/Compress.v ===== *)
(** * Compressed outputs

    [btcd/blockchain/compress.go]: variable length quantities, and the
    encodings of amounts and scripts the coins and the spend journal are stored
    in.  Every encoding takes the bytes its size function says, and is read
    back whatever follows it.

    A [put] function is the bytes it puts at the start of its target; the
    callers ([Storage]) make targets of the size the size functions give. *)

From Stdlib Require Import ZArith List Lia.
From stdpp Require Import base list.
From S2P Require Import Prelude.
From S2P Require Import Wire.
From S2P Require Import Decode.
From S2P Require Import Script.

Open Scope Z_scope.

(** Keys of the curve, of an external package. *)
Class PubKeys := {
  PublicKey : Type;
  ParsePubKey : bytes → option PublicKey;
  SerializeUncompressed : PublicKey → bytes }.

(** What is documented of them: a key is read from its uncompressed form, and
    from its first coordinate and the oddness of the second. *)
Class PubKeysOk `{PubKeys} : Prop :=
  uncompressed_key x y k :
    length x = 32%nat → length y = 32%nat → ParsePubKey (4 :: x ++ y) = Some k →
    SerializeUncompressed k = 4 :: x ++ y ∧ ParsePubKey (2 + Z.land (default 0 (last y)) 1 :: x) = Some k.

(** ** Variable length quantities *)

(** A quantity of 64 bits takes at most ten bytes ([vlq_fuel]). *)
Definition vlqTurns : nat := 10.

Fixpoint sizeLoop (fuel : nat) (n size : Z) : Z :=
  match fuel with
  | O => size
  | S fuel => if 127 <? n then sizeLoop fuel (Z.shiftr n 7 - 1) (size + 1) else size
  end.

Definition serializeSizeVLQ (n : Z) : Z := sizeLoop vlqTurns n 1.

(** The bytes, least significant first. *)
Fixpoint vlqLoop (fuel : nat) (n : Z) (offset : nat) : bytes :=
  match fuel with
  | O => []
  | S fuel =>
      let highBitMask := if Nat.eqb offset 0 then 0 else 128 in
      Z.lor (Z.land n 127) highBitMask ::
      (if n <=? 127 then [] else vlqLoop fuel (Z.shiftr n 7 - 1) (S offset))
  end.

Definition putVLQ (n : Z) : bytes := reverse (vlqLoop vlqTurns n 0).

Fixpoint readVLQ (serialized : bytes) (n size : Z) : Z * Z :=
  match serialized with
  | [] => (n, size)
  | val :: rest =>
      let n := Z.lor (Z.shiftl n 7 mod two64) (Z.land val 127) in
      if Z.land val 128 =? 128 then readVLQ rest ((n + 1) mod two64) (size + 1) else (n, size + 1)
  end.

Definition deserializeVLQ (serialized : bytes) : Z * Z := readVLQ serialized 0 0.

(** ** Amounts *)

Fixpoint exponentLoop (fuel : nat) (amount exponent : Z) : Z * Z :=
  match fuel with
  | O => (amount, exponent)
  | S fuel =>
      if (amount mod 10 =? 0) && (exponent <? 9) then exponentLoop fuel (amount / 10) (exponent + 1)
      else (amount, exponent)
  end.

(** The exponent is below nine while the loop runs. *)
Definition compressTxOutAmount (amount : Z) : Z :=
  if amount =? 0 then 0
  else
    let '(amount, exponent) := exponentLoop 9 amount 0 in
    if exponent <? 9 then
      let lastDigit := amount mod 10 in
      (1 + 10 * (9 * (amount / 10) + lastDigit - 1) + exponent) mod two64
    else (10 + 10 * (amount - 1)) mod two64.

Fixpoint applyExponent (exponent : nat) (n : Z) : Z :=
  match exponent with O => n | S e => applyExponent e (n * 10 mod two64) end.

Definition decompressTxOutAmount (amount : Z) : Z :=
  if amount =? 0 then 0
  else
    let amount := amount - 1 in
    let exponent := amount mod 10 in
    let amount := amount / 10 in
    let n := if exponent <? 9 then (amount / 9 * 10 + (amount mod 9 + 1)) mod two64 else (amount + 1) mod two64 in
    applyExponent (Z.to_nat exponent) n.

(** ** Scripts *)

Definition cstPayToPubKeyHash : Z := 0.
Definition cstPayToScriptHash : Z := 1.
Definition cstPayToPubKeyComp2 : Z := 2.
Definition cstPayToPubKeyComp3 : Z := 3.
Definition cstPayToPubKeyUncomp4 : Z := 4.
Definition cstPayToPubKeyUncomp5 : Z := 5.
Definition numSpecialScripts : Z := 6.

Definition isPubKeyHash (script : bytes) : option bytes :=
  if Nat.eqb (length script) 25 && at_ script 0 OP_DUP && at_ script 1 OP_HASH160
     && at_ script 2 OP_DATA_20 && at_ script 23 OP_EQUALVERIFY && at_ script 24 OP_CHECKSIG
  then Some (slice 3 23 script) else None.

Definition isScriptHash (script : bytes) : option bytes :=
  if Nat.eqb (length script) 23 && at_ script 0 OP_HASH160 && at_ script 1 OP_DATA_20 && at_ script 22 OP_EQUAL
  then Some (slice 2 22 script) else None.

(** A Go slice of an array: [serialized] runs on to the end of the array, the
    slice to its length. Slicing it may go past its length. *)
Definition subslice (array : bytes) (first past : Z) : result bytes :=
  ensure ((0 <=? first) && (first <=? past) && (past <=? Z.of_nat (length array))) sliceBounds;;
  Ok (take (Z.to_nat (past - first)) (drop (Z.to_nat first) array)).

Section scripts.
Context `{PK : PubKeys}.

Definition validKey (key : bytes) : bool := bool_decide (is_Some (ParsePubKey key)).

Definition isPubKey (script : bytes) : option bytes :=
  if Nat.eqb (length script) 35 && at_ script 0 OP_DATA_33 && at_ script 34 OP_CHECKSIG
     && (at_ script 1 2 || at_ script 1 3) && validKey (slice 1 34 script)
  then Some (slice 1 34 script)
  else if Nat.eqb (length script) 67 && at_ script 0 OP_DATA_65 && at_ script 66 OP_CHECKSIG
          && at_ script 1 4 && validKey (slice 1 66 script)
  then Some (slice 1 66 script)
  else None.

Definition compressedScriptSize (pkScript : bytes) : Z :=
  match isPubKeyHash pkScript with
  | Some _ => 21
  | None =>
  match isScriptHash pkScript with
  | Some _ => 21
  | None =>
  match isPubKey pkScript with
  | Some _ => 33
  | None => serializeSizeVLQ (Z.of_nat (length pkScript) + numSpecialScripts) + Z.of_nat (length pkScript)
  end end end.

(** Keys start with two, three or four. *)
Definition putCompressedScript (pkScript : bytes) : bytes :=
  match isPubKeyHash pkScript with
  | Some hash => cstPayToPubKeyHash :: hash
  | None =>
  match isScriptHash pkScript with
  | Some hash => cstPayToScriptHash :: hash
  | None =>
      let general := putVLQ (Z.of_nat (length pkScript) + numSpecialScripts) ++ pkScript in
      match isPubKey pkScript with
      | Some key =>
          let pubKeyFormat := key !!! 0%nat in
          if (pubKeyFormat =? 2) || (pubKeyFormat =? 3) then pubKeyFormat :: slice 1 33 key
          else if pubKeyFormat =? 4 then Z.lor pubKeyFormat (Z.land (key !!! 64%nat) 1) :: slice 1 33 key
          else general
      | None => general
      end
  end end.

Definition decodeCompressedScriptSize (serialized : bytes) : Z :=
  let '(scriptSize, bytesRead) := deserializeVLQ serialized in
  if bytesRead =? 0 then 0
  else if scriptSize =? cstPayToPubKeyHash then 21
  else if scriptSize =? cstPayToScriptHash then 21
  else if (cstPayToPubKeyComp2 <=? scriptSize) && (scriptSize <=? cstPayToPubKeyUncomp5) then 33
  else wrap64 (scriptSize - numSpecialScripts + bytesRead).

(** [array] from the start of the compressed script on, of which the slice is
    the first [size] bytes. *)
Definition decompressScript (array : bytes) (size : Z) : result bytes :=
  let compressedPkScript := take (Z.to_nat size) array in
  if Nat.eqb (length compressedPkScript) 0 then Ok []
  else
    let '(encodedScriptSize, bytesRead) := deserializeVLQ compressedPkScript in
    if encodedScriptSize =? cstPayToPubKeyHash then
      hash ← subslice array bytesRead (bytesRead + 20);
      Ok (OP_DUP :: OP_HASH160 :: OP_DATA_20 :: hash ++ [OP_EQUALVERIFY; OP_CHECKSIG])
    else if encodedScriptSize =? cstPayToScriptHash then
      hash ← subslice array bytesRead (bytesRead + 20);
      Ok (OP_HASH160 :: OP_DATA_20 :: hash ++ [OP_EQUAL])
    else if (encodedScriptSize =? cstPayToPubKeyComp2) || (encodedScriptSize =? cstPayToPubKeyComp3) then
      x ← subslice array bytesRead (bytesRead + 32);
      Ok (OP_DATA_33 :: encodedScriptSize :: x ++ [OP_CHECKSIG])
    else if (encodedScriptSize =? cstPayToPubKeyUncomp4) || (encodedScriptSize =? cstPayToPubKeyUncomp5) then
      let x := take 32 (drop 1 compressedPkScript) in
      let compressedKey := encodedScriptSize - 2 :: x ++ replicate (32 - length x) 0 in
      match ParsePubKey compressedKey with
      | None => Ok []
      | Some key => Ok (OP_DATA_65 :: take 65 (SerializeUncompressed key ++ replicate 65 0) ++ [OP_CHECKSIG])
      end
    else
      subslice array bytesRead (bytesRead + wrap64 (encodedScriptSize - numSpecialScripts)).

(** ** Outputs *)

Definition compressedTxOutSize (amount : Z) (pkScript : bytes) : Z :=
  serializeSizeVLQ (compressTxOutAmount amount) + compressedScriptSize pkScript.

Definition putCompressedTxOut (amount : Z) (pkScript : bytes) : bytes :=
  putVLQ (compressTxOutAmount amount) ++ putCompressedScript pkScript.

(** The amount, the script, and how many bytes they took. *)
Definition decodeCompressedTxOut (serialized : bytes) : result (Z * bytes * Z) :=
  let '(compressedAmount, bytesRead) := deserializeVLQ serialized in
  ensure (bytesRead <? Z.of_nat (length serialized)) (Errorf "unexpected end of data after compressed amount");;
  let rest := drop (Z.to_nat bytesRead) serialized in
  let scriptSize := decodeCompressedScriptSize rest in
  ensure (scriptSize <=? Z.of_nat (length rest)) (Errorf "unexpected end of data after script size");;
  subslice serialized bytesRead (bytesRead + scriptSize);;
  script ← decompressScript rest scriptSize;
  Ok (decompressTxOutAmount compressedAmount, script, bytesRead + scriptSize).

End scripts.

(** ** Quantities are read back *)

Lemma low_bits b :
  0 ≤ b < 128 →
  Z.land (Z.lor b 128) 127 = b ∧ Z.land (Z.lor b 128) 128 = 128 ∧ Z.land b 127 = b ∧ Z.land b 128 = 0.
Proof.
  intros Hb. assert (forallb (fun i => let b := Z.of_nat i in
    (Z.land (Z.lor b 128) 127 =? b) && (Z.land (Z.lor b 128) 128 =? 128) && (Z.land b 127 =? b) && (Z.land b 128 =? 0))
    (seq 0 128) = true) as H by (vm_compute; reflexivity).
  rewrite forallb_forall in H. specialize (H (Z.to_nat b)). rewrite Z2Nat.id in H by lia.
  assert (In (Z.to_nat b) (seq 0 128)) as Hin by (apply in_seq; lia). apply H in Hin.
  repeat (apply andb_prop in Hin as [Hin ?%Z.eqb_eq]). apply Z.eqb_eq in Hin. done.
Qed.

Lemma land_127 n : Z.land n 127 = n mod 128.
Proof. apply (Z.land_ones n 7). lia. Qed.

Lemma shiftr_7 n : Z.shiftr n 7 = n / 128.
Proof. apply (Z.shiftr_div_pow2 n 7). lia. Qed.

Lemma lor_low m b : 0 ≤ m → 0 ≤ b < 128 → m * 128 < two64 → Z.lor (Z.shiftl m 7 mod two64) b = m * 128 + b.
Proof.
  intros Hm Hb Hlt. rewrite Z.shiftl_mul_pow2 by lia. change (2 ^ 7) with 128. rewrite Z.mod_small by lia.
  symmetry. apply Z.add_nocarry_lor. rewrite <- (proj1 (proj2 (proj2 (low_bits b Hb)))).
  rewrite (Z.land_comm b), Z.land_assoc, land_127, Z.mod_mul by lia. done.
Qed.

Lemma vlqLoop_bits f n o :
  vlqLoop (S f) n o = Z.lor (n mod 128) (if Nat.eqb o 0 then 0 else 128) :: (if n <=? 127 then [] else vlqLoop f (n / 128 - 1) (S o)).
Proof. cbn [vlqLoop]. by rewrite land_127, shiftr_7. Qed.

Lemma pow_7 f : 2 ^ (7 * Z.of_nat (S f)) = 128 * 2 ^ (7 * Z.of_nat f).
Proof. rewrite Nat2Z.inj_succ. replace (7 * Z.succ (Z.of_nat f)) with (7 + 7 * Z.of_nat f) by lia. by rewrite Z.pow_add_r by lia. Qed.

Lemma next_group n f : 127 < n → n < 2 ^ (7 * Z.of_nat (S f)) → 0 ≤ n / 128 - 1 < 2 ^ (7 * Z.of_nat f).
Proof.
  rewrite pow_7. intros Hn Hlt. set (P := 2 ^ _) in *. assert (n / 128 < P) by (apply Z.div_lt_upper_bound; lia).
  assert (1 ≤ n / 128) by (apply Z.div_le_lower_bound; lia). lia.
Qed.

(** The groups before the last add up to the quantity, and one. *)
Lemma readVLQ_more f n o rest size :
  0 ≤ n < 2 ^ (7 * Z.of_nat f) → n + 1 < two64 →
  readVLQ (reverse (vlqLoop f n (S o)) ++ rest) 0 size =
  match f with O => readVLQ rest 0 size | _ => readVLQ rest (n + 1) (size + Z.of_nat (length (vlqLoop f n (S o)))) end.
Proof.
  revert n o rest size; induction f as [|f IH]; intros n o rest size Hn Hlt; [done|]. rewrite vlqLoop_bits. cbn [Nat.eqb].
  pose proof (Z.mod_pos_bound n 128 eq_refl) as Hb. destruct (low_bits _ Hb) as (E1&E2&_).
  assert (∀ m s, m * 128 + n mod 128 = n → 0 ≤ m → readVLQ (Z.lor (n mod 128) 128 :: rest) m s = readVLQ rest (n + 1) (s + 1)) as Hstep.
  { intros m s Em Hm. cbn [readVLQ]. rewrite E1, E2, lor_low by (unfold two64 in *; lia). cbn [Z.eqb Pos.eqb]. rewrite Em.
    by rewrite (Z.mod_small (n + 1)) by lia. }
  pose proof (Z.div_mod n 128). destruct (Z.leb_spec n 127) as [Hle|Hgt].
  - cbn [length]. rewrite reverse_singleton. cbn [app]. apply Hstep; [|lia]. rewrite (Z.mod_small n) by lia. lia.
  - destruct f as [|f']; [simpl in Hn; lia|]. destruct (next_group n (S f') Hgt (proj2 Hn)) as [Hm Hm'].
    rewrite reverse_cons, <- app_assoc. cbn [app]. rewrite IH by (done || lia).
    rewrite Hstep by lia. cbn [length]. f_equal. lia.
Qed.

Lemma putVLQ_read n rest :
  0 ≤ n < two64 → deserializeVLQ (putVLQ n ++ rest) = (n, Z.of_nat (length (putVLQ n))).
Proof.
  intros Hn. unfold deserializeVLQ, putVLQ, vlqTurns. rewrite length_reverse, vlqLoop_bits. cbn [Nat.eqb]. rewrite Z.lor_0_r.
  pose proof (Z.mod_pos_bound n 128 eq_refl) as Hb. destruct (low_bits _ Hb) as (_&_&E1&E2).
  assert (∀ m s, m * 128 + n mod 128 = n → 0 ≤ m → readVLQ (n mod 128 :: rest) m s = (n, s + 1)) as Hstep.
  { intros m s Em Hm. cbn [readVLQ]. rewrite E1, E2, lor_low by (unfold two64 in *; lia). cbn [Z.eqb]. by rewrite Em. }
  pose proof (Z.div_mod n 128). destruct (Z.leb_spec n 127) as [Hle|Hgt].
  - cbn [length]. rewrite reverse_singleton. cbn [app]. apply Hstep; [|lia]. rewrite (Z.mod_small n) by lia. lia.
  - assert (n < 2 ^ (7 * Z.of_nat 10)) as Hlt by (unfold two64 in Hn; simpl; lia).
    destruct (next_group n 9 Hgt Hlt) as [Hm Hm']. rewrite reverse_cons, <- app_assoc. cbn [app].
    rewrite readVLQ_more by (done || unfold two64 in *; lia). rewrite Hstep by lia. cbn [length]. f_equal. lia.
Qed.

Lemma sizeLoop_length f n o size :
  0 ≤ n < 2 ^ (7 * Z.of_nat (S f)) → sizeLoop (S f) n size = size - 1 + Z.of_nat (length (vlqLoop (S f) n o)).
Proof.
  assert (∀ f n size, sizeLoop (S f) n size = if 127 <? n then sizeLoop f (n / 128 - 1) (size + 1) else size) as Hstep
    by (intros; cbn [sizeLoop]; by rewrite shiftr_7).
  revert n o size; induction f as [|f IH]; intros n o size Hn; rewrite vlqLoop_bits, Hstep;
    destruct (Z.leb_spec n 127) as [Hle|Hgt], (Z.ltb_spec 127 n); try lia; try (cbn [length]; lia).
  rewrite (IH _ (S o)) by (apply next_group; [done|apply Hn]). cbn [length]. lia.
Qed.

Lemma putVLQ_size n : 0 ≤ n < two64 → Z.of_nat (length (putVLQ n)) = serializeSizeVLQ n.
Proof.
  intros Hn. unfold putVLQ, serializeSizeVLQ, vlqTurns. rewrite length_reverse, (sizeLoop_length 9 n 0); [lia|].
  unfold two64 in Hn. simpl. lia.
Qed.

Lemma vlqLoop_turns f n o : (length (vlqLoop f n o) ≤ f)%nat.
Proof.
  revert n o; induction f as [|f IH]; intros n o; [done|]. cbn [vlqLoop length]. destruct (_ <=? _); [simpl; lia|].
  specialize (IH (Z.shiftr n 7 - 1) (S o)). lia.
Qed.

Lemma putVLQ_pos n : 0 < Z.of_nat (length (putVLQ n)).
Proof. unfold putVLQ, vlqTurns. rewrite length_reverse, vlqLoop_bits. cbn [length]. lia. Qed.

(** ** Amounts *)

Lemma exponentLoop_spec f a e :
  0 < a → 0 ≤ e → e + Z.of_nat f = 9 →
  let r := exponentLoop f a e in
  0 < r.1 ∧ a = r.1 * 10 ^ (r.2 - e) ∧ e ≤ r.2 ≤ 9 ∧ (r.2 < 9 → r.1 mod 10 ≠ 0).
Proof.
  revert a e; induction f as [|f IH]; intros a e Ha He Hf; cbn [exponentLoop].
  - cbn [fst snd]. replace (e - e) with 0 by lia. lia.
  - destruct (Z.eqb_spec (a mod 10) 0) as [Hm|Hm], (Z.ltb_spec e 9); cbn [andb]; try lia.
    + pose proof (Z.div_mod a 10 ltac:(done)). destruct (IH (a / 10) (e + 1)) as (H1&H2&H3&H4); [lia..|].
      split; [done|]. split; [|lia]. set (r := exponentLoop f (a / 10) (e + 1)) in *.
      replace (r.2 - e) with (1 + (r.2 - (e + 1))) by lia. rewrite Z.pow_add_r by lia. change (10 ^ 1) with 10. lia.
    + cbn [fst snd]. replace (e - e) with 0 by lia. lia.
Qed.

Lemma applyExponent_spec e n : 0 ≤ n → n * 10 ^ Z.of_nat e < two64 → applyExponent e n = n * 10 ^ Z.of_nat e.
Proof.
  revert n; induction e as [|e IH]; intros n Hn Hlt; cbn [applyExponent]; [change (10 ^ Z.of_nat 0) with 1; lia|].
  rewrite Nat2Z.inj_succ, Z.pow_succ_r in * by lia. pose proof (Z.pow_pos_nonneg 10 (Z.of_nat e)).
  rewrite Z.mod_small by nia. rewrite IH by nia. nia.
Qed.

(** What may be an output's amount is twice below where this wraps round. *)
Definition maxCompressed : Z := 2000000000000000000.

Lemma compressTxOutAmount_ok a : 0 ≤ a ≤ maxCompressed → 0 ≤ compressTxOutAmount a < two64.
Proof.
  intros Ha. unfold compressTxOutAmount. destruct (Z.eqb_spec a 0) as [|Hne]; [done|].
  destruct (exponentLoop 9 a 0) as [n e]. destruct (_ <? _); apply Z.mod_pos_bound; done.
Qed.

Lemma decompress_compress a : 0 ≤ a ≤ maxCompressed → decompressTxOutAmount (compressTxOutAmount a) = a.
Proof.
  intros Ha. unfold compressTxOutAmount. destruct (Z.eqb_spec a 0) as [->|Hne]; [done|].
  destruct (exponentLoop_spec 9 a 0) as (H1&H2&H3&H4); [lia..|]. destruct (exponentLoop 9 a 0) as [n e]. cbn [fst snd] in *.
  rewrite Z.sub_0_r in H2. pose proof (Z.pow_pos_nonneg 10 e ltac:(lia) ltac:(lia)) as Hp. unfold maxCompressed, two64 in *.
  assert (n ≤ a) by nia. pose proof (Z.div_mod n 10 ltac:(done)). pose proof (Z.mod_pos_bound n 10 ltac:(done)).
  unfold decompressTxOutAmount. destruct (Z.ltb_spec e 9) as [Hlt|Hge].
  - specialize (H4 Hlt). set (q := n / 10) in *. set (d := n mod 10) in *. rewrite Z.mod_small by (unfold two64; lia).
    destruct (Z.eqb_spec (1 + 10 * (9 * q + d - 1) + e) 0); [lia|].
    replace (1 + 10 * (9 * q + d - 1) + e - 1) with (e + (9 * q + d - 1) * 10) by lia.
    rewrite Z.mod_add, Z.div_add, (Z.mod_small e), (Z.div_small e), Z.add_0_l by lia.
    rewrite (proj2 (Z.ltb_lt e 9)) by done. replace (9 * q + d - 1) with (d - 1 + q * 9) by lia.
    rewrite Z.mod_add, Z.div_add, (Z.mod_small (d - 1)), (Z.div_small (d - 1)), Z.add_0_l by lia.
    replace (q * 10 + (d - 1 + 1)) with n by lia. rewrite Z.mod_small by (unfold two64; lia).
    rewrite applyExponent_spec; rewrite ?Z2Nat.id by lia; unfold two64; lia.
  - assert (e = 9) as -> by lia. change (10 ^ 9) with 1000000000 in *. rewrite Z.mod_small by (unfold two64; lia).
    destruct (Z.eqb_spec (10 + 10 * (n - 1)) 0); [lia|].
    replace (10 + 10 * (n - 1) - 1) with (9 + (n - 1) * 10) by lia.
    rewrite Z.mod_add, Z.div_add by lia. change (9 mod 10) with 9. change (9 / 10) with 0. cbn [Z.ltb Z.compare Pos.compare Pos.compare_cont].
    replace (0 + (n - 1) + 1) with n by lia. rewrite Z.mod_small by (unfold two64; lia).
    rewrite applyExponent_spec; change (10 ^ Z.of_nat (Z.to_nat 9)) with 1000000000; unfold two64; lia.
Qed.

(** ** Scripts *)

Lemma readVLQ_small c rest : 0 ≤ c < 128 → deserializeVLQ (c :: rest) = (c, 1).
Proof.
  intros Hc. destruct (low_bits c Hc) as (_&_&E1&E2). unfold deserializeVLQ. cbn [readVLQ]. rewrite E1, E2. done.
Qed.

Lemma subslice_app pre m post first past :
  first = Z.of_nat (length pre) → past = first + Z.of_nat (length m) → subslice (pre ++ m ++ post) first past = Ok m.
Proof.
  intros -> ->. unfold subslice. rewrite !length_app, (proj2 (Z.leb_le 0 _)), (proj2 (Z.leb_le _ (_ + _))), (proj2 (Z.leb_le _ _)) by lia.
  cbn [andb ensure mbind result_bind]. rewrite Nat2Z.id, drop_app_length.
  replace (Z.to_nat _) with (length m) by lia. by rewrite take_app_length.
Qed.

(** A script between two opcodes. *)
Lemma framed s n : length s = S (S n) → s = s !!! 0%nat :: slice 1 (S n) s ++ [s !!! S n] ∧ length (slice 1 (S n) s) = n.
Proof.
  intros Hl. unfold slice. replace (S n - 1)%nat with n by lia. destruct s as [|a s]; [done|]. simpl in Hl.
  change (drop 1 (a :: s)) with s. change ((a :: s) !!! 0%nat) with a. change ((a :: s) !!! S n) with (s !!! n).
  destruct (s !! n) as [b|] eqn:Eb; [|apply lookup_ge_None in Eb; lia]. split; [|rewrite length_take; lia].
  simpl. f_equal. rewrite (list_lookup_total_correct _ _ _ Eb). rewrite <- take_S_r by done. by rewrite take_ge by lia.
Qed.

Section proofs.
Context `{PK : PubKeys} {PKO : PubKeysOk}.

Lemma isPubKey_inv s key :
  isPubKey s = Some key →
  (∃ c x, (c = 2 ∨ c = 3) ∧ length x = 32%nat ∧ key = c :: x ∧ s = OP_DATA_33 :: c :: x ++ [OP_CHECKSIG]) ∨
  (∃ x y k, length x = 32%nat ∧ length y = 32%nat ∧ key = 4 :: x ++ y ∧ s = OP_DATA_65 :: 4 :: x ++ y ++ [OP_CHECKSIG] ∧
     ParsePubKey key = Some k).
Proof.
  unfold isPubKey, at_. intros H. case_match eqn:Hc; [left|case_match eqn:Hd; [right; clear Hc|done]]; injection H as <-.
  - rewrite !andb_true_iff, orb_true_iff, !Z.eqb_eq, Nat.eqb_eq in Hc. destruct Hc as [[[[Hl H0] H34] H1] _].
    destruct (framed s 33 Hl) as [Es Hk]. rewrite H0, H34 in Es.
    destruct (slice 1 34 s) as [|c x]; [done|]. injection Hk as Hx. rewrite Es in H1. cbn in H1. exists c, x. split_and!; done.
  - rewrite !andb_true_iff, !Z.eqb_eq, Nat.eqb_eq in Hd. destruct Hd as [[[[Hl H0] H66] H1] Hv].
    destruct (framed s 65 Hl) as [Es Hk]. rewrite H0, H66 in Es. apply bool_decide_eq_true in Hv as [k Hv].
    destruct (slice 1 66 s) as [|c key]; [done|]. injection Hk as Hkey. rewrite Es in H1. cbn in H1. subst c.
    exists (take 32 key), (drop 32 key), k. rewrite length_take, length_drop, Hkey, app_assoc, take_drop. done.
Qed.

(** The forms a script is stored in. *)
Inductive stored (s : bytes) : bytes → Prop :=
| storedHash h : length h = 20%nat → s = OP_DUP :: OP_HASH160 :: OP_DATA_20 :: h ++ [OP_EQUALVERIFY; OP_CHECKSIG] →
    stored s (cstPayToPubKeyHash :: h)
| storedScript h : length h = 20%nat → s = OP_HASH160 :: OP_DATA_20 :: h ++ [OP_EQUAL] → stored s (cstPayToScriptHash :: h)
| storedKey c x : c = 2 ∨ c = 3 → length x = 32%nat → s = OP_DATA_33 :: c :: x ++ [OP_CHECKSIG] → stored s (c :: x)
| storedPoint c x y k : length x = 32%nat → length y = 32%nat → s = OP_DATA_65 :: 4 :: x ++ y ++ [OP_CHECKSIG] →
    c = 4 ∨ c = 5 → ParsePubKey (c - 2 :: x) = Some k → SerializeUncompressed k = 4 :: x ++ y → stored s (c :: x)
| storedBytes : stored s (putVLQ (Z.of_nat (length s) + numSpecialScripts) ++ s).

Lemma odd_format b : let c := Z.lor 4 (Z.land b 1) in (c = 4 ∨ c = 5) ∧ c - 2 = 2 + Z.land b 1.
Proof.
  assert (Z.land b 1 = 0 ∨ Z.land b 1 = 1) as [->| ->]; [|by split; [left|]|by split; [right|]].
  change (Z.land b 1) with (Z.land b (Z.ones 1)). rewrite Z.land_ones by lia.
  change (2 ^ 1) with 2. pose proof (Z.mod_pos_bound b 2 eq_refl). lia.
Qed.

Lemma putCompressedScript_stored s :
  Z.of_nat (length s) + numSpecialScripts < two64 →
  stored s (putCompressedScript s) ∧ Z.of_nat (length (putCompressedScript s)) = compressedScriptSize s.
Proof.
  intros Hlen. unfold putCompressedScript, compressedScriptSize.
  assert (stored s (putVLQ (Z.of_nat (length s) + numSpecialScripts) ++ s) ∧
    Z.of_nat (length (putVLQ (Z.of_nat (length s) + numSpecialScripts) ++ s)) =
    serializeSizeVLQ (Z.of_nat (length s) + numSpecialScripts) + Z.of_nat (length s)) as Hgen.
  { split; [constructor|]. rewrite length_app, Nat2Z.inj_add, putVLQ_size by (unfold numSpecialScripts in *; lia). done. }
  destruct (isPubKeyHash s) as [h|] eqn:E1.
  { apply extractPubKeyHash_inv in E1 as [E Hh]. split; [by constructor|]. cbn [length]. lia. }
  destruct (isScriptHash s) as [h|] eqn:E2.
  { apply extractScriptHash_inv in E2 as [E Hh]. split; [by constructor|]. cbn [length]. lia. }
  destruct (isPubKey s) as [key|] eqn:E3; [|done].
  destruct (isPubKey_inv s key E3) as [(c&x&Hc&Hx&->&E)|(x&y&k&Hx&Hy&->&E&Hk)].
  - cbn [lookup_total list_lookup_total]. assert ((c =? 2) || (c =? 3) = true) as -> by (destruct Hc as [-> | ->]; done).
    change (slice 1 33 (c :: x)) with (take 32 x). rewrite take_ge by lia. split; [by apply storedKey|]. cbn [length]. lia.
  - change ((4 :: x ++ y) !!! 0%nat) with 4. change ((4 :: x ++ y) !!! 64%nat) with ((x ++ y) !!! 63%nat). cbn [Z.eqb Pos.eqb orb].
    assert (slice 1 33 (4 :: x ++ y) = x) as ->.
    { change (take 32 (x ++ y) = x). rewrite <- Hx. apply take_app_length. }
    split; [|cbn [length]; lia]. destruct (PKO x y k Hx Hy Hk) as [Hu Hp].
    assert ((x ++ y) !!! 63%nat = default 0 (last y)) as Elast.
    { rewrite lookup_total_app_r by lia. rewrite Hx, last_lookup, Hy. cbn [Nat.pred]. replace (63 - 32)%nat with 31%nat by lia.
      destruct (y !! 31%nat) as [b|] eqn:Eb; [by rewrite (list_lookup_total_correct _ _ _ Eb)|]. apply lookup_ge_None in Eb. lia. }
    rewrite Elast. destruct (odd_format (default 0 (last y))) as [Hc Ec].
    eapply (storedPoint _ _ x y k); [done..| |done]. rewrite Ec. done.
Qed.

Lemma stored_size s c rest :
  stored s c → Z.of_nat (length s) < two63 - 100 → decodeCompressedScriptSize (c ++ rest) = Z.of_nat (length c).
Proof.
  unfold decodeCompressedScriptSize. intros Hst Hlen. destruct Hst as [h Hh E|h Hh E|c x Hc Hx E|c x y k Hx Hy E Hc _ _|].
  - cbn [app length]. rewrite readVLQ_small by done. cbn. lia.
  - cbn [app length]. rewrite readVLQ_small by done. cbn. lia.
  - cbn [app length]. rewrite readVLQ_small by lia. destruct Hc as [-> | ->]; cbn; lia.
  - cbn [app length]. rewrite readVLQ_small by lia. destruct Hc as [-> | ->]; cbn; lia.
  - pose proof (putVLQ_pos (Z.of_nat (length s) + numSpecialScripts)) as Hpos.
    assert (Z.of_nat (length (putVLQ (Z.of_nat (length s) + numSpecialScripts))) ≤ 10) as Hten.
    { unfold putVLQ. rewrite length_reverse. apply (Nat2Z.inj_le _ 10). apply vlqLoop_turns. }
    rewrite <- app_assoc, putVLQ_read by (unfold numSpecialScripts, two63, two64 in *; lia).
    set (n := Z.of_nat (length s)) in *. set (v := Z.of_nat (length (putVLQ _))) in *.
    unfold cstPayToPubKeyHash, cstPayToScriptHash, cstPayToPubKeyComp2, cstPayToPubKeyUncomp5, numSpecialScripts in *.
    rewrite (proj2 (Z.eqb_neq v 0)), (proj2 (Z.eqb_neq _ 0)), (proj2 (Z.eqb_neq _ 1)), (proj2 (Z.leb_gt _ 5)) by lia.
    rewrite andb_false_r, length_app, Nat2Z.inj_add. fold n v. rewrite wrap64_small; [lia|]. unfold i64_ok, two63 in *. lia.
Qed.

Lemma stored_script s c rest :
  stored s c → Z.of_nat (length s) < two63 - 100 → decompressScript (c ++ rest) (Z.of_nat (length c)) = Ok s.
Proof.
  intros Hst Hlen. unfold decompressScript. rewrite Nat2Z.id, take_app_length.
  destruct Hst as [h Hh E|h Hh E|c x Hc Hx E|c x y k Hx Hy E Hc Hp Hu|].
  - rewrite readVLQ_small by done. cbn [length Nat.eqb]. rewrite Z.eqb_refl.
    rewrite (subslice_app [cstPayToPubKeyHash] h rest) by (simpl; lia). by rewrite E.
  - rewrite readVLQ_small by done. cbn [length Nat.eqb].
    change (subslice (cstPayToScriptHash :: h ++ rest) 1 (1 + 20) ≫= (fun hash => Ok (OP_HASH160 :: OP_DATA_20 :: hash ++ [OP_EQUAL])) = Ok s).
    rewrite (subslice_app [cstPayToScriptHash] h rest) by (simpl; lia). by rewrite E.
  - rewrite readVLQ_small by lia. cbn [length Nat.eqb]. assert (subslice ((c :: x) ++ rest) 1 (1 + 32) = Ok x) as Es
      by (apply (subslice_app [c] x rest); simpl; lia).
    destruct Hc as [-> | ->]; cbn [Z.eqb Pos.eqb orb cstPayToPubKeyHash cstPayToScriptHash cstPayToPubKeyComp2 cstPayToPubKeyComp3];
      rewrite Es, E; done.
  - rewrite readVLQ_small by lia. cbn [length Nat.eqb drop]. rewrite (take_ge x) by lia.
    replace (32 - length x)%nat with 0%nat by lia. change (replicate 0 0) with (@nil Z). rewrite app_nil_r, Hp, Hu.
    replace (take 65 ((4 :: x ++ y) ++ replicate 65 0)) with (4 :: x ++ y).
    2:{ rewrite <- (take_app_length (4 :: x ++ y) (replicate 65 0)) at 1. f_equal. cbn [length]. rewrite length_app. lia. }
    destruct Hc as [-> | ->]; rewrite E;
      change (Ok (OP_DATA_65 :: (4 :: x ++ y) ++ [OP_CHECKSIG]) = Ok (OP_DATA_65 :: 4 :: x ++ y ++ [OP_CHECKSIG]));
      cbn [app]; by rewrite <- app_assoc.
  - pose proof (putVLQ_pos (Z.of_nat (length s) + numSpecialScripts)) as Hpos.
    rewrite putVLQ_read by (unfold numSpecialScripts, two63, two64 in *; lia).
    set (n := Z.of_nat (length s)) in *. rewrite length_app.
    unfold cstPayToPubKeyHash, cstPayToScriptHash, cstPayToPubKeyComp2, cstPayToPubKeyComp3, cstPayToPubKeyUncomp4, cstPayToPubKeyUncomp5.
    rewrite (proj2 (Nat.eqb_neq _ 0)) by lia. unfold numSpecialScripts in *.
    rewrite !(proj2 (Z.eqb_neq (n + 6) _)) by lia. cbn [orb].
    rewrite <- app_assoc. apply subslice_app; [done|]. rewrite wrap64_small; [lia|]. unfold i64_ok, two63 in *. lia.
Qed.

(** ** Outputs *)

(** An amount and a script that are kept. *)
Definition output_ok (amount : Z) (pkScript : bytes) : Prop :=
  0 ≤ amount ≤ maxCompressed ∧ Z.of_nat (length pkScript) < two63 - 100.

Lemma putCompressedTxOut_size a s :
  output_ok a s → Z.of_nat (length (putCompressedTxOut a s)) = compressedTxOutSize a s.
Proof.
  intros [Ha Hs]. unfold putCompressedTxOut, compressedTxOutSize. rewrite length_app, Nat2Z.inj_add.
  rewrite putVLQ_size by by apply compressTxOutAmount_ok.
  by rewrite (proj2 (putCompressedScript_stored s ltac:(unfold numSpecialScripts, two63, two64 in *; lia))).
Qed.

Lemma putCompressedTxOut_pos a s : 0 < Z.of_nat (length (putCompressedTxOut a s)).
Proof. unfold putCompressedTxOut. rewrite length_app. pose proof (putVLQ_pos (compressTxOutAmount a)). lia. Qed.

Lemma stored_pos s c : stored s c → (0 < length c)%nat.
Proof. destruct 1; cbn [length]; try lia. rewrite length_app. pose proof (putVLQ_pos (Z.of_nat (length s) + numSpecialScripts)). lia. Qed.

Lemma decode_putCompressedTxOut a s rest :
  output_ok a s →
  decodeCompressedTxOut (putCompressedTxOut a s ++ rest) = Ok (a, s, Z.of_nat (length (putCompressedTxOut a s))).
Proof.
  intros [Ha Hs]. unfold decodeCompressedTxOut, putCompressedTxOut. rewrite <- app_assoc.
  rewrite putVLQ_read by by apply compressTxOutAmount_ok. set (v := putVLQ _).
  destruct (putCompressedScript_stored s) as [Hst _]; [unfold numSpecialScripts, two63, two64 in *; lia|].
  set (c := putCompressedScript s) in *. pose proof (stored_pos s c Hst).
  rewrite (proj2 (Z.ltb_lt _ _)) by (rewrite !length_app; lia). cbn [ensure mbind result_bind].
  rewrite Nat2Z.id, drop_app_length, (stored_size s c rest Hst Hs).
  rewrite (proj2 (Z.leb_le _ _)) by (rewrite length_app; lia). cbn [ensure mbind result_bind].
  rewrite subslice_app by done. cbn [mbind result_bind]. rewrite (stored_script s c rest Hst Hs). cbn [mbind result_bind].
  rewrite (decompress_compress a Ha), length_app, Nat2Z.inj_add. done.
Qed.

End proofs.
