(* ===== verification/Chain.v ===== *)
(** * Block index and chain view of btcd

    [btcd/wire/blockheader.go], [btcd/blockchain/internal/workmath],
    [btcd/blockchain/blockindex.go] and [btcd/blockchain/chainview.go].  Block
    nodes are shared and compared by address, so they live in a heap: a
    pointer is a [nat], a nil pointer [None].  A node is written once by
    [newBlockNode] and only its status changes afterwards. *)

From Stdlib Require Import ZArith List Lia.
From stdpp Require Import base list gmap strings relations sorting.
From S2P Require Import Prelude.
From S2P Require Import Wire.

Open Scope Z_scope.

(** ** Block headers *)

Record BlockHeader := mkHeader {
  Version : Z; PrevBlock : bytes; MerkleRoot : bytes; Timestamp : Z; Bits : Z; Nonce : Z }.

#[export] Instance BlockHeader_eq_dec : EqDecision BlockHeader.
Proof. solve_decision. Defined.

(** Timestamps are whole seconds; the wire keeps their low 32 bits. *)
Definition writeBlockHeader (bh : BlockHeader) : bytes :=
  le_bytes 4 (Version bh mod two32) ++ PrevBlock bh ++ MerkleRoot bh ++
  le_bytes 4 (Timestamp bh mod two32) ++ le_bytes 4 (Bits bh) ++ le_bytes 4 (Nonce bh).

Definition BlockHash `{Crypto} (h : BlockHeader) : bytes := DoubleHashRaw (writeBlockHeader h).

Record header_ok (h : BlockHeader) : Prop := {
  header_version : -2147483648 ≤ Version h < 2147483648;
  header_prev : hash_ok (PrevBlock h);
  header_root : hash_ok (MerkleRoot h);
  header_time : u32_ok (Timestamp h);
  header_bits : u32_ok (Bits h);
  header_nonce : u32_ok (Nonce h) }.

(** ** Difficulty bits and work *)

Definition CompactToBig (compact : Z) : Z :=
  let mantissa := Z.land compact 8388607 in
  let isNegative := negb (Z.land compact 8388608 =? 0) in
  let exponent := Z.shiftr compact 24 in
  let bn :=
    if exponent <=? 3 then Z.shiftr mantissa (8 * (3 - exponent))
    else Z.shiftl mantissa (8 * (exponent - 3)) in
  if isNegative then - bn else bn.

(** [len(n.Bytes())]: the bytes of the absolute value, without leading zeros. *)
Definition byteLen (n : Z) : Z :=
  if n =? 0 then 0 else Z.log2 (Z.abs n) / 8 + 1.

(** [Bits()[0]] is the low 64-bit word of the absolute value; the conversion
    and the shift keep 32 bits of it. *)
Definition BigToCompact (n : Z) : Z :=
  if n =? 0 then 0 else
  let exponent := byteLen n in
  let mantissa :=
    if exponent <=? 3 then uint32 (Z.shiftl (uint32 (Z.abs n)) (8 * (3 - exponent)))
    else uint32 (Z.abs (Z.shiftr n (8 * (exponent - 3)))) in
  let '(mantissa, exponent) :=
    if negb (Z.land mantissa 8388608 =? 0) then (Z.shiftr mantissa 8, exponent + 1)
    else (mantissa, exponent) in
  let compact := Z.lor (uint32 (Z.shiftl exponent 24)) mantissa in
  if n <? 0 then Z.lor compact 8388608 else compact.

Definition CalcWork (bits : Z) : Z :=
  let difficultyNum := CompactToBig bits in
  if difficultyNum <=? 0 then 0
  else 2 ^ 256 / (difficultyNum + 1).

(** ** Block nodes *)

Notation ptr := nat (only parsing).

Record blockNode := mkNode {
  bn_parent : option ptr;
  bn_ancestor : option ptr;
  bn_hash : bytes;
  bn_workSum : Z;
  bn_height : Z;
  bn_version : Z;
  bn_bits : Z;
  bn_nonce : Z;
  bn_timestamp : Z;
  bn_merkleRoot : bytes;
  bn_status : Z }.

#[export] Instance blockNode_eq_dec : EqDecision blockNode.
Proof. solve_decision. Defined.

Notation heap := (gmap ptr blockNode).

(** *** Status flags *)

Definition statusDataStored : Z := 1.
Definition statusValid : Z := 2.
Definition statusValidateFailed : Z := 4.
Definition statusInvalidAncestor : Z := 8.
Definition statusNone : Z := 0.

Definition HaveData (status : Z) : bool := negb (Z.land status statusDataStored =? 0).
Definition KnownValid (status : Z) : bool := negb (Z.land status statusValid =? 0).
Definition KnownInvalid (status : Z) : bool :=
  negb (Z.land status (Z.lor statusValidateFailed statusInvalidAncestor) =? 0).

(** *** The skip list *)

Definition int32_wrap (z : Z) : Z := (z + 2147483648) mod two32 - 2147483648.

Definition invertLowestOne (n : Z) : Z := Z.land n (int32_wrap (n - 1)).

Definition getAncestorHeight (height : Z) : Z := invertLowestOne (invertLowestOne height).

(** The loop of [Ancestor]; each round moves to a lower node. *)
Fixpoint ancestorLoop (fuel : nat) (H : heap) (n : option ptr) (height : Z) : option ptr :=
  match fuel with
  | O => None
  | S f =>
      p ← n; nd ← H !! p;
      if bn_height nd =? height then Some p else
      match bn_ancestor nd with
      | Some a =>
          if height <=? getAncestorHeight (bn_height nd)
          then ancestorLoop f H (Some a) height
          else ancestorLoop f H (bn_parent nd) height
      | None => ancestorLoop f H (bn_parent nd) height
      end
  end.

Definition Ancestor (H : heap) (node : ptr) (height : Z) : option ptr :=
  nd ← H !! node;
  if (height <? 0) || (bn_height nd <? height) then None
  else ancestorLoop (S (Z.to_nat (bn_height nd))) H (Some node) height.

Definition RelativeAncestor (H : heap) (node : ptr) (distance : Z) : option ptr :=
  nd ← H !! node; Ancestor H node (int32_wrap (bn_height nd - distance)).

(** [Equals] compares every field but the two pointers. *)
Definition Equals (n o : blockNode) : bool :=
  bool_decide (bn_hash n = bn_hash o) && (bn_workSum n =? bn_workSum o) &&
  (bn_height n =? bn_height o) && (bn_version n =? bn_version o) &&
  (bn_bits n =? bn_bits o) && (bn_nonce n =? bn_nonce o) &&
  (bn_timestamp n =? bn_timestamp o) && bool_decide (bn_merkleRoot n = bn_merkleRoot o) &&
  (bn_status n =? bn_status o).

Definition IsAncestor (H : heap) (node : ptr) (otherNode : option ptr) : bool :=
  match otherNode with
  | None => false
  | Some o =>
      match H !! node, H !! o with
      | Some nd, Some od =>
          match Ancestor H node (bn_height od) with
          | None => false
          | Some a =>
              match H !! a with
              | None => false
              | Some ad => if bn_height nd =? bn_height ad then false else Equals ad od
              end
          end
      | _, _ => false
      end
  end.

(** [initBlockNode] with [buildAncestor]; the node gets a fresh address. *)
Definition newBlockNode `{Crypto} (blockHeader : BlockHeader) (parent : option ptr) : St heap ptr :=
  fun H =>
    let p := fresh (dom H) in
    let node := mkNode None None (BlockHash blockHeader) (CalcWork (Bits blockHeader)) 0
                  (Version blockHeader) (Bits blockHeader) (Nonce blockHeader)
                  (Timestamp blockHeader) (MerkleRoot blockHeader) statusNone in
    match parent with
    | None => (Ok p, <[p := node]> H)
    | Some q =>
        match H !! q with
        | None => (Err (Errorf "dangling parent"), H)
        | Some qd =>
            let height := int32_wrap (bn_height qd + 1) in
            (Ok p, <[p := mkNode (Some q) (Ancestor H q (getAncestorHeight height))
                            (bn_hash node) (bn_workSum qd + bn_workSum node) height
                            (bn_version node) (bn_bits node) (bn_nonce node)
                            (bn_timestamp node) (bn_merkleRoot node) (bn_status node)]> H)
        end
    end.

Definition setStatus (nd : blockNode) (status : Z) : blockNode :=
  mkNode (bn_parent nd) (bn_ancestor nd) (bn_hash nd) (bn_workSum nd) (bn_height nd)
    (bn_version nd) (bn_bits nd) (bn_nonce nd) (bn_timestamp nd) (bn_merkleRoot nd) status.

(** [Header] rebuilds the header a node was made from. *)
Definition Header (H : heap) (nd : blockNode) : BlockHeader :=
  mkHeader (bn_version nd)
    (match bn_parent nd ≫= fun q => H !! q with Some qd => bn_hash qd | None => zeroHash end)
    (bn_merkleRoot nd) (bn_timestamp nd) (bn_bits nd) (bn_nonce nd).

(** *** Median time *)

Definition medianTimeBlocks : nat := 11.

(** The timestamps of the node and of up to ten blocks before it. *)
Fixpoint pastTimes (n : nat) (H : heap) (iterNode : option ptr) : list Z :=
  match n with
  | O => []
  | S n' =>
      match iterNode ≫= fun p => H !! p with
      | None => []
      | Some nd => bn_timestamp nd :: pastTimes n' H (bn_parent nd)
      end
  end.

Definition CalcPastMedianTime (H : heap) (node : ptr) : option Z :=
  let timestamps := merge_sort Z.le (pastTimes medianTimeBlocks H (Some node)) in
  timestamps !! (length timestamps / 2)%nat.

(** ** The chain view *)

(** [c.nodes]: the visible part of the slice.  Both branches that resize it
    keep its first entries and set the new ones to nil. *)
Notation chainView := (list (option ptr)).

Fixpoint setTipLoop (fuel : nat) (H : heap) (nodes : chainView) (node : option ptr) : chainView :=
  match fuel with
  | O => nodes
  | S f =>
      match node with
      | None => nodes
      | Some p =>
          match H !! p with
          | None => nodes
          | Some nd =>
              let i := Z.to_nat (bn_height nd) in
              if bool_decide (nodes !! i = Some (Some p)) then nodes
              else setTipLoop f H (<[i := Some p]> nodes) (bn_parent nd)
          end
      end
  end.

Definition setTip (H : heap) (c : chainView) (node : option ptr) : chainView :=
  match node ≫= fun p => H !! p with
  | None => []
  | Some nd =>
      let needed := Z.to_nat (int32_wrap (bn_height nd + 1)) in
      setTipLoop (S (Z.to_nat (bn_height nd))) H (resize needed None c) node
  end.

Definition newChainView (H : heap) (tip : option ptr) : chainView := setTip H [] tip.

Definition view_height (c : chainView) : Z := Z.of_nat (length c) - 1.

Definition view_tip (c : chainView) : option ptr := mjoin (last c).

Definition nodeByHeight (c : chainView) (height : Z) : option ptr :=
  if (height <? 0) || (Z.of_nat (length c) <=? height) then None
  else mjoin (c !! Z.to_nat height).

Definition contains (H : heap) (c : chainView) (node : ptr) : bool :=
  match H !! node with
  | None => false
  | Some nd => bool_decide (nodeByHeight c (bn_height nd) = Some node)
  end.

Definition next (H : heap) (c : chainView) (node : option ptr) : option ptr :=
  p ← node;
  if contains H c p then nd ← H !! p; nodeByHeight c (int32_wrap (bn_height nd + 1)) else None.

Fixpoint findForkLoop (fuel : nat) (H : heap) (c : chainView) (node : option ptr) : option ptr :=
  match fuel with
  | O => None
  | S f =>
      p ← node; nd ← H !! p;
      if contains H c p then Some p else findForkLoop f H c (bn_parent nd)
  end.

Definition findFork (H : heap) (c : chainView) (node : option ptr) : option ptr :=
  p ← node; nd ← H !! p;
  let start := if view_height c <? bn_height nd then Ancestor H p (view_height c) else Some p in
  findForkLoop (S (Z.to_nat (bn_height nd))) H c start.

(** *** Block locators *)

Definition log2FloorMasks : list Z := [4294901760; 65280; 240; 12; 2].

Definition fastLog2Floor (n : Z) : Z :=
  (foldl (fun '(rv, n, exponent) mask =>
     let '(rv, n) := if negb (Z.land n mask =? 0) then (rv + exponent, Z.shiftr n exponent)
                     else (rv, n) in
     (rv, n, Z.shiftr exponent 1)) (0, n, 16) log2FloorMasks).1.1.

Definition maxEntries (height : Z) : Z :=
  if height <=? 12 then height + 1
  else 12 + fastLog2Floor (uint32 (height - 10)).

Fixpoint locatorLoop (fuel : nat) (H : heap) (c : chainView) (node : option ptr) (step : Z)
    (locator : list bytes) : list bytes :=
  match fuel with
  | O => locator
  | S f =>
      match node ≫= fun p => pair p <$> H !! p with
      | None => locator
      | Some (p, nd) =>
          let locator := locator ++ [bn_hash nd] in
          if bn_height nd =? 0 then locator else
          let height := Z.max 0 (int32_wrap (bn_height nd - step)) in
          let node := if contains H c p then mjoin (c !! Z.to_nat height) else Ancestor H p height in
          let step := if (10 <? length locator)%nat then int32_wrap (step * 2) else step in
          locatorLoop f H c node step locator
      end
  end.

Definition blockLocator (H : heap) (c : chainView) (node : option ptr) : list bytes :=
  let node := match node with None => view_tip c | Some p => Some p end in
  match node ≫= fun p => H !! p with
  | None => []
  | Some nd => locatorLoop (S (Z.to_nat (bn_height nd))) H c node 1 []
  end.

(** ** Well-formed trees *)

(** [walk n H p] follows [n] parent pointers from [p]. *)
Fixpoint walk (n : nat) (H : heap) (p : ptr) : option ptr :=
  match n with
  | O => Some p
  | S n' => nd ← H !! p; q ← bn_parent nd; walk n' H q
  end.

(** The steps from [nd]'s height down to [h]. *)
Definition steps_to (nd : blockNode) (h : Z) : nat := Z.to_nat (bn_height nd - h).

Record node_ok (H : heap) (p : ptr) (nd : blockNode) : Prop := {
  nk_height : 0 ≤ bn_height nd < 2147483648;
  nk_root : bn_parent nd = None → bn_height nd = 0 ∧ bn_ancestor nd = None;
  nk_parent q : bn_parent nd = Some q →
    ∃ qd, H !! q = Some qd ∧ bn_height nd = bn_height qd + 1 ∧
          bn_workSum nd = bn_workSum qd + CalcWork (bn_bits nd) ∧
          bn_ancestor nd = walk (steps_to qd (getAncestorHeight (bn_height nd))) H q }.

(** Every node hangs off a chain of parents that ends at height zero, and its
    skip pointer is the ancestor the skip height names. *)
Definition tree_ok (H : heap) : Prop := map_Forall (node_ok H) H.

Lemma walk_app n m H p : walk (n + m) H p = walk n H p ≫= walk m H.
Proof.
  revert p; induction n as [|n IH]; intros p; [done|]; simpl.
  destruct (H !! p) as [nd|]; simpl; [|done].
  destruct (bn_parent nd); simpl; [apply IH|done].
Qed.

Lemma int32_wrap_small z : -2147483648 ≤ z < 2147483648 → int32_wrap z = z.
Proof. intros; unfold int32_wrap, two32; rewrite Z.mod_small; lia. Qed.

Lemma land_le_r a b : 0 ≤ a → 0 ≤ b → Z.land a b ≤ b.
Proof.
  intros Ha Hb. destruct a as [|a|]; [done| |lia]. destruct b as [|b|]; [done| |lia].
  pose proof (N.land_le_r (Npos a) (Npos b)) as Hle. apply N2Z.inj_le in Hle. exact Hle.
Qed.

Lemma invertLowestOne_bounds n :
  0 ≤ n < 2147483648 → 0 ≤ invertLowestOne n ∧ (0 < n → invertLowestOne n < n) ∧
  invertLowestOne n ≤ n.
Proof.
  intros Hn. destruct (decide (n = 0)) as [->|Hz]; [by split_and!|].
  unfold invertLowestOne. rewrite int32_wrap_small by lia.
  assert (0 ≤ Z.land n (n - 1)) by (apply Z.land_nonneg; lia).
  assert (Z.land n (n - 1) ≤ n - 1); [|lia].
  apply land_le_r; lia.
Qed.

Lemma getAncestorHeight_bounds n :
  0 ≤ n < 2147483648 → 0 ≤ getAncestorHeight n ∧ (0 < n → getAncestorHeight n < n).
Proof.
  intros Hn. unfold getAncestorHeight.
  destruct (invertLowestOne_bounds n) as (?&?&?); [done|].
  destruct (invertLowestOne_bounds (invertLowestOne n)) as (?&?&?); [lia|].
  split; [done|]. lia.
Qed.

Section tree.
Context (H : heap) (WF : tree_ok H).

Lemma tree_node p nd : H !! p = Some nd → node_ok H p nd.
Proof. apply WF. Qed.

Lemma tree_height p nd : H !! p = Some nd → 0 ≤ bn_height nd < 2147483648.
Proof. intros; by eapply nk_height, tree_node. Qed.

(** Every height up to the node's own is reached, and reached once. *)
Lemma walk_total n p nd :
  H !! p = Some nd → Z.of_nat n ≤ bn_height nd →
  ∃ a ad, walk n H p = Some a ∧ H !! a = Some ad ∧ bn_height ad = bn_height nd - Z.of_nat n.
Proof.
  revert p nd; induction n as [|n IH]; intros p nd Hp Hn; simpl; [naive_solver lia|].
  rewrite Hp; simpl. pose proof (tree_node _ _ Hp) as [Hh Hr Hq].
  destruct (bn_parent nd) as [q|]; [|destruct (Hr eq_refl); lia].
  destruct (Hq q eq_refl) as (qd&HqH&?&_). destruct (IH q qd HqH) as (a&ad&?&?&?); [lia|].
  exists a, ad. split_and!; [done|done|lia].
Qed.

Lemma walk_Some n p nd a :
  H !! p = Some nd → walk n H p = Some a →
  ∃ ad, H !! a = Some ad ∧ bn_height ad = bn_height nd - Z.of_nat n.
Proof.
  revert p nd; induction n as [|n IH]; intros p nd Hp Hw; simpl in Hw; [naive_solver lia|].
  rewrite Hp in Hw; simpl in Hw. pose proof (tree_node _ _ Hp) as [Hh Hr Hq].
  destruct (bn_parent nd) as [q|]; [|done].
  destruct (Hq q eq_refl) as (qd&HqH&?&_). destruct (IH q qd HqH Hw) as (ad&?&?).
  exists ad. split; [done|lia].
Qed.

Lemma walk_in n p nd a : H !! p = Some nd → walk n H p = Some a → Z.of_nat n ≤ bn_height nd.
Proof.
  intros Hp Hw. destruct (walk_Some _ _ _ _ Hp Hw) as (ad&Ha&?).
  pose proof (tree_height _ _ Ha). lia.
Qed.

Lemma ancestorLoop_walk fuel p nd h :
  H !! p = Some nd → (Z.to_nat (bn_height nd) < fuel)%nat → 0 ≤ h ≤ bn_height nd →
  ancestorLoop fuel H (Some p) h = walk (steps_to nd h) H p.
Proof.
  revert p nd; induction fuel as [|f IH]; intros p nd Hp Hf Hh; [lia|].
  simpl. rewrite Hp; simpl. unfold steps_to. destruct (Z.eqb_spec (bn_height nd) h) as [E|E].
  { by rewrite E, Z.sub_diag. }
  pose proof (tree_node _ _ Hp) as [Hn Hr Hq].
  destruct (bn_parent nd) as [q|] eqn:Eq; [|destruct (Hr eq_refl); lia].
  destruct (Hq q eq_refl) as (qd&HqH&Ehq&_&Ea).
  assert (Hstep : ancestorLoop f H (Some q) h = walk (Z.to_nat (bn_height nd - h)) H p).
  { rewrite (IH q qd HqH) by lia. unfold steps_to.
    replace (Z.to_nat (bn_height nd - h)) with (S (Z.to_nat (bn_height qd - h))) by lia.
    simpl. by rewrite Hp; simpl; rewrite Eq. }
  destruct (bn_ancestor nd) as [a|]; [|done].
  destruct (Z.leb_spec h (getAncestorHeight (bn_height nd))) as [Hle|]; [|done].
  destruct (getAncestorHeight_bounds (bn_height nd)) as [? Hlt]; [done|].
  specialize (Hlt ltac:(lia)). symmetry in Ea. unfold steps_to in Ea.
  destruct (walk_Some _ _ _ _ HqH Ea) as (ad&HaH&Eha).
  rewrite (IH a ad HaH) by lia. unfold steps_to.
  replace (Z.to_nat (bn_height nd - h)) with
    (S (Z.to_nat (bn_height qd - getAncestorHeight (bn_height nd)) +
        Z.to_nat (bn_height ad - h)))%nat by lia.
  simpl. rewrite Hp; simpl. rewrite Eq; simpl. by rewrite walk_app, Ea.
Qed.

Lemma Ancestor_eq p nd h :
  H !! p = Some nd → 0 ≤ h ≤ bn_height nd → Ancestor H p h = walk (steps_to nd h) H p.
Proof.
  intros Hp Hh. unfold Ancestor. rewrite Hp. cbn [mbind option_bind].
  rewrite (proj2 (Z.ltb_ge h 0)), (proj2 (Z.ltb_ge (bn_height nd) h)) by lia. cbn [orb].
  apply ancestorLoop_walk; [done|lia..].
Qed.

Lemma Ancestor_outside p nd h :
  H !! p = Some nd → ¬ 0 ≤ h ≤ bn_height nd → Ancestor H p h = None.
Proof.
  intros Hp Hh. unfold Ancestor. rewrite Hp; simpl.
  destruct (Z.ltb_spec h 0), (Z.ltb_spec (bn_height nd) h); simpl; done || lia.
Qed.

End tree.

(** ** Growing the tree *)

Lemma walk_mono n H H' p a : H ⊆ H' → walk n H p = Some a → walk n H' p = Some a.
Proof.
  intros Hsub. revert p; induction n as [|n IH]; intros p Hw; [done|]. simpl in *.
  destruct (H !! p) as [nd|] eqn:Hp; [|done]. rewrite (lookup_weaken _ _ _ _ Hp Hsub).
  simpl in *. destruct (bn_parent nd); [by apply IH|done].
Qed.

Lemma walk_grow n H H' p nd :
  tree_ok H → H ⊆ H' → H !! p = Some nd → Z.of_nat n ≤ bn_height nd → walk n H' p = walk n H p.
Proof.
  intros WF Hsub Hp Hn. destruct (walk_total H WF n p nd Hp Hn) as (a&_&E&_).
  rewrite E. by eapply walk_mono.
Qed.

Lemma node_ok_grow H H' p nd : tree_ok H → H ⊆ H' → H !! p = Some nd → node_ok H' p nd.
Proof.
  intros WF Hsub Hp. destruct (tree_node H WF _ _ Hp) as [Hh Hr Hq]. split; [done..|].
  intros q Eq. destruct (Hq q Eq) as (qd&HqH&?&?&->).
  exists qd. split_and!; [by eapply lookup_weaken|done..|].
  symmetry. eapply walk_grow; [done..|]. unfold steps_to.
  pose proof (tree_height H WF _ _ HqH).
  destruct (getAncestorHeight_bounds (bn_height nd)); lia.
Qed.

Lemma tree_ok_insert H p nd :
  tree_ok H → H !! p = None → node_ok H p nd → (∀ q, bn_parent nd = Some q → is_Some (H !! q)) →
  tree_ok (<[p := nd]> H).
Proof.
  intros WF Hp [Hh Hr Hq] Hin q qd. assert (Hsub : H ⊆ <[p := nd]> H) by by apply insert_subseteq.
  rewrite lookup_insert_Some. intros [[-> ->]|[? Hqd]]; [|by eapply node_ok_grow].
  split; [done..|]. intros q0 E0. destruct (Hq q0 E0) as (q0d&HqH&?&?&->).
  exists q0d. split_and!; [by eapply lookup_weaken|done..|].
  symmetry. eapply walk_grow; [done..|]. unfold steps_to.
  pose proof (tree_height H WF _ _ HqH).
  destruct (getAncestorHeight_bounds (bn_height qd)); lia.
Qed.

(** What a new node looks like. *)
Record made_from `{Crypto} (H : heap) (h : BlockHeader) (parent : option ptr) (nd : blockNode) : Prop := {
  mf_parent : bn_parent nd = parent;
  mf_hash : bn_hash nd = BlockHash h;
  mf_bits : bn_bits nd = Bits h;
  mf_time : bn_timestamp nd = Timestamp h;
  mf_rest : bn_version nd = Version h ∧ bn_merkleRoot nd = MerkleRoot h ∧ bn_nonce nd = Nonce h;
  mf_status : bn_status nd = statusNone;
  mf_root : parent = None → bn_height nd = 0 ∧ bn_workSum nd = CalcWork (Bits h);
  mf_child q : parent = Some q → ∃ qd, H !! q = Some qd ∧ bn_height nd = bn_height qd + 1 ∧
    bn_workSum nd = bn_workSum qd + CalcWork (Bits h) }.

(** The new node extends its parent by one height and the parent's work, and
    the tree stays well formed while heights fit 32 bits. *)
Lemma newBlockNode_ok `{CR : Crypto} H h parent :
  tree_ok H →
  (∀ q, parent = Some q → ∃ qd, H !! q = Some qd ∧ bn_height qd < 2147483647) →
  ∃ p nd, newBlockNode h parent H = (Ok p, <[p := nd]> H) ∧ H !! p = None ∧
    made_from H h parent nd ∧ tree_ok (<[p := nd]> H).
Proof.
  intros WF Hpar. unfold newBlockNode.
  assert (Hfr : H !! fresh (dom H) = None) by (apply not_elem_of_dom, is_fresh).
  destruct parent as [q|].
  - destruct (Hpar q eq_refl) as (qd&Hq&Hlt). rewrite Hq.
    pose proof (tree_height H WF _ _ Hq) as Hb. rewrite int32_wrap_small by lia.
    eexists _, _. split_and!; [done|done| |].
    + split; simpl; try done. naive_solver.
    + apply tree_ok_insert; [done..| |]; [|simpl; naive_solver].
      destruct (getAncestorHeight_bounds (bn_height qd + 1)) as [? ?]; [lia|].
      split; simpl; [lia|done|]. intros ? [= <-]. exists qd. split_and!; [done..|].
      apply Ancestor_eq; [done..|lia].
  - eexists _, _. split_and!; [done|done| |].
    + by split.
    + apply tree_ok_insert; [done..| |]; [|done]. split; simpl; [lia|done|done].
Qed.

(** The status is the only field that changes; shapes do not depend on it. *)
Definition same_shape (H H' : heap) : Prop :=
  ∀ p, (fun nd => setStatus nd 0) <$> H !! p = (fun nd => setStatus nd 0) <$> H' !! p.

#[export] Instance same_shape_equiv : Equivalence same_shape.
Proof.
  split; [by intros ? ?|intros ? ? A ?; by rewrite (A _)|intros ? ? ? A B ?; by rewrite (A _), (B _)].
Qed.

Lemma same_shape_lookup H H' p nd :
  same_shape H H' → H !! p = Some nd → ∃ s, H' !! p = Some (setStatus nd s).
Proof.
  intros HS Hp. specialize (HS p). rewrite Hp in HS. simpl in HS. symmetry in HS.
  apply fmap_Some in HS as (nd'&->&E). exists (bn_status nd'). f_equal.
  destruct nd, nd'. unfold setStatus in *; simpl in *. congruence.
Qed.

Lemma same_shape_status H p nd s : H !! p = Some nd → same_shape H (<[p := setStatus nd s]> H).
Proof.
  intros Hp q. destruct (decide (p = q)) as [<-|].
  - rewrite Hp, lookup_insert_eq. by destruct nd.
  - by rewrite lookup_insert_ne.
Qed.

#[export] Instance walk_Proper n : Proper (same_shape ==> (=) ==> (=)) (walk n).
Proof.
  intros H H' HS p ? <-. revert p; induction n as [|n IH]; intros p; [done|]. simpl.
  specialize (HS p). destruct (H !! p) as [nd|], (H' !! p) as [nd'|]; simpl in *; [|done..].
  assert (bn_parent nd = bn_parent nd') as -> by (destruct nd, nd'; unfold setStatus in HS; simpl in *; congruence).
  destruct (bn_parent nd'); simpl; [apply IH|done].
Qed.

Lemma tree_ok_shape H H' : same_shape H H' → tree_ok H → tree_ok H'.
Proof.
  intros HS WF p nd Hp. destruct (same_shape_lookup H' H p nd) as (s&Hp'); [by symmetry|done|].
  destruct (tree_node H WF _ _ Hp') as [Hh Hr Hq]. destruct nd; unfold setStatus in *; simpl in *.
  split; simpl; [done..|]. intros q Eq. destruct (Hq q Eq) as (qd&HqH&?&?&->).
  destruct (same_shape_lookup H H' q qd) as (s'&Hq'); [done..|].
  exists (setStatus qd s'). split_and!; [done..|]. by rewrite HS.
Qed.

#[export] Instance tree_ok_Proper : Proper (same_shape ==> iff) tree_ok.
Proof. intros ?? HS; split; apply tree_ok_shape; [done|by symmetry]. Qed.

Lemma Header_shape H H' nd st : same_shape H H' → Header H' (setStatus nd st) = Header H nd.
Proof.
  intros HS. unfold Header. cbn [setStatus bn_parent bn_version bn_merkleRoot bn_timestamp bn_bits bn_nonce].
  f_equal. destruct (bn_parent nd) as [q|]; [|done]. simpl. destruct (H !! q) as [qd|] eqn:E.
  - destruct (same_shape_lookup H H' q qd HS E) as [st' ->]. done.
  - specialize (HS q). rewrite E in HS. simpl in HS. symmetry in HS. by apply fmap_None in HS as ->.
Qed.

Lemma Header_insert H q nd p pd :
  tree_ok H → H !! q = None → H !! p = Some pd → Header (<[q := nd]> H) pd = Header H pd.
Proof.
  intros WF Hq Hp. unfold Header. destruct (bn_parent pd) as [r|] eqn:Er; [|done]. simpl.
  destruct (nk_parent _ _ _ (tree_node H WF _ _ Hp) r Er) as (rd&Hr&_). by rewrite lookup_insert_ne by congruence.
Qed.

(** A node made from a header gives the header back. *)
Lemma Header_made `{CR : Crypto} H h parent nd q st :
  made_from H h parent nd → H !! q = None →
  PrevBlock h = match parent ≫= fun r => H !! r with Some rd => bn_hash rd | None => zeroHash end →
  Header (<[q := setStatus nd st]> H) (setStatus nd st) = h.
Proof.
  intros Hmade Hq Hprev. pose proof (mf_rest _ _ _ _ Hmade) as (Ev&Em&En). unfold Header.
  cbn [setStatus bn_parent bn_version bn_merkleRoot bn_timestamp bn_bits bn_nonce].
  rewrite (mf_parent _ _ _ _ Hmade), Ev, Em, En, (mf_time _ _ _ _ Hmade), (mf_bits _ _ _ _ Hmade).
  destruct h as [v pb m t b n]. simpl in *. f_equal. rewrite Hprev. destruct parent as [r|]; [|done]. simpl.
  destruct (mf_child _ _ _ _ Hmade r eq_refl) as (rd&Hr&_). by rewrite lookup_insert_ne by congruence.
Qed.

(** ** What a view holds *)

(** The branch that ends at [p], genesis first. *)
Definition view_of (H : heap) (p : ptr) : chainView :=
  match H !! p with
  | None => []
  | Some nd =>
      let n := Z.to_nat (bn_height nd) in
      (fun i => walk (n - i) H p) <$> seq 0 (S n)
  end.

Definition view_ok (H : heap) (c : chainView) : Prop :=
  c = [] ∨ ∃ t td, H !! t = Some td ∧ c = view_of H t.

Section view.
Context (H : heap) (WF : tree_ok H).

Lemma view_of_length p nd : H !! p = Some nd → length (view_of H p) = S (Z.to_nat (bn_height nd)).
Proof. intros Hp. unfold view_of. rewrite Hp. by rewrite length_fmap, length_seq. Qed.

Lemma view_of_lookup p nd i :
  H !! p = Some nd → (i ≤ Z.to_nat (bn_height nd))%nat →
  view_of H p !! i = Some (walk (Z.to_nat (bn_height nd) - i) H p).
Proof.
  intros Hp Hi. unfold view_of. rewrite Hp. cbv zeta. rewrite list_lookup_fmap, lookup_seq_lt by lia. done.
Qed.

Lemma view_of_tip p nd : H !! p = Some nd → view_tip (view_of H p) = Some p.
Proof.
  intros Hp. unfold view_tip. rewrite last_lookup, (view_of_length p nd Hp). simpl pred.
  rewrite (view_of_lookup p nd) by (done || lia). by rewrite Nat.sub_diag.
Qed.

Lemma view_of_height p nd : H !! p = Some nd → view_height (view_of H p) = bn_height nd.
Proof.
  intros Hp. unfold view_height. rewrite (view_of_length p nd Hp).
  pose proof (tree_height H WF _ _ Hp). lia.
Qed.

(** The branch of an ancestor is a prefix. *)
Lemma view_of_prefix p nd a ad i :
  H !! p = Some nd → H !! a = Some ad → walk (steps_to nd (bn_height ad)) H p = Some a →
  (i ≤ Z.to_nat (bn_height ad))%nat → view_of H p !! i = view_of H a !! i.
Proof.
  intros Hp Ha Hw Hi. pose proof (walk_in H WF _ _ _ _ Hp Hw) as Hle.
  pose proof (tree_height H WF _ _ Hp). pose proof (tree_height H WF _ _ Ha).
  unfold steps_to in *.
  assert (bn_height ad ≤ bn_height nd).
  { destruct (walk_Some H WF _ _ _ _ Hp Hw) as (?&?&?). simplify_eq. lia. }
  rewrite (view_of_lookup p nd), (view_of_lookup a ad) by (done || lia).
  replace (Z.to_nat (bn_height nd) - i)%nat with
    (Z.to_nat (bn_height nd - bn_height ad) + (Z.to_nat (bn_height ad) - i))%nat by lia.
  by rewrite walk_app, Hw.
Qed.

(** A child's branch is its parent's, and the child. *)
Lemma view_of_child p nd t : H !! p = Some nd → bn_parent nd = Some t → view_of H p = view_of H t ++ [Some p].
Proof.
  intros Hp Et. destruct (nk_parent _ _ _ (tree_node H WF _ _ Hp) t Et) as (td&Ht&Eh&_).
  pose proof (tree_height H WF _ _ Hp). pose proof (tree_height H WF _ _ Ht).
  assert (Z.to_nat (bn_height nd) = S (Z.to_nat (bn_height td))) as En by lia.
  apply list_eq. intros i. pose proof (view_of_length t td Ht) as Hlen.
  destruct (decide (i ≤ Z.to_nat (bn_height td))%nat).
  - rewrite lookup_app_l by lia. rewrite (view_of_lookup p nd), (view_of_lookup t td) by (done || lia).
    f_equal. rewrite En, Nat.sub_succ_l by lia. cbn [walk]. rewrite Hp. cbn [mbind option_bind]. by rewrite Et.
  - rewrite lookup_app_r by lia. rewrite Hlen. destruct (decide (i = S (Z.to_nat (bn_height td)))) as [->|].
    + rewrite Nat.sub_diag, (view_of_lookup p nd) by (done || lia). by rewrite En, Nat.sub_diag.
    + rewrite !lookup_ge_None_2; [done|simpl; lia|]. rewrite (view_of_length p nd Hp). lia.
Qed.

Lemma nodeByHeight_view t td h :
  H !! t = Some td → 0 ≤ h ≤ bn_height td → nodeByHeight (view_of H t) h = walk (steps_to td h) H t.
Proof.
  intros Ht Hh. unfold nodeByHeight. rewrite (view_of_length t td Ht).
  rewrite (proj2 (Z.ltb_ge h 0)), (proj2 (Z.leb_gt _ h)) by lia. cbn [orb].
  rewrite (view_of_lookup t td) by (done || lia). cbn. f_equal. unfold steps_to. lia.
Qed.

(** A view contains exactly the tip's ancestors and the tip. *)
Lemma contains_view t td p :
  H !! t = Some td → contains H (view_of H t) p = true ↔ ∃ n, walk n H t = Some p.
Proof.
  intros Ht. pose proof (tree_height H WF _ _ Ht). unfold contains. split.
  - destruct (H !! p) as [nd|] eqn:Hp; [|done]. rewrite bool_decide_eq_true. intros E.
    assert (bn_height nd ≤ bn_height td).
    { unfold nodeByHeight in E. rewrite (view_of_length t td Ht) in E.
      destruct (Z.leb_spec (Z.of_nat (S (Z.to_nat (bn_height td)))) (bn_height nd)); [|lia].
      by rewrite orb_true_r in E. }
    pose proof (tree_height H WF _ _ Hp). rewrite (nodeByHeight_view t td) in E by (done || lia).
    by eexists.
  - intros (n&Hw). destruct (walk_Some H WF _ _ _ _ Ht Hw) as (nd&Hp&Eh). rewrite Hp.
    pose proof (tree_height H WF _ _ Hp). rewrite (nodeByHeight_view t td) by (done || lia).
    rewrite bool_decide_eq_true. rewrite <- Hw. f_equal. unfold steps_to. lia.
Qed.

(** *** [setTip] *)

(** The loop repairs a view whose entries above the current node are right
    and whose entries from it down are those of an older view. *)
Lemma setTipLoop_spec fuel p0 d0 p pd k old nodes :
  H !! p0 = Some d0 → walk k H p0 = Some p → H !! p = Some pd → view_ok H old →
  length nodes = S (Z.to_nat (bn_height d0)) → (Z.to_nat (bn_height pd) < fuel)%nat →
  (∀ j, (Z.to_nat (bn_height pd) < j)%nat → nodes !! j = view_of H p0 !! j) →
  (∀ j q, (j ≤ Z.to_nat (bn_height pd))%nat → nodes !! j = Some (Some q) → old !! j = Some (Some q)) →
  (∀ j, (j ≤ Z.to_nat (bn_height pd))%nat → (j < length old)%nat → nodes !! j = old !! j) →
  setTipLoop fuel H nodes (Some p) = view_of H p0.
Proof.
  intros Hp0 Hk Hp Hold Hlen Hf Hup Hsome Hlow.
  revert k p pd nodes Hk Hp Hlen Hf Hup Hsome Hlow.
  induction fuel as [|f IH]; intros k p pd nodes Hk Hp Hlen Hf Hup Hsome Hlow; [lia|]. simpl. rewrite Hp.
  destruct (walk_Some H WF _ _ _ _ Hp0 Hk) as (?&?&Eh). simplify_eq.
  pose proof (tree_height H WF _ _ Hp) as Hb. pose proof (tree_height H WF _ _ Hp0).
  assert (Hk' : walk (steps_to d0 (bn_height pd)) H p0 = Some p).
  { rewrite <- Hk. f_equal. unfold steps_to. lia. }
  case_bool_decide as E.
  - apply list_eq. intros j. destruct (decide (Z.to_nat (bn_height pd) < j)%nat) as [|Hj]; [by apply Hup|].
    pose proof (Hsome _ _ (le_n _) E) as Eo.
    destruct Hold as [->|(t&td&Ht&->)]; [done|].
    assert (Hlt : (Z.to_nat (bn_height pd) < length (view_of H t))%nat) by (by eapply lookup_lt_Some).
    rewrite Hlow by lia. rewrite (view_of_length t td Ht) in Hlt.
    rewrite (view_of_lookup t td) in Eo by (done || lia). injection Eo as Eo.
    rewrite (view_of_prefix t td p pd), (view_of_prefix p0 d0 p pd); [done..|lia|done|done| |lia].
    rewrite <- Eo. f_equal. unfold steps_to. lia.
  - assert (Hup' : ∀ j, (Z.to_nat (bn_height pd) ≤ j)%nat →
      <[Z.to_nat (bn_height pd) := Some p]> nodes !! j = view_of H p0 !! j).
    { intros j Hj. destruct (decide (j = Z.to_nat (bn_height pd))) as [->|].
      - rewrite list_lookup_insert_eq by lia. rewrite (view_of_lookup p0 d0) by (done || lia).
        rewrite <- Hk. do 2 f_equal. lia.
      - rewrite list_lookup_insert_ne by done. apply Hup. lia. }
    destruct (bn_parent pd) as [q|] eqn:Eq.
    + destruct (tree_node H WF _ _ Hp) as [_ _ Hq]. destruct (Hq q Eq) as (qd&HqH&?&_).
      pose proof (tree_height H WF _ _ HqH).
      apply (IH (S k) q qd); [|done|by rewrite length_insert|lia|intros; apply Hup'; lia|..].
      * rewrite <- (Nat.add_1_r k), walk_app, Hk. simpl. by rewrite Hp; simpl; rewrite Eq.
      * intros j q' Hj. rewrite list_lookup_insert_ne by lia. apply Hsome. lia.
      * intros j Hj ?. rewrite list_lookup_insert_ne by lia. apply Hlow; lia.
    + destruct (tree_node H WF _ _ Hp) as [_ Hr _]. destruct (Hr Eq) as [E0 _].
      destruct f; apply list_eq; intros j; apply Hup'; lia.
Qed.

(** Whatever branch the view held, [setTip] leaves it holding the new one. *)
Lemma setTip_view c p pd :
  H !! p = Some pd → bn_height pd < 2147483647 → view_ok H c → setTip H c (Some p) = view_of H p.
Proof.
  intros Hp Hlt Hc. pose proof (tree_height H WF _ _ Hp).
  unfold setTip. cbn [mbind option_bind]. rewrite Hp, int32_wrap_small by lia.
  replace (Z.to_nat (bn_height pd + 1)) with (S (Z.to_nat (bn_height pd))) by lia.
  apply (setTipLoop_spec _ p pd p pd 0 c); try done.
  - apply length_resize.
  - lia.
  - intros j Hj. rewrite !lookup_ge_None_2; [done|..].
    + rewrite (view_of_length p pd Hp). lia.
    + rewrite length_resize. lia.
  - intros j q Hj. destruct (decide (j < length c)%nat).
    + by rewrite lookup_resize by lia.
    + rewrite lookup_resize_new by lia. done.
  - intros j Hj Hl. by rewrite lookup_resize by lia.
Qed.

(** *** [findFork] *)

(** [f] is on both branches, and nothing on both is higher. *)
Definition forksAt (t p f : ptr) : Prop :=
  (∃ n, walk n H t = Some f) ∧ (∃ m, walk m H p = Some f) ∧
  ∀ g gd fd n m, walk n H t = Some g → walk m H p = Some g →
    H !! g = Some gd → H !! f = Some fd → bn_height gd ≤ bn_height fd.

Lemma walk_step p pd q n : H !! p = Some pd → bn_parent pd = Some q → walk (S n) H p = walk n H q.
Proof. intros Hp Eq. simpl. by rewrite Hp; simpl; rewrite Eq. Qed.

Lemma walk_root p pd n a :
  H !! p = Some pd → bn_parent pd = None → walk n H p = Some a → a = p.
Proof.
  intros Hp Eq Hw. destruct n; simpl in Hw; [by simplify_eq|].
  by rewrite Hp in Hw; simpl in Hw; rewrite Eq in Hw.
Qed.

Lemma findForkLoop_spec fuel t td p pd :
  H !! t = Some td → H !! p = Some pd → (Z.to_nat (bn_height pd) < fuel)%nat →
  match findForkLoop fuel H (view_of H t) (Some p) with
  | Some f => forksAt t p f
  | None => ∀ g n m, walk n H t = Some g → walk m H p ≠ Some g
  end.
Proof.
  intros Ht. revert p pd; induction fuel as [|fu IH]; intros p pd Hp Hf; [lia|].
  simpl. rewrite Hp; simpl. pose proof (contains_view t td p Ht) as Hc.
  destruct (contains H (view_of H t) p).
  - split_and!; [by apply Hc|by exists O|]. intros g gd fd n m _ Hm Hg Hfd. simplify_eq.
    destruct (walk_Some H WF _ _ _ _ Hp Hm) as (?&?&?). simplify_eq. lia.
  - assert (Hnot : ∀ g n m, walk n H t = Some g → walk m H p = Some g → m ≠ O).
    { intros g n m Hn Hm ->. simpl in Hm. simplify_eq. assert (false = true) by naive_solver. done. }
    destruct (bn_parent pd) as [q|] eqn:Eq.
    + destruct (tree_node H WF _ _ Hp) as [_ _ Hq]. destruct (Hq q Eq) as (qd&HqH&?&_).
      pose proof (tree_height H WF _ _ HqH). specialize (IH q qd HqH ltac:(lia)).
      destruct (findForkLoop fu H (view_of H t) (Some q)) as [f|].
      * destruct IH as (?&(m&?)&Hmax). split_and!; [done| |].
        -- exists (S m). by rewrite (walk_step p pd q).
        -- intros g gd fd n m' Hn Hm. destruct m' as [|m']; [by destruct (Hnot g n O)|].
           rewrite (walk_step p pd q) in Hm by done. by eapply Hmax.
      * intros g n [|m] Hn Hm; [by destruct (Hnot g n O)|].
        rewrite (walk_step p pd q) in Hm by done. by eapply IH.
    + assert (findForkLoop fu H (view_of H t) None = None) as -> by by destruct fu.
      intros g n m Hn Hm. pose proof (walk_root _ _ _ _ Hp Eq Hm) as ->. by eapply (Hnot p n O).
Qed.

Lemma forksAt_lower t td p pd a k f :
  H !! t = Some td → H !! p = Some pd → walk k H p = Some a →
  (∀ g m, (m < k)%nat → walk m H p = Some g → ∀ n, walk n H t ≠ Some g) →
  forksAt t a f → forksAt t p f.
Proof.
  intros Ht Hp Hk Hno (?&(m&Hm)&Hmax). split_and!; [done| |].
  - exists (k + m)%nat. by rewrite walk_app, Hk.
  - intros g gd fd n m' Hn Hm' Hg Hfd. destruct (decide (m' < k)%nat) as [Hlt|Hge].
    + by destruct (Hno g m' Hlt Hm' n).
    + apply (Hmax g gd fd n (m' - k)%nat); [done| |done..].
      replace m' with (k + (m' - k))%nat in Hm' by lia. by rewrite walk_app, Hk in Hm'.
Qed.

(** [findFork] returns the highest common ancestor, or nil when the two
    branches share nothing. *)
Lemma findFork_spec t td p pd :
  H !! t = Some td → H !! p = Some pd →
  match findFork H (view_of H t) (Some p) with
  | Some f => forksAt t p f
  | None => ∀ g n m, walk n H t = Some g → walk m H p ≠ Some g
  end.
Proof.
  intros Ht Hp. unfold findFork. cbn [mbind option_bind]. rewrite Hp. cbn [mbind option_bind].
  rewrite (view_of_height t td Ht). pose proof (tree_height H WF _ _ Ht).
  pose proof (tree_height H WF _ _ Hp).
  destruct (Z.ltb_spec (bn_height td) (bn_height pd)) as [Hlt|];
    [|by apply (findForkLoop_spec _ t td p pd); [..|lia]].
  rewrite (Ancestor_eq H WF p pd) by (done || lia).
  destruct (walk_total H WF (steps_to pd (bn_height td)) p pd) as (a&ad&Hw&Ha&Eh);
    [done|unfold steps_to; lia|].
  assert (Hno : ∀ g m, (m < steps_to pd (bn_height td))%nat → walk m H p = Some g → ∀ n, walk n H t ≠ Some g).
  { intros g m Hm Hmw n Hn. destruct (walk_Some H WF _ _ _ _ Hp Hmw) as (gd&Hg&?).
    destruct (walk_Some H WF _ _ _ _ Ht Hn) as (?&?&?). simplify_eq. unfold steps_to in Hm. lia. }
  rewrite Hw. unfold steps_to in Eh.
  pose proof (findForkLoop_spec (S (Z.to_nat (bn_height pd))) t td a ad Ht Ha ltac:(lia)) as Hs.
  destruct (findForkLoop _ _ _ _) as [f|]; [by eapply forksAt_lower|].
  intros g n m Hn Hm. destruct (decide (m < steps_to pd (bn_height td))%nat) as [Hl|Hge].
  - by eapply Hno.
  - eapply (Hs g n (m - steps_to pd (bn_height td))%nat); [done|].
    replace m with (steps_to pd (bn_height td) + (m - steps_to pd (bn_height td)))%nat in Hm by lia.
    by rewrite walk_app, Hw in Hm.
Qed.

End view.

(** ** Locators *)

Lemma land_shiftl n m e : 0 ≤ e → Z.land n (Z.shiftl m e) = Z.shiftl (Z.land (Z.shiftr n e) m) e.
Proof.
  intros He. apply Z.bits_inj'. intros i Hi.
  rewrite Z.land_spec, !Z.shiftl_spec by lia. destruct (decide (i < e)).
  - rewrite !(Z.testbit_neg_r _ (i - e)) by lia. apply andb_false_r.
  - rewrite Z.land_spec, Z.shiftr_spec by lia. do 2 f_equal. lia.
Qed.

(** One round: the mask is hit exactly when the high half is not zero. *)
Lemma log2_round n e :
  0 < e → 0 < n < 2 ^ (2 * e) →
  (if negb (Z.land n (Z.shiftl (Z.ones e) e) =? 0)
   then Z.log2 n = e + Z.log2 (Z.shiftr n e) ∧ 0 < Z.shiftr n e < 2 ^ e else n < 2 ^ e).
Proof.
  intros He Hn. rewrite land_shiftl, Z.land_ones by lia.
  assert (2 ^ (2 * e) = 2 ^ e * 2 ^ e) as Ep by (rewrite <- Z.pow_add_r by lia; f_equal; lia).
  assert (0 < 2 ^ e) by (apply Z.pow_pos_nonneg; lia).
  rewrite Z.shiftr_div_pow2 by lia. assert (0 ≤ n / 2 ^ e) by (apply Z.div_pos; lia).
  assert (n / 2 ^ e < 2 ^ e) by (apply Z.div_lt_upper_bound; lia).
  rewrite (Z.mod_small (n / 2 ^ e)), Z.shiftl_mul_pow2 by lia.
  destruct (Z.eqb_spec (n / 2 ^ e * 2 ^ e) 0) as [E|E]; simpl.
  - pose proof (Z.div_mod n (2 ^ e)). pose proof (Z.mod_pos_bound n (2 ^ e)). nia.
  - split; [|nia]. assert (2 ^ e ≤ n) by (apply Z.nlt_ge; intros ?; rewrite Z.div_small in E; lia).
    assert (e ≤ Z.log2 n) by (apply Z.log2_le_pow2; lia).
    rewrite <- Z.shiftr_div_pow2, Z.log2_shiftr by lia. lia.
Qed.

Lemma fastLog2Floor_log2 n : 0 < n < two32 → fastLog2Floor n = Z.log2 n.
Proof.
  intros Hn. unfold fastLog2Floor, log2FloorMasks. cbn [foldl].
  assert (∀ n rv e mask acc, mask = Z.shiftl (Z.ones e) e → 0 < e → 0 < n < 2 ^ (2 * e) →
    acc = rv + Z.log2 n →
    ∃ n' rv', (if negb (Z.land n mask =? 0) then (rv + e, Z.shiftr n e) else (rv, n)) = (rv', n') ∧
      0 < n' < 2 ^ e ∧ acc = rv' + Z.log2 n') as Hround.
  { intros m rv e ? acc -> He Hm ->. pose proof (log2_round m e He Hm) as Hr.
    destruct (negb _); eexists _, _; (split; [done|]); lia. }
  destruct (Hround n 0 16 4294901760 (Z.log2 n)) as (n1&r1&->&?&?); [done..|lia|].
  destruct (Hround n1 r1 8 65280 (Z.log2 n)) as (n2&r2&E2&?&?); [done..|].
  change (Z.shiftr 16 1) with 8. rewrite E2.
  destruct (Hround n2 r2 4 240 (Z.log2 n)) as (n3&r3&E3&?&?); [done..|].
  change (Z.shiftr 8 1) with 4. rewrite E3.
  destruct (Hround n3 r3 2 12 (Z.log2 n)) as (n4&r4&E4&?&?); [done..|].
  change (Z.shiftr 4 1) with 2. rewrite E4.
  destruct (Hround n4 r4 1 2 (Z.log2 n)) as (n5&r5&E5&?&E); [done..|].
  change (Z.shiftr 2 1) with 1. rewrite E5. simpl.
  assert (n5 = 1) as -> by lia. rewrite E. simpl. lia.
Qed.

Section locator.
Context (H : heap) (WF : tree_ok H) (t : ptr) (td : blockNode) (Ht : H !! t = Some td).
Let c := view_of H t.

(** Both ways to the next entry lead to the ancestor at that height. *)
Lemma locator_next p pd h :
  H !! p = Some pd → 0 ≤ h ≤ bn_height pd →
  ∃ a ad, (if contains H c p then mjoin (c !! Z.to_nat h) else Ancestor H p h) = Some a ∧
    walk (steps_to pd h) H p = Some a ∧ H !! a = Some ad ∧ bn_height ad = h.
Proof.
  intros Hp Hh. destruct (walk_total H WF (steps_to pd h) p pd) as (a&ad&Hw&Ha&Eh);
    [done|unfold steps_to; lia|].
  exists a, ad. split_and!; [|done|done|unfold steps_to in Eh; lia].
  destruct (contains H c p) eqn:Ec; [|by rewrite (Ancestor_eq H WF p pd)].
  apply (contains_view H WF t td p Ht) in Ec as (n&Hn).
  destruct (walk_Some H WF _ _ _ _ Ht Hn) as (?&?&?). simplify_eq.
  pose proof (tree_height H WF _ _ Hp). unfold c.
  rewrite (view_of_lookup H t td) by (done || lia). cbn.
  replace (Z.to_nat (bn_height td) - Z.to_nat h)%nat with (n + steps_to pd h)%nat by (unfold steps_to; lia).
  by rewrite walk_app, Hn.
Qed.

(** The entries still to come at height [h] with distance [step], once the
    distance doubles. *)
Definition doubling (h step : Z) : Z :=
  if h =? 0 then 1 else 2 + Z.log2 ((h - 1) / step + 1).

Lemma doubling_step h step :
  0 < h → 0 < step → doubling h step = 1 + doubling (Z.max 0 (h - step)) (step * 2).
Proof.
  intros Hh Hs. unfold doubling. rewrite (proj2 (Z.eqb_neq h 0)) by lia.
  destruct (Z.leb_spec h step).
  - rewrite Z.max_l by lia. rewrite Z.div_small by lia. done.
  - rewrite Z.max_r, (proj2 (Z.eqb_neq _ 0)) by lia.
    rewrite <- Z.div_div by lia.
    replace (h - step - 1) with (h - 1 + (-1) * step) by lia. rewrite Z.div_add by lia.
    set (x := (h - 1) / step). assert (1 ≤ x) by (apply Z.div_le_lower_bound; lia).
    replace ((x + -1) / 2 + 1) with ((x + 1) / 2).
    + replace ((x + 1) / 2) with (Z.shiftr (x + 1) 1) by (rewrite Z.shiftr_div_pow2; done).
      rewrite Z.log2_shiftr by lia. assert (1 ≤ Z.log2 (x + 1)) by (apply Z.log2_le_pow2; lia). lia.
    + replace (x + 1) with (x + -1 + 1 * 2) by lia. by rewrite Z.div_add by lia.
Qed.

(** Hashes of the branch of [p], from [p] down to genesis. *)
Inductive locates : ptr → list bytes → Prop :=
| locates_genesis p pd : H !! p = Some pd → bn_height pd = 0 → locates p [bn_hash pd]
| locates_next p pd n a rest :
    H !! p = Some pd → walk (S n) H p = Some a → locates a rest → locates p (bn_hash pd :: rest).

(** A round of the loop: it ends at genesis, or goes on from a lower node. *)
Lemma locatorLoop_round fuel p pd step loc :
  H !! p = Some pd → 0 < step ≤ 2147483648 - bn_height pd →
  (bn_height pd = 0 ∧
   locatorLoop (S fuel) H c (Some p) step loc = loc ++ [bn_hash pd]) ∨
  (0 < bn_height pd ∧ ∃ n a ad, walk (S n) H p = Some a ∧ H !! a = Some ad ∧
   bn_height ad = Z.max 0 (bn_height pd - step) ∧
   locatorLoop (S fuel) H c (Some p) step loc =
     locatorLoop fuel H c (Some a)
       (if (10 <=? length loc)%nat then int32_wrap (step * 2) else step) (loc ++ [bn_hash pd])).
Proof.
  intros Hp Hs. pose proof (tree_height H WF _ _ Hp) as Hb.
  cbn [locatorLoop mbind option_bind]. rewrite Hp. cbn [fmap option_fmap option_map].
  destruct (Z.eqb_spec (bn_height pd) 0) as [E|E]; [by left|right]. split; [lia|].
  rewrite int32_wrap_small by lia.
  destruct (locator_next p pd (Z.max 0 (bn_height pd - step))) as (a&ad&Ea&Hw&Ha&Eh); [done|lia|].
  exists (pred (steps_to pd (Z.max 0 (bn_height pd - step)))), a, ad.
  replace (S (pred _)) with (steps_to pd (Z.max 0 (bn_height pd - step))) by (unfold steps_to; lia).
  split_and!; [done..|]. fold c. rewrite Ea, length_app.
  replace (10 <? length loc + length [bn_hash pd])%nat with (10 <=? length loc)%nat; [done|].
  apply eq_true_iff_eq. rewrite Nat.leb_le, Nat.ltb_lt. simpl. lia.
Qed.

Lemma locatorLoop_doubling fuel p pd step loc :
  H !! p = Some pd → (Z.to_nat (bn_height pd) < fuel)%nat → (10 ≤ length loc)%nat →
  (bn_height pd ≠ 0 → 0 < step ≤ 2147483647 - bn_height pd) →
  ∃ new, locatorLoop fuel H c (Some p) step loc = loc ++ new ∧ locates p new ∧
    Z.of_nat (length new) = doubling (bn_height pd) step.
Proof.
  revert p pd step loc. induction fuel as [|f IH]; intros p pd step loc Hp Hf Hl Hs; [lia|].
  pose proof (tree_height H WF _ _ Hp) as Hb. destruct (decide (bn_height pd = 0)) as [E0|E0].
  { exists [bn_hash pd]. split_and!; [|by constructor|by unfold doubling; rewrite E0].
    cbn [locatorLoop mbind option_bind]. rewrite Hp. cbn [fmap option_fmap option_map].
    by rewrite E0. }
  specialize (Hs E0).
  destruct (locatorLoop_round f p pd step loc Hp) as [[? _]|(_&n&a&ad&Hw&Ha&Eh&->)]; [lia|done|].
  rewrite (proj2 (Nat.leb_le _ _) Hl). pose proof (tree_height H WF _ _ Ha).
  destruct (IH a ad (int32_wrap (step * 2)) (loc ++ [bn_hash pd])) as (new&->&Hnew&Elen);
    [done|lia|rewrite length_app; lia|intros; rewrite int32_wrap_small by lia; lia|].
  exists (bn_hash pd :: new). split_and!; [by rewrite <- app_assoc|by econstructor|].
  simpl length. rewrite Nat2Z.inj_succ, Elen, Eh, (doubling_step (bn_height pd) step) by lia.
  unfold doubling at 1 2. destruct (Z.eqb_spec (Z.max 0 (bn_height pd - step)) 0); [lia|].
  rewrite int32_wrap_small by lia. lia.
Qed.

Lemma locatorLoop_single fuel p pd loc :
  H !! p = Some pd → (Z.to_nat (bn_height pd) < fuel)%nat → (length loc ≤ 10)%nat →
  bn_height pd < 2147483647 →
  let d := 10 - Z.of_nat (length loc) in
  ∃ new, locatorLoop fuel H c (Some p) 1 loc = loc ++ new ∧ locates p new ∧
    Z.of_nat (length new) =
      if bn_height pd <=? d then bn_height pd + 1 else d + doubling (bn_height pd - d) 1.
Proof.
  revert p pd loc. induction fuel as [|f IH]; intros p pd loc Hp Hf Hl Hlt d; [lia|].
  pose proof (tree_height H WF _ _ Hp) as Hb.
  destruct (decide (length loc = 10%nat)) as [E10|].
  { destruct (locatorLoop_doubling (S f) p pd 1 loc) as (new&?&?&El); [done|lia..|].
    exists new. split_and!; [done..|]. rewrite El. unfold d, doubling.
    destruct (Z.leb_spec (bn_height pd) (10 - Z.of_nat (length loc))).
    - by replace (bn_height pd) with 0 by lia.
    - replace (bn_height pd - (10 - Z.of_nat (length loc))) with (bn_height pd) by lia. lia. }
  destruct (locatorLoop_round f p pd 1 loc Hp) as [[E0 ->]|(Hpos&k&a&ad&Hw&Ha&Eh&->)]; [lia|..].
  { exists [bn_hash pd]. split_and!; [done|by constructor|].
    rewrite E0, (proj2 (Z.leb_le 0 d)) by lia. done. }
  rewrite (proj2 (Nat.leb_gt _ _)) by lia. pose proof (tree_height H WF _ _ Ha).
  destruct (IH a ad (loc ++ [bn_hash pd])) as (new&->&Hnew&Elen);
    [done|lia|rewrite length_app; simpl; lia|lia|].
  exists (bn_hash pd :: new). split_and!; [by rewrite <- app_assoc|by econstructor|].
  simpl length. rewrite Nat2Z.inj_succ, Elen, length_app. simpl length. rewrite Eh.
  subst d. rewrite Z.max_r by lia. rewrite Nat2Z.inj_add.
  destruct (Z.leb_spec (bn_height pd - 1) (10 - (Z.of_nat (length loc) + Z.of_nat 1))),
    (Z.leb_spec (bn_height pd) (10 - Z.of_nat (length loc))); try lia.
  replace (bn_height pd - 1 - (10 - (Z.of_nat (length loc) + Z.of_nat 1)))
    with (bn_height pd - (10 - Z.of_nat (length loc))) by lia. lia.
Qed.

(** A locator starts at the requested block, descends its branch to genesis,
    and fills exactly the capacity reserved for it. *)
Lemma blockLocator_spec p pd :
  H !! p = Some pd → bn_height pd < 2147483647 →
  locates p (blockLocator H c (Some p)) ∧
  Z.of_nat (length (blockLocator H c (Some p))) = maxEntries (bn_height pd).
Proof.
  intros Hp Hlt. pose proof (tree_height H WF _ _ Hp). unfold blockLocator.
  cbn [mbind option_bind]. rewrite Hp.
  destruct (locatorLoop_single (S (Z.to_nat (bn_height pd))) p pd []) as (new&->&?&E);
    [done|simpl; lia..|done|].
  split; [done|]. rewrite app_nil_l, E. unfold maxEntries. simpl length. rewrite Z.sub_0_r.
  destruct (Z.leb_spec (bn_height pd) 10), (Z.leb_spec (bn_height pd) 12); try lia.
  - assert (bn_height pd = 11 ∨ bn_height pd = 12) as [->| ->] by lia; done.
  - unfold uint32. rewrite Z.mod_small by lia. rewrite fastLog2Floor_log2 by (unfold two32; lia).
    unfold doubling. rewrite (proj2 (Z.eqb_neq _ 0)) by lia.
    rewrite Z.div_1_r. replace (bn_height pd - 10 - 1 + 1) with (bn_height pd - 10) by lia. lia.
Qed.
End locator.
