(* ===== verification/Merkle.v ===== *)
(** * Merkle roots

    [btcd/blockchain/rolling_merkle.go] computes the root of a block's
    transactions with a stack of subtree roots, one per set bit of the number
    of leaves.  [CalcMerkleRoot_spec] shows it equal to the textbook
    definition, which hashes a row in pairs, doubling its last entry when the
    row is odd, until one hash is left. *)

From Stdlib Require Import ZArith List Lia.
From stdpp Require Import base list.
From S2P Require Import Prelude.
From S2P Require Import Wire.

Open Scope Z_scope.

Section merkle.
Context `{CR : Crypto}.

Definition HashMerkleBranches (left right : bytes) : bytes := DoubleHashRaw (left ++ right).

(** ** The rolling store: [roots] holds the slice with its last element first *)

Record rollingMerkleTreeStore := mkStore { roots : list bytes; numLeaves : Z }.

Definition newRollingMerkleTreeStore : rollingMerkleTreeStore := mkStore [] 0.

(** The loop of [add]: while the bit is set, a root is popped and hashed with
    the new one. *)
Fixpoint addLoop (fuel : nat) (n : Z) (roots : list bytes) (newRoot : bytes) : list bytes :=
  match fuel with
  | O => newRoot :: roots
  | S f =>
      if Z.land n 1 =? 1 then
        match roots with
        | root :: roots => addLoop f (Z.shiftr n 1) roots (HashMerkleBranches root newRoot)
        | [] => [newRoot]
        end
      else newRoot :: roots
  end.

Definition add (s : rollingMerkleTreeStore) (h : bytes) : rollingMerkleTreeStore :=
  mkStore (addLoop 64 (numLeaves s) (roots s) h) ((numLeaves s + 1) mod two64).

#[local] Arguments add : simpl never.

(** The inner loop that moves up to a row with an odd number of leaves. *)
Fixpoint shiftRows (fuel : nat) (n : Z) : Z :=
  match fuel with
  | O => n
  | S f => if Z.land n 1 =? 0 then shiftRows f (Z.shiftr n 1) else n
  end.

(** One round adds the last root again; 64 rows are enough. *)
Fixpoint foldRoots (fuel : nat) (s : rollingMerkleTreeStore) : rollingMerkleTreeStore :=
  match fuel with
  | O => s
  | S f =>
      match roots s with
      | h :: _ :: _ => foldRoots f (add (mkStore (roots s) (shiftRows 64 (numLeaves s))) h)
      | _ => s
      end
  end.

Definition calcMerkleRoot (s : rollingMerkleTreeStore) (adds : list bytes) : bytes :=
  let s := foldl add s adds in
  let root := fun s => default zeroHash (last (roots s)) in
  if numLeaves s =? 1 then root s else
  let s := match last adds with
           | Some h => if negb (Nat.even (length adds)) then add s h else s
           | None => s
           end in
  root (foldRoots 64 s).

Definition WitnessHash (msg : MsgTx) : bytes :=
  if HasWitness msg then DoubleHashRaw (Serialize msg) else TxHash msg.

(** The coinbase's witness identifier counts as zero. *)
Definition leafHash (witness : bool) (i : nat) (tx : MsgTx) : bytes :=
  if witness then if Nat.eqb i 0 then zeroHash else WitnessHash tx else TxHash tx.

Definition CalcMerkleRoot (transactions : list MsgTx) (witness : bool) : bytes :=
  calcMerkleRoot newRollingMerkleTreeStore (imap (leafHash witness) transactions).

(** ** The definition it implements *)

(** The next row up. *)
Fixpoint row (l : list bytes) : list bytes :=
  match l with
  | [] => []
  | [x] => [HashMerkleBranches x x]
  | x :: y :: l => HashMerkleBranches x y :: row l
  end.

Fixpoint rootOf (fuel : nat) (l : list bytes) : bytes :=
  match fuel, l with
  | _, [] => zeroHash
  | _, [x] => x
  | O, x :: _ => x
  | S f, l => rootOf f (row l)
  end.

(** The length bounds the rows. *)
Definition merkleRoot (l : list bytes) : bytes := rootOf (length l) l.

(** ** The stack of a row is the stack of the row above, and the odd one *)

(** The store after adding [l]. *)
Definition stackOf (l : list bytes) : rollingMerkleTreeStore := foldl add newRollingMerkleTreeStore l.

#[local] Arguments stackOf : simpl never.

Lemma row_length l : length (row l) = ((length l + 1) / 2)%nat.
Proof.
  revert l. fix IH 1. intros [|x [|y l]]; [done..|]. simpl length. rewrite IH.
  replace (S (S (length l)) + 1)%nat with (length l + 1 + 1 * 2)%nat by lia.
  rewrite Nat.div_add by lia. lia.
Qed.

Lemma row_app2 l x y : Nat.even (length l) = true → row (l ++ [x; y]) = row l ++ [HashMerkleBranches x y].
Proof.
  revert l. fix IH 1. intros [|a [|b l]]; [done..|]. simpl. intros E. by rewrite IH.
Qed.

Lemma row_odd l x : Nat.even (length l) = true → row (l ++ [x]) = row l ++ [HashMerkleBranches x x].
Proof.
  revert l. fix IH 1. intros [|a [|b l]]; [done..|]. simpl. intros E. by rewrite IH.
Qed.

Lemma stackOf_snoc l x : stackOf (l ++ [x]) = add (stackOf l) x.
Proof. unfold stackOf. by rewrite foldl_app. Qed.

Lemma stackOf_leaves l : Z.of_nat (length l) < two64 → numLeaves (stackOf l) = Z.of_nat (length l).
Proof.
  induction l as [|x l IH] using rev_ind; [done|]. rewrite stackOf_snoc, length_app. simpl length. intros Hl.
  unfold add. cbn [numLeaves]. rewrite IH by lia. rewrite Z.mod_small; unfold two64 in *; lia.
Qed.

Lemma odd_land n : Z.land n 1 = n mod 2.
Proof. change 1 with (Z.ones 1) at 1. by rewrite Z.land_ones. Qed.

(** More fuel than bits changes nothing. *)
Lemma addLoop_fuel f f' n rs x :
  0 ≤ n < 2 ^ Z.of_nat f → (f ≤ f')%nat → addLoop f' n rs x = addLoop f n rs x.
Proof.
  revert f' n rs x; induction f as [|f IH]; intros f' n rs x Hn Hf.
  - assert (n = 0) as -> by (simpl in Hn; lia). by destruct f'.
  - destruct f' as [|f']; [lia|]. simpl. destruct (Z.land n 1 =? 1); [|done]. destruct rs; [done|].
    apply IH; [|lia]. rewrite Z.shiftr_div_pow2 by lia. change (2 ^ 1) with 2.
    rewrite Nat2Z.inj_succ, Z.pow_succ_r in Hn by lia.
    split; [apply Z.div_pos; lia|apply Z.div_lt_upper_bound; lia].
Qed.

Lemma addLoop_even f n rs x : 0 ≤ n → addLoop f (2 * n) rs x = x :: rs.
Proof.
  intros Hn. destruct f; [done|]. cbn [addLoop]. rewrite odd_land.
  replace (2 * n) with (n * 2) by lia. by rewrite Z.mod_mul.
Qed.

Lemma addLoop_odd f n r rs x :
  0 ≤ n → addLoop (S f) (2 * n + 1) (r :: rs) x = addLoop f n rs (HashMerkleBranches r x).
Proof.
  intros Hn. cbn [addLoop]. rewrite odd_land. replace (2 * n + 1) with (1 + n * 2) by lia.
  rewrite Z.mod_add, Z.shiftr_div_pow2 by lia. change (2 ^ 1) with 2. by rewrite Z.div_add by lia.
Qed.

(** Two leaves are one leaf of the row above. *)
Lemma add_pair rs n x y :
  0 ≤ n < 2 ^ 62 →
  roots (add (add (mkStore rs (2 * n)) x) y) = roots (add (mkStore rs n) (HashMerkleBranches x y)).
Proof.
  intros Hn. unfold add. cbn [roots numLeaves]. rewrite addLoop_even by lia.
  rewrite Z.mod_small by (unfold two64; lia). rewrite addLoop_odd by lia.
  symmetry. apply (addLoop_fuel 63); [|lia]. split; [lia|].
  eapply Z.lt_trans; [apply Hn|]. by apply Z.pow_lt_mono_r.
Qed.

Lemma stackOf_even l :
  Nat.even (length l) = true → Z.of_nat (length l) < 2 ^ 62 → roots (stackOf l) = roots (stackOf (row l)).
Proof.
  remember (length l) as n eqn:En. revert l En. induction (lt_wf n) as [n _ IH]. intros l -> He Hl.
  destruct (decide (l = [])) as [->|Hne]; [done|].
  destruct l as [|y l _] using rev_ind; [done|]. destruct l as [|x l _] using rev_ind; [done|].
  rewrite !length_app in He, Hl. simpl length in He, Hl.
  replace (length l + 1 + 1)%nat with (S (S (length l))) in He by lia. simpl in He.
  rewrite <- app_assoc. simpl app. rewrite row_app2, stackOf_snoc by done.
  replace (l ++ [x; y]) with ((l ++ [x]) ++ [y]) by by rewrite <- app_assoc.
  rewrite !stackOf_snoc.
  assert (IHl : roots (stackOf l) = roots (stackOf (row l))).
  { eapply IH; [|done..|lia]. rewrite !length_app. simpl. lia. }
  apply Nat.even_spec in He as [k Ek].
  assert (length (row l) = k) as Er.
  { rewrite row_length, Ek. replace (2 * k + 1)%nat with (1 + k * 2)%nat by lia. by rewrite Nat.div_add by lia. }
  pose proof (stackOf_leaves l) as E1. pose proof (stackOf_leaves (row l)) as E2.
  rewrite Er in E2. rewrite Ek in E1, Hl. unfold two64 in *. specialize (E1 ltac:(lia)). specialize (E2 ltac:(lia)).
  destruct (stackOf l) as [rs n], (stackOf (row l)) as [rs' n']. cbn [roots numLeaves] in IHl, E1, E2. subst rs n n'.
  replace (Z.of_nat (2 * k)) with (2 * Z.of_nat k) by lia. apply add_pair. lia.
Qed.
(** ** Folding the rest of the stack *)

Lemma row_small l : (2 ≤ length l)%nat → (1 ≤ length (row l) < length l)%nat.
Proof.
  intros Hl. rewrite row_length. split; [apply Nat.div_le_lower_bound; lia|].
  apply Nat.div_lt_upper_bound; lia.
Qed.

Lemma rootOf_fuel f f' l : (length l ≤ f)%nat → (length l ≤ f')%nat → rootOf f l = rootOf f' l.
Proof.
  revert f' l; induction f as [|f IH]; intros f' l Hf Hf'.
  { destruct l; [by destruct f'|simpl in *; lia]. }
  destruct l as [|x [|y l]]; [by destruct f'|by destruct f'|].
  destruct f' as [|f']; [simpl in *; lia|]. cbn [rootOf].
  pose proof (row_small (x :: y :: l)). cbn [length] in *. apply IH; lia.
Qed.

Lemma merkleRoot_row l : (2 ≤ length l)%nat → merkleRoot (row l) = merkleRoot l.
Proof.
  intros Hl. unfold merkleRoot. destruct l as [|x [|y l]]; cbn [length] in Hl; [lia..|].
  pose proof (row_small (x :: y :: l)). cbn [length] in *.
  change (rootOf (S (S (length l))) (x :: y :: l)) with (rootOf (S (length l)) (row (x :: y :: l))).
  apply rootOf_fuel; [done|lia].
Qed.

(** Hashing an odd row with its last entry doubled gives the same root. *)
Lemma merkleRoot_double l x :
  Nat.even (length l) = true → l ≠ [] → merkleRoot ((l ++ [x]) ++ [x]) = merkleRoot (l ++ [x]).
Proof.
  intros He Hne. assert (1 ≤ length l)%nat by (destruct l; simpl; [done|lia]).
  rewrite <- (merkleRoot_row (l ++ [x])), <- (merkleRoot_row ((l ++ [x]) ++ [x]))
    by (rewrite !length_app; simpl; lia).
  rewrite (row_odd l x), <- app_assoc by done. simpl app. by rewrite row_app2.
Qed.

Lemma roots_odd l x :
  Nat.even (length l) = true → Z.of_nat (length l) < 2 ^ 62 →
  roots (stackOf (l ++ [x])) = x :: roots (stackOf l).
Proof.
  intros [k Ek]%Nat.even_spec Hl. rewrite stackOf_snoc. unfold add. cbn [roots].
  rewrite stackOf_leaves, Ek by (unfold two64; lia).
  replace (Z.of_nat (2 * k)) with (2 * Z.of_nat k) by lia. apply addLoop_even. lia.
Qed.

Lemma even_split (l : list bytes) : Nat.even (length l) = false → ∃ l' x, l = l' ++ [x] ∧ Nat.even (length l') = true.
Proof.
  intros E. destruct l as [|x l _] using rev_ind; [done|]. exists l, x. split; [done|].
  rewrite length_app, Nat.add_1_r in E. rewrite Nat.even_succ, <- Nat.negb_even in E.
  by apply negb_false_iff in E.
Qed.

Lemma even_two (l : list bytes) : l ≠ [] → Nat.even (length l) = true → (2 ≤ length l)%nat.
Proof. intros Hne He. destruct l as [|? [|]]; [done..|simpl; lia]. Qed.

Lemma roots_nonempty l : l ≠ [] → Z.of_nat (length l) < 2 ^ 62 → roots (stackOf l) ≠ [].
Proof.
  remember (length l) as n eqn:En. revert l En. induction (lt_wf n) as [n _ IH]. intros l -> Hne Hl.
  destruct (Nat.even (length l)) eqn:He.
  - pose proof (row_small l (even_two l Hne He)). rewrite stackOf_even by done.
    eapply IH; [|done| |lia]; [lia|]. intros E. rewrite E in *. cbn [length] in *. lia.
  - destruct (even_split l He) as (l'&x&->&He'). rewrite length_app in Hl. rewrite roots_odd by (done || lia). done.
Qed.

(** A stack of one root holds the root of the tree. *)
Lemma single_root l r :
  Z.of_nat (length l) < 2 ^ 62 → roots (stackOf l) = [r] → merkleRoot l = r.
Proof.
  remember (length l) as n eqn:En. revert l En. induction (lt_wf n) as [n _ IH]. intros l -> Hl Hr.
  destruct (Nat.even (length l)) eqn:He.
  - destruct (decide (l = [])) as [->|Hne]; [done|].
    pose proof (row_small l (even_two l Hne He)). rewrite <- merkleRoot_row by by apply even_two.
    rewrite stackOf_even in Hr by done. eapply IH; [|done|lia|done]. lia.
  - destruct (even_split l He) as (l'&x&->&He'). rewrite length_app in Hl.
    rewrite roots_odd in Hr by (done || lia). injection Hr as -> Hr.
    destruct (decide (l' = [])) as [->|Hne]; [done|].
    destruct (roots_nonempty l' Hne); [lia|done].
Qed.

(** Moving up to an odd row keeps the stack and the root. *)
Lemma shiftRows_spec fuel l :
  l ≠ [] → Z.of_nat (length l) < 2 ^ 62 → Z.of_nat (length l) < 2 ^ Z.of_nat fuel →
  ∃ l', shiftRows fuel (Z.of_nat (length l)) = Z.of_nat (length l') ∧ Nat.even (length l') = false ∧
    roots (stackOf l') = roots (stackOf l) ∧ merkleRoot l' = merkleRoot l ∧
    (Nat.even (length l) = true → (2 * length l' ≤ length l)%nat) ∧ (length l' ≤ length l)%nat.
Proof.
  revert l; induction fuel as [|f IH]; intros l Hne Hl Hf.
  { assert (1 ≤ length l)%nat by (destruct l; simpl; [done|lia]). simpl in Hf. lia. }
  cbn [shiftRows]. rewrite odd_land. destruct (Nat.even (length l)) eqn:He.
  - pose proof (even_two l Hne He) as H2. pose proof (row_small l H2) as Hrow.
    pose proof He as [k Ek]%Nat.even_spec.
    assert (Er : length (row l) = k).
    { rewrite row_length, Ek. replace (2 * k + 1)%nat with (1 + k * 2)%nat by lia. by rewrite Nat.div_add by lia. }
    rewrite Ek. replace (Z.of_nat (2 * k)) with (Z.of_nat k * 2) by lia.
    rewrite Z.mod_mul, Z.shiftr_div_pow2 by lia. change (2 ^ 1) with 2. rewrite Z.div_mul by lia.
    cbn [Z.eqb]. rewrite Nat2Z.inj_succ, Z.pow_succ_r in Hf by lia.
    destruct (IH (row l)) as (l'&Es&Ho&Hs&Hm&_&Hle); [|lia..|].
    { intros E. rewrite E in Er. simpl in Er. lia. }
    rewrite Er in Es. exists l'. split_and!; [done|done| | |lia|lia].
    + rewrite Hs. symmetry. by apply stackOf_even.
    + by rewrite Hm, merkleRoot_row.
  - exists l. destruct (even_split l He) as (l'&x&->&[k Ek]%Nat.even_spec).
    rewrite length_app, Ek in *. cbn [length] in *. replace (Z.of_nat (2 * k + 1)) with (1 + Z.of_nat k * 2) by lia.
    rewrite Z.mod_add by lia. split_and!; done.
Qed.

Lemma store_eq s l :
  roots s = roots (stackOf l) → numLeaves s = Z.of_nat (length l) → Z.of_nat (length l) < 2 ^ 62 → s = stackOf l.
Proof.
  intros Hr Hn Hl. rewrite <- (stackOf_leaves l) in Hn by (unfold two64; lia).
  destruct s, (stackOf l). cbn [roots numLeaves] in *. congruence.
Qed.

Lemma foldRoots_spec fuel l :
  l ≠ [] → Nat.even (length l) = true → Z.of_nat (length l) < 2 ^ 60 →
  Z.of_nat (length l) - 2 < 2 ^ Z.of_nat fuel →
  last (roots (foldRoots fuel (stackOf l))) = Some (merkleRoot l).
Proof.
  revert l; induction fuel as [|f IH]; intros l Hne He Hl Hf.
  { pose proof (even_two l Hne He). destruct l as [|a [|b [|]]]; [done|done| |cbn [length] in *; simpl in Hf; lia].
    cbn [foldRoots]. rewrite stackOf_even by done. done. }
  pose proof (roots_nonempty l Hne ltac:(lia)) as Hr. cbn [foldRoots].
  destruct (roots (stackOf l)) as [|h [|h' rs]] eqn:Er; [done| |].
  { rewrite Er. by rewrite (single_root l h) by (done || lia). }
  rewrite stackOf_leaves by (unfold two64; lia).
  destruct (shiftRows_spec 64 l) as (l'&->&Ho&Hs&Hm&Hhalf&_); [done|lia|lia|]. specialize (Hhalf He).
  destruct (even_split l' Ho) as (l0&x&->&He0). rewrite length_app in *. cbn [length] in *.
  rewrite roots_odd, Er in Hs by (done || lia). injection Hs as -> Hs.
  assert (Hne0 : l0 ≠ []) by by intros ->.
  rewrite (store_eq (mkStore _ _) (l0 ++ [h])), <- stackOf_snoc; [|by rewrite roots_odd, Hs by (done || lia)|..];
    [|by rewrite length_app|rewrite length_app; cbn [length]; lia].
  rewrite IH, merkleRoot_double, Hm; [done..| | | |]; rewrite ?length_app; cbn [length].
  - by destruct l0.
  - replace (length l0 + 1 + 1)%nat with (S (S (length l0))) by lia. done.
  - lia.
  - rewrite Nat2Z.inj_succ, Z.pow_succ_r in Hf by lia. lia.
Qed.

(** C30. [CalcMerkleRoot], which keeps only the roots of the finished
    subtrees, returns the Merkle root of the block's transaction identifiers,
    or of their witness identifiers: rows hashed in pairs, the last of an odd
    row with itself, up to one hash. *)
Theorem CalcMerkleRoot_spec txs witness :
  txs ≠ [] → Z.of_nat (length txs) < 2 ^ 59 →
  CalcMerkleRoot txs witness = merkleRoot (imap (leafHash witness) txs).
Proof.
  intros Hne Hl. unfold CalcMerkleRoot.
  assert (Hne' : imap (leafHash witness) txs ≠ []) by by destruct txs.
  rewrite <- (length_imap (leafHash witness) txs) in Hl. revert Hne' Hl.
  generalize (imap (leafHash witness) txs). clear txs Hne.
  intros l Hne Hl. unfold calcMerkleRoot. fold (stackOf l). rewrite stackOf_leaves by (unfold two64; lia).
  destruct (Z.eqb_spec (Z.of_nat (length l)) 1) as [E|E].
  { destruct l as [|x [|]]; [done| |cbn [length] in E; lia]. done. }
  destruct (Nat.even (length l)) eqn:He.
  - assert (match last l with Some h => if negb true then add (stackOf l) h else stackOf l | None => stackOf l end
            = stackOf l) as -> by by destruct (last l).
    rewrite foldRoots_spec by (done || lia). done.
  - destruct (even_split l He) as (l'&x&->&He'). rewrite last_snoc. cbn [negb]. rewrite <- stackOf_snoc.
    rewrite length_app in *. cbn [length] in *.
    rewrite foldRoots_spec, merkleRoot_double; [done|done|by intros ->|by destruct l'|..];
      rewrite !length_app; cbn [length]; [|lia..].
    replace (length l' + 1 + 1)%nat with (S (S (length l'))) by lia. done.
Qed.
End merkle.

Module Samples.

#[local] Instance sumCrypto : Crypto := {|
  sha256 := fun l => le_bytes 32 (foldl (fun a b => a * 257 + b + 1) 7 l);
  ripemd160 := fun l => le_bytes 20 (foldl (fun a b => a * 263 + b + 1) 7 l) |}.

Definition threeTxs : list MsgTx := [sampleTx; NewMsgTx 1; sampleTx].

Lemma CalcMerkleRoot_witness :
  CalcMerkleRoot threeTxs false =
  HashMerkleBranches (HashMerkleBranches (TxHash sampleTx) (TxHash (NewMsgTx 1)))
                     (HashMerkleBranches (TxHash sampleTx) (TxHash sampleTx)).
Proof. rewrite (CalcMerkleRoot_spec threeTxs false); [reflexivity|discriminate|reflexivity]. Defined.
End Samples.
