(* ===== verification/Versionbits.v ===== *)
(** * Rule change deployments

    [btcd/blockchain]: thresholdstate.go and versionbits.go, with the median
    time starters and enders of [chaincfg].  A deployment's state changes only
    at the end of a confirmation window; [thresholdState] computes it from the
    most recent window whose state is cached and caches what it computes.

    The reference is [windowState], which follows parent pointers from window
    to window and has no cache.  The theorems show that the cached computation
    answers the reference, for the deployments and for the warnings about
    unknown bits, and that growing the block tree keeps the caches right. *)

From Stdlib Require Import ZArith List Lia.
From stdpp Require Import base list gmap strings.
From S2P Require Import Prelude.
From S2P Require Import Wire.
From S2P Require Import Chain.

Open Scope Z_scope.

(** ** Deployments *)

Inductive ThresholdState :=
  ThresholdDefined | ThresholdStarted | ThresholdLockedIn | ThresholdActive | ThresholdFailed.

#[export] Instance ThresholdState_eq_dec : EqDecision ThresholdState.
Proof. solve_decision. Defined.

(** The zero time, [None], starts a deployment at once and never ends it. *)
Record ConsensusDeployment := mkDeployment {
  BitNumber : Z;
  MinActivationHeight : Z;
  CustomActivationThreshold : Z;
  AlwaysActiveHeight : Z;
  startTime : option Z;
  endTime : option Z }.

Definition EffectiveAlwaysActiveHeight (d : ConsensusDeployment) : Z :=
  if AlwaysActiveHeight d =? 0 then 4294967295 else AlwaysActiveHeight d.

Inductive Deployment :=
  DeploymentTestDummy | DeploymentTestDummyMinActivation | DeploymentCSV | DeploymentSegwit
| DeploymentTaproot | DeploymentTestDummyAlwaysActive.

Definition deploymentID (d : Deployment) : nat :=
  match d with
  | DeploymentTestDummy => 0 | DeploymentTestDummyMinActivation => 1 | DeploymentCSV => 2
  | DeploymentSegwit => 3 | DeploymentTaproot => 4 | DeploymentTestDummyAlwaysActive => 5
  end.

Record DeploymentParams := mkDeployments {
  p_RuleChangeActivationThreshold : Z;
  p_MinerConfirmationWindow : Z;
  p_Deployments : list ConsensusDeployment }.

(** 9999-12-31, as Unix time. *)
Definition never : Z := 253402214400.

Definition neverStartedDeployment (bit : Z) : ConsensusDeployment :=
  mkDeployment bit 0 0 0 (Some never) None.

(** The deployments of [newDogecoinVMParams]. *)
Definition dogecoinVMDeployments : DeploymentParams :=
  mkDeployments 75 100
    [ mkDeployment 28 0 0 0 None None;
      mkDeployment 22 600 50 0 None None;
      mkDeployment 0 0 0 0 None None;
      neverStartedDeployment 1;
      neverStartedDeployment 2;
      mkDeployment 29 0 0 1 None None ].

(** ** Caches *)

Notation stateCache := (gmap bytes ThresholdState).

Record vbCaches := mkCaches {
  deploymentCaches : list stateCache;
  warningCaches : list stateCache;
  unknownRulesWarned : bool }.

Definition vbNumBits : nat := 29.

Definition newThresholdCaches (numCaches : nat) : list stateCache := replicate numCaches ∅.

(** A pointer into one of the two slices. *)
Inductive cacheRef := deploymentCache (id : nat) | warningCache (bit : nat).

Definition cacheAt (r : cacheRef) (s : vbCaches) : stateCache :=
  match r with
  | deploymentCache i => default ∅ (deploymentCaches s !! i)
  | warningCache i => default ∅ (warningCaches s !! i)
  end.

Definition Lookup (r : cacheRef) (hash : bytes) (s : vbCaches) : option ThresholdState := cacheAt r s !! hash.

Definition Update (r : cacheRef) (hash : bytes) (st : ThresholdState) : St vbCaches unit := fun s =>
  (Ok tt,
   match r with
   | deploymentCache i => mkCaches (alter <[hash := st]> i (deploymentCaches s)) (warningCaches s) (unknownRulesWarned s)
   | warningCache i => mkCaches (deploymentCaches s) (alter <[hash := st]> i (warningCaches s)) (unknownRulesWarned s)
   end).

(** ** The threshold state *)

(** The interface of a rule change. *)
Record thresholdConditionChecker := mkChecker {
  HasStarted : ptr → bool;
  HasEnded : ptr → bool;
  RuleChangeActivationThreshold : Z;
  MinerConfirmationWindow : Z;
  EligibleToActivate : ptr → bool;
  IsSpeedy : bool;
  Condition : ptr → St vbCaches bool;
  ForceActive : option ptr → bool }.

Definition nilNode : error := goPanic "nil pointer dereference".

(** The votes of a window, from its last block back. *)
Fixpoint countVotes (n : nat) (H : heap) (c : thresholdConditionChecker) (countNode : option ptr) (count : Z) :
    St vbCaches Z :=
  match n with
  | O => mret count
  | S n =>
      match countNode with
      | None => st_lift (Err nilNode)
      | Some q =>
          nd ← st_lift (from_option_err (H !! q) nilNode);
          condition ← Condition c q;
          countVotes n H c (bn_parent nd) (if (condition : bool) then count + 1 else count)
      end
  end.

Definition thresholdStateTransition (H : heap) (state : ThresholdState) (prevNode : ptr)
    (c : thresholdConditionChecker) (confirmationWindow : Z) : St vbCaches ThresholdState :=
  match state with
  | ThresholdDefined =>
      if negb (IsSpeedy c) && HasEnded c prevNode then mret ThresholdFailed
      else if HasStarted c prevNode then mret ThresholdStarted
      else mret ThresholdDefined
  | ThresholdStarted =>
      if negb (IsSpeedy c) && HasEnded c prevNode then mret ThresholdFailed
      else
        count ← countVotes (Z.to_nat confirmationWindow) H c (Some prevNode) 0;
        if RuleChangeActivationThreshold c <=? count then mret ThresholdLockedIn
        else if IsSpeedy c && HasEnded c prevNode then mret ThresholdFailed
        else mret ThresholdStarted
  | ThresholdLockedIn => mret (if EligibleToActivate c prevNode then ThresholdActive else ThresholdLockedIn)
  | ThresholdActive => mret ThresholdActive
  | ThresholdFailed => mret ThresholdFailed
  end.

(** The windows back to one that is cached or has not started: those to
    compute, oldest first, and where the walk ended. *)
Fixpoint neededLoop (fuel : nat) (H : heap) (c : thresholdConditionChecker) (r : cacheRef) (window : Z)
    (prevNode : option ptr) (needed : list ptr) : St vbCaches (list ptr * option ptr) :=
  match fuel, prevNode with
  | O, _ | _, None => mret (needed, None)
  | S f, Some q =>
      nd ← st_lift (from_option_err (H !! q) nilNode);
      s ← st_get;
      if bool_decide (is_Some (Lookup r (bn_hash nd) s)) then mret (needed, Some q)
      else if negb (HasStarted c q) then Update r (bn_hash nd) ThresholdDefined;; mret (needed, Some q)
      else neededLoop f H c r window (RelativeAncestor H q window) (q :: needed)
  end.

Fixpoint computeLoop (H : heap) (c : thresholdConditionChecker) (r : cacheRef) (window : Z)
    (needed : list ptr) (state : ThresholdState) : St vbCaches ThresholdState :=
  match needed with
  | [] => mret state
  | q :: needed =>
      nd ← st_lift (from_option_err (H !! q) nilNode);
      state ← thresholdStateTransition H state q c window;
      Update r (bn_hash nd) state;;
      computeLoop H c r window needed state
  end.

Definition thresholdState (H : heap) (prevNode : option ptr) (c : thresholdConditionChecker) (r : cacheRef) :
    St vbCaches ThresholdState :=
  if ForceActive c prevNode then mret ThresholdActive
  else
    let confirmationWindow := int32_wrap (MinerConfirmationWindow c) in
    match prevNode with
    | None => mret ThresholdDefined
    | Some q =>
        nd ← st_lift (from_option_err (H !! q) nilNode);
        let next := int32_wrap (bn_height nd + 1) in
        if next <? confirmationWindow then mret ThresholdDefined
        else
          '(needed, last) ← neededLoop (S (Z.to_nat (bn_height nd))) H c r confirmationWindow
            (Ancestor H q (bn_height nd - Z.rem next confirmationWindow)) [];
          state ← match last with
                  | None => mret ThresholdDefined
                  | Some a =>
                      ad ← st_lift (from_option_err (H !! a) nilNode);
                      s ← st_get;
                      st_lift (from_option_err (Lookup r (bn_hash ad) s)
                                 (Errorf "thresholdState: cache lookup failed"))
                  end;
          computeLoop H c r confirmationWindow needed state
    end.

(** ** The two checkers *)

(** [PastMedianTime] looks the header's parent up in the block index, which
    fails for the genesis block alone; the callers take false then. *)
Definition PastMedianTime (H : heap) (q : ptr) : option Z :=
  nd ← H !! q; _ ← bn_parent nd; CalcPastMedianTime H q.

Definition starter_HasStarted (H : heap) (start : option Z) (q : ptr) : bool :=
  match start with
  | None => true
  | Some t => match PastMedianTime H q with Some m => t <=? m | None => false end
  end.

Definition ender_HasEnded (H : heap) (end_ : option Z) (q : ptr) : bool :=
  match end_ with
  | None => false
  | Some t => match PastMedianTime H q with Some m => t <=? m | None => false end
  end.

Definition vbTopBits : Z := 536870912.
Definition vbTopMask : Z := 3758096384.

Definition usesBits (version : Z) : bool := Z.land version vbTopMask =? vbTopBits.

Definition voteFor (H : heap) (bit : Z) (q : ptr) : bool :=
  match H !! q with
  | None => false
  | Some nd =>
      let version := bn_version nd mod two32 in
      usesBits version && negb (Z.land version (Z.shiftl 1 bit mod two32) =? 0)
  end.

Definition nextHeight (H : heap) (q : ptr) : Z :=
  match H !! q with None => 0 | Some nd => (bn_height nd mod two32 + 1) mod two32 end.

Definition deploymentChecker (H : heap) (p : DeploymentParams) (d : ConsensusDeployment) : thresholdConditionChecker :=
  mkChecker
    (starter_HasStarted H (startTime d))
    (ender_HasEnded H (endTime d))
    (if CustomActivationThreshold d =? 0 then p_RuleChangeActivationThreshold p else CustomActivationThreshold d)
    (p_MinerConfirmationWindow p)
    (fun q => (MinActivationHeight d =? 0) || (MinActivationHeight d <=? nextHeight H q))
    (negb (MinActivationHeight d =? 0) || negb (CustomActivationThreshold d =? 0))
    (fun q => mret (voteFor H (BitNumber d) q))
    (fun node => match node with None => false | Some q => EffectiveAlwaysActiveHeight d <=? nextHeight H q end).

(** The bits of the deployments that are voted on or locked in. *)
Fixpoint versionLoop (H : heap) (p : DeploymentParams) (prevNode : option ptr) (id : nat)
    (l : list ConsensusDeployment) (version : Z) : St vbCaches Z :=
  match l with
  | [] => mret version
  | d :: l =>
      state ← thresholdState H prevNode (deploymentChecker H p d) (deploymentCache id);
      versionLoop H p prevNode (S id) l
        (if bool_decide (state = ThresholdStarted ∨ state = ThresholdLockedIn)
         then Z.lor version (Z.shiftl 1 (BitNumber d) mod two32) else version)
  end.

Definition calcNextBlockVersion (H : heap) (p : DeploymentParams) (prevNode : option ptr) : St vbCaches Z :=
  version ← versionLoop H p prevNode 0 (p_Deployments p) vbTopBits;
  mret (int32_wrap version).

Definition bitCondition (H : heap) (p : DeploymentParams) (bit : nat) (q : ptr) : St vbCaches bool :=
  nd ← st_lift (from_option_err (H !! q) nilNode);
  if voteFor H (Z.of_nat bit) q then
    expectedVersion ← calcNextBlockVersion H p (bn_parent nd);
    mret (Z.land (expectedVersion mod two32) (Z.shiftl 1 (Z.of_nat bit) mod two32) =? 0)
  else mret false.

Definition bitConditionChecker (H : heap) (p : DeploymentParams) (bit : nat) : thresholdConditionChecker :=
  mkChecker (fun _ => true) (fun _ => false) (p_RuleChangeActivationThreshold p) (p_MinerConfirmationWindow p)
    (fun _ => true) false (bitCondition H p bit) (fun _ => false).

Definition deploymentState (H : heap) (p : DeploymentParams) (prevNode : option ptr) (id : nat) :
    St vbCaches ThresholdState :=
  match p_Deployments p !! id with
  | None => st_lift (Err (if (length (p_Deployments p) <? id)%nat then Errorf "deployment ID does not exist"
                          else goPanic "index out of range"))
  | Some d => thresholdState H prevNode (deploymentChecker H p d) (deploymentCache id)
  end.

(** The warnings are logged; [unknownRulesWarned] keeps the first of each run. *)
Fixpoint warnLoop (H : heap) (p : DeploymentParams) (parent : option ptr) (bits : list nat) : St vbCaches unit :=
  match bits with
  | [] => mret tt
  | bit :: bits =>
      state ← thresholdState H parent (bitConditionChecker H p bit) (warningCache bit);
      (match state with
       | ThresholdActive => fun s => (Ok tt, mkCaches (deploymentCaches s) (warningCaches s) true)
       | _ => mret tt
       end);;
      warnLoop H p parent bits
  end.

Definition warnUnknownRuleActivations (H : heap) (p : DeploymentParams) (nd : blockNode) : St vbCaches unit :=
  warnLoop H p (bn_parent nd) (seq 0 vbNumBits).

(** [current] is whether the tip is less than a day old. *)
Fixpoint initLoop (H : heap) (prevNode : option ptr) (l : list (thresholdConditionChecker * cacheRef)) :
    St vbCaches unit :=
  match l with
  | [] => mret tt
  | (c, r) :: l => thresholdState H prevNode c r;; initLoop H prevNode l
  end.

Definition initThresholdCaches (H : heap) (p : DeploymentParams) (tip : blockNode) (current : bool) :
    St vbCaches unit :=
  initLoop H (bn_parent tip)
    (((fun bit => (bitConditionChecker H p bit, warningCache bit)) <$> seq 0 vbNumBits) ++
     imap (fun id d => (deploymentChecker H p d, deploymentCache id)) (p_Deployments p));;
  if current then warnUnknownRuleActivations H p tip else mret tt.

(** ** The reference *)

Section reference.
Context (H : heap) (c : thresholdConditionChecker) (cond : ptr → bool).

Fixpoint votesOf (n : nat) (q : ptr) : Z :=
  match n with
  | O => 0
  | S n => (if cond q then 1 else 0) + match H !! q ≫= bn_parent with Some q' => votesOf n q' | None => 0 end
  end.

Notation window := (MinerConfirmationWindow c).

(** The step of BIP 9 at the last block [q] of a window. *)
Definition nextState (st : ThresholdState) (q : ptr) : ThresholdState :=
  let expired := HasEnded c q in
  match st with
  | ThresholdDefined =>
      if negb (IsSpeedy c) && expired then ThresholdFailed
      else if HasStarted c q then ThresholdStarted else ThresholdDefined
  | ThresholdStarted =>
      if negb (IsSpeedy c) && expired then ThresholdFailed
      else if RuleChangeActivationThreshold c <=? votesOf (Z.to_nat window) q then ThresholdLockedIn
      else if IsSpeedy c && expired then ThresholdFailed else ThresholdStarted
  | ThresholdLockedIn => if EligibleToActivate c q then ThresholdActive else ThresholdLockedIn
  | ThresholdActive => ThresholdActive
  | ThresholdFailed => ThresholdFailed
  end.

(** The state after the [n]-th window, whose last block is [q]. *)
Fixpoint windowState (n : nat) (q : ptr) : ThresholdState :=
  match n with
  | O => ThresholdDefined
  | S n =>
      if HasStarted c q then
        nextState (match walk (Z.to_nat window) H q with
                   | Some q' => windowState n q'
                   | None => ThresholdDefined
                   end) q
      else ThresholdDefined
  end.

Definition endState (q : ptr) : ThresholdState :=
  match H !! q with
  | None => ThresholdDefined
  | Some nd => windowState (Z.to_nat ((bn_height nd + 1) / window)) q
  end.

(** The state of the block after [prevNode]: that of the last full window. *)
Definition stateAfter (prevNode : option ptr) : ThresholdState :=
  if ForceActive c prevNode then ThresholdActive
  else match prevNode with
       | None => ThresholdDefined
       | Some q =>
           match H !! q with
           | None => ThresholdDefined
           | Some nd =>
               if bn_height nd + 1 <? window then ThresholdDefined
               else match walk (Z.to_nat ((bn_height nd + 1) mod window)) H q with
                    | Some e => endState e
                    | None => ThresholdDefined
                    end
           end
       end.

End reference.

(** ** The cached computation answers the reference *)

Section cached.
Context (H : heap) (WF : tree_ok H) (c : thresholdConditionChecker) (cond : ptr → bool) (r : cacheRef).
Context (I : vbCaches → Prop).

Notation window := (MinerConfirmationWindow c).
Notation endState := (endState H c cond).
Notation nextState := (nextState H c cond).

(** What the computation relies on: the votes are those of [cond], the cache
    holds the reference's states, and a state that is written can be read. *)
Context (Hwindow : 0 < window < 2147483648).
Context (Hcond : ∀ q s, is_Some (H !! q) → I s → ∃ s', Condition c q s = (Ok (cond q), s') ∧ I s').
Context (Hget : ∀ q nd s st, I s → H !! q = Some nd → Lookup r (bn_hash nd) s = Some st → st = endState q).
Context (Hput : ∀ q nd s, I s → H !! q = Some nd →
  ∃ s', Update r (bn_hash nd) (endState q) s = (Ok tt, s') ∧ I s' ∧ Lookup r (bn_hash nd) s' = Some (endState q)).

Lemma countVotes_spec n q nd k s :
  I s → H !! q = Some nd → Z.of_nat n ≤ bn_height nd + 1 →
  ∃ s', countVotes n H c (Some q) k s = (Ok (k + votesOf H cond n q), s') ∧ I s'.
Proof.
  revert q nd k s; induction n as [|n IH]; intros q nd k s HI Hq Hn.
  { exists s. split; [|done]. simpl. by rewrite Z.add_0_r. }
  cbn [countVotes]. rewrite Hq. cbn [from_option_err]. rewrite st_lift_bind, st_bind_run.
  destruct (Hcond q s) as (s1&->&HI1); [by eexists|done|]. cbn [votesOf]. rewrite Hq. cbn [mbind option_bind].
  destruct (bn_parent nd) as [q'|] eqn:Ep.
  - destruct (nk_parent _ _ _ (tree_node H WF _ _ Hq) q' Ep) as (qd&Hq'&Eh&_).
    destruct (IH q' qd (if cond q then k + 1 else k) s1 HI1 Hq') as (s2&->&HI2); [lia|].
    exists s2. split; [|done]. destruct (cond q); do 2 f_equal; lia.
  - destruct (nk_root _ _ _ (tree_node H WF _ _ Hq) Ep) as [Eh _]. assert (n = O) as -> by lia.
    exists s1. split; [|done]. cbn [countVotes]. unfold mret, st_ret. destruct (cond q); do 2 f_equal; lia.
Qed.

Lemma transition_spec st q nd s :
  I s → H !! q = Some nd → window ≤ bn_height nd + 1 →
  ∃ s', thresholdStateTransition H st q c window s = (Ok (nextState st q), s') ∧ I s'.
Proof.
  intros HI Hq Hh. unfold thresholdStateTransition, Versionbits.nextState.
  destruct st; try by exists s.
  - destruct (negb _ && _); [by exists s|]. destruct (HasStarted c q); by exists s.
  - destruct (negb _ && _); [by exists s|]. rewrite st_bind_run.
    destruct (countVotes_spec (Z.to_nat window) q nd 0 s HI Hq) as (s1&->&HI1); [lia|]. rewrite Z.add_0_l.
    exists s1. split; [|done]. destruct (_ <=? _); [done|]. by destruct (_ && _).
Qed.

(** A list of windows, oldest first, takes one state to another. *)
Inductive computes : ThresholdState → list ptr → ThresholdState → Prop :=
| computes_nil st : computes st [] st
| computes_cons st q nd l st' :
    H !! q = Some nd → window ≤ bn_height nd + 1 → endState q = nextState st q →
    computes (endState q) l st' → computes st (q :: l) st'.

Lemma computes_snoc st l st' q nd :
  computes st l st' → H !! q = Some nd → window ≤ bn_height nd + 1 → endState q = nextState st' q →
  computes st (l ++ [q]) (endState q).
Proof. induction 1; intros; simpl; econstructor; eauto using computes. Qed.

Lemma computeLoop_spec l st st' s :
  computes st l st' → I s → ∃ s', computeLoop H c r window l st s = (Ok st', s') ∧ I s'.
Proof.
  intros Hl; revert s; induction Hl as [|st q nd l st' Hq Hh He _ IH]; intros s HI; [by exists s|].
  cbn [computeLoop]. rewrite Hq. cbn [from_option_err]. rewrite st_lift_bind, st_bind_run.
  destruct (transition_spec st q nd s HI Hq Hh) as (s1&->&HI1). rewrite <- He, st_bind_run.
  destruct (Hput q nd s1 HI1 Hq) as (s2&->&HI2&_). by apply IH.
Qed.

(** [q] ends the [k]-th window. *)
Definition ends (k : nat) (q : ptr) (nd : blockNode) : Prop :=
  H !! q = Some nd ∧ bn_height nd + 1 = Z.of_nat k * window ∧ (0 < k)%nat.

Lemma endState_ends k q nd : ends k q nd → endState q = windowState H c cond k q.
Proof.
  intros (Hq&E&_). unfold Versionbits.endState. rewrite Hq, E, Z.div_mul by lia. by rewrite Nat2Z.id.
Qed.

Lemma tree_small q nd : H !! q = Some nd → 0 ≤ bn_height nd < 2147483648.
Proof. intros Hq. apply (nk_height _ _ _ (tree_node H WF _ _ Hq)). Qed.

(** One window back. *)
Lemma ends_prev k q nd :
  ends k q nd →
  (k = 1%nat ∧ RelativeAncestor H q window = None ∧ walk (Z.to_nat window) H q = None) ∨
  ∃ q' nd', RelativeAncestor H q window = Some q' ∧ walk (Z.to_nat window) H q = Some q' ∧ ends (k - 1) q' nd'.
Proof.
  intros (Hq&E&Hk). pose proof (tree_small q nd Hq) as Hs. unfold RelativeAncestor. rewrite Hq. cbn [mbind option_bind].
  rewrite int32_wrap_small by lia. destruct (decide (k = 1)%nat) as [->|].
  - left. split_and!; [done|eapply Ancestor_outside; [done|lia]|].
    destruct (walk (Z.to_nat window) H q) as [a|] eqn:Ew; [|done].
    destruct (walk_Some H WF _ _ _ _ Hq Ew) as (ad&Ha&Eh). pose proof (tree_small a ad Ha). lia.
  - right. assert (window ≤ bn_height nd) by nia. rewrite (Ancestor_eq H WF q nd) by (done || lia).
    unfold steps_to. replace (Z.to_nat (bn_height nd - (bn_height nd - window))) with (Z.to_nat window) by lia.
    destruct (walk_total H WF (Z.to_nat window) q nd Hq) as (a&_&Ew&_); [lia|].
    destruct (walk_Some H WF _ _ _ _ Hq Ew) as (ad&Ha&Eh). exists a, ad.
    split_and!; [done..|]. split_and!; [done|nia|lia].
Qed.

Lemma neededLoop_spec fuel k q nd needed s :
  I s → ends k q nd → (k ≤ fuel)%nat →
  ∃ more last s' base, neededLoop fuel H c r window (Some q) needed s = (Ok (more ++ needed, last), s') ∧ I s' ∧
    computes base more (endState q) ∧
    match last with
    | None => base = ThresholdDefined
    | Some a => ∃ ad, H !! a = Some ad ∧ Lookup r (bn_hash ad) s' = Some base
    end.
Proof.
  revert k q nd needed s; induction fuel as [|f IH]; intros k q nd needed s HI Hq Hf.
  { destruct Hq as (_&_&?). lia. }
  pose proof Hq as (Hn&E&Hk). cbn [neededLoop]. rewrite Hn. cbn [from_option_err].
  rewrite st_lift_bind, st_get_bind.
  destruct (Lookup r (bn_hash nd) s) as [st|] eqn:El.
  { rewrite bool_decide_true by by eexists. rewrite (Hget q nd s st HI Hn El) in El.
    exists [], (Some q), s, (endState q). split_and!; [done..|constructor|]. by exists nd. }
  rewrite bool_decide_false by by intros []. pose proof (endState_ends k q nd Hq) as Ee.
  destruct k as [|k]; [lia|]. cbn [windowState] in Ee.
  destruct (HasStarted c q) eqn:Est; cbn [negb].
  - destruct (ends_prev _ _ _ Hq) as [(Ek&->&Ew)|(q'&nd'&->&Ew&Hq')]; rewrite Ew in Ee.
    + injection Ek as ->. exists [q], None, s, ThresholdDefined. split_and!; [by destruct f|done| |done].
      econstructor; [done|nia|done|constructor].
    + replace (S k - 1)%nat with k in Hq' by lia. rewrite <- (endState_ends k q' nd' Hq') in Ee.
      destruct (IH k q' nd' (q :: needed) s HI Hq') as (more&last&s'&base&->&HI'&Hc&Hl); [lia|].
      exists (more ++ [q]), last, s', base. split_and!; [by rewrite <- app_assoc|done| |done].
      eapply computes_snoc; [done..|nia|done].
  - rewrite <- Ee, st_bind_run. destruct (Hput q nd s HI Hn) as (s1&->&HI1&Hl1).
    exists [], (Some q), s1, (endState q). split_and!; [done..|constructor|]. by exists nd.
Qed.

Lemma thresholdState_spec prevNode s :
  I s → (∀ q, prevNode = Some q → ∃ nd, H !! q = Some nd ∧ bn_height nd < 2147483647) →
  ∃ s', thresholdState H prevNode c r s = (Ok (stateAfter H c cond prevNode), s') ∧ I s'.
Proof.
  intros HI Hprev. unfold thresholdState, stateAfter. destruct (ForceActive c prevNode); [by exists s|].
  destruct prevNode as [q|]; [|by exists s]. destruct (Hprev q eq_refl) as (nd&Hq&Hlt). rewrite Hq.
  cbn [from_option_err]. pose proof (tree_small q nd Hq). rewrite st_lift_bind. cbv zeta.
  rewrite !int32_wrap_small by lia. destruct (Z.ltb_spec (bn_height nd + 1) window) as [|Hge]; [by exists s|].
  pose proof (Z.mod_pos_bound (bn_height nd + 1) window ltac:(lia)) as Hm. rewrite Z.rem_mod_nonneg by lia.
  pose proof (Z.div_mod (bn_height nd + 1) window ltac:(lia)) as Hdm.
  assert (1 ≤ (bn_height nd + 1) / window) as Hk by (apply Z.div_le_lower_bound; lia).
  set (m := (bn_height nd + 1) mod window) in *. set (k := (bn_height nd + 1) / window) in *.
  assert (m ≤ bn_height nd) by nia.
  rewrite (Ancestor_eq H WF q nd) by (done || lia). unfold steps_to.
  replace (bn_height nd - (bn_height nd - m)) with m by lia.
  destruct (walk_total H WF (Z.to_nat m) q nd Hq) as (e&_&Ew&_); [lia|]. rewrite Ew.
  destruct (walk_Some H WF _ _ _ _ Hq Ew) as (ed&He&Eh).
  assert (ends (Z.to_nat k) e ed) as Hends by (split_and!; [done|nia|lia]).
  destruct (neededLoop_spec (S (Z.to_nat (bn_height nd))) (Z.to_nat k) e ed [] s HI Hends)
    as (more&last&s1&base&Erun&HI1&Hc&Hl); [nia|].
  rewrite st_bind_run, Erun, app_nil_r, st_bind_run. cbv beta iota.
  destruct last as [a|].
  - destruct Hl as (ad&Ha&El). rewrite Ha. cbn [from_option_err]. rewrite st_lift_bind, st_get_bind, El.
    cbn [from_option_err st_lift]. by apply computeLoop_spec.
  - subst base. by apply computeLoop_spec.
Qed.

End cached.

(** ** The caches of a chain *)

(** What [calcNextBlockVersion] and the bit checker answer. *)
Definition deploymentStateAfter (H : heap) (p : DeploymentParams) (d : ConsensusDeployment) (prevNode : option ptr) :
    ThresholdState :=
  stateAfter H (deploymentChecker H p d) (voteFor H (BitNumber d)) prevNode.

Definition versionAfter (H : heap) (p : DeploymentParams) (prevNode : option ptr) (l : list ConsensusDeployment)
    (version : Z) : Z :=
  foldl (fun version d =>
    if bool_decide (deploymentStateAfter H p d prevNode = ThresholdStarted ∨
                    deploymentStateAfter H p d prevNode = ThresholdLockedIn)
    then Z.lor version (Z.shiftl 1 (BitNumber d) mod two32) else version) version l.

Definition unknownVote (H : heap) (p : DeploymentParams) (bit : nat) (q : ptr) : bool :=
  voteFor H (Z.of_nat bit) q &&
  (Z.land (int32_wrap (versionAfter H p (H !! q ≫= bn_parent) (p_Deployments p) vbTopBits) mod two32)
     (Z.shiftl 1 (Z.of_nat bit) mod two32) =? 0).

Definition deploymentEnd (H : heap) (p : DeploymentParams) (d : ConsensusDeployment) : ptr → ThresholdState :=
  endState H (deploymentChecker H p d) (voteFor H (BitNumber d)).

Definition warningEnd (H : heap) (p : DeploymentParams) (bit : nat) : ptr → ThresholdState :=
  endState H (bitConditionChecker H p bit) (unknownVote H p bit).

(** Every cached state is the reference's, at a node of the tree. *)
Definition holds (H : heap) (r : cacheRef) (es : ptr → ThresholdState) (s : vbCaches) : Prop :=
  ∀ h st, Lookup r h s = Some st → ∃ q nd, H !! q = Some nd ∧ bn_hash nd = h ∧ st = es q.

Record coherent (H : heap) (p : DeploymentParams) (s : vbCaches) : Prop := {
  ch_deployments : length (deploymentCaches s) = length (p_Deployments p);
  ch_warnings : length (warningCaches s) = vbNumBits;
  ch_deployment id d : p_Deployments p !! id = Some d → holds H (deploymentCache id) (deploymentEnd H p d) s;
  ch_warning bit : (bit < vbNumBits)%nat → holds H (warningCache bit) (warningEnd H p bit) s }.

(** No two nodes have the same hash. *)
Definition distinct_hashes (H : heap) : Prop :=
  ∀ q q' nd nd', H !! q = Some nd → H !! q' = Some nd' → bn_hash nd = bn_hash nd' → q = q'.

Definition inRange (r : cacheRef) (s : vbCaches) : Prop :=
  match r with
  | deploymentCache i => (i < length (deploymentCaches s))%nat
  | warningCache i => (i < length (warningCaches s))%nat
  end.

#[export] Instance cacheRef_eq_dec : EqDecision cacheRef.
Proof. solve_decision. Defined.

Lemma Update_Lookup r h st s :
  inRange r s →
  ∃ s', Update r h st s = (Ok tt, s') ∧
    length (deploymentCaches s') = length (deploymentCaches s) ∧
    length (warningCaches s') = length (warningCaches s) ∧
    ∀ r' h', Lookup r' h' s' = if decide (r = r' ∧ h = h') then Some st else Lookup r' h' s.
Proof.
  intros Hr. unfold Update. eexists. split; [done|]. destruct r as [i|i]; simpl in Hr;
    cbn [deploymentCaches warningCaches]; rewrite length_alter;
    (split_and!; [done..|]); intros [j|j] h'; unfold Lookup, cacheAt; cbn [deploymentCaches warningCaches].
  1,4: destruct (decide (i = j)) as [<-|Hne];
    [rewrite list_lookup_alter_eq; destruct (lookup_lt_is_Some_2 _ _ Hr) as [m ->]; simpl;
     destruct (decide (h = h')) as [<-|]; [by rewrite lookup_insert_eq, decide_True|];
     rewrite lookup_insert_ne, decide_False by (done || naive_solver); done
    |rewrite list_lookup_alter_ne, decide_False by (done || naive_solver); done].
  all: rewrite decide_False by naive_solver; done.
Qed.

(** Nothing is cached in new caches. *)
Lemma coherent_blank H p :
  coherent H p (mkCaches (newThresholdCaches (length (p_Deployments p))) (newThresholdCaches vbNumBits) false).
Proof.
  assert (∀ n i, default ∅ (newThresholdCaches n !! i) = (∅ : stateCache)) as He.
  { intros n i. unfold newThresholdCaches. destruct (replicate n ∅ !! i) as [m|] eqn:E; [|done].
    by apply lookup_replicate in E as [-> _]. }
  split; [apply length_replicate..| |].
  - intros id d _ h st E. unfold Lookup, cacheAt in E. cbn [deploymentCaches] in E. by rewrite He, lookup_empty in E.
  - intros bit _ h st E. unfold Lookup, cacheAt in E. cbn [warningCaches] in E. by rewrite He, lookup_empty in E.
Qed.

Section caches.
Context (H : heap) (WF : tree_ok H) (HD : distinct_hashes H) (p : DeploymentParams).
Context (Hwindow : 0 < p_MinerConfirmationWindow p < 2147483648).

Lemma holds_get r es s q nd st :
  holds H r es s → H !! q = Some nd → Lookup r (bn_hash nd) s = Some st → st = es q.
Proof.
  intros Hh Hq El. destruct (Hh _ _ El) as (q'&nd'&Hq'&E&->). by rewrite (HD q' q nd' nd Hq' Hq E).
Qed.

Lemma holds_put r es r' es' q nd s s' :
  holds H r es s → H !! q = Some nd → (r' = r → es' = es) →
  (∀ r0 h', Lookup r0 h' s' = if decide (r' = r0 ∧ bn_hash nd = h') then Some (es' q) else Lookup r0 h' s) →
  holds H r es s'.
Proof.
  intros Hh Hq He Hl h st. rewrite Hl. case_decide as Hd; [|apply Hh]. destruct Hd as [-> <-].
  intros [= <-]. exists q, nd. by rewrite He.
Qed.

(** Writing the reference's state of a node keeps the caches right. *)
Lemma coherent_put r es q nd s :
  coherent H p s → H !! q = Some nd → inRange r s →
  (∀ id d, r = deploymentCache id → p_Deployments p !! id = Some d → es = deploymentEnd H p d) →
  (∀ bit, r = warningCache bit → es = warningEnd H p bit) →
  ∃ s', Update r (bn_hash nd) (es q) s = (Ok tt, s') ∧ coherent H p s' ∧
    Lookup r (bn_hash nd) s' = Some (es q).
Proof.
  intros [Hd Hw Hdep Hwarn] Hq Hr Hes1 Hes2.
  destruct (Update_Lookup r (bn_hash nd) (es q) s Hr) as (s'&E&Hl1&Hl2&Hl). exists s'. split; [done|]. split.
  - split; [congruence..| |].
    + intros id d Hi. eapply holds_put; [by apply Hdep|done| |done]. intros ->. by apply (Hes1 id).
    + intros bit Hb. eapply holds_put; [by apply Hwarn|done| |done]. intros ->. by apply Hes2.
  - rewrite Hl. by rewrite decide_True.
Qed.

Lemma deployment_thresholdState id d prevNode s :
  coherent H p s → p_Deployments p !! id = Some d →
  (∀ q, prevNode = Some q → ∃ nd, H !! q = Some nd ∧ bn_height nd < 2147483647) →
  ∃ s', thresholdState H prevNode (deploymentChecker H p d) (deploymentCache id) s =
          (Ok (deploymentStateAfter H p d prevNode), s') ∧ coherent H p s'.
Proof.
  intros HC Hi Hprev. eapply (thresholdState_spec H WF (deploymentChecker H p d) _ _ (coherent H p)); try done.
  - intros q s0 _ HC0. by eexists.
  - intros q nd s0 st HC0. apply holds_get, (ch_deployment _ _ _ HC0 _ _ Hi).
  - intros q nd s0 HC0 Hq. apply (coherent_put _ (deploymentEnd H p d)); [done..| | |].
    + simpl. rewrite (ch_deployments _ _ _ HC0). by eapply lookup_lt_Some.
    + intros ? d' [= <-]. congruence.
    + done.
Qed.

Lemma versionLoop_spec l id prevNode version s :
  coherent H p s → (∀ i d, l !! i = Some d → p_Deployments p !! (id + i)%nat = Some d) →
  (∀ q, prevNode = Some q → ∃ nd, H !! q = Some nd ∧ bn_height nd < 2147483647) →
  ∃ s', versionLoop H p prevNode id l version s = (Ok (versionAfter H p prevNode l version), s') ∧ coherent H p s'.
Proof.
  revert id version s; induction l as [|d l IH]; intros id version s HC Hl Hprev; [by exists s|].
  cbn [versionLoop]. rewrite st_bind_run.
  destruct (deployment_thresholdState id d prevNode s HC) as (s1&->&HC1); [|done|].
  { rewrite <- (Nat.add_0_r id). by apply (Hl 0%nat). }
  apply IH; [done| |done]. intros i d' Hi. replace (S id + i)%nat with (id + S i)%nat by lia. by apply (Hl (S i)).
Qed.

Lemma calcNextBlockVersion_spec prevNode s :
  coherent H p s → (∀ q, prevNode = Some q → ∃ nd, H !! q = Some nd ∧ bn_height nd < 2147483647) →
  ∃ s', calcNextBlockVersion H p prevNode s =
          (Ok (int32_wrap (versionAfter H p prevNode (p_Deployments p) vbTopBits)), s') ∧ coherent H p s'.
Proof.
  intros HC Hprev. unfold calcNextBlockVersion. rewrite st_bind_run.
  destruct (versionLoop_spec (p_Deployments p) 0 prevNode vbTopBits s HC) as (s'&->&HC'); [done..|]. by exists s'.
Qed.

Lemma parent_low q nd : H !! q = Some nd → ∀ a, bn_parent nd = Some a → ∃ ad, H !! a = Some ad ∧ bn_height ad < 2147483647.
Proof.
  intros Hq a Ea. destruct (tree_node H WF _ _ Hq) as [Hh _ Hp]. destruct (Hp a Ea) as (ad&Ha&E&_).
  exists ad. split; [done|lia].
Qed.

Lemma warning_thresholdState bit prevNode s :
  coherent H p s → (bit < vbNumBits)%nat →
  (∀ q, prevNode = Some q → ∃ nd, H !! q = Some nd ∧ bn_height nd < 2147483647) →
  ∃ s', thresholdState H prevNode (bitConditionChecker H p bit) (warningCache bit) s =
          (Ok (stateAfter H (bitConditionChecker H p bit) (unknownVote H p bit) prevNode), s') ∧ coherent H p s'.
Proof.
  intros HC Hb Hprev. eapply (thresholdState_spec H WF (bitConditionChecker H p bit) _ _ (coherent H p)); try done.
  - intros q s0 [nd Hq] HC0. cbn [bitConditionChecker Condition]. unfold bitCondition, unknownVote.
    rewrite Hq. cbn [from_option_err]. rewrite st_lift_bind.
    destruct (voteFor _ _ q); [|by exists s0]. rewrite st_bind_run. cbn [mbind option_bind andb].
    destruct (calcNextBlockVersion_spec (bn_parent nd) s0 HC0 (parent_low q nd Hq)) as (s1&->&HC1). by exists s1.
  - intros q nd s0 st HC0. apply holds_get, (ch_warning _ _ _ HC0 _ Hb).
  - intros q nd s0 HC0 Hq. apply (coherent_put _ (warningEnd H p bit)); [done..| | |].
    + simpl. by rewrite (ch_warnings _ _ _ HC0).
    + done.
    + by intros ? [= <-].
Qed.

Lemma warnLoop_spec bits prevNode s :
  coherent H p s → Forall (fun bit => (bit < vbNumBits)%nat) bits →
  (∀ q, prevNode = Some q → ∃ nd, H !! q = Some nd ∧ bn_height nd < 2147483647) →
  ∃ s', warnLoop H p prevNode bits s = (Ok tt, s') ∧ coherent H p s'.
Proof.
  intros HC Hf Hprev. revert s HC; induction Hf as [|bit bits Hb _ IH]; intros s HC; [by exists s|].
  cbn [warnLoop]. rewrite st_bind_run.
  destruct (warning_thresholdState bit prevNode s HC Hb Hprev) as (s1&->&HC1). rewrite st_bind_run.
  destruct (stateAfter _ _ _ prevNode); try by apply IH.
  apply IH. by destruct HC1.
Qed.

(** At start the states are computed and cached. *)
Lemma initThresholdCaches_spec q nd current s :
  coherent H p s → H !! q = Some nd → ∃ s', initThresholdCaches H p nd current s = (Ok tt, s') ∧ coherent H p s'.
Proof.
  intros HC Hq. pose proof (parent_low q nd Hq) as Hlow.
  assert (∀ l s, coherent H p s →
    Forall (fun x => ∀ s, coherent H p s → ∃ st s', thresholdState H (bn_parent nd) x.1 x.2 s = (Ok st, s') ∧ coherent H p s') l →
    ∃ s', initLoop H (bn_parent nd) l s = (Ok tt, s') ∧ coherent H p s') as Hloop.
  { intros l s0 HC0 Hf. revert s0 HC0; induction Hf as [|[c r] l Hx _ IH]; intros s0 HC0; [by exists s0|].
    cbn [initLoop]. rewrite st_bind_run. destruct (Hx s0 HC0) as (st&s1&E&HC1). simpl in E. rewrite E. by apply IH. }
  unfold initThresholdCaches. rewrite st_bind_run.
  match goal with |- context [initLoop H (bn_parent nd) ?l s] => destruct (Hloop l s HC) as (s1&->&HC1) end.
  - apply Forall_app. split.
    + apply Forall_fmap, Forall_forall. intros bit Hb%elem_of_seq s0 HC0.
      destruct (warning_thresholdState bit (bn_parent nd) s0 HC0 ltac:(lia) Hlow) as (s1&E&?). by eexists _, _.
    + apply Forall_lookup. intros id x Hx. rewrite list_lookup_imap in Hx. apply fmap_Some in Hx as (d&Hd&->). intros s0 HC0.
      destruct (deployment_thresholdState id d (bn_parent nd) s0 HC0 Hd Hlow) as (s1&E&?). by eexists _, _.
  - destruct current; [|by exists s1]. apply warnLoop_spec; [done| |done].
    apply Forall_forall. intros i Hi%elem_of_seq. lia.
Qed.

End caches.

(** ** The tree grows *)

(** Nodes are added and statuses change; nothing else of a node does. *)
Definition grows (H H' : heap) : Prop :=
  ∀ q nd, H !! q = Some nd → ∃ st, H' !! q = Some (setStatus nd st).

Section growth.
Context (H H' : heap) (WF : tree_ok H) (HG : grows H H').

Lemma grows_parent q nd a : H !! q = Some nd → bn_parent nd = Some a → is_Some (H !! a).
Proof. intros Hq Ea. destruct (nk_parent _ _ _ (tree_node H WF _ _ Hq) a Ea) as (ad&Ha&_). by eexists. Qed.

(** Rewrites with a node of the smaller heap in both. *)
Ltac grow Hq := let st := fresh "st" in let E := fresh "E" in
  destruct (HG _ _ Hq) as [st E]; rewrite ?E, ?Hq; cbn [mbind option_bind setStatus bn_parent bn_height
    bn_timestamp bn_version bn_hash].

Lemma grows_walk n q : is_Some (H !! q) → walk n H' q = walk n H q.
Proof.
  revert q; induction n as [|n IH]; intros q [nd Hq]; [done|]. cbn [walk]. grow Hq.
  destruct (bn_parent nd) as [a|] eqn:Ea; cbn [mbind option_bind]; [|done]. by apply IH, (grows_parent q nd).
Qed.

Lemma grows_pastTimes n q : is_Some (H !! q) → pastTimes n H' (Some q) = pastTimes n H (Some q).
Proof.
  revert q; induction n as [|n IH]; intros q [nd Hq]; [done|]. cbn [pastTimes mbind option_bind]. grow Hq. f_equal.
  destruct (bn_parent nd) as [a|] eqn:Ea; [by apply IH, (grows_parent q nd)|]. by destruct n.
Qed.

Lemma grows_PastMedianTime q : is_Some (H !! q) → PastMedianTime H' q = PastMedianTime H q.
Proof.
  intros Hq. pose proof (grows_pastTimes medianTimeBlocks q Hq) as E. destruct Hq as [nd Hq].
  unfold PastMedianTime, CalcPastMedianTime. rewrite E. by grow Hq.
Qed.

Lemma grows_voteFor bit q : is_Some (H !! q) → voteFor H' bit q = voteFor H bit q.
Proof. intros [nd Hq]. unfold voteFor. by grow Hq. Qed.

Lemma grows_nextHeight q : is_Some (H !! q) → nextHeight H' q = nextHeight H q.
Proof. intros [nd Hq]. unfold nextHeight. by grow Hq. Qed.

(** Two checkers that agree on the smaller heap. *)
Record agree (c c' : thresholdConditionChecker) (cond cond' : ptr → bool) : Prop := {
  ag_started q : is_Some (H !! q) → HasStarted c' q = HasStarted c q;
  ag_ended q : is_Some (H !! q) → HasEnded c' q = HasEnded c q;
  ag_threshold : RuleChangeActivationThreshold c' = RuleChangeActivationThreshold c;
  ag_window : MinerConfirmationWindow c' = MinerConfirmationWindow c;
  ag_eligible q : is_Some (H !! q) → EligibleToActivate c' q = EligibleToActivate c q;
  ag_speedy : IsSpeedy c' = IsSpeedy c;
  ag_force q : (∀ a, q = Some a → is_Some (H !! a)) → ForceActive c' q = ForceActive c q;
  ag_cond q : is_Some (H !! q) → cond' q = cond q }.

Section agreeing.
Context (c c' : thresholdConditionChecker) (cond cond' : ptr → bool) (HA : agree c c' cond cond').

Lemma agree_votes n q : is_Some (H !! q) → votesOf H' cond' n q = votesOf H cond n q.
Proof.
  revert q; induction n as [|n IH]; intros q Hs; [done|]. cbn [votesOf]. rewrite (ag_cond _ _ _ _ HA q Hs).
  destruct Hs as [nd Hq]. grow Hq. f_equal. destruct (bn_parent nd) as [a|] eqn:Ea; [|done].
  by apply IH, (grows_parent q nd).
Qed.

Lemma agree_nextState st q : is_Some (H !! q) → nextState H' c' cond' st q = nextState H c cond st q.
Proof.
  intros Hq. destruct HA as [Hst He Ht Hw Hel Hsp _ _]. unfold nextState.
  by rewrite Hst, He, Ht, Hw, Hel, Hsp, agree_votes by done.
Qed.

Lemma agree_windowState n q : is_Some (H !! q) → windowState H' c' cond' n q = windowState H c cond n q.
Proof.
  revert q; induction n as [|n IH]; intros q Hq; [done|]. cbn [windowState].
  rewrite (ag_started _ _ _ _ HA) by done. destruct (HasStarted c q); [|done].
  rewrite agree_nextState by done. f_equal. rewrite (ag_window _ _ _ _ HA), grows_walk by done.
  destruct (walk _ H q) as [a|] eqn:Ew; [|done]. apply IH. destruct Hq as [nd Hq].
  destruct (walk_Some H WF _ _ _ _ Hq Ew) as (ad&Ha&_). by eexists.
Qed.

Lemma agree_endState q : is_Some (H !! q) → endState H' c' cond' q = endState H c cond q.
Proof.
  intros Hs. unfold endState. rewrite (ag_window _ _ _ _ HA). destruct Hs as [nd Hq]. grow Hq.
  by apply agree_windowState; eexists.
Qed.

Lemma agree_stateAfter q :
  (∀ a, q = Some a → is_Some (H !! a)) → stateAfter H' c' cond' q = stateAfter H c cond q.
Proof.
  intros Hs. unfold stateAfter. rewrite (ag_force _ _ _ _ HA), (ag_window _ _ _ _ HA) by done.
  destruct (ForceActive c q); [done|]. destruct q as [a|]; [|done]. destruct (Hs a eq_refl) as [nd Ha].
  grow Ha. destruct (_ <? _); [done|]. rewrite grows_walk by by eexists.
  destruct (walk _ H a) as [e|] eqn:Ew; [|done]. apply agree_endState.
  destruct (walk_Some H WF _ _ _ _ Ha Ew) as (ed&He&_). by eexists.
Qed.

End agreeing.

Lemma deployment_agree p d :
  agree (deploymentChecker H p d) (deploymentChecker H' p d) (voteFor H (BitNumber d)) (voteFor H' (BitNumber d)).
Proof.
  split; cbn [deploymentChecker HasStarted HasEnded RuleChangeActivationThreshold MinerConfirmationWindow
    EligibleToActivate IsSpeedy ForceActive]; intros; try done.
  - unfold starter_HasStarted. by rewrite grows_PastMedianTime.
  - unfold ender_HasEnded. by rewrite grows_PastMedianTime.
  - by rewrite grows_nextHeight.
  - destruct q as [a|]; [|done]. rewrite grows_nextHeight by eauto. done.
  - by apply grows_voteFor.
Qed.

Lemma grows_stateAfter p d q :
  (∀ a, q = Some a → is_Some (H !! a)) → deploymentStateAfter H' p d q = deploymentStateAfter H p d q.
Proof. apply agree_stateAfter, deployment_agree. Qed.

Lemma warning_agree p bit :
  agree (bitConditionChecker H p bit) (bitConditionChecker H' p bit) (unknownVote H p bit) (unknownVote H' p bit).
Proof.
  split; try done. intros q Hs. unfold unknownVote. rewrite grows_voteFor by done. destruct Hs as [nd Hq]. grow Hq.
  assert (∀ l v, versionAfter H' p (bn_parent nd) l v = versionAfter H p (bn_parent nd) l v) as ->; [|done].
  intros l; induction l as [|d l IH]; intros v; [done|]. cbn [versionAfter foldl].
  rewrite grows_stateAfter; [apply IH|]. intros a. by apply (grows_parent q nd).
Qed.

(** The caches stay right. *)
Lemma coherent_grows p s : coherent H p s → coherent H' p s.
Proof.
  assert (∀ r es es', (∀ q, is_Some (H !! q) → es' q = es q) → holds H r es s → holds H' r es' s) as Hholds.
  { intros r es es' He Hh h st El. destruct (Hh h st El) as (q&nd&Hq&Eh&->). destruct (HG q nd Hq) as [st' Hq'].
    exists q, (setStatus nd st'). split_and!; [done|done|]. by rewrite He by by eexists. }
  intros [Hd Hw Hdep Hwarn]. split; [done..| |].
  - intros id d Hi. eapply Hholds; [|by apply Hdep]. apply agree_endState, deployment_agree.
  - intros bit Hb. eapply Hholds; [|by apply Hwarn]. apply agree_endState, warning_agree.
Qed.

End growth.

(** ** Segwit and taproot *)

Definition timestamps_ok (H : heap) : Prop := map_Forall (fun _ nd => bn_timestamp nd < two32) H.

Lemma PastMedianTime_bound H q m : timestamps_ok H → PastMedianTime H q = Some m → m < two32.
Proof.
  intros Ht Em. unfold PastMedianTime, CalcPastMedianTime in Em.
  destruct (H !! q) as [nd|]; cbn [mbind option_bind] in Em; [|done].
  destruct (bn_parent nd); cbn [mbind option_bind] in Em; [|done].
  assert (m ∈ pastTimes medianTimeBlocks H (Some q)) as Hm.
  { rewrite <- (merge_sort_Permutation Z.le). by eapply list_elem_of_lookup_2. }
  clear Em. revert Hm. generalize (Some q), medianTimeBlocks. intros o k. revert o. induction k as [|k IH]; intros o Hm; simpl in Hm.
  { by apply not_elem_of_nil in Hm. }
  destruct (o ≫= fun p => H !! p) as [od|] eqn:Eo; [|by apply not_elem_of_nil in Hm].
  apply elem_of_cons in Hm as [->|Hm]; [|by eapply IH].
  destruct o as [a|]; [|done]. by apply (Ht a).
Qed.

(** A deployment that starts in the year 9999 stays defined while timestamps
    fit their four bytes on the wire. *)
Lemma never_started H bit prevNode :
  tree_ok H → timestamps_ok H → (∀ q, prevNode = Some q → is_Some (H !! q)) →
  deploymentStateAfter H dogecoinVMDeployments (neverStartedDeployment bit) prevNode = ThresholdDefined.
Proof.
  intros WF Ht Hs. unfold deploymentStateAfter, stateAfter.
  assert (ForceActive (deploymentChecker H dogecoinVMDeployments (neverStartedDeployment bit)) prevNode = false) as ->.
  { destruct prevNode as [q|]; [|done]. cbn [deploymentChecker ForceActive]. apply Z.leb_gt.
    unfold nextHeight. destruct (Hs q eq_refl) as [nd Hq]. rewrite Hq.
    destruct (tree_node H WF _ _ Hq) as [Hh _ _]. unfold two32. rewrite (Z.mod_small (bn_height nd)), Z.mod_small by lia.
    unfold EffectiveAlwaysActiveHeight. simpl. lia. }
  destruct prevNode as [q|]; [|done]. destruct (H !! q); [|done]. destruct (_ <? _); [done|].
  destruct (walk _ H q) as [e|]; [|done]. unfold endState. destruct (H !! e) as [ed|]; [|done].
  destruct (Z.to_nat _) as [|n]; [done|]. cbn [windowState deploymentChecker HasStarted neverStartedDeployment startTime].
  unfold starter_HasStarted. destruct (PastMedianTime H e) as [m|] eqn:Em; [|done].
  apply PastMedianTime_bound in Em; [|done]. rewrite (proj2 (Z.leb_gt never m)); [done|]. unfold never, two32 in *. lia.
Qed.

(** ** What is promised of the deployments *)

(** C31. [deploymentState] computes a rule change's state from the caches;
    with right caches it never fails, it answers the state that stepping the
    BIP 9 machine window by window down the parent pointers gives, and the
    caches it leaves are right, and stay right when nodes are added and
    statuses change. *)
Theorem deploymentState_cached H p prevNode id d s :
  tree_ok H → distinct_hashes H → 0 < p_MinerConfirmationWindow p < 2147483648 →
  coherent H p s → p_Deployments p !! id = Some d →
  (∀ q, prevNode = Some q → ∃ nd, H !! q = Some nd ∧ bn_height nd < 2147483647) →
  ∃ s', deploymentState H p prevNode id s = (Ok (deploymentStateAfter H p d prevNode), s') ∧
    ∀ H', grows H H' → coherent H' p s'.
Proof.
  intros WF HD Hw HC Hi Hprev. unfold deploymentState. rewrite Hi.
  destruct (deployment_thresholdState H WF HD p Hw id d prevNode s HC Hi Hprev) as (s'&->&HC').
  exists s'. split; [done|]. intros H' HG. by eapply coherent_grows.
Qed.

(** C32. Segwit and taproot never activate on DogecoinVM, whatever bits the
    blocks set: on any block tree whose timestamps fit the wire,
    [deploymentState] answers that both are merely defined. *)
Theorem segwit_never_activates H prevNode dep s :
  tree_ok H → distinct_hashes H → timestamps_ok H → coherent H dogecoinVMDeployments s →
  dep = DeploymentSegwit ∨ dep = DeploymentTaproot →
  (∀ q, prevNode = Some q → ∃ nd, H !! q = Some nd ∧ bn_height nd < 2147483647) →
  ∃ s', deploymentState H dogecoinVMDeployments prevNode (deploymentID dep) s = (Ok ThresholdDefined, s') ∧
    coherent H dogecoinVMDeployments s'.
Proof.
  intros WF HD Ht HC Hdep Hprev.
  assert (∃ bit, p_Deployments dogecoinVMDeployments !! deploymentID dep = Some (neverStartedDeployment bit)) as [bit Hi].
  { destruct Hdep as [->| ->]; by eexists. }
  unfold deploymentState. rewrite Hi.
  destruct (deployment_thresholdState H WF HD dogecoinVMDeployments ltac:(done) _ _ prevNode s HC Hi Hprev)
    as (s'&->&HC').
  exists s'. split; [|done]. rewrite never_started; [done..|]. intros q Eq. destruct (Hprev q Eq) as (nd&Hq&_). by eexists.
Qed.

Module Samples.

Definition root : blockNode := mkNode None None [1] 0 0 536870913 486604799 0 1231006505 [2] 0.
Definition child : blockNode := mkNode (Some 0%nat) (Some 0%nat) [3] (CalcWork 486604799) 1 536870913 486604799 0 1231006600 [2] 0.
Definition tree : heap := {[ 0%nat := root; 1%nat := child ]}.
Definition empty : vbCaches := mkCaches (newThresholdCaches 6) (newThresholdCaches vbNumBits) false.

(** Windows of one block: the second ends a window that has votes. *)
Definition short : DeploymentParams := mkDeployments 1 1 (p_Deployments dogecoinVMDeployments).

Lemma tree_is_ok : tree_ok tree.
Proof.
  unfold tree_ok, tree. apply map_Forall_insert; [done|]. split.
  - split; [done..|]. intros q [=].
  - apply map_Forall_singleton. split; [done..|]. intros q [= <-]. exists root. split_and!; [done..|reflexivity].
Qed.

Lemma tree_distinct : distinct_hashes tree.
Proof.
  intros q q' nd nd' Hq Hq' E. unfold tree in *.
  apply lookup_insert_Some in Hq as [[<- <-]|[_ [<- <-]%lookup_singleton_Some]];
    apply lookup_insert_Some in Hq' as [[<- <-]|[_ [<- <-]%lookup_singleton_Some]]; done.
Qed.

Lemma tree_times : timestamps_ok tree.
Proof. apply map_Forall_insert; [done|]. split; [done|]. by apply map_Forall_singleton. Qed.

Lemma empty_coherent p : length (p_Deployments p) = 6%nat → coherent tree p empty.
Proof.
  intros El. split; [done..| |].
  - intros id d _ h st E. unfold Lookup, cacheAt, empty, newThresholdCaches in E. cbn [deploymentCaches] in E.
    destruct (replicate 6 ∅ !! id) as [m|] eqn:Em; [|done]. apply lookup_replicate in Em as [-> _]. done.
  - intros bit _ h st E. unfold Lookup, cacheAt, empty, newThresholdCaches in E. cbn [warningCaches] in E.
    destruct (replicate vbNumBits ∅ !! bit) as [m|] eqn:Em; [|done]. apply lookup_replicate in Em as [-> _]. done.
Qed.

Lemma tip_low q : Some 1%nat = Some q → ∃ nd, tree !! q = Some nd ∧ bn_height nd < 2147483647.
Proof. intros [= <-]. by exists child. Qed.

(** CSV is started by the first window and locked in by the vote of the
    second. *)
Lemma deploymentState_cached_witness :
  deploymentStateAfter tree short (mkDeployment 0 0 0 0 None None) (Some 1%nat) = ThresholdLockedIn ∧
  ∃ s', deploymentState tree short (Some 1%nat) 2 empty = (Ok ThresholdLockedIn, s') ∧
    ∀ H', grows tree H' → coherent H' short s'.
Proof.
  split; [vm_compute; reflexivity|].
  destruct (deploymentState_cached tree short (Some 1%nat) 2 (mkDeployment 0 0 0 0 None None) empty
    tree_is_ok tree_distinct (conj eq_refl eq_refl) (empty_coherent short eq_refl) eq_refl tip_low) as (s'&E&HC).
  exists s'. split; [|exact HC]. rewrite E. vm_compute. reflexivity.
Defined.

Lemma segwit_never_activates_witness :
  ∃ s', deploymentState tree dogecoinVMDeployments (Some 1%nat) 3 empty = (Ok ThresholdDefined, s') ∧
    coherent tree dogecoinVMDeployments s'.
Proof.
  exact (segwit_never_activates tree (Some 1%nat) DeploymentSegwit empty tree_is_ok tree_distinct tree_times
    (empty_coherent dogecoinVMDeployments eq_refl) (or_introl eq_refl) tip_low).
Defined.

End Samples.
