(* ===== verification/Utxo.v ===== *)
(** * The set of unspent outputs

    [btcd/blockchain/utxoviewpoint.go] and [btcd/blockchain/utxocache.go]: the
    cache of the unspent outputs over their database bucket, the views blocks
    are checked on, and how both connect and disconnect transactions.  The
    cache refines a plain map of coins ([reps]).

    Memory accounting only decides when a new map is made and when a flush is
    due; those decisions, and which database transactions fail, are answers
    the cache is given ([uc_rooms], [uc_fulls], [uc_failures]). *)

From Stdlib Require Import ZArith List Lia.
From stdpp Require Import base list gmap strings.
From S2P Require Import Prelude.
From S2P Require Import Wire.
From S2P Require Import Script.

Open Scope Z_scope.

(** ** Outputs and entries *)

(** [SpentTxOut], and what the database bucket keeps of an output. *)
Record coin := mkCoin {
  c_amount : Z; c_pkScript : bytes; c_height : Z; c_isCoinBase : bool }.

#[export] Instance coin_eq_dec : EqDecision coin.
Proof. solve_decision. Defined.

Record UtxoEntry := mkEntry {
  ue_amount : Z; ue_pkScript : bytes; ue_blockHeight : Z; ue_packedFlags : Z }.

#[export] Instance UtxoEntry_eq_dec : EqDecision UtxoEntry.
Proof. solve_decision. Defined.

Definition tfCoinBase : Z := 1.
Definition tfSpent : Z := 2.
Definition tfModified : Z := 4.
Definition tfFresh : Z := 8.

Definition hasFlag (e : UtxoEntry) (f : Z) : bool := Z.land (ue_packedFlags e) f =? f.

Definition isModified (e : UtxoEntry) : bool := hasFlag e tfModified.
Definition isFresh (e : UtxoEntry) : bool := hasFlag e tfFresh.
Definition IsCoinBase_entry (e : UtxoEntry) : bool := hasFlag e tfCoinBase.
Definition IsSpent (e : UtxoEntry) : bool := hasFlag e tfSpent.

Definition setFlags (e : UtxoEntry) (f : Z) : UtxoEntry :=
  mkEntry (ue_amount e) (ue_pkScript e) (ue_blockHeight e) f.

Definition Spend (e : UtxoEntry) : UtxoEntry :=
  if IsSpent e then e
  else setFlags e (Z.lor (ue_packedFlags e) (Z.lor tfSpent tfModified)).

(** The flags of an output that was just created. *)
Definition newFlags (isCoinBase : bool) : Z :=
  let f := Z.lor tfFresh tfModified in
  if isCoinBase then Z.lor f tfCoinBase else f.

Definition newEntry (txOut : TxOut) (isCoinBase : bool) (blockHeight : Z) : UtxoEntry :=
  mkEntry (Value txOut) (PkScript txOut) blockHeight (newFlags isCoinBase).

(** The details a spend keeps. *)
Definition coinOf (e : UtxoEntry) : coin :=
  mkCoin (ue_amount e) (ue_pkScript e) (ue_blockHeight e) (IsCoinBase_entry e).

(** What [deserializeUtxoEntry] makes of a row. *)
Definition entryOf (c : coin) : UtxoEntry :=
  mkEntry (c_amount c) (c_pkScript c) (c_height c) (if c_isCoinBase c then tfCoinBase else 0).

(** ** Scripts and transactions *)

(** The loop of checkScriptParses; each [Next] takes a byte. *)
Fixpoint parseLoop (fuel : nat) (t : ScriptTokenizer) : ScriptTokenizer :=
  match fuel with
  | O => t
  | S f => match Next t with (true, t') => parseLoop f t' | (false, t') => t' end
  end.

Definition checkScriptParses (script : bytes) : bool :=
  negb (terr (parseLoop (S (length script)) (MakeScriptTokenizer script))).

Definition IsUnspendable (pkScript : bytes) : bool :=
  match pkScript with
  | op :: _ => op =? OP_RETURN
  | [] => false
  end || (MaxScriptSize <? Z.of_nat (length pkScript)) || negb (checkScriptParses pkScript).

Definition IsCoinBaseTx (msgTx : MsgTx) : bool :=
  match txIn msgTx with
  | [ti] => bool_decide (PreviousOutPoint ti = nullOut)
  | _ => false
  end.

(** The outputs of a transaction with their outpoints. *)
Definition outsOf `{Crypto} (tx : MsgTx) : list (OutPoint * TxOut) :=
  imap (fun i o => (mkOutPoint (TxHash tx) (uint32 (Z.of_nat i)), o)) (txOut tx).

(** ** The cache *)

Notation entries := (gmap OutPoint (option UtxoEntry)).

Record utxoCache := mkCache {
  uc_maps : list entries;
  uc_maxEntries : list Z;
  uc_lastFlushHash : bytes;
  uc_db : gmap OutPoint coin;
  uc_consistent : option bytes;
  uc_rooms : list Z;
  uc_fulls : list bool;
  uc_failures : list bool }.

Definition set_maps (maps : list entries) (s : utxoCache) : utxoCache :=
  mkCache maps (uc_maxEntries s) (uc_lastFlushHash s) (uc_db s) (uc_consistent s)
    (uc_rooms s) (uc_fulls s) (uc_failures s).

Definition dbError : error := Errorf "database error".

(** A database transaction: it takes the next outcome. *)
Definition dbTx : St utxoCache unit := fun s =>
  match uc_failures s with
  | [] => (Ok tt, s)
  | f :: fs =>
      ((if f then Err dbError else Ok tt),
       mkCache (uc_maps s) (uc_maxEntries s) (uc_lastFlushHash s) (uc_db s) (uc_consistent s)
         (uc_rooms s) (uc_fulls s) fs)
  end.

(** *** mapSlice *)

Fixpoint ms_get (maps : list entries) (op : OutPoint) : option (option UtxoEntry) :=
  match maps with
  | [] => None
  | m :: rest => match m !! op with Some e => Some e | None => ms_get rest op end
  end.

Fixpoint overwrite (maps : list entries) (op : OutPoint) (e : option UtxoEntry) : option (list entries) :=
  match maps with
  | [] => None
  | m :: rest =>
      match m !! op with
      | Some _ => Some (<[op := e]> m :: rest)
      | None => cons m <$> overwrite rest op e
      end
  end.

Fixpoint insertFree (maps : list entries) (maxes : list Z) (op : OutPoint) (e : option UtxoEntry) :
    option (list entries) :=
  match maps, maxes with
  | m :: rest, max :: maxes =>
      if max <=? Z.of_nat (size m) then cons m <$> insertFree rest maxes op e
      else Some (<[op := e]> m :: rest)
  | _, _ => None
  end.

Definition ms_put (op : OutPoint) (e : option UtxoEntry) (s : utxoCache) : utxoCache :=
  match overwrite (uc_maps s) op e with
  | Some maps => set_maps maps s
  | None =>
      match insertFree (uc_maps s) (uc_maxEntries s) op e with
      | Some maps => set_maps maps s
      | None =>
          mkCache (uc_maps s ++ [{[ op := e ]}]) (uc_maxEntries s ++ [default 0 (head (uc_rooms s))])
            (uc_lastFlushHash s) (uc_db s) (uc_consistent s) (tail (uc_rooms s)) (uc_fulls s)
            (uc_failures s)
      end
  end.

Definition ms_delete (op : OutPoint) (s : utxoCache) : utxoCache :=
  set_maps (delete op <$> uc_maps s) s.

(** *** Reading and writing entries *)

Definition dbFetchUtxoEntry (s : utxoCache) (op : OutPoint) : option UtxoEntry :=
  entryOf <$> uc_db s !! op.

Definition cacheMisses (s : utxoCache) (op : OutPoint) : bool :=
  match ms_get (uc_maps s) op with None => true | Some _ => false end.

Definition fetchEntries (outpoints : list OutPoint) : St utxoCache (list (option UtxoEntry)) :=
  s ← st_get;
  let found := fun op =>
    match ms_get (uc_maps s) op with Some e => e | None => dbFetchUtxoEntry s op end in
  match filter (fun op => cacheMisses s op = true) outpoints with
  | [] => mret (found <$> outpoints)
  | missing =>
      dbTx;;
      s' ← st_get;
      st_put (foldl (fun s op => ms_put op (dbFetchUtxoEntry s op) s) s' missing);;
      mret (found <$> outpoints)
  end.

Definition addTxOut (op : OutPoint) (txOut : TxOut) (isCoinBase : bool) (blockHeight : Z)
    (s : utxoCache) : utxoCache :=
  if IsUnspendable (PkScript txOut) then s
  else ms_put op (Some (newEntry txOut isCoinBase blockHeight)) s.

Definition addTxOuts `{Crypto} (tx : MsgTx) (blockHeight : Z) (s : utxoCache) : utxoCache :=
  foldl (fun s '(op, o) => addTxOut op o (IsCoinBaseTx tx) blockHeight s) s (outsOf tx).

Definition missingInput : error := Errorf "missing input".

(** The entry is shared with the cache: spending it marks it there. *)
Definition addTxIn (txIn : TxIn) : St utxoCache coin :=
  let op := PreviousOutPoint txIn in
  found ← fetchEntries [op];
  match found with
  | [Some e] =>
      s ← st_get;
      (if isFresh e then st_put (ms_delete op s)
       else st_put (match overwrite (uc_maps s) op (Some (Spend e)) with
                    | Some maps => set_maps maps s
                    | None => s
                    end));;
      mret (coinOf e)
  | _ => st_lift (Err missingInput)
  end.

Fixpoint addTxInList (l : list TxIn) : St utxoCache (list coin) :=
  match l with
  | [] => mret []
  | ti :: l => c ← addTxIn ti; cs ← addTxInList l; mret (c :: cs)
  end.

Definition addTxIns (tx : MsgTx) : St utxoCache (list coin) :=
  if IsCoinBaseTx tx then mret [] else addTxInList (txIn tx).

Definition connectTransaction `{Crypto} (tx : MsgTx) (blockHeight : Z) : St utxoCache (list coin) :=
  stxos ← addTxIns tx;
  s ← st_get;
  st_put (addTxOuts tx blockHeight s);;
  mret stxos.

Fixpoint connectTransactions `{Crypto} (txs : list MsgTx) (blockHeight : Z) : St utxoCache (list coin) :=
  match txs with
  | [] => mret []
  | tx :: txs =>
      l1 ← connectTransaction tx blockHeight;
      l2 ← connectTransactions txs blockHeight;
      mret (l1 ++ l2)
  end.

(** *** Flushing *)

(** What the bucket holds after one map is written over it. *)
Definition writeMap (db : gmap OutPoint coin) (m : entries) : gmap OutPoint coin :=
  merge (fun row e =>
    match e with
    | None => row
    | Some None => None
    | Some (Some e) =>
        if IsSpent e then None else if isModified e then Some (coinOf e) else row
    end) db m.

Definition writeCache (bestHash : bytes) (s : utxoCache) : utxoCache :=
  mkCache (take 1 ((fun _ => ∅) <$> uc_maps s)) (take 1 (uc_maxEntries s)) bestHash
    (foldl writeMap (uc_db s) (uc_maps s)) (Some bestHash) (uc_rooms s) (uc_fulls s) (uc_failures s).

Inductive FlushMode := FlushRequired | FlushPeriodic | FlushIfNeeded.

(** [flush] inside [db.Update]: a commit that fails keeps the old bucket, not
    the old cache.  [stale] says the last flush is longer ago than
    utxoFlushPeriodicInterval. *)
Definition flush (mode : FlushMode) (stale : bool) (bestHash : bytes) : St utxoCache unit := fun s =>
  let full := default false (head (uc_fulls s)) in
  let s0 := mkCache (uc_maps s) (uc_maxEntries s) (uc_lastFlushHash s) (uc_db s) (uc_consistent s)
              (uc_rooms s) (tail (uc_fulls s)) (uc_failures s) in
  let write :=
    match mode with
    | FlushRequired => true
    | FlushIfNeeded => if bool_decide (bestHash = uc_lastFlushHash s) then false else full
    | FlushPeriodic => stale || full
    end in
  let s1 := if write then writeCache bestHash s0 else s0 in
  match dbTx s1 with
  | (Ok _, s2) => (Ok tt, s2)
  | (Err e, s2) =>
      (Err e, mkCache (uc_maps s2) (uc_maxEntries s2) (uc_lastFlushHash s2) (uc_db s)
                (uc_consistent s) (uc_rooms s2) (uc_fulls s2) (uc_failures s2))
  end.

Definition newUtxoCache (maxEntries : Z) (db : gmap OutPoint coin) (consistent : option bytes)
    (rooms : list Z) (fulls failures : list bool) : utxoCache :=
  mkCache [∅] [maxEntries] zeroHash db consistent rooms fulls failures.

(** ** Views *)

Record UtxoViewpoint := mkView { v_entries : entries; v_bestHash : bytes }.

Definition NewUtxoViewpoint (bestHash : bytes) : UtxoViewpoint := mkView ∅ bestHash.

Definition SetBestHash (v : UtxoViewpoint) (hash : bytes) : UtxoViewpoint := mkView (v_entries v) hash.

Definition LookupEntry (v : UtxoViewpoint) (op : OutPoint) : option UtxoEntry :=
  mjoin (v_entries v !! op).

Definition setEntry (v : UtxoViewpoint) (op : OutPoint) (e : option UtxoEntry) : UtxoViewpoint :=
  mkView (<[op := e]> (v_entries v)) (v_bestHash v).

(** Every field of an existing entry is overwritten. *)
Definition view_addTxOut (op : OutPoint) (txOut : TxOut) (isCoinBase : bool) (blockHeight : Z)
    (v : UtxoViewpoint) : UtxoViewpoint :=
  if IsUnspendable (PkScript txOut) then v
  else setEntry v op (Some (newEntry txOut isCoinBase blockHeight)).

Definition AddTxOuts `{Crypto} (tx : MsgTx) (blockHeight : Z) (v : UtxoViewpoint) : UtxoViewpoint :=
  foldl (fun v '(op, o) => view_addTxOut op o (IsCoinBaseTx tx) blockHeight v) v (outsOf tx).

Fixpoint view_spend (l : list TxIn) (v : UtxoViewpoint) : result (UtxoViewpoint * list coin) :=
  match l with
  | [] => Ok (v, [])
  | ti :: l =>
      let op := PreviousOutPoint ti in
      match LookupEntry v op with
      | None => Err missingInput
      | Some e =>
          '(v', cs) ← view_spend l (setEntry v op (Some (Spend e)));
          Ok (v', coinOf e :: cs)
      end
  end.

Definition view_connectTransaction `{Crypto} (tx : MsgTx) (blockHeight : Z) (v : UtxoViewpoint) :
    result (UtxoViewpoint * list coin) :=
  if IsCoinBaseTx tx then Ok (AddTxOuts tx blockHeight v, [])
  else
    '(v', stxos) ← view_spend (txIn tx) v;
    Ok (AddTxOuts tx blockHeight v', stxos).

Fixpoint view_connectTransactions `{Crypto} (txs : list MsgTx) (blockHeight : Z) (v : UtxoViewpoint) :
    result (UtxoViewpoint * list coin) :=
  match txs with
  | [] => Ok (v, [])
  | tx :: txs =>
      '(v1, l1) ← view_connectTransaction tx blockHeight v;
      '(v2, l2) ← view_connectTransactions txs blockHeight v1;
      Ok (v2, l1 ++ l2)
  end.

(** *** Loading a view *)

Definition fetchUtxosFromCache (outpoints : list OutPoint) (v : UtxoViewpoint) : St utxoCache UtxoViewpoint :=
  match outpoints with
  | [] => mret v
  | _ =>
      es ← fetchEntries outpoints;
      mret (foldl (fun v '(op, e) => setEntry v op e) v (zip outpoints es))
  end.

Definition fetchUtxos (outpoints : list OutPoint) (v : UtxoViewpoint) : St utxoCache UtxoViewpoint :=
  fetchUtxosFromCache (filter (fun op => v_entries v !! op = None) outpoints) v.

(** [txInFlight]: the last position of a transaction identifier. *)
Fixpoint inFlightFrom `{Crypto} (i : nat) (txs : list MsgTx) (hash : bytes) : option nat :=
  match txs with
  | [] => None
  | tx :: txs =>
      match inFlightFrom (S i) txs hash with
      | Some j => Some j
      | None => if bool_decide (TxHash tx = hash) then Some i else None
      end
  end.

Definition inFlight `{Crypto} (txs : list MsgTx) (hash : bytes) : option nat := inFlightFrom 0 txs hash.

(** One input of the transaction at position [i] after the coinbase. *)
Definition needInput `{Crypto} (txs : list MsgTx) (blockHeight : Z) (i : nat)
    (acc : UtxoViewpoint * list OutPoint) (op : OutPoint) : UtxoViewpoint * list OutPoint :=
  let '(v, needed) := acc in
  match inFlight txs (Hash op) with
  | Some j =>
      if (j <=? i)%nat then
        match txs !! j with
        | Some originTx => (AddTxOuts originTx blockHeight v, needed)
        | None => acc
        end
      else if bool_decide (v_entries v !! op = None) then (v, needed ++ [op]) else acc
  | None => if bool_decide (v_entries v !! op = None) then (v, needed ++ [op]) else acc
  end.

Definition findInputsToFetch `{Crypto} (txs : list MsgTx) (blockHeight : Z) (v : UtxoViewpoint) :
    UtxoViewpoint * list OutPoint :=
  foldl (fun acc '(i, tx) => foldl (needInput txs blockHeight i) acc (prevOuts tx))
    (v, []) (imap pair (tail txs)).

Definition fetchInputUtxos `{Crypto} (txs : list MsgTx) (blockHeight : Z) (v : UtxoViewpoint) :
    St utxoCache UtxoViewpoint :=
  let '(v', needed) := findInputsToFetch txs blockHeight v in
  fetchUtxosFromCache needed v'.

(** *** Disconnecting *)

Definition countSpentOutputs (txs : list MsgTx) : nat :=
  list_sum ((fun tx => length (txIn tx)) <$> tail txs).

Definition badStxos : error :=
  Errorf "disconnectTransactions called with bad spent transaction out information".

(** Outputs of a disconnected transaction are marked spent, and made first
    when the view lacks them. *)
Definition unmakeOut (isCoinBase : bool) (blockHeight : Z) (v : UtxoViewpoint) (x : OutPoint * TxOut) :
    UtxoViewpoint :=
  let '(op, o) := x in
  if IsUnspendable (PkScript o) then v
  else
    let e := match LookupEntry v op with
             | Some e => e
             | None => mkEntry (Value o) (PkScript o) blockHeight (if isCoinBase then tfCoinBase else 0)
             end in
    setEntry v op (Some (Spend e)).

(** [fetchEntryByHash]: the first output of the transaction in the view, or
    else in the bucket. *)
Definition firstIndex {A} (m : gmap OutPoint A) (hash : bytes) : option A :=
  let hits := filter (fun '(op, _) => Hash op = hash) (map_to_list m) in
  snd <$> foldl (fun best '(op, a) =>
    match best with
    | None => Some (Index op, a)
    | Some (i, _) => if Index op <? i then Some (Index op, a) else best
    end) None hits.

Definition fetchEntryByHash (db : gmap OutPoint coin) (v : UtxoViewpoint) (hash : bytes) : option UtxoEntry :=
  match firstIndex (omap (fun e => e) (v_entries v)) hash with
  | Some e => Some e
  | None => entryOf <$> firstIndex db hash
  end.

Definition unableToResurrect : error := Errorf "unable to resurrect legacy stxo".

(** An input is unspent with what the journal kept of it.  Journals of the
    first format lack the height; it is searched for. *)
Definition unspendIn (db : gmap OutPoint coin) (txHash : bytes) (op : OutPoint) (stxo : coin)
    (v : UtxoViewpoint) : result UtxoViewpoint :=
  stxo ←
    (if c_height stxo =? 0 then
       match fetchEntryByHash db (setEntry v op (Some (default (mkEntry 0 [] 0 0) (LookupEntry v op)))) txHash with
       | None => Err unableToResurrect
       | Some u => Ok (mkCoin (c_amount stxo) (c_pkScript stxo) (ue_blockHeight u) (IsCoinBase_entry u))
       end
     else Ok stxo);
  Ok (setEntry v op (Some (mkEntry (c_amount stxo) (c_pkScript stxo) (c_height stxo)
        (if c_isCoinBase stxo then Z.lor tfModified tfCoinBase else tfModified)))).

Fixpoint unspendIns (db : gmap OutPoint coin) (txHash : bytes) (l : list (OutPoint * coin))
    (v : UtxoViewpoint) : result UtxoViewpoint :=
  match l with
  | [] => Ok v
  | (op, stxo) :: l => v' ← unspendIn db txHash op stxo v; unspendIns db txHash l v'
  end.

(** The transactions in reverse, each with the journal entries it made. *)
Fixpoint disconnectLoop `{Crypto} (db : gmap OutPoint coin) (blockHeight : Z)
    (l : list (nat * MsgTx)) (stxos : list coin) (v : UtxoViewpoint) : result UtxoViewpoint :=
  match l with
  | [] => Ok v
  | (txIdx, tx) :: l =>
      let isCoinBase := Nat.eqb txIdx 0 in
      let v := foldl (unmakeOut isCoinBase blockHeight) v (outsOf tx) in
      if isCoinBase then disconnectLoop db blockHeight l stxos v
      else
        let n := length (txIn tx) in
        let spent := reverse (drop (length stxos - n) stxos) in
        v ← unspendIns db (TxHash tx) (zip (reverse (prevOuts tx)) spent) v;
        disconnectLoop db blockHeight l (take (length stxos - n) stxos) v
  end.

Definition disconnectTransactions `{Crypto} (db : gmap OutPoint coin) (txs : list MsgTx)
    (blockHeight : Z) (prevBlock : bytes) (stxos : list coin) (v : UtxoViewpoint) : result UtxoViewpoint :=
  ensure (Nat.eqb (length stxos) (countSpentOutputs txs)) badStxos;;
  v ← disconnectLoop db blockHeight (reverse (imap pair txs)) stxos v;
  Ok (SetBestHash v prevBlock).

(** [commit] drops the spent entries that were written and flips the modified
    flag of the others. *)
Definition commit (v : UtxoViewpoint) : UtxoViewpoint :=
  mkView (omap (fun e : option UtxoEntry =>
    match e with
    | None => None
    | Some e =>
        if isModified e && IsSpent e then None
        else Some (Some (setFlags e (Z.lxor (ue_packedFlags e) tfModified)))
    end) (v_entries v)) (v_bestHash v).

(** [dbPutUtxoView]: modified entries go to the bucket. *)
Definition dbPutUtxoView (v : UtxoViewpoint) (db : gmap OutPoint coin) : gmap OutPoint coin :=
  merge (fun row e =>
    match e with
    | Some (Some e) =>
        if isModified e then (if IsSpent e then None else Some (coinOf e)) else row
    | _ => row
    end) db (v_entries v).

(** ** Flags *)

Lemma land_pow2 x k : 0 ≤ k → (Z.land x (2 ^ k) =? 2 ^ k) = Z.testbit x k.
Proof.
  intros Hk. apply eq_true_iff_eq. rewrite Z.eqb_eq. split.
  - intros E. assert (Z.testbit (Z.land x (2 ^ k)) k = true) as Hb by (rewrite E; apply Z.pow2_bits_true; lia).
    rewrite Z.land_spec in Hb. by apply andb_prop in Hb as [? _].
  - intros Hb. apply Z.bits_inj'. intros i Hi. rewrite Z.land_spec, Z.pow2_bits_eqb by lia.
    destruct (Z.eqb_spec k i) as [->|]; [by rewrite Hb|apply andb_false_r].
Qed.

(** The four flags are the four low bits. *)
Lemma flag_bits e :
  (IsCoinBase_entry e = Z.testbit (ue_packedFlags e) 0) ∧
  (IsSpent e = Z.testbit (ue_packedFlags e) 1) ∧
  (isModified e = Z.testbit (ue_packedFlags e) 2) ∧
  (isFresh e = Z.testbit (ue_packedFlags e) 3).
Proof.
  unfold IsCoinBase_entry, IsSpent, isModified, isFresh, hasFlag, tfCoinBase, tfSpent, tfModified, tfFresh.
  split_and!; [apply (land_pow2 _ 0)|apply (land_pow2 _ 1)|apply (land_pow2 _ 2)|apply (land_pow2 _ 3)]; lia.
Qed.

Lemma Spend_spec e :
  IsSpent (Spend e) = true ∧ isFresh (Spend e) = isFresh e ∧ coinOf (Spend e) = coinOf e ∧
  (IsSpent e = false → isModified (Spend e) = true).
Proof.
  unfold Spend. destruct (IsSpent e) eqn:Es; [done|].
  set (e' := setFlags e _). destruct (flag_bits e) as (Ec&Es'&Em&Ef), (flag_bits e') as (Ec'&Es''&Em'&Ef').
  unfold coinOf. rewrite Ec, Ec', Ef, Ef', Es'', Em'. unfold e', setFlags.
  cbn [ue_amount ue_pkScript ue_blockHeight ue_packedFlags].
  rewrite !Z.lor_spec. split_and!; [apply orb_true_r|by rewrite orb_false_r|by rewrite orb_false_r|].
  intros _. apply orb_true_r.
Qed.

Lemma newEntry_spec o cb h :
  IsSpent (newEntry o cb h) = false ∧ isModified (newEntry o cb h) = true ∧
  isFresh (newEntry o cb h) = true ∧ coinOf (newEntry o cb h) = mkCoin (Value o) (PkScript o) h cb.
Proof. by destruct cb. Qed.

Lemma entryOf_spec c :
  IsSpent (entryOf c) = false ∧ isModified (entryOf c) = false ∧
  isFresh (entryOf c) = false ∧ coinOf (entryOf c) = c.
Proof. by destruct c as [? ? ? []]. Qed.

(** ** The maps of a slice *)

(** No outpoint is in two maps. *)
Fixpoint keys_ok (maps : list entries) : Prop :=
  match maps with
  | [] => True
  | m :: rest => (∀ op, is_Some (m !! op) → ms_get rest op = None) ∧ keys_ok rest
  end.

Lemma overwrite_None maps op e : overwrite maps op e = None ↔ ms_get maps op = None.
Proof.
  induction maps as [|m rest IH]; simpl; [done|]. destruct (m !! op); [done|].
  rewrite fmap_None. done.
Qed.

Lemma overwrite_Some maps op e maps' :
  overwrite maps op e = Some maps' → keys_ok maps →
  keys_ok maps' ∧ ∀ op', ms_get maps' op' = if decide (op = op') then Some e else ms_get maps op'.
Proof.
  revert maps'; induction maps as [|m rest IH]; simpl; intros maps' E Hk; [done|].
  destruct Hk as [Hd Hk].
  destruct (m !! op) as [x|] eqn:Em.
  - simplify_eq. simpl. split.
    + split; [|done]. intros op'. destruct (decide (op = op')) as [<-|]; [intros _; by apply Hd|].
      rewrite lookup_insert_ne by done. apply Hd.
    + intros op'. destruct (decide (op = op')) as [<-|]; [by rewrite lookup_insert_eq|].
      by rewrite lookup_insert_ne.
  - apply fmap_Some in E as (rest'&E&->). destruct (IH rest' E Hk) as [Hk' Hget]. simpl. split.
    + split; [|done]. intros op' Hs. rewrite Hget. destruct (decide (op = op')) as [<-|]; [|by apply Hd].
      by rewrite Em in Hs; destruct Hs.
    + intros op'. rewrite Hget. destruct (decide (op = op')) as [<-|]; [by rewrite Em|done].
Qed.

Lemma insertFree_Some maps maxes op e maps' :
  insertFree maps maxes op e = Some maps' → keys_ok maps → ms_get maps op = None →
  keys_ok maps' ∧ ∀ op', ms_get maps' op' = if decide (op = op') then Some e else ms_get maps op'.
Proof.
  revert maxes maps'; induction maps as [|m rest IH]; intros maxes maps' E Hk Hn; [done|].
  destruct Hk as [Hd Hk]. simpl in *. destruct maxes as [|mx maxes]; [done|].
  destruct (m !! op) as [x|] eqn:Em; [done|]. destruct (mx <=? Z.of_nat (size m)).
  - apply fmap_Some in E as (rest'&E&->). destruct (IH maxes rest' E Hk Hn) as [Hk' Hget]. simpl. split.
    + split; [|done]. intros op' Hs. rewrite Hget. destruct (decide (op = op')) as [<-|]; [|by apply Hd].
      by rewrite Em in Hs; destruct Hs.
    + intros op'. rewrite Hget. destruct (decide (op = op')) as [<-|]; [by rewrite Em|done].
  - simplify_eq. simpl. split.
    + split; [|done]. intros op'. destruct (decide (op = op')) as [<-|]; [done|].
      rewrite lookup_insert_ne by done. apply Hd.
    + intros op'. destruct (decide (op = op')) as [<-|]; [by rewrite lookup_insert_eq|].
      by rewrite lookup_insert_ne.
Qed.

Lemma ms_get_app maps m op :
  ms_get (maps ++ [m]) op = match ms_get maps op with Some e => Some e | None => m !! op end.
Proof.
  induction maps as [|m' rest IH]; simpl; [by destruct (m !! op)|]. by destruct (m' !! op).
Qed.

Lemma keys_ok_app maps op e : keys_ok maps → ms_get maps op = None → keys_ok (maps ++ [{[ op := e ]}]).
Proof.
  induction maps as [|m rest IH]; simpl; [done|]. intros [Hd Hk] Hn.
  destruct (m !! op) eqn:Em; [done|]. split; [|by apply IH].
  intros op' Hs. rewrite ms_get_app, (Hd op' Hs). destruct (decide (op = op')) as [<-|].
  - by rewrite Em in Hs; destruct Hs.
  - by rewrite lookup_singleton_ne.
Qed.

(** Nothing else of the cache depends on which map an entry is in. *)
Definition same_store (s s' : utxoCache) : Prop :=
  uc_db s' = uc_db s ∧ uc_consistent s' = uc_consistent s ∧ uc_lastFlushHash s' = uc_lastFlushHash s.

#[export] Instance same_store_preorder : PreOrder same_store.
Proof. split; [by intros ?|intros ??? (?&?&?) (?&?&?); split_and!; congruence]. Qed.

Lemma ms_put_spec op e s :
  keys_ok (uc_maps s) →
  keys_ok (uc_maps (ms_put op e s)) ∧ same_store s (ms_put op e s) ∧
  ∀ op', ms_get (uc_maps (ms_put op e s)) op' =
         if decide (op = op') then Some e else ms_get (uc_maps s) op'.
Proof.
  intros Hk. unfold ms_put. destruct (overwrite _ _ _) as [maps|] eqn:Eo.
  { destruct (overwrite_Some _ _ _ _ Eo Hk). by split_and!. }
  apply overwrite_None in Eo. destruct (insertFree _ _ _ _) as [maps|] eqn:Ei.
  { destruct (insertFree_Some _ _ _ _ _ Ei Hk Eo). by split_and!. }
  simpl. split_and!; [by apply keys_ok_app|done|]. intros op'. rewrite ms_get_app.
  destruct (decide (op = op')) as [<-|].
  - by rewrite Eo, lookup_singleton_eq.
  - rewrite lookup_singleton_ne by done. by destruct (ms_get (uc_maps s) op').
Qed.

Lemma ms_get_delete maps op op' :
  ms_get (delete op <$> maps) op' = if decide (op = op') then None else ms_get maps op'.
Proof.
  induction maps as [|m rest IH]; [by destruct (decide _)|]. rewrite fmap_cons. simpl. rewrite IH.
  destruct (decide (op = op')) as [<-|]; [by rewrite lookup_delete_eq|]. by rewrite lookup_delete_ne.
Qed.

Lemma keys_ok_delete maps op : keys_ok maps → keys_ok (delete op <$> maps).
Proof.
  induction maps as [|m rest IH]; [done|]. intros [Hd Hk]. rewrite fmap_cons. split; [|by apply IH].
  intros op' [x Hx]. apply lookup_delete_Some in Hx as [? Hx]. rewrite ms_get_delete.
  destruct (decide _); [done|]. apply Hd. by eexists.
Qed.

(** ** The cache refines a map of coins *)

(** The entry a fetch finds, and the coin it stands for. *)
Definition entryAt (s : utxoCache) (op : OutPoint) : option UtxoEntry :=
  match ms_get (uc_maps s) op with Some e => e | None => dbFetchUtxoEntry s op end.

Definition unspent (e : option UtxoEntry) : option coin :=
  match e with Some e => if IsSpent e then None else Some (coinOf e) | None => None end.

(** What the flags of a cached entry promise about its row: nil and fresh
    entries have none, and an unmodified one equals it. *)
Definition entry_ok (row : option coin) (e : option UtxoEntry) : Prop :=
  match e with
  | None => row = None
  | Some e =>
      (isModified e = false → IsSpent e = false ∧ row = Some (coinOf e)) ∧
      (isFresh e = true → row = None)
  end.

Record cache_ok (s : utxoCache) (K : gset bytes) : Prop := {
  co_keys : keys_ok (uc_maps s);
  co_entry op e : ms_get (uc_maps s) op = Some e → entry_ok (uc_db s !! op) e;
  co_known op : is_Some (uc_db s !! op) → Hash op ∈ K }.

(** The cache over its bucket stands for the coins [U]; [K] holds the
    identifiers of the transactions the bucket has outputs of. *)
Record reps (s : utxoCache) (U : gmap OutPoint coin) (K : gset bytes) : Prop := {
  rp_ok : cache_ok s K;
  rp_coins op : unspent (entryAt s op) = U !! op }.

Lemma entryAt_row s op : ms_get (uc_maps s) op = None → unspent (entryAt s op) = uc_db s !! op.
Proof.
  intros E. unfold entryAt. rewrite E. unfold dbFetchUtxoEntry. destruct (uc_db s !! op) as [c|]; [|done].
  simpl. destruct (entryOf_spec c) as (->&_&_&->). done.
Qed.

Lemma dbTx_spec s : ∃ r s', dbTx s = (r, s') ∧ uc_maps s' = uc_maps s ∧ same_store s s' ∧
  (r = Ok tt ∨ r = Err dbError).
Proof.
  unfold dbTx. destruct (uc_failures s) as [|[] fs]; eexists _, _; split_and!; eauto; done.
Qed.

(** Equal contents, whatever the maps they sit in. *)
Definition same_cache (s s' : utxoCache) : Prop :=
  same_store s s' ∧ keys_ok (uc_maps s') ∧ ∀ op, ms_get (uc_maps s') op = ms_get (uc_maps s) op.

Lemma reps_put s U K op e :
  reps s U K → entry_ok (uc_db s !! op) e →
  reps (ms_put op e s) (partial_alter (fun _ => unspent e) op U) K.
Proof.
  intros [[Hk He Hn] HU] Hnew. destruct (ms_put_spec op e s Hk) as (Hk'&(Hdb&_)&Hget). split; [split|].
  - done.
  - intros op' e' E. rewrite Hdb. rewrite Hget in E. destruct (decide (op = op')) as [<-|]; [by simplify_eq|eauto].
  - intros op'. rewrite Hdb. apply Hn.
  - intros op'. unfold entryAt. rewrite Hget. destruct (decide (op = op')) as [<-|].
    + by rewrite lookup_partial_alter_eq.
    + rewrite lookup_partial_alter_ne, <- HU by done. unfold entryAt, dbFetchUtxoEntry. by rewrite Hdb.
Qed.

Lemma dbFetch_same s s' op : same_store s s' → dbFetchUtxoEntry s' op = dbFetchUtxoEntry s op.
Proof. intros (E&_). unfold dbFetchUtxoEntry. by rewrite E. Qed.

(** Caching a row, or its absence, changes nothing. *)
Lemma put_row s U K op :
  reps s U K → entryAt s op = dbFetchUtxoEntry s op →
  let s' := ms_put op (dbFetchUtxoEntry s op) s in
  reps s' U K ∧ same_store s s' ∧ (∀ op', entryAt s' op' = entryAt s op') ∧
  (∀ op', ms_get (uc_maps s') op' = if decide (op = op') then Some (entryAt s op) else ms_get (uc_maps s) op').
Proof.
  intros HR E s'. destruct (ms_put_spec op (dbFetchUtxoEntry s op) s) as (_&Hs&Hget); [apply HR|].
  split_and!; [|done| |by rewrite E].
  - replace U with (partial_alter (fun _ => unspent (dbFetchUtxoEntry s op)) op U).
    + apply reps_put; [done|]. unfold dbFetchUtxoEntry. destruct (uc_db s !! op) as [c|]; simpl; [|done].
      destruct (entryOf_spec c) as (->&->&->&->). done.
    + rewrite <- E, (rp_coins _ _ _ HR op). apply map_eq. intros op'. destruct (decide (op = op')) as [<-|].
      * by rewrite lookup_partial_alter_eq.
      * by rewrite lookup_partial_alter_ne.
  - intros op'. unfold entryAt at 1, s'. rewrite Hget. destruct (decide (op = op')) as [<-|]; [done|].
    unfold entryAt. by rewrite (dbFetch_same s).
Qed.

Lemma put_rows l s U K :
  reps s U K → (∀ op, op ∈ l → entryAt s op = dbFetchUtxoEntry s op) →
  let s' := foldl (fun s op => ms_put op (dbFetchUtxoEntry s op) s) s l in
  reps s' U K ∧ same_store s s' ∧ (∀ op, entryAt s' op = entryAt s op) ∧
  (∀ op, ms_get (uc_maps s') op = if decide (op ∈ l) then Some (entryAt s op) else ms_get (uc_maps s) op).
Proof.
  revert s; induction l as [|op l IH]; intros s HR Hl; simpl.
  { split_and!; [done..|]. intros op. destruct (decide (op ∈ [])); [set_solver|done]. }
  destruct (put_row s U K op HR) as (HR'&Hs&He&Hg); [apply Hl; set_solver|].
  destruct (IH _ HR') as (HR''&Hs'&He'&Hg').
  { intros op' Hop'. rewrite He, (dbFetch_same s) by done. apply Hl. set_solver. }
  split_and!; [done|by etrans|intros; by rewrite He', He|].
  - intros op'. rewrite Hg', He, Hg.
    destruct (decide (op' ∈ op :: l)), (decide (op' ∈ l)), (decide (op = op')) as [<-|]; set_solver.
Qed.

(** A database transaction only takes its outcome. *)
Lemma dbTx_reps s U K :
  reps s U K → ∃ r s', dbTx s = (r, s') ∧ reps s' U K ∧ same_store s s' ∧ uc_maps s' = uc_maps s ∧
    (∀ op, entryAt s' op = entryAt s op) ∧ (r = Ok tt ∨ r = Err dbError).
Proof.
  intros [[Hk He Hn] HU]. destruct (dbTx_spec s) as (r&s'&->&Em&Hs&Hr).
  assert (Hat : ∀ op, entryAt s' op = entryAt s op).
  { intros op. unfold entryAt. by rewrite Em, (dbFetch_same s). }
  exists r, s'. split_and!; [done| |done..]. destruct Hs as (Hdb&_). split; [split|].
  - by rewrite Em.
  - intros ??. rewrite Em, Hdb. apply He.
  - intros ?. rewrite Hdb. apply Hn.
  - intros op. rewrite Hat. apply HU.
Qed.

Lemma cacheMisses_true s op : cacheMisses s op = true ↔ ms_get (uc_maps s) op = None.
Proof. unfold cacheMisses. by destruct (ms_get _ _). Qed.

(** A fetch reads what the cache stands for, leaves that alone, and caches
    what it read. *)
Lemma fetchEntries_spec ops s U K :
  reps s U K → ∃ r s', fetchEntries ops s = (r, s') ∧ reps s' U K ∧ same_store s s' ∧
    (∀ op, entryAt s' op = entryAt s op) ∧
    (r = Err dbError ∨
     r = Ok (entryAt s <$> ops) ∧ ∀ op, op ∈ ops → ms_get (uc_maps s') op = Some (entryAt s op)).
Proof.
  intros HR. unfold fetchEntries. rewrite st_get_bind. cbv zeta.
  assert (Hhit : ∀ op e, ms_get (uc_maps s) op = Some e → ms_get (uc_maps s) op = Some (entryAt s op)).
  { intros op e E. unfold entryAt. by rewrite E. }
  assert (Hmiss : ∀ op, op ∈ filter (fun op => cacheMisses s op = true) ops ↔
                        ms_get (uc_maps s) op = None ∧ op ∈ ops).
  { intros op. by rewrite list_elem_of_filter, cacheMisses_true. }
  destruct (filter _ ops) as [|m ms].
  - eexists _, _. split_and!; [done..|]. right. split; [done|]. intros op Hop.
    destruct (ms_get (uc_maps s) op) as [e|] eqn:E; [by rewrite <- (Hhit _ _ E)|].
    by destruct (not_elem_of_nil op (proj2 (Hmiss op) (conj E Hop))).
  - rewrite st_bind_run. destruct (dbTx_reps s U K HR) as (r&s1&->&HR1&Hs&Em&Hat&[-> | ->]);
      [|eexists _, _; split_and!; [done..|by left]].
    destruct (put_rows (m :: ms) s1 U K HR1) as (HR2&Hs2&He2&Hg2).
    { intros op Hop. apply Hmiss in Hop as [Hop _]. rewrite Hat. unfold entryAt. rewrite Hop.
      symmetry. by apply dbFetch_same. }
    eexists _, _. split_and!; [done|done| | |right; split; [done|]].
    + by trans s1.
    + intros op. by rewrite He2, Hat.
    + intros op Hop. rewrite Hg2. destruct (decide _) as [|Hn]; [by rewrite Hat|].
      rewrite Em. destruct (ms_get (uc_maps s) op) as [e|] eqn:E; [by rewrite <- (Hhit _ _ E)|].
      destruct Hn. by apply Hmiss.
Qed.

(** ** The ledger: what connecting a block means *)

Notation coins := (gmap OutPoint coin).

Definition addOut (cb : bool) (h : Z) (U : coins) (x : OutPoint * TxOut) : coins :=
  if IsUnspendable (PkScript x.2) then U
  else <[x.1 := mkCoin (Value x.2) (PkScript x.2) h cb]> U.

Definition addOuts `{Crypto} (tx : MsgTx) (h : Z) (U : coins) : coins :=
  foldl (addOut (IsCoinBaseTx tx) h) U (outsOf tx).

(** A coinbase spends nothing. *)
Definition spends (tx : MsgTx) : list OutPoint := if IsCoinBaseTx tx then [] else prevOuts tx.

Definition spendAll (ops : list OutPoint) (U : coins) : coins := foldl (fun U op => delete op U) U ops.

Definition applyTx `{Crypto} (h : Z) (U : coins) (tx : MsgTx) : coins :=
  addOuts tx h (spendAll (spends tx) U).

Definition applyBlock `{Crypto} (h : Z) (U : coins) (txs : list MsgTx) : coins := foldl (applyTx h) U txs.

(** The coins a transaction spends are there, once each. *)
Definition canSpend (ops : list OutPoint) (U : coins) : Prop :=
  NoDup ops ∧ Forall (fun op => is_Some (U !! op)) ops.

Fixpoint canApply `{Crypto} (h : Z) (U : coins) (txs : list MsgTx) : Prop :=
  match txs with
  | [] => True
  | tx :: txs => canSpend (spends tx) U ∧ canApply h (applyTx h U tx) txs
  end.

(** The coins a block spends, in the order it spends them. *)
Fixpoint spentBy `{Crypto} (h : Z) (U : coins) (txs : list MsgTx) : list coin :=
  match txs with
  | [] => []
  | tx :: txs => omap (fun op => U !! op) (spends tx) ++ spentBy h (applyTx h U tx) txs
  end.

Lemma canSpend_cons op ops U :
  canSpend (op :: ops) U → ∃ c, U !! op = Some c ∧ canSpend ops (delete op U).
Proof.
  intros [[Hn Hd]%NoDup_cons [[c Hc] Hf]%Forall_cons]. exists c. split; [done|]. split; [done|].
  apply Forall_forall. intros op' Hop'. rewrite lookup_delete_ne by (by intros <-).
  by apply (proj1 (Forall_forall _ _) Hf).
Qed.

Lemma spendAll_app l1 l2 U : spendAll (l1 ++ l2) U = spendAll l2 (spendAll l1 U).
Proof. apply foldl_app. Qed.

Lemma omap_delete (op : OutPoint) (ops : list OutPoint) (U : coins) :
  op ∉ ops → omap (fun x => delete op U !! x) ops = omap (fun x => U !! x) ops.
Proof.
  induction ops as [|op' ops IH]; [done|]. intros [Hne Hn]%not_elem_of_cons. cbn [omap list_omap].
  rewrite (lookup_delete_ne U op op') by done. by rewrite <- (IH Hn).
Qed.

(** ** Connecting refines the ledger *)

Lemma addTxIn_spec ti s U K c :
  reps s U K → U !! PreviousOutPoint ti = Some c →
  ∃ r s', addTxIn ti s = (r, s') ∧ same_store s s' ∧
    (r = Ok c ∧ reps s' (delete (PreviousOutPoint ti) U) K ∨ r = Err dbError ∧ reps s' U K).
Proof.
  intros HR HU. set (op := PreviousOutPoint ti) in *. unfold addTxIn. fold op.
  rewrite st_bind_run.
  destruct (fetchEntries_spec [op] s U K HR) as (r&s1&->&HR1&Hs1&Hat&[->|[-> Hg]]);
    [by eexists _, _; split_and!; [done..|right]|].
  pose proof (rp_coins _ _ _ HR op) as Hc. rewrite HU in Hc. unfold unspent in Hc.
  simpl. specialize (Hg op ltac:(set_solver)).
  destruct (entryAt s op) as [e|] eqn:Ee; [|done]. destruct (IsSpent e) eqn:Esp; [done|].
  injection Hc as <-. rewrite st_get_bind.
  destruct HR1 as [[Hk He Hn] Hco]. pose proof (He _ _ Hg) as [Hmod Hfr].
  destruct (Spend_spec e) as (Es&Ef&Ec&Em). specialize (Em Esp).
  destruct (isFresh e) eqn:Efr.
  - eexists _, _. split_and!; [done|by trans s1|]. left. split; [done|]. split; [split|].
    + by apply keys_ok_delete.
    + intros op' e'. simpl. rewrite ms_get_delete. case_decide; [done|apply He].
    + apply Hn.
    + intros op'. unfold entryAt. simpl. rewrite ms_get_delete. case_decide as Hd.
      * subst op'. unfold dbFetchUtxoEntry. simpl. rewrite (Hfr eq_refl), lookup_delete_eq. done.
      * rewrite lookup_delete_ne, <- Hco by done. done.
  - destruct (overwrite (uc_maps s1) op (Some (Spend e))) as [maps|] eqn:Eo;
      [|apply overwrite_None in Eo; congruence].
    destruct (overwrite_Some _ _ _ _ Eo Hk) as [Hk' Hget].
    eexists _, _. split_and!; [done|by trans s1|]. left. split; [done|]. split; [split|].
    + done.
    + intros op' e'. simpl. rewrite Hget. case_decide as Hd; [|apply He]. subst op'. intros [= <-].
      split; [congruence|]. by rewrite Ef.
    + apply Hn.
    + intros op'. unfold entryAt. simpl. rewrite Hget. case_decide as Hd.
      * subst op'. simpl. by rewrite Es, lookup_delete_eq.
      * rewrite lookup_delete_ne, <- Hco by done. done.
Qed.

Lemma addTxInList_spec l s U K :
  reps s U K → canSpend (PreviousOutPoint <$> l) U →
  ∃ r s', addTxInList l s = (r, s') ∧ same_store s s' ∧
    (r = Ok (omap (fun op => U !! op) (PreviousOutPoint <$> l)) ∧
       reps s' (spendAll (PreviousOutPoint <$> l) U) K ∨
     r = Err dbError ∧ ∃ U', reps s' U' K).
Proof.
  revert s U; induction l as [|ti l IH]; intros s U HR Hc.
  { by eexists _, _; split_and!; [done..|left]. }
  rewrite fmap_cons in *. destruct (canSpend_cons _ _ _ Hc) as (c&HU&Hc'). simpl. rewrite st_bind_run.
  destruct (addTxIn_spec ti s U K c HR HU) as (r&s1&->&Hs1&[[-> HR1]|[-> HR1]]);
    [|eexists _, _; split_and!; [done..|right; eauto]].
  rewrite st_bind_run. destruct (IH s1 _ HR1 Hc') as (r&s2&->&Hs2&[[-> HR2]|[-> HR2]]).
  - eexists _, _. split_and!; [done|by trans s1|]. left. split; [|done].
    simpl. rewrite HU, omap_delete; [done|]. by destruct Hc as [[? _]%NoDup_cons _].
  - eexists _, _. split_and!; [done|by trans s1|]. by right.
Qed.

Lemma addTxOut_spec op o cb h s U K :
  reps s U K → Hash op ∉ K → reps (addTxOut op o cb h s) (addOut cb h U (op, o)) K ∧
  same_store s (addTxOut op o cb h s).
Proof.
  intros HR Hn. unfold addTxOut, addOut. simpl. destruct (IsUnspendable (PkScript o)); [done|].
  destruct (newEntry_spec o cb h) as (Es&Em&_&Ec).
  replace (<[op := _]> U) with (partial_alter (fun _ => unspent (Some (newEntry o cb h))) op U).
  - split; [|apply ms_put_spec, HR]. apply reps_put; [done|]. split; [congruence|intros _].
    destruct (uc_db s !! op) eqn:E; [|done]. destruct Hn. apply (co_known s K (rp_ok _ _ _ HR)). by eexists.
  - unfold unspent. rewrite Es, Ec. done.
Qed.

Lemma addTxOuts_spec `{CR : Crypto} tx h s U K :
  reps s U K → TxHash tx ∉ K → reps (addTxOuts tx h s) (addOuts tx h U) K ∧ same_store s (addTxOuts tx h s).
Proof.
  intros HR Hn. unfold addTxOuts, addOuts.
  assert (Forall (fun x : OutPoint * TxOut => Hash x.1 ∉ K) (outsOf tx)) as Hf.
  { apply Forall_forall. intros [op o] (i&?&[= -> ->]&_)%elem_of_lookup_imap. done. }
  revert s U HR. induction (outsOf tx) as [|[op o] l IH]; intros s U HR; simpl; [done|].
  apply Forall_cons in Hf as [Ho Hf]. destruct (addTxOut_spec op o (IsCoinBaseTx tx) h s U K HR Ho) as [HR' Hs'].
  destruct (IH Hf _ _ HR'). split; [done|by etrans].
Qed.

Lemma connectTransaction_spec `{CR : Crypto} tx h s U K :
  reps s U K → TxHash tx ∉ K → canSpend (spends tx) U →
  ∃ r s', connectTransaction tx h s = (r, s') ∧ same_store s s' ∧
    (r = Ok (omap (fun op => U !! op) (spends tx)) ∧ reps s' (applyTx h U tx) K ∨
     r = Err dbError ∧ ∃ U', reps s' U' K).
Proof.
  intros HR Hn Hc. unfold connectTransaction, applyTx, addTxIns, spends in *.
  rewrite st_bind_run. destruct (IsCoinBaseTx tx) eqn:Ecb.
  - unfold mret, st_ret. cbv beta iota. rewrite st_get_bind. destruct (addTxOuts_spec tx h s U K HR Hn).
    eexists _, _. split_and!; [done..|]. by left.
  - destruct (addTxInList_spec (txIn tx) s U K HR Hc) as (r&s1&->&Hs1&[[-> HR1]|[-> HR1]]).
    + rewrite st_get_bind. destruct (addTxOuts_spec tx h s1 _ K HR1 Hn).
      eexists _, _. split_and!; [done|by trans s1|]. by left.
    + eexists _, _. split_and!; [done..|]. by right.
Qed.

(** Connecting a block's transactions in the cache is the ledger step, and
    yields the coins they spend; it fails only when the database does. *)
Lemma connectTransactions_spec `{CR : Crypto} txs h s U K :
  reps s U K → Forall (fun tx => TxHash tx ∉ K) txs → canApply h U txs →
  ∃ r s', connectTransactions txs h s = (r, s') ∧ same_store s s' ∧
    (r = Ok (spentBy h U txs) ∧ reps s' (applyBlock h U txs) K ∨ r = Err dbError ∧ ∃ U', reps s' U' K).
Proof.
  revert s U; induction txs as [|tx txs IH]; intros s U HR Hf Hc.
  { by eexists _, _; split_and!; [done..|left]. }
  apply Forall_cons in Hf as [Hn Hf]. destruct Hc as [Hc Hc']. simpl. rewrite st_bind_run.
  destruct (connectTransaction_spec tx h s U K HR Hn Hc) as (r&s1&->&Hs1&[[-> HR1]|[-> HR1]]);
    [|eexists _, _; split_and!; [done..|by right]].
  rewrite st_bind_run. destruct (IH s1 _ HR1 Hf Hc') as (r&s2&->&Hs2&[[-> HR2]|[-> HR2]]).
  - eexists _, _. split_and!; [done|by trans s1|]. by left.
  - eexists _, _. split_and!; [done|by trans s1|]. by right.
Qed.

(** ** Flushing *)

Definition rowAfter (row : option coin) (e : option (option UtxoEntry)) : option coin :=
  match e with
  | None => row
  | Some None => None
  | Some (Some e) => if IsSpent e then None else if isModified e then Some (coinOf e) else row
  end.

Lemma writeMap_lookup db m op : writeMap db m !! op = rowAfter (db !! op) (m !! op).
Proof. unfold writeMap. rewrite lookup_merge. by destruct (db !! op), (m !! op) as [[]|]. Qed.

Lemma writeMaps_lookup maps db op :
  keys_ok maps → foldl writeMap db maps !! op = rowAfter (db !! op) (ms_get maps op).
Proof.
  revert db; induction maps as [|m rest IH]; intros db Hk; simpl; [done|]. destruct Hk as [Hd Hk].
  rewrite IH, writeMap_lookup by done. destruct (m !! op) as [e|] eqn:E; [|done].
  by rewrite (Hd op) by (by eexists).
Qed.

(** A written cache is empty, and its bucket is the map of coins. *)
Lemma writeCache_spec best s U K :
  reps s U K →
  uc_db (writeCache best s) = U ∧ (∀ op, ms_get (uc_maps (writeCache best s)) op = None) ∧
  keys_ok (uc_maps (writeCache best s)) ∧ uc_lastFlushHash (writeCache best s) = best ∧
  uc_consistent (writeCache best s) = Some best.
Proof.
  intros [[Hk He Hn] HU]. split_and!; [|intros op; simpl|simpl|done..]; cycle 1.
  { destruct (uc_maps s); simpl; [done|]. by rewrite lookup_empty. }
  { destruct (uc_maps s); simpl; [done|]. split; [|done]. intros op [? Hx]. by rewrite lookup_empty in Hx. }
  apply map_eq. intros op. simpl. rewrite writeMaps_lookup by done. rewrite <- HU.
  unfold entryAt, rowAfter. destruct (ms_get (uc_maps s) op) as [e|] eqn:E.
  - destruct e as [e|]; [|done]. destruct (He _ _ E) as [Hm _]. simpl.
    destruct (IsSpent e) eqn:Es; [done|]. destruct (isModified e) eqn:Em; [done|]. by apply Hm.
  - rewrite <- (entryAt_row s op E). unfold entryAt. by rewrite E.
Qed.

Lemma reps_empty s U K :
  keys_ok (uc_maps s) → uc_db s = U → (∀ op, ms_get (uc_maps s) op = None) →
  (∀ op, is_Some (U !! op) → Hash op ∈ K) → reps s U K.
Proof.
  intros Hk Hdb Hg HK. split; [split|].
  - done.
  - intros op e. by rewrite Hg.
  - by rewrite Hdb.
  - intros op. rewrite entryAt_row by done. by rewrite Hdb.
Qed.

(** A flush that succeeds keeps the coins: it left the bucket alone, which a
    required one does not, or moved all of them to it.  A failed commit empties
    the cache over the old bucket: the coins are then those of the last
    flush. *)
Lemma flush_spec mode stale best s U K :
  reps s U K → (∀ op, is_Some (U !! op) → Hash op ∈ K) →
  ∃ r s', flush mode stale best s = (r, s') ∧
    ((r = Ok tt ∧ reps s' U K ∧
      ((mode ≠ FlushRequired ∧ uc_db s' = uc_db s ∧ uc_consistent s' = uc_consistent s) ∨
       (uc_db s' = U ∧ uc_consistent s' = Some best))) ∨
     (r = Err dbError ∧ uc_db s' = uc_db s ∧ uc_consistent s' = uc_consistent s)).
Proof.
  intros HR HK. unfold flush. cbv zeta.
  set (s0 := mkCache _ _ _ _ _ _ _ _). set (w := match mode with FlushRequired => _ | _ => _ end).
  assert (HR0 : reps s0 U K) by (destruct HR as [[? ? ?] ?]; by split; [split|]).
  set (s1 := if w then writeCache best s0 else s0).
  assert (reps s1 U K ∧ ((mode ≠ FlushRequired ∧ uc_db s1 = uc_db s ∧ uc_consistent s1 = uc_consistent s) ∨
                         (uc_db s1 = U ∧ uc_consistent s1 = Some best))) as [HR1 Hdis].
  { unfold s1. destruct (writeCache_spec best s0 U K HR0) as (Hdb&Hg&Hk&_&Hc).
    destruct w eqn:Ew; [split; [by apply reps_empty|by right]|]. split; [done|]. left. by destruct mode. }
  destruct (dbTx_reps _ U K HR1) as (r&s2&->&HR2&(Hdb&Hc&_)&_&_&[-> | ->]).
  - eexists _, _. split; [done|]. left. rewrite Hdb, Hc. done.
  - eexists _, _. split; [done|]. by right.
Qed.
