(* ===== verification/Validate.v ===== *)
(** * Consensus rules for blocks

    [btcd/blockchain/validate.go], the size and signature-operation counts it
    uses ([weight.go], [btcd/wire], [btcd/txscript/script.go]) and the
    parameters of [btcd/chaincfg/params.go].  Deployments are asked for the
    state [Versionbits] shows the cached computation to answer.  Running the
    scripts is the operation of [ScriptEngine]: the theorems hold whatever it
    answers. *)

From Stdlib Require Import ZArith List Lia.
From stdpp Require Import base list gmap strings.
From S2P Require Import Prelude.
From S2P Require Import Wire.
From S2P Require Import Script.
From S2P Require Import Chain.
From S2P Require Import Merkle.
From S2P Require Import Versionbits.
From S2P Require Import Utxo.

Open Scope Z_scope.

(** ** Parameters *)

Record PegReserve := mkReserve { pr_PkScript : bytes; pr_Amount : Z; pr_Blocks : Z }.

Record Params := mkParams {
  GenesisHash : bytes;
  p_NoBlockSubsidy : bool;
  p_SubsidyReductionInterval : Z;
  p_CoinbaseMaturity : Z;
  BIP0034Height : Z;
  BIP0065Height : Z;
  BIP0066Height : Z;
  p_PegReserve : option PegReserve;
  p_Deploy : DeploymentParams }.

Definition PegReserveAt (p : Params) (height : Z) : Z :=
  match p_PegReserve p with
  | None => 0
  | Some r => if (height <? 1) || (pr_Blocks r <? height) then 0 else pr_Amount r
  end.

Definition PegReserveAmountPerBlock : Z := 9000000000 * 100000000.

(** [newDogecoinVMParams] with the reserve of [withPegReserve]. *)
Definition dogecoinVMParams (genesis : bytes) (reserve : option PegReserve) : Params :=
  mkParams genesis true 210000 0 0 0 0 reserve dogecoinVMDeployments.

Definition baseSubsidy : Z := 50 * 100000000.

Definition CalcBlockSubsidy (p : Params) (height : Z) : Z :=
  if p_NoBlockSubsidy p then 0
  else if p_SubsidyReductionInterval p =? 0 then baseSubsidy
  else Z.shiftr baseSubsidy (height / p_SubsidyReductionInterval p).

(** ** Blocks and sizes *)

Record MsgBlock := mkBlock { bl_Header : BlockHeader; bl_Transactions : list MsgTx }.

Definition VarIntSerializeSize (val : Z) : Z :=
  if val <? 253 then 1 else if val <=? 65535 then 3 else if val <=? 4294967295 then 5 else 9.

Definition TxIn_SerializeSize (t : TxIn) : Z :=
  40 + VarIntSerializeSize (Z.of_nat (length (SignatureScript t))) + Z.of_nat (length (SignatureScript t)).

Definition TxOut_SerializeSize (t : TxOut) : Z :=
  8 + VarIntSerializeSize (Z.of_nat (length (PkScript t))) + Z.of_nat (length (PkScript t)).

Definition baseSize (msg : MsgTx) : Z :=
  8 + VarIntSerializeSize (Z.of_nat (length (txIn msg))) + VarIntSerializeSize (Z.of_nat (length (txOut msg)))
  + sumZ (TxIn_SerializeSize <$> txIn msg) + sumZ (TxOut_SerializeSize <$> txOut msg).

Definition SerializeSizeStripped (msg : MsgTx) : Z := baseSize msg.

Definition blockHeaderLen : Z := 80.

Definition block_SerializeSizeStripped (b : MsgBlock) : Z :=
  blockHeaderLen + VarIntSerializeSize (Z.of_nat (length (bl_Transactions b)))
  + sumZ (SerializeSizeStripped <$> bl_Transactions b).

Definition TxWitness_SerializeSize (t : list bytes) : Z :=
  VarIntSerializeSize (Z.of_nat (length t))
  + sumZ ((fun item => VarIntSerializeSize (Z.of_nat (length item)) + Z.of_nat (length item)) <$> t).

Definition SerializeSize (msg : MsgTx) : Z :=
  baseSize msg +
  (if HasWitness msg then 2 + sumZ ((fun ti => TxWitness_SerializeSize (Witness ti)) <$> txIn msg) else 0).

Definition block_SerializeSize (b : MsgBlock) : Z :=
  blockHeaderLen + VarIntSerializeSize (Z.of_nat (length (bl_Transactions b)))
  + sumZ (SerializeSize <$> bl_Transactions b).

Definition MaxBlockBaseSize : Z := 1000000.
Definition MaxBlockSigOpsCost : Z := 80000.
Definition WitnessScaleFactor : Z := 4.
Definition MaxSatoshi : Z := 10000000000 * 100000000.

(** ** Signature operations *)

Definition OP_CHECKSIGVERIFY : Z := 173.
Definition OP_CHECKMULTISIGVERIFY : Z := 175.
Definition OP_INVALIDOPCODE : Z := 255.
Definition MaxPubKeysPerMultiSig : Z := 20.

Fixpoint sigOpsLoop (fuel : nat) (precise : bool) (t : ScriptTokenizer) (prevOp n : Z) : Z :=
  match fuel with
  | O => n
  | S f =>
      match Next t with
      | (false, _) => n
      | (true, t') =>
          let op := top t' in
          let n' :=
            if (op =? OP_CHECKSIG) || (op =? OP_CHECKSIGVERIFY) then n + 1
            else if (op =? OP_CHECKMULTISIG) || (op =? OP_CHECKMULTISIGVERIFY) then
              if precise && (OP_1 <=? prevOp) && (prevOp <=? OP_16) then n + AsSmallInt prevOp
              else n + MaxPubKeysPerMultiSig
            else n in
          sigOpsLoop f precise t' op n'
      end
  end.

Definition countSigOpsV0 (script : bytes) (precise : bool) : Z :=
  sigOpsLoop (S (length script)) precise (MakeScriptTokenizer script) OP_INVALIDOPCODE 0.

Definition GetSigOpCount (script : bytes) : Z := countSigOpsV0 script false.

(** The loops of IsPushOnlyScript and finalOpcodeData. *)
Fixpoint pushOnlyLoop (fuel : nat) (t : ScriptTokenizer) : bool :=
  match fuel with
  | O => false
  | S f =>
      match Next t with
      | (false, t') => negb (terr t')
      | (true, t') => if OP_16 <? top t' then false else pushOnlyLoop f t'
      end
  end.

Definition IsPushOnlyScript (script : bytes) : bool :=
  pushOnlyLoop (S (length script)) (MakeScriptTokenizer script).

Fixpoint finalDataLoop (fuel : nat) (t : ScriptTokenizer) (data : option bytes) : option bytes :=
  match fuel with
  | O => data
  | S f =>
      match Next t with
      | (false, t') => if terr t' then None else data
      | (true, t') => finalDataLoop f t' (tdata t')
      end
  end.

Definition finalOpcodeData (script : bytes) : option bytes :=
  match script with
  | [] => None
  | _ => finalDataLoop (S (length script)) (MakeScriptTokenizer script) None
  end.

Definition GetPreciseSigOpCount (scriptSig scriptPubKey : bytes) : Z :=
  if negb (isScriptHashScript scriptPubKey) then countSigOpsV0 scriptPubKey true
  else if Nat.eqb (length scriptSig) 0 || negb (IsPushOnlyScript scriptSig) then 0
  else match finalOpcodeData scriptSig with
       | None | Some [] => 0
       | Some redeemScript => countSigOpsV0 redeemScript true
       end.

Definition CountSigOps (tx : MsgTx) : Z :=
  sumZ ((fun ti => GetSigOpCount (SignatureScript ti)) <$> txIn tx)
  + sumZ ((fun o => GetSigOpCount (PkScript o)) <$> txOut tx).

Definition missingTxOut : error := ruleError "output either does not exist or has already been spent".

Fixpoint countP2SHLoop (l : list TxIn) (v : UtxoViewpoint) (total : Z) : result Z :=
  match l with
  | [] => Ok total
  | ti :: l =>
      match LookupEntry v (PreviousOutPoint ti) with
      | None => Err missingTxOut
      | Some u =>
          if IsSpent u then Err missingTxOut
          else if negb (isScriptHashScript (ue_pkScript u)) then countP2SHLoop l v total
          else countP2SHLoop l v (total + GetPreciseSigOpCount (SignatureScript ti) (ue_pkScript u))
      end
  end.

Definition CountP2SHSigOps (tx : MsgTx) (isCoinBaseTx : bool) (v : UtxoViewpoint) : result Z :=
  if isCoinBaseTx then Ok 0 else countP2SHLoop (txIn tx) v 0.

(** *** Witness programs *)

Definition isCanonicalPush (opcode : Z) (data : bytes) : bool :=
  let dataLen := Z.of_nat (length data) in
  if OP_16 <? opcode then true
  else if (opcode <? OP_PUSHDATA1) && (OP_0 <? opcode) &&
          match data with [d] => d <=? 16 | _ => false end then false
  else if (opcode =? OP_PUSHDATA1) && (dataLen <? OP_PUSHDATA1) then false
  else if (opcode =? OP_PUSHDATA2) && (dataLen <=? 255) then false
  else negb ((opcode =? OP_PUSHDATA4) && (dataLen <=? 65535)).

Definition extractWitnessProgramInfo (script : bytes) : option (Z * bytes) :=
  if (Z.of_nat (length script) <? 4) || (42 <? Z.of_nat (length script)) then None
  else
    let '(ok, t) := Next (MakeScriptTokenizer script) in
    if negb ok || negb (IsSmallInt (top t)) then None
    else
      let version := AsSmallInt (top t) in
      let '(ok, t) := Next t in
      if negb ok || negb (isCanonicalPush (top t) (default [] (tdata t))) then None
      else if Done t && negb (terr t) then Some (version, default [] (tdata t)) else None.

Definition isWitnessProgramScript (script : bytes) : bool := bool_decide (is_Some (extractWitnessProgramInfo script)).

Definition getWitnessSigOps (pkScript : bytes) (witness : list bytes) : Z :=
  match extractWitnessProgramInfo pkScript with
  | Some (0, program) =>
      if Nat.eqb (length program) 20 then 1
      else if Nat.eqb (length program) 32 then
        match last witness with Some witnessScript => countSigOpsV0 witnessScript true | None => 0 end
      else 0
  | _ => 0
  end.

Definition GetWitnessSigOpCount (sigScript pkScript : bytes) (witness : list bytes) : Z :=
  if isWitnessProgramScript pkScript then getWitnessSigOps pkScript witness
  else if isScriptHashScript pkScript && IsPushOnlyScript sigScript && negb (Nat.eqb (length sigScript) 0) &&
          isWitnessProgramScript (tail sigScript) then getWitnessSigOps (tail sigScript) witness
  else 0.

(** *** What the rules ask of other components *)

(** Running the scripts of a block's transactions under the given flags. *)
Class ScriptEngine := {
  checkBlockScripts : list MsgTx → UtxoViewpoint → Z → result unit;
  ValidateTransactionScripts : MsgTx → UtxoViewpoint → Z → result unit }.

(** Whether a deployment is active for the block after [prevNode]. *)
Definition deploymentActive (p : Params) (H : heap) (prevNode : option ptr) (d : Deployment) : bool :=
  match p_Deployments (p_Deploy p) !! deploymentID d with
  | Some cd => bool_decide (deploymentStateAfter H (p_Deploy p) cd prevNode = ThresholdActive)
  | None => false
  end.

(** A P2SH count that fails makes the whole cost zero. *)
Definition GetSigOpCost (tx : MsgTx) (isCoinBaseTx : bool) (v : UtxoViewpoint)
    (bip16 segWit : bool) : result Z :=
  let numSigOps := CountSigOps tx * WitnessScaleFactor in
  match (if bip16 then CountP2SHSigOps tx isCoinBaseTx v else Ok 0) with
  | Err _ => Ok 0
  | Ok numP2SHSigOps =>
      let numSigOps := numSigOps + numP2SHSigOps * WitnessScaleFactor in
      if segWit && negb isCoinBaseTx then
        foldl (fun acc ti =>
          n ← acc;
          match LookupEntry v (PreviousOutPoint ti) with
          | None => Err missingTxOut
          | Some u =>
              if IsSpent u then Err missingTxOut
              else Ok (n + GetWitnessSigOpCount (SignatureScript ti) (ue_pkScript u) (Witness ti))
          end) (Ok numSigOps) (txIn tx)
      else Ok numSigOps
  end.

(** ** Context-free rules *)

(** The running total of the outputs, each in range. *)
Fixpoint checkOutputs (l : list TxOut) (totalSatoshi : Z) : result unit :=
  match l with
  | [] => Ok tt
  | o :: l =>
      ensure (0 <=? Value o) (ruleError "transaction output has negative value");;
      ensure (Value o <=? MaxSatoshi) (ruleError "transaction output value is higher than max allowed value");;
      let total := wrap64 (totalSatoshi + Value o) in
      ensure (0 <=? total) (ruleError "total value of all transaction outputs exceeds max allowed value");;
      ensure (total <=? MaxSatoshi) (ruleError "total value of all transaction outputs is higher than max");;
      checkOutputs l total
  end.

Definition CheckTransactionSanity (tx : MsgTx) : result unit :=
  ensure (negb (Nat.eqb (length (txIn tx)) 0)) (ruleError "transaction has no inputs");;
  ensure (negb (Nat.eqb (length (txOut tx)) 0)) (ruleError "transaction has no outputs");;
  ensure (SerializeSizeStripped tx <=? MaxBlockBaseSize) (ruleError "serialized transaction is too big");;
  checkOutputs (txOut tx) 0;;
  ensure (bool_decide (NoDup (prevOuts tx))) (ruleError "transaction contains duplicate inputs");;
  if IsCoinBaseTx tx then
    match txIn tx with
    | ti :: _ =>
        let slen := Z.of_nat (length (SignatureScript ti)) in
        ensure ((2 <=? slen) && (slen <=? 100)) (ruleError "coinbase transaction script length is out of range")
    | [] => Ok tt
    end
  else
    ensure (bool_decide (nullOut ∉ prevOuts tx))
      (ruleError "transaction input refers to previous output that is null").

Fixpoint checkAll {A} (f : A → result unit) (l : list A) : result unit :=
  match l with [] => Ok tt | x :: l => f x;; checkAll f l end.

Fixpoint checkSigOps (l : list MsgTx) (total : Z) : result unit :=
  match l with
  | [] => Ok tt
  | tx :: l =>
      let total := total + CountSigOps tx * WitnessScaleFactor in
      ensure (total <=? MaxBlockSigOpsCost) (ruleError "block contains too many signature operations");;
      checkSigOps l total
  end.

Definition MaxTimeOffsetSeconds : Z := 7200.

(** [now] is the adjusted time; proof of work is never checked. *)
Definition CheckBlockHeaderSanity (header : BlockHeader) (now : Z) : result unit :=
  ensure (Timestamp header <=? now + MaxTimeOffsetSeconds)
    (ruleError "block timestamp is too far in the future").

Definition checkBlockSanity `{Crypto} (b : MsgBlock) (now : Z) : result unit :=
  let txs := bl_Transactions b in
  CheckBlockHeaderSanity (bl_Header b) now;;
  ensure (negb (Nat.eqb (length txs) 0)) (ruleError "block does not contain any transactions");;
  ensure (Z.of_nat (length txs) <=? MaxBlockBaseSize) (ruleError "block contains too many transactions");;
  ensure (block_SerializeSizeStripped b <=? MaxBlockBaseSize) (ruleError "serialized block is too big");;
  ensure (match txs with cb :: _ => IsCoinBaseTx cb | [] => false end)
    (ruleError "first transaction in block is not a coinbase");;
  ensure (forallb (fun tx => negb (IsCoinBaseTx tx)) (tail txs)) (ruleError "block contains second coinbase");;
  checkAll CheckTransactionSanity txs;;
  ensure (bool_decide (MerkleRoot (bl_Header b) = CalcMerkleRoot txs false)) (ruleError "block merkle root is invalid");;
  ensure (bool_decide (NoDup (TxHash <$> txs))) (ruleError "block contains duplicate transaction");;
  checkSigOps txs 0.

(** ** Spending rules *)

(** The inputs are there, unspent, mature and in range; their total. *)
Fixpoint checkInputs (p : Params) (txHeight : Z) (v : UtxoViewpoint) (l : list TxIn) (totalSatoshiIn : Z) :
    result Z :=
  match l with
  | [] => Ok totalSatoshiIn
  | ti :: l =>
      match LookupEntry v (PreviousOutPoint ti) with
      | None => Err missingTxOut
      | Some utxo =>
          ensure (negb (IsSpent utxo)) missingTxOut;;
          ensure (negb (IsCoinBase_entry utxo) ||
                  (p_CoinbaseMaturity p <=? int32_wrap (txHeight - ue_blockHeight utxo)))
            (ruleError "tried to spend coinbase transaction output before required maturity");;
          ensure (0 <=? ue_amount utxo) (ruleError "transaction output has negative value");;
          ensure (ue_amount utxo <=? MaxSatoshi) (ruleError "transaction output value is higher than max allowed value");;
          let total := wrap64 (totalSatoshiIn + ue_amount utxo) in
          ensure (negb (total <? totalSatoshiIn) && (total <=? MaxSatoshi))
            (ruleError "total value of all transaction inputs is higher than max allowed value");;
          checkInputs p txHeight v l total
      end
  end.

Definition CheckTransactionInputs (p : Params) (tx : MsgTx) (txHeight : Z) (v : UtxoViewpoint) : result Z :=
  if IsCoinBaseTx tx then Ok 0
  else
    totalSatoshiIn ← checkInputs p txHeight v (txIn tx) 0;
    let totalSatoshiOut := sum64 (Value <$> txOut tx) in
    ensure (totalSatoshiOut <=? totalSatoshiIn)
      (ruleError "total value of all transaction inputs is less than the amount spent");;
    Ok (wrap64 (totalSatoshiIn - totalSatoshiOut)).

Definition checkPegReserveOutput (p : Params) (coinbase : MsgTx) : result unit :=
  match p_PegReserve p with
  | None => Ok tt
  | Some r =>
      ensure (existsb (fun o => (Value o =? pr_Amount r) && bool_decide (PkScript o = pr_PkScript r)) (txOut coinbase))
        (ruleError "coinbase does not pay the peg reserve to the peg reserve script")
  end.

Definition checkBIP0030 `{Crypto} (txs : list MsgTx) (v : UtxoViewpoint) : St utxoCache UtxoViewpoint :=
  let fetch := concat ((fun tx => (outsOf tx).*1) <$> txs) in
  v ← fetchUtxos fetch v;
  st_ensure (forallb (fun op => match LookupEntry v op with Some u => IsSpent u | None => true end) fetch)
    (ruleError "tried to overwrite transaction that is not fully spent");;
  mret v.

(** [block91842Hash] and [block91880Hash]. *)
Definition isBIP0030Node (nd : blockNode) : bool :=
  let named := fun s => match NewHashFromStr s with Ok h => bool_decide (bn_hash nd = h) | Err _ => false end in
  ((bn_height nd =? 91842) &&
     named "00000000000a4d0a398161ffc163c503763b1f4360639393e0e4c8e300e0caec"%string) ||
  ((bn_height nd =? 91880) &&
     named "00000000000743f190a18c5577a3c2d2a1f610ae9601ac046a38084ccb7cd721"%string).

Fixpoint sigOpCosts (v : UtxoViewpoint) (bip16 segWit : bool) (l : list (nat * MsgTx)) (total : Z) :
    result unit :=
  match l with
  | [] => Ok tt
  | (i, tx) :: l =>
      cost ← GetSigOpCost tx (Nat.eqb i 0) v bip16 segWit;
      ensure (total + cost <=? MaxBlockSigOpsCost) (ruleError "block contains too many signature operations");;
      sigOpCosts v bip16 segWit l (total + cost)
  end.

(** Each transaction is checked on the view, then connected to it; the total
    of the fees. *)
Fixpoint connectChecked `{Crypto} (p : Params) (height : Z) (txs : list MsgTx) (v : UtxoViewpoint) (totalFees : Z) :
    result (UtxoViewpoint * Z) :=
  match txs with
  | [] => Ok (v, totalFees)
  | tx :: txs =>
      txFee ← CheckTransactionInputs p tx height v;
      let fees := wrap64 (totalFees + txFee) in
      ensure (negb (fees <? totalFees)) (ruleError "total fees for block overflows accumulator");;
      '(v, _) ← view_connectTransaction tx height v;
      connectChecked p height txs v fees
  end.

Definition Bip16Activation : Z := 1333238400.

Definition ScriptBip16 : Z := 1.
Definition ScriptStrictMultiSig : Z := 2.
Definition ScriptVerifyCheckLockTimeVerify : Z := 8.
Definition ScriptVerifyCheckSequenceVerify : Z := 16.
Definition ScriptVerifyDERSignatures : Z := 64.
Definition ScriptVerifyWitness : Z := 4096.
Definition ScriptVerifyTaproot : Z := 65536.

(** A flag is added to the mask under a condition. *)
Definition addFlag (b : bool) (f mask : Z) : Z := if b then Z.lor mask f else mask.

(** *** Sequence locks *)

Definition SequenceLockTimeDisabled : Z := 2147483648.
Definition SequenceLockTimeIsSeconds : Z := 4194304.
Definition SequenceLockTimeMask : Z := 65535.
Definition SequenceLockTimeGranularity : Z := 9.

(** What one input asks for: a lock is the seconds and the height. *)
Definition inputLock (H : heap) (node : ptr) (nd : blockNode) (v : UtxoViewpoint) (lock : Z * Z) (ti : TxIn) :
    result (Z * Z) :=
  match LookupEntry v (PreviousOutPoint ti) with
  | None => Err missingTxOut
  | Some utxo =>
      let nextHeight := int32_wrap (bn_height nd + 1) in
      let inputHeight := if ue_blockHeight utxo =? 2147483647 then nextHeight else ue_blockHeight utxo in
      let relativeLock := Z.land (Sequence ti) SequenceLockTimeMask in
      if Z.land (Sequence ti) SequenceLockTimeDisabled =? SequenceLockTimeDisabled then Ok lock
      else if Z.land (Sequence ti) SequenceLockTimeIsSeconds =? SequenceLockTimeIsSeconds then
        let prevInputHeight := if int32_wrap (inputHeight - 1) <? 0 then 0 else int32_wrap (inputHeight - 1) in
        medianTime ← from_option_err (Ancestor H node prevInputHeight ≫= CalcPastMedianTime H)
                       (goPanic "index out of range");
        let timeLock := wrap64 (medianTime + (Z.shiftl relativeLock SequenceLockTimeGranularity - 1)) in
        Ok (if lock.1 <? timeLock then (timeLock, lock.2) else lock)
      else
        let blockHeight := int32_wrap (inputHeight + int32_wrap (relativeLock - 1)) in
        Ok (if lock.2 <? blockHeight then (lock.1, blockHeight) else lock)
  end.

Fixpoint inputLocks (H : heap) (node : ptr) (nd : blockNode) (v : UtxoViewpoint) (l : list TxIn) (lock : Z * Z) :
    result (Z * Z) :=
  match l with
  | [] => Ok lock
  | ti :: l => lock ← inputLock H node nd v lock ti; inputLocks H node nd v l lock
  end.

Definition calcSequenceLock (p : Params) (H : heap) (node : ptr) (nd : blockNode) (tx : MsgTx) (v : UtxoViewpoint)
    (mempool : bool) : result (Z * Z) :=
  let csvSoftforkActive := mempool || deploymentActive p H (bn_parent nd) DeploymentCSV in
  if negb ((2 <=? Wire.Version tx mod two32) && csvSoftforkActive) || IsCoinBaseTx tx then Ok (-1, -1)
  else inputLocks H node nd v (txIn tx) (-1, -1).

Definition SequenceLockActive (lock : Z * Z) (blockHeight medianTimePast : Z) : bool :=
  negb ((medianTimePast <=? lock.1) || (blockHeight <=? lock.2)).

(** What the coinbase may pay: the subsidy, the fees and the reserve. *)
Definition expectedSatoshiOut (p : Params) (height totalFees : Z) : Z :=
  wrap64 (wrap64 (CalcBlockSubsidy p height + totalFees) + PegReserveAt p height).

Definition checkCoinbase (p : Params) (height totalFees : Z) (txs : list MsgTx) : result unit :=
  match txs with
  | [] => Err (goPanic "index out of range")
  | cb :: _ =>
      ensure (sum64 (Value <$> txOut cb) <=? expectedSatoshiOut p height totalFees)
        (ruleError "coinbase transaction for block pays more than expected value");;
      if 0 <? PegReserveAt p height then checkPegReserveOutput p cb else Ok tt
  end.

(** The checks after the spending rules: sequence locks and scripts.  There
    are no checkpoints, so scripts always run. *)
Definition checkScriptRules `{ScriptEngine} (p : Params) (H : heap) (node : ptr) (nd : blockNode) (b : MsgBlock)
    (enforceBIP0016 enforceSegWit : bool) (v : UtxoViewpoint) : result unit :=
  let flags := addFlag enforceBIP0016 ScriptBip16 0 in
  let flags := addFlag ((3 <=? Version (bl_Header b)) && (BIP0066Height p <=? bn_height nd))
                 ScriptVerifyDERSignatures flags in
  let flags := addFlag ((4 <=? Version (bl_Header b)) && (BIP0065Height p <=? bn_height nd))
                 ScriptVerifyCheckLockTimeVerify flags in
  let csv := deploymentActive p H (bn_parent nd) DeploymentCSV in
  let flags := addFlag csv ScriptVerifyCheckSequenceVerify flags in
  (if csv then
     medianTime ← from_option_err (bn_parent nd ≫= CalcPastMedianTime H) (goPanic "nil pointer dereference");
     checkAll (fun tx =>
       lock ← calcSequenceLock p H node nd tx v false;
       ensure (SequenceLockActive lock (bn_height nd) medianTime)
         (ruleError "block contains transaction whose input sequence locks are not met")) (bl_Transactions b)
   else Ok tt);;
  let flags := addFlag enforceSegWit ScriptStrictMultiSig (addFlag enforceSegWit ScriptVerifyWitness flags) in
  let taproot := deploymentActive p H (bn_parent nd) DeploymentTaproot in
  let flags := addFlag taproot ScriptVerifyTaproot flags in
  checkBlockScripts (bl_Transactions b) v flags.

Definition checkConnectBlock `{Crypto} `{ScriptEngine} (p : Params) (H : heap) (node : ptr) (nd : blockNode)
    (b : MsgBlock) (v : UtxoViewpoint) : St utxoCache UtxoViewpoint :=
  let txs := bl_Transactions b in
  st_ensure (negb (bool_decide (bn_hash nd = GenesisHash p)))
    (ruleError "the coinbase for the genesis block is not spendable");;
  st_ensure (bool_decide (v_bestHash v = PrevBlock (bl_Header b)))
    (Errorf "inconsistent view when checking block connection");;
  v ← (if negb (isBIP0030Node nd) && (bn_height nd <? BIP0034Height p) then checkBIP0030 txs v else mret v);
  v ← fetchInputUtxos txs (bn_height nd) v;
  let enforceBIP0016 := Bip16Activation <=? bn_timestamp nd in
  let enforceSegWit := deploymentActive p H (bn_parent nd) DeploymentSegwit in
  st_lift (sigOpCosts v enforceBIP0016 enforceSegWit (imap pair txs) 0);;
  '(v, totalFees) ← st_lift (connectChecked p (bn_height nd) txs v 0);
  st_lift (checkCoinbase p (bn_height nd) totalFees txs);;
  st_lift (checkScriptRules p H node nd b enforceBIP0016 enforceSegWit v);;
  mret (SetBestHash v (bn_hash nd)).

(** ** The value of a set of coins *)

Definition valueOf (U : coins) : Z := sumZ (c_amount <$> (map_to_list U).*2).

Definition coins_ok (U : coins) : Prop := map_Forall (fun _ c => 0 ≤ c_amount c) U.

Lemma valueOf_insert U op c : U !! op = None → valueOf (<[op := c]> U) = c_amount c + valueOf U.
Proof.
  intros Hn. unfold valueOf.
  rewrite (sumZ_Permutation _ (c_amount <$> ((op, c) :: map_to_list U).*2)); [done|].
  do 2 apply fmap_Permutation. by apply map_to_list_insert.
Qed.

Lemma valueOf_delete U op c : U !! op = Some c → valueOf (delete op U) = valueOf U - c_amount c.
Proof.
  intros Hc. rewrite <- (insert_delete_id U op c) at 2 by done.
  rewrite valueOf_insert by apply lookup_delete_eq. lia.
Qed.

Lemma valueOf_put U op c :
  coins_ok U → valueOf (<[op := c]> U) ≤ c_amount c + valueOf U.
Proof.
  intros Hok. destruct (U !! op) as [c'|] eqn:E; [|by rewrite valueOf_insert].
  rewrite <- insert_delete_eq, valueOf_insert by apply lookup_delete_eq.
  rewrite (valueOf_delete U op c' E). pose proof (Hok op c' E) as Hp. simpl in Hp. lia.
Qed.

Lemma coins_ok_delete U op : coins_ok U → coins_ok (delete op U).
Proof. intros Hok. by apply map_Forall_delete. Qed.

Lemma coins_ok_put U op c : coins_ok U → 0 ≤ c_amount c → coins_ok (<[op := c]> U).
Proof. intros Hok Hc. by apply map_Forall_insert_2. Qed.

(** Spending removes exactly the value of the inputs. *)
Lemma spendAll_value ops U :
  coins_ok U → canSpend ops U →
  coins_ok (spendAll ops U) ∧ valueOf (spendAll ops U) = valueOf U - sumZ (c_amount <$> omap (fun op => U !! op) ops).
Proof.
  revert U; induction ops as [|op ops IH]; intros U Hok Hc; [simpl; split; [done|lia]|].
  destruct (canSpend_cons _ _ _ Hc) as (c&HU&Hc'). destruct Hc as [[Hn _]%NoDup_cons _].
  destruct (IH (delete op U)) as [Hok' Ev]; [by apply coins_ok_delete|done|].
  split; [done|]. cbn [spendAll foldl]. fold (spendAll ops (delete op U)).
  rewrite Ev, (valueOf_delete U op c HU), omap_delete by done.
  cbn [omap list_omap]. rewrite HU, fmap_cons, sumZ_cons. unfold omap. lia.
Qed.

(** Outputs add at most their value: some cannot be spent. *)
Lemma addOuts_value `{CR : Crypto} tx h U :
  coins_ok U → Forall (fun o => 0 ≤ Value o) (txOut tx) →
  coins_ok (addOuts tx h U) ∧ valueOf (addOuts tx h U) ≤ valueOf U + sumZ (Value <$> txOut tx).
Proof.
  intros Hok Hpos. unfold addOuts.
  assert ((outsOf tx).*2 = txOut tx) as E.
  { apply list_eq. intros i. unfold outsOf. rewrite list_lookup_fmap, list_lookup_imap.
    by destruct (txOut tx !! i). }
  rewrite <- E in Hpos |- *. clear E. revert U Hok.
  induction (outsOf tx) as [|[op o] l IH]; intros U Hok; [simpl; split; [done|lia]|].
  rewrite fmap_cons in Hpos. rewrite !fmap_cons. apply Forall_cons in Hpos as [Ho Hpos].
  rewrite sumZ_cons. cbn [foldl snd] in *.
  assert (coins_ok (addOut (IsCoinBaseTx tx) h U (op, o)) ∧
          valueOf (addOut (IsCoinBaseTx tx) h U (op, o)) ≤ valueOf U + Value o) as [Hok' Hv].
  { unfold addOut. simpl. destruct (IsUnspendable (PkScript o)); [split; [done|lia]|].
    split; [by apply coins_ok_put|].
    pose proof (valueOf_put U op (mkCoin (Value o) (PkScript o) h (IsCoinBaseTx tx)) Hok) as Hp.
    simpl in Hp. lia. }
  destruct (IH Hpos _ Hok') as [Hok'' Hv'']. split; [done|]. lia.
Qed.

(** ** Sanity gives ranges *)

Lemma checkOutputs_Ok l t u :
  checkOutputs l t = Ok u → 0 ≤ t ≤ MaxSatoshi →
  Forall (fun o => 0 ≤ Value o) l ∧ t + sumZ (Value <$> l) ≤ MaxSatoshi ∧ 0 ≤ sumZ (Value <$> l).
Proof.
  revert t; induction l as [|o l IH]; intros t E Ht; [simpl; split_and!; [done|lia..]|].
  simpl in E. repeat (apply bind_Ok in E as ([]&Eb&E); apply ensure_Ok, Z.leb_le in Eb as ?; clear Eb).
  assert (wrap64 (t + Value o) = t + Value o) as Ew.
  { apply wrap64_small. unfold i64_ok, two63, MaxSatoshi in *. lia. }
  rewrite Ew in *. destruct (IH _ E) as (?&?&?); [lia|].
  rewrite fmap_cons, sumZ_cons. split_and!; [by constructor|lia..].
Qed.

Record tx_sane (tx : MsgTx) : Prop := {
  ts_in : txIn tx ≠ [];
  ts_nodup : NoDup (prevOuts tx);
  ts_pos : Forall (fun o => 0 ≤ Value o) (txOut tx);
  ts_total : 0 ≤ sumZ (Value <$> txOut tx) ≤ MaxSatoshi;
  ts_null : IsCoinBaseTx tx = false → nullOut ∉ prevOuts tx }.

Lemma CheckTransactionSanity_Ok tx u : CheckTransactionSanity tx = Ok u → tx_sane tx.
Proof.
  unfold CheckTransactionSanity. intros E. apply bind_Ok in E as ([]&E1&E). apply ensure_Ok in E1.
  apply bind_Ok in E as ([]&_&E). apply bind_Ok in E as ([]&_&E). apply bind_Ok in E as ([]&E2&E).
  apply bind_Ok in E as ([]&E3&E). apply ensure_Ok, bool_decide_eq_true in E3.
  destruct (checkOutputs_Ok _ _ _ E2) as (?&?&?); [unfold MaxSatoshi; lia|]. split; [|done..| |].
  - intros E0. by rewrite E0 in E1.
  - lia.
  - intros Ec. rewrite Ec in E. by apply ensure_Ok, bool_decide_eq_true in E.
Qed.

Lemma checkAll_Ok {A} (f : A → result unit) l u : checkAll f l = Ok u → Forall (fun x => f x = Ok tt) l.
Proof.
  induction l as [|x l IH]; [done|]. simpl. intros E. apply bind_Ok in E as ([]&E1&E).
  constructor; [done|]. by apply IH.
Qed.

(** ** Loading the inputs of a block *)

Lemma fold_setEntry l v op :
  v_entries (foldl (fun v '(op, e) => setEntry v op e) v l) !! op =
  match list_find (fun x : OutPoint * option UtxoEntry => x.1 = op) (reverse l) with
  | Some (_, (_, e)) => Some e
  | None => v_entries v !! op
  end.
Proof.
  induction l as [|[op' e] l IH] using rev_ind; [done|].
  rewrite foldl_app, reverse_app. cbn [foldl reverse rev_append]. simpl.
  destruct (decide (op' = op)) as [->|Hne].
  - by rewrite lookup_insert_eq.
  - rewrite lookup_insert_ne, IH by done. by destruct (list_find _ (reverse l)) as [[? []]|].
Qed.

(** Fetched outpoints hold what the cache does; the others are untouched. *)
Lemma fetchUtxosFromCache_spec ops v s U K :
  reps s U K → ∃ r s', fetchUtxosFromCache ops v s = (r, s') ∧ reps s' U K ∧ same_store s s' ∧
    (r = Err dbError ∨ ∃ v', r = Ok v' ∧ v_bestHash v' = v_bestHash v ∧
       ∀ op, if decide (op ∈ ops) then unspent (LookupEntry v' op) = U !! op
             else v_entries v' !! op = v_entries v !! op).
Proof.
  intros HR. unfold fetchUtxosFromCache. destruct ops as [|op0 ops].
  { eexists _, _. split_and!; [done..|]. right. eexists. split_and!; [done..|].
    intros op. by rewrite decide_False by apply not_elem_of_nil. }
  set (l := op0 :: ops). rewrite st_bind_run.
  destruct (fetchEntries_spec l s U K HR) as (r&s1&->&HR1&Hs&_&[->|[-> _]]);
    [by eexists _, _; split_and!; [done..|left]|].
  eexists _, _. split_and!; [done..|]. right. eexists. split_and!; [done|..].
  { generalize (zip l (entryAt s <$> l)). intros z. revert v. induction z as [|[] z IH]; intros v; [done|].
    simpl. by rewrite IH. }
  intros op. unfold LookupEntry. rewrite fold_setEntry.
  assert (Hz : ∀ x, x ∈ reverse (zip l (entryAt s <$> l)) ↔ x.1 ∈ l ∧ x.2 = entryAt s x.1).
  { intros [op' e]. rewrite elem_of_reverse. clear. induction l as [|y l IH]; simpl; [set_solver|].
    rewrite !elem_of_cons, IH. simpl. naive_solver. }
  destruct (list_find _ _) as [[i [op' e]]|] eqn:Ef.
  - apply list_find_Some in Ef as (Hi&Eop&_). simpl in Eop. subst op'.
    apply list_elem_of_lookup_2, Hz in Hi as [Hin He]. simpl in *. subst e.
    rewrite decide_True by done. cbn. apply HR.
  - apply list_find_None in Ef. destruct (decide (op ∈ l)) as [Hin|]; [|done].
    assert ((op, entryAt s op) ∈ reverse (zip l (entryAt s <$> l))) as Hx by by apply Hz.
    by apply (proj1 (Forall_forall _ _) Ef) in Hx.
Qed.

Section inputs.
Context `{CR : Crypto} (txs : list MsgTx) (h : Z).

Lemma inFlightFrom_Some i l hash j :
  inFlightFrom i l hash = Some j → ∃ tx, (i ≤ j)%nat ∧ l !! (j - i)%nat = Some tx ∧ TxHash tx = hash.
Proof.
  revert i; induction l as [|tx l IH]; intros i E; [done|]. simpl in E.
  destruct (inFlightFrom (S i) l hash) as [j'|] eqn:Ej.
  - simplify_eq. destruct (IH _ Ej) as (tx'&?&?&?). exists tx'. split_and!; [lia| |done].
    by replace (j - i)%nat with (S (j - S i)) by lia.
  - case_bool_decide; [|done]. simplify_eq. exists tx. by rewrite Nat.sub_diag.
Qed.

Lemma inFlightFrom_last i l k tx :
  l !! k = Some tx → ∃ j, inFlightFrom i l (TxHash tx) = Some j ∧ (i + k ≤ j)%nat.
Proof.
  revert i k; induction l as [|tx' l IH]; intros i k Hk; [done|]. simpl. destruct k as [|k].
  - simpl in Hk. simplify_eq. destruct (inFlightFrom (S i) l (TxHash tx)) as [j|] eqn:Ej.
    + destruct (inFlightFrom_Some _ _ _ _ Ej) as (_&?&_). exists j. split; [done|lia].
    + rewrite bool_decide_eq_true_2 by done. exists i. split; [done|lia].
  - destruct (IH (S i) k Hk) as (j&->&?). exists j. split; [done|lia].
Qed.

Lemma inFlight_Some hash j :
  inFlight txs hash = Some j → ∃ tx, txs !! j = Some tx ∧ TxHash tx = hash.
Proof. intros E. destruct (inFlightFrom_Some _ _ _ _ E) as (tx&_&?&?). rewrite Nat.sub_0_r in *. eauto. Qed.

(** [op] is an output of [tx] that can be spent. *)
Definition makes (tx : MsgTx) (op : OutPoint) : Prop :=
  ∃ o, (op, o) ∈ outsOf tx ∧ IsUnspendable (PkScript o) = false.

(** [op] is an output of the transaction the block has last under its hash,
    at position [i] or before. *)
Definition inBlock (i : nat) (op : OutPoint) : Prop :=
  ∃ j tx, inFlight txs (Hash op) = Some j ∧ (j ≤ i)%nat ∧ txs !! j = Some tx ∧ makes tx op.

Lemma AddTxOuts_entries tx v op :
  is_Some (v_entries (AddTxOuts tx h v) !! op) → is_Some (v_entries v !! op) ∨ makes tx op.
Proof.
  unfold AddTxOuts, makes. generalize (IsCoinBaseTx tx). intros cb. revert v.
  induction (outsOf tx) as [|[op' o] l IH]; intros v Hs; [by left|]. simpl in Hs.
  apply IH in Hs as [Hs|(o'&?&?)]; [|right; exists o'; set_solver].
  unfold view_addTxOut in Hs. destruct (IsUnspendable (PkScript o)) eqn:Eu; [by left|].
  destruct (decide (op' = op)) as [->|].
  - right. exists o. set_solver.
  - simpl in Hs. rewrite lookup_insert_ne in Hs by done. by left.
Qed.
(** The view while inputs are gathered holds outputs of earlier transactions
    only. *)
Definition loading (i : nat) (acc : UtxoViewpoint * list OutPoint) : Prop :=
  ∀ op, is_Some (v_entries acc.1 !! op) → inBlock i op.

(** An input that is not an output of an earlier transaction is fetched. *)
Definition mustFetch (i : nat) (op : OutPoint) : Prop :=
  ∀ j, inFlight txs (Hash op) = Some j → (i < j)%nat.

Lemma makes_hash tx op : makes tx op → Hash op = TxHash tx.
Proof. intros (o&(i&?&[= -> ->]&_)%elem_of_lookup_imap&_). done. Qed.

Lemma needInput_spec i acc op :
  loading i acc →
  loading i (needInput txs h i acc op) ∧ acc.2 ⊆ (needInput txs h i acc op).2 ∧
  (mustFetch i op → op ∈ (needInput txs h i acc op).2).
Proof.
  intros HL. destruct acc as [v needed]. unfold needInput.
  assert (Hfetch : (∀ j, inFlight txs (Hash op) = Some j → (i < j)%nat) →
    let acc' := if bool_decide (v_entries v !! op = None) then (v, needed ++ [op]) else (v, needed) in
    loading i acc' ∧ needed ⊆ acc'.2 ∧ op ∈ acc'.2).
  { intros Hm. case_bool_decide as Hn; simpl; [split_and!; [done|set_solver..]|].
    destruct (v_entries v !! op) eqn:E; [|done].
    destruct (HL op) as (j&_&Ej&Hle&_); [by eexists|]. specialize (Hm j Ej). lia. }
  destruct (inFlight txs (Hash op)) as [j|] eqn:Ej; [|destruct Hfetch as (?&?&?); naive_solver].
  destruct (Nat.leb_spec j i) as [Hle|Hlt];
    [|destruct Hfetch as (?&?&?); [intros ? [= <-]; lia|naive_solver]].
  destruct (inFlight_Some _ _ Ej) as (tx&Htx&Eh). rewrite Htx. simpl. split_and!; [|done|].
  - intros op' [Hs|Hm]%AddTxOuts_entries; [by apply HL|].
    exists j, tx. split_and!; [|done..]. by rewrite (makes_hash _ _ Hm), Eh.
  - intros Hm. specialize (Hm j Ej). lia.
Qed.

Lemma needInputs_spec i ops acc :
  loading i acc →
  let acc' := foldl (needInput txs h i) acc ops in
  loading i acc' ∧ acc.2 ⊆ acc'.2 ∧ ∀ op, op ∈ ops → mustFetch i op → op ∈ acc'.2.
Proof.
  revert acc; induction ops as [|op ops IH]; intros acc HL; simpl; [split_and!; [done|done|set_solver]|].
  destruct (needInput_spec i acc op HL) as (HL'&Hs&Hm). destruct (IH _ HL') as (HL''&Hs'&Hm').
  split_and!; [done|set_solver|]. intros op' [->|Hin]%elem_of_cons Hmf; [set_solver|eauto].
Qed.

Lemma loading_mono i i' acc : (i ≤ i')%nat → loading i acc → loading i' acc.
Proof. intros Hi HL op Hs. destruct (HL op Hs) as (j&tx&?&?&?&?). exists j, tx. split_and!; [done|lia|done..]. Qed.

Lemma gather_spec l k acc :
  loading k acc →
  let acc' := foldl (fun acc '(i, tx) => foldl (needInput txs h i) acc (prevOuts tx)) acc
                (imap (fun i tx => (k + i, tx)%nat) l) in
  (∃ i, loading i acc') ∧ acc.2 ⊆ acc'.2 ∧
  ∀ i tx op, l !! i = Some tx → op ∈ prevOuts tx → mustFetch (k + i) op → op ∈ acc'.2.
Proof.
  revert k acc; induction l as [|tx l IH]; intros k acc HL; simpl; [split_and!; [by eexists|done|done]|].
  rewrite Nat.add_0_r. destruct (needInputs_spec k (prevOuts tx) acc HL) as (HL'&Hs&Hm).
  apply (loading_mono k (S k)) in HL'; [|lia]. destruct (IH (S k) _ HL') as (HL''&Hs'&Hm').
  assert (imap ((λ i tx, (k + i, tx)%nat) ∘ S) l = imap (λ i tx, (S k + i, tx)%nat) l) as ->.
  { apply imap_ext. intros i x _. simpl. f_equal. lia. }
  split_and!; [done|set_solver|]. intros [|i] tx' op Hi Hop Hmf; simpl in Hi.
  - simplify_eq. rewrite Nat.add_0_r in Hmf. set_solver.
  - apply (Hm' i tx'); [done..|]. by replace (S k + i)%nat with (k + S i)%nat by lia.
Qed.

Lemma findInputs_spec best :
  let '(v, needed) := findInputsToFetch txs h (NewUtxoViewpoint best) in
  (∃ i, loading i (v, needed)) ∧
  ∀ i tx op, tail txs !! i = Some tx → op ∈ prevOuts tx → mustFetch i op → op ∈ needed.
Proof.
  unfold findInputsToFetch. destruct (gather_spec (tail txs) 0 (NewUtxoViewpoint best, [])) as (HL&_&Hm).
  { intros op Hs. simpl in Hs. rewrite lookup_empty in Hs. by destruct Hs. }
  assert (imap (λ i tx, (0 + i, tx)%nat) (tail txs) = imap pair (tail txs)) as E by by apply imap_ext.
  rewrite E in *. destruct (foldl _ _ _) as [v needed]. simpl in *. split; [done|eauto].
Qed.
End inputs.

(** ** The checks on the view are checks on the ledger *)

Lemma checkInputs_Ok p h v l t total :
  checkInputs p h v l t = Ok total → 0 ≤ t ≤ MaxSatoshi →
  ∃ cs, Forall2 (fun ti c => unspent (LookupEntry v (PreviousOutPoint ti)) = Some c) l cs ∧
    total = t + sumZ (c_amount <$> cs) ∧ t ≤ total ≤ MaxSatoshi.
Proof.
  revert t; induction l as [|ti l IH]; intros t E Ht.
  { simpl in E. simplify_eq. exists []. split_and!; [constructor|simpl; lia|lia..]. }
  simpl in E. destruct (LookupEntry v (PreviousOutPoint ti)) as [e|] eqn:Ee; [|done].
  apply bind_Ok in E as ([]&E1&E). apply ensure_Ok, negb_true_iff in E1.
  apply bind_Ok in E as ([]&_&E). apply bind_Ok in E as ([]&E2&E). apply ensure_Ok, Z.leb_le in E2.
  apply bind_Ok in E as ([]&E3&E). apply ensure_Ok, Z.leb_le in E3.
  apply bind_Ok in E as ([]&E4&E). apply ensure_Ok, andb_prop in E4 as [_ E5%Z.leb_le].
  assert (wrap64 (t + ue_amount e) = t + ue_amount e) as Ew.
  { apply wrap64_small. unfold i64_ok, two63, MaxSatoshi in *. lia. }
  rewrite Ew in *. destruct (IH _ E) as (cs&Hcs&Et&Hb); [lia|].
  exists (coinOf e :: cs). split_and!; [|rewrite fmap_cons, sumZ_cons; simpl; lia|lia..].
  constructor; [|done]. unfold unspent. by rewrite Ee, E1.
Qed.

Lemma view_spend_spec l v v' cs :
  view_spend l v = Ok (v', cs) →
  ∀ op, (op ∈ PreviousOutPoint <$> l → unspent (LookupEntry v' op) = None) ∧
        (op ∉ PreviousOutPoint <$> l → LookupEntry v' op = LookupEntry v op).
Proof.
  revert v v' cs; induction l as [|ti l IH]; intros v v' cs E op; simpl in E.
  { simplify_eq. split; [set_solver|done]. }
  destruct (LookupEntry v (PreviousOutPoint ti)) as [e|] eqn:Ee; [|done].
  apply bind_Ok in E as ([v1 cs1]&E1&E). simplify_eq. destruct (IH _ _ _ E1 op) as [Hin Hout].
  rewrite fmap_cons. split.
  - intros [->|?]%elem_of_cons; [|by apply Hin].
    destruct (decide (PreviousOutPoint ti ∈ PreviousOutPoint <$> l)); [by apply Hin|].
    rewrite Hout by done. unfold LookupEntry, setEntry. simpl. rewrite lookup_insert_eq. simpl.
    by destruct (Spend_spec e) as [-> _].
  - intros [Hne Hn]%not_elem_of_cons. rewrite Hout by done. unfold LookupEntry, setEntry. simpl.
    by rewrite lookup_insert_ne.
Qed.

(** Outputs appear in the view as they do in the ledger. *)
Lemma AddTxOuts_spec `{CR : Crypto} tx h v U op :
  (LookupEntry (AddTxOuts tx h v) op = LookupEntry v op ∧ addOuts tx h U !! op = U !! op ∧ ¬ makes tx op) ∨
  unspent (LookupEntry (AddTxOuts tx h v) op) = addOuts tx h U !! op.
Proof.
  unfold AddTxOuts, addOuts, makes. generalize (IsCoinBaseTx tx). intros cb. revert v U.
  induction (outsOf tx) as [|[op' o] l IH]; intros v U; [left; split_and!; [done..|]; set_solver|].
  cbn [foldl]. destruct (IH (view_addTxOut op' o cb h v) (addOut cb h U (op', o))) as [(->&->&Hno)|?]; [|by right].
  unfold view_addTxOut, addOut. cbn [fst snd]. destruct (IsUnspendable (PkScript o)) eqn:Eu.
  { left. split_and!; [done..|]. intros (o'&[[= -> ->]|?]%elem_of_cons&?); [congruence|]. apply Hno. eauto. }
  unfold LookupEntry, setEntry. cbn [v_entries]. destruct (decide (op' = op)) as [->|Hne].
  - right. rewrite !lookup_insert_eq. cbn. destruct (newEntry_spec o cb h) as (->&_&_&->). done.
  - left. rewrite !lookup_insert_ne by done. split_and!; [done..|].
    intros (o'&[[= -> ->]|?]%elem_of_cons&?); [done|]. apply Hno. eauto.
Qed.

Section connect.
Context `{CR : Crypto} (p : Params) (txs : list MsgTx) (h : Z) (needed : list OutPoint).
Hypothesis Hsane : Forall tx_sane txs.
Hypothesis Hfirst : ∀ cb, txs !! 0%nat = Some cb → IsCoinBaseTx cb = true.
Hypothesis Hneeded : ∀ i tx op, tail txs !! i = Some tx → op ∈ prevOuts tx → mustFetch txs i op → op ∈ needed.

(** [op] is an output the block makes at position [n] or after. *)
Definition later (n : nat) (op : OutPoint) : Prop :=
  ∃ j tx, (n ≤ j)%nat ∧ txs !! j = Some tx ∧ makes tx op.

(** What the view shows as unspent is a coin of the ledger, or an output
    loaded ahead of the transaction that makes it. *)
Definition sound (n : nat) (v : UtxoViewpoint) (U : coins) : Prop :=
  ∀ op c, unspent (LookupEntry v op) = Some c → U !! op = Some c ∨ (op ∉ needed ∧ later n op).

Lemma sound_input n tx v U op c :
  sound n v U → txs !! n = Some tx → op ∈ spends tx →
  unspent (LookupEntry v op) = Some c → U !! op = Some c.
Proof.
  intros Hs Htx Hop Hc. destruct (Hs op c Hc) as [?|(Hn&j&tx'&Hj&Htx'&Ho)]; [done|].
  unfold spends in Hop. destruct (IsCoinBaseTx tx) eqn:Ecb; [set_solver|].
  destruct n as [|i]; [by rewrite (Hfirst tx Htx) in Ecb|]. destruct Hn.
  apply (Hneeded i tx op); [by destruct txs|done|]. intros j' Ej'.
  rewrite (makes_hash _ _ Ho) in Ej'. destruct (inFlightFrom_last 0 txs j tx' Htx') as (j2&E2&?).
  unfold inFlight in Ej'. simplify_eq. lia.
Qed.

Lemma sound_step n tx v v' cs U :
  sound n v U → txs !! n = Some tx → view_connectTransaction tx h v = Ok (v', cs) →
  sound (S n) v' (applyTx h U tx).
Proof.
  intros Hs Htx E.
  assert (∃ v1, v' = AddTxOuts tx h v1 ∧ ∀ op c, unspent (LookupEntry v1 op) = Some c →
            op ∉ spends tx ∧ unspent (LookupEntry v op) = Some c) as (v1&->&Hv1).
  { unfold view_connectTransaction, spends in *. destruct (IsCoinBaseTx tx).
    - simplify_eq. exists v. split; [done|]. intros op c ?. split; [set_solver|done].
    - apply bind_Ok in E as ([v1 cs1]&E1&E). simplify_eq. exists v1. split; [done|]. intros op c Hc.
      destruct (view_spend_spec _ _ _ _ E1 op) as [Hin Hout].
      destruct (decide (op ∈ prevOuts tx)) as [Hi|Hi]; [by rewrite Hin in Hc|]. by rewrite <- Hout. }
  intros op c Hc. unfold applyTx.
  destruct (AddTxOuts_spec tx h v1 (spendAll (spends tx) U) op) as [(E1&->&Hno)|E1]; [|left; congruence].
  rewrite E1 in Hc. destruct (Hv1 op c Hc) as [Hn Hc']. destruct (Hs op c Hc') as [HU|(?&j&tx'&?&?&?)].
  - left. clear -HU Hn. revert U HU Hn. induction (spends tx) as [|op' l IH]; intros U HU Hn; [done|].
    apply not_elem_of_cons in Hn as [? Hn]. apply IH; [|done]. by rewrite lookup_delete_ne.
  - right. split; [done|]. exists j, tx'. destruct (decide (j = n)) as [->|]; [by simplify_eq|].
    split_and!; [lia|done..].
Qed.
Lemma inputs_found l v (U : coins) cs :
  Forall2 (fun ti c => unspent (LookupEntry v (PreviousOutPoint ti)) = Some c) l cs →
  (∀ op c, op ∈ PreviousOutPoint <$> l → unspent (LookupEntry v op) = Some c → U !! op = Some c) →
  omap (fun op => U !! op) (PreviousOutPoint <$> l) = cs ∧
  Forall (fun op => is_Some (U !! op)) (PreviousOutPoint <$> l).
Proof.
  induction 1 as [|ti c l cs Hc Hcs IH]; intros Hin; [done|]. rewrite fmap_cons in *.
  pose proof (Hin _ c (list_elem_of_here _ _) Hc) as HU.
  destruct IH as [E Hf]; [intros op c' ?; apply Hin; by right|].
  split; [|constructor; [by eexists|done]]. cbn [omap list_omap]. rewrite HU. f_equal. exact E.
Qed.

(** A transaction the rules let through spends coins that are there, and
    leaves the ledger with less value by its fee. *)
Lemma checked_tx n tx v U fee :
  sound n v U → txs !! n = Some tx → CheckTransactionInputs p tx h v = Ok fee → coins_ok U →
  canSpend (spends tx) U ∧ coins_ok (applyTx h U tx) ∧
  (if IsCoinBaseTx tx then fee = 0 ∧ valueOf (applyTx h U tx) ≤ valueOf U + sumZ (Value <$> txOut tx)
   else 0 ≤ fee ≤ MaxSatoshi ∧ valueOf (applyTx h U tx) ≤ valueOf U - fee).
Proof.
  intros Hs Htx E Hok. destruct (proj1 (Forall_lookup _ _) Hsane n tx Htx) as [_ Hnd Hpos Htot _].
  pose proof (fun op c => sound_input n tx v U op c Hs Htx) as Hin.
  unfold CheckTransactionInputs, applyTx, spends in *. destruct (IsCoinBaseTx tx) eqn:Ecb.
  - simplify_eq. destruct (addOuts_value tx h U Hok Hpos). split; [split; by constructor|]. by split_and!.
  - apply bind_Ok in E as (total&Et&E). apply bind_Ok in E as ([]&Ele%ensure_Ok%Z.leb_le&E).
    destruct (checkInputs_Ok _ _ _ _ _ _ Et) as (cs&Hcs&->&Hb); [unfold MaxSatoshi; lia|].
    destruct (inputs_found _ _ _ _ Hcs Hin) as [Eo Hf].
    assert (Hcan : canSpend (prevOuts tx) U) by by split.
    destruct (spendAll_value _ _ Hok Hcan) as [Hok' Ev]. unfold prevOuts in Ev at 2. rewrite Eo in Ev.
    destruct (addOuts_value tx h _ Hok' Hpos) as [Hok'' Ev'].
    rewrite sum64_small in * by (unfold i64_ok, two63, MaxSatoshi in *; lia).
    rewrite wrap64_small in E by (unfold i64_ok, two63, MaxSatoshi in *; lia). simplify_eq.
    split_and!; [done..|lia|lia|lia].
Qed.

Definition noCoinbase (l : list MsgTx) : Prop := Forall (fun tx => IsCoinBaseTx tx = false) l.

Lemma connectChecked_Ok n l v U fees v' fees' :
  drop n txs = l → noCoinbase (if (n =? 0)%nat then tail l else l) →
  sound n v U → coins_ok U → 0 ≤ fees < two63 →
  connectChecked p h l v fees = Ok (v', fees') →
  canApply h U l ∧ coins_ok (applyBlock h U l) ∧ fees ≤ fees' < two63 ∧
  valueOf (applyBlock h U l) ≤
    valueOf U - (fees' - fees) +
    (if (n =? 0)%nat then match l with cb :: _ => sumZ (Value <$> txOut cb) | [] => 0 end else 0).
Proof.
  revert n v U fees; induction l as [|tx l IH]; intros n v U fees El Hnc Hs Hok Hfees E.
  { simpl in *. simplify_eq. split_and!; [done..|lia|lia|]. destruct (n =? 0)%nat; lia. }
  assert (Htx : txs !! n = Some tx).
  { rewrite <- (Nat.add_0_r n), <- lookup_drop, El. done. }
  assert (El' : drop (S n) txs = l).
  { rewrite <- Nat.add_1_r, <- drop_drop, El. done. }
  simpl in E. apply bind_Ok in E as (fee&E1&E). apply bind_Ok in E as ([]&E2&E).
  apply ensure_Ok, negb_true_iff, Z.ltb_ge in E2. apply bind_Ok in E as ([v1 cs]&E3&E).
  destruct (checked_tx n tx v U fee Hs Htx E1 Hok) as (Hcan&Hok'&Hv).
  pose proof (sound_step n tx v v1 cs U Hs Htx E3) as Hs'.
  assert (Hfee : 0 ≤ fee ≤ MaxSatoshi).
  { destruct (IsCoinBaseTx tx); [destruct Hv as [-> _]; unfold MaxSatoshi; lia|by destruct Hv]. }
  assert (Ew : wrap64 (fees + fee) = fees + fee ∧ fees + fee < two63).
  { destruct (decide (fees + fee < two63)) as [|Hge]; [split; [apply wrap64_small; split; unfold two63 in *; lia|done]|].
    exfalso. unfold wrap64 in E2. unfold two63, two64, MaxSatoshi in *.
    assert ((fees + fee + 9223372036854775808) mod 18446744073709551616 =
            fees + fee + 9223372036854775808 - 18446744073709551616) as Em.
    { symmetry. apply (Z.mod_unique_pos _ _ 1); lia. }
    lia. }
  destruct Ew as [Ew Hlt]. rewrite Ew in *.
  destruct (IH (S n) v1 (applyTx h U tx) (fees + fee) El') as (Hca&Hok''&Hf&Hval); [|done..|lia|done|].
  { simpl. destruct (n =? 0)%nat; [done|by apply Forall_cons in Hnc as [_ ?]]. }
  change ((S n =? 0)%nat) with false in Hval. cbv iota in Hval.
  split_and!; [done|done|lia|lia|]. change (applyBlock h U (tx :: l)) with (applyBlock h (applyTx h U tx) l).
  destruct (Nat.eqb_spec n 0) as [->|].
  - rewrite (Hfirst tx Htx) in Hv. lia.
  - apply Forall_cons in Hnc as [Ecb _]. rewrite Ecb in Hv. lia.
Qed.
End connect.

(** ** Blocks *)

Record block_sane `{Crypto} (b : MsgBlock) : Prop := {
  bs_first : ∃ cb rest, bl_Transactions b = cb :: rest ∧ IsCoinBaseTx cb = true ∧ noCoinbase rest;
  bs_txs : Forall tx_sane (bl_Transactions b);
  bs_nodup : NoDup (TxHash <$> bl_Transactions b);
  bs_root : MerkleRoot (bl_Header b) = CalcMerkleRoot (bl_Transactions b) false }.

Lemma checkBlockSanity_Ok `{CR : Crypto} b now u : checkBlockSanity b now = Ok u → block_sane b.
Proof.
  unfold checkBlockSanity. intros E. repeat (apply bind_Ok in E as ([]&?&E)).
  repeat match goal with H : ensure _ _ = Ok _ |- _ => apply ensure_Ok in H end.
  split.
  - destruct (bl_Transactions b) as [|cb rest]; [done|]. exists cb, rest. split_and!; [done..|].
    apply Forall_forall. intros tx Htx. apply negb_true_iff.
    match goal with H : forallb _ _ = true |- _ => rewrite forallb_forall in H; apply H end.
    by apply list_elem_of_In.
  - match goal with H : checkAll _ _ = Ok _ |- _ => apply checkAll_Ok in H as Hall end.
    eapply Forall_impl; [exact Hall|]. intros tx Htx. exact (CheckTransactionSanity_Ok tx tt Htx).
  - by match goal with H : bool_decide (NoDup _) = true |- _ => apply bool_decide_eq_true in H end.
  - by match goal with H : bool_decide (MerkleRoot _ = _) = true |- _ => apply bool_decide_eq_true in H end.
Qed.

Definition reserve_ok (p : Params) : Prop := ∀ r, p_PegReserve p = Some r → 0 ≤ pr_Amount r.

Lemma PegReserveAt_nonneg p h : reserve_ok p → 0 ≤ PegReserveAt p h.
Proof.
  intros Hr. unfold PegReserveAt. destruct (p_PegReserve p) as [r|] eqn:E; [|lia].
  destruct (_ || _); [lia|by apply Hr].
Qed.

Lemma CalcBlockSubsidy_nonneg p h : 0 ≤ CalcBlockSubsidy p h.
Proof.
  unfold CalcBlockSubsidy. destruct (p_NoBlockSubsidy p); [lia|].
  destruct (_ =? 0); [done|]. by apply Z.shiftr_nonneg.
Qed.

Lemma wrap64_le z : - two63 ≤ z → wrap64 z ≤ z.
Proof.
  intros Hz. unfold wrap64. pose proof (Z.mod_le (z + two63) two64). unfold two63, two64 in *. lia.
Qed.

(** The reserve, where the block makes it, is paid to its script. *)
Definition paysReserve (p : Params) (height : Z) (txs : list MsgTx) : Prop :=
  0 < PegReserveAt p height → ∃ r cb o, p_PegReserve p = Some r ∧ head txs = Some cb ∧ o ∈ txOut cb ∧
    Value o = pr_Amount r ∧ PkScript o = pr_PkScript r.

Lemma checkCoinbase_Ok p height fees cb rest u :
  checkCoinbase p height fees (cb :: rest) = Ok u → reserve_ok p → 0 ≤ fees → tx_sane cb →
  sumZ (Value <$> txOut cb) ≤ CalcBlockSubsidy p height + fees + PegReserveAt p height ∧
  paysReserve p height (cb :: rest).
Proof.
  intros E Hr Hf [_ _ _ Htot _]. unfold checkCoinbase in E.
  apply bind_Ok in E as ([]&Ele%ensure_Ok%Z.leb_le&E).
  rewrite sum64_small in Ele by (unfold i64_ok, two63, MaxSatoshi in *; lia).
  pose proof (CalcBlockSubsidy_nonneg p height). pose proof (PegReserveAt_nonneg p height Hr).
  unfold expectedSatoshiOut in Ele. split.
  - pose proof (wrap64_ok (CalcBlockSubsidy p height + fees)) as Hok.
    pose proof (wrap64_le (CalcBlockSubsidy p height + fees)).
    pose proof (wrap64_le (wrap64 (CalcBlockSubsidy p height + fees) + PegReserveAt p height)).
    unfold i64_ok, two63 in *. lia.
  - intros Hpos. rewrite (proj2 (Z.ltb_lt _ _) Hpos) in E. unfold checkPegReserveOutput in E.
    destruct (p_PegReserve p) as [r|] eqn:Er; [|unfold PegReserveAt in Hpos; rewrite Er in Hpos; lia].
    apply ensure_Ok, existsb_exists in E as (o&Ho&[Ev%Z.eqb_eq Es%bool_decide_eq_true]%andb_prop).
    exists r, cb, o. split_and!; [done..|by apply list_elem_of_In|done|done].
Qed.

(** What a block that may be connected does to the coins. *)
Record connectable `{Crypto} (p : Params) (height : Z) (txs : list MsgTx) (U : coins) : Prop := {
  cn_spend : canApply height U txs;
  cn_ok : coins_ok (applyBlock height U txs);
  cn_value : valueOf (applyBlock height U txs) ≤
             valueOf U + CalcBlockSubsidy p height + PegReserveAt p height;
  cn_reserve : paysReserve p height txs }.

(** A loaded view is sound for the coins it was loaded from. *)
Lemma loaded_sound `{CR : Crypto} txs h (U : coins) best v needed v' :
  findInputsToFetch txs h (NewUtxoViewpoint best) = (v, needed) →
  (∀ op, if decide (op ∈ needed) then unspent (LookupEntry v' op) = U !! op
         else v_entries v' !! op = v_entries v !! op) →
  sound txs needed 0 v' U.
Proof.
  intros E Hv op c Hc. pose proof (findInputs_spec txs h best) as Hf. rewrite E in Hf.
  destruct Hf as [[i HL] _]. specialize (Hv op). destruct (decide (op ∈ needed)) as [|Hn]; [left; congruence|].
  right. split; [done|]. unfold LookupEntry in Hc. rewrite Hv in Hc.
  destruct (HL op) as (j&tx&_&_&Htx&Hm); [simpl; by destruct (v_entries v !! op)|].
  exists j, tx. split_and!; [lia|done..].
Qed.

(** The view [checkConnectBlock] works on is loaded from the cache, so a block
    that passes is connectable to the coins the cache stands for. *)
Lemma checkConnectBlock_spec `{CR : Crypto} `{SE : ScriptEngine} p H node nd b now s U K :
  reps s U K → coins_ok U → reserve_ok p → BIP0034Height p ≤ bn_height nd →
  checkBlockSanity b now = Ok tt →
  ∃ r s', checkConnectBlock p H node nd b (NewUtxoViewpoint (PrevBlock (bl_Header b))) s = (r, s') ∧
    reps s' U K ∧ same_store s s' ∧
    (∀ v', r = Ok v' → connectable p (bn_height nd) (bl_Transactions b) U).
Proof.
  intros HR Hok Hres Hbip [(cb&rest&Etxs&Ecb&Hnc) Hsane _ _]%checkBlockSanity_Ok.
  unfold checkConnectBlock, st_ensure. rewrite st_lift_bind.
  destruct (ensure _ _); [|by eexists _, _; split_and!]. rewrite st_lift_bind.
  destruct (ensure _ _); [|by eexists _, _; split_and!].
  rewrite (proj2 (Z.ltb_ge _ _) Hbip), andb_false_r.
  rewrite st_bind_run. unfold mret at 1, st_ret at 1. cbv beta iota. rewrite st_bind_run. unfold fetchInputUtxos.
  destruct (findInputsToFetch _ _ _) as [v needed] eqn:Efind.
  destruct (fetchUtxosFromCache_spec needed v s U K HR) as (r&s1&->&HR1&Hs1&[->|(v1&->&_&Hv1)]);
    [by eexists _, _; split_and!|].
  pose proof (loaded_sound _ _ U _ _ _ _ Efind Hv1) as Hsound.
  pose proof (findInputs_spec (bl_Transactions b) (bn_height nd) (PrevBlock (bl_Header b))) as Hneed.
  rewrite Efind in Hneed. destruct Hneed as [_ Hneed].
  cbv zeta.
  rewrite st_lift_bind. destruct (sigOpCosts _ _ _ _ _); [|by eexists _, _; split_and!].
  rewrite st_lift_bind. destruct (connectChecked _ _ _ _ _) as [[v2 fees]|] eqn:Ec; [|by eexists _, _; split_and!].
  rewrite st_lift_bind. destruct (checkCoinbase _ _ _ _) as [[]|] eqn:Eb; [|by eexists _, _; split_and!].
  rewrite st_lift_bind.
  assert (connectable p (bn_height nd) (bl_Transactions b) U); [|destruct (checkScriptRules _ _ _ _ _ _ _ _);
    eexists _, _; by split_and!].
  destruct (connectChecked_Ok p (bl_Transactions b) (bn_height nd) needed Hsane) with
    (n := O) (l := bl_Transactions b) (v := v1) (U := U) (fees := 0) (v' := v2) (fees' := fees)
    as (Hca&Hok'&Hfees&Hval); [|done|done|by rewrite Etxs|done|done|done|done|].
  { intros cb' Hcb'. rewrite Etxs in Hcb'. simpl in Hcb'. congruence. }
  rewrite Etxs in *. destruct (checkCoinbase_Ok _ _ _ _ _ _ Eb Hres) as [Hle Hpay];
    [lia|by apply Forall_cons in Hsane as [? _]|].
  split; [done..| |done]. change ((0 =? 0)%nat) with true in Hval. cbv iota in Hval. lia.
Qed.
