(* ===== verification/Engine.v ===== *)
(** * Executing scripts

    [btcd/txscript]: engine.go, opcode.go, stack.go, scriptnum.go, the legacy
    signature hash of sighash.go, the base verifier of sigvalidate.go and
    sigcache.go, and how a block's inputs are run ([btcd/blockchain/scriptval.go]).

    The engine is the one without [ScriptVerifyWitness]: segwit and taproot
    never activate on DogecoinVM ([Versionbits]), so there is no witness program
    and no taproot context.  A stack is a list with its top first. *)

From Stdlib Require Import String.
From S2P Require Import Prelude Text Wire Script Chain Versionbits Utxo Validate.

(** ** What comes from other packages *)

(** sha1, and of the curve: parsing of keys and verification of the scalars
    (R, S). *)
Class Ecdsa := {
  PublicKey : Type;
  sha1 : bytes → bytes;
  ParsePubKey : bytes → option PublicKey;
  ecdsa_Verify : Z * Z → bytes → PublicKey → bool;
  (** What the shared cache of verified signatures answers. *)
  sigCache_Exists : bytes → bytes → bytes → bool;
}.

(** ** btcec/ecdsa: reading a signature *)

Definition Signature : Type := Z * Z.

Definition be_Z (l : bytes) : Z := foldl (fun n b => n * 256 + b) 0 l.
(** The order of the curve's group. *)
Definition groupOrder : Z := 115792089237316195423570985008687907852837564279074904382605163141518161494337.

Definition canonicalPadding (b : bytes) : bool :=
  negb (Z.land (b !!! 0%nat) 128 =? 128) &&
  negb (Nat.ltb 1 (length b) && (b !!! 0%nat =? 0) && negb (Z.land (b !!! 1%nat) 128 =? 128)).

Fixpoint stripZeroes (b : bytes) : bytes :=
  match b with 0 :: rest => stripZeroes rest | _ => b end.

(** R or S, in the range from 1 to the order. *)
Definition scalarOf (der : bool) (b : bytes) : option Z :=
  if der && negb (canonicalPadding b) then None
  else
    let b := stripZeroes b in
    if Nat.ltb 32 (length b) || (groupOrder <=? be_Z b) || (be_Z b =? 0) then None else Some (be_Z b).

(** [siglen+2] is a byte. *)
Definition ecdsa_parseSig (sigStr : bytes) (der : bool) : option Signature :=
  if Nat.ltb (length sigStr) 8 || (der && Nat.ltb 72 (length sigStr)) || negb (sigStr !!! 0%nat =? 48) then None
  else
    let total := (sigStr !!! 1%nat + 2) mod 256 in
    if (Z.of_nat (length sigStr) <? total) || (total <? 8) then None
    else
      let sigStr := take (Z.to_nat total) sigStr in
      let rLen := Z.to_nat (sigStr !!! 3%nat) in
      if negb (sigStr !!! 2%nat =? 2) || Nat.eqb rLen 0 || Nat.ltb (length sigStr - 4 - 3) rLen then None
      else
        r ← scalarOf der (take rLen (drop 4 sigStr));
        let sLen := Z.to_nat (sigStr !!! (5 + rLen)%nat) in
        let index := (6 + rLen)%nat in
        if negb (sigStr !!! (4 + rLen)%nat =? 2) || Nat.eqb sLen 0 || Nat.ltb (length sigStr - index) sLen then None
        else
          s ← scalarOf der (take sLen (drop index sigStr));
          if Nat.eqb (index + sLen) (length sigStr) then Some (r, s) else None.

Definition ParseSignature (sigStr : bytes) : option Signature := ecdsa_parseSig sigStr false.
Definition ParseDERSignature (sigStr : bytes) : option Signature := ecdsa_parseSig sigStr true.

(** A signature, without its hash type, that verifies with a key. *)
Definition goodSig `{Ecdsa} (hash sig pubKey : bytes) : Prop :=
  ∃ s k, (ParseDERSignature sig = Some s ∨ ParseSignature sig = Some s) ∧ ParsePubKey pubKey = Some k ∧
    ecdsa_Verify s hash k = true.

(** ** The cache of verified signatures *)

Record SigCache := mkSigCache { validSigs : gmap bytes (bytes * bytes); maxEntries : Z }.

Definition Exists (c : SigCache) (sigHash sig pubKey : bytes) : bool :=
  match validSigs c !! sigHash with
  | Some (s, k) => bool_decide (k = pubKey) && bool_decide (s = sig)
  | None => false
  end.

(** A full cache drops the first entry of a range. *)
Definition Add `{GoRuntime} (c : SigCache) (sigHash sig pubKey : bytes) : SigCache :=
  if maxEntries c <=? 0 then c
  else
    let kept := if maxEntries c <? Z.of_nat (base.size (validSigs c)) + 1 then
        match map_range (validSigs c) with (h, _) :: _ => delete h (validSigs c) | [] => validSigs c end
      else validSigs c in
    mkSigCache (<[sigHash := (sig, pubKey)]> kept) (maxEntries c).

(** A cache as signature checks leave it: only what verified is added. *)
Inductive cached `{Ecdsa} `{GoRuntime} : SigCache → Prop :=
  | cached_new n : cached (mkSigCache ∅ n)
  | cached_add c sigHash sig pubKey : cached c → goodSig sigHash sig pubKey → cached (Add c sigHash sig pubKey).

(** The answers [sigCache_Exists] gives are those of such a cache. *)
Class EcdsaOk `{Ecdsa} `{GoRuntime} : Prop :=
  sigCache_cached sigHash sig pubKey :
    sigCache_Exists sigHash sig pubKey = true → ∃ c, cached c ∧ Exists c sigHash sig pubKey = true.

(** ** Flags and limits *)

Definition ScriptDiscourageUpgradableNops : Z := 4.
Definition ScriptVerifyCleanStack : Z := 32.
Definition ScriptVerifyLowS : Z := 128.
Definition ScriptVerifyMinimalData : Z := 256.
Definition ScriptVerifyNullFail : Z := 512.
Definition ScriptVerifySigPushOnly : Z := 1024.
Definition ScriptVerifyStrictEncoding : Z := 2048.
Definition ScriptVerifyConstScriptCode : Z := 1048576.

Definition MaxStackSize : Z := 1000.
Definition MaxOpsPerScript : Z := 201.
Definition maxScriptNumLen : Z := 4.

Definition scriptError (msg : string) : error := Errorf msg.

(** ** Numbers and booleans on the stack *)

Fixpoint asBool (t : bytes) : bool :=
  match t with
  | [] => false
  | b :: rest =>
      if b =? 0 then asBool rest
      else negb ((b =? 128) && match rest with [] => true | _ => false end)
  end.

Definition fromBool (v : bool) : bytes := if v then [1] else [].

Definition checkMinimalDataEncoding (v : bytes) : result unit :=
  match rev v with
  | [] => Ok tt
  | top :: below =>
      ensure (negb ((Z.land top 127 =? 0) &&
                    match below with [] => true | b :: _ => Z.land b 128 =? 0 end))
        (scriptError "not minimally encoded")
  end.

Definition MakeScriptNum (v : bytes) (requireMinimal : bool) (scriptNumLen : Z) : result Z :=
  ensure (Z.of_nat (length v) <=? scriptNumLen) (scriptError "exceeds the max allowed length");;
  (if requireMinimal then checkMinimalDataEncoding v else Ok tt);;
  match last v with
  | None => Ok 0
  | Some top =>
      let r := le_Z v in
      if Z.land top 128 =? 0 then Ok r
      else Ok (- Z.ldiff r (Z.shiftl 128 (8 * (Z.of_nat (length v) - 1))))
  end.

(** scriptNum.Int32 *)
Definition clamp32 (n : Z) : Z := Z.max (-2147483648) (Z.min 2147483647 n).

(** ** The engine *)

Inductive cond := OpCondFalse | OpCondTrue | OpCondSkip.

Record Engine := mkEngine {
  en_flags : Z;
  en_tx : MsgTx;
  en_txIdx : nat;
  bip16 : bool;
  scripts : list bytes;
  scriptIdx : nat;
  lastCodeSep : nat;
  tokenizer : ScriptTokenizer;
  savedFirstStack : list bytes;
  dstack : list bytes;
  astack : list bytes;
  condStack : list cond;
  numOps : Z;
}.

Notation Vm := (St Engine).

Definition hasFlagOf (flags flag : Z) : bool := Z.land flags flag =? flag.
Definition hasFlag (e : Engine) (flag : Z) : bool := hasFlagOf (en_flags e) flag.

Definition verifyMinimalData (e : Engine) : bool := hasFlag e ScriptVerifyMinimalData.

Definition isBranchExecuting (e : Engine) : bool :=
  match condStack e with OpCondTrue :: _ | [] => true | _ => false end.

Definition set_dstack (l : list bytes) (e : Engine) : Engine :=
  mkEngine (en_flags e) (en_tx e) (en_txIdx e) (bip16 e) (scripts e) (scriptIdx e) (lastCodeSep e) (tokenizer e)
    (savedFirstStack e) l (astack e) (condStack e) (numOps e).
Definition set_astack (l : list bytes) (e : Engine) : Engine :=
  mkEngine (en_flags e) (en_tx e) (en_txIdx e) (bip16 e) (scripts e) (scriptIdx e) (lastCodeSep e) (tokenizer e)
    (savedFirstStack e) (dstack e) l (condStack e) (numOps e).
Definition set_condStack (l : list cond) (e : Engine) : Engine :=
  mkEngine (en_flags e) (en_tx e) (en_txIdx e) (bip16 e) (scripts e) (scriptIdx e) (lastCodeSep e) (tokenizer e)
    (savedFirstStack e) (dstack e) (astack e) l (numOps e).
Definition set_numOps (n : Z) (e : Engine) : Engine :=
  mkEngine (en_flags e) (en_tx e) (en_txIdx e) (bip16 e) (scripts e) (scriptIdx e) (lastCodeSep e) (tokenizer e)
    (savedFirstStack e) (dstack e) (astack e) (condStack e) n.
Definition set_lastCodeSep (n : nat) (e : Engine) : Engine :=
  mkEngine (en_flags e) (en_tx e) (en_txIdx e) (bip16 e) (scripts e) (scriptIdx e) n (tokenizer e)
    (savedFirstStack e) (dstack e) (astack e) (condStack e) (numOps e).
Definition set_tokenizer (t : ScriptTokenizer) (e : Engine) : Engine :=
  mkEngine (en_flags e) (en_tx e) (en_txIdx e) (bip16 e) (scripts e) (scriptIdx e) (lastCodeSep e) t
    (savedFirstStack e) (dstack e) (astack e) (condStack e) (numOps e).
Definition set_script (scrs : list bytes) (i : nat) (saved : list bytes) (e : Engine) : Engine :=
  mkEngine (en_flags e) (en_tx e) (en_txIdx e) (bip16 e) scrs i (lastCodeSep e) (tokenizer e)
    saved (dstack e) (astack e) (condStack e) (numOps e).

Definition update (f : Engine → Engine) : Vm unit := fun e => (Ok tt, f e).

(** *** stack.go *)

Definition invalidStack : error := scriptError "index is invalid for stack size".

Definition push (so : bytes) : Vm unit := update (fun e => set_dstack (so :: dstack e) e).
Definition PushInt (val : Z) : Vm unit := push (scriptNumBytes val).
Definition PushBool (val : bool) : Vm unit := push (fromBool val).

Definition PeekByteArray (idx : Z) : Vm bytes :=
  e ← st_get;
  st_lift (from_option_err (if 0 <=? idx then dstack e !! Z.to_nat idx else None) invalidStack).

Definition nipN (idx : Z) : Vm bytes :=
  so ← PeekByteArray idx;
  update (fun e => set_dstack (delete (Z.to_nat idx) (dstack e)) e);;
  mret so.

Definition PopByteArray : Vm bytes := nipN 0.

Definition PopInt : Vm Z :=
  so ← PopByteArray;
  e ← st_get;
  st_lift (MakeScriptNum so (verifyMinimalData e) maxScriptNumLen).

Definition PopBool : Vm bool := so ← PopByteArray; mret (asBool so).

Fixpoint times (n : nat) (m : Vm unit) : Vm unit :=
  match n with O => mret tt | S n => m;; times n m end.

Definition DropN (n : nat) : Vm unit := times n (_ ← PopByteArray; mret tt).
Definition DupN (n : nat) : Vm unit := times n (so ← PeekByteArray (Z.of_nat n - 1); push so).
Definition RotN (n : nat) : Vm unit := times n (so ← nipN (3 * Z.of_nat n - 1); push so).
Definition SwapN (n : nat) : Vm unit := times n (so ← nipN (2 * Z.of_nat n - 1); push so).
Definition OverN (n : nat) : Vm unit := times n (so ← PeekByteArray (2 * Z.of_nat n - 1); push so).
Definition PickN (n : Z) : Vm unit := so ← PeekByteArray n; push so.
Definition RollN (n : Z) : Vm unit := so ← nipN n; push so.
Definition Tuck : Vm unit :=
  so2 ← PopByteArray; so1 ← PopByteArray; push so2;; push so1;; push so2.

(** Popping a number of items, the first popped first. *)
Fixpoint popMany (n : nat) : Vm (list bytes) :=
  match n with
  | O => mret []
  | S n => x ← PopByteArray; xs ← popMany n; mret (x :: xs)
  end.

(** ** Opcodes *)

Definition OP_IF : Z := 99.
Definition OP_NOTIF : Z := 100.
Definition OP_ELSE : Z := 103.
Definition OP_ENDIF : Z := 104.
Definition OP_CODESEPARATOR : Z := 171.

(** An opcode that replaces the top one, two or three numbers; [v0] is the top. *)
Definition unary (f : Z → Z) : Vm unit := m ← PopInt; PushInt (f m).
Definition binary (f : Z → Z → Z) : Vm unit := v0 ← PopInt; v1 ← PopInt; PushInt (f v0 v1).
Definition numBool (b : bool) : Z := if b then 1 else 0.

Definition opcodeNop (op : Z) : Vm unit :=
  e ← st_get;
  st_ensure (negb (negb (op =? 97) && hasFlag e ScriptDiscourageUpgradableNops))
    (scriptError "reserved for soft-fork upgrades").

Definition opcodeIf (want : bool) : Vm unit :=
  e ← st_get;
  condVal ← (if isBranchExecuting e then ok ← PopBool; mret (if Bool.eqb ok want then OpCondTrue else OpCondFalse)
             else mret OpCondSkip);
  update (fun e => set_condStack (condVal :: condStack e) e).

Definition opcodeElse : Vm unit :=
  e ← st_get;
  match condStack e with
  | [] => st_lift (Err (scriptError "no matching opcode to begin conditional execution"))
  | c :: rest =>
      let c := match c with OpCondTrue => OpCondFalse | OpCondFalse => OpCondTrue | OpCondSkip => OpCondSkip end in
      update (set_condStack (c :: rest))
  end.

Definition opcodeEndif : Vm unit :=
  e ← st_get;
  match condStack e with
  | [] => st_lift (Err (scriptError "no matching opcode to begin conditional execution"))
  | _ :: rest => update (set_condStack rest)
  end.

Definition abstractVerify : Vm unit :=
  verified ← PopBool; st_ensure verified (scriptError "verify failed").

Definition verifyLockTime (txLockTime threshold lockTime : Z) : result unit :=
  ensure (((txLockTime <? threshold) && (lockTime <? threshold)) || ((threshold <=? txLockTime) && (threshold <=? lockTime)))
    (scriptError "mismatched locktime types");;
  ensure (lockTime <=? txLockTime) (scriptError "locktime requirement not satisfied").

(** [vm.tx.TxIn[vm.txIdx].Sequence] *)
Definition sequenceOf (e : Engine) : Z :=
  match txIn (en_tx e) !! en_txIdx e with Some ti => Sequence ti | None => 0 end.

(** What CLTV and CSV do while they are not enforced. *)
Definition upgradableNop : Vm unit :=
  e ← st_get;
  st_ensure (negb (hasFlag e ScriptDiscourageUpgradableNops)) (scriptError "reserved for soft-fork upgrades").

Definition opcodeCheckLockTimeVerify : Vm unit :=
  e ← st_get;
  if negb (hasFlag e ScriptVerifyCheckLockTimeVerify) then upgradableNop
  else
    so ← PeekByteArray 0;
    lockTime ← st_lift (MakeScriptNum so (verifyMinimalData e) 5);
    st_ensure (0 <=? lockTime) (scriptError "negative lock time");;
    st_lift (verifyLockTime (LockTime (en_tx e)) LockTimeThreshold lockTime);;
    st_ensure (negb (sequenceOf e =? MaxTxInSequenceNum)) (scriptError "transaction input is finalized").

Definition opcodeCheckSequenceVerify : Vm unit :=
  e ← st_get;
  if negb (hasFlag e ScriptVerifyCheckSequenceVerify) then upgradableNop
  else
    so ← PeekByteArray 0;
    sequence ← st_lift (MakeScriptNum so (verifyMinimalData e) 5);
    st_ensure (0 <=? sequence) (scriptError "negative sequence");;
    if negb (Z.land sequence 2147483648 =? 0) then mret tt
    else
      st_ensure (2 <=? Wire.Version (en_tx e) mod two32) (scriptError "invalid transaction version");;
      let txSequence := sequenceOf e in
      st_ensure (Z.land txSequence 2147483648 =? 0) (scriptError "locktime disabled bit set");;
      let lockTimeMask := Z.lor 4194304 65535 in
      st_lift (verifyLockTime (Z.land txSequence lockTimeMask) 4194304 (Z.land sequence lockTimeMask)).

Definition opcodeToAltStack : Vm unit :=
  so ← PopByteArray; update (fun e => set_astack (so :: astack e) e).

Definition opcodeFromAltStack : Vm unit :=
  e ← st_get;
  match astack e with
  | [] => st_lift (Err invalidStack)
  | so :: rest => update (set_astack rest);; push so
  end.

Definition opcodeIfDup : Vm unit := so ← PeekByteArray 0; if asBool so then push so else mret tt.
Definition opcodeDepth : Vm unit := e ← st_get; PushInt (Z.of_nat (length (dstack e))).
Definition opcodePick : Vm unit := val ← PopInt; PickN (clamp32 val).
Definition opcodeRoll : Vm unit := val ← PopInt; RollN (clamp32 val).
Definition opcodeSize : Vm unit := so ← PeekByteArray 0; PushInt (Z.of_nat (length so)).
Definition opcodeEqual : Vm unit := a ← PopByteArray; b ← PopByteArray; PushBool (bool_decide (a = b)).
Definition opcodeWithin : Vm unit :=
  maxVal ← PopInt; minVal ← PopInt; x ← PopInt; PushInt (numBool ((minVal <=? x) && (x <? maxVal))).

Definition hashWith (h : bytes → bytes) : Vm unit := buf ← PopByteArray; push (h buf).

(** The byte the tokenizer is at. *)
Definition ByteIndex (e : Engine) : nat :=
  match scripts e !! scriptIdx e with Some s => (length s - length (trest (tokenizer e)))%nat | None => 0%nat end.

Definition opcodeCodeSeparator : Vm unit :=
  update (fun e => set_lastCodeSep (ByteIndex e) e);;
  e ← st_get;
  st_ensure (negb (hasFlag e ScriptVerifyConstScriptCode)) (scriptError "OP_CODESEPARATOR used in non-segwit script").

(** ** Signatures *)

Definition subScript (e : Engine) : bytes :=
  match scripts e !! scriptIdx e with Some s => drop (lastCodeSep e) s | None => [] end.

(** The tokens of a script up to the first that does not parse: opcode, data
    and bytes. *)
Fixpoint tokensFrom (fuel : nat) (t : ScriptTokenizer) : list (Z * bytes * bytes) :=
  match fuel with
  | O => []
  | S fuel =>
      match Next t with
      | (false, _) => []
      | (true, t') =>
          (top t', default [] (tdata t'), take (length (trest t) - length (trest t')) (trest t)) :: tokensFrom fuel t'
      end
  end.
Definition tokens (script : bytes) : list (Z * bytes * bytes) :=
  tokensFrom (length script) (MakeScriptTokenizer script).

(** The script without the tokens that match, or as it was if none does. *)
Definition removeTokens (match_ : Z → bytes → bool) (script : bytes) : bytes * bool :=
  let toks := tokens script in
  if existsb (fun '(op, data, _) => match_ op data) toks
  then (concat ((fun '(op, data, raw) => if match_ op data then [] else raw) <$> toks), true)
  else (script, false).

Definition removeOpcodeRaw (script : bytes) (opcode : Z) : bytes := (removeTokens (fun op _ => op =? opcode) script).1.

Definition removeOpcodeByData (script dataToRemove : bytes) : bytes * bool :=
  if bool_decide (dataToRemove = []) then (script, false)
  else removeTokens (fun op data => isCanonicalPush op data && bool_decide (data = dataToRemove)) script.

Definition sigHashMask : Z := 31.
Definition SigHashNone : Z := 2.
Definition SigHashSingle : Z := 3.
Definition SigHashAnyOneCanPay : Z := 128.

Section signatures.
Context `{CR : Crypto} `{EC : Ecdsa}.

Definition calcSignatureHash (sigScript : bytes) (hashType : Z) (tx : MsgTx) (idx : nat) : bytes :=
  if (Z.land hashType sigHashMask =? SigHashSingle) && Nat.leb (length (txOut tx)) idx
  then 1 :: replicate 31 0
  else
    let sigScript := removeOpcodeRaw sigScript OP_CODESEPARATOR in
    let others := (Z.land hashType sigHashMask =? SigHashNone) || (Z.land hashType sigHashMask =? SigHashSingle) in
    let ins := imap (fun i ti =>
        if Nat.eqb i idx then mkTxIn (PreviousOutPoint ti) sigScript (Witness ti) (Sequence ti)
        else mkTxIn (PreviousOutPoint ti) [] (Witness ti) (if others then 0 else Sequence ti)) (txIn tx) in
    let outs :=
      if Z.land hashType sigHashMask =? SigHashNone then []
      else if Z.land hashType sigHashMask =? SigHashSingle then
        imap (fun i o => if Nat.ltb i idx then mkTxOut (-1) [] else o) (take (S idx) (txOut tx))
      else txOut tx in
    let ins := if negb (Z.land hashType SigHashAnyOneCanPay =? 0) then take 1 (drop idx ins) else ins in
    DoubleHashRaw (SerializeNoWitness (mkMsgTx (Wire.Version tx) ins outs (LockTime tx)) ++ le_bytes 4 hashType).

Definition checkHashTypeEncoding (e : Engine) (hashType : Z) : result unit :=
  if negb (hasFlag e ScriptVerifyStrictEncoding) then Ok tt
  else
    let sigHashType := Z.ldiff hashType SigHashAnyOneCanPay in
    ensure ((1 <=? sigHashType) && (sigHashType <=? SigHashSingle)) (scriptError "invalid hash type").

Definition checkPubKeyEncoding (e : Engine) (pubKey : bytes) : result unit :=
  if negb (hasFlag e ScriptVerifyStrictEncoding) then Ok tt
  else
    ensure ((Nat.eqb (length pubKey) 33 && ((pubKey !!! 0%nat =? 2) || (pubKey !!! 0%nat =? 3))) ||
            (Nat.eqb (length pubKey) 65 && (pubKey !!! 0%nat =? 4)))
      (scriptError "unsupported public key type").

(** S above half the order of the curve (big-endian). *)
Definition halfOrder : Z := 57896044618658097711785492504343953926418782139537452191302581570759080747168.

(** One of R and S: [at] is where its bytes start. *)
Definition checkInteger (sig : bytes) (typeAt at_ n : nat) : result unit :=
  ensure (sig !!! typeAt =? 2) (scriptError "malformed signature: integer marker");;
  ensure (negb (Nat.eqb n 0)) (scriptError "malformed signature: length is zero");;
  ensure (Z.land (sig !!! at_) 128 =? 0) (scriptError "malformed signature: negative");;
  ensure (negb (Nat.ltb 1 n && (sig !!! at_ =? 0) && (Z.land (sig !!! S at_) 128 =? 0)))
    (scriptError "malformed signature: too much padding").

Definition checkSignatureEncoding (e : Engine) (sig : bytes) : result unit :=
  if negb (hasFlag e ScriptVerifyDERSignatures) && negb (hasFlag e ScriptVerifyLowS) &&
     negb (hasFlag e ScriptVerifyStrictEncoding) then Ok tt
  else
    let sigLen := length sig in
    ensure (Nat.leb 8 sigLen) (scriptError "malformed signature: too short");;
    ensure (Nat.leb sigLen 72) (scriptError "malformed signature: too long");;
    ensure (sig !!! 0%nat =? 48) (scriptError "malformed signature: format has wrong type");;
    ensure (sig !!! 1%nat =? Z.of_nat sigLen - 2) (scriptError "malformed signature: bad length");;
    let rLen := Z.to_nat (sig !!! 3%nat) in
    let sTypeOffset := (4 + rLen)%nat in
    let sLenOffset := S sTypeOffset in
    ensure (Nat.ltb sTypeOffset sigLen) (scriptError "malformed signature: S type indicator missing");;
    ensure (Nat.ltb sLenOffset sigLen) (scriptError "malformed signature: S length missing");;
    let sOffset := S sLenOffset in
    let sLen := Z.to_nat (sig !!! sLenOffset) in
    ensure (Nat.eqb (sOffset + sLen) sigLen) (scriptError "malformed signature: invalid S length");;
    checkInteger sig 2 4 rLen;;
    checkInteger sig sTypeOffset sOffset sLen;;
    ensure (negb (hasFlag e ScriptVerifyLowS && (halfOrder <? be_Z (take sLen (drop sOffset sig)))))
      (scriptError "signature is not canonical due to unnecessarily high S value").

Definition parseSig (e : Engine) (sig : bytes) : option Signature :=
  if hasFlag e ScriptVerifyStrictEncoding || hasFlag e ScriptVerifyDERSignatures
  then ParseDERSignature sig else ParseSignature sig.

(** The cache is asked before the signature is verified. *)
Definition verifySig (s : Signature) (k : PublicKey) (sigHash sig pubKey : bytes) : bool :=
  sigCache_Exists sigHash sig pubKey || ecdsa_Verify s sigHash k.

(** The encodings are script errors; what then does not parse is [None]. *)
Definition parseBaseSigAndPubkey (e : Engine) (pkBytes fullSig : bytes) : result (option (PublicKey * Signature * Z)) :=
  let hashType := default 0 (last fullSig) in
  let sigBytes := removelast fullSig in
  checkHashTypeEncoding e hashType;;
  checkSignatureEncoding e sigBytes;;
  checkPubKeyEncoding e pkBytes;;
  Ok (k ← ParsePubKey pkBytes; s ← parseSig e sigBytes; Some (k, s, hashType)).

Definition opcodeCheckSig : Vm unit :=
  pkBytes ← PopByteArray;
  fullSig ← PopByteArray;
  if bool_decide (fullSig = []) then PushBool false
  else
    e ← st_get;
    parsed ← st_lift (parseBaseSigAndPubkey e pkBytes fullSig);
    match parsed with
    | None => PushBool false
    | Some (k, s, hashType) =>
        let '(script, sigMatch) := removeOpcodeByData (subScript e) fullSig in
        let sigHash := calcSignatureHash script hashType (en_tx e) (en_txIdx e) in
        let valid := verifySig s k sigHash (removelast fullSig) pkBytes in
        st_ensure (negb (hasFlag e ScriptVerifyConstScriptCode && sigMatch)) (scriptError "non-const script code");;
        st_ensure (negb (negb valid && hasFlag e ScriptVerifyNullFail)) (scriptError "signature not empty on failed checksig");;
        PushBool valid
    end.

(** The script without the signatures it pushes. *)
Fixpoint removeSigs (e : Engine) (sigs : list bytes) (script : bytes) : result bytes :=
  match sigs with
  | [] => Ok script
  | sig :: sigs =>
      let '(script, found) := removeOpcodeByData script sig in
      ensure (negb (hasFlag e ScriptVerifyConstScriptCode && found)) (scriptError "got match of a signature in the script");;
      removeSigs e sigs script
  end.

(** The keys and signatures in the order they were popped; [memo] is what
    parsing the first signature gave, once it was parsed.  The code counts down;
    the keys left are [length pubKeys]. *)
Fixpoint multiSigLoop (e : Engine) (script : bytes) (pubKeys sigs : list bytes) (memo : option (option Signature)) : result bool :=
  match sigs with
  | [] => Ok true
  | rawSig :: sigs' =>
      match pubKeys with
      | [] => Ok false
      | pubKey :: keys =>
          if Nat.ltb (length pubKeys) (length sigs) then Ok false
          else if bool_decide (rawSig = []) then multiSigLoop e script keys sigs memo
          else
            let hashType := default 0 (last rawSig) in
            let signature := removelast rawSig in
            parsed ← match memo with
              | Some parsed => Ok parsed
              | None => checkHashTypeEncoding e hashType;; checkSignatureEncoding e signature;; Ok (parseSig e signature)
              end;
            match parsed with
            | None => multiSigLoop e script keys sigs (Some None)
            | Some s =>
                checkPubKeyEncoding e pubKey;;
                match ParsePubKey pubKey with
                | None => multiSigLoop e script keys sigs (Some (Some s))
                | Some k =>
                    let hash := calcSignatureHash script hashType (en_tx e) (en_txIdx e) in
                    if verifySig s k hash signature pubKey then multiSigLoop e script keys sigs' None
                    else multiSigLoop e script keys sigs (Some (Some s))
                end
            end
      end
  end.

Definition opcodeCheckMultiSig : Vm unit :=
  numKeys ← PopInt;
  let numPubKeys := clamp32 numKeys in
  st_ensure ((0 <=? numPubKeys) && (numPubKeys <=? MaxPubKeysPerMultiSig)) (scriptError "invalid number of pubkeys");;
  update (fun e => set_numOps (numOps e + numPubKeys) e);;
  e ← st_get;
  st_ensure (numOps e <=? MaxOpsPerScript) (scriptError "exceeded max operation limit");;
  pubKeys ← popMany (Z.to_nat numPubKeys);
  numSigs ← PopInt;
  let numSignatures := clamp32 numSigs in
  st_ensure ((0 <=? numSignatures) && (numSignatures <=? numPubKeys)) (scriptError "invalid number of signatures");;
  signatures ← popMany (Z.to_nat numSignatures);
  dummy ← PopByteArray;
  st_ensure (negb (hasFlag e ScriptStrictMultiSig && negb (bool_decide (dummy = [])))) (scriptError "multisig dummy argument");;
  script ← st_lift (removeSigs e signatures (subScript e));
  success ← st_lift (multiSigLoop e script pubKeys signatures None);
  st_ensure (negb (negb success && hasFlag e ScriptVerifyNullFail && existsb (fun sig => negb (bool_decide (sig = []))) signatures))
    (scriptError "not all signatures empty on failed checkmultisig");;
  PushBool success.

End signatures.

(** ** Executing *)

(** opcodeDisabled's opcodes. *)
Definition isOpcodeDisabled (op : Z) : bool :=
  ((126 <=? op) && (op <=? 129)) || ((131 <=? op) && (op <=? 134)) || (op =? 141) || (op =? 142) ||
  ((149 <=? op) && (op <=? 153)).
Definition isOpcodeAlwaysIllegal (op : Z) : bool := (op =? 101) || (op =? 102).
Definition isOpcodeConditional (op : Z) : bool := (op =? OP_IF) || (op =? OP_NOTIF) || (op =? OP_ELSE) || (op =? OP_ENDIF).

Definition checkMinimalDataPush (op : Z) (data : bytes) : result unit :=
  let dataLen := Z.of_nat (length data) in
  let d0 := data !!! 0%nat in
  let bad := scriptError "data push is not minimal" in
  if (dataLen =? 0) && negb (op =? OP_0) then Err bad
  else if (dataLen =? 1) && (1 <=? d0) && (d0 <=? 16) then ensure (op =? OP_1 + d0 - 1) bad
  else if (dataLen =? 1) && (d0 =? 129) then ensure (op =? OP_1NEGATE) bad
  else if dataLen <=? 75 then ensure (op =? dataLen) bad
  else if dataLen <=? 255 then ensure (op =? OP_PUSHDATA1) bad
  else if dataLen <=? 65535 then ensure (op =? OP_PUSHDATA2) bad
  else Ok tt.

Section engine.
Context `{CR : Crypto} `{EC : Ecdsa}.

(** opcodeArray: what runs for each opcode. *)
Definition opfunc (op : Z) (data : bytes) : Vm unit :=
  if op =? OP_0 then push []
  else if (1 <=? op) && (op <=? OP_PUSHDATA4) then push data
  else if (OP_1 <=? op) && (op <=? OP_16) then PushInt (op - (OP_1 - 1))
  else match op with
  | 79 => PushInt (-1)
  | 80 | 98 | 101 | 102 | 137 | 138 => st_lift (Err (scriptError "attempt to execute reserved opcode"))
  | 97 | 176 | 179 | 180 | 181 | 182 | 183 | 184 | 185 => opcodeNop op
  | 99 => opcodeIf true
  | 100 => opcodeIf false
  | 103 => opcodeElse
  | 104 => opcodeEndif
  | 105 => abstractVerify
  | 106 => st_lift (Err (scriptError "script returned early"))
  | 107 => opcodeToAltStack
  | 108 => opcodeFromAltStack
  | 109 => DropN 2
  | 110 => DupN 2
  | 111 => DupN 3
  | 112 => OverN 2
  | 113 => RotN 2
  | 114 => SwapN 2
  | 115 => opcodeIfDup
  | 116 => opcodeDepth
  | 117 => DropN 1
  | 118 => DupN 1
  | 119 => _ ← nipN 1; mret tt
  | 120 => OverN 1
  | 121 => opcodePick
  | 122 => opcodeRoll
  | 123 => RotN 1
  | 124 => SwapN 1
  | 125 => Tuck
  | 130 => opcodeSize
  | 135 => opcodeEqual
  | 136 => opcodeEqual;; abstractVerify
  | 139 => unary (fun m => m [+] 1)
  | 140 => unary (fun m => m [-] 1)
  | 143 => unary (fun m => 0 [-] m)
  | 144 => unary Z.abs
  | 145 => unary (fun m => numBool (m =? 0))
  | 146 => unary (fun m => numBool (negb (m =? 0)))
  | 147 => binary (fun v0 v1 => v0 [+] v1)
  | 148 => binary (fun v0 v1 => v1 [-] v0)
  | 154 => binary (fun v0 v1 => numBool (negb (v0 =? 0) && negb (v1 =? 0)))
  | 155 => binary (fun v0 v1 => numBool (negb (v0 =? 0) || negb (v1 =? 0)))
  | 156 => binary (fun v0 v1 => numBool (v0 =? v1))
  | 157 => binary (fun v0 v1 => numBool (v0 =? v1));; abstractVerify
  | 158 => binary (fun v0 v1 => numBool (negb (v0 =? v1)))
  | 159 => binary (fun v0 v1 => numBool (v1 <? v0))
  | 160 => binary (fun v0 v1 => numBool (v0 <? v1))
  | 161 => binary (fun v0 v1 => numBool (v1 <=? v0))
  | 162 => binary (fun v0 v1 => numBool (v0 <=? v1))
  | 163 => binary Z.min
  | 164 => binary Z.max
  | 165 => opcodeWithin
  | 166 => hashWith ripemd160
  | 167 => hashWith sha1
  | 168 => hashWith sha256
  | 169 => hashWith Hash160
  | 170 => hashWith DoubleHashRaw
  | 171 => opcodeCodeSeparator
  | 172 => opcodeCheckSig
  | 173 => opcodeCheckSig;; abstractVerify
  | 174 => opcodeCheckMultiSig
  | 175 => opcodeCheckMultiSig;; abstractVerify
  | 177 => opcodeCheckLockTimeVerify
  | 178 => opcodeCheckSequenceVerify
  | _ => st_lift (Err (scriptError "attempt to execute invalid opcode"))
  end.

Definition executeOpcode (op : Z) (data : bytes) : Vm unit :=
  st_ensure (negb (isOpcodeDisabled op)) (scriptError "attempt to execute disabled opcode");;
  st_ensure (negb (isOpcodeAlwaysIllegal op)) (scriptError "attempt to execute reserved opcode");;
  (if OP_16 <? op then
     update (fun e => set_numOps (numOps e + 1) e);;
     e ← st_get;
     st_ensure (numOps e <=? MaxOpsPerScript) (scriptError "exceeded max operation limit")
   else st_ensure (Z.of_nat (length data) <=? MaxScriptElementSize) (scriptError "element size exceeds max allowed size"));;
  e ← st_get;
  if negb (isBranchExecuting e) && negb (isOpcodeConditional op) then mret tt
  else
    st_lift (if verifyMinimalData e && isBranchExecuting e && (0 <=? op) && (op <=? OP_PUSHDATA4)
             then checkMinimalDataPush op data else Ok tt);;
    opfunc op data.

Definition CheckErrorCondition (finalScript : bool) : Vm unit :=
  e ← st_get;
  st_ensure (Nat.leb (length (scripts e)) (scriptIdx e)) (scriptError "error check when script unfinished");;
  st_ensure (negb (finalScript && hasFlag e ScriptVerifyCleanStack && negb (Nat.eqb (length (dstack e)) 1)))
    (scriptError "stack must contain exactly one item");;
  st_ensure (Nat.leb 1 (length (dstack e))) (scriptError "stack empty at end of script execution");;
  v ← PopBool;
  st_ensure v (scriptError "false stack entry at end of script execution").

(** Leaving a script: to the next, with the redeem script added after the
    second of a script hash. *)
Definition nextScript : Vm unit :=
  e ← st_get;
  let i := scriptIdx e in
  if Nat.eqb i 0 && bip16 e then update (set_script (scripts e) 1 (dstack e))
  else if Nat.eqb i 1 && bip16 e then
    update (set_script (scripts e) 2 (savedFirstStack e));;
    CheckErrorCondition false;;
    match savedFirstStack e with
    | [] => st_lift (Err (goPanic "index out of range"))
    | script :: rest =>
        st_ensure (checkScriptParses script) (scriptError "redeem script does not parse");;
        update (fun e => set_dstack rest (set_script (scripts e ++ [script]) (scriptIdx e) (savedFirstStack e) e))
    end
  else update (set_script (scripts e) (S i) (savedFirstStack e)).

(** The next script's tokenizer, an empty script being passed over; whether
    there is none left. *)
Definition startScript : Vm bool :=
  e ← st_get;
  let i := if bool_decide (scripts e !! scriptIdx e = Some []) then S (scriptIdx e) else scriptIdx e in
  update (fun e => set_lastCodeSep 0 (set_script (scripts e) i (savedFirstStack e) e));;
  match scripts e !! i with
  | None => mret true
  | Some script => update (set_tokenizer (MakeScriptTokenizer script));; mret false
  end.

Definition Step : Vm bool :=
  e ← st_get;
  st_ensure (Nat.ltb (scriptIdx e) (length (scripts e))) (scriptError "script index beyond total scripts");;
  match Next (tokenizer e) with
  | (false, t) => update (set_tokenizer t);; st_lift (Err (scriptError "attempt to step beyond script"))
  | (true, t) =>
      update (set_tokenizer t);;
      executeOpcode (top t) (default [] (tdata t));;
      e ← st_get;
      st_ensure (Z.of_nat (length (dstack e) + length (astack e)) <=? MaxStackSize) (scriptError "combined stack size");;
      if negb (Done t) then mret false
      else
        st_ensure (bool_decide (length (condStack e) = 0%nat)) (scriptError "end of script reached in conditional execution");;
        update (fun e => set_numOps 0 (set_astack [] e));;
        nextScript;;
        startScript
  end.

(** Steps until one is the last: within a script they are bounded by its
    bytes, and there are at most three scripts ([Execute_ends]). *)
Fixpoint execLoop (more : nat) : nat → Engine → option (result unit * Engine) :=
  fix inner (fuel : nat) (e : Engine) :=
    match fuel with
    | O => None
    | S fuel =>
        match Step e with
        | (Err x, e') => Some (Err x, e')
        | (Ok true, e') => Some (Ok tt, e')
        | (Ok false, e') =>
            if Nat.eqb (scriptIdx e') (scriptIdx e) then inner fuel e'
            else match more with
                 | O => None
                 | S more => execLoop more (length (trest (tokenizer e'))) e'
                 end
        end
    end.

Definition Execute (e : Engine) : result unit :=
  match execLoop 2 (length (trest (tokenizer e))) e with
  | None => Err (goPanic "endless")
  | Some (Err x, _) => Err x
  | Some (Ok _, e) => (CheckErrorCondition true e).1
  end.

Definition NewEngine (scriptPubKey : bytes) (tx : MsgTx) (txIdx : nat) (flags : Z) : result Engine :=
  ti ← from_option_err (txIn tx !! txIdx) (scriptError "transaction input index");
  let scriptSig := SignatureScript ti in
  ensure (negb (bool_decide (scriptSig = []) && bool_decide (scriptPubKey = []))) (scriptError "false stack entry");;
  ensure (negb (hasFlagOf flags ScriptVerifyCleanStack && negb (hasFlagOf flags ScriptBip16)))
    (scriptError "invalid flags combination");;
  ensure (negb (hasFlagOf flags ScriptVerifySigPushOnly) || IsPushOnlyScript scriptSig) (scriptError "signature script is not push only");;
  let isBip16 := hasFlagOf flags ScriptBip16 && isScriptHashScript scriptPubKey in
  ensure (negb isBip16 || IsPushOnlyScript scriptSig) (scriptError "pay to script hash is not push only");;
  ensure (forallb (fun scr => (Z.of_nat (length scr) <=? MaxScriptSize) && checkScriptParses scr) [scriptSig; scriptPubKey])
    (scriptError "script too big or malformed");;
  let idx := if bool_decide (scriptSig = []) then 1%nat else 0%nat in
  Ok (mkEngine flags tx txIdx isBip16 [scriptSig; scriptPubKey] idx 0
        (MakeScriptTokenizer (if bool_decide (scriptSig = []) then scriptPubKey else scriptSig)) [] [] [] [] 0).

End engine.

(** ** The scripts of a block *)

Section block.
Context `{CR : Crypto} `{EC : Ecdsa}.

(** One input, as validateHandler checks it. *)
Definition validateInput (v : UtxoViewpoint) (flags : Z) (tx : MsgTx) (txInIdx : nat) (ti : TxIn) : result unit :=
  match LookupEntry v (PreviousOutPoint ti) with
  | None => Err (ruleError "unable to find unspent output")
  | Some utxo =>
      match NewEngine (ue_pkScript utxo) tx txInIdx flags with
      | Err _ => Err (ruleError "failed to parse input")
      | Ok vm => match Execute vm with Err _ => Err (ruleError "failed to validate input") | Ok _ => Ok tt end
      end
  end.

Fixpoint validateInputs (v : UtxoViewpoint) (flags : Z) (tx : MsgTx) (i : nat) (ins : list TxIn) : result unit :=
  match ins with
  | [] => Ok tt
  | ti :: ins =>
      (if Index (PreviousOutPoint ti) =? MaxPrevOutIndex then Ok tt else validateInput v flags tx i ti);;
      validateInputs v flags tx (S i) ins
  end.

(** The goroutines of Validate answer with the error of some input that
    fails; here it is the first. *)
Definition validateScripts (txs : list MsgTx) (v : UtxoViewpoint) (flags : Z) : result unit :=
  checkAll (fun tx => validateInputs v flags tx 0 (txIn tx)) txs.

(** The engine of this file where there is no witness; [witness] is what runs
    scripts under ScriptVerifyWitness. *)
Definition btcdScripts (witness : list MsgTx → UtxoViewpoint → Z → result unit) : ScriptEngine := {|
  checkBlockScripts txs v flags := if hasFlagOf flags ScriptVerifyWitness then witness txs v flags else validateScripts txs v flags;
  ValidateTransactionScripts tx v flags :=
    if hasFlagOf flags ScriptVerifyWitness then witness [tx] v flags else validateScripts [tx] v flags |}.

End block.

(** Computes the fields of an engine. *)
Ltac engine := cbv beta iota delta [en_flags en_tx en_txIdx bip16 scripts scriptIdx lastCodeSep tokenizer savedFirstStack dstack astack condStack numOps
  set_dstack set_astack set_condStack set_numOps set_lastCodeSep set_tokenizer set_script] in *.

(** ** What a signature that parses looks like *)

Lemma parseSig_head sig der s : ecdsa_parseSig sig der = Some s → head sig = Some 48.
Proof.
  unfold ecdsa_parseSig. destruct (_ || _) eqn:E; [done|]. intros _. apply orb_false_iff in E as [_ E%negb_false_iff%Z.eqb_eq].
  destruct sig; [done|]. by cbn in *; subst.
Qed.

(** ** What the cache answers *)

Lemma cached_good `{Ecdsa} `{GoRuntime} c sigHash sig pubKey :
  cached c → Exists c sigHash sig pubKey = true → goodSig sigHash sig pubKey.
Proof.
  unfold Exists. intros Hc. revert sigHash sig pubKey. induction Hc as [n|c h s k _ IH Hg]; intros sigHash sig pubKey; [done|].
  unfold Add. destruct (_ <=? 0); [apply IH|]. cbn.
  destruct (decide (h = sigHash)) as [->|Hne].
  { rewrite lookup_insert_eq. intros [E1%bool_decide_eq_true E2%bool_decide_eq_true]%andb_prop. by subst. }
  rewrite lookup_insert_ne by done. destruct (_ <? _); [|apply IH]. destruct (map_range (validSigs c)) as [|[h' x] l]; [apply IH|].
  destruct (decide (h' = sigHash)) as [->|Hne']; [by rewrite lookup_delete_eq|]. rewrite lookup_delete_ne by done. apply IH.
Qed.

(** ** What an opcode leaves alone *)

(** The parts of an engine only Step changes. *)
Definition frame (e e' : Engine) : Prop :=
  en_flags e' = en_flags e ∧ en_tx e' = en_tx e ∧ en_txIdx e' = en_txIdx e ∧ bip16 e' = bip16 e ∧
  scripts e' = scripts e ∧ scriptIdx e' = scriptIdx e ∧ tokenizer e' = tokenizer e ∧ savedFirstStack e' = savedFirstStack e.

#[export] Instance frame_preorder : PreOrder frame.
Proof. split; [by intros e|]. unfold frame. intros a b c H1 H2. destruct_and?. by repeat (split; [by etrans|]); etrans. Qed.

Lemma frame_update f : (∀ e, frame e (f e)) → preserves frame (update f).
Proof. intros Hf e r e' [= _ <-]. apply Hf. Qed.

Lemma frame_push x : preserves frame (push x).
Proof. by apply frame_update. Qed.

Lemma frame_peek i : preserves frame (PeekByteArray i).
Proof. unfold PeekByteArray. preserve. Qed.
#[export] Hint Resolve frame_push frame_peek : steps.

Lemma frame_nip i : preserves frame (nipN i).
Proof. unfold nipN. apply preserves_bind; [apply _|preserve|]. intros so. apply preserves_bind; [apply _|by apply frame_update|preserve]. Qed.
#[export] Hint Resolve frame_nip : steps.

Lemma frame_pop : preserves frame PopByteArray.
Proof. apply frame_nip. Qed.
#[export] Hint Resolve frame_pop : steps.

Lemma frame_popInt : preserves frame PopInt.
Proof. unfold PopInt. preserve. Qed.

Lemma frame_popBool : preserves frame PopBool.
Proof. unfold PopBool. preserve. Qed.
#[export] Hint Resolve frame_popInt frame_popBool : steps.

Lemma frame_times n m : preserves frame m → preserves frame (times n m).
Proof. intros Hm. induction n as [|n IH]; cbn [times]; preserve. Qed.

Lemma frame_popMany n : preserves frame (popMany n).
Proof. induction n as [|n IH]; cbn [popMany]; preserve. Qed.
#[export] Hint Resolve frame_popMany : steps.

Lemma frame_lift_nothing {A} (r : result A) : preserves frame (st_lift r).
Proof. preserve. Qed.

Ltac frame_op := repeat first
  [ progress unfold opcodeNop, opcodeIf, opcodeElse, opcodeEndif, abstractVerify, opcodeToAltStack, opcodeFromAltStack, opcodeIfDup,
      opcodeDepth, opcodePick, opcodeRoll, opcodeSize, opcodeEqual, opcodeWithin, hashWith, opcodeCodeSeparator, unary, binary,
      PushInt, PushBool, DropN, DupN, RotN, SwapN, OverN, PickN, RollN, Tuck, upgradableNop, opcodeCheckLockTimeVerify,
      opcodeCheckSequenceVerify, opcodeCheckSig, opcodeCheckMultiSig, st_ensure
  | apply frame_times | apply frame_update; done | progress preserve ].

Section frames.
Context `{CR : Crypto} `{EC : Ecdsa}.

Lemma frame_opfunc op data : preserves frame (opfunc op data).
Proof.
  unfold opfunc. repeat (match goal with |- preserves _ (if ?b then _ else _) => destruct b end; [solve [frame_op]|]).
  destruct op as [|p|p]; [solve [frame_op]| |solve [frame_op]].
  repeat (destruct p as [p|p|]; try solve [frame_op]).
Qed.

End frames.

Section steps.
Context `{CR : Crypto} `{EC : Ecdsa}.

Lemma frame_executeOpcode op data : preserves frame (executeOpcode op data).
Proof.
  unfold executeOpcode, st_ensure. pose proof (frame_opfunc op data).
  repeat (apply preserves_bind; [apply _|first [by apply frame_lift_nothing|idtac]|intros]).
  - destruct (OP_16 <? op); [|preserve]. apply preserves_bind; [apply _|by apply frame_update|preserve].
  - preserve.
  - destruct (_ && _); [preserve|]. apply preserves_bind; [apply _|preserve|done].
Qed.

(** What a step that succeeds did. *)
Lemma Step_inv e b e' : Step e = (Ok b, e') →
  ∃ t e1, Next (tokenizer e) = (true, t) ∧ (scriptIdx e < length (scripts e))%nat ∧
    executeOpcode (top t) (default [] (tdata t)) (set_tokenizer t e) = (Ok tt, e1) ∧
    (if Done t then condStack e1 = [] ∧ (nextScript;; startScript) (set_numOps 0 (set_astack [] e1)) = (Ok b, e')
     else b = false ∧ e' = e1).
Proof.
  unfold Step. rewrite st_bind_run. cbn [st_get]. rewrite st_bind_run. unfold st_ensure at 1.
  destruct (ensure (Nat.ltb _ _) _) as [[]|] eqn:Hi; cbn [st_lift]; [|done]. apply ensure_Ok, Nat.ltb_lt in Hi.
  destruct (Next (tokenizer e)) as [[] t] eqn:Hn; [|done]. rewrite st_bind_run. cbn [update].
  rewrite st_bind_run. destruct (executeOpcode _ _ _) as [[[]|x] e1] eqn:Ex; [|done]. rewrite st_bind_run. cbn [st_get].
  rewrite st_bind_run. unfold st_ensure at 1. destruct (ensure (_ <=? _) _) as [[]|]; cbn [st_lift]; [|done].
  intros H1. exists t, e1. split_and!; [done..|]. destruct (Done t); cbn [negb] in H1; [|by injection H1 as <- <-].
  rewrite st_bind_run in H1. unfold st_ensure in H1. destruct (ensure (bool_decide _) _) as [[]|] eqn:Hc; cbn [st_lift] in H1; [|done].
  apply ensure_Ok, bool_decide_eq_true, length_zero_iff_nil in Hc. split; [done|]. exact H1.
Qed.

(** *** Every execution ends *)

(** The script the engine is at has bytes left, and there are three scripts
    only once the third is reached. *)
Record at_script (e : Engine) (more : nat) : Prop := {
  as_rest : trest (tokenizer e) ≠ [] ∧ terr (tokenizer e) = false;
  as_more : (2 ≤ more + scriptIdx e)%nat;
  as_scripts : length (scripts e) = 2%nat ∨ length (scripts e) = 3%nat ∧ (2 ≤ scriptIdx e)%nat;
}.

Lemma nextScript_inv e e' : nextScript e = (Ok tt, e') →
  scriptIdx e' = S (scriptIdx e) ∧
  (scripts e' = scripts e ∨ scriptIdx e = 1%nat ∧ ∃ x, scripts e' = scripts e ++ [x]).
Proof.
  unfold nextScript. rewrite st_bind_run. cbn [st_get]. destruct (Nat.eqb (scriptIdx e) 0 && bip16 e) eqn:E0.
  { intros [= <-]. apply andb_true_iff in E0 as [->%Nat.eqb_eq _]. by split; [|left]. }
  destruct (Nat.eqb (scriptIdx e) 1 && bip16 e) eqn:E1; [|intros [= <-]; by split; [|left]].
  apply andb_true_iff in E1 as [Hi%Nat.eqb_eq _]. rewrite st_bind_run. cbn [update]. rewrite st_bind_run.
  assert (preserves frame (CheckErrorCondition false)) as Hf by (unfold CheckErrorCondition, st_ensure; preserve).
  destruct (CheckErrorCondition false _) as [[[]|x] e1] eqn:Ec; [|done]. destruct (Hf _ _ _ Ec) as (_&_&_&_&Es&Ei&_&_). cbn in Es, Ei.
  destruct (savedFirstStack e) as [|s st]; [done|]. rewrite st_bind_run. unfold st_ensure.
  destruct (ensure _ _) as [[]|]; cbn [st_lift]; [|done]. intros [= <-]. cbn. rewrite Es, Ei, Hi. split; [done|]. right. eauto.
Qed.

Lemma startScript_inv e b e' : startScript e = (Ok b, e') →
  b = true ∨ b = false ∧ scripts e' = scripts e ∧ ∃ script, scripts e !! scriptIdx e' = Some script ∧
    tokenizer e' = MakeScriptTokenizer script ∧
    (scriptIdx e' = scriptIdx e ∧ script ≠ [] ∨ scriptIdx e' = S (scriptIdx e) ∧ scripts e !! scriptIdx e = Some []).
Proof.
  unfold startScript. rewrite st_bind_run. cbn [st_get]. rewrite st_bind_run. cbn [update].
  set (i := if bool_decide _ then _ else _).
  assert (i = scriptIdx e ∧ scripts e !! scriptIdx e ≠ Some [] ∨ i = S (scriptIdx e) ∧ scripts e !! scriptIdx e = Some []) as Hi
    by (unfold i; case_bool_decide; auto).
  clearbody i. destruct (scripts e !! i) as [script|] eqn:E; [|by intros H1; inversion H1; left].
  rewrite st_bind_run. cbn [update]. intros H1. inversion H1. subst b e'. right. split; [done|]. split; [done|].
  exists script. cbn. split_and!; [done..|]. destruct Hi as [[-> Hs]|[-> Hs]]; [left|by right]. split; [done|]. intros ->. done.
Qed.

Lemma Done_false t : Done t = false → trest t ≠ [] ∧ terr t = false.
Proof. unfold Done. destruct (terr t), (trest t); done. Qed.

Lemma Step_progress e more e' : at_script e more → Step e = (Ok false, e') →
  scriptIdx e' = scriptIdx e ∧ at_script e' more ∧ (length (trest (tokenizer e')) < length (trest (tokenizer e)))%nat ∨
  scriptIdx e' ≠ scriptIdx e ∧ ∃ more', more = S more' ∧ at_script e' more'.
Proof.
  intros [Hr Hm Hs] (t&e1&Hn&Hlt&(_&_&_&_&Es&Ei&Et&_)%frame_executeOpcode&Hd)%Step_inv. cbn in Es, Ei, Et.
  destruct (Next_true _ _ Hn) as [Hl Hte]. destruct (Done t) eqn:HD.
  - destruct Hd as (_&Hd). rewrite st_bind_run in Hd. destruct (nextScript _) as [[[]|x] e2] eqn:E2; [|done].
    apply nextScript_inv in E2 as [Hi2 Hs2]. cbn in Hi2, Hs2. rewrite Ei, Es in *.
    apply startScript_inv in Hd as [?|(_&Hs3&script&Hsc&Htok&Hi3)]; [done|]. right.
    assert (length (scripts e2) = 2%nat ∨ length (scripts e2) = 3%nat ∧ (2 ≤ scriptIdx e2)%nat) as Hlen.
    { rewrite Hi2. destruct Hs2 as [->|(Hone&x&->)]; [destruct Hs as [->|[-> ?]]; [by left|right; lia]|].
      rewrite length_app. cbn. destruct Hs as [->|[_ ?]]; [|lia]. right. lia. }
    pose proof (lookup_lt_Some _ _ _ Hsc) as Hlt3. split; [lia|].
    destruct Hi3 as [[Hi3 Hne]|[Hi3 He]]; [|exfalso; destruct Hlen as [?|[? ?]]; lia].
    exists (pred more). split; [lia|]. split; [by rewrite Htok|lia|]. rewrite Hs3, Hi3. done.
  - destruct Hd as [_ ->]. left. rewrite Ei, Et. split; [done|]. split; [|exact Hl].
    split; rewrite ?Es, ?Ei, ?Et; [|done..]. by apply Done_false.
Qed.

Lemma execLoop_S more fuel e :
  execLoop more (S fuel) e =
  match Step e with
  | (Err x, e') => Some (Err x, e')
  | (Ok true, e') => Some (Ok tt, e')
  | (Ok false, e') =>
      if Nat.eqb (scriptIdx e') (scriptIdx e) then execLoop more fuel e'
      else match more with O => None | S more => execLoop more (length (trest (tokenizer e'))) e' end
  end.
Proof. by destruct more. Qed.

Lemma execLoop_ends more fuel e :
  at_script e more → (length (trest (tokenizer e)) ≤ fuel)%nat → execLoop more fuel e ≠ None.
Proof.
  revert fuel e. induction more as [more IHm] using (well_founded_induction lt_wf).
  intros fuel. induction fuel as [|fuel IH]; intros e He Hf.
  { destruct He as [[Hr _] _ _]. by destruct (trest (tokenizer e)); [|cbn in Hf; lia]. }
  rewrite execLoop_S. destruct (Step e) as [[[]|x] e'] eqn:E; [done| |done].
  destruct (Step_progress _ _ _ He E) as [(Hi&He'&Hl)|(Hi&more'&->&He')].
  - rewrite (proj2 (Nat.eqb_eq _ _) Hi). apply IH; [done|lia].
  - rewrite (proj2 (Nat.eqb_neq _ _) Hi). apply (IHm more'); [lia|done|done].
Qed.

(** An engine always comes to an end. *)
Lemma Execute_ends scriptPubKey tx txIdx flags e :
  NewEngine scriptPubKey tx txIdx flags = Ok e → execLoop 2 (length (trest (tokenizer e))) e ≠ None.
Proof.
  unfold NewEngine. intros H1. ok_inv. subst e. apply execLoop_ends; [|done].
  split; cbn; [|lia|by left]. split; [|done]. case_bool_decide as Hs; [|done].
  intros ->. rewrite Hs in *. by rewrite bool_decide_eq_true_2 in * by done.
Qed.

(** *** Running through a script *)

(** A check that was passed left the engine as it was. *)
Lemma ensure_run {S A} b x (f : unit → St S A) s r s' :
  (st_ensure b x ≫= f) s = (Ok r, s') → b = true ∧ f tt s = (Ok r, s').
Proof. rewrite st_bind_run. unfold st_ensure. destruct b; cbn; [done|discriminate]. Qed.

Lemma lift_run {S A B} (m : result B) (f : B → St S A) s r s' :
  (st_lift m ≫= f) s = (Ok r, s') → ∃ x, m = Ok x ∧ f x s = (Ok r, s').
Proof. rewrite st_bind_run. destruct m; cbn; [eauto|discriminate]. Qed.

Lemma bind_run {S A B} (m : St S B) (f : B → St S A) s r s' :
  (m ≫= f) s = (Ok r, s') → ∃ x s1, m s = (Ok x, s1) ∧ f x s1 = (Ok r, s').
Proof. rewrite st_bind_run. destruct (m s) as [[x|x] s1]; [eauto|discriminate]. Qed.

Lemma runs_mid more fuel e r t :
  Next (tokenizer e) = (true, t) → Done t = false → execLoop more fuel e = Some (Ok tt, r) →
  ∃ e1 fuel', fuel = S fuel' ∧ executeOpcode (top t) (default [] (tdata t)) (set_tokenizer t e) = (Ok tt, e1) ∧
    execLoop more fuel' e1 = Some (Ok tt, r).
Proof.
  intros Hn Hd. destruct fuel as [|fuel]; [by destruct more|]. rewrite execLoop_S.
  destruct (Step e) as [[b|x] e'] eqn:E; [|done]. apply Step_inv in E as (t'&e1&Hn'&_&Hx&Hb).
  rewrite Hn in Hn'. injection Hn' as <-. rewrite Hd in Hb. destruct Hb as [-> ->].
  destruct (frame_executeOpcode _ _ _ _ _ Hx) as (_&_&_&_&_&Ei&_). rewrite Ei. cbn. rewrite Nat.eqb_refl. eauto.
Qed.

Lemma runs_last more fuel e r t :
  Next (tokenizer e) = (true, t) → Done t = true → execLoop more fuel e = Some (Ok tt, r) →
  ∃ e1 e2 b e3, executeOpcode (top t) (default [] (tdata t)) (set_tokenizer t e) = (Ok tt, e1) ∧ condStack e1 = [] ∧
    nextScript (set_numOps 0 (set_astack [] e1)) = (Ok tt, e2) ∧ startScript e2 = (Ok b, e3) ∧
    (b = true ∧ r = e3 ∨ b = false ∧ ∃ more', more = S more' ∧ execLoop more' (length (trest (tokenizer e3))) e3 = Some (Ok tt, r)).
Proof.
  intros Hn Hd. destruct fuel as [|fuel]; [by destruct more|]. rewrite execLoop_S.
  destruct (Step e) as [[b|x] e3] eqn:E; [|done]. apply Step_inv in E as (t'&e1&Hn'&_&Hx&Hb).
  rewrite Hn in Hn'. injection Hn' as <-. rewrite Hd in Hb. destruct Hb as [Hc Hb]. apply bind_run in Hb as ([]&e2&H2&H3).
  destruct (frame_executeOpcode _ _ _ _ _ Hx) as (_&_&_&_&_&Ei&_). cbn in Ei. intros H4.
  exists e1, e2, b, e3. split_and!; [done..|]. destruct b; [left; by injection H4 as ->|]. right. split; [done|].
  apply nextScript_inv in H2 as [Hi2 _]. cbn in Hi2. rewrite Ei in Hi2.
  apply startScript_inv in H3 as [?|(_&_&script&_&_&Hi3)]; [done|].
  rewrite (proj2 (Nat.eqb_neq _ _)) in H4 by (destruct Hi3 as [[-> _]|[-> _]]; lia).
  destruct more as [|more]; [done|]. eauto.
Qed.

(** What an opcode up to OP_16 pushes. *)
Definition item (op : Z) (data : bytes) : bytes :=
  if op =? OP_0 then [] else if op <=? OP_PUSHDATA4 then data
  else scriptNumBytes (if op =? OP_1NEGATE then -1 else op - (OP_1 - 1)).

Lemma exec_push op data e e1 :
  op ≤ OP_16 → condStack e = [] → executeOpcode op data e = (Ok tt, e1) → e1 = set_dstack (item op data :: dstack e) e.
Proof.
  intros Hop Hc. unfold executeOpcode. intros (_&H1)%ensure_run. apply ensure_run in H1 as (_&H1).
  rewrite (proj2 (Z.ltb_ge _ _) Hop) in H1. apply ensure_run in H1 as (_&H1). apply bind_run in H1 as (e0&e0'&E0&H1). injection E0 as <- <-.
  unfold isBranchExecuting at 1 in H1. rewrite Hc in H1. cbn [negb andb] in H1. apply lift_run in H1 as (_&_&H1).
  revert H1. unfold opfunc, item, OP_0, OP_1NEGATE, OP_PUSHDATA4, OP_1, OP_16 in *.
  destruct (Z.eqb_spec op 0); [by intros [= <-]|]. destruct (Z.leb_spec 1 op), (Z.leb_spec op 78); cbn [andb].
  - by intros [= <-].
  - rewrite (proj2 (Z.leb_le op 96)) by lia. rewrite andb_true_r. destruct (Z.leb_spec 81 op).
    + rewrite (proj2 (Z.eqb_neq op 79)) by lia. by intros [= <-].
    + assert (op = 79 ∨ op = 80) as [E79 | E80] by lia; subst op; [by intros [= <-] | done].
  - rewrite (proj2 (Z.leb_gt 81 op)) by lia. cbn [andb]. destruct op; [lia..|done].
  - lia.
Qed.

Lemma exec_op op data e e1 :
  OP_16 < op → condStack e = [] → executeOpcode op data e = (Ok tt, e1) →
  opfunc op data (set_numOps (numOps e + 1) e) = (Ok tt, e1).
Proof.
  intros Hop Hc. unfold executeOpcode. intros (_&H1)%ensure_run. apply ensure_run in H1 as (_&H1).
  rewrite (proj2 (Z.ltb_lt _ _) Hop) in H1. apply bind_run in H1 as ([]&e2&H2&H1).
  apply bind_run in H2 as ([]&e3&H3&H2). injection H3 as <-. apply bind_run in H2 as (e4&e5&H4&H2). injection H4 as <- <-.
  assert (e2 = set_numOps (numOps e + 1) e) as -> by (unfold st_ensure in H2; destruct (ensure _ _) as [[]|]; [by inversion H2|done]).
  apply bind_run in H1 as (e4&e5&H4&H1). injection H4 as <- <-. unfold isBranchExecuting at 1 in H1. cbn [condStack set_numOps] in H1.
  rewrite Hc in H1. cbn [negb andb] in H1. by apply lift_run in H1 as (_&_&H1).
Qed.
End steps.
