(* ===== verification/Context.v ===== *)
(** * Rules that depend on a block's place in the chain

    The difficulty rule of [btcd/blockchain/difficulty.go], and the header and
    block checks of [btcd/blockchain/validate.go] that look at the parent:
    versions, median time, finality, the height in the coinbase and the
    witness rules. *)

From Stdlib Require Import ZArith List Lia.
From stdpp Require Import base list gmap strings.
From S2P Require Import Prelude.
From S2P Require Import Wire.
From S2P Require Import Script.
From S2P Require Import Chain.
From S2P Require Import Merkle.
From S2P Require Import Versionbits.
From S2P Require Import Utxo.
From S2P Require Import Validate.

Open Scope Z_scope.

(** ** Difficulty *)

(** The values [newDogecoinVMParams] sets, times in seconds. *)
Definition PowLimit : Z := 2 ^ 255 - 1.
Definition PowLimitBits : Z := 486604799.
Definition TargetTimespan : Z := 1209600.
Definition BlocksPerRetarget : Z := 2016.
Definition MinRetargetTimespan : Z := TargetTimespan / 4.
Definition MaxRetargetTimespan : Z := TargetTimespan * 4.
Definition MinDiffReductionTime : Z := 1200.

(** The loop walks down while the bits are those of the special rule; the
    heights bound it. *)
Fixpoint prevTestNetLoop (fuel : nat) (H : heap) (iterNode : option ptr) : option ptr :=
  match fuel with
  | O => iterNode
  | S f =>
      match iterNode ≫= fun p => H !! p with
      | None => None
      | Some nd =>
          if negb (bn_height nd mod BlocksPerRetarget =? 0) && (bn_bits nd =? PowLimitBits)
          then prevTestNetLoop f H (bn_parent nd) else iterNode
      end
  end.

Definition findPrevTestNetDifficulty (H : heap) (startNode : ptr) (nd : blockNode) : Z :=
  match prevTestNetLoop (S (Z.to_nat (bn_height nd))) H (Some startNode) ≫= fun p => H !! p with
  | Some nd => bn_bits nd
  | None => PowLimitBits
  end.

Definition calcNextRequiredDifficulty (H : heap) (lastNode : ptr) (newBlockTime : Z) : result Z :=
  match H !! lastNode with
  | None => Ok PowLimitBits
  | Some nd =>
      if negb (int32_wrap (bn_height nd + 1) mod BlocksPerRetarget =? 0) then
        if bn_timestamp nd + MinDiffReductionTime <? newBlockTime then Ok PowLimitBits
        else Ok (findPrevTestNetDifficulty H lastNode nd)
      else
        firstNode ← from_option_err (RelativeAncestor H lastNode (BlocksPerRetarget - 1) ≫= fun p => H !! p)
                      (Errorf "unable to obtain previous retarget block");
        let actualTimespan := bn_timestamp nd - bn_timestamp firstNode in
        let adjustedTimespan :=
          if actualTimespan <? MinRetargetTimespan then MinRetargetTimespan
          else if MaxRetargetTimespan <? actualTimespan then MaxRetargetTimespan
          else actualTimespan in
        let newTarget := CompactToBig (bn_bits nd) * adjustedTimespan / TargetTimespan in
        Ok (BigToCompact (Z.min newTarget PowLimit))
  end.

(** ** Finality and the coinbase's height *)


Definition IsFinalizedTransaction (tx : MsgTx) (blockHeight blockTime : Z) : bool :=
  if LockTime tx =? 0 then true
  else if LockTime tx <? (if LockTime tx <? LockTimeThreshold then blockHeight else blockTime) then true
  else forallb (fun ti => Sequence ti =? MaxTxInSequenceNum) (txIn tx).

Definition serializedHeightVersion : Z := 2.

Definition ShouldHaveSerializedBlockHeight (header : BlockHeader) : bool :=
  serializedHeightVersion <=? Version header.

Definition compareScript (height : Z) (script : bytes) : result unit :=
  scriptHeight ← Script (AddInt64 NewScriptBuilder height);
  ensure (bool_decide (take (length scriptHeight) script = scriptHeight))
    (ruleError "the coinbase signature script does not minimally encode the height").

Definition ExtractCoinbaseHeight (coinbaseTx : MsgTx) : result Z :=
  match txIn coinbaseTx with
  | [] => Err (goPanic "index out of range")
  | ti :: _ =>
      match SignatureScript ti with
      | [] => Err (ruleError "the coinbase signature script must start with the length of the serialized block height")
      | opcode :: rest =>
          if opcode =? OP_0 then Ok 0
          else if (OP_1 <=? opcode) && (opcode <=? OP_16) then Ok (opcode - (OP_1 - 1))
          else
            ensure (opcode <=? Z.of_nat (length rest))
              (ruleError "the coinbase signature script must start with the serialized block height");;
            let heightBytes := take 4 (take (Z.to_nat opcode) rest) in
            let serializedHeight := int32_of (le_Z heightBytes) in
            compareScript serializedHeight (SignatureScript ti);;
            Ok serializedHeight
      end
  end.

Definition CheckSerializedHeight (coinbaseTx : MsgTx) (wantHeight : Z) : result unit :=
  serializedHeight ← ExtractCoinbaseHeight coinbaseTx;
  ensure (serializedHeight =? wantHeight)
    (ruleError "the coinbase signature script serialized block height is not the expected one").

(** ** The checks *)

(** No checkpoints are set, and BIP 94 is not enforced. *)
Definition CheckBlockHeaderContext (p : Params) (H : heap) (header : BlockHeader) (prevNode : ptr) : result unit :=
  nd ← from_option_err (H !! prevNode) (goPanic "nil pointer dereference");
  let blockHeight := int32_wrap (bn_height nd + 1) in
  expectedDifficulty ← calcNextRequiredDifficulty H prevNode (Timestamp header);
  ensure (Bits header =? expectedDifficulty) (ruleError "block difficulty is not the expected value");;
  medianTime ← from_option_err (CalcPastMedianTime H prevNode) (goPanic "index out of range");
  ensure (medianTime <? Timestamp header) (ruleError "block timestamp is not after expected");;
  ensure (negb (((Version header <? 2) && (BIP0034Height p <=? blockHeight)) ||
                ((Version header <? 3) && (BIP0066Height p <=? blockHeight)) ||
                ((Version header <? 4) && (BIP0065Height p <=? blockHeight))))
    (ruleError "new blocks with this version are no longer valid").

(** ** Witness commitments *)

Definition CoinbaseWitnessDataLen : nat := 32.
Definition CoinbaseWitnessPkScriptLength : nat := 38.
Definition WitnessMagicBytes : bytes := [106; 36; 170; 33; 169; 237].
Definition MaxBlockWeight : Z := 4000000.

Definition isCommitment (o : TxOut) : bool :=
  Nat.leb CoinbaseWitnessPkScriptLength (length (PkScript o)) &&
  bool_decide (take (length WitnessMagicBytes) (PkScript o) = WitnessMagicBytes).

(** The last output that carries a commitment has it. *)
Definition ExtractWitnessCommitment (tx : MsgTx) : option bytes :=
  if negb (IsCoinBaseTx tx) then None
  else
    o ← head (filter (fun o => isCommitment o = true) (reverse (txOut tx)));
    Some (drop (length WitnessMagicBytes) (take CoinbaseWitnessPkScriptLength (PkScript o))).

Definition ValidateWitnessCommitment `{Crypto} (b : MsgBlock) : result unit :=
  match bl_Transactions b with
  | [] => Err (ruleError "cannot validate witness commitment of block without transactions")
  | coinbaseTx :: _ =>
      match txIn coinbaseTx with
      | [] => Err (ruleError "transaction has no inputs")
      | ti :: _ =>
          match ExtractWitnessCommitment coinbaseTx with
          | None =>
              ensure (forallb (fun tx => negb (HasWitness tx)) (bl_Transactions b))
                (ruleError "block contains transaction with witness data, yet no witness commitment present")
          | Some witnessCommitment =>
              match Witness ti with
              | [witnessNonce] =>
                  ensure (Nat.eqb (length witnessNonce) CoinbaseWitnessDataLen)
                    (ruleError "the coinbase transaction witness nonce has the wrong length");;
                  let witnessMerkleRoot := CalcMerkleRoot (bl_Transactions b) true in
                  ensure (bool_decide (DoubleHashRaw (witnessMerkleRoot ++ witnessNonce) = witnessCommitment))
                    (ruleError "witness commitment does not match")
              | _ => Err (ruleError "the coinbase transaction has the wrong number of witness items")
              end
          end
      end
  end.

Definition GetBlockWeight (b : MsgBlock) : Z :=
  block_SerializeSizeStripped b * (WitnessScaleFactor - 1) + block_SerializeSize b.

Definition checkBlockContext `{Crypto} (p : Params) (H : heap) (b : MsgBlock)
    (prevNode : ptr) : result unit :=
  CheckBlockHeaderContext p H (bl_Header b) prevNode;;
  nd ← from_option_err (H !! prevNode) (goPanic "nil pointer dereference");
  let csv := deploymentActive p H (Some prevNode) DeploymentCSV in
  blockTime ← (if csv then from_option_err (CalcPastMedianTime H prevNode) (goPanic "index out of range")
               else Ok (Timestamp (bl_Header b)));
  let blockHeight := int32_wrap (bn_height nd + 1) in
  ensure (forallb (fun tx => IsFinalizedTransaction tx blockHeight blockTime) (bl_Transactions b))
    (ruleError "block contains unfinalized transaction");;
  (if ShouldHaveSerializedBlockHeight (bl_Header b) && (BIP0034Height p <=? blockHeight) then
     match bl_Transactions b with
     | cb :: _ => CheckSerializedHeight cb blockHeight
     | [] => Err (goPanic "index out of range")
     end
   else Ok tt);;
  if deploymentActive p H (Some prevNode) DeploymentSegwit then
    ValidateWitnessCommitment b;;
    ensure (GetBlockWeight b <=? MaxBlockWeight) (ruleError "block's weight metric is too high")
  else ensure (forallb (fun tx => negb (HasWitness tx)) (bl_Transactions b))
         (ruleError "block contains transaction with witness data before segwit is active").

(** A block that passes carries its height in its coinbase. *)
Lemma checkBlockContext_height `{CR : Crypto} p H b prevNode nd cb rest n :
  checkBlockContext p H b prevNode = Ok tt → BIP0034Height p ≤ n → H !! prevNode = Some nd →
  bl_Transactions b = cb :: rest → n = 1 + bn_height nd → -1 ≤ bn_height nd < 2147483647 →
  ExtractCoinbaseHeight cb = Ok n.
Proof.
  intros E Hbip Hnd Etx En Hh. unfold checkBlockContext in E. rewrite Hnd, Etx in E.
  apply bind_Ok in E as ([]&Eh&E). cbn [from_option_err] in E. rewrite bind_Ok_l in E.
  rewrite int32_wrap_small in E by lia.
  apply bind_Ok in E as (bt&_&E). apply bind_Ok in E as ([]&_&E). apply bind_Ok in E as ([]&Es&_).
  unfold CheckBlockHeaderContext in Eh. rewrite Hnd in Eh. cbn [from_option_err] in Eh. rewrite bind_Ok_l in Eh.
  rewrite int32_wrap_small in Eh by lia.
  repeat (apply bind_Ok in Eh as (?&_&Eh)). apply ensure_Ok in Eh. rewrite !negb_orb in Eh.
  assert (ShouldHaveSerializedBlockHeight (bl_Header b) = true) as Hv.
  { unfold ShouldHaveSerializedBlockHeight, serializedHeightVersion. apply Z.leb_le.
    destruct (Z.ltb_spec (Version (bl_Header b)) 2); [|done]. destruct (Z.leb_spec (BIP0034Height p) (bn_height nd + 1)); [|lia].
    done. }
  rewrite Hv, (proj2 (Z.leb_le _ _)) in Es by lia. cbn [andb] in Es.
  unfold CheckSerializedHeight in Es. apply bind_Ok in Es as (h&->&Es). apply ensure_Ok, Z.eqb_eq in Es.
  f_equal. lia.
Qed.
