(* ===== verification/Block.v ===== *)
(** Blocks on the wire: src/btcd/wire/msgblock.go and blockheader.go. The
    decoder of a block is exact, as the decoder of a transaction is: it reads
    the encoding of a well-formed block and nothing else. *)

From Stdlib Require Import ZArith List Lia.
From stdpp Require Import base list.
From S2P Require Import Prelude.
From S2P Require Import Wire.
From S2P Require Import Decode.
From S2P Require Import Chain.
From S2P Require Import Validate.

Open Scope Z_scope.

(** ** Headers *)

Definition readBlockHeader : St reader BlockHeader :=
  v ← readLE 4; prev ← ReadFull HashSize; root ← ReadFull HashSize;
  ts ← readLE 4; bits ← readLE 4; nonce ← readLE 4;
  mret (mkHeader (int32_of v) prev root ts bits nonce).

Lemma reads_header h : header_ok h → reads readBlockHeader (writeBlockHeader h) 0 h.
Proof.
  intros [Hv [Hp _] [Hr _] Ht Hb Hn]. unfold readBlockHeader, writeBlockHeader.
  assert (∀ z, u32_ok z → 0 ≤ z < 256 ^ Z.of_nat 4) as H4 by (intros z Hz; exact Hz).
  eapply reads_bind0; [done|apply reads_le, H4, (Z.mod_pos_bound _ two32); done|].
  eapply reads_bind0; [done|by apply reads_full|]. eapply reads_bind0; [done|by apply reads_full|].
  eapply reads_bind0; [done|apply reads_le, H4, (Z.mod_pos_bound _ two32); done|].
  eapply reads_bind0; [done|by apply reads_le, H4|].
  destruct h as [v p r t b n]; cbn [Version Timestamp PrevBlock MerkleRoot Bits Nonce] in *.
  rewrite int32_of_mod by done. unfold u32_ok in Ht. rewrite (Z.mod_small t) by done. by apply reads_u32.
Qed.

Lemma sound_header : soundly readBlockHeader writeBlockHeader (fun _ => 0) header_ok.
Proof.
  intros r h r' Hb H. unfold readBlockHeader in H. take_bind H v r1. take_bind H p r2. take_bind H m r3.
  take_bind H t r4. take_bind H b r5. take_bind H n r6. injection H as <- <-.
  destruct (sound_le 4 r v r1 Hb) as (E1&Hb1&Hr1&Hp1&Hv); [done|].
  destruct (sound_full HashSize r1 p r2 Hb1) as (E2&Hb2&Hr2&Hp2&Hp); [done|].
  destruct (sound_full HashSize r2 m r3 Hb2) as (E3&Hb3&Hr3&Hp3&Hm); [done|].
  destruct (sound_le 4 r3 t r4 Hb3) as (E4&Hb4&Hr4&Hp4&Ht); [done|].
  destruct (sound_le 4 r4 b r5 Hb4) as (E5&Hb5&Hr5&Hp5&Hbits); [done|].
  destruct (sound_le 4 r5 n r6 Hb5) as (E6&Hb6&Hr6&Hp6&Hn); [done|].
  destruct (int32_of_range v) as [Hv1 Hv2]; [done|].
  assert (t mod two32 = t) as Et by (by apply Z.mod_small).
  split_and!; try done; try lia.
  unfold writeBlockHeader. cbn [Version Timestamp PrevBlock MerkleRoot Bits Nonce].
  rewrite Hv2, Et, E1, E2, E3, E4, E5, E6, <- !app_assoc. done.
Qed.

(** ** Blocks *)

Definition maxTxPerBlock : Z := 4000000 / 10 + 1.

(** [MsgBlock.BtcEncode] and [BtcDecode] with the witness encoding. *)
Definition block_Serialize (b : MsgBlock) : bytes :=
  writeBlockHeader (bl_Header b) ++ WriteVarInt (Z.of_nat (length (bl_Transactions b))) ++
  concat (Serialize <$> bl_Transactions b).

Definition block_BtcDecode : St reader MsgBlock :=
  header ← readBlockHeader;
  txCount ← ReadVarInt;
  _ ← st_ensure (txCount <=? maxTxPerBlock) (Errorf "too many transactions to fit into a block");
  txs ← readMany (Z.to_nat txCount) BtcDecode;
  mret (mkBlock header txs).

(** What Go's types and the limits of the decoder allow. *)
Record block_ok (b : MsgBlock) : Prop := {
  bk_header : header_ok (bl_Header b);
  bk_txs : Forall tx_ok (bl_Transactions b);
  bk_count : Z.of_nat (length (bl_Transactions b)) ≤ maxTxPerBlock }.

(** A transaction is read whatever the reader before it left of the slab. *)
Lemma BtcDecode_reads tx rest k :
  tx_ok tx → ∃ k', BtcDecode (mkReader (Serialize tx ++ rest) k) = (Ok tx, mkReader rest k').
Proof.
  intros Hok. unfold BtcDecode. rewrite st_bind_run. cbn [borrowSlab unread].
  rewrite (reads_tx tx Hok rest scriptSlabSize (tx_ok_slab _ Hok)). by eexists.
Qed.

Lemma BtcDecode_sound r tx r' :
  bytes_ok (unread r) → BtcDecode r = (Ok tx, r') →
  unread r = Serialize tx ++ unread r' ∧ bytes_ok (unread r') ∧ tx_ok tx.
Proof.
  intros Hb. unfold BtcDecode. rewrite st_bind_run. cbn [borrowSlab unread]. intros E.
  destruct (sound_tx (mkReader (unread r) scriptSlabSize) _ _ Hb E) as (Ebs&Hb'&Hr&Hp&Hok).
  cbn [room] in *. split_and!; try done. apply Hok. rewrite <- Hr. by apply Hp.
Qed.

Lemma readTxs_reads txs rest k :
  Forall tx_ok txs →
  ∃ k', readMany (length txs) BtcDecode (mkReader (concat (Serialize <$> txs) ++ rest) k) = (Ok txs, mkReader rest k').
Proof.
  intros Hok. revert k. induction Hok as [|tx txs Htx Hok IH]; intros k; [by exists k|].
  cbn [length readMany]. rewrite fmap_cons. cbn [concat]. rewrite <- app_assoc, st_bind_run.
  destruct (BtcDecode_reads tx (concat (Serialize <$> txs) ++ rest) k Htx) as [k1 ->].
  rewrite st_bind_run. destruct (IH k1) as [k2 ->]. by exists k2.
Qed.

Lemma readTxs_sound n r txs r' :
  bytes_ok (unread r) → readMany n BtcDecode r = (Ok txs, r') →
  unread r = concat (Serialize <$> txs) ++ unread r' ∧ length txs = n ∧ Forall tx_ok txs.
Proof.
  revert r txs. induction n as [|n IH]; intros r txs Hb H; cbn [readMany] in H.
  - injection H as <- <-. done.
  - take_bind H tx r1. take_bind H txs' r2. injection H as <- <-.
    destruct (BtcDecode_sound r tx r1 Hb) as (E&Hb1&Htx); [done|].
    destruct (IH r1 txs' Hb1) as (E2&El&HF); [done|].
    rewrite fmap_cons. cbn [concat length]. rewrite <- app_assoc, <- E2, El. split_and!; try done. by constructor.
Qed.

Lemma block_reads b rest k :
  block_ok b → 0 ≤ k → ∃ k', block_BtcDecode (mkReader (block_Serialize b ++ rest) k) = (Ok b, mkReader rest k').
Proof.
  intros [Hh Htx Hc] Hk. unfold block_BtcDecode, block_Serialize. change maxTxPerBlock with 400001 in *.
  rewrite <- !app_assoc, st_bind_run, (reads_header _ Hh) by done.
  rewrite st_bind_run, reads_VarInt by (unfold two64; lia).
  rewrite st_bind_run. cbn [st_ensure st_lift]. rewrite (proj2 (Z.leb_le _ _)) by done. cbn [ensure].
  rewrite Nat2Z.id, st_bind_run. destruct (readTxs_reads (bl_Transactions b) rest (k - 0 - 0) Htx) as [k' ->].
  exists k'. by destruct b.
Qed.

Lemma block_sound r b r' :
  bytes_ok (unread r) → block_BtcDecode r = (Ok b, r') → unread r = block_Serialize b ++ unread r' ∧ block_ok b.
Proof.
  intros Hb H. unfold block_BtcDecode in H. take_bind H h r1. take_bind H c r2.
  destruct (sound_header r h r1 Hb) as (E1&Hb1&_&_&Hh); [done|].
  destruct (sound_VarInt r1 c r2 Hb1) as (E2&Hb2&_&_&Hc); [done|]. take_ensure H. take_bind H txs r3. injection H as <- <-.
  match goal with H : readMany _ _ r2 = _ |- _ => destruct (readTxs_sound _ _ _ _ Hb2 H) as (E3&El&HF) end.
  match goal with H : (_ <=? _) = true |- _ => apply Z.leb_le in H as Hle end.
  apply (f_equal Z.of_nat) in El. rewrite Z2Nat.id in El by lia.
  unfold block_Serialize. cbn [bl_Header bl_Transactions]. rewrite El, E1, E2, E3, <- !app_assoc.
  split; [done|]. split; simpl; try done. lia.
Qed.
