(* ===== verification/Process.v ===== *)
(** * Accepting blocks

    [btcd/blockchain]: process.go, accept.go and the parts of chain.go that
    connect, disconnect and reorganize.  The chain holds its block nodes in a
    heap, the best branch as a view, the coins in the cache of [Utxo], and its
    tables in the database.  Every database transaction takes its outcome from
    [uc_failures], so any of them may fail.

    DogecoinVM sets no checkpoints and does not prune; index updates run
    inside the transaction of [connectBlock] and fail with it. *)

From Stdlib Require Import ZArith List Lia.
From stdpp Require Import base list gmap strings.
From S2P Require Import Prelude.
From S2P Require Import Wire.
From S2P Require Import Chain.
From S2P Require Import Versionbits.
From S2P Require Import Utxo.
From S2P Require Import Validate.
From S2P Require Import Context.

Open Scope Z_scope.

(** ** State *)

Record BestState := mkBest {
  bs_Hash : bytes; bs_Height : Z; bs_Bits : Z; bs_BlockSize : Z; bs_BlockWeight : Z; bs_NumTxns : Z;
  bs_TotalTxns : Z; bs_MedianTime : Z }.

(** What is stored of it. *)
Record bestChainState := mkBestRow { bcs_hash : bytes; bcs_height : Z; bcs_totalTxns : Z; bcs_workSum : Z }.

Definition dbPutBestState (snapshot : BestState) (workSum : Z) : bestChainState :=
  mkBestRow (bs_Hash snapshot) (bs_Height snapshot) (bs_TotalTxns snapshot) workSum.

(** The tables: stored blocks, the rows of the block index, main chain
    heights, the spend journal, and the best state, which a new database does
    not have. *)
Record chainDB := mkDB {
  db_blocks : gmap bytes MsgBlock;
  db_nodes : gmap bytes (BlockHeader * Z);
  db_heights : gmap bytes Z;
  db_journal : gmap bytes (list coin);
  db_best : option bestChainState }.

Record orphanBlock := mkOrphan { ob_block : MsgBlock; ob_expiration : Z }.

Record BlockChain := mkChain {
  bc_heap : heap;
  bc_index : gmap bytes ptr;
  bc_dirty : gset nat;
  bc_best : chainView;
  bc_snapshot : BestState;
  bc_utxo : utxoCache;
  bc_db : chainDB;
  bc_orphans : gmap bytes orphanBlock;
  bc_prevOrphans : gmap bytes (list orphanBlock);
  bc_oldestOrphan : option orphanBlock;
  bc_vb : vbCaches }.

Notation Ch := (St BlockChain).

Definition set_index (H : heap) (index : gmap bytes ptr) (dirty : gset nat) (b : BlockChain) : BlockChain :=
  mkChain H index dirty (bc_best b) (bc_snapshot b) (bc_utxo b) (bc_db b) (bc_orphans b) (bc_prevOrphans b)
    (bc_oldestOrphan b) (bc_vb b).

Definition set_best (best : chainView) (snapshot : BestState) (b : BlockChain) : BlockChain :=
  mkChain (bc_heap b) (bc_index b) (bc_dirty b) best snapshot (bc_utxo b) (bc_db b) (bc_orphans b)
    (bc_prevOrphans b) (bc_oldestOrphan b) (bc_vb b).

Definition set_utxo (u : utxoCache) (b : BlockChain) : BlockChain :=
  mkChain (bc_heap b) (bc_index b) (bc_dirty b) (bc_best b) (bc_snapshot b) u (bc_db b) (bc_orphans b)
    (bc_prevOrphans b) (bc_oldestOrphan b) (bc_vb b).

Definition set_db (d : chainDB) (b : BlockChain) : BlockChain :=
  mkChain (bc_heap b) (bc_index b) (bc_dirty b) (bc_best b) (bc_snapshot b) (bc_utxo b) d (bc_orphans b)
    (bc_prevOrphans b) (bc_oldestOrphan b) (bc_vb b).

Definition set_orphans (orphans : gmap bytes orphanBlock) (prev : gmap bytes (list orphanBlock))
    (oldest : option orphanBlock) (b : BlockChain) : BlockChain :=
  mkChain (bc_heap b) (bc_index b) (bc_dirty b) (bc_best b) (bc_snapshot b) (bc_utxo b) (bc_db b) orphans prev oldest
    (bc_vb b).

Definition modify (f : BlockChain → BlockChain) : Ch unit := fun b => (Ok tt, f b).

Definition onCache {A} (m : St utxoCache A) : Ch A := fun b =>
  let '(r, u) := m (bc_utxo b) in (r, set_utxo u b).

Definition onVersionbits {A} (m : St vbCaches A) : Ch A := fun b =>
  let '(r, vb) := m (bc_vb b) in
  (r, mkChain (bc_heap b) (bc_index b) (bc_dirty b) (bc_best b) (bc_snapshot b) (bc_utxo b) (bc_db b)
        (bc_orphans b) (bc_prevOrphans b) (bc_oldestOrphan b) vb).

(** [db.View], and [db.Update] of the tables. *)
Definition dbView : Ch unit := onCache dbTx.
Definition dbUpdate (f : chainDB → chainDB) : Ch unit := dbView;; modify (fun b => set_db (f (bc_db b)) b).

Definition nilPointer : error := goPanic "nil pointer dereference".

Definition nodeAt (p : ptr) : Ch blockNode := b ← st_get; st_lift (from_option_err (bc_heap b !! p) nilPointer).

Definition tipNode : Ch (ptr * blockNode) :=
  b ← st_get;
  match view_tip (bc_best b) with
  | None => st_lift (Err nilPointer)
  | Some t => nd ← nodeAt t; mret (t, nd)
  end.

(** ** The block index *)

Definition HaveBlock (b : BlockChain) (hash : bytes) : bool := bool_decide (is_Some (bc_index b !! hash)).

Definition LookupNode (b : BlockChain) (hash : bytes) : option ptr := bc_index b !! hash.

Definition AddNode (p : ptr) (nd : blockNode) (b : BlockChain) : BlockChain :=
  set_index (bc_heap b) (<[bn_hash nd := p]> (bc_index b)) ({[ p ]} ∪ bc_dirty b) b.

Definition SetStatusFlags (p : ptr) (flags : Z) (b : BlockChain) : BlockChain :=
  match bc_heap b !! p with
  | None => b
  | Some nd =>
      set_index (<[p := setStatus nd (Z.lor (bn_status nd) flags)]> (bc_heap b)) (bc_index b)
        ({[ p ]} ∪ bc_dirty b) b
  end.

(** The height, most significant byte first, and the hash. *)
Definition blockIndexKey (blockHash : bytes) (blockHeight : Z) : bytes :=
  reverse (le_bytes 4 (uint32 blockHeight)) ++ blockHash.

Definition nodeKey (nd : blockNode) : bytes := blockIndexKey (bn_hash nd) (bn_height nd).

(** [dbStoreBlockNode] for every dirty node. *)
Definition storeNodes (H : heap) (dirty : gset nat) (d : chainDB) : chainDB :=
  mkDB (db_blocks d)
    (foldl (fun rows p => match H !! p with
                          | Some nd => <[nodeKey nd := (Header H nd, bn_status nd)]> rows
                          | None => rows
                          end) (db_nodes d) (elements dirty))
    (db_heights d) (db_journal d) (db_best d).

Definition flushToDB : Ch unit :=
  b ← st_get;
  if bool_decide (bc_dirty b = ∅) then mret tt
  else
    dbUpdate (storeNodes (bc_heap b) (bc_dirty b));;
    modify (fun b => set_index (bc_heap b) (bc_index b) ∅ b).

(** The error is logged and dropped. *)
Definition flushIndexState : Ch unit := fun b => let '(_, b') := flushToDB b in (Ok tt, b').

Definition isRuleError (e : error) : bool := match e with ruleError _ => true | _ => false end.

(** ** Connecting *)

Section chain.
Context `{CR : Crypto} `{SE : ScriptEngine} `{RT : GoRuntime}.

Context (p : Params) (now : Z).

Definition newBestState (H : heap) (node : ptr) (nd : blockNode) (blk : MsgBlock) (totalTxns : Z) : BestState :=
  mkBest (bn_hash nd) (bn_height nd) (bn_bits nd) (block_SerializeSize blk) (GetBlockWeight blk)
    (Z.of_nat (length (bl_Transactions blk))) totalTxns
    (default 0 (CalcPastMedianTime H node)).

Definition isCurrent (tip : blockNode) : bool := now - 86400 <=? bn_timestamp tip.

(** The tables after a block is connected, and after it is disconnected. *)
Definition dbConnect (state : BestState) (workSum : Z) (hash : bytes) (height : Z) (stxos : list coin)
    (d : chainDB) : chainDB :=
  mkDB (db_blocks d) (db_nodes d) (<[hash := height]> (db_heights d)) (<[hash := stxos]> (db_journal d))
    (Some (dbPutBestState state workSum)).

Definition connectBlock (node : ptr) (blk : MsgBlock) (stxos : list coin) : Ch unit :=
  '(tip, td) ← tipNode;
  st_ensure (bool_decide (PrevBlock (bl_Header blk) = bn_hash td))
    (Errorf "connectBlock must be called with a block that extends the main chain");;
  st_ensure (Nat.eqb (length stxos) (countSpentOutputs (bl_Transactions blk)))
    (Errorf "connectBlock called with inconsistent spent transaction out information");;
  nd ← nodeAt node;
  b ← st_get;
  (if isCurrent td then onVersionbits (warnUnknownRuleActivations (bc_heap b) (p_Deploy p) nd) else mret tt);;
  flushToDB;;
  b ← st_get;
  let total := (bs_TotalTxns (bc_snapshot b) + Z.of_nat (length (bl_Transactions blk))) mod two64 in
  let state := newBestState (bc_heap b) node nd blk total in
  dbUpdate (dbConnect state (bn_workSum nd) (BlockHash (bl_Header blk)) (bn_height nd) stxos);;
  modify (fun b => set_best (setTip (bc_heap b) (bc_best b) (Some node)) state b);;
  onCache (flush FlushIfNeeded false (bs_Hash state)).

Definition notAtTip : error :=
  Errorf "disconnectBlock must be called with the block at the end of the main chain".

(** The best state keeps the work of the block that is taken off. *)
Definition dbDisconnect (state : BestState) (workSum : Z) (hash : bytes) (d : chainDB) : chainDB :=
  mkDB (db_blocks d) (db_nodes d) (delete hash (db_heights d)) (delete hash (db_journal d)) (Some (dbPutBestState state workSum)).

Definition noBlock : error := Errorf "block is not stored".

Definition dbFetchBlockByNode (nd : blockNode) : Ch MsgBlock :=
  dbView;; b ← st_get; st_lift (from_option_err (db_blocks (bc_db b) !! bn_hash nd) noBlock).

(** The cache is written and the view's changes go to the bucket, in the
    transaction that moves the best state back; if it fails, the bucket and
    the tables are the old ones and the cache is empty. *)
Definition dbDisconnectBlock (state : BestState) (workSum : Z) (hash : bytes) (v : UtxoViewpoint) : Ch unit := fun b =>
  let u := writeCache (bs_Hash state) (bc_utxo b) in
  let put := fun db consistent u =>
    mkCache (uc_maps u) (uc_maxEntries u) (uc_lastFlushHash u) db consistent (uc_rooms u) (uc_fulls u) (uc_failures u) in
  match dbTx u with
  | (Ok _, u') =>
      (Ok tt, set_db (dbDisconnect state workSum hash (bc_db b))
                (set_utxo (put (dbPutUtxoView v (uc_db u')) (uc_consistent u') u') b))
  | (Err e, u') => (Err e, set_utxo (put (uc_db (bc_utxo b)) (uc_consistent (bc_utxo b)) u') b)
  end.

Definition disconnectBlock (node : ptr) (blk : MsgBlock) (v : UtxoViewpoint) : Ch UtxoViewpoint :=
  nd ← nodeAt node;
  '(tip, td) ← tipNode;
  st_ensure (bool_decide (bn_hash nd = bn_hash td)) notAtTip;;
  prev ← st_lift (from_option_err (bn_parent nd) nilPointer);
  prevNode ← nodeAt prev;
  prevBlock ← dbFetchBlockByNode prevNode;
  flushToDB;;
  b ← st_get;
  let total := (bs_TotalTxns (bc_snapshot b) - Z.of_nat (length (bl_Transactions blk))) mod two64 in
  let state := newBestState (bc_heap b) prev prevNode prevBlock total in
  dbDisconnectBlock state (bn_workSum nd) (BlockHash (bl_Header blk)) v;;
  modify (fun b => set_best (setTip (bc_heap b) (bc_best b) (bn_parent nd)) state b);;
  mret (commit v).

(** ** Reorganizing *)

(** The nodes from [n] down to the fork, until a known invalid one: what was
    collected, lowest first, and whether an invalid one stopped it. *)
Fixpoint attachLoop (fuel : nat) (H : heap) (n fork : option ptr) (acc : list ptr) : list ptr * bool :=
  match fuel with
  | O => (acc, false)
  | S f =>
      if bool_decide (n = fork) then (acc, false) else
      match n with
      | None => (acc, false)
      | Some q =>
          match H !! q with
          | None => (acc, false)
          | Some nd =>
              if KnownInvalid (bn_status nd) then (acc, true)
              else attachLoop f H (bn_parent nd) fork (q :: acc)
          end
      end
  end.

Fixpoint detachLoop (fuel : nat) (H : heap) (n fork : option ptr) : list ptr :=
  match fuel with
  | O => []
  | S f =>
      if bool_decide (n = fork) then [] else
      match n with
      | None => []
      | Some q => match H !! q with None => [] | Some nd => q :: detachLoop f H (bn_parent nd) fork end
      end
  end.

Definition nodeFuel (H : heap) (n : option ptr) : nat :=
  match n ≫= fun q => H !! q with Some nd => S (S (Z.to_nat (bn_height nd))) | None => 1 end.

(** The nodes to detach, tip first, and to attach, lowest first. *)
Definition getReorganizeNodes (node : ptr) : Ch (list ptr * list ptr) :=
  nd ← nodeAt node;
  parent ← st_lift (from_option_err (bn_parent nd) nilPointer);
  parentNode ← nodeAt parent;
  if KnownInvalid (bn_status parentNode) then
    modify (SetStatusFlags node statusInvalidAncestor);; mret ([], [])
  else
    b ← st_get;
    let H := bc_heap b in
    let forkNode := findFork H (bc_best b) (Some node) in
    let '(attach, invalidChain) := attachLoop (nodeFuel H (Some node)) H (Some node) forkNode [] in
    if invalidChain then
      modify (fun b => foldl (fun b n => SetStatusFlags n statusInvalidAncestor b) b attach);; mret ([], [])
    else
      let tip := view_tip (bc_best b) in
      mret (detachLoop (nodeFuel H tip) H tip forkNode, attach).

(** The blocks to detach are loaded with their journal entries, and unspent on
    the view. *)
Fixpoint verifyDetach (l : list ptr) (v : UtxoViewpoint) : Ch (list (ptr * MsgBlock * list coin) * UtxoViewpoint) :=
  match l with
  | [] => mret ([], v)
  | n :: l =>
      nd ← nodeAt n;
      blk ← dbFetchBlockByNode nd;
      st_ensure (bool_decide (bn_hash nd = BlockHash (bl_Header blk)))
        (Errorf "detach block node hash does not match previous parent block hash");;
      v ← onCache (fetchInputUtxos (bl_Transactions blk) (bn_height nd) v);
      dbView;;
      b ← st_get;
      let stxos := default [] (db_journal (bc_db b) !! BlockHash (bl_Header blk)) in
      v ← st_lift (disconnectTransactions (uc_db (bc_utxo b)) (bl_Transactions blk) (bn_height nd)
                     (PrevBlock (bl_Header blk)) stxos v);
      '(rest, v) ← verifyDetach l v;
      mret ((n, blk, stxos) :: rest, v)
  end.

(** A block that breaks a rule is marked, and those after it too. *)
Definition markInvalid (n : ptr) (rest : list ptr) (b : BlockChain) : BlockChain :=
  foldl (fun b n => SetStatusFlags n statusInvalidAncestor b) (SetStatusFlags n statusValidateFailed b) rest.

(** The checks of one block on the view, with the status they leave. *)
Definition checkAttach (n : ptr) (nd : blockNode) (blk : MsgBlock) (rest : list ptr) (v : UtxoViewpoint) :
    Ch UtxoViewpoint := fun b =>
  match onCache (checkConnectBlock p (bc_heap b) n nd blk v) b with
  | (Ok v, b) => (Ok v, SetStatusFlags n statusValid b)
  | (Err e, b) => (Err e, if isRuleError e then markInvalid n rest b else b)
  end.

Fixpoint verifyAttach (l : list ptr) (v : UtxoViewpoint) : Ch (list (ptr * MsgBlock)) :=
  match l with
  | [] => mret []
  | n :: l =>
      nd ← nodeAt n;
      blk ← dbFetchBlockByNode nd;
      v ← (if KnownValid (bn_status nd) then
             v ← onCache (fetchInputUtxos (bl_Transactions blk) (bn_height nd) v);
             '(v, _) ← st_lift (view_connectTransactions (bl_Transactions blk) (bn_height nd) v);
             mret (SetBestHash v (BlockHash (bl_Header blk)))
           else
             checkAttach n nd blk l v);
      rest ← verifyAttach l v;
      mret ((n, blk) :: rest)
  end.

Definition hashOf (H : heap) (n : option ptr) : bytes :=
  match n ≫= fun q => H !! q with Some nd => bn_hash nd | None => zeroHash end.

Definition parentOf (H : heap) (n : option ptr) : option ptr := n ≫= fun q => H !! q ≫= bn_parent.

Definition verifyReorganizationValidity (detach attach : list ptr) :
    Ch (list (ptr * MsgBlock * list coin) * list (ptr * MsgBlock)) :=
  match detach, attach with
  | [], [] => mret ([], [])
  | _, _ =>
      '(tip, td) ← tipNode;
      b ← st_get;
      let H := bc_heap b in
      st_ensure (bool_decide (detach = []) || bool_decide (hashOf H (head detach) = bn_hash td))
        (Errorf "reorganize nodes to detach are not for the current best chain");;
      st_ensure (bool_decide (detach = []) || bool_decide (attach = []) ||
                 bool_decide (hashOf H (parentOf H (head attach)) = hashOf H (parentOf H (last detach))))
        (Errorf "reorganize nodes do not have the same fork point");;
      '(detached, v) ← verifyDetach detach (NewUtxoViewpoint (bn_hash td));
      attached ← verifyAttach attach v;
      mret (detached, attached)
  end.

Fixpoint detachBlocks (l : list (ptr * MsgBlock * list coin)) (v : UtxoViewpoint) : Ch unit :=
  match l with
  | [] => mret tt
  | (n, blk, stxos) :: l =>
      nd ← nodeAt n;
      v ← onCache (fetchInputUtxos (bl_Transactions blk) (bn_height nd) v);
      b ← st_get;
      v ← st_lift (disconnectTransactions (uc_db (bc_utxo b)) (bl_Transactions blk) (bn_height nd)
                     (PrevBlock (bl_Header blk)) stxos v);
      v ← disconnectBlock n blk v;
      detachBlocks l v
  end.

Fixpoint attachBlocks (l : list (ptr * MsgBlock)) : Ch unit :=
  match l with
  | [] => mret tt
  | (n, blk) :: l =>
      nd ← nodeAt n;
      stxos ← onCache (connectTransactions (bl_Transactions blk) (bn_height nd));
      connectBlock n blk stxos;;
      attachBlocks l
  end.

Definition reorganizeChain (detach attach : list ptr) : Ch unit :=
  '(detached, attached) ← verifyReorganizationValidity detach attach;
  '(tip, td) ← tipNode;
  detachBlocks detached (NewUtxoViewpoint (bn_hash td));;
  attachBlocks attached.

(** ** Choosing the best chain *)

(** The checks of a block that extends the best chain: the status they give is
    written whether or not the block passes. *)
Definition checkExtension (node : ptr) (nd : blockNode) (blk : MsgBlock) : Ch unit := fun b =>
  match onCache (checkConnectBlock p (bc_heap b) node nd blk (NewUtxoViewpoint (PrevBlock (bl_Header blk)))) b with
  | (Ok _, b) => (modify (SetStatusFlags node statusValid);; flushIndexState) b
  | (Err e, b) =>
      if isRuleError e then
        (modify (SetStatusFlags node statusValidateFailed);; flushIndexState;; st_lift (Err e)) b
      else (Err e, b)
  end.

Definition connectOrMark (node : ptr) (blk : MsgBlock) (stxos : list coin) : Ch unit := fun b =>
  match connectBlock node blk stxos b with
  | (Ok _, b) => (Ok tt, b)
  | (Err e, b) =>
      (modify (if isRuleError e then SetStatusFlags node statusValidateFailed else id);;
       flushIndexState;; st_lift (Err e)) b
  end.

Definition extendChain (node : ptr) (nd : blockNode) (blk : MsgBlock) : Ch unit :=
  let fastAdd := KnownValid (bn_status nd) in
  (if fastAdd then mret tt else checkExtension node nd blk);;
  stxos ← onCache (connectTransactions (bl_Transactions blk) (bn_height nd));
  connectOrMark node blk stxos;;
  nd' ← nodeAt node;
  if fastAdd || negb (KnownValid (bn_status nd')) then
    modify (SetStatusFlags node statusValid);; flushIndexState
  else mret tt.

(** The index is flushed whether or not the chain was reorganized. *)
Definition reorganizeAndFlush (detach attach : list ptr) : Ch unit := fun b =>
  let '(r, b1) := reorganizeChain detach attach b in
  let '(_, b2) := flushIndexState b1 in (r, b2).

(** DogecoinVM processes blocks with [BFNoPoWCheck] only, never [BFFastAdd].
    The result says whether the block is on the best chain. *)
Definition connectBestChain (node : ptr) (blk : MsgBlock) : Ch bool :=
  nd ← nodeAt node;
  '(tip, td) ← tipNode;
  if bool_decide (PrevBlock (bl_Header blk) = bn_hash td) then
    extendChain node nd blk;; mret true
  else if bn_workSum nd <=? bn_workSum td then mret false
  else
    '(detach, attach) ← getReorganizeNodes node;
    reorganizeAndFlush detach attach;; mret true.

(** ** Accepting *)

Definition dbStoreBlock (blk : MsgBlock) (d : chainDB) : chainDB :=
  let hash := BlockHash (bl_Header blk) in
  match db_blocks d !! hash with
  | Some _ => d
  | None => mkDB (<[hash := blk]> (db_blocks d)) (db_nodes d) (db_heights d) (db_journal d) (db_best d)
  end.

Definition onHeap {A} (m : St heap A) : Ch A := fun b =>
  let '(r, H) := m (bc_heap b) in (r, set_index H (bc_index b) (bc_dirty b) b).

Definition maybeAcceptBlock (blk : MsgBlock) : Ch bool :=
  b ← st_get;
  prevNode ← st_lift (from_option_err (LookupNode b (PrevBlock (bl_Header blk)))
                        (ruleError "previous block is unknown"));
  pd ← nodeAt prevNode;
  st_ensure (negb (KnownInvalid (bn_status pd))) (ruleError "previous block is known to be invalid");;
  st_lift (checkBlockContext p (bc_heap b) blk prevNode);;
  dbUpdate (dbStoreBlock blk);;
  newNode ← onHeap (newBlockNode (bl_Header blk) (Some prevNode));
  nd ← nodeAt newNode;
  modify (fun b =>
    let nd := setStatus nd statusDataStored in
    AddNode newNode nd (set_index (<[newNode := nd]> (bc_heap b)) (bc_index b) (bc_dirty b) b));;
  flushToDB;;
  connectBestChain newNode blk.

(** ** Orphans *)

Definition maxOrphanBlocks : nat := 100.

Definition removeOrphanBlock (orphan : orphanBlock) (b : BlockChain) : BlockChain :=
  let orphanHash := BlockHash (bl_Header (ob_block orphan)) in
  let prevHash := PrevBlock (bl_Header (ob_block orphan)) in
  let left := filter (fun o => BlockHash (bl_Header (ob_block o)) ≠ orphanHash)
                (default [] (bc_prevOrphans b !! prevHash)) in
  set_orphans (delete orphanHash (bc_orphans b))
    (match left with [] => delete prevHash (bc_prevOrphans b) | _ => <[prevHash := left]> (bc_prevOrphans b) end)
    (bc_oldestOrphan b) b.

(** One turn of the loop over the pool: the expired are removed, and the
    oldest of the others is remembered. *)
Definition expireOrphan (b : BlockChain) (o : orphanBlock) : BlockChain :=
  if ob_expiration o <? now then removeOrphanBlock o b
  else
    match bc_oldestOrphan b with
    | Some old =>
        if ob_expiration o <? ob_expiration old then set_orphans (bc_orphans b) (bc_prevOrphans b) (Some o) b else b
    | None => set_orphans (bc_orphans b) (bc_prevOrphans b) (Some o) b
    end.

Definition addOrphanBlock (blk : MsgBlock) : Ch unit :=
  modify (fun b => foldl expireOrphan b (map_range (bc_orphans b)).*2);;
  b ← st_get;
  (if Nat.ltb maxOrphanBlocks (size (bc_orphans b) + 1) then
     old ← st_lift (from_option_err (bc_oldestOrphan b) nilPointer);
     modify (fun b => let b := removeOrphanBlock old b in set_orphans (bc_orphans b) (bc_prevOrphans b) None b)
   else mret tt);;
  let o := mkOrphan blk (now + 3600) in
  let prevHash := PrevBlock (bl_Header blk) in
  modify (fun b =>
    set_orphans (<[BlockHash (bl_Header blk) := o]> (bc_orphans b))
      (<[prevHash := default [] (bc_prevOrphans b !! prevHash) ++ [o]]> (bc_prevOrphans b)) (bc_oldestOrphan b) b).

(** The orphans of one parent are taken from the front of its list until it is
    empty; the hashes of those accepted are processed after it. *)
Fixpoint processOrphansLoop (fuel : nat) (hashes : list bytes) : Ch unit :=
  match fuel, hashes with
  | O, _ | _, [] => mret tt
  | S f, h :: rest =>
      b ← st_get;
      match bc_prevOrphans b !! h with
      | None | Some [] => processOrphansLoop f rest
      | Some (o :: _) =>
          modify (removeOrphanBlock o);;
          maybeAcceptBlock (ob_block o);;
          processOrphansLoop f (h :: rest ++ [BlockHash (bl_Header (ob_block o))])
      end
  end.

(** Every turn takes an orphan from the pool or a hash from the queue. *)
Definition orphanTurns (b : BlockChain) : nat :=
  2 * list_sum ((fun e => length (snd e)) <$> map_to_list (bc_prevOrphans b)).

Definition processOrphans (hash : bytes) : Ch unit :=
  b ← st_get; processOrphansLoop (orphanTurns b + 2) [hash].

(** ** Processing *)

Definition blockExists (hash : bytes) : Ch bool :=
  b ← st_get;
  if HaveBlock b hash then mret true
  else
    dbView;;
    mret (bool_decide (is_Some (db_blocks (bc_db b) !! hash)) && bool_decide (is_Some (db_heights (bc_db b) !! hash))).

(** Whether the block is on the best chain, and whether it is an orphan. *)
Definition ProcessBlock (blk : MsgBlock) : Ch (bool * bool) :=
  let hash := BlockHash (bl_Header blk) in
  exists_ ← blockExists hash;
  st_ensure (negb exists_) (ruleError "already have block");;
  b ← st_get;
  st_ensure (bool_decide (bc_orphans b !! hash = None)) (ruleError "already have block (orphan)");;
  st_lift (checkBlockSanity blk now);;
  prevHashExists ← blockExists (PrevBlock (bl_Header blk));
  if negb prevHashExists then addOrphanBlock blk;; mret (false, true)
  else
    isMainChain ← maybeAcceptBlock blk;
    processOrphans hash;;
    mret (isMainChain, false).

(** [FlushUtxoCache(FlushRequired)], then the database's own flush. *)
Definition Persist : Ch unit :=
  b ← st_get;
  onCache (flush FlushRequired false (bs_Hash (bc_snapshot b)));;
  dbView.

(** ** Checking a block without connecting it *)

(** The node of the block is made for the checks and then dropped. *)
Definition CheckConnectBlockTemplate (blk : MsgBlock) : Ch unit :=
  '(tip, td) ← tipNode;
  st_ensure (bool_decide (bn_hash td = PrevBlock (bl_Header blk)))
    (ruleError "previous block must be the current chain tip");;
  st_lift (checkBlockSanity blk now);;
  b ← st_get;
  st_lift (checkBlockContext p (bc_heap b) blk tip);;
  let '(r, H) := newBlockNode (bl_Header blk) (Some tip) (bc_heap b) in
  newNode ← st_lift r;
  nd ← st_lift (from_option_err (H !! newNode) nilPointer);
  onCache (checkConnectBlock p H newNode nd blk (NewUtxoViewpoint (bn_hash td)));;
  mret tt.

(** ** Reading the best chain *)

Definition notInMainChain : error := Errorf "block is not in the main chain".

Definition BlockByHash (hash : bytes) : Ch (MsgBlock * Z) :=
  b ← st_get;
  match LookupNode b hash with
  | None => st_lift (Err notInMainChain)
  | Some q =>
      if negb (contains (bc_heap b) (bc_best b) q) then st_lift (Err notInMainChain)
      else
        nd ← nodeAt q;
        blk ← dbFetchBlockByNode nd;
        mret (blk, bn_height nd)
  end.

Definition BlockHashByHeight (blockHeight : Z) : Ch bytes :=
  b ← st_get;
  match nodeByHeight (bc_best b) blockHeight with
  | None => st_lift (Err notInMainChain)
  | Some q => nd ← nodeAt q; mret (bn_hash nd)
  end.

End chain.
