(* ===== verification/Storage.v ===== *)
(** * What the database holds

    [btcd/blockchain/chainio.go]: the coins, the spend journal, the main
    chain index, the rows of the block index and the best state as the bytes of
    their buckets.  [Utxo], [Process] and [Start] work on the values; here the
    buckets are shown to keep them.  A bucket is a map from keys to values; a
    key that is not in it has a nil value. *)

From Stdlib Require Import ZArith List Lia.
From stdpp Require Import base list gmap strings.
From S2P Require Import Prelude.
From S2P Require Import Wire.
From S2P Require Import Decode.
From S2P Require Import Script.
From S2P Require Import Compress.
From S2P Require Import Chain.
From S2P Require Import Utxo.
From S2P Require Import Validate.
From S2P Require Import Block.
From S2P Require Import Process.

Open Scope Z_scope.

Notation bucket := (gmap bytes bytes).

(** A slice made with [size] bytes, whose first bytes are then put. *)
Definition fill (size : Z) (body : bytes) : result bytes :=
  ensure (Z.of_nat (length body) <=? size) (goPanic "index out of range");;
  Ok (body ++ replicate (Z.to_nat size - length body) 0).

(** The height and the coinbase bit. *)
Definition headerCode (height : Z) (isCoinBase : bool) : Z :=
  let code := Z.shiftl (height mod two64) 1 mod two64 in
  if isCoinBase then Z.lor code 1 else code.

Definition codeIsCoinBase (code : Z) : bool := negb (Z.land code 1 =? 0).
Definition codeHeight (code : Z) : Z := int32_wrap (Z.shiftr code 1).

Section storage.
Context `{PK : PubKeys}.

(** ** The spend journal *)

Definition spentTxOutHeaderCode (stxo : coin) : Z := headerCode (c_height stxo) (c_isCoinBase stxo).

Definition spentTxOutSerializeSize (stxo : coin) : Z :=
  let size := serializeSizeVLQ (spentTxOutHeaderCode stxo) in
  let size := if 0 <? c_height stxo then size + serializeSizeVLQ 0 else size in
  size + compressedTxOutSize (c_amount stxo mod two64) (c_pkScript stxo).

Definition putSpentTxOut (stxo : coin) : bytes :=
  putVLQ (spentTxOutHeaderCode stxo) ++ (if 0 <? c_height stxo then putVLQ 0 else []) ++
  putCompressedTxOut (c_amount stxo mod two64) (c_pkScript stxo).

(** The output, and how many bytes it took. *)
Definition decodeSpentTxOut (serialized : bytes) : result (coin * Z) :=
  ensure (negb (Nat.eqb (length serialized) 0)) (Errorf "no serialized bytes");;
  let '(code, offset) := deserializeVLQ serialized in
  ensure (offset <? Z.of_nat (length serialized)) (Errorf "unexpected end of data after header code");;
  let height := codeHeight code in
  offset ← (if 0 <? height then
              let '(_, bytesRead) := deserializeVLQ (drop (Z.to_nat offset) serialized) in
              let offset := offset + bytesRead in
              ensure (offset <? Z.of_nat (length serialized)) (Errorf "unexpected end of data after reserved");;
              Ok offset
            else Ok offset);
  '(amount, pkScript, bytesRead) ← decodeCompressedTxOut (drop (Z.to_nat offset) serialized);
  Ok (mkCoin (wrap64 amount) pkScript height (codeIsCoinBase code), offset + bytesRead).

(** The last output first, as it was written. *)
Fixpoint readStxos (n : nat) (serialized : bytes) (stxos : list coin) : result (list coin) :=
  match n with
  | O => Ok stxos
  | S n =>
      '(stxo, size) ← decodeSpentTxOut serialized;
      readStxos n (drop (Z.to_nat size) serialized) (stxo :: stxos)
  end.

Definition numStxos (txns : list MsgTx) : nat := sum_list ((fun tx => length (txIn tx)) <$> txns).

Definition deserializeSpendJournalEntry (serialized : bytes) (txns : list MsgTx) : result (list coin) :=
  if Nat.eqb (length serialized) 0 then
    ensure (Nat.eqb (numStxos txns) 0) (Errorf "mismatched spend journal serialization");;
    Ok []
  else readStxos (numStxos txns) serialized [].

Definition serializeSpendJournalEntry (stxos : list coin) : result bytes :=
  if Nat.eqb (length stxos) 0 then Ok []
  else fill (sumZ (spentTxOutSerializeSize <$> stxos)) (concat (putSpentTxOut <$> reverse stxos)).

(** The transactions of the block but its coinbase; a missing entry is read
    as an empty one. *)
Definition dbFetchSpendJournalEntry (spendBucket : bucket) (blockHash : bytes) (blk : MsgBlock) : result (list coin) :=
  deserializeSpendJournalEntry (default [] (spendBucket !! blockHash)) (tail (bl_Transactions blk)).

Definition dbPutSpendJournalEntry (spendBucket : bucket) (blockHash : bytes) (stxos : list coin) : result bucket :=
  serialized ← serializeSpendJournalEntry stxos;
  Ok (<[blockHash := serialized]> spendBucket).

Definition dbRemoveSpendJournalEntry (spendBucket : bucket) (blockHash : bytes) : bucket := delete blockHash spendBucket.

(** ** The coins *)

Definition outpointKey (outpoint : OutPoint) : bytes := Hash outpoint ++ putVLQ (Index outpoint).

Definition utxoEntryHeaderCode (entry : UtxoEntry) : result Z :=
  ensure (negb (IsSpent entry)) (Errorf "attempt to serialize spent utxo header");;
  Ok (headerCode (ue_blockHeight entry) (IsCoinBase_entry entry)).

(** A spent output has no bytes. *)
Definition serializeUtxoEntry (entry : UtxoEntry) : result (option bytes) :=
  if IsSpent entry then Ok None
  else
    code ← utxoEntryHeaderCode entry;
    let amount := ue_amount entry mod two64 in
    serialized ← fill (serializeSizeVLQ code + compressedTxOutSize amount (ue_pkScript entry))
                   (putVLQ code ++ putCompressedTxOut amount (ue_pkScript entry));
    Ok (Some serialized).

Definition deserializeUtxoEntry (serialized : bytes) : result UtxoEntry :=
  let '(code, offset) := deserializeVLQ serialized in
  ensure (offset <? Z.of_nat (length serialized)) (Errorf "unexpected end of data after header");;
  '(amount, pkScript, _) ← decodeCompressedTxOut (drop (Z.to_nat offset) serialized);
  Ok (mkEntry (wrap64 amount) pkScript (codeHeight code) (if codeIsCoinBase code then tfCoinBase else 0)).

Definition dbFetchUtxoEntry (utxoBucket : bucket) (outpoint : OutPoint) : result (option UtxoEntry) :=
  match utxoBucket !! outpointKey outpoint with
  | None => Ok None
  | Some serializedUtxo =>
      ensure (negb (Nat.eqb (length serializedUtxo) 0)) (Errorf "database contains entry for spent tx output");;
      entry ← deserializeUtxoEntry serializedUtxo;
      Ok (Some entry)
  end.

Definition dbDeleteUtxoEntry (utxoBucket : bucket) (outpoint : OutPoint) : bucket := delete (outpointKey outpoint) utxoBucket.

Definition dbPutUtxoEntry (utxoBucket : bucket) (outpoint : OutPoint) (entry : UtxoEntry) : result bucket :=
  ensure (negb (IsSpent entry)) (Errorf "trying to store nil or spent entry");;
  serialized ← serializeUtxoEntry entry;
  Ok (<[outpointKey outpoint := default [] serialized]> utxoBucket).

End storage.

(** ** The main chain index *)

Definition heightKey (height : Z) : bytes := le_bytes 4 (uint32 height).

(** The buckets from hash to height and from height to hash. *)
Definition dbPutBlockIndex (hashIndex heightIndex : bucket) (hash : bytes) (height : Z) : bucket * bucket :=
  (<[hash := heightKey height]> hashIndex, <[heightKey height := hash]> heightIndex).

Definition dbRemoveBlockIndex (hashIndex heightIndex : bucket) (hash : bytes) (height : Z) : bucket * bucket :=
  (delete hash hashIndex, delete (heightKey height) heightIndex).

Definition notInBestChain : error := Errorf "block is not in the main chain".

Definition dbFetchHeightByHash (hashIndex : bucket) (hash : bytes) : result Z :=
  serializedHeight ← from_option_err (hashIndex !! hash) notInBestChain;
  ensure (4 <=? Z.of_nat (length serializedHeight)) sliceBounds;;
  Ok (int32_wrap (le_Z (take 4 serializedHeight))).

Definition dbFetchHashByHeight (heightIndex : bucket) (height : Z) : result bytes :=
  hashBytes ← from_option_err (heightIndex !! heightKey height) notInBestChain;
  Ok (take HashSize (hashBytes ++ replicate HashSize 0)).

(** ** The best state *)

(** [big.Int]'s bytes: most significant first, none for zero. *)
Definition bigBytes (z : Z) : bytes :=
  if z =? 0 then [] else reverse (le_bytes (Z.to_nat (Z.log2 z / 8 + 1)) z).

Definition serializeBestChainState (state : bestChainState) : bytes :=
  let workSumBytes := bigBytes (bcs_workSum state) in
  bcs_hash state ++ le_bytes 4 (uint32 (bcs_height state)) ++ le_bytes 8 (bcs_totalTxns state) ++
  le_bytes 4 (uint32 (Z.of_nat (length workSumBytes))) ++ workSumBytes.

Definition corruptBestState : error := Errorf "corrupt best chain state".

Definition deserializeBestChainState (serializedData : bytes) : result bestChainState :=
  ensure (Z.of_nat HashSize + 16 <=? Z.of_nat (length serializedData)) corruptBestState;;
  let hash := take 32 serializedData in
  let height := le_Z (take 4 (drop 32 serializedData)) in
  let totalTxns := le_Z (take 8 (drop 36 serializedData)) in
  let workSumBytesLen := le_Z (take 4 (drop 44 serializedData)) in
  let rest := drop 48 serializedData in
  ensure (workSumBytesLen <=? uint32 (Z.of_nat (length rest))) corruptBestState;;
  workSumBytes ← subslice rest 0 workSumBytesLen;
  Ok (mkBestRow hash height totalTxns (le_Z (reverse workSumBytes))).

(** ** The block index *)

(** The value [dbStoreBlockNode] stores. *)
Definition blockRow (header : BlockHeader) (status : Z) : bytes := writeBlockHeader header ++ [status mod 256].

Definition dbStoreBlockNode (blockIndexBucket : bucket) (hash : bytes) (height : Z) (header : BlockHeader) (status : Z) : bucket :=
  <[blockIndexKey hash height := blockRow header status]> blockIndexBucket.

Definition deserializeBlockRow (row : bytes) : result (BlockHeader * Z) :=
  ((header ← readBlockHeader; statusByte ← readLE 1; mret (header, statusByte) : St reader (BlockHeader * Z)) (mkReader row 0)).1.

(** ** Bytes that are read back *)

Lemma fill_exact size body : Z.of_nat (length body) = size → fill size body = Ok body.
Proof.
  intros <-. unfold fill. rewrite (proj2 (Z.leb_le _ _)) by lia. cbn [ensure mbind result_bind].
  rewrite Nat2Z.id, Nat.sub_diag. by rewrite app_nil_r.
Qed.

(** A height of a block is below [2^31]. *)
Definition height_ok (h : Z) : Prop := 0 ≤ h < 2147483648.

Lemma headerCode_spec h cb :
  height_ok h → headerCode h cb = 2 * h + Z.b2z cb.
Proof.
  intros Hh. unfold headerCode, height_ok, two64 in *. rewrite (Z.mod_small h), Z.shiftl_mul_pow2 by lia.
  change (2 ^ 1) with 2. rewrite Z.mod_small by lia. destruct cb; cbn [Z.b2z]; [|lia].
  rewrite <- Z.add_nocarry_lor; [lia|]. change 1 with (Z.ones 1). rewrite Z.land_ones by lia. by apply Z.mod_mul.
Qed.

Lemma headerCode_read h cb :
  height_ok h →
  0 ≤ headerCode h cb < two64 ∧ codeHeight (headerCode h cb) = h ∧ codeIsCoinBase (headerCode h cb) = cb.
Proof.
  intros Hh. rewrite headerCode_spec by done. unfold height_ok, codeHeight, codeIsCoinBase in *.
  change (Z.land (2 * h + Z.b2z cb) 1) with (Z.land (2 * h + Z.b2z cb) (Z.ones 1)).
  rewrite Z.land_ones, Z.shiftr_div_pow2 by lia. change (2 ^ 1) with 2.
  rewrite (Z.add_comm (2 * h)), (Z.mul_comm 2), Z.mod_add, Z.div_add by lia.
  assert (int32_wrap h = h) as Ew by (unfold int32_wrap, two32; rewrite Z.mod_small; lia).
  destruct cb; cbn [Z.b2z]; (split; [unfold two64; lia|]); (split; [by rewrite <- Ew at 2|done]).
Qed.

(** An output that may be stored. *)
Definition row_ok (c : coin) : Prop := output_ok (c_amount c) (c_pkScript c) ∧ height_ok (c_height c).

Lemma amount_word a s : output_ok a s → a mod two64 = a ∧ wrap64 a = a.
Proof.
  intros [Ha _]. unfold maxCompressed in Ha. rewrite Z.mod_small by (unfold two64; lia).
  rewrite wrap64_small by (unfold i64_ok, two63; lia). done.
Qed.

Section readback.
Context `{PK : PubKeys} {PKO : PubKeysOk}.

Lemma putSpentTxOut_size c : row_ok c → Z.of_nat (length (putSpentTxOut c)) = spentTxOutSerializeSize c.
Proof.
  intros [Ho Hh]. unfold putSpentTxOut, spentTxOutSerializeSize, spentTxOutHeaderCode.
  destruct (headerCode_read _ (c_isCoinBase c) Hh) as [Hc _]. rewrite (proj1 (amount_word _ _ Ho)).
  rewrite !length_app, !Nat2Z.inj_add, putVLQ_size, putCompressedTxOut_size by done. destruct (_ <? _); [|simpl; lia].
  rewrite putVLQ_size by done. lia.
Qed.

Lemma decode_putSpentTxOut c rest :
  row_ok c → decodeSpentTxOut (putSpentTxOut c ++ rest) = Ok (c, Z.of_nat (length (putSpentTxOut c))).
Proof.
  intros [Ho Hh]. unfold decodeSpentTxOut, putSpentTxOut, spentTxOutHeaderCode.
  destruct (headerCode_read _ (c_isCoinBase c) Hh) as (Hc&Eh&Ecb). destruct (amount_word _ _ Ho) as [-> Ew].
  set (code := headerCode _ _) in *. set (out := putCompressedTxOut _ _). set (reserved := if 0 <? c_height c then putVLQ 0 else []).
  pose proof (putVLQ_pos code). assert (0 < Z.of_nat (length out)) by apply putCompressedTxOut_pos.
  rewrite <- !app_assoc, putVLQ_read, Eh by done. rewrite (proj2 (Nat.eqb_neq _ 0)) by (rewrite !length_app; lia).
  cbn [negb ensure mbind result_bind].
  rewrite (proj2 (Z.ltb_lt (Z.of_nat (length (putVLQ code))) _)) by (rewrite !length_app; lia). cbn [ensure mbind result_bind].
  rewrite Nat2Z.id, drop_app_length, (app_assoc reserved).
  assert ((if 0 <? c_height c then
      let '(_, bytesRead) := deserializeVLQ ((reserved ++ out) ++ rest) in
      ensure (Z.of_nat (length (putVLQ code)) + bytesRead <? Z.of_nat (length (putVLQ code ++ (reserved ++ out) ++ rest)))
        (Errorf "unexpected end of data after reserved");;
      Ok (Z.of_nat (length (putVLQ code)) + bytesRead)
    else Ok (Z.of_nat (length (putVLQ code)))) = Ok (Z.of_nat (length (putVLQ code ++ reserved)))) as ->.
  { unfold reserved. destruct (_ <? _); [|by rewrite app_nil_r]. rewrite <- app_assoc, putVLQ_read by done.
    rewrite (proj2 (Z.ltb_lt _ _)) by (rewrite !length_app; lia). cbn [ensure mbind result_bind]. f_equal. rewrite length_app. lia. }
  cbn [mbind result_bind]. rewrite Nat2Z.id, <- (app_assoc reserved), (app_assoc (putVLQ code)), drop_app_length.
  unfold out. rewrite decode_putCompressedTxOut by done. cbn [mbind result_bind]. rewrite Ew, Ecb. fold out.
  do 2 f_equal; [by destruct c|rewrite !length_app; lia].
Qed.

Lemma readStxos_put l rest acc :
  Forall row_ok l →
  readStxos (length l) (concat (putSpentTxOut <$> reverse l) ++ rest) acc = Ok (l ++ acc).
Proof.
  revert acc; induction l as [|c l IH] using rev_ind; intros acc Hl; [done|].
  apply Forall_app in Hl as [Hl [Hc _]%Forall_cons]. rewrite reverse_app, fmap_app, length_app, Nat.add_comm.
  cbn [reverse]. rewrite reverse_singleton. cbn [fmap list_fmap app concat Nat.add length readStxos].
  rewrite <- app_assoc, decode_putSpentTxOut by done. cbn [mbind result_bind]. rewrite Nat2Z.id, drop_app_length.
  rewrite IH by done. by rewrite <- app_assoc.
Qed.

Lemma journal_size l :
  Forall row_ok l → Z.of_nat (length (concat (putSpentTxOut <$> reverse l))) = sumZ (spentTxOutSerializeSize <$> l).
Proof.
  induction 1 as [|c l Hc Hl IH]; [done|]. rewrite reverse_cons, fmap_app, concat_app, length_app, Nat2Z.inj_add, IH, (fmap_cons _ c l), sumZ_cons.
  simpl. rewrite app_nil_r, putSpentTxOut_size by done. lia.
Qed.

Lemma journal_bytes l :
  Forall row_ok l → serializeSpendJournalEntry l = Ok (concat (putSpentTxOut <$> reverse l)).
Proof.
  intros Hl. unfold serializeSpendJournalEntry. destruct (Nat.eqb_spec (length l) 0) as [E|E].
  - by apply nil_length_inv in E as ->.
  - by apply fill_exact, journal_size.
Qed.

Lemma putSpentTxOut_nonempty c : (0 < length (putSpentTxOut c))%nat.
Proof. unfold putSpentTxOut. rewrite length_app. pose proof (putVLQ_pos (spentTxOutHeaderCode c)). lia. Qed.

Lemma journal_read l txns :
  Forall row_ok l → length l = numStxos txns → deserializeSpendJournalEntry (concat (putSpentTxOut <$> reverse l)) txns = Ok l.
Proof.
  intros Hl Hn. unfold deserializeSpendJournalEntry. rewrite <- Hn. destruct l as [|c l].
  - done.
  - rewrite (proj2 (Nat.eqb_neq _ 0)).
    + pose proof (readStxos_put (c :: l) [] [] Hl) as E. by rewrite !app_nil_r in E.
    + rewrite reverse_cons, fmap_app, concat_app, length_app. simpl. rewrite app_nil_r.
      pose proof (putSpentTxOut_nonempty c). lia.
Qed.

(** *** Coins *)

Definition utxoBytes (c : coin) : bytes :=
  putVLQ (headerCode (c_height c) (c_isCoinBase c)) ++ putCompressedTxOut (c_amount c) (c_pkScript c).

Lemma serializeUtxoEntry_bytes e :
  row_ok (coinOf e) → IsSpent e = false → serializeUtxoEntry e = Ok (Some (utxoBytes (coinOf e))).
Proof.
  intros [Ho Hh] Hs. unfold serializeUtxoEntry, utxoEntryHeaderCode. rewrite Hs. cbn [negb ensure mbind result_bind].
  destruct (headerCode_read _ (IsCoinBase_entry e) Hh) as [Hc _]. cbn [coinOf c_amount c_pkScript c_height] in *.
  rewrite (proj1 (amount_word _ _ Ho)), fill_exact; [done|].
  rewrite length_app, Nat2Z.inj_add, putVLQ_size, putCompressedTxOut_size by done. done.
Qed.

Lemma deserializeUtxoEntry_bytes c : row_ok c → deserializeUtxoEntry (utxoBytes c) = Ok (entryOf c).
Proof.
  intros [Ho Hh]. unfold deserializeUtxoEntry, utxoBytes. destruct (headerCode_read _ (c_isCoinBase c) Hh) as (Hc&Eh&Ecb).
  rewrite putVLQ_read, Eh, Ecb by done. pose proof (putCompressedTxOut_pos (c_amount c) (c_pkScript c)).
  rewrite (proj2 (Z.ltb_lt _ _)) by (rewrite length_app; lia). cbn [ensure mbind result_bind].
  rewrite Nat2Z.id, drop_app_length, <- (app_nil_r (putCompressedTxOut _ _)), decode_putCompressedTxOut by done.
  cbn [mbind result_bind]. by rewrite (proj2 (amount_word _ _ Ho)).
Qed.

Lemma outpointKey_inj op op' : outpoint_ok op → outpoint_ok op' → outpointKey op = outpointKey op' → op = op'.
Proof.
  intros [[Hl _] Hi] [[Hl' _] Hi'] E. unfold outpointKey in E. apply app_inj_1 in E as [Eh Ei]; [|congruence].
  pose proof (putVLQ_read (Index op) []) as E1. pose proof (putVLQ_read (Index op') []) as E2. unfold two32, two64 in *.
  rewrite app_nil_r in E1, E2. rewrite Ei in E1.
  assert (Index op = Index op') by (specialize (E1 ltac:(lia)); specialize (E2 ltac:(lia)); congruence).
  destruct op, op'; cbn in *; congruence.
Qed.

End readback.

(** *** Heights, the best state and rows *)

Lemma dbFetchHeightByHash_key h : height_ok h → int32_wrap (le_Z (take 4 (heightKey h))) = h.
Proof.
  intros Hh. unfold heightKey, height_ok, uint32 in *. rewrite take_ge by (rewrite le_bytes_length; lia).
  rewrite le_Z_le_bytes, (Z.mod_small h) by (try apply Z.mod_pos_bound; lia). unfold int32_wrap, two32. rewrite Z.mod_small; lia.
Qed.

(** The work of a chain. *)
Definition work_ok (w : Z) : Prop := 0 ≤ w < 2 ^ 512.

Lemma bigBytes_read w : work_ok w → le_Z (reverse (bigBytes w)) = w ∧ (length (bigBytes w) ≤ 64)%nat.
Proof.
  intros [Hw Hlt]. unfold bigBytes. destruct (Z.eqb_spec w 0) as [->|Hne]; [split; [done|simpl; lia]|].
  pose proof (Z.log2_nonneg w). pose proof (Z.log2_spec w) as [_ Hl]; [lia|].
  assert (Z.log2 w < 512) as Hlg by (apply Z.log2_lt_pow2; lia).
  pose proof (Z.div_mod (Z.log2 w) 8). pose proof (Z.mod_pos_bound (Z.log2 w) 8). set (n := Z.log2 w / 8 + 1) in *.
  rewrite reverse_involutive, length_reverse, le_bytes_length. split; [|lia].
  apply le_Z_le_bytes. rewrite Z2Nat.id by lia. change 256 with (2 ^ 8). rewrite <- Z.pow_mul_r by lia.
  split; [lia|]. eapply Z.lt_le_trans; [exact Hl|]. apply Z.pow_le_mono_r; lia.
Qed.

Record best_ok (s : bestChainState) : Prop := {
  best_hash : length (bcs_hash s) = 32%nat; best_height : height_ok (bcs_height s);
  best_total : 0 ≤ bcs_totalTxns s < two64; best_work : work_ok (bcs_workSum s) }.

Lemma best_state_read s : best_ok s → deserializeBestChainState (serializeBestChainState s) = Ok s.
Proof.
  intros [Hh Hht Ht Hw]. destruct (bigBytes_read _ Hw) as [Er Hlen]. unfold serializeBestChainState, deserializeBestChainState.
  set (w := bigBytes _) in *. set (h4 := le_bytes 4 _). set (t8 := le_bytes 8 _). set (l4 := le_bytes 4 (uint32 (Z.of_nat _))).
  assert (length h4 = 4 ∧ length t8 = 8 ∧ length l4 = 4)%nat as (E4&E8&El) by (split_and!; apply le_bytes_length).
  rewrite (proj2 (Z.leb_le (Z.of_nat HashSize + 16) _)) by (rewrite !length_app; unfold HashSize; lia). cbn [ensure mbind result_bind].
  assert (∀ (a b : bytes) n, length a = n → take n (a ++ b) = a ∧ drop n (a ++ b) = b) as Hcut
    by (intros a b n <-; split; [apply take_app_length|apply drop_app_length]).
  destruct (Hcut (bcs_hash s) (h4 ++ t8 ++ l4 ++ w) 32%nat Hh) as [-> ->].
  assert (∀ n l, drop (32 + n) (bcs_hash s ++ l) = drop n l) as Hd by (intros n l; rewrite <- Hh; apply drop_app_add).
  change 48%nat with (32 + (4 + (8 + 4)))%nat. change 44%nat with (32 + (4 + 8))%nat. change 36%nat with (32 + 4)%nat. rewrite !Hd.
  assert (∀ n l, drop (4 + n) (h4 ++ l) = drop n l) as Hd4 by (intros n l; rewrite <- E4; apply drop_app_add).
  assert (∀ n l, drop (8 + n) (t8 ++ l) = drop n l) as Hd8 by (intros n l; rewrite <- E8; apply drop_app_add).
  rewrite !Hd4. destruct (Hcut h4 (t8 ++ l4 ++ w) 4%nat E4) as [-> ->]. rewrite Hd8.
  destruct (Hcut t8 (l4 ++ w) 8%nat E8) as [-> ->]. destruct (Hcut l4 w 4%nat El) as [-> ->].
  assert (∀ z, 0 ≤ z < 4294967296 → le_Z (le_bytes 4 (uint32 z)) = z) as Hu
    by (intros z Hz; unfold uint32; rewrite Z.mod_small by done; by apply le_Z_le_bytes).
  unfold l4, h4, t8, height_ok in *. rewrite !Hu, le_Z_le_bytes by (done || lia).
  unfold uint32. rewrite Z.mod_small, (proj2 (Z.leb_le _ _)) by lia. cbn [ensure mbind result_bind].
  pose proof (subslice_app [] w [] 0 (Z.of_nat (length w)) eq_refl eq_refl) as Es. rewrite app_nil_r in Es. cbn [app] in Es.
  rewrite Es. cbn [mbind result_bind]. rewrite Er. by destruct s.
Qed.

Lemma blockRow_read header status :
  header_ok header → 0 ≤ status < 256 → deserializeBlockRow (blockRow header status) = Ok (header, status).
Proof.
  intros Hh Hs. unfold deserializeBlockRow, blockRow. change [status mod 256] with (le_bytes 1 status).
  pose proof (reads_bind0 readBlockHeader (fun h => statusByte ← readLE 1; mret (h, statusByte)) (writeBlockHeader header)
    (le_bytes 1 status) 0 header (header, status) (Z.le_refl _) (reads_header header Hh)
    (reads_bind_ret (readLE 1) (pair header) _ _ _ (reads_le 1 status Hs)) [] 0 (Z.le_refl _)) as E.
  rewrite app_nil_r in E. by rewrite E.
Qed.

(** ** The buckets keep the tables *)

Record buckets := mkBuckets {
  bk_index : bucket; bk_hash : bucket; bk_height : bucket; bk_journal : bucket; bk_state : option bytes; bk_utxo : bucket }.

Definition noBuckets : buckets := mkBuckets ∅ ∅ ∅ ∅ None ∅.

(** What is written: a coin or its removal, a row of the block index, and
    what connecting and disconnecting a block change. *)
Inductive write :=
| wCoin (op : OutPoint) (e : UtxoEntry)
| wSpend (op : OutPoint)
| wNode (hash : bytes) (height : Z) (header : BlockHeader) (status : Z)
| wConnect (state : BestState) (workSum : Z) (hash : bytes) (height : Z) (stxos : list coin)
| wDisconnect (state : BestState) (workSum : Z) (hash : bytes) (height : Z).

(** On values, as [Utxo] and [Process] have it. *)
Definition writeValues (w : write) (t : chainDB * coins) : chainDB * coins :=
  let '(d, U) := t in
  match w with
  | wCoin op e => (d, <[op := coinOf e]> U)
  | wSpend op => (d, delete op U)
  | wNode hash height header status =>
      (mkDB (db_blocks d) (<[blockIndexKey hash height := (header, status)]> (db_nodes d)) (db_heights d) (db_journal d)
         (db_best d), U)
  | wConnect state workSum hash height stxos => (dbConnect state workSum hash height stxos d, U)
  | wDisconnect state workSum hash height => (dbDisconnect state workSum hash d, U)
  end.

Section buckets.
Context `{PK : PubKeys} {PKO : PubKeysOk}.

(** On bytes. *)
Definition writeBytes (w : write) (k : buckets) : result buckets :=
  match w with
  | wCoin op e =>
      utxo ← dbPutUtxoEntry (bk_utxo k) op e;
      Ok (mkBuckets (bk_index k) (bk_hash k) (bk_height k) (bk_journal k) (bk_state k) utxo)
  | wSpend op => Ok (mkBuckets (bk_index k) (bk_hash k) (bk_height k) (bk_journal k) (bk_state k) (dbDeleteUtxoEntry (bk_utxo k) op))
  | wNode hash height header status =>
      Ok (mkBuckets (dbStoreBlockNode (bk_index k) hash height header status) (bk_hash k) (bk_height k) (bk_journal k)
            (bk_state k) (bk_utxo k))
  | wConnect state workSum hash height stxos =>
      let row := serializeBestChainState (dbPutBestState state workSum) in
      let '(hashIndex, heightIndex) := dbPutBlockIndex (bk_hash k) (bk_height k) hash height in
      journal ← dbPutSpendJournalEntry (bk_journal k) hash stxos;
      Ok (mkBuckets (bk_index k) hashIndex heightIndex journal (Some row) (bk_utxo k))
  | wDisconnect state workSum hash height =>
      let row := serializeBestChainState (dbPutBestState state workSum) in
      let '(hashIndex, heightIndex) := dbRemoveBlockIndex (bk_hash k) (bk_height k) hash height in
      Ok (mkBuckets (bk_index k) hashIndex heightIndex (dbRemoveSpendJournalEntry (bk_journal k) hash) (Some row) (bk_utxo k))
  end.

(** Values that fit their fields. *)
Definition write_ok (w : write) : Prop :=
  match w with
  | wCoin op e => outpoint_ok op ∧ IsSpent e = false ∧ row_ok (coinOf e)
  | wSpend op => outpoint_ok op
  | wNode _ _ header status => header_ok header ∧ 0 ≤ status < 256
  | wConnect state workSum _ height stxos => best_ok (dbPutBestState state workSum) ∧ height_ok height ∧ Forall row_ok stxos
  | wDisconnect state workSum _ _ => best_ok (dbPutBestState state workSum)
  end.

Fixpoint writeAll (ws : list write) (k : buckets) : result buckets :=
  match ws with [] => Ok k | w :: ws => k' ← writeBytes w k; writeAll ws k' end.

Definition valuesAfter (ws : list write) (t : chainDB * coins) : chainDB * coins := foldl (fun t w => writeValues w t) t ws.

(** The buckets hold the bytes of the tables, which fit. *)
Record holds (k : buckets) (t : chainDB * coins) : Prop := {
  ho_index : bk_index k = (fun r => blockRow r.1 r.2) <$> db_nodes t.1;
  ho_hash : bk_hash k = heightKey <$> db_heights t.1;
  ho_journal : bk_journal k = (fun l => concat (putSpentTxOut <$> reverse l)) <$> db_journal t.1;
  ho_state : bk_state k = serializeBestChainState <$> db_best t.1;
  ho_utxo op : outpoint_ok op → bk_utxo k !! outpointKey op = utxoBytes <$> t.2 !! op;
  ho_rows : map_Forall (fun _ r => header_ok r.1 ∧ 0 ≤ r.2 < 256) (db_nodes t.1);
  ho_heights : map_Forall (fun _ h => height_ok h) (db_heights t.1);
  ho_stxos : map_Forall (fun _ l => Forall row_ok l) (db_journal t.1);
  ho_best s : db_best t.1 = Some s → best_ok s;
  ho_coins op c : outpoint_ok op → t.2 !! op = Some c → row_ok c }.

Lemma holds_write w k t : holds k t → write_ok w → ∃ k', writeBytes w k = Ok k' ∧ holds k' (writeValues w t).
Proof.
  destruct t as [d U]. intros [Hi Hh Hj Hs Hu Hr Hhs Hst Hb Hc] Hw. cbn [fst snd] in *.
  destruct w as [op e|op|hash height header status|state workSum hash height stxos|state workSum hash height]; cbn [write_ok writeBytes writeValues] in *.
  - destruct Hw as (Hop&Hsp&Hrow). unfold dbPutUtxoEntry. rewrite Hsp, serializeUtxoEntry_bytes by done.
    eexists. split; [reflexivity|]. split; try done; cbn [fst snd bk_utxo].
    + intros op' Hop'. destruct (decide (op = op')) as [<-|Hne]; [by rewrite !lookup_insert_eq|].
      rewrite !lookup_insert_ne by (done || intros E; apply Hne; by apply outpointKey_inj). by apply Hu.
    + intros op' c Hop'. rewrite lookup_insert_Some. intros [[_ <-]|[_ ?]]; [done|by eapply Hc].
  - eexists. split; [reflexivity|]. split; try done; cbn [fst snd bk_utxo]; unfold dbDeleteUtxoEntry.
    + intros op' Hop'. destruct (decide (op = op')) as [<-|Hne]; [by rewrite !lookup_delete_eq|].
      rewrite !lookup_delete_ne by (done || intros E; apply Hne; by apply outpointKey_inj). by apply Hu.
    + intros op' c Hop'. rewrite lookup_delete_Some. intros [_ ?]. by eapply Hc.
  - eexists. split; [reflexivity|]. split; try done; cbn [fst snd bk_index db_nodes].
    + unfold dbStoreBlockNode. by rewrite Hi, fmap_insert.
    + by apply map_Forall_insert_2.
  - destruct Hw as (Hbs&Hht&Hl). unfold dbPutSpendJournalEntry. rewrite journal_bytes by done.
    eexists. split; [reflexivity|]. split; try done; cbn [fst snd bk_hash bk_journal bk_state dbConnect db_heights db_journal db_best].
    + by rewrite Hh, fmap_insert.
    + by rewrite Hj, fmap_insert.
    + by apply map_Forall_insert_2.
    + by apply map_Forall_insert_2.
    + by intros s [= <-].
  - eexists. split; [reflexivity|]. split; try done; cbn [fst snd bk_hash bk_journal bk_state dbDisconnect db_heights db_journal db_best].
    + by rewrite Hh, fmap_delete.
    + unfold dbRemoveSpendJournalEntry. by rewrite Hj, fmap_delete.
    + by apply map_Forall_delete.
    + by apply map_Forall_delete.
    + by intros s [= <-].
Qed.

Lemma holds_all ws k t : holds k t → Forall write_ok ws → ∃ k', writeAll ws k = Ok k' ∧ holds k' (valuesAfter ws t).
Proof.
  intros HH Hws. revert k t HH. induction Hws as [|w ws Hw Hws IH]; intros k t HH; [by exists k|]. cbn [writeAll].
  destruct (holds_write w k t HH Hw) as (k'&E&HH'). rewrite E. cbn [mbind result_bind]. by apply IH.
Qed.

Lemma holds_none : holds noBuckets (mkDB ∅ ∅ ∅ ∅ None, ∅).
Proof.
  split; cbn [fst snd noBuckets bk_index bk_hash bk_journal bk_state bk_utxo db_nodes db_heights db_journal db_best];
    rewrite ?fmap_empty; try done; try apply map_Forall_empty.
Qed.

(** C38. The database keeps the tables the chain works on: whatever sequence of
    coins, rows, connected and disconnected blocks is written to new buckets,
    every write succeeds and every read of the bytes gives the value the
    tables have: coins, heights, spent outputs, rows and the best state. *)
Theorem tables_stored ws :
  Forall write_ok ws →
  ∃ k, writeAll ws noBuckets = Ok k ∧
  let '(d, U) := valuesAfter ws (mkDB ∅ ∅ ∅ ∅ None, ∅) in
  (∀ op, outpoint_ok op → dbFetchUtxoEntry (bk_utxo k) op = Ok (entryOf <$> U !! op)) ∧
  (∀ hash, dbFetchHeightByHash (bk_hash k) hash = from_option_err (db_heights d !! hash) notInBestChain) ∧
  (∀ hash stxos blk, db_journal d !! hash = Some stxos → length stxos = numStxos (tail (bl_Transactions blk)) →
     dbFetchSpendJournalEntry (bk_journal k) hash blk = Ok stxos) ∧
  (∀ key, deserializeBlockRow <$> bk_index k !! key = Ok <$> db_nodes d !! key) ∧
  deserializeBestChainState <$> bk_state k = Ok <$> db_best d.
Proof.
  intros Hws. destruct (holds_all ws _ _ holds_none Hws) as (k&E&[Hi Hh Hj Hs Hu Hr Hhs Hst Hb Hc]). exists k. split; [done|].
  destruct (valuesAfter ws _) as [d U]. cbn [fst snd] in *. split_and!.
  - intros op Hop. unfold dbFetchUtxoEntry. rewrite Hu by done. destruct (U !! op) as [c|] eqn:Ec; [|done].
    specialize (Hc op c Hop Ec). cbn [fmap option_fmap option_map]. rewrite (proj2 (Nat.eqb_neq _ 0)).
    + cbn [negb ensure mbind result_bind]. by rewrite deserializeUtxoEntry_bytes.
    + unfold utxoBytes. rewrite length_app. pose proof (putCompressedTxOut_pos (c_amount c) (c_pkScript c)). lia.
  - intros hash. unfold dbFetchHeightByHash. rewrite Hh, lookup_fmap. destruct (db_heights d !! hash) as [h|] eqn:Eh; [|done].
    cbn [fmap option_fmap option_map from_option_err mbind result_bind].
    assert (length (heightKey h) = 4%nat) as -> by apply le_bytes_length.
    change (Ok (int32_wrap (le_Z (take 4 (heightKey h)))) = Ok h). by rewrite dbFetchHeightByHash_key by by eapply Hhs.
  - intros hash stxos blk El Hn. unfold dbFetchSpendJournalEntry. rewrite Hj, lookup_fmap, El.
    cbn [fmap option_fmap option_map default]. apply journal_read; [by eapply Hst|done].
  - intros key. rewrite Hi, lookup_fmap. destruct (db_nodes d !! key) as [[h st]|] eqn:Er; [|done].
    destruct (Hr key _ Er) as [Hhd Hsb]. cbn [fmap option_fmap option_map fst snd] in *. by rewrite blockRow_read.
  - rewrite Hs. destruct (db_best d) as [s|] eqn:Eb; [|done]. cbn [fmap option_fmap option_map]. by rewrite best_state_read by by apply Hb.
Qed.

End buckets.

(** The bytes of larger indexes may sort before those of smaller ones. *)
Lemma keys_unordered : putVLQ 16511 = [255; 127] ∧ putVLQ 16512 = [128; 128; 0].
Proof. split; vm_compute; reflexivity. Qed.

Module Rows.

(** A curve of the points [(x, x)]. *)
#[export] Instance diagonal : PubKeys := {|
  PublicKey := bytes;
  ParsePubKey key := match key with
    | c :: l =>
        if c =? 4 then if bool_decide (length l = 64%nat ∧ take 32 l = drop 32 l) then Some (take 32 l) else None
        else if bool_decide (length l = 32%nat ∧ c = 2 + Z.land (default 0 (last l)) 1) then Some l else None
    | [] => None
    end;
  SerializeUncompressed x := 4 :: x ++ x |}.

#[export] Instance diagonal_ok : PubKeysOk.
Proof.
  intros x y k Hx Hy. cbn [ParsePubKey diagonal SerializeUncompressed Z.eqb Pos.eqb]. rewrite <- Hx.
  rewrite take_app_length, drop_app_length. case_bool_decide as Hd; [|done]. destruct Hd as [_ <-]. intros [= <-]. split; [done|].
  destruct (odd_format (default 0 (last x))) as [Hc Ec]. rewrite (proj2 (Z.eqb_neq _ 4)) by lia. by rewrite bool_decide_true.
Qed.

Definition block1 : bytes := replicate 32 1.
Definition out (i : Z) : OutPoint := mkOutPoint (replicate 32 7) i.
Definition paid : UtxoEntry := mkEntry 900000000000000000 (OP_DATA_65 :: 4 :: replicate 32 9 ++ replicate 32 9 ++ [OP_CHECKSIG]) 5 tfCoinBase.
Definition kept : UtxoEntry := mkEntry 12345 (OP_HASH160 :: OP_DATA_20 :: replicate 20 3 ++ [OP_EQUAL]) 2147483647 tfModified.

Definition writes : list write :=
  [wCoin (out 0) paid; wCoin (out 16512) kept; wNode block1 1 (mkHeader 1 zeroHash zeroHash 0 0 0) 3;
   wConnect (mkBest block1 1 0 0 0 1 2 0) 12345678901234567890123 block1 1 [coinOf kept]; wSpend (out 0)].

Lemma writes_ok : Forall write_ok writes.
Proof.
  assert (∀ i, 0 ≤ i < two32 → outpoint_ok (out i)) as Hout
    by (intros i Hi; split; [split; [done|by repeat constructor]|done]).
  assert (row_ok (coinOf kept)) as Hk by (split; [split; vm_compute; (split || reflexivity); discriminate|vm_compute; split; (discriminate || reflexivity)]).
  assert (row_ok (coinOf paid)) as Hp by (split; [split; vm_compute; (split || reflexivity); discriminate|vm_compute; split; (discriminate || reflexivity)]).
  repeat constructor; try done; try (by apply Hout); try (by repeat constructor); try (vm_compute; discriminate).
Qed.

Lemma tables_stored_witness :
  ∃ k, writeAll writes noBuckets = Ok k ∧ dbFetchUtxoEntry (bk_utxo k) (out 0) = Ok None ∧
       dbFetchUtxoEntry (bk_utxo k) (out 16512) = Ok (Some (entryOf (coinOf kept))).
Proof.
  destruct (tables_stored writes writes_ok) as (k&E&Hu&_). exists k.
  assert (∀ i, 0 ≤ i < two32 → outpoint_ok (out i)) as Hout
    by (intros i Hi; split; [split; [done|by repeat constructor]|done]).
  split; [exact E|]. split.
  - etrans; [apply Hu, Hout; done|]. vm_compute. reflexivity.
  - etrans; [apply Hu, Hout; done|]. vm_compute. reflexivity.
Defined.

End Rows.
