(* ===== verification/Extend.v ===== *)
(** * A block on top of the best chain

    What [ProcessBlock] of [Process] does with a block whose parent is the
    tip, the only kind DogecoinVM's consensus hands it.  [chain_ok] ties the
    chain to the list of blocks it stands for: the best branch, the block
    index, the stored blocks, the deployment caches and the coins, which are
    those the ledger of [Utxo] gives.  A block that is accepted makes it stand
    for one more block; one that breaks a rule leaves it as it was. *)

From Stdlib Require Import ZArith List Lia.
From stdpp Require Import base list gmap strings.
From S2P Require Import Prelude.
From S2P Require Import Wire.
From S2P Require Import Decode.
From S2P Require Import Chain.
From S2P Require Import Merkle.
From S2P Require Import Versionbits.
From S2P Require Import Utxo.
From S2P Require Import Validate.
From S2P Require Import Context.
From S2P Require Import Process.

Open Scope Z_scope.

(** ** The stored block index *)

(** A row is a node's, and it is marked invalid only if the node is; a node
    without a row is dirty. *)
Record rows_ok (b : BlockChain) : Prop := {
  rw_sound k hdr st : db_nodes (bc_db b) !! k = Some (hdr, st) →
    ∃ q nd, bc_heap b !! q = Some nd ∧ k = nodeKey nd ∧ hdr = Header (bc_heap b) nd ∧
            (KnownInvalid (bn_status nd) = false → KnownInvalid st = false);
  rw_clean q nd : bc_heap b !! q = Some nd → q ∉ bc_dirty b → is_Some (db_nodes (bc_db b) !! nodeKey nd) }.

Lemma rows_utxo b u : rows_ok b → rows_ok (set_utxo u b).
Proof. by intros []. Qed.

Lemma rows_db b d : db_nodes d = db_nodes (bc_db b) → rows_ok b → rows_ok (set_db d b).
Proof. intros E [Hs Hc]. by split; cbn [set_db bc_heap bc_db bc_dirty]; rewrite E. Qed.

Lemma KnownInvalid_lor st flags : KnownInvalid (Z.lor st flags) = false → KnownInvalid st = false.
Proof.
  unfold KnownInvalid. rewrite !negb_false_iff, !Z.eqb_eq, Z.land_lor_distr_l. intros E.
  by apply Z.lor_eq_0_iff in E as [? _].
Qed.

Lemma rows_SetStatusFlags b q flags : rows_ok b → rows_ok (SetStatusFlags q flags b).
Proof.
  intros [Hs Hc]. unfold SetStatusFlags. destruct (bc_heap b !! q) as [nd|] eqn:Eq; [|done].
  pose proof (same_shape_status (bc_heap b) q nd (Z.lor (bn_status nd) flags) Eq) as HS.
  split; cbn [set_index bc_heap bc_db bc_dirty].
  - intros k hdr st Hk. destruct (Hs k hdr st Hk) as (q'&nd'&Hq'&->&->&Hv).
    destruct (decide (q = q')) as [<-|Hne].
    + simplify_eq. exists q, (setStatus nd (Z.lor (bn_status nd) flags)). rewrite lookup_insert_eq.
      split_and!; [done..|symmetry; by apply Header_shape|]. intros Hi. exact (Hv (KnownInvalid_lor (bn_status nd) flags Hi)).
    + exists q', nd'. rewrite lookup_insert_ne by done. split_and!; [done..| |done].
      pose proof (Header_shape _ _ nd' (bn_status nd') HS) as E. destruct nd'. symmetry. exact E.
  - intros q' nd' Hq' Hd. apply lookup_insert_Some in Hq' as [[<- <-]|[Hne Hq']]; [set_solver|].
    apply (Hc q'); [done|set_solver].
Qed.

(** ** What leaves the chain alone *)

(** Statuses, tables and the layout of the caches may change. *)
Record idle (b b' : BlockChain) : Prop := {
  id_shape : same_shape (bc_heap b) (bc_heap b');
  id_index : bc_index b' = bc_index b;
  id_view : bc_best b' = bc_best b;
  id_snapshot : bc_snapshot b' = bc_snapshot b;
  id_coins U K : reps (bc_utxo b) U K → reps (bc_utxo b') U K;
  id_store : same_store (bc_utxo b) (bc_utxo b');
  id_rows : rows_ok b → rows_ok b';
  id_kept k : is_Some (db_nodes (bc_db b) !! k) → is_Some (db_nodes (bc_db b') !! k);
  id_blocks : db_blocks (bc_db b') = db_blocks (bc_db b);
  id_best : db_best (bc_db b') = db_best (bc_db b);
  id_heights : db_heights (bc_db b') = db_heights (bc_db b);
  id_orphans : bc_orphans b' = bc_orphans b;
  id_prev : bc_prevOrphans b' = bc_prevOrphans b;
  id_caches : bc_vb b' = bc_vb b }.

#[export] Instance idle_preorder : PreOrder idle.
Proof.
  split.
  - intros b. by split.
  - intros a b c [] []. split; try congruence; eauto. all: etrans; eauto.
Qed.

Lemma idle_utxo b u :
  (∀ U K, reps (bc_utxo b) U K → reps u U K) → same_store (bc_utxo b) u → idle b (set_utxo u b).
Proof. intros HR Hs. split; try done. apply rows_utxo. Qed.

Lemma idle_dbView : preserves idle dbView.
Proof.
  intros b r b'. unfold dbView, onCache. destruct (dbTx (bc_utxo b)) as [r0 u] eqn:E. intros [= <- <-].
  destruct (dbTx_spec (bc_utxo b)) as (r1&u1&E1&_&Hs&_). rewrite E in E1. injection E1 as <- <-.
  apply idle_utxo; [|done]. intros U K HR. destruct (dbTx_reps _ U K HR) as (r2&u2&E2&HR2&_). congruence.
Qed.

Lemma idle_modify f : (∀ b, idle b (f b)) → preserves idle (modify f).
Proof. intros Hf b r b' [= <- <-]. apply Hf. Qed.

Lemma idle_SetStatusFlags q flags b : idle b (SetStatusFlags q flags b).
Proof.
  unfold SetStatusFlags. destruct (bc_heap b !! q) as [nd|] eqn:Eq; [|reflexivity].
  pose proof (rows_SetStatusFlags b q flags) as Hr. unfold SetStatusFlags in Hr. rewrite Eq in Hr.
  split; try done. by apply same_shape_status.
Qed.

#[export] Hint Resolve idle_dbView : steps.
#[export] Hint Extern 1 (preserves idle (modify (SetStatusFlags _ _))) =>
  (apply idle_modify; intros; apply idle_SetStatusFlags) : steps.
(** Rows for the dirty nodes. *)
Lemma storeNodes_lookup (H : heap) (l : list nat) (rows : gmap bytes (BlockHeader * Z)) (k : bytes) (hdr : BlockHeader) (st : Z) :
  foldl (fun rows p => match H !! p with
                       | Some nd => <[nodeKey nd := (Header H nd, bn_status nd)]> rows
                       | None => rows
                       end) rows l !! k = Some (hdr, st) →
  rows !! k = Some (hdr, st) ∨ ∃ p nd, p ∈ l ∧ H !! p = Some nd ∧ k = nodeKey nd ∧ hdr = Header H nd ∧ st = bn_status nd.
Proof.
  revert rows; induction l as [|p l IH]; intros rows; simpl; [by left|]. intros [Hr|(p'&nd&?&?)]%IH.
  - destruct (H !! p) as [nd|] eqn:Ep; [|by left]. apply lookup_insert_Some in Hr as [[<- [= <- <-]]|[_ Hr]]; [|by left].
    right. exists p, nd. split_and!; [set_solver|done..].
  - right. exists p', nd. split; [set_solver|done].
Qed.

Lemma storeNodes_kept (H : heap) (l : list nat) (rows : gmap bytes (BlockHeader * Z)) (k : bytes) :
  (is_Some (rows !! k) ∨ ∃ p nd, p ∈ l ∧ H !! p = Some nd ∧ k = nodeKey nd) →
  is_Some (foldl (fun rows p => match H !! p with
                       | Some nd => <[nodeKey nd := (Header H nd, bn_status nd)]> rows
                       | None => rows
                       end) rows l !! k).
Proof.
  revert rows; induction l as [|p l IH]; intros rows; simpl; [set_solver|]. intros Hk. apply IH.
  destruct Hk as [Hr|(p'&nd&[->|Hl]%elem_of_cons&Hp&->)].
  - left. destruct (H !! p) as [nd|]; [|done]. destruct (decide (nodeKey nd = k)) as [<-|].
    + rewrite lookup_insert_eq. by eexists.
    + by rewrite lookup_insert_ne.
  - left. rewrite Hp, lookup_insert_eq. by eexists.
  - right. by exists p', nd.
Qed.

(** A flush of the index does not run the database, fails with it, or writes
    every dirty node. *)
Lemma flushToDB_cases b :
  (bc_dirty b = ∅ ∧ flushToDB b = (Ok tt, b)) ∨
  ∃ r u, dbTx (bc_utxo b) = (r, u) ∧
    match r with
    | Ok _ => flushToDB b = (Ok tt, set_index (bc_heap b) (bc_index b) ∅
                (set_db (storeNodes (bc_heap b) (bc_dirty b) (bc_db b)) (set_utxo u b)))
    | Err e => flushToDB b = (Err e, set_utxo u b)
    end.
Proof.
  unfold flushToDB. rewrite st_get_bind. case_bool_decide as Hd; [by left|]. right.
  destruct (dbTx (bc_utxo b)) as [r u] eqn:E. exists r, u. split; [done|].
  unfold dbUpdate, dbView, onCache. rewrite !st_bind_run, E. by destruct r.
Qed.

Lemma rows_stored b u :
  rows_ok b → rows_ok (set_index (bc_heap b) (bc_index b) ∅
                (set_db (storeNodes (bc_heap b) (bc_dirty b) (bc_db b)) (set_utxo u b))).
Proof.
  intros [Hs Hc]. split; cbn [set_index set_db set_utxo bc_heap bc_db bc_dirty storeNodes db_nodes].
  - intros k hdr st [Hk|(p&nd&_&Hp&->&->&->)]%storeNodes_lookup; [eauto|]. by exists p, nd.
  - intros q nd Hq _. apply storeNodes_kept. destruct (decide (q ∈ bc_dirty b)) as [Hd|Hd].
    + right. exists q, nd. split_and!; [by apply elem_of_elements|done..].
    + left. by eapply Hc.
Qed.

Lemma idle_flushToDB : preserves idle flushToDB.
Proof.
  intros b r b' E. destruct (flushToDB_cases b) as [[_ Ef]|(r0&u&Eu&Ef)]; [rewrite Ef in E; by simplify_eq|].
  assert (idle b (set_utxo u b)) as HI.
  { apply (idle_dbView b r0). unfold dbView, onCache. by rewrite Eu. }
  destruct r0; rewrite Ef in E; simplify_eq; [|done]. destruct HI as [? ? ? ? ? ? ? ? ? ? ? ? ? ?].
  split; try done; [by apply rows_stored|]. intros k Hk. apply storeNodes_kept. by left.
Qed.

#[export] Hint Resolve idle_flushToDB : steps.

(** A method of the database fails with the database's error alone. *)
Definition storage {A} (m : Ch A) : Prop := ∀ b, run m b (fun r _ => ∀ e, r = Err e → e = dbError).

Lemma storage_dbView : storage dbView.
Proof.
  intros b. unfold run, dbView, onCache. destruct (dbTx_spec (bc_utxo b)) as (r&s'&->&_&_&[-> | ->]); congruence.
Qed.

Lemma storage_bind {A B} (m : Ch A) (f : A → Ch B) : storage m → (∀ a, storage (f a)) → storage (m ≫= f).
Proof.
  intros Hm Hf b. apply run_bind. eapply run_mono; [apply Hm|]. intros [a|e] b' He; [apply Hf|]. intros ? [= <-]; auto.
Qed.

Lemma storage_modify f : storage (modify f).
Proof. by intros b. Qed.

Lemma storage_dbUpdate f : storage (dbUpdate f).
Proof. apply storage_bind; [apply storage_dbView|intros; apply storage_modify]. Qed.

Lemma storage_flushToDB : storage flushToDB.
Proof.
  intros b. apply run_get. case_bool_decide; [done|].
  apply storage_bind; [apply storage_dbUpdate|intros; apply storage_modify].
Qed.

Lemma flushToDB_heap b : run flushToDB b (fun _ b' => bc_heap b' = bc_heap b).
Proof.
  unfold run. destruct (flushToDB_cases b) as [[_ ->]|(r&u&_&Ef)]; [done|]. by destruct r; rewrite Ef.
Qed.

(** After a flush every node has its row. *)
Lemma flushToDB_rows b : rows_ok b →
  run flushToDB b (fun r b' => ∀ u q nd, r = Ok u → bc_heap b !! q = Some nd → is_Some (db_nodes (bc_db b') !! nodeKey nd)).
Proof.
  intros HR. unfold run. destruct (flushToDB_cases b) as [[Hd ->]|(r&u&_&Ef)].
  - intros _ q nd _ Hq. apply (rw_clean _ HR q); [done|]. rewrite Hd. set_solver.
  - destruct r; rewrite Ef; [|done]. intros _ q nd _ Hq. by apply (rw_clean _ (rows_stored b u HR) q).
Qed.

Lemma idle_flushIndexState : preserves idle flushIndexState.
Proof.
  intros b r b'. unfold flushIndexState. destruct (flushToDB b) as [r0 b0] eqn:E. intros [= <- <-].
  by eapply idle_flushToDB.
Qed.

#[export] Hint Resolve idle_flushIndexState : steps.

Lemma idle_nodeAt q : preserves idle (nodeAt q).
Proof. unfold nodeAt. preserve. Qed.

#[export] Hint Resolve idle_nodeAt : steps.

(** The shape of the tree is what the views and the branches depend on. *)
Lemma same_shape_grows H H' : same_shape H H' → grows H H'.
Proof. intros HS q nd Hq. by apply (same_shape_lookup H H'). Qed.

Lemma view_of_grows H H' q : tree_ok H → grows H H' → is_Some (H !! q) → view_of H' q = view_of H q.
Proof.
  intros WF HG [nd Hq]. unfold view_of. destruct (HG q nd Hq) as [st ->]. rewrite Hq. cbv zeta.
  cbn [setStatus bn_height]. apply list_fmap_ext. intros i x _. by rewrite (grows_walk H H') by eauto.
Qed.

(** ** The blocks a chain stands for *)

Section ledger.
Context `{CR : Crypto}.

(** The coins after the given blocks, from height [h] on. *)
Fixpoint ledgerFrom (h : Z) (U : coins) (blks : list MsgBlock) : coins :=
  match blks with
  | [] => U
  | b :: blks => ledgerFrom (h + 1) (applyBlock h U (bl_Transactions b)) blks
  end.

(** The outputs of the genesis block, spendable or not. *)
Definition genesisOuts (g : MsgBlock) : list (OutPoint * coin) :=
  concat (imap (fun i tx =>
    (fun x => (x.1, mkCoin (Value x.2) (PkScript x.2) 0 (Nat.eqb i 0))) <$> outsOf tx) (bl_Transactions g)).

Definition genesisCoins (g : MsgBlock) : coins :=
  foldl (fun U x => <[x.1 := x.2]> U) ∅ (genesisOuts g).

Definition ledger (g : MsgBlock) (blks : list MsgBlock) : coins := ledgerFrom 1 (genesisCoins g) blks.

Definition blockTxids (b : MsgBlock) : list bytes := TxHash <$> bl_Transactions b.

Definition txids (g : MsgBlock) (blks : list MsgBlock) : gset bytes := list_to_set ((g :: blks) ≫= blockTxids).

Definition minted (p : Params) (n : nat) : Z :=
  sumZ ((fun i => CalcBlockSubsidy p (Z.of_nat i) + PegReserveAt p (Z.of_nat i)) <$> seq 1 n).

Lemma ledgerFrom_snoc h U blks b :
  ledgerFrom h U (blks ++ [b]) =
  applyBlock (h + Z.of_nat (length blks)) (ledgerFrom h U blks) (bl_Transactions b).
Proof.
  revert h U; induction blks as [|b' blks IH]; intros h U; cbn [ledgerFrom app length].
  - by rewrite Z.add_0_r.
  - rewrite IH. f_equal. lia.
Qed.

Lemma ledger_snoc g blks b :
  ledger g (blks ++ [b]) = applyBlock (1 + Z.of_nat (length blks)) (ledger g blks) (bl_Transactions b).
Proof. apply ledgerFrom_snoc. Qed.

Lemma txids_snoc g blks b : txids g (blks ++ [b]) = txids g blks ∪ list_to_set (blockTxids b).
Proof.
  unfold txids. rewrite app_comm_cons, bind_app, list_to_set_app_L. f_equal. simpl. by rewrite app_nil_r.
Qed.

Lemma minted_snoc p n :
  minted p (S n) = minted p n + CalcBlockSubsidy p (1 + Z.of_nat n) + PegReserveAt p (1 + Z.of_nat n).
Proof.
  unfold minted. rewrite seq_S, fmap_app, sumZ_app. rewrite fmap_cons, sumZ_cons. simpl (sumZ (_ <$> [])).
  replace (Z.of_nat (1 + n)) with (1 + Z.of_nat n) by lia. lia.
Qed.

Lemma spendAll_lookup ops (U : coins) op : is_Some (spendAll ops U !! op) → is_Some (U !! op) ∧ op ∉ ops.
Proof.
  unfold spendAll. revert U; induction ops as [|o l IH]; intros U; simpl; [set_solver|].
  intros [Hx Hn]%IH. destruct (decide (o = op)) as [<-|]; [rewrite lookup_delete_eq in Hx; by destruct Hx|].
  rewrite lookup_delete_ne in Hx by done. set_solver.
Qed.

Lemma addOuts_known h (U : coins) tx op : is_Some (addOuts tx h U !! op) → is_Some (U !! op) ∨ Hash op = TxHash tx.
Proof.
  unfold addOuts. assert (∀ x, x ∈ outsOf tx → Hash x.1 = TxHash tx) as Hout.
  { intros [op' o] (i&?&[= -> ->]&_)%elem_of_lookup_imap. done. }
  revert U. induction (outsOf tx) as [|x l IH]; intros V; simpl; [auto|].
  intros Hx. destruct (IH ltac:(set_solver) _ Hx) as [Hv|]; [|auto]. unfold addOut in Hv.
  destruct (IsUnspendable _); [auto|]. destruct (decide (x.1 = op)) as [<-|].
  - right. apply Hout. set_solver.
  - rewrite lookup_insert_ne in Hv by done. auto.
Qed.

Lemma applyTx_known h U tx op :
  is_Some (applyTx h U tx !! op) → is_Some (U !! op) ∨ Hash op = TxHash tx.
Proof. intros [[? _]%spendAll_lookup|]%addOuts_known; auto. Qed.

Lemma applyBlock_known h U txs op :
  is_Some (applyBlock h U txs !! op) → is_Some (U !! op) ∨ Hash op ∈ TxHash <$> txs.
Proof.
  unfold applyBlock. revert U; induction txs as [|tx txs IH]; intros U; simpl; [auto|].
  intros [[?| ->]%applyTx_known|]%IH; [auto|..]; right; set_solver.
Qed.

(** What the ledger holds comes from the blocks. *)
Lemma ledger_txids g blks op : is_Some (ledger g blks !! op) → Hash op ∈ txids g blks.
Proof.
  induction blks as [|b blks IH] using rev_ind.
  - unfold ledger, genesisCoins, txids. cbn [ledgerFrom]. rewrite elem_of_list_to_set. simpl. rewrite app_nil_r.
    assert (∀ x, x ∈ genesisOuts g → Hash x.1 ∈ blockTxids g) as Hout.
    { intros x Hx. unfold genesisOuts in Hx. apply list_elem_of_In, in_concat in Hx as (l&Hl&Hx). apply list_elem_of_In in Hl, Hx.
      apply elem_of_lookup_imap in Hl as (i&tx&->&Htx). apply list_elem_of_fmap in Hx as ([op' o]&->&Ho).
      apply elem_of_lookup_imap in Ho as (j&o'&[= -> ->]&_). apply (list_elem_of_fmap_2 TxHash).
      by eapply list_elem_of_lookup_2. }
    assert (∀ l (U : coins), is_Some (foldl (fun U x => <[x.1 := x.2]> U) U l !! op) →
      is_Some (U !! op) ∨ ∃ x, x ∈ l ∧ x.1 = op) as Hfold.
    { induction l as [|x l IH]; intros U; simpl; [by left|]. intros [Hx|(y&?&?)]%IH; [|right; exists y; set_solver].
      destruct (decide (x.1 = op)) as [<-|]; [right; exists x; set_solver|]. rewrite lookup_insert_ne in Hx by done. by left. }
    intros [[? Hx]|(x&Hx&<-)]%Hfold; [by rewrite lookup_empty in Hx|by apply Hout].
  - rewrite ledger_snoc, txids_snoc. intros [Hk|?]%applyBlock_known; [apply elem_of_union_l; by apply IH|].
    apply elem_of_union_r. by apply elem_of_list_to_set.
Qed.

Lemma reps_mono (s : utxoCache) (U : coins) (K K' : gset bytes) : (∀ x, x ∈ K → x ∈ K') → reps s U K → reps s U K'.
Proof. intros HK [[? ? Hk] ?]. split; [split|]; eauto. Qed.

(** What the code counts is what the ledger spends. *)
Lemma spentBy_length h U txs : canApply h U txs → length (spentBy h U txs) = list_sum ((fun tx => length (spends tx)) <$> txs).
Proof.
  revert U; induction txs as [|tx txs IH]; intros U; [done|]. intros [[_ Hs] Hc]. rewrite fmap_cons. simpl.
  rewrite length_app, IH by done. f_equal. clear - Hs.
  induction Hs as [|op l [c E] _ IHl]; [done|]. cbn [omap list_omap]. rewrite E. simpl. by rewrite IHl.
Qed.

Lemma spent_counted h U b :
  block_sane b → canApply h U (bl_Transactions b) →
  length (spentBy h U (bl_Transactions b)) = countSpentOutputs (bl_Transactions b).
Proof.
  intros [(cb&rest&E&Ecb&Hnc) _ _ _] Hc. rewrite spentBy_length by done. unfold countSpentOutputs. rewrite E.
  rewrite fmap_cons. simpl. unfold spends at 1. rewrite Ecb. simpl. f_equal.
  clear E Hc. induction Hnc as [|tx l Htx _ IH]; [done|]. rewrite !fmap_cons. f_equal; [|done].
  unfold spends. rewrite Htx. unfold prevOuts. by rewrite length_fmap.
Qed.

End ledger.

(** ** Identifiers do not repeat *)

Section history.
Context `{CR : Crypto}.

Definition blockTxs (blks : list MsgBlock) : list MsgTx := blks ≫= bl_Transactions.

(** Two of the transactions with one identifier have the same inputs: no
    collision of the hash among them. *)
Definition no_collision (txs : list MsgTx) : Prop :=
  ∀ tx tx', tx ∈ txs → tx' ∈ txs → TxHash tx = TxHash tx' → noWitness <$> txIn tx = noWitness <$> txIn tx'.

Lemma same_inputs tx tx' :
  noWitness <$> txIn tx = noWitness <$> txIn tx' →
  IsCoinBaseTx tx = IsCoinBaseTx tx' ∧ spends tx = spends tx' ∧ ExtractCoinbaseHeight tx = ExtractCoinbaseHeight tx'.
Proof.
  intros E.
  assert (prevOuts tx = prevOuts tx') as Ep.
  { unfold prevOuts. apply (f_equal (fmap PreviousOutPoint)) in E. by rewrite <- !list_fmap_compose in E. }
  assert (IsCoinBaseTx tx = IsCoinBaseTx tx') as Ec.
  { unfold IsCoinBaseTx. destruct (txIn tx) as [|ti [|]], (txIn tx') as [|ti' [|]]; try done.
    injection E as E1 _ _. by rewrite E1. }
  split_and!; [done|by unfold spends; rewrite Ec, Ep|].
  unfold ExtractCoinbaseHeight. destruct (txIn tx) as [|ti l], (txIn tx') as [|ti' l']; try done.
  injection E as _ E _ _. by rewrite E.
Qed.

(** The genesis block has coinbases only, which are worth nothing and carry no
    height. *)
Record genesis_ok (g : MsgBlock) : Prop := {
  gn_coinbase tx : tx ∈ bl_Transactions g → IsCoinBaseTx tx = true;
  gn_height tx n : tx ∈ bl_Transactions g → 1 ≤ n → ExtractCoinbaseHeight tx ≠ Ok n;
  gn_value : Forall (fun x => c_amount x.2 = 0) (genesisOuts g) }.

(** Every block spends what those before it left, under new identifiers. *)
Definition applied_ok (g : MsgBlock) (blks : list MsgBlock) : Prop :=
  ∀ i blk, blks !! i = Some blk →
    canApply (1 + Z.of_nat i) (ledger g (take i blks)) (bl_Transactions blk) ∧
    Forall (fun h => h ∉ txids g (take i blks)) (blockTxids blk) ∧ NoDup (blockTxids blk).

Record history_ok (g : MsgBlock) (blks : list MsgBlock) : Prop := {
  hi_genesis : genesis_ok g;
  hi_spent tx op : tx ∈ blockTxs blks → op ∈ spends tx → ledger g blks !! op = None ∧ Hash op ∈ txids g blks;
  hi_height i blk : blks !! i = Some blk → ∃ cb rest, bl_Transactions blk = cb :: rest ∧ noCoinbase rest ∧
    ExtractCoinbaseHeight cb = Ok (1 + Z.of_nat i);
  hi_applied : applied_ok g blks }.

Lemma elem_of_txids g blks h : h ∈ txids g blks ↔ ∃ tx, tx ∈ blockTxs (g :: blks) ∧ TxHash tx = h.
Proof.
  unfold txids, blockTxs, blockTxids. rewrite elem_of_list_to_set, list_elem_of_bind. setoid_rewrite list_elem_of_fmap.
  setoid_rewrite list_elem_of_bind. naive_solver.
Qed.

(** A transaction of the chain cannot be applied again: what it spent is
    gone, and nothing with its outputs' identifiers brings it back. *)
Lemma fresh_rest g blks h txs (U : coins) :
  history_ok g blks → canApply h U txs → noCoinbase txs → Forall tx_sane txs →
  (∀ tx tx', tx ∈ txs → tx' ∈ blockTxs (g :: blks) → TxHash tx = TxHash tx' → noWitness <$> txIn tx = noWitness <$> txIn tx') →
  (∀ op, is_Some (U !! op) → is_Some (ledger g blks !! op) ∨ Hash op ∉ txids g blks) →
  Forall (fun tx => TxHash tx ∉ txids g blks) txs.
Proof.
  intros HH. revert U; induction txs as [|tx txs IH]; intros U Hc Hn Hs Hcol HU; [done|].
  apply Forall_cons in Hn as [Hn Hns], Hs as [Hs Hss]. destruct Hc as [[_ Hsp] Hc].
  assert (TxHash tx ∉ txids g blks) as Hf.
  { intros (tx'&Htx'&Eh)%elem_of_txids.
    destruct (same_inputs tx tx') as (Ec&Es&_); [apply Hcol; [set_solver|done|done]|].
    apply elem_of_app in Htx' as [Htx'|Htx']; [apply (gn_coinbase _ (hi_genesis _ _ HH)) in Htx'; congruence|].
    destruct (spends tx) as [|op l] eqn:El.
    - unfold spends in El. rewrite Hn in El. apply (ts_in _ Hs). unfold prevOuts in El. by apply fmap_nil_inv in El.
    - destruct (hi_spent _ _ HH tx' op Htx') as [HL HK]; [rewrite <- Es; set_solver|].
      apply Forall_cons in Hsp as [Hop _]. destruct (HU op Hop) as [[? ?]|]; [congruence|done]. }
  constructor; [done|]. eapply IH; [done..| |].
  - intros; apply Hcol; [set_solver|done..].
  - intros op [Hop| ->]%applyTx_known; [by apply HU|by right].
Qed.

Lemma fresh_block p g blks blk cb rest :
  history_ok g blks → (∀ op, is_Some (ledger g blks !! op) → Hash op ∈ txids g blks) →
  bl_Transactions blk = cb :: rest → IsCoinBaseTx cb = true → noCoinbase rest → Forall tx_sane (cb :: rest) →
  ExtractCoinbaseHeight cb = Ok (1 + Z.of_nat (length blks)) →
  connectable p (1 + Z.of_nat (length blks)) (cb :: rest) (ledger g blks) →
  no_collision (blockTxs (g :: blks ++ [blk])) → Forall (fun h => h ∉ txids g blks) (blockTxids blk).
Proof.
  intros HH HK Etx Ecb Hnc Hsane Eh [[_ Hc] _ _ _] Hcol.
  assert (∀ tx, tx ∈ cb :: rest → tx ∈ blockTxs (g :: blks ++ [blk])) as Hnew.
  { intros tx Htx. unfold blockTxs. rewrite app_comm_cons, bind_app. apply elem_of_app. right. simpl. rewrite app_nil_r. congruence. }
  assert (∀ tx, tx ∈ blockTxs (g :: blks) → tx ∈ blockTxs (g :: blks ++ [blk])) as Hold.
  { intros tx Htx. unfold blockTxs in *. rewrite app_comm_cons, bind_app. apply elem_of_app. by left. }
  assert (TxHash cb ∉ txids g blks) as Hfcb.
  { intros (tx&Htx&E)%elem_of_txids. destruct (same_inputs tx cb) as (Ec&_&Ex).
    { apply Hcol; [by apply Hold|apply Hnew; set_solver|done]. }
    apply elem_of_app in Htx as [Htx|Htx].
    { eapply (gn_height _ (hi_genesis _ _ HH) tx (1 + Z.of_nat (length blks))); [done|lia|congruence]. }
    apply list_elem_of_bind in Htx as (b&Htx&(i&Hb)%list_elem_of_lookup).
    destruct (hi_height _ _ HH i b Hb) as (cb'&rest'&Eb&Hnc'&Ex'). rewrite Eb in Htx.
    apply elem_of_cons in Htx as [->|Htx].
    - rewrite Ex', Eh in Ex. injection Ex as Ex. apply lookup_lt_Some in Hb. lia.
    - apply (proj1 (Forall_forall _ _) Hnc') in Htx. congruence. }
  unfold blockTxids. rewrite Etx, Forall_fmap, Forall_cons. split; [done|].
  apply Forall_cons in Hsane as [_ Hsane]. eapply fresh_rest; [done..| |].
  - intros tx tx' ? ?. apply Hcol; [apply Hnew; set_solver|by apply Hold].
  - intros op [?| ->]%applyTx_known; [by left|by right].
Qed.

(** What a block spends stays spent to its end. *)
Lemma spent_gone (h : Z) (txs : list MsgTx) (U : coins) (K : gset bytes) (tx : MsgTx) (op : OutPoint) :
  canApply h U txs → NoDup (TxHash <$> txs) → Forall (fun tx => TxHash tx ∉ K) txs →
  (∀ op, is_Some (U !! op) → Hash op ∈ K) → tx ∈ txs → op ∈ spends tx →
  applyBlock h U txs !! op = None ∧ (Hash op ∈ K ∨ Hash op ∈ TxHash <$> txs).
Proof.
  revert U K; induction txs as [|tx0 txs IH]; intros U K Hc Hnd Hf HU Htx Hop; [set_solver|].
  rewrite fmap_cons in *. apply NoDup_cons in Hnd as [Hn Hnd]. apply Forall_cons in Hf as [Hf0 Hf].
  destruct Hc as [[Hnds Hsp] Hc]. apply elem_of_cons in Htx as [->|Htx].
  - assert (Hash op ∈ K) as Hk by (apply HU; by eapply (proj1 (Forall_forall _ _) Hsp)).
    split; [|by left]. apply eq_None_not_Some. intros Hs. cbn [applyBlock foldl] in Hs.
    apply (applyBlock_known h (applyTx h U tx0) txs op) in Hs as [Hs|Hs].
    + unfold applyTx in Hs. apply (addOuts_known h _ tx0) in Hs as [Hs|Hs]; [|congruence].
      by apply spendAll_lookup in Hs as [_ ?].
    + apply list_elem_of_fmap in Hs as (tx&E&Htx). apply (proj1 (Forall_forall _ _) Hf) in Htx. congruence.
  - destruct (IH (applyTx h U tx0) (K ∪ {[ TxHash tx0 ]})) as [? HK]; try done.
    + apply Forall_forall. intros tx' Htx' [Hk|Hk%elem_of_singleton]%elem_of_union.
      * by apply (proj1 (Forall_forall _ _) Hf) in Htx'.
      * apply Hn. rewrite <- Hk. by apply list_elem_of_fmap_2.
    + intros op' [Hs| ->]%applyTx_known; [apply elem_of_union_l; auto|set_solver].
    + split; [done|]. destruct HK as [[?|Hk%elem_of_singleton]%elem_of_union|]; [by left|right..]; set_solver.
Qed.

Lemma history_snoc p g blks blk cb rest :
  history_ok g blks → (∀ op, is_Some (ledger g blks !! op) → Hash op ∈ txids g blks) →
  bl_Transactions blk = cb :: rest → noCoinbase rest → NoDup (blockTxids blk) →
  ExtractCoinbaseHeight cb = Ok (1 + Z.of_nat (length blks)) →
  connectable p (1 + Z.of_nat (length blks)) (cb :: rest) (ledger g blks) →
  Forall (fun h => h ∉ txids g blks) (blockTxids blk) → history_ok g (blks ++ [blk]).
Proof.
  intros HH HK Etx Hnc Hnd Eh [Hc _ _ _] Hf. rewrite <- Etx in Hc. split; [apply HH|..].
  - intros tx op Htx Hop. rewrite ledger_snoc, txids_snoc. unfold blockTxs in Htx. rewrite bind_app in Htx.
    apply elem_of_app in Htx as [Htx|Htx].
    + destruct (hi_spent _ _ HH tx op Htx Hop) as [HL Hk]. split; [|set_solver]. apply eq_None_not_Some.
      intros [[? ?]|Hs]%applyBlock_known; [congruence|]. by apply (proj1 (Forall_forall _ _) Hf) in Hs.
    + simpl in Htx. rewrite app_nil_r in Htx. unfold blockTxids in *. rewrite Forall_fmap in Hf.
      destruct (spent_gone _ (bl_Transactions blk) (ledger g blks) (txids g blks) tx op Hc Hnd Hf HK Htx Hop) as [? HKs].
      split; [done|]. rewrite elem_of_union, elem_of_list_to_set. tauto.
  - intros i b Hb. apply lookup_app_Some in Hb as [Hb|[Hi Hb]]; [by apply (hi_height _ _ HH)|].
    apply list_lookup_singleton_Some in Hb as [Hi0 <-]. exists cb, rest. split_and!; [done..|].
    rewrite Eh. do 2 f_equal. lia.
  - intros i b Hb. apply lookup_app_Some in Hb as [Hb|[Hi Hb]].
    + rewrite take_app_le by (apply lookup_lt_Some in Hb; lia). by apply (hi_applied _ _ HH).
    + apply list_lookup_singleton_Some in Hb as [Hi0 <-]. assert (i = length blks) as -> by lia.
      rewrite take_app_length. by split.
Qed.

(** What a block spends was there, or is made by it. *)
Lemma spends_known (h : Z) (txs : list MsgTx) (U : coins) (op : OutPoint) :
  canApply h U txs → op ∈ (txs ≫= spends) → is_Some (U !! op) ∨ Hash op ∈ TxHash <$> txs.
Proof.
  revert U; induction txs as [|tx txs IH]; intros U Hc Hop; [by apply not_elem_of_nil in Hop|]. destruct Hc as [[_ Hsp] Hc].
  cbn [mbind list_bind] in Hop. rewrite fmap_cons. apply elem_of_app in Hop as [Hop|Hop].
  - left. by eapply (proj1 (Forall_forall _ _) Hsp).
  - destruct (IH _ Hc Hop) as [[?| ->]%applyTx_known|]; [by left|right; set_solver..].
Qed.

(** A block spends no output twice. *)
Lemma spends_NoDup (h : Z) (txs : list MsgTx) (U : coins) (K : gset bytes) :
  canApply h U txs → NoDup (TxHash <$> txs) → Forall (fun tx => TxHash tx ∉ K) txs →
  (∀ op, is_Some (U !! op) → Hash op ∈ K) → NoDup (txs ≫= spends).
Proof.
  revert U K; induction txs as [|tx txs IH]; intros U K Hc Hnd Hf HU; [constructor|]. destruct Hc as [[Hnds Hsp] Hc].
  rewrite fmap_cons in Hnd. apply NoDup_cons in Hnd as [Hn Hnd]. apply Forall_cons in Hf as [Hf0 Hf].
  cbn [mbind list_bind]. apply NoDup_app. split_and!; [done| |].
  - intros op Hop Hop'. assert (Hash op ∈ K) as Hk by (apply HU; by eapply (proj1 (Forall_forall _ _) Hsp)).
    destruct (spends_known h txs (applyTx h U tx) op Hc Hop') as [Hs|Hs].
    + unfold applyTx in Hs. apply (addOuts_known h _ tx) in Hs as [Hs|Hs]; [|congruence]. by apply spendAll_lookup in Hs as [_ ?].
    + apply list_elem_of_fmap in Hs as (tx'&E&Htx'). apply (proj1 (Forall_forall _ _) Hf) in Htx'. congruence.
  - apply (IH (applyTx h U tx) (K ∪ {[ TxHash tx ]})); [done|done| |].
    + apply Forall_forall. intros tx' Htx' [Hk|Hk%elem_of_singleton]%elem_of_union.
      * by apply (proj1 (Forall_forall _ _) Hf) in Htx'.
      * apply Hn. rewrite <- Hk. by apply list_elem_of_fmap_2.
    + intros op [Hs| ->]%applyTx_known; [apply elem_of_union_l; auto|set_solver].
Qed.

Lemma applied_prefix g blks blk : applied_ok g (blks ++ [blk]) → applied_ok g blks.
Proof.
  intros HA i b Hb. specialize (HA i b (lookup_app_l_Some _ _ _ _ Hb)). apply lookup_lt_Some in Hb.
  by rewrite take_app_le in HA by lia.
Qed.

(** Neither does a chain. *)
Lemma chain_spends g blks :
  applied_ok g blks →
  NoDup (blockTxs blks ≫= spends) ∧
  ∀ op, op ∈ (blockTxs blks ≫= spends) → ledger g blks !! op = None ∧ Hash op ∈ txids g blks.
Proof.
  induction blks as [|blk blks IH] using rev_ind; intros HA.
  { split; [constructor|]. intros op Hop. by apply not_elem_of_nil in Hop. }
  destruct (IH (applied_prefix _ _ _ HA)) as [Hnd Hold].
  destruct (HA (length blks) blk) as (Hc&Hf&Hids); [by rewrite lookup_app_r, Nat.sub_diag by done|].
  rewrite take_app_length in Hc, Hf. unfold blockTxids in Hf. rewrite Forall_fmap in Hf.
  assert (blockTxs (blks ++ [blk]) ≫= spends = (blockTxs blks ≫= spends) ++ (bl_Transactions blk ≫= spends)) as ->.
  { unfold blockTxs. rewrite bind_app, bind_app. simpl. by rewrite app_nil_r. }
  assert (∀ op, op ∈ (bl_Transactions blk ≫= spends) →
    ledger g (blks ++ [blk]) !! op = None ∧ Hash op ∈ txids g (blks ++ [blk])) as Hnew.
  { intros op (tx&Hop&Htx)%list_elem_of_bind. rewrite ledger_snoc, txids_snoc.
    destruct (spent_gone _ _ _ _ tx op Hc Hids Hf (ledger_txids g blks) Htx Hop) as [? HKs]. split; [done|].
    rewrite elem_of_union, elem_of_list_to_set. exact HKs. }
  split.
  - apply NoDup_app. split_and!; [done| |by eapply spends_NoDup, ledger_txids].
    intros op Hop Hop'. destruct (Hold op Hop) as [Hn Hk].
    destruct (spends_known _ _ _ _ Hc Hop') as [[? ?]|Hs]; [congruence|].
    apply list_elem_of_fmap in Hs as (tx'&E&Htx'). apply (proj1 (Forall_forall _ _) Hf) in Htx'. congruence.
  - intros op [Hop|Hop]%elem_of_app; [|by apply Hnew]. destruct (Hold op Hop) as [Hn Hk]. rewrite ledger_snoc, txids_snoc.
    split; [|set_solver]. apply eq_None_not_Some. intros [[? ?]|Hs]%applyBlock_known; [congruence|].
    apply list_elem_of_fmap in Hs as (tx'&E&Htx'). apply (proj1 (Forall_forall _ _) Hf) in Htx'. congruence.
Qed.

End history.

(** ** The invariant *)

Section invariant.
Context `{CR : Crypto} (p : Params).

(** A slot of the best chain holds the node of the block. *)
Definition slot (H : heap) (o : option ptr) (blk : MsgBlock) : Prop :=
  ∃ q nd, o = Some q ∧ H !! q = Some nd ∧ bn_hash nd = BlockHash (bl_Header blk).

(** Everything but the coins, for the genesis block [g] and the blocks after
    it. *)
Record frame_ok (b : BlockChain) (g : MsgBlock) (blks : list MsgBlock) : Prop := {
  fk_tree : tree_ok (bc_heap b);
  fk_node h q : bc_index b !! h = Some q → ∃ nd, bc_heap b !! q = Some nd ∧ bn_hash nd = h;
  fk_indexed q nd : bc_heap b !! q = Some nd → bc_index b !! bn_hash nd = Some q;
  fk_stored q nd : bc_heap b !! q = Some nd → is_Some (db_blocks (bc_db b) !! bn_hash nd);
  fk_blocks h blk : db_blocks (bc_db b) !! h = Some blk → BlockHash (bl_Header blk) = h ∧ is_Some (bc_index b !! h);
  fk_held blk : blk ∈ g :: blks → db_blocks (bc_db b) !! BlockHash (bl_Header blk) = Some blk;
  fk_caches : coherent (bc_heap b) (p_Deploy p) (bc_vb b);
  fk_tip : ∃ t td, bc_heap b !! t = Some td ∧ bc_best b = view_of (bc_heap b) t ∧
                   bs_Hash (bc_snapshot b) = bn_hash td ∧ bs_Height (bc_snapshot b) = bn_height td;
  fk_chain : Forall2 (slot (bc_heap b)) (bc_best b) (g :: blks);
  fk_best : ∃ work, db_best (bc_db b) = Some (dbPutBestState (bc_snapshot b) work);
  fk_heights h : is_Some (db_heights (bc_db b) !! h) → is_Some (bc_index b !! h);
  fk_orphans : bc_orphans b = ∅;
  fk_prev : bc_prevOrphans b = ∅;
  fk_rows : rows_ok b;
  fk_rowed q nd : Some q ∈ bc_best b → bc_heap b !! q = Some nd → is_Some (db_nodes (bc_db b) !! nodeKey nd);
  fk_header q nd : bc_heap b !! q = Some nd → bn_hash nd = BlockHash (Header (bc_heap b) nd) }.

(** The block a prefix of the chain ends with. *)
Definition tipOf (g : MsgBlock) (blks : list MsgBlock) : bytes := BlockHash (bl_Header (default g (last blks))).

(** The coins are the ledger's, and are worth no more than was minted; the
    bucket holds those of a prefix of the chain, and is marked with its last
    block. *)
Record coins_at (b : BlockChain) (g : MsgBlock) (blks : list MsgBlock) : Prop := {
  ca_reps : reps (bc_utxo b) (ledger g blks) (txids g blks);
  ca_ok : coins_ok (ledger g blks);
  ca_known op : is_Some (ledger g blks !! op) → Hash op ∈ txids g blks;
  ca_supply : valueOf (ledger g blks) ≤ minted p (length blks);
  ca_connected i blk : blks !! i = Some blk →
    connectable p (1 + Z.of_nat i) (bl_Transactions blk) (ledger g (take i blks));
  ca_flushed : ∃ k, (k ≤ length blks)%nat ∧ uc_db (bc_utxo b) = ledger g (take k blks) ∧
                    uc_consistent (bc_utxo b) = Some (tipOf g (take k blks)) }.

Definition chain_ok (b : BlockChain) (g : MsgBlock) (blks : list MsgBlock) : Prop :=
  frame_ok b g blks ∧ coins_at b g blks ∧ history_ok g blks.

Lemma slot_grows H H' o blk : grows H H' → slot H o blk → slot H' o blk.
Proof.
  intros HG (q&nd&->&Hq&E). destruct (HG q nd Hq) as [st Hq']. by exists q, (setStatus nd st).
Qed.

Lemma frame_idle b b' g blks : idle b b' → frame_ok b g blks → frame_ok b' g blks.
Proof.
  intros [HS HI HV HSn _ _ Hro Hk HB Hb Hhe Ho Hp Hc] [WF Hn Hx Hst Hbl Hhl Hca (t&td&Ht&Ev&Es&Eh) Hch Hbe Hhe' Hor Hpr Hr Hrd Hhd].
  pose proof (same_shape_grows _ _ HS) as HG.
  assert (∀ q nd, bc_heap b' !! q = Some nd → ∃ st, bc_heap b !! q = Some (setStatus nd st)) as Hback.
  { intros q nd Hq. apply (same_shape_lookup (bc_heap b')); [by symmetry|done]. }
  split.
  - by rewrite <- HS.
  - intros h q. rewrite HI. intros Hq. destruct (Hn h q Hq) as (nd&Hnd&E). destruct (HG q nd Hnd) as [st ?]. by eexists.
  - intros q nd Hq. rewrite HI. destruct (Hback q nd Hq) as [st Hq']. by apply (Hx q _ Hq').
  - intros q nd Hq. rewrite HB. destruct (Hback q nd Hq) as [st Hq']. by apply (Hst q _ Hq').
  - rewrite HB, HI. apply Hbl.
  - rewrite HB. apply Hhl.
  - rewrite Hc. by apply (coherent_grows (bc_heap b)).
  - destruct (HG t td Ht) as [st Ht']. exists t, (setStatus td st). rewrite HV, HSn, Ev.
    split_and!; [done| |done..]. symmetry. by apply view_of_grows; [..|by eexists].
  - rewrite HV. eapply Forall2_impl; [exact Hch|]. intros o blk. by apply slot_grows.
  - by rewrite Hb, HSn.
  - intros h. rewrite Hhe, HI. apply Hhe'.
  - by rewrite Ho.
  - by rewrite Hp.
  - auto.
  - intros q nd Hin Hq. rewrite HV in Hin. destruct (Hback q nd Hq) as [st Hq']. apply Hk. by apply (Hrd q _ Hin Hq').
  - intros q nd Hq. destruct (Hback q nd Hq) as [st Hq']. pose proof (Hhd q _ Hq') as E. cbn [setStatus bn_hash] in E.
    rewrite E. f_equal. pose proof (Header_shape (bc_heap b') (bc_heap b) nd st ltac:(by symmetry)) as Es'. done.
Qed.

Lemma coins_idle b b' g blks : idle b b' → coins_at b g blks → coins_at b' g blks.
Proof.
  intros HI [? ? ? ? ? (k&?&Edb&Ec)]. split; try done; [by apply (id_coins _ _ HI)|].
  destruct (id_store _ _ HI) as (E1&E2&_). exists k. by rewrite E1, E2.
Qed.

Lemma chain_idle b b' g blks : idle b b' → chain_ok b g blks → chain_ok b' g blks.
Proof. intros HI (HF&HC&HH). split; [by eapply frame_idle|split; [by eapply coins_idle|done]]. Qed.

(** The frame does not look at the coins. *)
Lemma frame_coins b g blks u : frame_ok b g blks → frame_ok (set_utxo u b) g blks.
Proof. intros []. split; try done. by apply rows_utxo. Qed.

Lemma frame_distinct b g blks : frame_ok b g blks → distinct_hashes (bc_heap b).
Proof.
  intros HF q q' nd nd' Hq Hq' E. apply (fk_indexed _ _ _ HF) in Hq, Hq'. congruence.
Qed.

(** The tip is the last block's node. *)
Lemma frame_tip b g blks t td :
  frame_ok b g blks → bc_heap b !! t = Some td → bc_best b = view_of (bc_heap b) t →
  bn_height td = Z.of_nat (length blks) ∧ bn_hash td = BlockHash (bl_Header (default g (last blks))).
Proof.
  intros HF Ht Ev. pose proof (Forall2_length _ _ _ (fk_chain _ _ _ HF)) as Hlen.
  rewrite Ev, (view_of_length _ t td Ht) in Hlen. simpl in Hlen.
  pose proof (tree_height _ (fk_tree _ _ _ HF) _ _ Ht). split; [lia|].
  pose proof (Forall2_lookup_l _ _ _ (length blks) (Some t) (fk_chain _ _ _ HF)) as Hs.
  destruct Hs as (blk&Eb&q&nd&[= <-]&Hq&E).
  - rewrite Ev, (view_of_lookup _ t td) by (done || lia). replace (_ - _)%nat with O by lia. done.
  - simplify_eq. rewrite cons_last in Eb. injection Eb as <-. done.
Qed.

End invariant.

(** ** Steps *)

Section steps.
Context `{CR : Crypto} `{SE : ScriptEngine} `{RT : GoRuntime} (p : Params) (now : Z).

(** What the parameters of every DogecoinVM network satisfy. *)
Record params_ok : Prop := {
  po_window : 0 < p_MinerConfirmationWindow (p_Deploy p) < 2147483648;
  po_bip34 : BIP0034Height p ≤ 1;
  po_reserve : reserve_ok p }.

Context (PO : params_ok).

(** A bind whose first part leaves the chain alone. *)
Lemma run_idle {A B} (m : Ch A) (f : A → Ch B) b Q :
  preserves idle m → (∀ a b', idle b b' → run (f a) b' Q) → (∀ e b', idle b b' → Q (Err e) b') →
  run (m ≫= f) b Q.
Proof.
  intros Hm Ha He. apply run_bind. eapply run_mono; [by apply run_preserves|]. intros [a|e] b' HI; auto.
Qed.

Lemma run_storage {A B} (m : Ch A) (f : A → Ch B) b Q :
  preserves idle m → storage m → (∀ a b', idle b b' → run (f a) b' Q) → (∀ b', idle b b' → Q (Err dbError) b') →
  run (m ≫= f) b Q.
Proof.
  intros Hm Hs Ha He. apply run_bind. eapply run_mono; [apply run_and; [by apply run_preserves|apply Hs]|].
  intros [a|e] b' [HI Hx]; [auto|]. rewrite (Hx e eq_refl). auto.
Qed.

Lemma run_flushIndexState b Q : (∀ b', idle b b' → Q (Ok tt) b') → run flushIndexState b Q.
Proof.
  intros HQ. unfold run, flushIndexState. destruct (flushToDB b) as [r b'] eqn:E. apply HQ. by eapply idle_flushToDB.
Qed.

Lemma frame_tipNode b g blks :
  frame_ok p b g blks → ∃ t td, tipNode b = (Ok (t, td), b) ∧ bc_heap b !! t = Some td ∧
    bc_best b = view_of (bc_heap b) t ∧ bs_Hash (bc_snapshot b) = bn_hash td.
Proof.
  intros HF. destruct (fk_tip _ _ _ _ HF) as (t&td&Ht&Ev&Es&_). exists t, td. split_and!; [|done..].
  unfold tipNode. rewrite st_get_bind, Ev, (view_of_tip _ t td Ht). unfold nodeAt.
  rewrite st_bind_run, st_get_bind, Ht. done.
Qed.

Lemma run_tipNode {A} (f : ptr * blockNode → Ch A) b g blks Q :
  frame_ok p b g blks →
  (∀ t td, bc_heap b !! t = Some td → bc_best b = view_of (bc_heap b) t → bs_Hash (bc_snapshot b) = bn_hash td →
           run (f (t, td)) b Q) → run (tipNode ≫= f) b Q.
Proof.
  intros HF Hf. destruct (frame_tipNode b g blks HF) as (t&td&E&?&?&?).
  apply run_bind. unfold run at 1. rewrite E. by apply Hf.
Qed.

Lemma run_nodeAt {A} (f : blockNode → Ch A) b q nd Q :
  bc_heap b !! q = Some nd → run (f nd) b Q → run (nodeAt q ≫= f) b Q.
Proof. intros Hq Hf. apply run_bind. unfold run at 1, nodeAt. rewrite st_get_bind, Hq. done. Qed.

(** Warnings change the deployment caches alone, and never fail. *)
Lemma run_warn {A} (f : unit → Ch A) b g blks nd q Q :
  frame_ok p b g blks → bc_heap b !! q = Some nd →
  (∀ vb, let b' := mkChain (bc_heap b) (bc_index b) (bc_dirty b) (bc_best b) (bc_snapshot b) (bc_utxo b) (bc_db b)
           (bc_orphans b) (bc_prevOrphans b) (bc_oldestOrphan b) vb in
         frame_ok p b' g blks → run (f tt) b' Q) →
  run (onVersionbits (warnUnknownRuleActivations (bc_heap b) (p_Deploy p) nd) ≫= f) b Q.
Proof.
  intros HF Hq Hf. apply run_bind. unfold run at 1, onVersionbits, warnUnknownRuleActivations.
  destruct (warnLoop_spec (bc_heap b) (fk_tree _ _ _ _ HF) (frame_distinct _ _ _ _ HF) (p_Deploy p) (po_window PO)
    (seq 0 vbNumBits) (bn_parent nd) (bc_vb b)) as (vb&->&Hc).
  - apply (fk_caches _ _ _ _ HF).
  - apply Forall_forall. intros i Hi%elem_of_seq. lia.
  - by apply (parent_low _ (fk_tree _ _ _ _ HF) q).
  - apply Hf. destruct HF as [? ? ? ? ? ? ? ? ? ? ? ? ? [] ? ?]. by split.
Qed.

(** The best chain grows by its new last node. *)
Lemma frame_setTip b g blks t td node nd blk state d :
  frame_ok p b g blks → bc_heap b !! t = Some td → bc_best b = view_of (bc_heap b) t →
  bc_heap b !! node = Some nd → bn_parent nd = Some t → bn_height nd < 2147483647 →
  bn_hash nd = BlockHash (bl_Header blk) → bs_Hash state = bn_hash nd → bs_Height state = bn_height nd →
  db_blocks (bc_db b) !! BlockHash (bl_Header blk) = Some blk → db_blocks d = db_blocks (bc_db b) → db_nodes d = db_nodes (bc_db b) → (∃ work, db_best d = Some (dbPutBestState state work)) →
  is_Some (db_nodes (bc_db b) !! nodeKey nd) →
  db_heights d = <[bn_hash nd := bn_height nd]> (db_heights (bc_db b)) →
  frame_ok p (set_best (setTip (bc_heap b) (bc_best b) (Some node)) state (set_db d b)) g (blks ++ [blk]).
Proof.
  intros [WF ? Hx Hst Hbl Hhl ? _ Hch _ Hhe ? ? [Hrs Hrc] Hrd ?] Ht Ev Hn Ep Hlt Eh Es Esh Hb Ed Edn Eb Hrow Edh.
  assert (setTip (bc_heap b) (bc_best b) (Some node) = view_of (bc_heap b) t ++ [Some node]) as Etip.
  { rewrite <- (view_of_child _ WF node nd t) by done. eapply setTip_view; [done..|]. right. by exists t, td. }
  split; try done; cbn [set_best set_db bc_heap bc_best bc_snapshot bc_db].
  - by rewrite Ed.
  - by rewrite Ed.
  - intros blk'. rewrite app_comm_cons, Ed. intros [?| ->%list_elem_of_singleton]%elem_of_app; [by apply Hhl|done].
  - exists node, nd. rewrite Etip, <- (view_of_child _ WF node nd t) by done. done.
  - rewrite Etip, <- Ev, app_comm_cons. apply Forall2_app; [done|]. constructor; [|done]. by exists node, nd.
  - intros h. rewrite Edh. destruct (decide (bn_hash nd = h)) as [<-|].
    + intros _. cbn. rewrite (Hx node nd Hn). by eexists.
    + rewrite lookup_insert_ne by done. apply Hhe.
  - by split; cbn [set_best set_db bc_heap bc_db bc_dirty]; rewrite Edn.
  - intros q qd. rewrite Etip, Edn, <- Ev. intros [Hin|[= ->]%list_elem_of_singleton]%elem_of_app Hq; [by eapply Hrd|].
    by simplify_eq.
Qed.

(** The bucket was left alone, or holds the coins and the hash. *)
Definition flushed (b b' : BlockChain) (U : coins) (hash : bytes) : Prop :=
  (uc_db (bc_utxo b') = uc_db (bc_utxo b) ∧ uc_consistent (bc_utxo b') = uc_consistent (bc_utxo b)) ∨
  (uc_db (bc_utxo b') = U ∧ uc_consistent (bc_utxo b') = Some hash).

(** Connecting: the frame takes the block, the coins stay what they are, and
    no error is a rule's. *)
Lemma connectBlock_run b g blks t td node nd blk stxos U K :
  frame_ok p b g blks → bc_heap b !! t = Some td → bc_best b = view_of (bc_heap b) t →
  bc_heap b !! node = Some nd → bn_parent nd = Some t → bn_height nd < 2147483647 →
  bn_hash nd = BlockHash (bl_Header blk) → db_blocks (bc_db b) !! BlockHash (bl_Header blk) = Some blk →
  reps (bc_utxo b) U K → (∀ op, is_Some (U !! op) → Hash op ∈ K) →
  run (connectBlock p now node blk stxos) b (fun r b' =>
    match r with
    | Ok _ => frame_ok p b' g (blks ++ [blk]) ∧ reps (bc_utxo b') U K ∧ flushed b b' U (bn_hash nd)
    | Err e => isRuleError e = false
    end).
Proof.
  intros HF Ht Ev Hn Ep Hlt Eh Hb HR HK. unfold connectBlock.
  apply (run_tipNode _ b g blks); [done|]. intros t' td' Ht' Ev' _.
  assert (t' = t) as ->.
  { rewrite Ev in Ev'. apply (f_equal view_tip) in Ev'.
    rewrite (view_of_tip _ t td Ht), (view_of_tip _ t' td' Ht') in Ev'. congruence. }
  simplify_eq.
  apply run_lift_bind; [intros _ _|by intros e [_ ->]%ensure_Err].
  apply run_lift_bind; [intros _ _|by intros e [_ ->]%ensure_Err].
  apply (run_nodeAt _ _ _ nd); [done|]. apply run_get.
  cut (∀ b1, frame_ok p b1 g blks → bc_heap b1 = bc_heap b → bc_best b1 = bc_best b → bc_utxo b1 = bc_utxo b → bc_db b1 = bc_db b →
    run (flushToDB;; b0 ← st_get;
         let total := (bs_TotalTxns (bc_snapshot b0) + Z.of_nat (length (bl_Transactions blk))) mod two64 in
         let state := newBestState (bc_heap b0) node nd blk total in
         dbUpdate (dbConnect state (bn_workSum nd) (BlockHash (bl_Header blk)) (bn_height nd) stxos);;
         modify (fun b => set_best (setTip (bc_heap b) (bc_best b) (Some node)) state b);;
         onCache (flush FlushIfNeeded false (bs_Hash state))) b1 (fun r b' =>
      match r with
      | Ok _ => frame_ok p b' g (blks ++ [blk]) ∧ reps (bc_utxo b') U K ∧ flushed b b' U (bn_hash nd)
      | Err e => isRuleError e = false
      end)).
  { intros Hrest. destruct (isCurrent now td).
    - apply (run_warn _ b g blks nd node); [done..|]. intros vb b' HF'. by apply Hrest.
    - by apply run_bind, run_ret, Hrest. }
  clear HF. intros b1 HF Eheap Ebest Eutxo Edb. rewrite <- Eheap in Ht, Ev, Hn. rewrite <- Ebest in Ev. rewrite <- Eutxo in HR.
  rewrite <- Edb in Hb.
  apply run_bind. eapply run_mono; [apply run_and; [apply (run_preserves idle), idle_flushToDB|
    apply run_and; [apply (flushToDB_rows b1), HF|apply storage_flushToDB]]|].
  intros [[]|e] b2 (HI&Hrow&He); [|by rewrite (He e eq_refl)]. specialize (Hrow tt node nd eq_refl Hn).
  apply run_get. cbv zeta.
  set (state := newBestState _ _ _ _ _).
  apply run_bind. unfold dbUpdate. apply run_storage; [apply idle_dbView|apply storage_dbView| |done].
  intros _ b3 HI3. apply run_ret. apply run_bind, run_ret. assert (idle b1 b3) as HI13 by by etrans.
  destruct (same_shape_lookup _ _ node nd (id_shape _ _ HI13) Hn) as [st Hn3].
  destruct (same_shape_lookup _ _ t td (id_shape _ _ HI13) Ht) as [st' Ht3].
  pose proof (frame_idle p _ _ _ _ HI13 HF) as HF3. pose proof (id_coins _ _ HI13 _ _ HR) as HR3.
  assert (bc_best b3 = view_of (bc_heap b3) t) as Ev3.
  { rewrite (id_view _ _ HI13), Ev. symmetry. apply view_of_grows; [apply (fk_tree _ _ _ _ HF)| |by eexists].
    apply same_shape_grows, (id_shape _ _ HI13). }
  unfold run, onCache. cbn [set_best set_db bc_utxo bc_heap bc_best bc_db].
  destruct (flush_spec FlushIfNeeded false (bs_Hash state) (bc_utxo b3) U K HR3 HK)
    as (r&u&->&[(->&HRu&Hfl)|(->&_)]); [|done].
  split; [|split; [done|]].
  - apply (frame_coins p (set_best _ state (set_db _ b3))).
    apply (frame_setTip b3 g blks t _ node _ blk state _ HF3 Ht3 Ev3 Hn3 Ep Hlt Eh); [done|done| |done|done|by eexists| |].
    + by rewrite (id_blocks _ _ HI13).
    + by apply (id_kept _ _ HI3).
    + cbn. by rewrite Eh.
  - unfold flushed. cbn [set_utxo bc_utxo]. destruct (id_store _ _ HI13) as (E1&E2&_).
    destruct Hfl as [(_&-> & ->)|[-> ->]]; [left; by rewrite E1, E2, Eutxo|by right].
Qed.

(** What holds after a block was tried: it is on the chain, or it broke a rule
    and the chain is as before. *)
Definition tried {A} (g : MsgBlock) (blks : list MsgBlock) (blk : MsgBlock) (r : result A) (b : BlockChain) : Prop :=
  match r with
  | Ok _ => chain_ok p b g (blks ++ [blk])
  | Err e => isRuleError e = true → chain_ok p b g blks
  end.

Lemma reps_transfer s s' (U : coins) K (U' : coins) K' :
  reps s U K → same_store s s' → reps s' U K → reps s U' K' → reps s' U' K'.
Proof.
  intros [_ HU] (Hdb&_) [[Hk He _] HU1] [[_ _ Hn] HU']. split; [split|].
  - done.
  - done.
  - intros op. rewrite Hdb. apply Hn.
  - intros op. by rewrite HU1, <- HU, HU'.
Qed.

Lemma checkExtension_run b g blks node nd blk :
  chain_ok p b g blks → bn_height nd = 1 + Z.of_nat (length blks) → checkBlockSanity blk now = Ok tt →
  run (checkExtension p node nd blk) b (fun r b' => idle b b' ∧
    ∀ u, r = Ok u → connectable p (bn_height nd) (bl_Transactions blk) (ledger g blks)).
Proof.
  intros (_&HC&_) Eh Hs. unfold run, checkExtension, onCache. pose proof (po_bip34 PO).
  destruct (checkConnectBlock_spec p (bc_heap b) node nd blk now (bc_utxo b) (ledger g blks) (txids g blks)
    (ca_reps _ _ _ _ HC) (ca_ok _ _ _ _ HC) (po_reserve PO) ltac:(lia) Hs) as (r&u&->&HR&Hst&Hok).
  assert (idle b (set_utxo u b)) as HI.
  { apply idle_utxo; [|done]. intros U K HU. eapply reps_transfer; [apply HC|done..]. }
  assert (∀ flags, preserves idle (modify (SetStatusFlags node flags);; flushIndexState)) as Hmark by (intros; preserve).
  destruct r as [v|e]; [|destruct (isRuleError e); [|by split]].
  - destruct ((modify _;; _) _) as [r b'] eqn:E. split; [|intros _ _; by eapply Hok].
    etrans; [done|]. by eapply Hmark.
  - destruct ((modify _;; _) _) as [r b'] eqn:E. split; [|].
    + etrans; [done|]. assert (preserves idle (modify (SetStatusFlags node statusValidateFailed);;
        flushIndexState;; @st_lift BlockChain unit (Err e))) as Hm by preserve. by eapply Hm.
    + intros u0 ->. apply st_bind_Ok in E as (?&?&_&E). apply st_bind_Ok in E as (?&?&_&E). done.
Qed.

(** The coins after a connectable block. *)
Lemma coins_step b b' g blks blk :
  connectable p (1 + Z.of_nat (length blks)) (bl_Transactions blk) (ledger g blks) → coins_at p b g blks →
  reps (bc_utxo b') (ledger g (blks ++ [blk])) (txids g (blks ++ [blk])) →
  flushed b b' (ledger g (blks ++ [blk])) (BlockHash (bl_Header blk)) → coins_at p b' g (blks ++ [blk]).
Proof.
  intros Hcon [_ _ Hk Hsup Hall (k&Hle&Edb&Ec)] HR Hfl. pose proof Hcon as [_ Hok Hval _].
  split; [done|by rewrite ledger_snoc| | | |].
  - intros op. rewrite ledger_snoc, txids_snoc. intros [?%Hk|?]%applyBlock_known; [set_solver|].
    apply elem_of_union_r. by apply elem_of_list_to_set.
  - rewrite ledger_snoc, length_app. simpl. rewrite Nat.add_comm. cbn [Nat.add]. rewrite minted_snoc. lia.
  - intros i b0 Hb. apply lookup_app_Some in Hb as [Hb|[Hi Hb]].
    + rewrite take_app_le by (apply lookup_lt_Some in Hb; lia). by apply Hall.
    + apply list_lookup_singleton_Some in Hb as [Hi0 <-]. assert (i = length blks) as -> by lia.
      by rewrite take_app_length.
  - destruct Hfl as [[E1 E2]|[E1 E2]].
    + exists k. rewrite take_app_le by done. rewrite E1, E2, length_app. split_and!; [lia|done..].
    + exists (length (blks ++ [blk])). rewrite firstn_all. split_and!; [done..|]. unfold tipOf. by rewrite last_snoc.
Qed.

(** No transaction of a connectable block repeats an identifier of the
    chain. *)
Definition follows (g : MsgBlock) (blks : list MsgBlock) (blk : MsgBlock) : Prop :=
  connectable p (1 + Z.of_nat (length blks)) (bl_Transactions blk) (ledger g blks) →
  Forall (fun h => h ∉ txids g blks) (blockTxids blk) ∧ history_ok g (blks ++ [blk]).

Lemma ledger_known b g blks blk op :
  coins_at p b g blks → is_Some (ledger g (blks ++ [blk]) !! op) → Hash op ∈ txids g (blks ++ [blk]).
Proof.
  intros HC. rewrite ledger_snoc, txids_snoc. intros [Hk|?]%applyBlock_known.
  - apply (ca_known _ _ _ _ HC) in Hk. set_solver.
  - apply elem_of_union_r. by apply elem_of_list_to_set.
Qed.

Lemma connectOrMark_run b b0 g blks t td node nd blk stxos :
  frame_ok p b g blks → coins_at p b0 g blks → bc_heap b !! t = Some td → bc_best b = view_of (bc_heap b) t →
  bc_heap b !! node = Some nd → bn_parent nd = Some t → bn_height nd < 2147483647 →
  bn_hash nd = BlockHash (bl_Header blk) → db_blocks (bc_db b) !! BlockHash (bl_Header blk) = Some blk →
  connectable p (1 + Z.of_nat (length blks)) (bl_Transactions blk) (ledger g blks) → history_ok g (blks ++ [blk]) →
  reps (bc_utxo b) (ledger g (blks ++ [blk])) (txids g (blks ++ [blk])) → same_store (bc_utxo b0) (bc_utxo b) →
  run (connectOrMark p now node blk stxos) b (fun r b' => tried g blks blk r b').
Proof.
  intros HF HC Ht Ev Hn Ep Hlt Eh Hb Hc HH HR (E1&E2&_).
  pose proof (connectBlock_run b g blks t td node nd blk stxos _ _ HF Ht Ev Hn Ep Hlt Eh Hb HR
    (fun op => ledger_known b0 g blks blk op HC)) as Hrun.
  unfold run, connectOrMark in *. destruct (connectBlock p now node blk stxos b) as [[u|e] b1].
  - destruct Hrun as (HF1&HR1&Hfl). split; [done|]. split; [|done]. eapply coins_step; [done..|].
    unfold flushed in *. by rewrite <- E1, <- E2, <- Eh.
  - rewrite Hrun. destruct ((modify _;; _) b1) as [[u|e'] b2] eqn:E.
    + apply st_bind_Ok in E as (?&?&_&E). by apply st_bind_Ok in E as (?&?&_&E).
    + intros He. unfold flushIndexState in E. rewrite st_bind_run in E. cbn [modify] in E.
      rewrite st_bind_run in E. destruct (flushToDB _). injection E as <- _. congruence.
Qed.

Lemma extendChain_run b g blks t td node nd blk :
  chain_ok p b g blks → bc_heap b !! t = Some td → bc_best b = view_of (bc_heap b) t →
  bc_heap b !! node = Some nd → bn_parent nd = Some t → KnownValid (bn_status nd) = false →
  bn_hash nd = BlockHash (bl_Header blk) → db_blocks (bc_db b) !! BlockHash (bl_Header blk) = Some blk →
  Z.of_nat (length blks) < 2147483646 → checkBlockSanity blk now = Ok tt → follows g blks blk →
  run (extendChain p now node nd blk) b (fun r b' => tried g blks blk r b').
Proof.
  intros HOK Ht Ev Hn Ep Hv Eh Hb Hlen Hs Hfol. pose proof HOK as (HF&HC&_).
  destruct (frame_tip p b g blks t td HF Ht Ev) as [Eht _].
  destruct (nk_parent _ _ _ (tree_node _ (fk_tree _ _ _ _ HF) _ _ Hn) t Ep) as (td'&Ht'&Ehn&_). simplify_eq.
  assert (bn_height nd = 1 + Z.of_nat (length blks)) as Ehd by lia.
  unfold extendChain. rewrite Hv. cbv zeta iota. apply run_bind.
  eapply run_mono; [by eapply checkExtension_run|]. intros [[]|e] b1 [HI Hcon]; [|intros _; by eapply chain_idle].
  specialize (Hcon _ eq_refl). rewrite Ehd in Hcon |- *. destruct (Hfol Hcon) as [Hfr HH].
  pose proof (chain_idle p _ _ _ _ HI HOK) as (HF1&HC1&_). apply run_bind.
  destruct (same_shape_lookup _ _ node nd (id_shape _ _ HI) Hn) as [st Hn1].
  destruct (same_shape_lookup _ _ t td (id_shape _ _ HI) Ht) as [st' Ht1].
  assert (bc_best b1 = view_of (bc_heap b1) t) as Ev1.
  { rewrite (id_view _ _ HI), Ev. symmetry. apply view_of_grows; [apply (fk_tree _ _ _ _ HF)| |by eexists].
    apply same_shape_grows, (id_shape _ _ HI). }
  unfold run at 1, onCache.
  destruct (connectTransactions_spec (bl_Transactions blk) (1 + Z.of_nat (length blks)) (bc_utxo b1) (ledger g blks)
    (txids g blks) (ca_reps _ _ _ _ HC1)) as (r&u&->&Hsu&[[-> HRu]|[-> _]]);
    [unfold blockTxids in Hfr; rewrite Forall_fmap in Hfr; exact Hfr|apply Hcon| |by intros].
  apply run_bind. eapply run_mono.
  - eapply (connectOrMark_run (set_utxo u b1) b1); [by apply frame_coins|done|exact Ht1|done|exact Hn1|done| | | | | | |].
    + cbn [setStatus bn_height]. lia.
    + done.
    + cbn [set_utxo bc_db]. by rewrite (id_blocks _ _ HI).
    + done.
    + done.
    + cbn [set_utxo bc_utxo]. rewrite ledger_snoc. eapply reps_mono; [|done]. rewrite txids_snoc. set_solver.
    + done.
  - intros [[]|e] b2 Htr; [|done]. cbn [tried] in Htr.
    apply run_bind, run_get, run_lift. destruct (bc_heap b2 !! node) as [nd2|]; [|by intros].
    cbn [from_option_err]. destruct (_ || _); [|done].
    apply run_bind, run_ret, run_flushIndexState. intros b3 HI3. eapply chain_idle; [|done].
    etrans; [apply idle_SetStatusFlags|done].
Qed.

(** A new node, with its block. *)
Lemma frame_new b g blks blk q nd dirty :
  frame_ok p b g blks → bc_heap b !! q = None → bc_index b !! bn_hash nd = None →
  bn_hash nd = BlockHash (bl_Header blk) → tree_ok (<[q := nd]> (bc_heap b)) →
  bn_hash nd = BlockHash (Header (<[q := nd]> (bc_heap b)) nd) → {[ q ]} ∪ bc_dirty b ⊆ dirty →
  frame_ok p (set_index (<[q := nd]> (bc_heap b)) (<[bn_hash nd := q]> (bc_index b)) dirty
                (set_db (dbStoreBlock blk (bc_db b)) b)) g blks ∧
  db_blocks (dbStoreBlock blk (bc_db b)) !! BlockHash (bl_Header blk) = Some blk.
Proof.
  intros [WF Hn Hx Hst Hbl Hhl Hca (t&td&Ht&Ev&Es&Esh) Hch Hbe Hhe Hor Hpr [Hrs Hrc] Hrd Hhd] Hq Hi Eh WF' Ehd Hdirty.
  assert (grows (bc_heap b) (<[q := nd]> (bc_heap b))) as HG.
  { intros q' nd' Hq'. exists (bn_status nd'). rewrite lookup_insert_ne by congruence. rewrite Hq'. by destruct nd'. }
  assert (∀ h, is_Some (bc_index b !! h) → is_Some (<[bn_hash nd := q]> (bc_index b) !! h)) as Hkeep.
  { intros h Hh. rewrite lookup_insert_ne; [done|]. intros <-. rewrite Hi in Hh. by destruct Hh. }
  unfold dbStoreBlock. destruct (db_blocks (bc_db b) !! BlockHash (bl_Header blk)) as [blk'|] eqn:E.
  { apply Hbl in E as [_ [? ?]]. congruence. }
  split; [|apply lookup_insert_eq].
  split; try done; cbn [set_index set_db bc_heap bc_index bc_db bc_vb bc_best bc_snapshot db_blocks db_heights].
  - intros h q'. rewrite lookup_insert_Some. intros [[<- <-]|[Hne Hq']].
    + exists nd. by rewrite lookup_insert_eq.
    + destruct (Hn h q' Hq') as (nd'&Hnd&Ex). exists nd'. rewrite lookup_insert_ne by congruence. done.
  - intros q' nd'. rewrite lookup_insert_Some. intros [[<- <-]|[Hne Hq']]; [apply lookup_insert_eq|].
    pose proof (Hx q' nd' Hq'). rewrite lookup_insert_ne by congruence. done.
  - intros q' nd'. rewrite lookup_insert_Some. intros [[<- <-]|[Hne Hq']].
    + rewrite Eh, lookup_insert_eq. by eexists.
    + rewrite lookup_insert_ne; [by eapply Hst|]. intros Ex. destruct (Hst q' nd' Hq'). congruence.
  - intros h blk'. rewrite lookup_insert_Some. intros [[<- <-]|[_ Hb]].
    + split; [done|]. rewrite Eh, lookup_insert_eq. by eexists.
    + apply Hbl in Hb as [? ?]. auto.
  - intros blk' Hb. apply Hhl in Hb. rewrite lookup_insert_ne by congruence. done.
  - by apply (coherent_grows (bc_heap b)).
  - exists t, td. rewrite lookup_insert_ne by congruence. split_and!; [done| |done..]. rewrite Ev. symmetry.
    by apply view_of_grows; [..|by eexists].
  - eapply Forall2_impl; [exact Hch|]. intros o blk'. by apply slot_grows.
  - intros h Hh. apply Hhe in Hh. auto.
  - split; cbn [set_index set_db bc_heap bc_db bc_dirty db_nodes].
    + intros k hdr st Hk. destruct (Hrs k hdr st Hk) as (q'&nd'&Hq'&->&->&Hv). exists q', nd'.
      rewrite lookup_insert_ne by congruence. by rewrite (Header_insert (bc_heap b) q nd q').
    + intros q' nd'. rewrite lookup_insert_Some. intros [[<- <-]|[Hne Hq']] Hd; [set_solver|].
      apply (Hrc q'); [done|set_solver].
  - intros q' nd' Hin. rewrite lookup_insert_Some. intros [[<- <-]|[Hne Hq']]; [|by eapply Hrd].
    apply list_elem_of_lookup in Hin as (i&Hi'). destruct (Forall2_lookup_l _ _ _ _ _ Hch Hi') as (z&_&q1&nd1&[= <-]&?&_).
    congruence.
  - intros q' nd'. rewrite lookup_insert_Some. intros [[<- <-]|[Hne Hq']]; [done|].
    rewrite (Header_insert (bc_heap b) q nd q') by done. by apply (Hhd q').
Qed.

Lemma connectAdded_run b g blks t td node nd blk :
  chain_ok p b g blks → bc_best b = view_of (bc_heap b) t → bc_heap b !! t = Some td →
  bc_heap b !! node = Some nd → bn_parent nd = Some t → bn_status nd = statusDataStored →
  bn_hash nd = BlockHash (bl_Header blk) → db_blocks (bc_db b) !! BlockHash (bl_Header blk) = Some blk →
  PrevBlock (bl_Header blk) = bn_hash td → Z.of_nat (length blks) < 2147483646 → checkBlockSanity blk now = Ok tt → follows g blks blk →
  run (flushToDB;; connectBestChain p now node blk) b (fun r b' => tried g blks blk r b' ∧ ∀ m, r = Ok m → m = true).
Proof.
  intros HOK Ev Ht Hn Ep Est Eh Hb Eprev Hlen Hs Hfol. pose proof HOK as (HF&HC&_).
  apply run_bind. eapply run_mono; [apply run_and; [apply (run_preserves idle), idle_flushToDB|apply flushToDB_heap]|].
  intros [[]|e] b1 [HI Eheap]; [|split; [|done]; intros _; by eapply chain_idle].
  pose proof (chain_idle p _ _ _ _ HI HOK) as HOK1. unfold connectBestChain.
  apply (run_nodeAt _ _ _ nd); [by rewrite Eheap|]. apply (run_tipNode _ b1 g blks); [apply HOK1|].
  intros t' td' Ht' Ev' _. rewrite Eheap in Ht', Ev'.
  assert (t' = t) as ->.
  { rewrite (id_view _ _ HI), Ev in Ev'. apply (f_equal view_tip) in Ev'.
    rewrite (view_of_tip _ t td Ht), (view_of_tip _ t' td' Ht') in Ev'. congruence. }
  simplify_eq. rewrite bool_decide_true by done. apply run_bind. eapply run_mono.
  - apply (extendChain_run b1 g blks t td node nd blk); rewrite ?Eheap; try done; [by rewrite Est|].
    by rewrite (id_blocks _ _ HI).
  - intros [[]|e] b2 Htr; [|by split]. apply run_ret. split; [done|]. by intros m [= <-].
Qed.

(** The height in the coinbase keeps identifiers from repeating. *)
Lemma context_follows b g blks blk t td :
  chain_ok p b g blks → bc_heap b !! t = Some td → bn_height td = Z.of_nat (length blks) →
  Z.of_nat (length blks) < 2147483646 → checkBlockSanity blk now = Ok tt →
  checkBlockContext p (bc_heap b) blk t = Ok tt → no_collision (blockTxs (g :: blks ++ [blk])) → follows g blks blk.
Proof.
  intros (HF&HC&HH) Ht Eht Hlen Hs Hctx Hcol Hcon. pose proof (po_bip34 PO).
  apply checkBlockSanity_Ok in Hs as [(cb&rest&Etx&Ecb&Hnc) Hsane Hnd _].
  assert (ExtractCoinbaseHeight cb = Ok (1 + Z.of_nat (length blks))) as Eh.
  { eapply checkBlockContext_height; [exact Hctx|lia|exact Ht|exact Etx|lia|lia]. }
  rewrite Etx in Hcon, Hsane.
  pose proof (fresh_block p g blks blk cb rest HH (ca_known _ _ _ _ HC) Etx Ecb Hnc Hsane Eh Hcon Hcol) as Hfr.
  split; [done|]. exact (history_snoc p g blks blk cb rest HH (ca_known _ _ _ _ HC) Etx Hnc Hnd Eh Hcon Hfr).
Qed.

Lemma maybeAcceptBlock_run b g blks blk :
  chain_ok p b g blks → PrevBlock (bl_Header blk) = BlockHash (bl_Header (default g (last blks))) →
  bc_index b !! BlockHash (bl_Header blk) = None → Z.of_nat (length blks) < 2147483646 →
  checkBlockSanity blk now = Ok tt → no_collision (blockTxs (g :: blks ++ [blk])) →
  run (maybeAcceptBlock p now blk) b (fun r b' => tried g blks blk r b' ∧ ∀ m, r = Ok m → m = true).
Proof.
  intros HOK Eprev Hi Hlen Hs Hcol. pose proof HOK as (HF&HC&HH). destruct (fk_tip _ _ _ _ HF) as (t&td&Ht&Ev&_).
  destruct (frame_tip p b g blks t td HF Ht Ev) as [Eht Ehash]. rewrite <- Ehash in Eprev.
  unfold maybeAcceptBlock, LookupNode. apply run_get. rewrite Eprev, (fk_indexed _ _ _ _ HF t td Ht). cbn [from_option_err].
  apply run_bind, run_lift. apply (run_nodeAt _ _ t td); [done|].
  apply run_lift_bind; [intros _ _|by split]. apply run_lift_bind; [intros [] Hctx|by split].
  pose proof (context_follows b g blks blk t td HOK Ht Eht Hlen Hs Hctx Hcol) as Hfol.
  apply run_bind. unfold dbUpdate. apply run_storage; [apply idle_dbView|apply storage_dbView| |by split].
  intros _ b1 HI. apply run_ret. pose proof (chain_idle p _ _ _ _ HI HOK) as (HF1&HC1&_).
  set (b2 := set_db _ b1).
  destruct (same_shape_lookup _ _ t td (id_shape _ _ HI) Ht) as [st Ht1].
  destruct (newBlockNode_ok (bc_heap b1) (bl_Header blk) (Some t)) as (q&nd&Enew&Hq&Hmade&WF).
  { apply (fk_tree _ _ _ _ HF1). } { intros ? [= <-]. exists (setStatus td st). split; [done|simpl; lia]. }
  apply run_bind. unfold run at 1, onHeap. change (bc_heap b2) with (bc_heap b1). rewrite Enew.
  apply (run_nodeAt _ _ q nd); [apply lookup_insert_eq|]. apply run_bind, run_ret.
  set (nd' := setStatus nd statusDataStored). cbn [set_index bc_heap bc_index bc_dirty]. rewrite insert_insert_eq.
  assert (bc_best b1 = view_of (<[q := nd']> (bc_heap b1)) t) as Ev1.
  { rewrite (id_view _ _ HI), Ev. rewrite (view_of_grows (bc_heap b1) (<[q := nd']> (bc_heap b1))).
    - symmetry. apply view_of_grows; [apply (fk_tree _ _ _ _ HF)| |by eexists].
      apply same_shape_grows, (id_shape _ _ HI).
    - apply (fk_tree _ _ _ _ HF1).
    - intros q' qd Hq'. exists (bn_status qd). rewrite lookup_insert_ne by congruence. rewrite Hq'. by destruct qd.
    - by eexists. }
  assert (bn_hash nd' = BlockHash (bl_Header blk)) as Eh by apply (mf_hash _ _ _ _ Hmade).
  destruct (frame_new b1 g blks blk q nd' ({[ q ]} ∪ bc_dirty b1) HF1 Hq) as [HF2 Hst]; [|done|..|set_solver|].
  { by rewrite Eh, (id_index _ _ HI). }
  { eapply tree_ok_shape; [|exact WF]. intros q'. destruct (decide (q = q')) as [<-|].
    - by rewrite !lookup_insert_eq.
    - by rewrite !lookup_insert_ne. }
  { etrans; [exact Eh|]. f_equal. symmetry.
    apply (Header_made (bc_heap b1) (bl_Header blk) (Some t) nd q); [done..|]. simpl. by rewrite Ht1. }
  apply (connectAdded_run _ g blks t (setStatus td st) q nd'); try done.
  - split; [exact HF2|split; [by destruct HC1|done]].
  - cbn. by rewrite lookup_insert_ne by congruence.
  - apply lookup_insert_eq.
  - apply (mf_parent _ _ _ _ Hmade).
Qed.

Lemma processOrphans_none b hash :
  bc_prevOrphans b = ∅ → processOrphans p now hash b = (Ok tt, b).
Proof.
  intros E. unfold processOrphans, orphanTurns. rewrite st_get_bind, E, map_to_list_empty. simpl.
  rewrite st_get_bind, E, lookup_empty. done.
Qed.

Lemma ProcessBlock_run b g blks blk :
  chain_ok p b g blks → PrevBlock (bl_Header blk) = BlockHash (bl_Header (default g (last blks))) →
  Z.of_nat (length blks) < 2147483646 → no_collision (blockTxs (g :: blks ++ [blk])) →
  run (ProcessBlock p now blk) b (fun r b' => tried g blks blk r b' ∧ ∀ m, r = Ok m → m = (true, false)).
Proof.
  intros HOK Eprev Hlen Hcol. unfold ProcessBlock. apply run_bind, run_get.
  destruct (HaveBlock b _) eqn:Eh; [apply run_ret, run_lift_bind; [by intros ?|intros e _; split; [by intros _|done]]|].
  apply run_storage; [apply idle_dbView|apply storage_dbView| |by split].
  intros _ b1 HI. pose proof (chain_idle p _ _ _ _ HI HOK) as HOK1. apply run_ret.
  apply run_lift_bind; [intros _ _|intros e _; split; [by intros _|done]]. apply run_get.
  apply run_lift_bind; [intros _ _|intros e _; split; [by intros _|done]].
  apply run_lift_bind; [intros [] Hs|intros e _; split; [by intros _|done]].
  apply run_bind, run_get. pose proof HOK1 as (HF1&HC1&_). destruct (fk_tip _ _ _ _ HF1) as (t&td&Ht&Ev&_).
  destruct (frame_tip p b1 g blks t td HF1 Ht Ev) as [_ Ehash].
  assert (HaveBlock b1 (PrevBlock (bl_Header blk)) = true) as ->.
  { unfold HaveBlock. rewrite Eprev, <- Ehash, (fk_indexed _ _ _ _ HF1 t td Ht). by apply bool_decide_eq_true. }
  apply run_ret. cbn [negb]. apply run_bind. eapply run_mono.
  - apply (maybeAcceptBlock_run b1 g blks blk); try done. rewrite (id_index _ _ HI).
    unfold HaveBlock in Eh. apply bool_decide_eq_false in Eh. by apply eq_None_not_Some.
  - intros [m|e] b2 [Htr Hm]; [|split; [done|]; by intros ?]. rewrite (Hm m eq_refl). apply run_bind.
    unfold run at 1. rewrite processOrphans_none by apply Htr. apply run_ret. split; [done|]. by intros ? [= <-].
Qed.

Lemma frame_snapshot b g blks : frame_ok p b g blks → bs_Hash (bc_snapshot b) = tipOf g blks.
Proof.
  intros HF. destruct (fk_tip _ _ _ _ HF) as (t&td&Ht&Ev&->&_). by destruct (frame_tip p b g blks t td HF Ht Ev) as [_ ->].
Qed.

(** A flush writes everything: the bucket is the ledger, marked with the tip. *)
Lemma Persist_run b g blks :
  chain_ok p b g blks →
  run Persist b (fun r b' =>
    match r with
    | Ok _ => chain_ok p b' g blks ∧ uc_db (bc_utxo b') = ledger g blks ∧
              uc_consistent (bc_utxo b') = Some (tipOf g blks)
    | Err e => e = dbError
    end).
Proof.
  intros (HF&HC&HH). unfold Persist. apply run_get, run_bind. unfold run at 1, onCache.
  destruct (flush_spec FlushRequired false (bs_Hash (bc_snapshot b)) (bc_utxo b) _ _ (ca_reps _ _ _ _ HC)
    (ca_known _ _ _ _ HC)) as (r&u&->&[(->&HR&[(?&_)|[Hdb Hcons]])|(->&_)]); [done| |done].
  rewrite (frame_snapshot b g blks HF) in Hcons. unfold run, dbView, onCache. cbn [set_utxo bc_utxo].
  destruct (dbTx_reps u _ _ HR) as (r&u'&->&HR'&(Hdb'&Hc'&_)&_&_&[-> | ->]); [|done].
  cbn [set_utxo bc_utxo]. rewrite Hdb', Hc', Hdb, Hcons. split; [|done].
  split; [by do 2 apply frame_coins|]. split; [|done]. destruct HC as [? ? ? ? ? _]. split; try done.
  exists (length blks). rewrite firstn_all. cbn [set_utxo bc_utxo]. by rewrite Hdb', Hc', Hdb, Hcons.
Qed.

End steps.
