(* ===== verification/Agree.v ===== *)
(** * A block that passes the check is accepted

    DogecoinVM checks a block with [CheckConnectBlockTemplate] when consensus
    asks it to vote, and connects it with [ProcessBlock] once it is accepted.
    Both run the same rules on the same chain; the theorems show that they
    agree: while the chain has not moved and the database does not fail, a
    block that passed the check is connected. *)

From Stdlib Require Import ZArith List Lia.
From stdpp Require Import base list gmap strings.
From S2P Require Import Prelude.
From S2P Require Import Wire.
From S2P Require Import Chain.
From S2P Require Import Merkle.
From S2P Require Import Versionbits.
From S2P Require Import Utxo.
From S2P Require Import Validate.
From S2P Require Import Context.
From S2P Require Import Process.
From S2P Require Import Extend.

Open Scope Z_scope.

(** ** A database that does not fail *)

Definition calm (s : utxoCache) : Prop := uc_failures s = [].

(** A method that fails for the database's sake only if the database does. *)
Definition steady {S A} (P : S → Prop) (m : St S A) : Prop :=
  ∀ s, P s → run m s (fun r s' => P s' ∧ r ≠ Err dbError).

Lemma steady_ret {S A} (P : S → Prop) (a : A) : steady P (mret a).
Proof. by intros s. Qed.

Lemma steady_lift {S A} (P : S → Prop) (r : result A) : r ≠ Err dbError → steady P (st_lift r).
Proof. by intros Hr s. Qed.

Lemma steady_get {S} (P : S → Prop) : steady P st_get.
Proof. by intros s. Qed.

Lemma steady_bind {S A B} (P : S → Prop) (m : St S A) (f : A → St S B) :
  steady P m → (∀ a, steady P (f a)) → steady P (m ≫= f).
Proof.
  intros Hm Hf s Hs. apply run_bind. eapply run_mono; [by apply Hm|].
  intros [a|e] s' [Hs' Hr]; [by apply Hf|]. split; [done|]. intros [= ->]. by apply Hr.
Qed.

Lemma steady_state {S A} (P : S → Prop) (f : S → St S A) :
  (∀ s, P s → run (f s) s (fun r s' => P s' ∧ r ≠ Err dbError)) → steady P (st_get ≫= f).
Proof. intros Hf s Hs. by apply run_get, Hf. Qed.

Lemma steady_dbTx : steady calm dbTx.
Proof. intros s Hs. unfold run, dbTx. rewrite Hs. done. Qed.

Lemma calm_put op e s : calm s → calm (ms_put op e s).
Proof.
  unfold calm, ms_put. intros Hs. destruct (overwrite _ _ _); [done|]. by destruct (insertFree _ _ _ _).
Qed.

Lemma calm_puts (l : list OutPoint) s :
  calm s → calm (foldl (fun s op => ms_put op (dbFetchUtxoEntry s op) s) s l).
Proof. revert s; induction l as [|op l IH]; intros s Hs; [done|]. by apply IH, calm_put. Qed.

Lemma steady_fetchEntries ops : steady calm (fetchEntries ops).
Proof.
  apply steady_state. intros s Hs. destruct (filter _ ops) as [|m l]; [done|].
  apply (steady_bind calm); [apply steady_dbTx| |done]. intros _. apply steady_state. intros s' Hs'.
  apply run_bind, run_ret. split; [|done]. exact (calm_puts (m :: l) s' Hs').
Qed.

Lemma steady_addTxIn ti : steady calm (addTxIn ti).
Proof.
  apply steady_bind; [apply steady_fetchEntries|]. intros l. destruct l as [|[e|] [|]]; try by apply steady_lift.
  apply steady_state. intros s Hs. destruct (isFresh e); [done|]. by destruct (overwrite _ _ _).
Qed.

Lemma steady_addTxInList l : steady calm (addTxInList l).
Proof.
  induction l as [|ti l IH]; [apply steady_ret|].
  apply steady_bind; [apply steady_addTxIn|]. intros c. apply steady_bind; [done|]. intros cs. apply steady_ret.
Qed.

Lemma calm_addTxOuts `{CR : Crypto} tx h s : calm s → calm (addTxOuts tx h s).
Proof.
  unfold addTxOuts. revert s; induction (outsOf tx) as [|[op o] l IH]; intros s Hs; [done|].
  apply IH. unfold addTxOut. destruct (IsUnspendable _); [done|]. by apply calm_put.
Qed.

Lemma steady_connectTransactions `{CR : Crypto} txs h : steady calm (connectTransactions txs h).
Proof.
  induction txs as [|tx txs IH]; [apply steady_ret|]. apply steady_bind.
  - apply steady_bind; [unfold addTxIns; destruct (IsCoinBaseTx tx); [apply steady_ret|apply steady_addTxInList]|].
    intros l. apply steady_state. intros s Hs. apply run_bind, run_ret. split; [|done]. by apply calm_addTxOuts.
  - intros l1. apply steady_bind; [done|]. intros l2. apply steady_ret.
Qed.

Lemma steady_flush mode stale best : steady calm (flush mode stale best).
Proof.
  intros s Hs. unfold run, flush. cbv zeta. match goal with |- context [dbTx ?x] => set (s1 := x) end.
  assert (calm s1) as Hs1.
  { unfold s1. destruct mode; [done|by destruct (_ || _)|].
    destruct (bool_decide _); [done|]. by destruct (default false _). }
  unfold dbTx. rewrite Hs1. done.
Qed.

(** ** The check as a function of the coins it reads *)

Section check.
Context `{CR : Crypto} `{SE : ScriptEngine} (p : Params).

Definition loadedView (E : OutPoint → option UtxoEntry) (txs : list MsgTx) (h : Z) (v : UtxoViewpoint) : UtxoViewpoint :=
  let '(v', needed) := findInputsToFetch txs h v in
  foldl (fun v '(op, e) => setEntry v op e) v' (zip needed (E <$> needed)).

(** What [checkConnectBlock] does with the loaded view. *)
Definition checkLoaded (H : heap) (node : ptr) (nd : blockNode) (b : MsgBlock) (v : UtxoViewpoint) :
    result UtxoViewpoint :=
  let enforceBIP0016 := Bip16Activation <=? bn_timestamp nd in
  let enforceSegWit := deploymentActive p H (bn_parent nd) DeploymentSegwit in
  sigOpCosts v enforceBIP0016 enforceSegWit (imap pair (bl_Transactions b)) 0;;
  '(v, totalFees) ← connectChecked p (bn_height nd) (bl_Transactions b) v 0;
  checkCoinbase p (bn_height nd) totalFees (bl_Transactions b);;
  checkScriptRules p H node nd b enforceBIP0016 enforceSegWit v;;
  Ok (SetBestHash v (bn_hash nd)).

Definition checkWith (E : OutPoint → option UtxoEntry) (H : heap) (node : ptr) (nd : blockNode) (b : MsgBlock) :
    result UtxoViewpoint :=
  ensure (negb (bool_decide (bn_hash nd = GenesisHash p)))
    (ruleError "the coinbase for the genesis block is not spendable");;
  checkLoaded H node nd b (loadedView E (bl_Transactions b) (bn_height nd) (NewUtxoViewpoint (PrevBlock (bl_Header b)))).

Lemma fetchInputUtxos_view txs h v s U K :
  reps s U K → ∃ r s', fetchInputUtxos txs h v s = (r, s') ∧ reps s' U K ∧ same_store s s' ∧
    (∀ op, entryAt s' op = entryAt s op) ∧ (r = Ok (loadedView (entryAt s) txs h v) ∨ r = Err dbError).
Proof.
  intros HR. unfold fetchInputUtxos, loadedView. destruct (findInputsToFetch txs h v) as [v' needed].
  unfold fetchUtxosFromCache. destruct needed as [|op l]; [by eexists _, _; split_and!; [..|left]|].
  rewrite st_bind_run.
  destruct (fetchEntries_spec (op :: l) s U K HR) as (r&s'&->&HR'&Hss&He&[->|[-> _]]);
    (eexists _, _; split_and!; [done..|]); [by right|by left].
Qed.

Lemma steady_fetchInputUtxos txs h v : steady calm (fetchInputUtxos txs h v).
Proof.
  unfold fetchInputUtxos. destruct (findInputsToFetch txs h v) as [v' needed]. unfold fetchUtxosFromCache.
  destruct needed; [apply steady_ret|]. apply steady_bind; [apply steady_fetchEntries|]. intros. apply steady_ret.
Qed.

Lemma checkConnectBlock_with H node nd b s U K :
  reps s U K → BIP0034Height p ≤ bn_height nd →
  ∃ r s', checkConnectBlock p H node nd b (NewUtxoViewpoint (PrevBlock (bl_Header b))) s = (r, s') ∧ reps s' U K ∧
    same_store s s' ∧ (∀ op, entryAt s' op = entryAt s op) ∧ (calm s → calm s') ∧
    (r = checkWith (entryAt s) H node nd b ∨ r = Err dbError ∧ ¬ calm s).
Proof.
  intros HR Hbip. unfold checkConnectBlock, checkWith, st_ensure. rewrite st_lift_bind.
  destruct (ensure _ _) as [[]|e]; [|by eexists _, _; split_and!; [..|left]]. rewrite bind_Ok_l, st_lift_bind.
  rewrite bool_decide_true by done. cbn [ensure]. rewrite (proj2 (Z.ltb_ge _ _) Hbip), andb_false_r.
  rewrite st_bind_run. unfold mret at 1, st_ret at 1. cbv beta iota. rewrite st_bind_run.
  pose proof (steady_fetchInputUtxos (bl_Transactions b) (bn_height nd)
    (NewUtxoViewpoint (PrevBlock (bl_Header b))) s) as Hst. unfold run in Hst.
  destruct (fetchInputUtxos_view (bl_Transactions b) (bn_height nd) (NewUtxoViewpoint (PrevBlock (bl_Header b))) s U K HR)
    as (r&s'&E&HR'&Hss&He&[->| ->]); rewrite E in Hst |- *; cycle 1.
  { eexists _, _; split_and!; [done..|naive_solver|]. right. split; [done|]. intros Hc. by destruct (Hst Hc). }
  set (v := loadedView _ _ _ _). unfold checkLoaded. cbv zeta. rewrite st_lift_bind.
  assert (calm s → calm s') as Hcalm by naive_solver.
  destruct (sigOpCosts _ _ _ _ _); [rewrite bind_Ok_l|by eexists _, _; split_and!; [..|left]]. rewrite st_lift_bind.
  destruct (connectChecked _ _ _ _ _) as [[v1 fees]|]; [rewrite bind_Ok_l|by eexists _, _; split_and!; [..|left]].
  rewrite st_lift_bind.
  destruct (checkCoinbase _ _ _ _); [rewrite bind_Ok_l|by eexists _, _; split_and!; [..|left]]. rewrite st_lift_bind.
  destruct (checkScriptRules _ _ _ _ _ _ _ _); by eexists _, _; split_and!; [..|left].
Qed.

Lemma checkAll_ext {A} (f f' : A → result unit) l : (∀ x, f x = f' x) → checkAll f l = checkAll f' l.
Proof. intros E. induction l as [|x l IH]; [done|]. cbn [checkAll]. by rewrite E, IH. Qed.

(** The rules do not look at the status of the node they are given, *)
Lemma calcSequenceLock_status H node nd st tx v mempool :
  calcSequenceLock p H node (setStatus nd st) tx v mempool = calcSequenceLock p H node nd tx v mempool.
Proof.
  unfold calcSequenceLock. destruct (_ || _); [done|]. generalize (-1, -1) as lock.
  induction (txIn tx) as [|ti l IH]; intros lock; [done|]. cbn [inputLocks].
  change (inputLock H node (setStatus nd st) v lock ti) with (inputLock H node nd v lock ti).
  destruct (inputLock H node nd v lock ti); [apply IH|done].
Qed.

Lemma checkWith_status E H node nd st b : checkWith E H node (setStatus nd st) b = checkWith E H node nd b.
Proof.
  unfold checkWith, checkLoaded. cbv zeta. cbn [setStatus bn_hash bn_height bn_parent bn_timestamp].
  destruct (ensure _ _); [rewrite !bind_Ok_l|done]. destruct (sigOpCosts _ _ _ _ _); [rewrite !bind_Ok_l|done].
  destruct (connectChecked _ _ _ _ _) as [[v1 fees]|]; [rewrite !bind_Ok_l|done].
  destruct (checkCoinbase _ _ _ _); [rewrite !bind_Ok_l|done].
  match goal with |- (?x ≫= _) = (?y ≫= _) => assert (x = y) as ->; [|done] end.
  unfold checkScriptRules. cbv zeta. cbn [setStatus bn_hash bn_height bn_parent bn_timestamp].
  destruct (deploymentActive p H (bn_parent nd) DeploymentCSV); [|done].
  destruct (from_option_err _ _); [rewrite !bind_Ok_l|done].
  erewrite (checkAll_ext _ _ (bl_Transactions b)); [reflexivity|]. intros tx. by rewrite calcSequenceLock_status.
Qed.

(** nor at those of the tree. *)
Section shape.
Context (H H' : heap) (WF : tree_ok H) (HS : same_shape H H').

Lemma shape_grows : grows H H'.
Proof. by apply same_shape_grows. Qed.

Lemma median_shape q : is_Some (H !! q) → CalcPastMedianTime H' q = CalcPastMedianTime H q.
Proof. intros Hq. unfold CalcPastMedianTime. by rewrite (grows_pastTimes H H' WF shape_grows). Qed.

Lemma deploymentActive_shape q d :
  (∀ a, q = Some a → is_Some (H !! a)) → deploymentActive p H' q d = deploymentActive p H q d.
Proof.
  intros Hq. unfold deploymentActive. destruct (p_Deployments (p_Deploy p) !! deploymentID d); [|done].
  by rewrite (grows_stateAfter H H' WF shape_grows).
Qed.

Lemma ancestorMedian_shape node nd h :
  H !! node = Some nd → Ancestor H' node h ≫= CalcPastMedianTime H' = Ancestor H node h ≫= CalcPastMedianTime H.
Proof.
  intros Hn. destruct (shape_grows node nd Hn) as [st Hn'].
  assert (tree_ok H') as WF' by by rewrite <- HS.
  destruct (decide (0 ≤ h ≤ bn_height nd)) as [Hh|Hh].
  - rewrite (Ancestor_eq H WF node nd), (Ancestor_eq H' WF' node (setStatus nd st)) by done.
    unfold steps_to. cbn [setStatus bn_height]. rewrite (grows_walk H H' WF shape_grows) by by eexists.
    destruct (walk _ H node) as [a|] eqn:Ew; [|done]. cbn [mbind option_bind]. apply median_shape.
    destruct (walk_Some H WF _ _ _ _ Hn Ew) as (ad&Ha&_). by eexists.
  - by rewrite (Ancestor_outside H node nd), (Ancestor_outside H' node (setStatus nd st)).
Qed.

Lemma inputLocks_shape node nd v l lock :
  H !! node = Some nd → inputLocks H' node nd v l lock = inputLocks H node nd v l lock.
Proof.
  intros Hn. revert lock; induction l as [|ti l IH]; intros lock; [done|]. cbn [inputLocks].
  assert (inputLock H' node nd v lock ti = inputLock H node nd v lock ti) as ->.
  { unfold inputLock. destruct (LookupEntry _ _); [|done]. cbv zeta.
    destruct (_ =? _); [done|]. destruct (Z.land (Sequence ti) SequenceLockTimeIsSeconds =? _); [|done].
    by rewrite (ancestorMedian_shape node nd). }
  destruct (inputLock H node nd v lock ti); [apply IH|done].
Qed.

Context (node : ptr) (nd : blockNode) (Hn : H !! node = Some nd).

Lemma node_parent a : bn_parent nd = Some a → is_Some (H !! a).
Proof. intros Ea. by eapply grows_parent. Qed.

Lemma calcSequenceLock_shape tx v mempool :
  calcSequenceLock p H' node nd tx v mempool = calcSequenceLock p H node nd tx v mempool.
Proof.
  unfold calcSequenceLock. rewrite deploymentActive_shape by apply node_parent. destruct (_ || _); [done|].
  by apply inputLocks_shape.
Qed.

Lemma checkScriptRules_shape b bip16 segwit v :
  checkScriptRules p H' node nd b bip16 segwit v = checkScriptRules p H node nd b bip16 segwit v.
Proof.
  unfold checkScriptRules. cbv zeta. rewrite !deploymentActive_shape by apply node_parent.
  assert (bn_parent nd ≫= CalcPastMedianTime H' = bn_parent nd ≫= CalcPastMedianTime H) as ->.
  { pose proof node_parent as Hp. destruct (bn_parent nd) as [a|]; [|done]. cbn [mbind option_bind].
    apply median_shape. by apply Hp. }
  destruct (deploymentActive p H (bn_parent nd) DeploymentCSV); [|done].
  destruct (from_option_err _ _); [rewrite !bind_Ok_l|done].
  erewrite (checkAll_ext _ _ (bl_Transactions b)); [reflexivity|]. intros tx. by rewrite calcSequenceLock_shape.
Qed.

Lemma checkWith_shape E b : checkWith E H' node nd b = checkWith E H node nd b.
Proof.
  unfold checkWith, checkLoaded. cbv zeta. rewrite !deploymentActive_shape by apply node_parent.
  destruct (ensure _ _); [rewrite !bind_Ok_l|done]. destruct (sigOpCosts _ _ _ _ _); [rewrite !bind_Ok_l|done].
  destruct (connectChecked _ _ _ _ _) as [[v1 fees]|]; [rewrite !bind_Ok_l|done].
  by rewrite checkScriptRules_shape.
Qed.

End shape.
End check.

(** ** Runs that succeed *)

Definition okrun {S A} (m : St S A) (s : S) (Q : A → S → Prop) : Prop :=
  run m s (fun r s' => ∃ a, r = Ok a ∧ Q a s').

Lemma okrun_bind {S A B} (m : St S A) (f : A → St S B) s Q :
  okrun m s (fun a s' => okrun (f a) s' Q) → okrun (m ≫= f) s Q.
Proof. intros Hm. apply run_bind. eapply run_mono; [exact Hm|]. by intros ? ? (a&->&Ha). Qed.

Lemma okrun_lift {S A} (r : result A) (s : S) (Q : A → S → Prop) a : r = Ok a → Q a s → okrun (st_lift r) s Q.
Proof. intros -> HQ. apply run_lift. by exists a. Qed.

Lemma okrun_ensure {S B} (b : bool) e (f : unit → St S B) s Q :
  b = true → okrun (f tt) s Q → okrun (st_ensure b e ≫= f) s Q.
Proof. intros -> Hf. apply okrun_bind. by eapply okrun_lift. Qed.

Lemma okrun_lift_bind {S A B} (r : result A) (f : A → St S B) s Q a :
  r = Ok a → okrun (f a) s Q → okrun (st_lift r ≫= f) s Q.
Proof. intros -> Hf. apply okrun_bind. by eapply okrun_lift. Qed.

Lemma okrun_mono {S A} (m : St S A) s (Q Q' : A → S → Prop) :
  okrun m s Q → (∀ a s', Q a s' → Q' a s') → okrun m s Q'.
Proof. intros Hm HQ. eapply run_mono; [exact Hm|]. intros ? ? (a&->&Ha). eauto. Qed.

Lemma okrun_and {S A} (m : St S A) s (Q : A → S → Prop) (Q' : result A → S → Prop) :
  okrun m s Q → run m s Q' → okrun m s (fun a s' => Q a s' ∧ Q' (Ok a) s').
Proof.
  intros Hm HQ. eapply run_mono; [exact (run_and m s _ _ Hm HQ)|]. intros ? ? ((a&->&Ha)&?). eauto.
Qed.

Notation calmb := (fun b => calm (bc_utxo b)).

Lemma dbView_calm b : calm (bc_utxo b) → dbView b = (Ok tt, b).
Proof. intros Hc. unfold dbView, onCache, dbTx. rewrite Hc. by destruct b. Qed.

(** Without failures a flush of the index changes the tables alone. *)
Lemma flushToDB_calm b :
  calm (bc_utxo b) → okrun flushToDB b (fun _ b' => idle b b' ∧ bc_heap b' = bc_heap b ∧ bc_utxo b' = bc_utxo b).
Proof.
  intros Hc. pose proof (run_preserves idle flushToDB b idle_flushToDB) as HI. revert HI.
  unfold okrun, run, flushToDB. rewrite st_get_bind. destruct (bool_decide _); [by intros; eexists|].
  unfold dbUpdate. rewrite !st_bind_run, (dbView_calm b Hc). intros HI. by eexists.
Qed.

Lemma flushIndexState_calm b :
  calm (bc_utxo b) → okrun flushIndexState b (fun _ b' => idle b b' ∧ bc_heap b' = bc_heap b ∧ bc_utxo b' = bc_utxo b).
Proof.
  intros Hc. pose proof (flushToDB_calm b Hc) as Hf. unfold okrun, run, flushIndexState in *.
  destruct (flushToDB b) as [r b']. destruct Hf as (?&_&Hf). by eexists.
Qed.

Lemma SetStatusFlags_utxo q flags b : bc_utxo (SetStatusFlags q flags b) = bc_utxo b.
Proof. unfold SetStatusFlags. by destruct (bc_heap b !! q). Qed.

(** *** What does not touch the nodes *)

Definition heapEq (b b' : BlockChain) : Prop := bc_heap b' = bc_heap b.

#[export] Instance heapEq_preorder : PreOrder heapEq.
Proof. split; [by intros ?|intros ??? E1 E2; unfold heapEq in *; congruence]. Qed.

Lemma heapEq_onCache {A} (m : St utxoCache A) : preserves heapEq (onCache m).
Proof. intros b r b'. unfold onCache. destruct (m (bc_utxo b)). by intros [= _ <-]. Qed.

Lemma heapEq_onVersionbits {A} (m : St vbCaches A) : preserves heapEq (onVersionbits m).
Proof. intros b r b'. unfold onVersionbits. destruct (m (bc_vb b)). by intros [= _ <-]. Qed.

Lemma heapEq_modify f : (∀ b, heapEq b (f b)) → preserves heapEq (modify f).
Proof. intros Hf b r b' [= _ <-]. apply Hf. Qed.

#[export] Hint Resolve heapEq_onCache heapEq_onVersionbits : steps.
#[export] Hint Extern 3 (preserves heapEq (modify _)) => (by apply heapEq_modify) : steps.
#[export] Hint Unfold dbView dbUpdate nodeAt tipNode st_ensure : steps.

Lemma heapEq_dbUpdate f : preserves heapEq (dbUpdate f).
Proof. unfold dbUpdate, dbView. preserve. Qed.

Lemma heapEq_flushToDB : preserves heapEq flushToDB.
Proof. unfold flushToDB. pose proof heapEq_dbUpdate. preserve. Qed.

#[export] Hint Resolve heapEq_dbUpdate heapEq_flushToDB : steps.

Lemma heapEq_connectBlock `{CR : Crypto} p now node blk stxos :
  preserves heapEq (connectBlock p now node blk stxos).
Proof. unfold connectBlock, tipNode, nodeAt, st_ensure. preserve. Qed.

Section accept.
Context `{CR : Crypto} `{SE : ScriptEngine} `{RT : GoRuntime} (p : Params) (now : Z) (PO : params_ok p).

Lemma checkExtension_ok b g blks node nd blk v :
  chain_ok p b g blks → calm (bc_utxo b) → bc_heap b !! node = Some nd → bn_height nd = 1 + Z.of_nat (length blks) →
  checkBlockSanity blk now = Ok tt → checkWith p (entryAt (bc_utxo b)) (bc_heap b) node nd blk = Ok v →
  okrun (checkExtension p node nd blk) b (fun _ b' => idle b b' ∧ calm (bc_utxo b') ∧
    bc_heap b' = <[node := setStatus nd (Z.lor (bn_status nd) statusValid)]> (bc_heap b) ∧
    connectable p (bn_height nd) (bl_Transactions blk) (ledger g blks)).
Proof.
  intros HOK Hc Hn Eh Hs Hw. pose proof (checkExtension_run p now PO b g blks node nd blk HOK Eh Hs) as Hrun.
  assert (okrun (checkExtension p node nd blk) b (fun _ b' => calm (bc_utxo b') ∧
    bc_heap b' = <[node := setStatus nd (Z.lor (bn_status nd) statusValid)]> (bc_heap b))) as Hok.
  - pose proof HOK as (_&HC&_). pose proof (po_bip34 _ PO).
    unfold okrun, run, checkExtension, onCache.
    destruct (checkConnectBlock_with p (bc_heap b) node nd blk (bc_utxo b) _ _ (ca_reps _ _ _ _ HC) ltac:(lia))
      as (r&u&->&_&_&_&Hcu&[->|[_ ?]]); [|done].
    rewrite Hw. change (okrun (modify (SetStatusFlags node statusValid);; flushIndexState) (set_utxo u b)
      (fun _ b' => calm (bc_utxo b') ∧
        bc_heap b' = <[node := setStatus nd (Z.lor (bn_status nd) statusValid)]> (bc_heap b))).
    apply okrun_bind, run_ret. eexists. split; [done|]. eapply okrun_mono.
    + apply flushIndexState_calm. rewrite SetStatusFlags_utxo. by apply Hcu.
    + intros _ b' (_&->&->). rewrite SetStatusFlags_utxo. split; [by apply Hcu|].
      unfold SetStatusFlags. cbn [set_utxo bc_heap]. by rewrite Hn.
  - eapply okrun_mono; [exact (okrun_and _ _ _ _ Hok Hrun)|]. intros [] b' [[? ?] [HI Hcon]]. eauto.
Qed.

Lemma connectBlock_ok b g blks t td node nd blk stxos :
  frame_ok p b g blks → calm (bc_utxo b) → bc_heap b !! t = Some td → bc_best b = view_of (bc_heap b) t →
  bc_heap b !! node = Some nd → PrevBlock (bl_Header blk) = bn_hash td →
  length stxos = countSpentOutputs (bl_Transactions blk) →
  okrun (connectBlock p now node blk stxos) b (fun _ b' => calm (bc_utxo b')).
Proof.
  intros HF Hc Ht Ev Hn Eprev Hlen. unfold connectBlock.
  destruct (frame_tipNode p b g blks HF) as (t'&td'&Etip&Ht'&Ev'&_).
  assert (t' = t) as ->.
  { rewrite Ev in Ev'. apply (f_equal view_tip) in Ev'.
    rewrite (view_of_tip _ t td Ht), (view_of_tip _ t' td' Ht') in Ev'. congruence. }
  simplify_eq. apply okrun_bind. unfold okrun at 1, run at 1. rewrite Etip. eexists. split; [done|].
  apply okrun_ensure; [by apply bool_decide_eq_true|]. apply okrun_ensure; [by apply Nat.eqb_eq|].
  apply okrun_bind. unfold okrun at 1, run at 1, nodeAt. rewrite st_get_bind, Hn. eexists. split; [done|]. apply run_get.
  cut (∀ b1, bc_utxo b1 = bc_utxo b →
    okrun (flushToDB;; b0 ← st_get;
         let total := (bs_TotalTxns (bc_snapshot b0) + Z.of_nat (length (bl_Transactions blk))) mod two64 in
         let state := newBestState (bc_heap b0) node nd blk total in
         dbUpdate (dbConnect state (bn_workSum nd) (BlockHash (bl_Header blk)) (bn_height nd) stxos);;
         modify (fun b => set_best (setTip (bc_heap b) (bc_best b) (Some node)) state b);;
         onCache (flush FlushIfNeeded false (bs_Hash state))) b1 (fun _ b' => calm (bc_utxo b'))).
  - intros Hrest. destruct (isCurrent now td).
    + apply (run_warn p PO _ b g blks nd node); [done..|]. intros vb b' HF'. by apply Hrest.
    + apply run_bind, run_ret. by apply Hrest.
  - intros b1 Eu. rewrite <- Eu in Hc. apply okrun_bind. eapply okrun_mono; [by apply flushToDB_calm|].
    intros _ b2 (_&_&Eu2). rewrite <- Eu2 in Hc. apply run_get. cbv zeta. apply okrun_bind. unfold dbUpdate.
    apply okrun_bind. unfold okrun at 1, run at 1. rewrite dbView_calm by done. eexists. split; [done|].
    apply run_ret. eexists. split; [done|]. apply okrun_bind, run_ret. eexists. split; [done|].
    unfold okrun, run, onCache. cbn [set_best set_db bc_utxo].
    pose proof (steady_flush FlushIfNeeded false (bs_Hash (newBestState (bc_heap b2) node nd blk
      ((bs_TotalTxns (bc_snapshot b2) + Z.of_nat (length (bl_Transactions blk))) mod two64))) (bc_utxo b2) Hc) as Hf.
    unfold run in Hf. unfold flush in Hf |- *. cbv zeta in Hf |- *. destruct (dbTx _) as [[[]|e] u] eqn:E.
    + eexists. split; [done|]. apply Hf.
    + destruct Hf as [_ Hf]. unfold dbTx in E. destruct (uc_failures _) as [|[] ?]; by simplify_eq.
Qed.

Lemma connectTransactions_ok b g blks blk :
  coins_at p b g blks → calm (bc_utxo b) →
  connectable p (1 + Z.of_nat (length blks)) (bl_Transactions blk) (ledger g blks) →
  Forall (fun h => h ∉ txids g blks) (blockTxids blk) →
  okrun (onCache (connectTransactions (bl_Transactions blk) (1 + Z.of_nat (length blks)))) b (fun stxos b' =>
    stxos = spentBy (1 + Z.of_nat (length blks)) (ledger g blks) (bl_Transactions blk) ∧
    ∃ u, b' = set_utxo u b ∧ calm u).
Proof.
  intros HC Hc Hcon Hfr. unfold okrun, run, onCache.
  pose proof (steady_connectTransactions (bl_Transactions blk) (1 + Z.of_nat (length blks)) (bc_utxo b) Hc) as Hst.
  unfold run in Hst. unfold blockTxids in Hfr. rewrite Forall_fmap in Hfr.
  destruct (connectTransactions_spec (bl_Transactions blk) (1 + Z.of_nat (length blks)) (bc_utxo b) (ledger g blks)
    (txids g blks) (ca_reps _ _ _ _ HC) Hfr (cn_spend _ _ _ _ Hcon)) as (r&u&E&_&[[-> _]|[-> _]]); rewrite E in Hst |- *.
  - eexists. split; [done|]. split; [done|]. exists u. by destruct Hst.
  - by destruct Hst.
Qed.

Lemma extendChain_ok b g blks t td node nd blk v :
  chain_ok p b g blks → calm (bc_utxo b) → bc_heap b !! t = Some td → bc_best b = view_of (bc_heap b) t →
  bc_heap b !! node = Some nd → bn_parent nd = Some t → bn_status nd = statusDataStored →
  PrevBlock (bl_Header blk) = bn_hash td → checkBlockSanity blk now = Ok tt → follows p g blks blk →
  checkWith p (entryAt (bc_utxo b)) (bc_heap b) node nd blk = Ok v →
  okrun (extendChain p now node nd blk) b (fun _ b' => calm (bc_utxo b') ∧
    bc_heap b' = <[node := setStatus nd (Z.lor statusDataStored statusValid)]> (bc_heap b)).
Proof.
  intros HOK Hc Ht Ev Hn Ep Est Eprev Hs Hfol Hw. pose proof HOK as (HF&HC&_).
  destruct (frame_tip p b g blks t td HF Ht Ev) as [Eht _].
  destruct (nk_parent _ _ _ (tree_node _ (fk_tree _ _ _ _ HF) _ _ Hn) t Ep) as (td'&Ht'&Ehn&_). simplify_eq.
  assert (bn_height nd = 1 + Z.of_nat (length blks)) as Ehd by lia.
  unfold extendChain. rewrite Est. cbv zeta. apply okrun_bind.
  eapply okrun_mono; [by eapply checkExtension_ok|]. intros _ b1 (HI&Hc1&E1&Hcon). rewrite Ehd in Hcon |- *.
  rewrite Est in E1.
  destruct (Hfol Hcon) as [Hfr _]. pose proof (chain_idle p _ _ _ _ HI HOK) as (HF1&HC1&_). apply okrun_bind.
  eapply okrun_mono; [by apply (connectTransactions_ok b1 g blks blk)|]. intros stxos b2 (->&u&->&Hcu).
  set (st := Z.lor statusDataStored statusValid) in *.
  assert (bc_heap b1 !! node = Some (setStatus nd st)) as Hn1 by (rewrite E1; apply lookup_insert_eq).
  destruct (same_shape_lookup _ _ t td (id_shape _ _ HI) Ht) as [st' Ht1].
  assert (bc_best b1 = view_of (bc_heap b1) t) as Ev1.
  { rewrite (id_view _ _ HI), Ev. symmetry. apply view_of_grows; [apply (fk_tree _ _ _ _ HF)| |by eexists].
    apply same_shape_grows, (id_shape _ _ HI). }
  set (b2 := set_utxo u b1).
  assert (okrun (connectBlock p now node blk (spentBy (1 + Z.of_nat (length blks)) (ledger g blks) (bl_Transactions blk)))
    b2 (fun _ b' => calm (bc_utxo b'))) as Hok.
  { apply (connectBlock_ok b2 g blks t (setStatus td st') node (setStatus nd st)); try done.
    - by apply frame_coins.
    - apply spent_counted; [by eapply checkBlockSanity_Ok|apply Hcon]. }
  pose proof (okrun_and _ _ _ _ Hok (run_preserves _ _ b2 (heapEq_connectBlock p now node blk _))) as Hok2.
  apply okrun_bind. unfold okrun at 1, run at 1, connectOrMark. unfold okrun, run in Hok2.
  destruct (connectBlock _ _ _ _ _ b2) as [r b3]. destruct Hok2 as ([]&->&Hc3&E3). eexists. split; [done|].
  apply okrun_bind. unfold okrun at 1, run at 1, nodeAt. rewrite st_get_bind, E3. cbn [b2 set_utxo bc_heap]. rewrite Hn1.
  eexists. split; [done|]. apply run_ret. eexists. split; [done|]. split; [done|]. by rewrite E3, <- E1.
Qed.

(** *** What a passed check says *)

(** Reading through the cache: nothing else changes, and later reads see the
    same entries. *)
Definition quiet (b b' : BlockChain) : Prop :=
  ∃ u, b' = set_utxo u b ∧ (∀ op, entryAt u op = entryAt (bc_utxo b) op) ∧ (calm (bc_utxo b) → calm u) ∧
    same_store (bc_utxo b) u ∧ ∀ U K, reps (bc_utxo b) U K → reps u U K.

#[export] Instance quiet_preorder : PreOrder quiet.
Proof.
  split.
  - intros b. exists (bc_utxo b). split_and!; [by destruct b|done..].
  - intros b1 b2 b3 (u&->&He&Hc&Hs&HR) (u'&->&He'&Hc'&Hs'&HR'). exists u'. cbn in He', Hc', Hs', HR' |- *.
    split; [done|]. split; [intros op; by rewrite He', He|]. split; [auto|]. split; [by etrans|auto].
Qed.

Lemma quiet_idle b b' : quiet b b' → idle b b'.
Proof. intros (u&->&_&_&Hs&HR). by apply idle_utxo. Qed.

(** The node the check makes for the block. *)
Definition checkedNode (H : heap) (blk : MsgBlock) (t q : ptr) (nd : blockNode) : Prop :=
  newBlockNode (bl_Header blk) (Some t) H = (Ok q, <[q := nd]> H) ∧ H !! q = None ∧
  made_from H (bl_Header blk) (Some t) nd ∧ tree_ok (<[q := nd]> H).

(** What [CheckConnectBlockTemplate] found of a block that passed. *)
Record passed (b : BlockChain) (blk : MsgBlock) : Prop := {
  pa_sane : checkBlockSanity blk now = Ok tt;
  pa_tip : ∃ t td, bc_heap b !! t = Some td ∧ bc_best b = view_of (bc_heap b) t ∧
    bn_hash td = PrevBlock (bl_Header blk) ∧ checkBlockContext p (bc_heap b) blk t = Ok tt ∧
    ∃ q nd v, checkedNode (bc_heap b) blk t q nd ∧
      checkWith p (entryAt (bc_utxo b)) (<[q := nd]> (bc_heap b)) q nd blk = Ok v }.

Lemma template_run b g blks blk :
  chain_ok p b g blks → Z.of_nat (length blks) < 2147483646 →
  run (CheckConnectBlockTemplate p now blk) b (fun r b' => quiet b b' ∧ (r = Ok tt → passed b blk)).
Proof.
  intros HOK Hlen. pose proof HOK as (HF&HC&_). unfold CheckConnectBlockTemplate.
  apply (run_tipNode p _ b g blks); [done|]. intros t td Ht Ev _.
  destruct (frame_tip p b g blks t td HF Ht Ev) as [Eht _].
  assert (∀ e, quiet b b ∧ (@Err unit e = Ok tt → passed b blk)) as Hfail by (intros; by split).
  apply run_lift_bind; [intros [] Hprev%ensure_Ok%bool_decide_eq_true|done].
  apply run_lift_bind; [intros [] Hs|done]. apply run_get. apply run_lift_bind; [intros [] Hctx|done].
  destruct (newBlockNode_ok (bc_heap b) (bl_Header blk) (Some t)) as (q&nd&Enew&Hq&Hmade&WF).
  { apply HF. } { intros ? [= <-]. exists td. split; [done|lia]. }
  rewrite Enew. apply run_bind, run_lift. rewrite lookup_insert_eq. apply run_bind, run_lift.
  cbn [from_option_err]. apply run_bind. unfold run at 1, onCache. rewrite Hprev.
  destruct (mf_child _ _ _ _ Hmade t eq_refl) as (td'&Ht'&Ehd&_). simplify_eq. pose proof (po_bip34 _ PO).
  destruct (checkConnectBlock_with p (<[q := nd]> (bc_heap b)) q nd blk (bc_utxo b) _ _ (ca_reps _ _ _ _ HC) ltac:(lia))
    as (r&u&->&HRu&Hss&He&Hcu&Hr).
  assert (quiet b (set_utxo u b)) as HQ.
  { exists u. split; [done|]. split; [done|]. split; [done|]. split; [done|]. intros U K HU. eapply reps_transfer; [apply HC|done..]. }
  destruct r as [v|e]; [|by split]. split; [done|]. intros _. split; [done|].
  exists t, td. split_and!; [done..|]. exists q, nd, v. split; [done|]. destruct Hr as [|[? _]]; done.
Qed.

Lemma checkWith_ext E E' H node nd blk : (∀ op, E' op = E op) → checkWith p E' H node nd blk = checkWith p E H node nd blk.
Proof.
  intros HE. unfold checkWith, loadedView. destruct (findInputsToFetch _ _ _) as [v needed].
  by rewrite (list_fmap_ext E' E needed) by (intros; apply HE).
Qed.

Lemma passed_quiet b b' blk : quiet b b' → passed b blk → passed b' blk.
Proof.
  intros (u&->&He&_) [Hs (t&td&Ht&Ev&Ep&Hctx&q&nd&v&Hnode&Hw)]. split; [done|]. exists t, td.
  split_and!; [done..|]. exists q, nd, v. split; [done|]. cbn [set_utxo bc_utxo bc_heap].
  by rewrite (checkWith_ext (entryAt (bc_utxo b))).
Qed.

(** The tip is not marked invalid. *)
Definition live (b : BlockChain) : Prop :=
  ∀ t td, view_tip (bc_best b) = Some t → bc_heap b !! t = Some td → KnownInvalid (bn_status td) = false.

(** The tree got one node, a valid child of the tip. *)
Definition grown (b : BlockChain) (blk : MsgBlock) (b' : BlockChain) : Prop :=
  ∃ t q nd, view_tip (bc_best b) = Some t ∧ checkedNode (bc_heap b) blk t q nd ∧
    bc_heap b' = <[q := setStatus nd (Z.lor statusDataStored statusValid)]> (bc_heap b).

Lemma maybeAcceptBlock_ok b g blks blk :
  chain_ok p b g blks → live b → calm (bc_utxo b) → passed b blk →
  bc_index b !! BlockHash (bl_Header blk) = None → Z.of_nat (length blks) < 2147483646 →
  no_collision (blockTxs (g :: blks ++ [blk])) →
  okrun (maybeAcceptBlock p now blk) b (fun _ b' => calm (bc_utxo b') ∧ grown b blk b').
Proof.
  intros HOK Hlive Hc [Hs (t&td&Ht&Ev&Ep&Hctx&q&nd&v&(Enew&Hq&Hmade&WF)&Hw)] Hi Hlen Hcol. pose proof HOK as (HF&HC&HH).
  destruct (frame_tip p b g blks t td HF Ht Ev) as [Eht Ehash].
  pose proof (context_follows p now PO b g blks blk t td HOK Ht Eht Hlen Hs Hctx Hcol) as Hfol.
  unfold maybeAcceptBlock, LookupNode. apply run_get. rewrite <- Ep, (fk_indexed _ _ _ _ HF t td Ht).
  apply (okrun_lift_bind _ _ _ _ t); [done|]. apply okrun_bind. unfold okrun at 1, run at 1, nodeAt.
  rewrite st_get_bind, Ht. eexists. split; [done|]. apply okrun_ensure.
  { rewrite (Hlive t td); [done| |done]. by rewrite Ev, (view_of_tip _ t td). }
  apply (okrun_lift_bind _ _ _ _ tt); [done|]. apply okrun_bind. unfold dbUpdate. apply okrun_bind.
  unfold okrun at 1, run at 1. rewrite dbView_calm by done. eexists. split; [done|]. apply run_ret. eexists. split; [done|].
  set (b2 := set_db _ b).
  apply okrun_bind. unfold okrun at 1, run at 1, onHeap. change (bc_heap b2) with (bc_heap b). rewrite Enew.
  eexists. split; [done|]. apply okrun_bind. unfold okrun at 1, run at 1, nodeAt. rewrite st_get_bind.
  cbn [set_index bc_heap]. rewrite lookup_insert_eq. eexists. split; [done|]. apply okrun_bind, run_ret. eexists.
  split; [done|]. set (nd' := setStatus nd statusDataStored). cbn [set_index bc_heap bc_index bc_dirty]. rewrite insert_insert_eq.
  set (b3 := AddNode _ _ _).
  assert (same_shape (<[q := nd]> (bc_heap b)) (<[q := nd']> (bc_heap b))) as HS.
  { intros q'. destruct (decide (q = q')) as [<-|]; [by rewrite !lookup_insert_eq|by rewrite !lookup_insert_ne]. }
  assert (chain_ok p b3 g blks) as HOK3.
  { split; [|split; [by destruct HC|done]].
    apply (frame_new p PO b g blks blk q nd'); [done..| | | | |set_solver].
    - cbn. by rewrite (mf_hash _ _ _ _ Hmade).
    - apply (mf_hash _ _ _ _ Hmade).
    - exact (tree_ok_shape _ _ HS WF).
    - etrans; [exact (mf_hash _ _ _ _ Hmade)|]. f_equal. symmetry.
      apply (Header_made (bc_heap b) (bl_Header blk) (Some t) nd q); [done..|]. simpl. by rewrite Ht. }
  apply okrun_bind. eapply okrun_mono; [by apply flushToDB_calm|]. intros _ b4 (HI4&Eheap&Eu).
  pose proof (chain_idle p _ _ _ _ HI4 HOK3) as HOK4.
  assert (bc_best b4 = view_of (bc_heap b4) t) as Ev4.
  { rewrite (id_view _ _ HI4), Eheap. cbn [b3 AddNode set_index bc_best bc_heap b2 set_db]. rewrite Ev. symmetry.
    apply view_of_grows; [apply HF| |by eexists]. intros q' qd Hq'. exists (bn_status qd).
    rewrite lookup_insert_ne by congruence. rewrite Hq'. by destruct qd. }
  assert (bc_heap b4 !! t = Some td) as Ht4.
  { rewrite Eheap. cbn. by rewrite lookup_insert_ne by congruence. }
  assert (bc_heap b4 !! q = Some nd') as Hq4 by (rewrite Eheap; apply lookup_insert_eq).
  unfold connectBestChain. apply okrun_bind. unfold okrun at 1, run at 1, nodeAt. rewrite st_get_bind, Hq4.
  eexists. split; [done|]. apply okrun_bind. destruct (frame_tipNode p b4 g blks (proj1 HOK4)) as (t'&td'&Etip&Ht'&Ev'&_).
  unfold okrun at 1, run at 1. rewrite Etip. eexists. split; [done|].
  assert (t' = t) as ->.
  { rewrite Ev4 in Ev'. apply (f_equal view_tip) in Ev'.
    rewrite (view_of_tip _ t td Ht4), (view_of_tip _ t' td' Ht') in Ev'. congruence. }
  simplify_eq. rewrite bool_decide_true by done. apply okrun_bind. eapply okrun_mono.
  - eapply (extendChain_ok b4 g blks t td q nd' blk v); try done.
    + by rewrite Eu.
    + apply (mf_parent _ _ _ _ Hmade).
    + rewrite Eu, Eheap. unfold nd' at 1. rewrite checkWith_status.
      change (checkWith p (entryAt (bc_utxo b)) (<[q := nd']> (bc_heap b)) q nd blk = Ok v).
      rewrite (checkWith_shape p (<[q := nd]> (bc_heap b)) _ WF HS q nd); [done|apply lookup_insert_eq].
  - intros [] b5 [Hc5 E5]. apply run_ret. eexists. split; [done|]. split; [done|].
    exists t, q, nd. split; [by rewrite Ev, (view_of_tip _ t td)|]. split; [done|]. rewrite E5, Eheap. cbn. rewrite insert_insert_eq. done.
Qed.

End accept.

(** ** A chain that only grew *)

Section linear.
Context `{CR : Crypto} `{SE : ScriptEngine} `{RT : GoRuntime} (p : Params) (PO : params_ok p).

Fixpoint linked (g : MsgBlock) (blks : list MsgBlock) : Prop :=
  match blks with
  | [] => True
  | b :: blks => PrevBlock (bl_Header b) = BlockHash (bl_Header g) ∧ linked b blks
  end.

Lemma linked_snoc g blks blk :
  linked g (blks ++ [blk]) ↔
  linked g blks ∧ PrevBlock (bl_Header blk) = BlockHash (bl_Header (default g (last blks))).
Proof.
  revert g; induction blks as [|b blks IH]; intros g; cbn [linked app]; [tauto|].
  rewrite IH, last_cons. destruct (last blks); simpl; tauto.
Qed.

(** The chain stands for the blocks, and its tree is its best branch. *)
Record linear_ok (b : BlockChain) (g : MsgBlock) (blks : list MsgBlock) : Prop := {
  ln_chain : chain_ok p b g blks;
  ln_all q nd : bc_heap b !! q = Some nd → Some q ∈ bc_best b;
  ln_links : linked g blks;
  ln_live : live b;
  ln_genesis : GenesisHash p = BlockHash (bl_Header g) }.

(** No two headers collide. *)
Definition no_header_collision (g : MsgBlock) (blks : list MsgBlock) : Prop :=
  ∀ b b', b ∈ g :: blks → b' ∈ g :: blks →
    BlockHash (bl_Header b) = BlockHash (bl_Header b') → bl_Header b = bl_Header b'.

(** The blocks of a chain have different hashes. *)
Lemma chain_hashes b g blks i j x y :
  frame_ok p b g blks → (g :: blks) !! i = Some x → (g :: blks) !! j = Some y →
  BlockHash (bl_Header x) = BlockHash (bl_Header y) → i = j.
Proof.
  intros HF Hx Hy E. destruct (fk_tip _ _ _ _ HF) as (t&td&Ht&Ev&_).
  pose proof (fk_chain _ _ _ _ HF) as Hch. pose proof (Forall2_length _ _ _ Hch) as Hlen.
  rewrite Ev in Hch. rewrite Ev, (view_of_length _ t td Ht) in Hlen.
  apply lookup_lt_Some in Hx as Hi. apply lookup_lt_Some in Hy as Hj.
  assert (∀ k z, (g :: blks) !! k = Some z → ∃ q nd, walk (Z.to_nat (bn_height td) - k) (bc_heap b) t = Some q ∧
    bc_heap b !! q = Some nd ∧ bn_hash nd = BlockHash (bl_Header z)) as Hslot.
  { intros k z Hz. destruct (Forall2_lookup_r _ _ _ _ _ Hch Hz) as (o&Ho&q&nd&->&Hq&Eq).
    apply lookup_lt_Some in Hz. rewrite (view_of_lookup _ t td) in Ho by (done || lia). exists q, nd. split_and!; congruence. }
  destruct (Hslot i x Hx) as (q&nd&Hw&Hq&Eq), (Hslot j y Hy) as (q'&nd'&Hw'&Hq'&Eq').
  assert (q = q') as <- by (eapply (frame_distinct _ _ _ _ HF); [done..|congruence]).
  destruct (walk_Some _ (fk_tree _ _ _ _ HF) _ _ _ _ Ht Hw) as (?&?&Eh),
    (walk_Some _ (fk_tree _ _ _ _ HF) _ _ _ _ Ht Hw') as (?&?&Eh'). simplify_eq. lia.
Qed.

(** A block on the tip that is not genesis is not in the index. *)
Lemma linear_new b g blks blk :
  linear_ok b g blks → no_header_collision g (blks ++ [blk]) →
  PrevBlock (bl_Header blk) = BlockHash (bl_Header (default g (last blks))) →
  BlockHash (bl_Header blk) ≠ BlockHash (bl_Header g) → bc_index b !! BlockHash (bl_Header blk) = None.
Proof.
  intros [HOK Hall Hlk _ _] Hcol Eprev Hne. pose proof HOK as (HF&_). apply eq_None_not_Some. intros [q Hq].
  destruct (fk_node _ _ _ _ HF _ _ Hq) as (nd&Hnd&Eh). apply Hall, list_elem_of_lookup in Hnd as (k&Hk).
  destruct (Forall2_lookup_l _ _ _ _ _ (fk_chain _ _ _ _ HF) Hk) as (z&Hz&q'&nd'&[= <-]&Hnd'&Eh').
  destruct (fk_node _ _ _ _ HF _ _ Hq) as (nd2&Hnd2&Eh2). simplify_eq.
  destruct k as [|k]; [simpl in Hz; simplify_eq; congruence|]. simpl in Hz.
  assert (bl_Header z = bl_Header blk) as Ehd.
  { pose proof (list_elem_of_lookup_2 _ _ _ Hz). apply Hcol; [set_solver..|congruence]. }
  assert (PrevBlock (bl_Header z) = BlockHash (bl_Header (default g ((g :: blks) !! k)))) as Ez.
  { clear - Hz Hlk. revert g k Hz Hlk; induction blks as [|x blks IH]; intros g [|k] Hz Hlk; simpl in *; try done.
    - destruct Hlk. congruence.
    - destruct Hlk as [_ Hlk]. rewrite (IH x k Hz Hlk). destruct k; [done|]. simpl.
      destruct (blks !! k) eqn:E; [done|]. apply lookup_ge_None in E. apply lookup_lt_Some in Hz. lia. }
  rewrite Ehd, Eprev in Ez. apply lookup_lt_Some in Hz as Hlt.
  destruct (lookup_lt_is_Some_2 (g :: blks) k) as [y Hy]; [simpl; lia|]. rewrite Hy in Ez. simpl in Ez.
  pose proof (chain_hashes b g blks _ _ _ _ HF (cons_last g blks) Hy Ez). lia.
Qed.

Lemma linear_grown b g blks blk b' :
  linear_ok b g blks → chain_ok p b' g (blks ++ [blk]) → grown b blk b' →
  PrevBlock (bl_Header blk) = BlockHash (bl_Header (default g (last blks))) → linear_ok b' g (blks ++ [blk]).
Proof.
  intros [HOK Hall Hlk _ Hg] HOK' (t&q&nd&Etip&(Enew&Hq&Hmade&WF)&Eheap) Eprev.
  pose proof HOK as (HF&_). pose proof HOK' as (HF'&_).
  destruct (fk_tip _ _ _ _ HF) as (t0&td&Ht&Ev&_). rewrite Ev, (view_of_tip _ t0 td Ht) in Etip. injection Etip as ->.
  set (nd' := setStatus nd _) in Eheap. assert (bc_heap b' !! q = Some nd') as Hq' by (rewrite Eheap; apply lookup_insert_eq).
  destruct (fk_tip _ _ _ _ HF') as (t'&td'&Ht'&Ev'&_).
  destruct (frame_tip p b' g _ t' td' HF' Ht' Ev') as [_ Eh']. rewrite last_snoc in Eh'. simpl in Eh'.
  assert (t' = q) as ->.
  { eapply (frame_distinct _ _ _ _ HF'); [done..|]. rewrite Eh'. symmetry. apply (mf_hash _ _ _ _ Hmade). }
  assert (grows (bc_heap b) (bc_heap b')) as HG.
  { intros x xd Hx. exists (bn_status xd). rewrite Eheap, lookup_insert_ne by congruence. rewrite Hx. by destruct xd. }
  assert (bc_best b' = bc_best b ++ [Some q]) as Eb.
  { rewrite Ev', (view_of_child _ (fk_tree _ _ _ _ HF') q nd' t Hq' (mf_parent _ _ _ _ Hmade)), Ev.
    by rewrite (view_of_grows (bc_heap b) (bc_heap b')) by (apply HF || done || by eexists). }
  split; try done.
  - intros x xd Hx. rewrite Eb. rewrite Eheap in Hx. apply lookup_insert_Some in Hx as [[<- _]|[_ Hx]]; [set_solver|].
    apply elem_of_app. left. by eapply Hall.
  - by apply linked_snoc.
  - intros x xd Hx Hxd. rewrite Ev', (view_of_tip _ q nd' Hq') in Hx. injection Hx as <-. by simplify_eq.
Qed.

Lemma sanity_later blk now now' : checkBlockSanity blk now = Ok tt → now ≤ now' → checkBlockSanity blk now' = Ok tt.
Proof.
  unfold checkBlockSanity, CheckBlockHeaderSanity. intros E Hle. apply bind_Ok in E as ([]&Ets&E).
  apply ensure_Ok, Z.leb_le in Ets. rewrite (proj2 (Z.leb_le _ (now' + _))) by lia. done.
Qed.

Lemma passed_not_genesis now b g blks blk :
  linear_ok b g blks → passed p now b blk → BlockHash (bl_Header blk) ≠ BlockHash (bl_Header g).
Proof.
  intros HL [_ (t&td&_&_&_&_&q&nd&v&(_&_&Hmade&_)&Hw)] E. unfold checkWith in Hw.
  apply bind_Ok in Hw as ([]&Hg&_). apply ensure_Ok, negb_true_iff, bool_decide_eq_false in Hg.
  apply Hg. by rewrite (mf_hash _ _ _ _ Hmade), E, (ln_genesis _ _ _ HL).
Qed.

Lemma passed_prev now b g blks blk :
  linear_ok b g blks → passed p now b blk →
  PrevBlock (bl_Header blk) = BlockHash (bl_Header (default g (last blks))).
Proof.
  intros HL [_ (t&td&Ht&Ev&Ep&_)]. destruct (ln_chain _ _ _ HL) as (HF&_).
  destruct (frame_tip p b g blks t td HF Ht Ev) as [_ Eh]. congruence.
Qed.

(** A block that passed the check is connected, later too. *)
Lemma ProcessBlock_ok now now' b g blks blk :
  linear_ok b g blks → calm (bc_utxo b) → passed p now b blk → now ≤ now' →
  Z.of_nat (length blks) < 2147483646 → no_collision (blockTxs (g :: blks ++ [blk])) →
  no_header_collision g (blks ++ [blk]) →
  okrun (ProcessBlock p now' blk) b (fun m b' =>
    m = (true, false) ∧ calm (bc_utxo b') ∧ linear_ok b' g (blks ++ [blk])).
Proof.
  intros HL Hc Hpass Hle Hlen Hcol Hhcol. pose proof (passed_prev _ _ _ _ _ HL Hpass) as Eprev.
  pose proof (passed_not_genesis _ _ _ _ _ HL Hpass) as Hng.
  pose proof (linear_new b g blks blk HL Hhcol Eprev Hng) as Hi.
  pose proof (ln_chain _ _ _ HL) as HOK. pose proof HOK as (HF&_).
  assert (passed p now' b blk) as Hpass'.
  { destruct Hpass as [Hs Ht]. split; [by eapply sanity_later|done]. }
  pose proof (ProcessBlock_run p now' PO b g blks blk HOK Eprev Hlen Hcol) as Hrun.
  cut (okrun (ProcessBlock p now' blk) b (fun _ b' => calm (bc_utxo b') ∧ grown b blk b')).
  { intros Hok. eapply okrun_mono; [exact (okrun_and _ _ _ _ Hok Hrun)|].
    intros m b' [[Hc' Hgr] [Htr Hm]]. split_and!; [by apply Hm|done|]. by eapply linear_grown. }
  unfold ProcessBlock. apply okrun_bind, run_get. unfold HaveBlock at 1. rewrite Hi, bool_decide_false by by intros [].
  apply okrun_bind. unfold okrun at 1, run at 1. rewrite dbView_calm by done. eexists. split; [done|].
  assert (bool_decide (is_Some (db_heights (bc_db b) !! BlockHash (bl_Header blk))) = false) as ->.
  { apply bool_decide_eq_false. intros [? ?]%(fk_heights _ _ _ _ HF). congruence. }
  rewrite andb_false_r. apply run_ret. eexists. split; [done|]. apply okrun_ensure; [done|]. apply run_get.
  apply okrun_ensure; [by rewrite (fk_orphans _ _ _ _ HF), lookup_empty|].
  apply (okrun_lift_bind _ _ _ _ tt); [apply Hpass'|]. apply okrun_bind, run_get.
  destruct Hpass' as [Hs' (t&td&Ht&Ev&Ep&Hrest)].
  assert (HaveBlock b (PrevBlock (bl_Header blk)) = true) as ->.
  { unfold HaveBlock. rewrite <- Ep, (fk_indexed _ _ _ _ HF t td Ht). by apply bool_decide_eq_true. }
  apply run_ret. eexists. split; [done|]. cbn [negb]. apply okrun_bind.
  assert (passed p now' b blk) as Hpass' by (split; [done|]; by exists t, td).
  pose proof (maybeAcceptBlock_ok p now' PO b g blks blk HOK (ln_live _ _ _ HL) Hc Hpass' Hi Hlen Hcol) as Hok.
  pose proof (maybeAcceptBlock_run p now' PO b g blks blk HOK Eprev Hi Hlen Hs' Hcol) as Hrun2.
  eapply okrun_mono; [exact (okrun_and _ _ _ _ Hok Hrun2)|]. intros m b' [[Hc' Hgr] [(HF'&_) _]].
  apply okrun_bind. unfold okrun at 1, run at 1. rewrite processOrphans_none by apply HF'. eexists. split; [done|].
  apply run_ret. by eexists.
Qed.

End linear.
