(* ===== verification/Start.v ===== *)
(** * Starting the chain

    [newGenesisBlock] ([btcd/params.go]), [New] ([btcd/blockchain/chain.go])
    with [createChainState] and [initChainState] ([chainio.go]), and
    [InitConsistentState] ([utxocache.go]): the chain is made from its genesis
    block, or loaded from the database, whose coins may be those of an earlier
    block.  A chain that is loaded is the chain that was stored. *)

From Stdlib Require Import ZArith List Lia.
From stdpp Require Import base list gmap strings sorting.
From S2P Require Import Prelude.
From S2P Require Import Text.
From S2P Require Import Wire.
From S2P Require Import Script.
From S2P Require Import Chain.
From S2P Require Import Merkle.
From S2P Require Import Versionbits.
From S2P Require Import Utxo.
From S2P Require Import Validate.
From S2P Require Import Context.
From S2P Require Import Process.
From S2P Require Import Extend.
From S2P Require Import Agree.

Open Scope Z_scope.

(** ** Genesis *)

Definition dogecoinVMGenesisTime : Z := 1790121600.

(** The script of no data is always made. *)
Definition newGenesisBlock `{Crypto} (message : bytes) : MsgBlock :=
  let pkScript := match NullDataScript [] with Ok s => s | Err _ => [] end in
  let coinbase := mkMsgTx 1 [mkTxIn (mkOutPoint zeroHash MaxPrevOutIndex) message [] MaxTxInSequenceNum]
                    [mkTxOut 0 pkScript] 0 in
  mkBlock (mkHeader 1 zeroHash (TxHash coinbase) dogecoinVMGenesisTime 486604799 0) [coinbase].

(** ** The database *)

(** What is kept of a chain that is not running. *)
Record disk := mkDisk { dk_tables : chainDB; dk_coins : gmap OutPoint coin; dk_consistent : option bytes }.

Definition emptyDisk : disk := mkDisk (mkDB ∅ ∅ ∅ ∅ None) ∅ None.

Definition diskOf (b : BlockChain) : disk := mkDisk (bc_db b) (uc_db (bc_utxo b)) (uc_consistent (bc_utxo b)).

(** Keys have one length, so the order of their bytes is the order of the
    numbers they write. *)
Definition keyValue (k : bytes) : Z := le_Z (reverse k).

Definition keyLe (x y : bytes * (BlockHeader * Z)) : Prop := keyValue x.1 ≤ keyValue y.1.

#[export] Instance keyLe_dec : RelDecision keyLe.
Proof. intros x y. unfold keyLe. apply _. Defined.

(** The rows of the block index, by key. *)
Definition cursor (rows : gmap bytes (BlockHeader * Z)) : list (BlockHeader * Z) :=
  snd <$> merge_sort keyLe (map_to_list rows).

Section start.
Context `{CR : Crypto} (p : Params) (now : Z).

Definition addNode (q : ptr) (nd : blockNode) (b : BlockChain) : BlockChain :=
  set_index (<[q := nd]> (bc_heap b)) (<[bn_hash nd := q]> (bc_index b)) (bc_dirty b) b.

Definition putTip (q : ptr) (b : BlockChain) : BlockChain :=
  set_best (setTip (bc_heap b) (bc_best b) (Some q)) (bc_snapshot b) b.

Definition putSnapshot (state : BestState) (b : BlockChain) : BlockChain := set_best (bc_best b) state b.

Definition putCoins (U : gmap OutPoint coin) (consistent : option bytes) (b : BlockChain) : BlockChain :=
  let s := bc_utxo b in
  set_utxo (mkCache (uc_maps s) (uc_maxEntries s) (uc_lastFlushHash s) U consistent (uc_rooms s) (uc_fulls s)
              (uc_failures s)) b.

Definition putLastFlush (hash : bytes) (b : BlockChain) : BlockChain :=
  let s := bc_utxo b in
  set_utxo (mkCache (uc_maps s) (uc_maxEntries s) hash (uc_db s) (uc_consistent s) (uc_rooms s) (uc_fulls s)
              (uc_failures s)) b.

(** The outputs of the genesis block go to the bucket, unlike in Bitcoin. *)
Definition createChainState (genesis : MsgBlock) : Ch unit :=
  node ← onHeap (newBlockNode (bl_Header genesis) None);
  nd ← nodeAt node;
  let nd := setStatus nd (Z.lor statusDataStored statusValid) in
  modify (addNode node nd);;
  modify (putTip node);;
  let numTxns := Z.of_nat (length (bl_Transactions genesis)) in
  let state := mkBest (bn_hash nd) (bn_height nd) (bn_bits nd) (block_SerializeSize genesis)
                 (GetBlockWeight genesis) numTxns numTxns (bn_timestamp nd) in
  modify (putSnapshot state);;
  b ← st_get;
  dbUpdate (fun d =>
    mkDB (<[bn_hash nd := genesis]> (db_blocks d)) (<[nodeKey nd := (Header (bc_heap b) nd, bn_status nd)]> (db_nodes d))
      (<[bn_hash nd := bn_height nd]> (db_heights d)) (db_journal d) (Some (dbPutBestState state (bn_workSum nd))));;
  modify (fun b => putCoins (foldl (fun U x => <[x.1 := x.2]> U) (uc_db (bc_utxo b)) (genesisOuts genesis))
                     (uc_consistent (bc_utxo b)) b).

(** *** Loading *)

Definition parentFor (header : BlockHeader) (lastNode : option ptr) : Ch (option ptr) :=
  match lastNode with
  | None =>
      st_ensure (bool_decide (BlockHash header = GenesisHash p))
        (Errorf "initChainState: Expected first entry in block index to be genesis block");;
      mret None
  | Some q =>
      qd ← nodeAt q;
      if bool_decide (PrevBlock header = bn_hash qd) then mret (Some q)
      else
        b ← st_get;
        parent ← st_lift (from_option_err (LookupNode b (PrevBlock header))
                            (Errorf "initChainState: Could not find parent for block"));
        mret (Some parent)
  end.

Fixpoint loadRows (rows : list (BlockHeader * Z)) (lastNode : option ptr) : Ch unit :=
  match rows with
  | [] => mret tt
  | (header, status) :: rows =>
      parent ← parentFor header lastNode;
      node ← onHeap (newBlockNode header parent);
      nd ← nodeAt node;
      modify (addNode node (setStatus nd status));;
      loadRows rows (Some node)
  end.

(** Ancestors of the tip are valid. *)
Fixpoint markAncestors (fuel : nat) (iterNode : option ptr) (b : BlockChain) : BlockChain :=
  match fuel with
  | O => b
  | S fuel =>
      match iterNode ≫= fun q => (q,.) <$> bc_heap b !! q with
      | None => b
      | Some (q, nd) =>
          markAncestors fuel (bn_parent nd)
            (if KnownValid (bn_status nd) then b else SetStatusFlags q statusValid b)
      end
  end.

Definition loadChainState (state : bestChainState) : Ch unit :=
  dbView;;
  b ← st_get;
  loadRows (cursor (db_nodes (bc_db b))) None;;
  b ← st_get;
  tip ← st_lift (from_option_err (LookupNode b (bcs_hash state))
                   (Errorf "initChainState: cannot find chain tip in block index"));
  modify (putTip tip);;
  block ← st_lift (from_option_err (db_blocks (bc_db b) !! bcs_hash state) noBlock);
  td ← nodeAt tip;
  modify (markAncestors (S (Z.to_nat (bn_height td))) (Some tip));;
  b ← st_get;
  modify (putSnapshot (newBestState (bc_heap b) tip td block (bcs_totalTxns state)));;
  flushToDB.

Definition initChainState (genesis : MsgBlock) : Ch unit :=
  dbView;;
  b ← st_get;
  match db_best (bc_db b) with
  | None => createChainState genesis
  | Some state => loadChainState state
  end.

(** *** The coins *)

(** The error of the read is dropped. *)
Definition dbFetchUtxoStateConsistency : Ch (option bytes) := fun b =>
  let '(r, b') := dbView b in
  (Ok (match r with Ok _ => uc_consistent (bc_utxo b') | Err _ => None end), b').

(** The nodes after the fork, oldest first. *)
Fixpoint replayNodes (fuel : nat) (H : heap) (n : option ptr) (fork : ptr) (acc : list ptr) : result (list ptr) :=
  match fuel with
  | O => Ok acc
  | S fuel =>
      q ← from_option_err n nilPointer;
      nd ← from_option_err (H !! q) nilPointer;
      if bn_height nd <? 0 then Ok acc
      else if Nat.eqb q fork then Ok acc
      else replayNodes fuel H (bn_parent nd) fork (q :: acc)
  end.

Fixpoint replay (nodes : list ptr) : Ch unit :=
  match nodes with
  | [] => mret tt
  | q :: nodes =>
      nd ← nodeAt q;
      block ← dbFetchBlockByNode nd;
      onCache (connectTransactions (bl_Transactions block) (bn_height nd));;
      onCache (flush FlushIfNeeded false (bn_hash nd));;
      replay nodes
  end.

Definition replayFrom (tip : ptr) (td : blockNode) (statusHash : bytes) : Ch unit :=
  b ← st_get;
  lastFlushNode ← st_lift (from_option_err (LookupNode b statusHash) nilPointer);
  fork ← st_lift (from_option_err (findFork (bc_heap b) (bc_best b) (Some lastFlushNode))
                    (Errorf "last utxo consistency status contains hash that is not in best chain"));
  nodes ← st_lift (replayNodes (S (Z.to_nat (bn_height td))) (bc_heap b) (Some tip) fork []);
  replay nodes;;
  modify (putLastFlush (bn_hash td)).

Definition InitConsistentState (tip : ptr) : Ch unit :=
  td ← nodeAt tip;
  statusBytes ← dbFetchUtxoStateConsistency;
  match statusBytes with
  | None => fun b =>
      let '(r, b') := dbView b in
      let b' := match r with Ok _ => putCoins (uc_db (bc_utxo b')) (Some (bn_hash td)) b' | Err _ => b' end in
      (r, putLastFlush (bn_hash td) b')
  | Some statusHash =>
      if bool_decide (statusHash = bn_hash td) then modify (putLastFlush (bn_hash td))
      else replayFrom tip td statusHash
  end.

(** *** New *)

(** The chain before its state is loaded. [rooms], [fulls] and [failures] are
    what the memory and the database will do. *)
Definition blank (d : disk) (maxEntries : Z) (rooms : list Z) (fulls failures : list bool) : BlockChain :=
  mkChain ∅ ∅ ∅ (newChainView ∅ None) (mkBest zeroHash 0 0 0 0 0 0 0)
    (newUtxoCache maxEntries (dk_coins d) (dk_consistent d) rooms fulls failures) (dk_tables d) ∅ ∅ None
    (mkCaches (newThresholdCaches (length (p_Deployments (p_Deploy p)))) (newThresholdCaches vbNumBits) false).

Definition New (genesis : MsgBlock) : Ch unit :=
  initChainState genesis;;
  '(tip, td) ← tipNode;
  b ← st_get;
  onVersionbits (initThresholdCaches (bc_heap b) (p_Deploy p) td (isCurrent now td));;
  InitConsistentState tip.

End start.

(** ** The order of the rows *)

Lemma keyValue_key hash h :
  length hash = 32%nat → keyValue (blockIndexKey hash h) = le_Z (reverse hash) + 256 ^ 32 * uint32 h.
Proof.
  intros Hl. unfold keyValue, blockIndexKey. rewrite reverse_app, reverse_involutive, le_Z_app, length_reverse, Hl.
  rewrite (le_Z_le_bytes 4); [done|]. by apply Z.mod_pos_bound.
Qed.

Lemma nodeKey_lt `{CryptoOk} nd nd' h h' :
  bn_hash nd = BlockHash h → bn_hash nd' = BlockHash h' → 0 ≤ bn_height nd < bn_height nd' →
  bn_height nd' < 2147483648 → keyValue (nodeKey nd) < keyValue (nodeKey nd').
Proof.
  intros E E' Hh Hlt. unfold nodeKey. rewrite E, E'. unfold BlockHash, DoubleHashRaw.
  rewrite !keyValue_key by apply sha256_length.
  assert (∀ l, 0 ≤ le_Z (reverse (sha256 l)) < 256 ^ 32) as Hb.
  { intros l. pose proof (le_Z_bounds (reverse (sha256 l))) as Hb. rewrite length_reverse, sha256_length in Hb.
    apply Hb. apply Forall_reverse, sha256_bytes. }
  unfold uint32. rewrite !Z.mod_small by lia.
  pose proof (Hb (sha256 (writeBlockHeader h))). pose proof (Hb (sha256 (writeBlockHeader h'))). nia.
Qed.

Lemma Forall2_choose {A B} (P : A → B → Prop) l : (∀ x, x ∈ l → ∃ y, P x y) → ∃ l', Forall2 P l l'.
Proof.
  induction l as [|x l IH]; intros HP; [by exists []|].
  destruct (HP x) as [y Hy]; [set_solver|]. destruct IH as [l' Hl']; [set_solver|]. exists (y :: l'). by constructor.
Qed.

Lemma StronglySorted_lookup {A} (R : relation A) l :
  (∀ i j x y, l !! i = Some x → l !! j = Some y → (i < j)%nat → R x y) → StronglySorted R l.
Proof.
  induction l as [|x l IH]; intros HR; constructor.
  - apply IH. intros i j y z Hy Hz Hlt. apply (HR (S i) (S j)); [done..|lia].
  - apply Forall_lookup. intros i y Hy. apply (HR O (S i)); [done..|lia].
Qed.

(** The cursor visits the rows in the order of their keys. *)
Lemma cursor_sorted rows (krs : list (bytes * (BlockHeader * Z))) :
  (∀ x, x ∈ krs ↔ rows !! x.1 = Some x.2) →
  (∀ i j x y, krs !! i = Some x → krs !! j = Some y → (i < j)%nat → keyValue x.1 < keyValue y.1) →
  cursor rows = krs.*2.
Proof.
  intros Hin Hlt. unfold cursor. f_equal.
  assert (Permutation (map_to_list rows) krs) as HP.
  { apply NoDup_Permutation; [apply NoDup_map_to_list| |].
    - apply NoDup_alt. intros i j x Hi Hj. destruct (decide (i < j)%nat) as [Hij|]; [pose proof (Hlt i j x x Hi Hj Hij); lia|].
      destruct (decide (j < i)%nat) as [Hij|]; [pose proof (Hlt j i x x Hj Hi Hij); lia|lia].
    - intros [k v]. by rewrite elem_of_map_to_list, Hin. }
  apply (StronglySorted_unique_strong keyLe).
  - intros x y Hx Hy Hxy Hyx. unfold keyLe in *. rewrite merge_sort_Permutation, HP in Hx.
    apply list_elem_of_lookup in Hx as [i Hi], Hy as [j Hj].
    destruct (decide (i < j)%nat) as [Hij|]; [pose proof (Hlt i j x y Hi Hj Hij); lia|].
    destruct (decide (j < i)%nat) as [Hij|]; [pose proof (Hlt j i y x Hj Hi Hij); lia|].
    assert (i = j) as -> by lia. congruence.
  - apply StronglySorted_merge_sort; [intros x y z; unfold keyLe; lia|intros x y; unfold keyLe; lia].
  - apply StronglySorted_lookup. intros i j x y Hi Hj Hij. pose proof (Hlt i j x y Hi Hj Hij). unfold keyLe. lia.
  - by rewrite merge_sort_Permutation.
Qed.

(** ** Loading the rows *)

Section loading.
Context `{CR : Crypto} (p : Params).

(** The slot holds the node of the row. *)
Definition rowSlot (H : heap) (o : option ptr) (r : BlockHeader * Z) : Prop :=
  ∃ q nd, o = Some q ∧ H !! q = Some nd ∧ Header H nd = r.1 ∧ bn_hash nd = BlockHash r.1 ∧ bn_status nd = r.2.

(** The rows so far are a branch, which is the tree. *)
Record loaded (b0 b : BlockChain) (rs : list (BlockHeader * Z)) (last : option ptr) : Prop := {
  lo_same : b = set_index (bc_heap b) (bc_index b) (bc_dirty b0) b0;
  lo_tree : tree_ok (bc_heap b);
  lo_index h q : bc_index b !! h = Some q → ∃ nd, bc_heap b !! q = Some nd ∧ bn_hash nd = h;
  lo_node q nd : bc_heap b !! q = Some nd → bc_index b !! bn_hash nd = Some q;
  lo_last t : last = Some t → is_Some (bc_heap b !! t);
  lo_view : Forall2 (rowSlot (bc_heap b)) (default [] (view_of (bc_heap b) <$> last)) rs;
  lo_all q nd : bc_heap b !! q = Some nd → Some q ∈ default [] (view_of (bc_heap b) <$> last) }.

Definition rowHash (r : BlockHeader * Z) : bytes := BlockHash r.1.

(** Each row's parent is the row before. *)
Fixpoint rowsLinked (prev : bytes) (rs : list (BlockHeader * Z)) : Prop :=
  match rs with
  | [] => True
  | r :: rs => PrevBlock r.1 = prev ∧ rowsLinked (rowHash r) rs
  end.

Lemma loaded_fresh b0 b rs last h :
  loaded b0 b rs last → h ∉ rowHash <$> rs → bc_index b !! h = None.
Proof.
  intros HL Hn. apply eq_None_not_Some. intros [q Hq]. destruct (lo_index _ _ _ _ HL h q Hq) as (nd&Hnd&<-).
  pose proof (lo_all _ _ _ _ HL q nd Hnd) as (i&Hi)%list_elem_of_lookup.
  destruct (Forall2_lookup_l _ _ _ _ _ (lo_view _ _ _ _ HL) Hi) as (r&Hr&q'&nd'&[= <-]&Hnd'&_&E&_). simplify_eq.
  apply Hn. rewrite E. apply (list_elem_of_fmap_2 rowHash). by eapply list_elem_of_lookup_2.
Qed.

(** The last node is the last row's, and as high as there are rows. *)
Lemma loaded_last b0 b rs t td :
  loaded b0 b rs (Some t) → bc_heap b !! t = Some td →
  bn_height td + 1 = Z.of_nat (length rs) ∧ ∃ r, last rs = Some r ∧ bn_hash td = rowHash r.
Proof.
  intros HL Ht. pose proof (lo_view _ _ _ _ HL) as Hv. change (Forall2 (rowSlot (bc_heap b)) (view_of (bc_heap b) t) rs) in Hv.
  pose proof (Forall2_length _ _ _ Hv) as Hlen. rewrite (view_of_length _ t td Ht) in Hlen.
  pose proof (tree_height _ (lo_tree _ _ _ _ HL) _ _ Ht). split; [lia|].
  destruct (Forall2_lookup_l _ _ _ (Z.to_nat (bn_height td)) (Some t) Hv) as (r&Hr&q&nd&[= <-]&Hq&_&E&_).
  { rewrite (view_of_lookup _ t td) by (done || lia). by rewrite Nat.sub_diag. }
  simplify_eq. exists r. split; [|done]. rewrite last_lookup, <- Hlen. done.
Qed.

(** One more row. *)
Lemma loaded_step b0 b rs last h st q nd :
  loaded b0 b rs last → made_from (bc_heap b) h last nd → bc_heap b !! q = None →
  tree_ok (<[q := nd]> (bc_heap b)) → BlockHash h ∉ rowHash <$> rs →
  PrevBlock h = match last ≫= fun r => bc_heap b !! r with Some rd => bn_hash rd | None => zeroHash end →
  (last = None → bc_heap b = ∅) →
  loaded b0 (addNode q (setStatus nd st) b) (rs ++ [(h, st)]) (Some q).
Proof.
  intros HL Hmade Hq WF Hn Hprev Hroot. set (nd' := setStatus nd st). set (H' := <[q := nd']> (bc_heap b)).
  assert (same_shape (<[q := nd]> (bc_heap b)) H') as HS.
  { intros q'. unfold H'. destruct (decide (q = q')) as [<-|]; [by rewrite !lookup_insert_eq|by rewrite !lookup_insert_ne]. }
  pose proof (tree_ok_shape _ _ HS WF) as WF'. pose proof (lo_tree _ _ _ _ HL) as WF0.
  assert (grows (bc_heap b) H') as HG.
  { intros q' qd Hq'. exists (bn_status qd). unfold H'. rewrite lookup_insert_ne by congruence. rewrite Hq'. by destruct qd. }
  assert (H' !! q = Some nd') as Hq' by apply lookup_insert_eq.
  assert (view_of H' q = default [] (view_of (bc_heap b) <$> last) ++ [Some q]) as Ev.
  { destruct last as [t|]; simpl.
    - rewrite (view_of_child _ WF' q nd' t Hq' (mf_parent _ _ _ _ Hmade)). f_equal.
      apply view_of_grows; [done..|by apply (lo_last _ _ _ _ HL)].
    - unfold view_of. rewrite Hq'. cbn [nd' setStatus bn_height].
      destruct (mf_root _ _ _ _ Hmade eq_refl) as [-> _]. done. }
  pose proof (loaded_fresh _ _ _ _ _ HL Hn) as Hi.
  assert (bn_hash nd' = BlockHash h) as Eh by apply (mf_hash _ _ _ _ Hmade).
  split; cbn [addNode set_index bc_heap bc_index]; fold H'; rewrite ?Ev; cbn [fmap option_fmap option_map default]; rewrite ?Ev.
  - rewrite (lo_same _ _ _ _ HL). done.
  - done.
  - intros h' q'. rewrite lookup_insert_Some. intros [[<- <-]|[Hne Hx]]; [by exists nd'|].
    destruct (lo_index _ _ _ _ HL h' q' Hx) as (xd&Hxd&<-). exists xd. unfold H'. by rewrite lookup_insert_ne by congruence.
  - intros q' qd. unfold H'. rewrite lookup_insert_Some. intros [[<- <-]|[Hne Hx]]; [apply lookup_insert_eq|].
    pose proof (lo_node _ _ _ _ HL q' qd Hx) as Hidx. rewrite lookup_insert_ne by congruence. done.
  - intros t [= <-]. by eexists.
  - apply Forall2_app.
    + eapply Forall2_impl; [apply (lo_view _ _ _ _ HL)|]. intros o r (q1&nd1&->&Hq1&E1&E2&E3). exists q1, nd1.
      unfold H'. rewrite lookup_insert_ne by congruence. split_and!; [done..| |done|done].
      by rewrite (Header_insert _ q nd' q1).
    + constructor; [|done]. exists q, nd'. split_and!; [done..| |done|done].
      by apply (Header_made (bc_heap b) h last nd q).
  - intros q' qd. unfold H'. rewrite lookup_insert_Some. intros [[<- _]|[Hne Hx]]; [set_solver|].
    apply elem_of_app. left. by apply (lo_all _ _ _ _ HL q' qd).
Qed.

(** The hash the next row has to name. *)
Definition lastHash (rs : list (BlockHeader * Z)) : bytes := match last rs with Some r => rowHash r | None => zeroHash end.

Lemma okrun_nodeAt {A} (f : blockNode → Ch A) b q nd Q :
  bc_heap b !! q = Some nd → okrun (f nd) b Q → okrun (nodeAt q ≫= f) b Q.
Proof. intros Hq Hf. by apply (run_nodeAt _ _ _ nd). Qed.

Lemma parentFor_ok b0 b rs last h :
  loaded b0 b rs last → PrevBlock h = lastHash rs → (rs = [] → BlockHash h = GenesisHash p) →
  okrun (parentFor p h last) b (fun parent b' => parent = last ∧ b' = b).
Proof.
  intros HL Hprev Hg. unfold parentFor. destruct last as [t|].
  - destruct (lo_last _ _ _ _ HL t eq_refl) as [td Ht]. destruct (loaded_last _ _ _ _ _ HL Ht) as [_ (r&Er&Eh)].
    apply (okrun_nodeAt _ _ _ td); [done|]. unfold lastHash in Hprev. rewrite Er in Hprev.
    rewrite bool_decide_true by congruence. apply run_ret. by eexists.
  - pose proof (lo_view _ _ _ _ HL) as Hv. apply Forall2_nil_inv_l in Hv as ->.
    apply okrun_ensure; [by apply bool_decide_eq_true, Hg|]. apply run_ret. by eexists.
Qed.

Lemma lastHash_loaded b0 b rs last :
  loaded b0 b rs last →
  lastHash rs = match last ≫= fun r => bc_heap b !! r with Some rd => bn_hash rd | None => zeroHash end.
Proof.
  intros HL. destruct last as [t|].
  - destruct (lo_last _ _ _ _ HL t eq_refl) as [td Ht]. destruct (loaded_last _ _ _ _ _ HL Ht) as [_ (r&Er&Eh)].
    simpl. by rewrite Ht, Eh; unfold lastHash; rewrite Er.
  - pose proof (lo_view _ _ _ _ HL) as Hv. by apply Forall2_nil_inv_l in Hv as ->.
Qed.

(** Rows that are linked from the genesis block on are loaded. *)
Lemma loadRows_ok b0 rest b rs last :
  loaded b0 b rs last → rowsLinked (lastHash rs) rest → (∀ r, head (rs ++ rest) = Some r → rowHash r = GenesisHash p) →
  NoDup (rowHash <$> rs ++ rest) → Z.of_nat (length (rs ++ rest)) ≤ 2147483648 →
  okrun (loadRows p rest last) b (fun _ b' => ∃ last', loaded b0 b' (rs ++ rest) last').
Proof.
  revert b rs last; induction rest as [|[h st] rest IH]; intros b rs last HL Hlk Hg Hnd Hlen.
  { rewrite app_nil_r. apply run_ret. eexists. split; [done|]. by exists last. }
  destruct Hlk as [Hprev Hlk]. change (PrevBlock h = lastHash rs) in Hprev. cbn [loadRows]. apply okrun_bind. eapply okrun_mono.
  { apply (parentFor_ok b0 b rs last h HL Hprev). intros ->. by apply (Hg (h, st)). }
  intros parent b' [-> ->].
  destruct (newBlockNode_ok (bc_heap b) h last) as (q&nd&Enew&Hq&Hmade&WF).
  { apply (lo_tree _ _ _ _ HL). }
  { intros t ->. destruct (lo_last _ _ _ _ HL t eq_refl) as [td Ht]. exists td. split; [done|].
    destruct (loaded_last _ _ _ _ _ HL Ht) as [Eht _]. rewrite length_app in Hlen. simpl in Hlen. lia. }
  apply okrun_bind. unfold okrun at 1, run at 1, onHeap. rewrite Enew. eexists. split; [done|].
  apply (okrun_nodeAt _ _ _ nd); [apply lookup_insert_eq|]. apply okrun_bind, run_ret. eexists. split; [done|].
  assert (addNode q (setStatus nd st) (set_index (<[q := nd]> (bc_heap b)) (bc_index b) (bc_dirty b) b) =
          addNode q (setStatus nd st) b) as ->.
  { unfold addNode, set_index. simpl. by rewrite insert_insert_eq. }
  assert (rs ++ (h, st) :: rest = (rs ++ [(h, st)]) ++ rest) as Eapp by by rewrite <- app_assoc.
  rewrite Eapp in *. apply IH; try done.
  - eapply loaded_step; try done.
    + rewrite fmap_app, fmap_app in Hnd. apply NoDup_app in Hnd as [Hnd _]. apply NoDup_app in Hnd as (_&Hnd&_).
      intros Hin. apply (Hnd _ Hin). apply list_elem_of_here.
    + by rewrite Hprev, (lastHash_loaded _ _ _ _ HL).
    + intros ->. apply map_empty. intros q'. apply eq_None_not_Some. intros [xd Hx].
      apply (lo_all _ _ _ _ HL) in Hx. set_solver.
  - unfold lastHash. by rewrite last_snoc.
Qed.

(** The row a node left behind. *)
Definition storedRow (H : heap) (rows : gmap bytes (BlockHeader * Z)) (o : option ptr) (r : BlockHeader * Z) : Prop :=
  ∃ q nd, o = Some q ∧ H !! q = Some nd ∧ rows !! nodeKey nd = Some r ∧ r.1 = Header H nd ∧
          (KnownInvalid (bn_status nd) = false → KnownInvalid r.2 = false).

Lemma nodeKey_hash nd nd' : nodeKey nd = nodeKey nd' → bn_hash nd = bn_hash nd'.
Proof.
  intros E. apply app_inj_1 in E as [_ E]; [done|]. by rewrite !length_reverse, !le_bytes_length.
Qed.

Context `{RT : GoRuntime} (PO : params_ok p) (CO : CryptoOk).

(** The rows of a chain that only grew, in order. *)
Lemma cursor_rows b g blks :
  linear_ok p b g blks → Z.of_nat (length blks) < 2147483647 →
  Forall2 (storedRow (bc_heap b) (db_nodes (bc_db b))) (bc_best b) (cursor (db_nodes (bc_db b))).
Proof.
  intros HL Hlen. pose proof (ln_chain _ _ _ _ HL) as (HF&_). destruct (fk_tip _ _ _ _ HF) as (t&td&Ht&Ev&_).
  pose proof (fk_tree _ _ _ _ HF) as WF. pose proof (fk_rows _ _ _ _ HF) as HR.
  destruct (frame_tip p b g blks t td HF Ht Ev) as [Eht _].
  destruct (Forall2_choose (fun o (x : bytes * (BlockHeader * Z)) =>
    ∃ q nd, o = Some q ∧ bc_heap b !! q = Some nd ∧ x.1 = nodeKey nd ∧ db_nodes (bc_db b) !! x.1 = Some x.2 ∧
      x.2.1 = Header (bc_heap b) nd ∧ (KnownInvalid (bn_status nd) = false → KnownInvalid x.2.2 = false)) (bc_best b))
    as (krs&Hk).
  { intros o Ho. apply list_elem_of_lookup in Ho as Hi. destruct Hi as [i Hi].
    destruct (Forall2_lookup_l _ _ _ _ _ (fk_chain _ _ _ _ HF) Hi) as (z&_&q&nd&->&Hq&_).
    destruct (fk_rowed _ _ _ _ HF q nd Ho Hq) as [[hdr st] Hrow].
    destruct (rw_sound _ HR _ _ _ Hrow) as (q'&nd'&Hq'&Ek&->&Hst).
    assert (q' = q) as ->. { eapply (frame_distinct _ _ _ _ HF); [done..|symmetry; by apply nodeKey_hash]. }
    simplify_eq. exists (nodeKey nd, (Header (bc_heap b) nd, st)), q, nd. done. }
  rewrite (cursor_sorted _ krs).
  - rewrite Forall2_fmap_r. eapply Forall2_impl; [exact Hk|]. intros o x (q&nd&->&Hq&Ek&Hrow&E1&E2). exists q, nd.
    by rewrite <- Ek.
  - intros [k [hdr st]]. split.
    + intros [i Hi]%list_elem_of_lookup. destruct (Forall2_lookup_r _ _ _ _ _ Hk Hi) as (o&_&q&nd&_&_&_&Hrow&_). done.
    + intros Hrow. simpl in Hrow. destruct (rw_sound _ HR _ _ _ Hrow) as (q&nd&Hq&->&_).
      pose proof (ln_all _ _ _ _ HL q nd Hq) as [i Hi]%list_elem_of_lookup.
      destruct (Forall2_lookup_l _ _ _ _ _ Hk Hi) as ([k' v]&Hx&q'&nd'&[= <-]&Hq'&Ek&Hrow'&_). simpl in *. simplify_eq.
      by eapply list_elem_of_lookup_2.
  - intros i j x y Hi Hj Hij.
    destruct (Forall2_lookup_r _ _ _ _ _ Hk Hi) as (o&Ho&q&nd&->&Hq&->&_).
    destruct (Forall2_lookup_r _ _ _ _ _ Hk Hj) as (o'&Ho'&q'&nd'&->&Hq'&->&_).
    rewrite Ev in Ho, Ho'. pose proof (view_of_length _ t td Ht) as Hvl. apply lookup_lt_Some in Ho as Hi', Ho' as Hj'.
    rewrite (view_of_lookup _ t td) in Ho, Ho' by (done || lia). injection Ho as Ho. injection Ho' as Ho'.
    destruct (walk_Some _ WF _ _ _ _ Ht Ho) as (xd&Hxd&Ehx), (walk_Some _ WF _ _ _ _ Ht Ho') as (yd&Hyd&Ehy).
    simplify_eq. pose proof (tree_height _ WF _ _ Hq).
    eapply nodeKey_lt; [by apply (fk_header _ _ _ _ HF q)|by apply (fk_header _ _ _ _ HF q')|lia|lia].
Qed.

(** The nodes of a branch, by height. *)
Lemma view_of_at H t td i q nd :
  tree_ok H → H !! t = Some td → view_of H t !! i = Some (Some q) → H !! q = Some nd → bn_height nd = Z.of_nat i.
Proof.
  intros WF Ht Hi Hq. pose proof (lookup_lt_Some _ _ _ Hi) as Hlt. rewrite (view_of_length _ t td Ht) in Hlt.
  rewrite (view_of_lookup _ t td) in Hi by (done || lia). injection Hi as Hi.
  destruct (walk_Some _ WF _ _ _ _ Ht Hi) as (xd&Hx&Eh). simplify_eq. pose proof (tree_height _ WF _ _ Ht). lia.
Qed.

Lemma view_of_parent H t td i q nd a :
  H !! t = Some td → view_of H t !! S i = Some (Some q) → H !! q = Some nd → bn_parent nd = Some a →
  view_of H t !! i = Some (Some a).
Proof.
  intros Ht Hi Hq Ea. pose proof (lookup_lt_Some _ _ _ Hi) as Hlt. rewrite (view_of_length _ t td Ht) in Hlt.
  rewrite (view_of_lookup _ t td) in Hi |- * by (done || lia). injection Hi as Hi.
  replace (Z.to_nat (bn_height td) - i)%nat with ((Z.to_nat (bn_height td) - S i) + 1)%nat by lia.
  rewrite walk_app, Hi. simpl. by rewrite Hq; simpl; rewrite Ea.
Qed.

Lemma rowsLinked_lookup prev rs :
  (∀ i r, rs !! i = Some r → PrevBlock r.1 = default prev (rowHash <$> match i with O => None | S j => rs !! j end)) →
  rowsLinked prev rs.
Proof.
  revert prev; induction rs as [|r rs IH]; intros prev Hl; [done|]. split; [by apply (Hl O)|].
  apply IH. intros [|i] r' Hr'; [by apply (Hl 1%nat)|]. rewrite (Hl (S (S i)) r' Hr'). simpl.
  destruct (rs !! i) eqn:E; [done|]. apply lookup_ge_None in E. apply lookup_lt_Some in Hr'. lia.
Qed.

Section rows.
Context (b : BlockChain) (g : MsgBlock) (blks : list MsgBlock) (rs : list (BlockHeader * Z)).
Context (HL : linear_ok p b g blks) (Hrs : Forall2 (storedRow (bc_heap b) (db_nodes (bc_db b))) (bc_best b) rs).

Lemma stored_at i r :
  rs !! i = Some r → ∃ q nd, bc_best b !! i = Some (Some q) ∧ bc_heap b !! q = Some nd ∧ bn_height nd = Z.of_nat i ∧
    db_nodes (bc_db b) !! nodeKey nd = Some r ∧ r.1 = Header (bc_heap b) nd ∧ rowHash r = bn_hash nd ∧
    (KnownInvalid (bn_status nd) = false → KnownInvalid r.2 = false).
Proof.
  intros Hi. pose proof (ln_chain _ _ _ _ HL) as (HF&_). destruct (fk_tip _ _ _ _ HF) as (t&td&Ht&Ev&_).
  destruct (Forall2_lookup_r _ _ _ _ _ Hrs Hi) as (o&Ho&q&nd&->&Hq&Hrow&Eh&Hst). exists q, nd. split_and!; try done.
  - rewrite Ev in Ho. eapply (view_of_at _ t td); [apply HF|done..].
  - unfold rowHash. rewrite Eh. symmetry. by apply (fk_header _ _ _ _ HF q).
Qed.

Lemma stored_linked : rowsLinked zeroHash rs.
Proof.
  apply rowsLinked_lookup. intros i r Hi. destruct (stored_at i r Hi) as (q&nd&Ho&Hq&Eh&_&->&_).
  pose proof (ln_chain _ _ _ _ HL) as (HF&_). destruct (fk_tip _ _ _ _ HF) as (t&td&Ht&Ev&_).
  pose proof (tree_node _ (fk_tree _ _ _ _ HF) _ _ Hq) as HN. unfold Header. cbn [PrevBlock].
  destruct (bn_parent nd) as [a|] eqn:Ea; simpl.
  - destruct (nk_parent _ _ _ HN a Ea) as (ad&Ha&Eha&_). rewrite Ha.
    destruct i as [|i]; [pose proof (tree_height _ (fk_tree _ _ _ _ HF) _ _ Ha); lia|].
    pose proof (lookup_lt_Some _ _ _ Hi) as Hlt. destruct (lookup_lt_is_Some_2 rs i) as [r' Hr']; [lia|].
    rewrite Hr'. simpl. destruct (stored_at i r' Hr') as (q'&nd'&Ho'&Hq'&Eh'&_&_&->&_). f_equal.
    rewrite Ev in Ho, Ho'. pose proof (view_of_parent _ t td i q nd a Ht Ho Hq Ea). congruence.
  - destruct (nk_root _ _ _ HN Ea) as [E0 _]. rewrite E0 in Eh. destruct i as [|i]; [done|lia].
Qed.

Lemma stored_hashes : NoDup (rowHash <$> rs).
Proof.
  apply NoDup_alt. intros i j h Hi Hj. apply list_lookup_fmap_Some in Hi as (r&->&Hi), Hj as (r'&E&Hj).
  destruct (stored_at i r Hi) as (q&nd&_&Hq&Eh&_&_&Er&_), (stored_at j r' Hj) as (q'&nd'&_&Hq'&Eh'&_&_&Er'&_).
  pose proof (ln_chain _ _ _ _ HL) as (HF&_).
  assert (q = q') as <- by (eapply (frame_distinct _ _ _ _ HF); [done..|congruence]). simplify_eq. lia.
Qed.

Lemma stored_length : length rs = S (length blks).
Proof.
  pose proof (ln_chain _ _ _ _ HL) as (HF&_). rewrite <- (Forall2_length _ _ _ Hrs).
  by rewrite (Forall2_length _ _ _ (fk_chain _ _ _ _ HF)).
Qed.

Lemma stored_block i r : rs !! i = Some r → ∃ blk, (g :: blks) !! i = Some blk ∧ rowHash r = BlockHash (bl_Header blk).
Proof.
  intros Hi. destruct (stored_at i r Hi) as (q&nd&Ho&Hq&_&_&_&->&_). pose proof (ln_chain _ _ _ _ HL) as (HF&_).
  destruct (Forall2_lookup_l _ _ _ _ _ (fk_chain _ _ _ _ HF) Ho) as (blk&Hb&q'&nd'&[= <-]&Hq'&E). simplify_eq. eauto.
Qed.

(** The loaded nodes are the stored ones. *)
Section reloaded.
Context (b0 b1 : BlockChain) (t : ptr) (td : blockNode).
Context (HLo : loaded b0 b1 rs (Some t)) (Ht : bc_heap b1 !! t = Some td).

Lemma matched_at i q' nd' :
  view_of (bc_heap b1) t !! i = Some (Some q') → bc_heap b1 !! q' = Some nd' →
  ∃ q nd, bc_best b !! i = Some (Some q) ∧ bc_heap b !! q = Some nd ∧ bn_hash nd' = bn_hash nd ∧ nodeKey nd' = nodeKey nd ∧
    bn_hash nd' = BlockHash (Header (bc_heap b1) nd') ∧
    db_nodes (bc_db b) !! nodeKey nd' = Some (Header (bc_heap b1) nd', bn_status nd') ∧
    (KnownInvalid (bn_status nd) = false → KnownInvalid (bn_status nd') = false).
Proof.
  intros Hi Hq'. pose proof (lo_view _ _ _ _ HLo) as Hv.
  destruct (Forall2_lookup_l _ _ _ _ _ Hv Hi) as ([hdr st]&Hr&q1&nd1&[= <-]&Hq1&E1&E2&E3). simplify_eq. simpl in *.
  destruct (stored_at i _ Hr) as (q&nd&Ho&Hq&Eh&Hrow&Ehd&Ehash&Hst). exists q, nd. unfold rowHash in Ehash. simpl in *.
  assert (bn_hash nd' = bn_hash nd) as Ehh by congruence.
  assert (nodeKey nd' = nodeKey nd) as Ek.
  { unfold nodeKey. rewrite Ehh, Eh. f_equal. eapply view_of_at; [apply (lo_tree _ _ _ _ HLo)|exact Ht|done..]. }
  split_and!; [done..|congruence|by rewrite Ek, Hrow, E1, <- E3|by rewrite E3].
Qed.

(** A stored node is found again. *)
Lemma matched_node q nd :
  bc_heap b !! q = Some nd → ∃ i q' nd', view_of (bc_heap b1) t !! i = Some (Some q') ∧ bc_heap b1 !! q' = Some nd' ∧
    bn_hash nd' = bn_hash nd ∧ nodeKey nd' = nodeKey nd.
Proof.
  intros Hq. pose proof (ln_chain _ _ _ _ HL) as (HF&_). pose proof (ln_all _ _ _ _ HL q nd Hq) as [i Hi]%list_elem_of_lookup.
  destruct (Forall2_lookup_l _ _ _ _ _ Hrs Hi) as (r&Hr&_).
  destruct (Forall2_lookup_r _ _ _ _ _ (lo_view _ _ _ _ HLo) Hr) as (o&Ho&q'&nd'&->&Hq'&_). exists i, q', nd'.
  destruct (matched_at i q' nd' Ho Hq') as (q2&nd2&Ho2&Hq2&E1&E2&_). rewrite Hi in Ho2. injection Ho2 as <-.
  rewrite Hq in Hq2. injection Hq2 as <-. done.
Qed.

Lemma matched_index h : is_Some (bc_index b !! h) → is_Some (bc_index b1 !! h).
Proof.
  intros [q Hq]. pose proof (ln_chain _ _ _ _ HL) as (HF&_). destruct (fk_node _ _ _ _ HF h q Hq) as (nd&Hnd&<-).
  destruct (matched_node q nd Hnd) as (i&q'&nd'&_&Hq'&<-&_). rewrite (lo_node _ _ _ _ HLo q' nd' Hq'). by eexists.
Qed.

Lemma reloaded_frame state :
  bc_db b0 = bc_db b → bc_orphans b0 = ∅ → bc_prevOrphans b0 = ∅ →
  bc_vb b0 = mkCaches (newThresholdCaches (length (p_Deployments (p_Deploy p)))) (newThresholdCaches vbNumBits) false →
  Z.of_nat (length blks) < 2147483647 → bc_best b0 = [] →
  bs_Hash state = bn_hash td → bs_Height state = bn_height td → bs_TotalTxns state = bs_TotalTxns (bc_snapshot b) →
  frame_ok p (putSnapshot state (putTip t b1)) g blks ∧ bc_best (putTip t b1) = view_of (bc_heap b1) t.
Proof.
  intros Edb Eor Epr Evb Hlen Ebe Es1 Es2 Es3. pose proof (ln_chain _ _ _ _ HL) as (HF&_).
  pose proof (lo_tree _ _ _ _ HLo) as WF. destruct (loaded_last _ _ _ _ _ HLo Ht) as [Eht _]. rewrite stored_length in Eht.
  pose proof (lo_same _ _ _ _ HLo) as Eb1. assert (bc_best b1 = []) as Ebe1 by (rewrite Eb1; exact Ebe).
  assert (setTip (bc_heap b1) (bc_best b1) (Some t) = view_of (bc_heap b1) t) as Ev.
  { rewrite Ebe1. eapply setTip_view; [done..|lia|by left]. }
  assert (∀ q nd, bc_heap b1 !! q = Some nd → ∃ i, view_of (bc_heap b1) t !! i = Some (Some q)) as Hall.
  { intros q nd Hq. by apply list_elem_of_lookup, (lo_all _ _ _ _ HLo q nd). }
  assert (bc_db b1 = bc_db b) as Edb1 by (rewrite Eb1; exact Edb).
  split; [|exact Ev]. split; cbn [putSnapshot putTip set_best bc_heap bc_index bc_db bc_vb bc_snapshot bc_orphans bc_prevOrphans bc_best];
    rewrite ?Ev, ?Edb1; try by rewrite Eb1.
  - apply (lo_index _ _ _ _ HLo).
  - apply (lo_node _ _ _ _ HLo).
  - intros q nd Hq. destruct (Hall q nd Hq) as (i&Hi). destruct (matched_at i q nd Hi Hq) as (q0&nd0&_&Hq0&->&_).
    by apply (fk_stored _ _ _ _ HF q0).
  - intros h blk [E Hi]%(fk_blocks _ _ _ _ HF). split; [done|]. by apply matched_index.
  - apply (fk_held _ _ _ _ HF).
  - rewrite Eb1. cbn. rewrite Evb. apply coherent_blank.
  - by exists t, td.
  - apply Forall2_same_length_lookup. split.
    { etrans; [exact (Forall2_length _ _ _ (lo_view _ _ _ _ HLo))|exact stored_length]. }
    intros i o blk Hi Hb. destruct (Forall2_lookup_l _ _ _ _ _ (lo_view _ _ _ _ HLo) Hi) as (r&Hr&q&nd&->&Hq&_&E&_).
    exists q, nd. split_and!; [done..|]. destruct (stored_block i r Hr) as (blk'&Hb'&E'). unfold rowHash in E'. congruence.
  - destruct (fk_best _ _ _ _ HF) as [work Ew]. exists work. rewrite Ew. unfold dbPutBestState.
    destruct (fk_tip _ _ _ _ HF) as (t0&td0&Ht0&Ev0&Eh0&Ehh0). rewrite Es1, Es2, Es3, Eh0, Ehh0.
    destruct (frame_tip p b g blks t0 td0 HF Ht0 Ev0) as [E1 E2].
    destruct (matched_at (length blks) t td) as (q&nd&Ho&Hq&E3&_); [|done|].
    + rewrite (view_of_lookup _ t td) by (done || lia). by replace (_ - _)%nat with O by lia.
    + rewrite Ev0, (view_of_lookup _ t0 td0) in Ho by (done || lia). replace (_ - _)%nat with O in Ho by lia.
      injection Ho as <-. simplify_eq. rewrite E3. do 2 f_equal. lia.
  - intros h Hh%(fk_heights _ _ _ _ HF). by apply matched_index.
  - split; cbn [putSnapshot putTip set_best bc_heap bc_db bc_dirty]; rewrite Edb1.
    + intros k hdr st Hk. destruct (rw_sound _ (fk_rows _ _ _ _ HF) _ _ _ Hk) as (q&nd&Hq&->&_).
      destruct (matched_node q nd Hq) as (i&q'&nd'&Hi&Hq'&_&Ek). exists q', nd'.
      destruct (matched_at i q' nd' Hi Hq') as (q2&nd2&_&_&_&_&_&Hrow&_). rewrite Ek, Hk in Hrow. injection Hrow as -> ->. done.
    + intros q nd Hq _. destruct (Hall q nd Hq) as (i&Hi). destruct (matched_at i q nd Hi Hq) as (?&?&_&_&_&_&_&->&_). by eexists.
  - intros q nd _ Hq. destruct (Hall q nd Hq) as (i&Hi). destruct (matched_at i q nd Hi Hq) as (?&?&_&_&_&_&_&->&_). by eexists.
  - intros q nd Hq. destruct (Hall q nd Hq) as (i&Hi). by destruct (matched_at i q nd Hi Hq) as (?&?&_&_&_&_&->&_).
Qed.

(** The last node is the tip, *)
Lemma reloaded_tip : bn_height td = Z.of_nat (length blks) ∧ bn_hash td = tipOf g blks.
Proof.
  destruct (loaded_last _ _ _ _ _ HLo Ht) as [Eht (r&Er&Eth)]. rewrite stored_length in Eht. split; [lia|].
  rewrite last_lookup, stored_length in Er. simpl in Er. destruct (stored_block _ r Er) as (blk&Hblk&Erb).
  rewrite cons_last in Hblk. unfold tipOf. congruence.
Qed.

(** which was not invalid. *)
Lemma reloaded_live : bc_best (putTip t b1) = view_of (bc_heap b1) t → live (putTip t b1).
Proof.
  intros Ev t' td'. rewrite Ev, (view_of_tip _ t td Ht). intros [= <-] Ht'. simpl in Ht'. simplify_eq.
  destruct reloaded_tip as [Eht _]. pose proof (ln_chain _ _ _ _ HL) as (HF&_).
  destruct (matched_at (length blks) t td) as (q&nd&Ho&Hq&_&_&_&_&Hst); [|done|].
  - rewrite (view_of_lookup _ t td) by (done || lia). by replace (_ - _)%nat with O by lia.
  - apply Hst. apply (ln_live _ _ _ _ HL q nd); [|done]. unfold view_tip. rewrite last_lookup.
    rewrite (Forall2_length _ _ _ (fk_chain _ _ _ _ HF)). simpl pred. by rewrite Ho.
Qed.

End reloaded.
End rows.

(** Marking a node valid does not make it invalid. *)
Lemma live_valid q b : live b → live (SetStatusFlags q statusValid b).
Proof.
  intros Hl t td. unfold SetStatusFlags. destruct (bc_heap b !! q) as [nd|] eqn:Hq; [|apply Hl].
  cbn [set_index bc_best bc_heap]. intros Et. rewrite lookup_insert_Some. intros [[-> <-]|[_ Ht]]; [|by eapply Hl].
  specialize (Hl t nd Et Hq). unfold KnownInvalid in *. cbn [setStatus bn_status].
  rewrite negb_false_iff, Z.eqb_eq in *. by rewrite Z.land_lor_distr_l, Hl.
Qed.

Lemma markAncestors_idle fuel o b :
  idle b (markAncestors fuel o b) ∧ bc_utxo (markAncestors fuel o b) = bc_utxo b ∧ (live b → live (markAncestors fuel o b)).
Proof.
  revert o b; induction fuel as [|fuel IH]; intros o b; [done|]. cbn [markAncestors].
  destruct (o ≫= _) as [[q nd]|]; [|done]. destruct (KnownValid _); [apply IH|].
  destruct (IH (bn_parent nd) (SetStatusFlags q statusValid b)) as (HI&Eu&Hl). split_and!.
  - etrans; [apply idle_SetStatusFlags|done].
  - by rewrite Eu, SetStatusFlags_utxo.
  - intros Hb. by apply Hl, live_valid.
Qed.

Lemma idle_putSnapshot state b b' : idle b b' → idle (putSnapshot state b) (putSnapshot state b').
Proof. intros [? ? ? ? ? ? Hr ? ? ? ? ? ? ?]. split; try done. intros HR. by destruct Hr as [? ?]; [by destruct HR|split]. Qed.

Definition allOnBest (b : BlockChain) : Prop := ∀ q nd, bc_heap b !! q = Some nd → Some q ∈ bc_best b.

Lemma all_idle b b' : idle b b' → allOnBest b → allOnBest b'.
Proof.
  intros HI Hall q nd Hq. rewrite (id_view _ _ HI).
  assert (same_shape (bc_heap b') (bc_heap b)) as HS by (symmetry; apply (id_shape _ _ HI)).
  destruct (same_shape_lookup _ _ q nd HS Hq) as [st Hq']. by apply (Hall q _ Hq').
Qed.

Lemma live_heap b b' : bc_heap b' = bc_heap b → bc_best b' = bc_best b → live b → live b'.
Proof. intros E1 E2 Hl. unfold live. rewrite E1, E2. exact Hl. Qed.

(** The chain as it was stored, coins aside. *)
Lemma loadChainState_ok b g blks maxE rooms fulls :
  linear_ok p b g blks → Z.of_nat (length blks) < 2147483647 → ∀ state, db_best (bc_db b) = Some state →
  let b0 := blank p (diskOf b) maxE rooms fulls [] in
  okrun (loadChainState p state) b0 (fun _ b' =>
    frame_ok p b' g blks ∧ live b' ∧ allOnBest b' ∧ bc_utxo b' = bc_utxo b0).
Proof.
  intros HL Hlen state Est b0. pose proof (ln_chain _ _ _ _ HL) as (HF&_). assert (calm (bc_utxo b0)) as Hc by done.
  unfold loadChainState. apply okrun_bind. unfold okrun at 1, run at 1. rewrite dbView_calm by done. eexists. split; [done|].
  apply run_get. change (bc_db b0) with (bc_db b). pose proof (cursor_rows b g blks HL Hlen) as Hrs.
  set (rs := cursor (db_nodes (bc_db b))) in *. pose proof (stored_length b g blks rs HL Hrs) as Hrl.
  apply okrun_bind. eapply okrun_mono.
  { apply (loadRows_ok b0 rs b0 [] None).
    - by split.
    - by eapply stored_linked.
    - intros r Hr. simpl in Hr. rewrite head_lookup in Hr. destruct (stored_block b g blks rs HL Hrs 0 r Hr) as (blk&[= <-]&E).
      by rewrite E, (ln_genesis _ _ _ _ HL).
    - by eapply stored_hashes.
    - simpl. rewrite Hrl. lia. }
  intros _ b1 (last&HLo). simpl in HLo. destruct last as [t|]; cycle 1.
  { pose proof (lo_view _ _ _ _ HLo) as Hv. apply Forall2_nil_inv_l in Hv. by rewrite Hv in Hrl. }
  destruct (lo_last _ _ _ _ HLo t eq_refl) as [td Ht].
  destruct (reloaded_tip b g blks rs HL Hrs b0 b1 t td HLo Ht) as [Eht Eth].
  destruct (fk_best _ _ _ _ HF) as [work Ew]. rewrite Ew in Est. injection Est as <-.
  pose proof (lo_same _ _ _ _ HLo) as Eb1. assert (bc_db b1 = bc_db b) as Edb1 by (rewrite Eb1; done).
  apply run_get. cbn [dbPutBestState bcs_hash bcs_totalTxns]. rewrite (frame_snapshot p b g blks HF), <- Eth. unfold LookupNode.
  rewrite (lo_node _ _ _ _ HLo t td Ht). apply (okrun_lift_bind _ _ _ _ t); [done|].
  apply okrun_bind, run_ret. eexists. split; [done|].
  rewrite Edb1, Eth. unfold tipOf at 1. rewrite (fk_held _ _ _ _ HF) by (eapply list_elem_of_lookup_2, cons_last).
  eapply okrun_lift_bind; [done|]. apply (okrun_nodeAt _ _ _ td); [done|].
  apply okrun_bind, run_ret. eexists. split; [done|]. apply run_get.
  set (b2 := markAncestors _ _ _). set (st := newBestState _ _ _ _ _). apply okrun_bind, run_ret. eexists. split; [done|].
  destruct (reloaded_frame b g blks rs HL Hrs b0 b1 t td HLo Ht st) as [HFr Ev]; [done..|].
  pose proof (reloaded_live b g blks rs HL Hrs b0 b1 t td HLo Ht Ev) as Hlive.
  destruct (markAncestors_idle (S (Z.to_nat (bn_height td))) (Some t) (putTip t b1)) as (HI2&Eu2&Hl2). fold b2 in HI2, Eu2, Hl2.
  assert (bc_utxo b2 = bc_utxo b0) as Eub by (rewrite Eu2, Eb1; done).
  eapply okrun_mono; [apply flushToDB_calm; by rewrite <- Eub in Hc|]. intros _ b3 (HI3&Eh3&Eu3).
  pose proof (idle_putSnapshot st _ _ HI2) as HI23. assert (idle (putSnapshot st (putTip t b1)) b3) as HI by by etrans.
  split_and!.
  - by eapply frame_idle.
  - eapply live_heap; [exact Eh3|apply (id_view _ _ HI3)|]. by apply Hl2.
  - eapply all_idle; [done|]. intros q nd Hq. change (Some q ∈ bc_best (putTip t b1)). rewrite Ev. by apply (lo_all _ _ _ _ HLo q nd).
  - by rewrite Eu3.
Qed.

End loading.

(** ** Replaying the blocks whose coins were not written *)

Lemma reps_new (maxE : Z) (db : gmap OutPoint coin) (consistent : option bytes) (rooms : list Z) (fulls failures : list bool)
    (K : gset bytes) :
  (∀ op, is_Some (db !! op) → Hash op ∈ K) → reps (newUtxoCache maxE db consistent rooms fulls failures) db K.
Proof.
  intros HK. split; [split|].
  - split; [|done]. intros op [e He]. by rewrite lookup_empty in He.
  - intros op e. cbn. by rewrite lookup_empty.
  - done.
  - intros op. apply entryAt_row. cbn. by rewrite lookup_empty.
Qed.

Section replay.
Context `{CR : Crypto} `{SE : ScriptEngine} `{RT : GoRuntime} (p : Params) (PO : params_ok p).

(** From the tip down to the fork. *)
Lemma replayNodes_spec H t td fork k :
  tree_ok H → H !! t = Some td → view_of H t !! k = Some (Some fork) →
  ∀ n q acc fuel, view_of H t !! (k + n)%nat = Some (Some q) → (n < fuel)%nat →
  ∃ l, replayNodes fuel H (Some q) fork acc = Ok (l ++ acc) ∧ length l = n ∧
    ∀ j q', l !! j = Some q' → view_of H t !! (k + S j)%nat = Some (Some q').
Proof.
  intros WF Ht Hf n. assert (∀ i q, view_of H t !! i = Some (Some q) → ∃ nd, H !! q = Some nd) as Hin.
  { intros i q Hi. pose proof (lookup_lt_Some _ _ _ Hi) as Hlt. rewrite (view_of_length _ t td Ht) in Hlt.
    rewrite (view_of_lookup _ t td) in Hi by (done || lia). injection Hi as Hi.
    destruct (walk_Some _ WF _ _ _ _ Ht Hi) as (nd&Hnd&_). by exists nd. }
  induction n as [|n IH]; intros q acc [|fuel] Hq Hlt; try lia; destruct (Hin _ _ Hq) as [nd Hnd];
    cbn [replayNodes]; cbn [from_option_err]; rewrite bind_Ok_l, Hnd; cbn [from_option_err]; rewrite bind_Ok_l;
    pose proof (view_of_at H t td _ q nd WF Ht Hq Hnd) as Eh; rewrite (proj2 (Z.ltb_ge _ _)) by lia.
  - rewrite Nat.add_0_r in Hq. rewrite Hf in Hq. injection Hq as ->. rewrite Nat.eqb_refl. by exists [].
  - destruct (Nat.eqb_spec q fork) as [->|_].
    { pose proof (view_of_at H t td _ fork nd WF Ht Hf Hnd). lia. }
    destruct (bn_parent nd) as [a|] eqn:Ea; cycle 1.
    { destruct (nk_root _ _ _ (tree_node _ WF _ _ Hnd) Ea). lia. }
    rewrite Nat.add_succ_r in Hq. pose proof (view_of_parent H t td _ q nd a Ht Hq Hnd Ea) as Ha.
    destruct (IH a (q :: acc) fuel Ha ltac:(lia)) as (l&El&Hl&Hat). exists (l ++ [q]).
    rewrite <- app_assoc, length_app, Hl. split_and!; [done|simpl; lia|].
    intros j q' Hj. apply lookup_app_Some in Hj as [Hj|[Hge Hj]]; [by apply Hat|].
    apply list_lookup_singleton_Some in Hj as [Hj <-]. rewrite <- Hq. f_equal. lia.
Qed.

Lemma findFork_on H t td k f :
  tree_ok H → H !! t = Some td → view_of H t !! k = Some (Some f) → findFork H (view_of H t) (Some f) = Some f.
Proof.
  intros WF Ht Hk. pose proof (lookup_lt_Some _ _ _ Hk) as Hlt. rewrite (view_of_length _ t td Ht) in Hlt.
  rewrite (view_of_lookup _ t td) in Hk by (done || lia). injection Hk as Hk.
  destruct (walk_Some _ WF _ _ _ _ Ht Hk) as (fd&Hf&_). pose proof (findFork_spec H WF t td f fd Ht Hf) as Hsp.
  destruct (findFork H _ (Some f)) as [f'|]; [|by destruct (Hsp f _ O Hk)].
  destruct Hsp as (_&(m&Hm)&Hmax). destruct (walk_Some _ WF _ _ _ _ Hf Hm) as (fd'&Hf'&Eh).
  pose proof (Hmax f fd fd' _ O Hk eq_refl Hf Hf'). assert (m = O) as -> by lia. simpl in Hm. congruence.
Qed.

(** The cache stands for the coins after [k] blocks, and the bucket for those
    of fewer. *)
Definition coinsUpTo (u : utxoCache) (g : MsgBlock) (blks : list MsgBlock) (k : nat) : Prop :=
  reps u (ledger g (take k blks)) (txids g (take k blks)) ∧
  ∃ j, (j ≤ k)%nat ∧ uc_db u = ledger g (take j blks) ∧ uc_consistent u = Some (tipOf g (take j blks)).

Lemma coins_replayed u g blks k blk :
  history_ok g blks → blks !! k = Some blk → coinsUpTo u g blks k → calm u →
  okrun (connectTransactions (bl_Transactions blk) (1 + Z.of_nat k)) u (fun _ u' =>
    okrun (flush FlushIfNeeded false (BlockHash (bl_Header blk))) u' (fun _ u' => coinsUpTo u' g blks (S k) ∧ calm u')).
Proof.
  intros HH Hk [HR Hfl] Hc. destruct (hi_applied _ _ HH k blk Hk) as (Hap&Hfr&_). unfold blockTxids in Hfr. rewrite Forall_fmap in Hfr.
  assert (take (S k) blks = take k blks ++ [blk]) as Etk by by apply take_S_r.
  assert (length (take k blks) = k) as Elen by (rewrite length_take; apply lookup_lt_Some in Hk; lia).
  pose proof (steady_connectTransactions (bl_Transactions blk) (1 + Z.of_nat k) u Hc) as Hst. unfold run in Hst. unfold okrun at 1, run at 1.
  destruct (connectTransactions_spec (bl_Transactions blk) (1 + Z.of_nat k) u _ _ HR Hfr Hap)
    as (r&u1&E&(Hdb1&Hc1&_)&[[-> HR1]|[-> _]]); rewrite E in Hst |- *; [|by destruct Hst].
  eexists. split; [done|]. destruct Hst as [Hcalm1 _].
  assert (reps u1 (ledger g (take (S k) blks)) (txids g (take (S k) blks))) as HR2.
  { rewrite Etk, ledger_snoc, Elen. eapply reps_mono; [|done]. rewrite txids_snoc. set_solver. }
  pose proof (steady_flush FlushIfNeeded false (BlockHash (bl_Header blk)) u1 Hcalm1) as Hst. unfold run in Hst. unfold okrun, run.
  destruct (flush_spec FlushIfNeeded false (BlockHash (bl_Header blk)) u1 _ _ HR2 (ledger_txids g (take (S k) blks)))
    as (r&u2&E2&[(->&HR3&Hf)|(->&_)]); rewrite E2 in Hst |- *; [|by destruct Hst].
  eexists. split; [done|]. split; [|by destruct Hst]. split; [done|]. destruct Hf as [(_&Ed&Eco)|[Ed Eco]].
  - destruct Hfl as (j&Hj&E1&E3). exists j. rewrite Ed, Eco, Hdb1, Hc1. split_and!; [lia|done..].
  - exists (S k). rewrite Ed, Eco. split_and!; [done..|]. rewrite Etk. unfold tipOf. by rewrite last_snoc.
Qed.

(** What runs on the cache. *)
Lemma okrun_onCache {A} (m : St utxoCache A) b Q :
  okrun m (bc_utxo b) (fun a u => Q a (set_utxo u b)) → okrun (onCache m) b Q.
Proof. unfold okrun, run, onCache. by destruct (m (bc_utxo b)). Qed.

Lemma replay_ok g blks nodes b k :
  frame_ok p b g blks → history_ok g blks → coinsUpTo (bc_utxo b) g blks k → calm (bc_utxo b) →
  (k + length nodes = length blks)%nat →
  (∀ j q, nodes !! j = Some q → bc_best b !! (k + S j)%nat = Some (Some q)) →
  okrun (replay nodes) b (fun _ b' => ∃ u, b' = set_utxo u b ∧ calm u ∧ coinsUpTo u g blks (length blks)).
Proof.
  revert b k; induction nodes as [|q nodes IH]; intros b k HF HH HC Hc Hlen Hat.
  { rewrite Nat.add_0_r in Hlen. rewrite <- Hlen. apply run_ret. eexists. split; [done|]. exists (bc_utxo b).
    by destruct b. }
  destruct (fk_tip _ _ _ _ HF) as (t&td&Ht&Ev&_). pose proof (Hat O q eq_refl) as Hq. rewrite Nat.add_1_r in Hq.
  destruct (Forall2_lookup_l _ _ _ _ _ (fk_chain _ _ _ _ HF) Hq) as (blk&Hb&q'&nd&[= <-]&Hnd&Eh). simpl in Hb.
  assert (bn_height nd = 1 + Z.of_nat k) as Eht.
  { rewrite Ev in Hq. rewrite (view_of_at _ t td _ q nd (fk_tree _ _ _ _ HF) Ht Hq Hnd). lia. }
  cbn [replay]. apply (okrun_nodeAt _ _ _ nd); [done|]. apply okrun_bind. unfold dbFetchBlockByNode.
  apply okrun_bind. unfold okrun at 1, run at 1. rewrite dbView_calm by done. eexists. split; [done|]. apply run_get.
  rewrite Eh, (fk_held _ _ _ _ HF blk) by (apply list_elem_of_further; by eapply list_elem_of_lookup_2).
  eapply okrun_lift; [done|]. rewrite Eht.
  apply okrun_bind, okrun_onCache. eapply okrun_mono; [by apply coins_replayed|]. intros ? u1 Hu1.
  apply okrun_bind, okrun_onCache. eapply okrun_mono; [exact Hu1|]. intros _ u2 [HC2 Hc2].
  eapply okrun_mono; [apply (IH (set_utxo u2 b) (S k)); try done|].
  - by apply frame_coins.
  - rewrite <- Hlen. simpl. lia.
  - intros j q1 Hj. rewrite Nat.add_succ_l, <- Nat.add_succ_r. by apply (Hat (S j)).
  - intros _ b' (u&->&?&?). by exists u.
Qed.

(** The last block of a prefix is on the chain. *)
Lemma prefix_tip (g : MsgBlock) (blks : list MsgBlock) (k : nat) : (k ≤ length blks)%nat → (g :: blks) !! k = Some (default g (last (take k blks))).
Proof.
  intros Hk. pose proof (cons_last g (take k blks)) as E. rewrite length_take_le in E by done.
  change (g :: take k blks) with (take (S k) (g :: blks)) in E. by rewrite lookup_take_lt in E by lia.
Qed.

Lemma replayFrom_ok g blks b t td k :
  frame_ok p b g blks → history_ok g blks → coinsUpTo (bc_utxo b) g blks k → calm (bc_utxo b) →
  (k ≤ length blks)%nat → bc_heap b !! t = Some td → bc_best b = view_of (bc_heap b) t →
  okrun (replayFrom t td (tipOf g (take k blks))) b (fun _ b' =>
    ∃ u, b' = set_utxo u b ∧ calm u ∧ coinsUpTo u g blks (length blks)).
Proof.
  intros HF HH HC Hc Hk Ht Ev. unfold replayFrom, LookupNode. apply run_get.
  destruct (Forall2_lookup_r _ _ _ _ _ (fk_chain _ _ _ _ HF) (prefix_tip g blks k Hk)) as (o&Ho&f&fd&->&Hf&Ef).
  fold (tipOf g (take k blks)) in Ef. rewrite <- Ef, (fk_indexed _ _ _ _ HF f fd Hf).
  apply (okrun_lift_bind _ _ _ _ f); [done|]. pose proof (fk_tree _ _ _ _ HF) as WF. rewrite Ev in Ho |- *.
  rewrite (findFork_on _ t td k f WF Ht Ho). apply (okrun_lift_bind _ _ _ _ f); [done|].
  destruct (frame_tip p b g blks t td HF Ht Ev) as [Eht _].
  destruct (replayNodes_spec (bc_heap b) t td f k WF Ht Ho (length blks - k) t [] (S (Z.to_nat (bn_height td))))
    as (l&El&Hll&Hat); [|lia|].
  { rewrite (view_of_lookup _ t td) by (done || lia). by replace (_ - _)%nat with O by lia. }
  rewrite El, app_nil_r. eapply okrun_lift_bind; [done|]. apply okrun_bind.
  eapply okrun_mono; [apply (replay_ok g blks l b k); try done; [lia|by rewrite Ev]|].
  intros _ b' (u&->&Hcu&HCu). apply run_ret. eexists. split; [done|].
  exists (mkCache (uc_maps u) (uc_maxEntries u) (bn_hash td) (uc_db u) (uc_consistent u) (uc_rooms u) (uc_fulls u) (uc_failures u)).
  split_and!; [done..|]. by destruct HCu as [[[? ? ?] ?] ?]; split; [split; [split|]|].
Qed.

(** The coins are brought to the tip. *)
Lemma InitConsistentState_ok g blks b t td k :
  frame_ok p b g blks → history_ok g blks → coinsUpTo (bc_utxo b) g blks k → calm (bc_utxo b) →
  (k ≤ length blks)%nat → uc_consistent (bc_utxo b) = Some (tipOf g (take k blks)) →
  bc_heap b !! t = Some td → bc_best b = view_of (bc_heap b) t →
  okrun (InitConsistentState t) b (fun _ b' =>
    ∃ u, b' = set_utxo u b ∧ calm u ∧ coinsUpTo u g blks (length blks)).
Proof.
  intros HF HH HC Hc Hk Ec Ht Ev. unfold InitConsistentState. apply (okrun_nodeAt _ _ _ td); [done|].
  apply okrun_bind. unfold okrun at 1, run at 1, dbFetchUtxoStateConsistency. rewrite dbView_calm by done.
  eexists. split; [done|]. rewrite Ec. destruct (frame_tip p b g blks t td HF Ht Ev) as [_ Eh].
  case_bool_decide as Heq; [|by apply replayFrom_ok].
  assert (k = length blks) as ->.
  { eapply (chain_hashes p b g blks); [done|by apply prefix_tip|apply cons_last|]. fold (tipOf g (take k blks)). congruence. }
  apply run_ret. eexists. split; [done|].
  exists (mkCache (uc_maps (bc_utxo b)) (uc_maxEntries (bc_utxo b)) (bn_hash td) (uc_db (bc_utxo b))
    (uc_consistent (bc_utxo b)) (uc_rooms (bc_utxo b)) (uc_fulls (bc_utxo b)) (uc_failures (bc_utxo b))).
  split_and!; [done..|]. by destruct HC as [[[? ? ?] ?] ?]; split; [split; [split|]|].
Qed.

End replay.

(** ** A chain that starts *)

Section starting.
Context `{CR : Crypto} `{SE : ScriptEngine} `{RT : GoRuntime} (p : Params) (PO : params_ok p) (CO : CryptoOk) (now : Z).

(** The deployment states are computed. *)
Lemma initCaches_ok b g blks t td :
  frame_ok p b g blks → bc_heap b !! t = Some td →
  okrun (onVersionbits (initThresholdCaches (bc_heap b) (p_Deploy p) td (isCurrent now td))) b (fun _ b' =>
    frame_ok p b' g blks ∧ bc_heap b' = bc_heap b ∧ bc_best b' = bc_best b ∧ bc_utxo b' = bc_utxo b).
Proof.
  intros HF Ht. unfold okrun, run, onVersionbits.
  destruct (initThresholdCaches_spec (bc_heap b) (fk_tree _ _ _ _ HF) (frame_distinct _ _ _ _ HF) (p_Deploy p) (po_window p PO)
    t td (isCurrent now td) (bc_vb b) (fk_caches _ _ _ _ HF) Ht) as (vb&->&Hc).
  eexists. split; [done|]. split; [|done]. destruct HF as [? ? ? ? ? ? ? ? ? ? ? ? ? [] ? ?]. by split.
Qed.

(** What the two ways of starting end with. *)
Definition started (b : BlockChain) (g : MsgBlock) (blks : list MsgBlock) : Prop :=
  frame_ok p b g blks ∧ live b ∧ allOnBest b ∧ calm (bc_utxo b).

Lemma started_linear b g blks u :
  started b g blks → history_ok g blks → linked g blks → GenesisHash p = BlockHash (bl_Header g) →
  coins_ok (ledger g blks) → valueOf (ledger g blks) ≤ minted p (length blks) →
  (∀ i blk, blks !! i = Some blk → connectable p (1 + Z.of_nat i) (bl_Transactions blk) (ledger g (take i blks))) →
  coinsUpTo u g blks (length blks) → linear_ok p (set_utxo u b) g blks.
Proof.
  intros (HF&Hl&Hall&_) HH Hlk Hg Hok Hsup Hcon [HR Hfl]. rewrite firstn_all in HR. split; try done.
  split; [by apply frame_coins|split; [|done]]. split; try done. apply ledger_txids.
Qed.

(** *** Again *)

(** A chain that is loaded is the chain that was stored: the same blocks, and
    the coins they leave, although the bucket may hold older ones. *)
Theorem restart_ok b g g' blks maxE rooms fulls :
  linear_ok p b g blks → Z.of_nat (length blks) < 2147483647 →
  okrun (New p now g') (blank p (diskOf b) maxE rooms fulls []) (fun _ b' =>
    linear_ok p b' g blks ∧ calm (bc_utxo b')).
Proof.
  intros HL Hlen. pose proof HL as [(HF&HC&HH) _ Hlk _ Hg]. unfold New. apply okrun_bind. unfold initChainState. apply okrun_bind.
  unfold okrun at 1, run at 1. rewrite dbView_calm by done. eexists. split; [done|]. apply run_get. cbn [blank bc_db diskOf dk_tables].
  destruct (fk_best _ _ _ _ HF) as [work Ew]. rewrite Ew. cbv iota.
  eapply okrun_mono; [by apply (loadChainState_ok p CO b g blks)|]. intros _ b1 (HF1&Hl1&Ha1&Eu1).
  destruct (frame_tipNode p b1 g blks HF1) as (t&td&Etip&Ht&Ev&_). apply okrun_bind. unfold okrun at 1, run at 1. rewrite Etip.
  eexists. split; [done|]. apply run_get. apply okrun_bind. eapply okrun_mono; [by eapply initCaches_ok|].
  intros _ b2 (HF2&Eh2&Eb2&Eu2). rewrite Eu1 in Eu2. destruct (ca_flushed _ _ _ _ HC) as (k&Hk&Edb&Eco).
  eapply okrun_mono; [apply (InitConsistentState_ok p PO g blks b2 t td k); try done|].
  - rewrite Eu2. split; [|exists k; by rewrite <- Edb, <- Eco]. cbn [bc_utxo blank]. rewrite <- Edb. apply reps_new.
    cbn [diskOf dk_coins]. rewrite Edb. apply ledger_txids.
  - by rewrite Eu2.
  - by rewrite Eu2.
  - by rewrite Eh2.
  - by rewrite Eb2, Eh2.
  - intros _ b' (u&->&Hcu&HCu). split; [|done]. apply started_linear; try done; [|apply HC..].
    split; [done|]. split; [by eapply live_heap|]. split; [|by rewrite Eu2]. intros q nd. rewrite Eh2, Eb2. apply Ha1.
Qed.

(** *** For the first time *)

Lemma genesis_coins g : genesis_ok g → coins_ok (ledger g []) ∧ valueOf (ledger g []) = 0.
Proof.
  intros HG. unfold ledger, genesisCoins. cbn [ledgerFrom].
  assert (∀ l (U : coins), Forall (fun x : OutPoint * coin => c_amount x.2 = 0) l → map_Forall (fun _ c => c_amount c = 0) U →
    map_Forall (fun _ c => c_amount c = 0) (foldl (fun U x => <[x.1 := x.2]> U) U l)) as Hf.
  { intros l U Hl. revert U; induction Hl as [|x l Hx _ IH]; intros U HU; [done|]. by apply IH, map_Forall_insert_2. }
  pose proof (Hf _ ∅ (gn_value _ HG) (map_Forall_empty _)) as H0. split.
  - intros op c Hc. rewrite (H0 op c Hc). done.
  - unfold valueOf. apply sumZ_zero. apply Forall_fmap, Forall_fmap, Forall_forall. intros [op c] Hx%elem_of_map_to_list.
    exact (H0 op c Hx).
Qed.

(** One node, one block, one row. *)
Lemma genesis_frame b g q nd :
  bc_heap b = <[q := nd]> ∅ → bc_index b = <[bn_hash nd := q]> ∅ → bc_best b = view_of (bc_heap b) q →
  db_blocks (bc_db b) = <[bn_hash nd := g]> ∅ →
  db_nodes (bc_db b) = <[nodeKey nd := (Header (bc_heap b) nd, bn_status nd)]> ∅ →
  db_heights (bc_db b) = <[bn_hash nd := bn_height nd]> ∅ →
  (∃ work, db_best (bc_db b) = Some (dbPutBestState (bc_snapshot b) work)) →
  bs_Hash (bc_snapshot b) = bn_hash nd → bs_Height (bc_snapshot b) = bn_height nd →
  bc_orphans b = ∅ → bc_prevOrphans b = ∅ → coherent (bc_heap b) (p_Deploy p) (bc_vb b) →
  tree_ok (bc_heap b) → bn_height nd = 0 → bn_hash nd = BlockHash (bl_Header g) → Header (bc_heap b) nd = bl_Header g →
  frame_ok p b g [] ∧ allOnBest b ∧ bc_best b = [Some q].
Proof.
  intros Eheap Ei Ev Eb En Eh Ebe Es1 Es2 Eor Epr Hco WF E0 Ehash Ehd.
  assert (bc_heap b !! q = Some nd) as Hq by (rewrite Eheap; apply lookup_insert_eq).
  assert (∀ q' nd', bc_heap b !! q' = Some nd' → q' = q ∧ nd' = nd) as Hone.
  { intros q' nd'. rewrite Eheap. rewrite lookup_insert_Some, lookup_empty. naive_solver. }
  assert (bc_best b = [Some q]) as Ev1 by (rewrite Ev; unfold view_of; by rewrite Hq, E0).
  split; [|split; [|done]]; cycle 1.
  { intros q' nd' [-> ->]%Hone. rewrite Ev1. apply list_elem_of_here. }
  split; rewrite ?Eb, ?En, ?Eh, ?Ei; try done.
  - intros h q'. rewrite lookup_insert_Some, lookup_empty. intros [[<- <-]|[_ ?]]; [by exists nd|done].
  - intros q' nd' [-> ->]%Hone. apply lookup_insert_eq.
  - intros q' nd' [-> ->]%Hone. rewrite lookup_insert_eq. by eexists.
  - intros h blk. rewrite lookup_insert_Some, lookup_empty. intros [[<- <-]|[_ ?]]; [|done].
    rewrite lookup_insert_eq. split; [done|by eexists].
  - intros blk ->%list_elem_of_singleton. rewrite <- Ehash. apply lookup_insert_eq.
  - by exists q, nd.
  - rewrite Ev1. repeat constructor. by exists q, nd.
  - intros h [x Hx]. rewrite lookup_insert_Some, lookup_empty in Hx. destruct Hx as [[<- _]|[_ ?]]; [|done].
    rewrite lookup_insert_eq. by eexists.
  - split; rewrite En.
    + intros k hdr st. rewrite lookup_insert_Some, lookup_empty. intros [[<- [= <- <-]]|[_ ?]]; [|done]. by exists q, nd.
    + intros q' nd' [-> ->]%Hone _. rewrite lookup_insert_eq. by eexists.
  - intros q' nd' _ [-> ->]%Hone. rewrite lookup_insert_eq. by eexists.
  - intros q' nd' [-> ->]%Hone. by rewrite Ehd.
Qed.

(** The chain of the genesis block. *)
Lemma createChainState_ok g maxE rooms fulls :
  PrevBlock (bl_Header g) = zeroHash →
  let b0 := blank p emptyDisk maxE rooms fulls [] in
  okrun (createChainState g) b0 (fun _ b' =>
    started b' g [] ∧ bc_utxo b' = newUtxoCache maxE (genesisCoins g) None rooms fulls []).
Proof.
  intros Hprev b0. unfold createChainState.
  destruct (newBlockNode_ok (bc_heap b0) (bl_Header g) None) as (q&nd&Enew&Hq&Hmade&WF).
  { intros ? ?. cbn. by rewrite lookup_empty. } { done. }
  apply okrun_bind. unfold okrun at 1, run at 1, onHeap. rewrite Enew. eexists. split; [done|].
  apply (okrun_nodeAt _ _ _ nd); [apply lookup_insert_eq|]. cbv zeta.
  set (nd' := setStatus nd (Z.lor statusDataStored statusValid)). apply okrun_bind, run_ret. eexists. split; [done|].
  apply okrun_bind, run_ret. eexists. split; [done|]. apply okrun_bind, run_ret. eexists. split; [done|]. apply run_get.
  cbn [addNode putTip putSnapshot set_index set_best bc_heap bc_best]. rewrite insert_insert_eq.
  change (bc_heap b0) with (∅ : heap) in *. change (bc_best b0) with ([] : chainView).
  assert (same_shape (<[q := nd]> ∅) (<[q := nd']> ∅)) as HS.
  { intros q'. destruct (decide (q = q')) as [<-|]; [by rewrite !lookup_insert_eq|by rewrite !lookup_insert_ne]. }
  pose proof (tree_ok_shape _ _ HS WF) as WF'. pose proof (lookup_insert_eq (∅ : heap) q nd') as Hq'.
  destruct (mf_root _ _ _ _ Hmade eq_refl) as [Eh _].
  assert (setTip (<[q := nd']> ∅) [] (Some q) = view_of (<[q := nd']> ∅) q) as Ev.
  { apply (setTip_view _ WF' [] q nd' Hq'); [|by left]. change (bn_height nd') with (bn_height nd). lia. }
  assert (Header (<[q := nd']> ∅) nd' = bl_Header g) as Ehd.
  { by apply (Header_made ∅ (bl_Header g) None nd q). }
  apply okrun_bind. unfold dbUpdate. apply okrun_bind. unfold okrun at 1, run at 1. rewrite dbView_calm by done.
  eexists. split; [done|]. apply run_ret. eexists. split; [done|]. apply run_ret. eexists. split; [done|].
  split; [|done]. set (b' := putCoins _ _ _).
  assert (bc_heap b' = <[q := nd']> ∅) as Eheap by apply (insert_insert_eq (∅ : heap)).
  assert (bc_best b' = view_of (bc_heap b') q) as Evb.
  { rewrite Eheap, <- Ev. change (setTip (<[q := nd']> (<[q := nd]> (∅ : heap))) [] (Some q) = setTip (<[q := nd']> ∅) [] (Some q)).
    by rewrite insert_insert_eq. }
  assert (bn_hash nd' = BlockHash (bl_Header g)) as Ehash by apply (mf_hash _ _ _ _ Hmade).
  destruct (genesis_frame b' g q nd') as (HF&Hall&Eb); try done; rewrite ?Eheap; try done.
  - by eexists.
  - apply coherent_blank.
  - split; [done|]. split; [|done]. intros t td. rewrite Eb. intros [= <-] Ht. rewrite Eheap, Hq' in Ht. injection Ht as <-. done.
Qed.

(** What the genesis block of a network is to its parameters. *)
Record genesis_of (g : MsgBlock) : Prop := {
  go_ok : genesis_ok g;
  go_hash : GenesisHash p = BlockHash (bl_Header g);
  go_prev : PrevBlock (bl_Header g) = zeroHash }.

Theorem start_ok g maxE rooms fulls :
  genesis_of g →
  okrun (New p now g) (blank p emptyDisk maxE rooms fulls []) (fun _ b' =>
    linear_ok p b' g [] ∧ calm (bc_utxo b')).
Proof.
  intros [HG Hh Hprev]. unfold New. apply okrun_bind. unfold initChainState. apply okrun_bind.
  unfold okrun at 1, run at 1. rewrite dbView_calm by done. eexists. split; [done|]. apply run_get. cbn [blank bc_db emptyDisk dk_tables db_best].
  eapply okrun_mono; [by apply (createChainState_ok g)|]. intros _ b1 [(HF1&Hl1&Ha1&Hc1) Eu1].
  destruct (frame_tipNode p b1 g [] HF1) as (t&td&Etip&Ht&Ev&_). apply okrun_bind. unfold okrun at 1, run at 1. rewrite Etip.
  eexists. split; [done|]. apply run_get. apply okrun_bind. eapply okrun_mono; [by eapply initCaches_ok|].
  intros _ b2 (HF2&Eh2&Eb2&Eu2). rewrite Eu1 in Eu2. assert (calm (bc_utxo b2)) as Hc2 by by rewrite Eu2.
  unfold InitConsistentState. apply (okrun_nodeAt _ _ _ td); [by rewrite Eh2|].
  apply okrun_bind. unfold okrun at 1, run at 1, dbFetchUtxoStateConsistency. rewrite dbView_calm by done.
  eexists. split; [done|]. rewrite Eu2. cbn [newUtxoCache uc_consistent]. unfold okrun, run. rewrite dbView_calm by done.
  eexists. split; [done|]. destruct (frame_tip p b1 g [] t td HF1 Ht Ev) as [_ Eth]. split; [|exact Hc2].
  destruct (genesis_coins g HG) as [Hok Hval].
  set (u := mkCache [∅] [maxE] (bn_hash td) (genesisCoins g) (Some (bn_hash td)) rooms fulls []).
  assert (putLastFlush (bn_hash td) (putCoins (uc_db (bc_utxo b2)) (Some (bn_hash td)) b2) = set_utxo u b2) as ->.
  { unfold putLastFlush, putCoins. cbn [set_utxo bc_utxo]. by rewrite Eu2. }
  apply started_linear; try done.
  - split; [done|]. split; [by eapply live_heap|]. split; [|done]. intros q nd. rewrite Eh2, Eb2. apply Ha1.
  - split; try done. intros tx op Htx. by apply not_elem_of_nil in Htx.
  - rewrite Hval. done.
  - split; [|exists O; split_and!; [done..|]; cbn [u uc_consistent]; by rewrite Eth]. destruct (reps_new maxE (genesisCoins g) None rooms fulls [] (txids g [])) as [[? ? ?] ?].
    { apply (ledger_txids g []). }
    by split; [split|].
Qed.

End starting.

(** ** The networks *)

Definition dogecoinVMMainNetGenesisBlock `{Crypto} : MsgBlock := newGenesisBlock (ofString "DogecoinVM genesis - mainnet").
Definition dogecoinVMTestNetGenesisBlock `{Crypto} : MsgBlock := newGenesisBlock (ofString "DogecoinVM genesis - testnet").

Definition PegReserveAmountPerBlock : Z := 900000000000000000.

(** Nothing is minted by either genesis block, and its message is not a
    height: the first byte says that more bytes follow than there are. *)
Lemma network_genesis `{CR : Crypto} g reserve :
  g = dogecoinVMMainNetGenesisBlock ∨ g = dogecoinVMTestNetGenesisBlock →
  genesis_of (dogecoinVMParams (BlockHash (bl_Header g)) reserve) g.
Proof.
  intros Hg. assert (∃ m, g = newGenesisBlock m ∧ ∀ t, txIn t = txIn (default (NewMsgTx 1) (head (bl_Transactions g))) →
    ∀ n, ExtractCoinbaseHeight t ≠ Ok n) as (m&Eg&Hm).
  { destruct Hg as [-> | ->]; eexists; (split; [done|]); intros t E n; unfold ExtractCoinbaseHeight; rewrite E; vm_compute; congruence. }
  split; [|done|by rewrite Eg]. split; rewrite Eg.
  - intros tx ->%list_elem_of_singleton. done.
  - intros tx n ->%list_elem_of_singleton _. rewrite Eg in Hm. by apply Hm.
  - by repeat constructor.
Qed.

Lemma network_params g script blocks :
  params_ok (dogecoinVMParams g None) ∧ params_ok (dogecoinVMParams g (Some (mkReserve script PegReserveAmountPerBlock blocks))).
Proof. split; (split; [done..|]); intros r; simpl; [done|]. by intros [= <-]. Qed.
