(* ===== verification/Mining.v ===== *)
(** * Block templates

    [btcd/mining/mining.go] and [policy.go]: choosing transactions of the
    mempool for a block on top of the best chain.  The mempool is what the
    template reads of it, a [TxSource]; the queue is Go's container/heap;
    priorities are IEEE 754 doubles.  Items are shared between the queue and
    the maps of dependers, so they live in a list and are named by their
    position. *)

From Stdlib Require Import ZArith List Lia.
From Stdlib Require Import SpecFloat.
From stdpp Require Import base list gmap strings.
From S2P Require Import Prelude.
From S2P Require Import Text.
From S2P Require Import Wire Runtime.
From S2P Require Import Script.
From S2P Require Import Chain.
From S2P Require Import Merkle.
From S2P Require Import Versionbits.
From S2P Require Import Utxo.
From S2P Require Import Validate.
From S2P Require Import Context.
From S2P Require Import Process.

Open Scope Z_scope.

(** ** Heaps (container/heap) *)

Section heap.
Context {A : Type} (less : A → A → bool).

Definition lessAt (h : list A) (i j : nat) : bool :=
  match h !! i, h !! j with Some x, Some y => less x y | _, _ => false end.

Definition swap (h : list A) (i j : nat) : list A :=
  match h !! i, h !! j with Some x, Some y => <[i := y]> (<[j := x]> h) | _, _ => h end.

(** Each turn moves to the parent, then to a child. *)
Fixpoint up (fuel : nat) (h : list A) (j : nat) : list A :=
  match fuel with
  | O => h
  | S f =>
      let i := ((j - 1) / 2)%nat in
      if Nat.eqb i j || negb (lessAt h j i) then h else up f (swap h i j) i
  end.

Fixpoint down (fuel : nat) (h : list A) (i n : nat) : list A :=
  match fuel with
  | O => h
  | S f =>
      let j1 := (2 * i + 1)%nat in
      if Nat.leb n j1 then h
      else
        let j2 := (j1 + 1)%nat in
        let j := if Nat.ltb j2 n && lessAt h j2 j1 then j2 else j1 in
        if negb (lessAt h j i) then h else down f (swap h i j) j n
  end.

Definition heap_Init (h : list A) : list A :=
  foldl (fun h i => down (length h) h i (length h)) h (reverse (seq 0 (length h / 2))).

Definition heap_Push (h : list A) (x : A) : list A := up (S (length h)) (h ++ [x]) (length h).

Definition heap_Pop (h : list A) : option (A * list A) :=
  match length h with
  | O => None
  | S n => let h := down (S n) (swap h 0 n) 0 n in match last h with Some x => Some (x, take n h) | None => None end
  end.

End heap.

(** ** Doubles *)

Notation float64 := spec_float.

Definition float64_of (z : Z) : float64 := binary_normalize 53 1024 z 0 false.
Definition fadd : float64 → float64 → float64 := SFadd 53 1024.
Definition fdiv : float64 → float64 → float64 := SFdiv 53 1024.

(** ** Policy *)

Record Policy := mkPolicy {
  BlockMinWeight : Z; BlockMaxWeight : Z; BlockPrioritySize : Z; TxMinFreeFee : Z }.

Definition MinHighPriority : float64 := float64_of 57600000.
Definition UnminedHeight : Z := 2147483647.

Definition ageOf (v : UtxoViewpoint) (nextBlockHeight : Z) (total : float64) (ti : TxIn) : float64 :=
  match LookupEntry v (PreviousOutPoint ti) with
  | Some entry =>
      if IsSpent entry then total
      else
        let inputAge :=
          if ue_blockHeight entry =? UnminedHeight then 0 else int32_wrap (nextBlockHeight - ue_blockHeight entry) in
        fadd total (float64_of (wrap64 (ue_amount entry * inputAge)))
  | None => total
  end.

Definition calcInputValueAge (tx : MsgTx) (v : UtxoViewpoint) (nextBlockHeight : Z) : float64 :=
  foldl (ageOf v nextBlockHeight) (S754_zero false) (txIn tx).

Definition CalcPriority (tx : MsgTx) (v : UtxoViewpoint) (nextBlockHeight : Z) : float64 :=
  let overhead := sumZ ((fun ti => 41 + Z.min 110 (Z.of_nat (length (SignatureScript ti)))) <$> txIn tx) in
  if SerializeSize tx <=? overhead then S754_zero false
  else fdiv (calcInputValueAge tx v nextBlockHeight) (float64_of (SerializeSize tx - overhead)).

(** ** The transactions to choose from *)

Record TxDesc := mkDesc { td_Tx : MsgTx; td_Fee : Z; td_FeePerKB : Z }.

Record TxSource := mkSource { MiningDescs : list TxDesc; HaveTransaction : bytes → bool }.

Record txPrioItem := mkItem {
  pi_tx : MsgTx; pi_fee : Z; pi_priority : float64; pi_feePerKB : Z; pi_dependsOn : gset bytes }.

(** The queue holds positions of items. *)
Definition txPQByPriority (items : list txPrioItem) (i j : nat) : bool :=
  match items !! i, items !! j with
  | Some x, Some y =>
      if SFeqb (pi_priority x) (pi_priority y) then pi_feePerKB y <? pi_feePerKB x
      else SFltb (pi_priority y) (pi_priority x)
  | _, _ => false
  end.

Definition txPQByFee (items : list txPrioItem) (i j : nat) : bool :=
  match items !! i, items !! j with
  | Some x, Some y =>
      if pi_feePerKB x =? pi_feePerKB y then SFltb (pi_priority y) (pi_priority x)
      else pi_feePerKB y <? pi_feePerKB x
  | _, _ => false
  end.

Definition lessFunc (sortedByFee : bool) : list txPrioItem → nat → nat → bool :=
  if sortedByFee then txPQByFee else txPQByPriority.

Notation dependMap := (gmap bytes (gmap bytes nat)).

Record gathered := mkGathered {
  ga_items : list txPrioItem; ga_queue : list nat; ga_dependers : dependMap; ga_view : UtxoViewpoint }.

Definition mergeEntry (a b : option (option UtxoEntry)) : option (option UtxoEntry) :=
  match a, b with
  | Some (Some e), Some eB => if IsSpent e then Some eB else Some (Some e)
  | Some None, Some eB => Some eB
  | Some eA, None => Some eA
  | None, b => b
  end.

Definition mergeUtxoView (viewA viewB : UtxoViewpoint) : UtxoViewpoint :=
  mkView (merge mergeEntry (v_entries viewA) (v_entries viewB)) (v_bestHash viewA).

Section mining.
Context `{CR : Crypto} `{SE : ScriptEngine} `{RT : GoRuntime}.
Context (p : Params) (pol : Policy) (now : Z).

(** [FetchUtxoView]: the outputs of the transaction and what it spends. *)
Definition FetchUtxoView (tx : MsgTx) : Ch UtxoViewpoint :=
  let needed := (outsOf tx).*1 ++ (if IsCoinBaseTx tx then [] else prevOuts tx) in
  onCache (fetchUtxosFromCache needed (NewUtxoViewpoint zeroHash)).

(** The inputs of the item at [i]: an output the chain does not have must be
    that of a transaction of the source, which the item then depends on.  The
    maps keep what was entered before an input is not available. *)
Fixpoint dependLoop (src : TxSource) (utxos : UtxoViewpoint) (i : nat) (hash : bytes) (l : list TxIn)
    (on : gset bytes) (dependers : dependMap) : bool * gset bytes * dependMap :=
  match l with
  | [] => (true, on, dependers)
  | ti :: l =>
      let originHash := Hash (PreviousOutPoint ti) in
      if match LookupEntry utxos (PreviousOutPoint ti) with Some e => negb (IsSpent e) | None => false end
      then dependLoop src utxos i hash l on dependers
      else if negb (HaveTransaction src originHash) then (false, on, dependers)
      else
        let deps := default ∅ (dependers !! originHash) in
        dependLoop src utxos i hash l ({[ originHash ]} ∪ on) (<[originHash := <[hash := i]> deps]> dependers)
  end.

(** A turn of the loop over the source. *)
Definition gatherTx (src : TxSource) (sortedByFee : bool) (nextBlockHeight : Z) (g : gathered) (d : TxDesc) :
    Ch gathered := fun b =>
  let tx := td_Tx d in
  if IsCoinBaseTx tx || negb (IsFinalizedTransaction tx nextBlockHeight now) then (Ok g, b)
  else
    match FetchUtxoView tx b with
    | (Err _, b) => (Ok g, b)
    | (Ok utxos, b) =>
        let i := length (ga_items g) in
        let '(available, on, dependers) := dependLoop src utxos i (TxHash tx) (txIn tx) ∅ (ga_dependers g) in
        if negb available then
          (Ok (mkGathered (ga_items g ++ [mkItem tx 0 (S754_zero false) 0 on]) (ga_queue g) dependers (ga_view g)), b)
        else
          let item := mkItem tx (td_Fee d) (CalcPriority tx utxos nextBlockHeight) (td_FeePerKB d) on in
          let items := ga_items g ++ [item] in
          let queue := if bool_decide (on = ∅) then heap_Push (lessFunc sortedByFee items) (ga_queue g) i
                       else ga_queue g in
          (Ok (mkGathered items queue dependers (mergeUtxoView (ga_view g) utxos)), b)
    end.

Fixpoint gatherLoop (src : TxSource) (sortedByFee : bool) (nextBlockHeight : Z) (l : list TxDesc) (g : gathered) :
    Ch gathered :=
  match l with
  | [] => mret g
  | d :: l => g ← gatherTx src sortedByFee nextBlockHeight g d; gatherLoop src sortedByFee nextBlockHeight l g
  end.

(** ** The coinbase *)

Definition CoinbaseFlags : bytes := [47; 80; 50; 83; 72; 47; 98; 116; 99; 100; 47].

Definition standardCoinbaseScript (nextBlockHeight extraNonce : Z) : result bytes :=
  Script (AddData (AddInt64 (AddInt64 NewScriptBuilder nextBlockHeight) extraNonce) CoinbaseFlags).

(** [payTo] is the script of the address, if there is one. *)
Definition createCoinbaseTx (coinbaseScript : bytes) (nextBlockHeight : Z) (payTo : option (result bytes)) :
    result MsgTx :=
  pkScript ← (match payTo with Some r => r | None => Script (AddOp NewScriptBuilder OP_1) end);
  let tx := AddTxIn (NewMsgTx TxVersion) (mkTxIn nullOut coinbaseScript [] MaxTxInSequenceNum) in
  let tx := AddTxOut tx (mkTxOut (CalcBlockSubsidy p nextBlockHeight) pkScript) in
  let reserve := PegReserveAt p nextBlockHeight in
  Ok (match p_PegReserve p with
      | Some r => if 0 <? reserve then AddTxOut tx (mkTxOut reserve (pr_PkScript r)) else tx
      | None => tx
      end).

(** [coinbaseTx.TxOut[0].Value += totalFees] *)
Definition payFees (coinbase : MsgTx) (totalFees : Z) : MsgTx :=
  match txOut coinbase with
  | o :: outs =>
      mkMsgTx (Wire.Version coinbase) (txIn coinbase) (mkTxOut (wrap64 (Value o + totalFees)) (PkScript o) :: outs)
        (LockTime coinbase)
  | [] => coinbase
  end.

(** ** Selecting *)

Definition GetTransactionWeight (tx : MsgTx) : Z :=
  SerializeSizeStripped tx * (WitnessScaleFactor - 1) + SerializeSize tx.

Definition StandardVerifyFlags : Z := 2096127.

Definition spendTransaction (v : UtxoViewpoint) (tx : MsgTx) (height : Z) : UtxoViewpoint :=
  AddTxOuts tx height
    (foldl (fun v ti => match LookupEntry v (PreviousOutPoint ti) with
                        | Some e => setEntry v (PreviousOutPoint ti) (Some (Spend e))
                        | None => v
                        end) v (txIn tx)).

Record selection := mkSelection {
  se_items : list txPrioItem; se_queue : list nat; se_byFee : bool; se_view : UtxoViewpoint;
  se_txs : list MsgTx; se_weight : Z; se_sigOps : Z; se_totalFees : Z; se_fees : list Z; se_sigOpCosts : list Z;
  se_witness : bool }.

Definition set_queue (items : list txPrioItem) (queue : list nat) (byFee : bool) (s : selection) : selection :=
  mkSelection items queue byFee (se_view s) (se_txs s) (se_weight s) (se_sigOps s) (se_totalFees s) (se_fees s)
    (se_sigOpCosts s) (se_witness s).

(** The weight the commitment of the first witness adds. *)
Definition commitWeight (coinbase : MsgTx) : Z :=
  let a := fun n => replicate n 97 in
  let ins := match txIn coinbase with
             | ti :: l => mkTxIn (PreviousOutPoint ti) (SignatureScript ti) [a CoinbaseWitnessDataLen] (Sequence ti) :: l
             | [] => []
             end in
  GetTransactionWeight (AddTxOut (mkMsgTx (Wire.Version coinbase) ins (txOut coinbase) (LockTime coinbase))
                          (mkTxOut 0 (a CoinbaseWitnessPkScriptLength)))
  - GetTransactionWeight coinbase.

Definition addWitness (coinbase : MsgTx) (s : selection) : selection :=
  mkSelection (se_items s) (se_queue s) (se_byFee s) (se_view s) (se_txs s)
    (uint32 (se_weight s + uint32 (commitWeight coinbase))) (se_sigOps s) (se_totalFees s) (se_fees s)
    (se_sigOpCosts s) true.

(** Those that depended on a transaction that is now in the block. *)
Definition releaseDep (hash : bytes) (s : selection) (i : nat) : selection :=
  match se_items s !! i with
  | None => s
  | Some item =>
      let on := pi_dependsOn item ∖ {[ hash ]} in
      let items := <[i := mkItem (pi_tx item) (pi_fee item) (pi_priority item) (pi_feePerKB item) on]> (se_items s) in
      let queue := if bool_decide (on = ∅) then heap_Push (lessFunc (se_byFee s) items) (se_queue s) i
                   else se_queue s in
      set_queue items queue (se_byFee s) s
  end.

Definition addToBlock (dependers : dependMap) (height : Z) (item : txPrioItem) (txWeight sigOpCost : Z)
    (s : selection) : selection :=
  let tx := pi_tx item in
  let s := mkSelection (se_items s) (se_queue s) (se_byFee s) (spendTransaction (se_view s) tx height)
             (se_txs s ++ [tx]) (uint32 (se_weight s + txWeight)) (wrap64 (se_sigOps s + sigOpCost))
             (wrap64 (se_totalFees s + pi_fee item)) (se_fees s ++ [pi_fee item]) (se_sigOpCosts s ++ [sigOpCost])
             (se_witness s) in
  foldl (releaseDep (TxHash tx)) s (map_range (default ∅ (dependers !! TxHash tx))).*2.

(** A turn of the loop, on the item that was taken off the queue.  A skipped
    item is dropped; one that is too low for the high-priority area goes back
    once, when the order changes. *)
Definition selectItem (dependers : dependMap) (coinbase : MsgTx) (height : Z) (segwitActive : bool)
    (i : nat) (item : txPrioItem) (s : selection) : selection :=
  let tx := pi_tx item in
  if negb segwitActive && HasWitness tx then s
  else
    let s := if segwitActive && negb (se_witness s) && HasWitness tx then addWitness coinbase s else s in
    let txWeight := uint32 (GetTransactionWeight tx) in
    let blockPlusTxWeight := uint32 (se_weight s + txWeight) in
    if (blockPlusTxWeight <? se_weight s) || (BlockMaxWeight pol <=? blockPlusTxWeight) then s
    else
      match GetSigOpCost tx false (se_view s) true segwitActive with
      | Err _ => s
      | Ok sigOpCost =>
          let total := wrap64 (se_sigOps s + sigOpCost) in
          if (total <? se_sigOps s) || (MaxBlockSigOpsCost <? total) then s
          else if se_byFee s && (pi_feePerKB item <? TxMinFreeFee pol) && (BlockMinWeight pol <=? blockPlusTxWeight)
          then s
          else
            let switch := negb (se_byFee s) &&
              ((BlockPrioritySize pol <=? blockPlusTxWeight) || SFleb (pi_priority item) MinHighPriority) in
            let s := if switch
                     then set_queue (se_items s) (heap_Init (txPQByFee (se_items s)) (se_queue s)) true s else s in
            if switch && ((BlockPrioritySize pol <? blockPlusTxWeight) || SFltb (pi_priority item) MinHighPriority)
            then set_queue (se_items s) (heap_Push (txPQByFee (se_items s)) (se_queue s) i) true s
            else
              match CheckTransactionInputs p tx height (se_view s) with
              | Err _ => s
              | Ok _ =>
                  match ValidateTransactionScripts tx (se_view s) StandardVerifyFlags with
                  | Err _ => s
                  | Ok _ => addToBlock dependers height item txWeight sigOpCost s
                  end
              end
      end.

Fixpoint selectLoop (fuel : nat) (dependers : dependMap) (coinbase : MsgTx) (height : Z) (segwitActive : bool)
    (s : selection) : selection :=
  match fuel with
  | O => s
  | S f =>
      match heap_Pop (lessFunc (se_byFee s) (se_items s)) (se_queue s) with
      | None => s
      | Some (i, queue) =>
          let s := set_queue (se_items s) queue (se_byFee s) s in
          selectLoop f dependers coinbase height segwitActive
            (match se_items s !! i with
             | Some item => selectItem dependers coinbase height segwitActive i item s
             | None => s
             end)
      end
  end.

(** Every item is queued once, and one of them twice. *)
Definition selectTurns (items : list txPrioItem) : nat := length items + 1.

(** ** The template *)

Definition AddWitnessCommitment (coinbase : MsgTx) (rest : list MsgTx) : MsgTx * bytes :=
  let witnessNonce := replicate CoinbaseWitnessDataLen 0 in
  let ins := match txIn coinbase with
             | ti :: l => mkTxIn (PreviousOutPoint ti) (SignatureScript ti) [witnessNonce] (Sequence ti) :: l
             | [] => []
             end in
  let coinbase := mkMsgTx (Wire.Version coinbase) ins (txOut coinbase) (LockTime coinbase) in
  let witnessCommitment := DoubleHashRaw (CalcMerkleRoot (coinbase :: rest) true ++ witnessNonce) in
  (AddTxOut coinbase (mkTxOut 0 (WitnessMagicBytes ++ witnessCommitment)), witnessCommitment).

Definition medianAdjustedTime (best : BestState) : Z := Z.max now (bs_MedianTime best + 1).

Definition blockHeaderOverhead : Z := 80 + 9.

Record BlockTemplate := mkTemplate {
  bt_Block : MsgBlock; bt_Fees : list Z; bt_SigOpCosts : list Z; bt_Height : Z; bt_ValidPayAddress : bool;
  bt_WitnessCommitment : option bytes }.

(** The first selection: the coinbase is counted, nothing is chosen. *)
Definition startSelection (coinbase : MsgTx) (g : gathered) (sortedByFee : bool) : selection :=
  let sigOps := CountSigOps coinbase * WitnessScaleFactor in
  mkSelection (ga_items g) (ga_queue g) sortedByFee (ga_view g) []
    (uint32 (blockHeaderOverhead * WitnessScaleFactor + GetTransactionWeight coinbase)) sigOps 0 [] [sigOps] false.

Definition NewBlockTemplate (src : TxSource) (payTo : option (result bytes)) : Ch BlockTemplate :=
  b ← st_get;
  let best := bc_snapshot b in
  let nextBlockHeight := int32_wrap (bs_Height best + 1) in
  coinbaseScript ← st_lift (standardCoinbaseScript nextBlockHeight 0);
  coinbase ← st_lift (createCoinbaseTx coinbaseScript nextBlockHeight payTo);
  let sortedByFee := BlockPrioritySize pol =? 0 in
  g ← gatherLoop src sortedByFee nextBlockHeight (MiningDescs src)
        (mkGathered [] [] ∅ (NewUtxoViewpoint zeroHash));
  b ← st_get;
  segwitState ← onVersionbits (deploymentState (bc_heap b) (p_Deploy p) (view_tip (bc_best b))
                                 (deploymentID DeploymentSegwit));
  let s := selectLoop (selectTurns (ga_items g)) (ga_dependers g) coinbase nextBlockHeight
             (bool_decide (segwitState = ThresholdActive)) (startSelection coinbase g sortedByFee) in
  let coinbase := payFees coinbase (se_totalFees s) in
  let '(coinbase, commitment) :=
    if se_witness s then let '(cb, c) := AddWitnessCommitment coinbase (se_txs s) in (cb, Some c)
    else (coinbase, None) in
  let ts := medianAdjustedTime best in
  '(tip, td) ← tipNode;
  reqDifficulty ← st_lift (calcNextRequiredDifficulty (bc_heap b) tip ts);
  nextBlockVersion ← onVersionbits (calcNextBlockVersion (bc_heap b) (p_Deploy p) (Some tip));
  let txs := coinbase :: se_txs s in
  let block := mkBlock (mkHeader nextBlockVersion (bs_Hash best) (CalcMerkleRoot txs false) ts reqDifficulty 0) txs in
  CheckConnectBlockTemplate p now block;;
  mret (mkTemplate block (wrap64 (- se_totalFees s) :: se_fees s) (se_sigOpCosts s) nextBlockHeight
          (bool_decide (is_Some payTo)) commitment).

End mining.

(** ** The queue keeps its items *)

Section heap_perm.
Context {A : Type} (less : A → A → bool).

Lemma swap_perm (h : list A) i j : swap h i j ≡ₚ h.
Proof.
  unfold swap. destruct (h !! i) as [x|] eqn:Hi, (h !! j) as [y|] eqn:Hj; try done. by apply Permutation_insert_swap.
Qed.

Lemma up_perm fuel (h : list A) j : up less fuel h j ≡ₚ h.
Proof.
  revert h j. induction fuel as [|f IH]; intros h j; [done|]. cbn [up]. destruct (_ || _); [done|].
  rewrite IH. apply swap_perm.
Qed.

Lemma down_perm fuel (h : list A) i n : down less fuel h i n ≡ₚ h.
Proof.
  revert h i. induction fuel as [|f IH]; intros h i; [done|]. cbn [down]. destruct (Nat.leb _ _); [done|].
  destruct (negb _); [done|]. rewrite IH. apply swap_perm.
Qed.

Lemma heap_Init_perm (h : list A) : heap_Init less h ≡ₚ h.
Proof. unfold heap_Init. apply (foldl_inv (fun h' => h' ≡ₚ h)); [done|]. intros h' i _ <-. apply down_perm. Qed.

Lemma heap_Push_perm (h : list A) x : heap_Push less h x ≡ₚ x :: h.
Proof. unfold heap_Push. rewrite up_perm. by rewrite Permutation_app_comm. Qed.

Lemma heap_Pop_Some (h : list A) x h' : heap_Pop less h = Some (x, h') → h ≡ₚ x :: h'.
Proof.
  unfold heap_Pop. destruct (length h) as [|n] eqn:El; [done|]. set (h1 := down _ _ _ _ _).
  assert (h1 ≡ₚ h) as E by (unfold h1; rewrite down_perm; apply swap_perm).
  destruct (last h1) as [y|] eqn:Ey; [|done]. intros [= -> <-]. rewrite <- E.
  apply last_Some in Ey as [l ->]. apply Permutation_length in E. rewrite length_app, El in E. simpl in E.
  rewrite take_app_le, take_ge by lia. by rewrite Permutation_app_comm.
Qed.

Lemma heap_Pop_None (h : list A) : heap_Pop less h = None → h = [].
Proof.
  unfold heap_Pop. destruct (length h) as [|n] eqn:El; [by intros; apply nil_length_inv|].
  set (h1 := down _ _ _ _ _). assert (h1 ≡ₚ h) as E by (unfold h1; rewrite down_perm; apply swap_perm).
  destruct (last h1) as [y|] eqn:Ey; [done|]. apply last_None in Ey as ->.
  apply Permutation_nil in E as ->. done.
Qed.

End heap_perm.

(** ** Selecting ends

    Every turn takes an item off the queue.  An item enters it when the last
    transaction it waits for is in the block, so that it waits no more, or when
    the order changes, once. *)

Section selecting.
Context `{CR : Crypto} `{SE : ScriptEngine} `{RT : GoRuntime} `{!GoRuntimeOk}.
Context (p : Params) (pol : Policy).

Definition waits (it : txPrioItem) : bool := bool_decide (pi_dependsOn it ≠ ∅).
Definition waiting (items : list txPrioItem) : nat := length (filter (fun it => waits it = true) items).

Definition turnsLeft (s : selection) : nat :=
  length (se_queue s) + waiting (se_items s) + (if se_byFee s then 0 else 1).

Definition dependent (deps : dependMap) (h : bytes) (i : nat) : Prop := ∃ h', deps !! h ≫= (.!! h') = Some i.

(** The transactions that wait for that of item [j] know it. *)
Definition awaited (deps : dependMap) (items : list txPrioItem) (jt : txPrioItem) : Prop :=
  ∀ i, dependent deps (TxHash (pi_tx jt)) i →
    ∃ it, items !! i = Some it ∧ TxHash (pi_tx jt) ∈ pi_dependsOn it.

(** [busy]: the item that was taken off the queue. *)
Record queue_ok (deps : dependMap) (busy : option nat) (items : list txPrioItem) (queue : list nat) : Prop := {
  qk_nodup : NoDup queue;
  qk_ready i : i ∈ queue ∨ busy = Some i → ∃ it, items !! i = Some it ∧ pi_dependsOn it = ∅;
  qk_busy i : busy = Some i → i ∉ queue;
  qk_hashes i j it jt : items !! i = Some it → items !! j = Some jt → TxHash (pi_tx it) = TxHash (pi_tx jt) → i = j;
  qk_named h h' i : deps !! h ≫= (.!! h') = Some i → ∃ it, items !! i = Some it ∧ TxHash (pi_tx it) = h';
  qk_awaited j jt : items !! j = Some jt → j ∈ queue ∨ pi_dependsOn jt ≠ ∅ → awaited deps items jt }.

(** What was chosen is no longer in the queue, and waits for nothing. *)
Record chosen (added : list nat) (s : selection) : Prop := {
  ch_txs : Forall2 (fun i tx => ∃ it, se_items s !! i = Some it ∧ pi_tx it = tx) added (se_txs s);
  ch_nodup : NoDup added;
  ch_done i : i ∈ added → i ∉ se_queue s ∧ ∃ it, se_items s !! i = Some it ∧ pi_dependsOn it = ∅ }.

Lemma waiting_insert (items : list txPrioItem) (i : nat) it it' :
  items !! i = Some it →
  (waiting (<[i := it']> items) + (if waits it then 1 else 0) = waiting items + (if waits it' then 1 else 0))%nat.
Proof.
  unfold waiting. revert i. induction items as [|x items IH]; intros [|i] Hi; try done; simpl in *.
  - simplify_eq. rewrite !filter_cons. destruct (waits it), (waits it'); simpl; repeat case_decide; simpl; try done; lia.
  - specialize (IH i Hi). rewrite !filter_cons. case_decide; simpl; lia.
Qed.

Lemma waits_true it : waits it = true ↔ pi_dependsOn it ≠ ∅.
Proof. apply bool_decide_eq_true. Qed.

Lemma waits_false it : waits it = false ↔ pi_dependsOn it = ∅.
Proof. unfold waits. rewrite bool_decide_eq_false. split; [|naive_solver]. intros. by destruct (decide (pi_dependsOn it = ∅)). Qed.

(** An item stops waiting for a transaction; it is queued if that was the last. *)
Definition freed (h : bytes) (it : txPrioItem) : txPrioItem :=
  mkItem (pi_tx it) (pi_fee it) (pi_priority it) (pi_feePerKB it) (pi_dependsOn it ∖ {[h]}).

Lemma releaseDep_shape h s i it :
  se_items s !! i = Some it →
  ∃ queue, releaseDep h s i = set_queue (<[i := freed h it]> (se_items s)) queue (se_byFee s) s ∧
    queue ≡ₚ (if waits (freed h it) then se_queue s else i :: se_queue s).
Proof.
  intros Hi. unfold releaseDep. rewrite Hi. eexists. split; [done|]. unfold waits, freed. cbn [pi_dependsOn].
  destruct (decide (pi_dependsOn it ∖ {[h]} = ∅)) as [E|E].
  - rewrite bool_decide_true, bool_decide_false by naive_solver. apply heap_Push_perm.
  - by rewrite bool_decide_false, bool_decide_true.
Qed.

Lemma freed_lookup h (items : list txPrioItem) (i : nat) it (k : nat) kt :
  items !! i = Some it → <[i := freed h it]> items !! k = Some kt →
  ∃ kt0, items !! k = Some kt0 ∧ pi_tx kt0 = pi_tx kt ∧ (k ≠ i → kt0 = kt) ∧ (k = i → kt0 = it ∧ kt = freed h it) ∧
    pi_dependsOn kt ⊆ pi_dependsOn kt0 ∧ pi_dependsOn kt0 ⊆ {[h]} ∪ pi_dependsOn kt.
Proof.
  intros Hi. rewrite list_lookup_insert_Some. intros [(<-&<-&_)|[Hne Hk]].
  - exists it. split_and!; try done; simpl; [set_solver|]. intros x Hx. destruct (decide (x = h)); set_solver.
  - exists kt. split_and!; try done; set_solver.
Qed.

Lemma freed_insert h (items : list txPrioItem) (i : nat) it (k : nat) kt :
  items !! i = Some it → items !! k = Some kt →
  <[i := freed h it]> items !! k = Some (if decide (k = i) then freed h it else kt).
Proof.
  intros Hi Hk. case_decide as E; [subst; apply list_lookup_insert_eq; by eapply lookup_lt_Some|].
  by rewrite list_lookup_insert_ne.
Qed.

Lemma queue_release deps j jt i it items queue queue' :
  queue_ok deps (Some j) items queue → items !! j = Some jt → items !! i = Some it →
  TxHash (pi_tx jt) ∈ pi_dependsOn it →
  queue' ≡ₚ (if waits (freed (TxHash (pi_tx jt)) it) then queue else i :: queue) →
  i ≠ j ∧ i ∉ queue ∧ queue_ok deps (Some j) (<[i := freed (TxHash (pi_tx jt)) it]> items) queue'.
Proof.
  intros [Hnd Hre Hbu Hha Hna Haw] Hj Hi Hin Eq. set (h := TxHash (pi_tx jt)) in *.
  destruct (Hre j (or_intror eq_refl)) as (jt'&Hj'&Ej). simplify_eq.
  assert (i ≠ j) as Hij by (intros ->; simplify_eq; set_solver).
  assert (i ∉ queue) as Hiq by (intros Hq; destruct (Hre i (or_introl Hq)) as (?&?&?); simplify_eq; set_solver).
  assert (∀ k, k ∈ queue' ↔ k ∈ queue ∨ (k = i ∧ waits (freed h it) = false)) as Hq.
  { intros k. rewrite Eq. destruct (waits _); rewrite ?elem_of_cons; naive_solver. }
  split_and!; [done..|]. split.
  - rewrite Eq. destruct (waits _); [done|by constructor].
  - intros k Hk. destruct (decide (k = i)) as [->|Hki].
    + exists (freed h it). rewrite (freed_insert h items i it i it), decide_True by done. split; [done|].
      apply waits_false. destruct Hk as [Hk|[= <-]]; [|done]. apply Hq in Hk. naive_solver.
    + destruct (Hre k) as (kt&Hk1&Hk2); [rewrite Hq in Hk; naive_solver|]. exists kt. by rewrite list_lookup_insert_ne.
  - intros k [= <-]. rewrite Hq. specialize (Hbu j eq_refl). naive_solver.
  - intros a b at' bt Ha Hb E. destruct (freed_lookup _ _ _ _ _ _ Hi Ha) as (a0&Ha0&Ea&_), (freed_lookup _ _ _ _ _ _ Hi Hb) as (b0&Hb0&Eb&_).
    eapply Hha; [done..|congruence].
  - intros x x' k Hk. destruct (Hna x x' k Hk) as (kt&Hkt&E). eexists. split; [by eapply freed_insert|]. case_decide; by simplify_eq.
  - intros k kt Hk Hor m Hm. destruct (freed_lookup _ _ _ _ _ _ Hi Hk) as (k0&Hk0&Ek&Hne&Heq&Hsub&_). rewrite <- Ek in *.
    assert (k ≠ j) as Hkj.
    { intros ->. rewrite (Hne (not_eq_sym Hij)) in Hk0. simplify_eq. rewrite Hq in Hor. specialize (Hbu j eq_refl). naive_solver. }
    destruct (Haw k k0 Hk0) with (i := m) as (mt&Hmt&Hd); [|done|].
    { rewrite Hq in Hor. destruct (decide (k = i)) as [->|]; [right; destruct (Heq eq_refl) as [-> _]; set_solver|].
      rewrite (Hne n) in *. naive_solver. }
    eexists. split; [by eapply freed_insert|]. case_decide; [|done]. subst. simplify_eq. cbn [freed pi_dependsOn].
    assert (TxHash (pi_tx k0) ≠ h) by (intros E; by apply Hkj, (Hha k j k0 jt)). set_solver.
Qed.

(** What the turns keep of a selection, while item [busy] is handled. *)
Record select_ok (txs : list MsgTx) (deps : dependMap) (busy : option nat) (added : list nat) (s : selection) :
    Prop := {
  sk_items : pi_tx <$> se_items s = txs;
  sk_queue : queue_ok deps busy (se_items s) (se_queue s);
  sk_chosen : chosen added s }.

Lemma releaseDep_ok txs deps j jt i it s added :
  select_ok txs deps (Some j) added s → se_items s !! j = Some jt →
  se_items s !! i = Some it → TxHash (pi_tx jt) ∈ pi_dependsOn it →
  let s' := releaseDep (TxHash (pi_tx jt)) s i in
  select_ok txs deps (Some j) added s' ∧ se_items s' !! j = Some jt ∧
  (∀ k, k ≠ i → se_items s' !! k = se_items s !! k) ∧ turnsLeft s' = turnsLeft s.
Proof.
  intros [Hit HQ [Htx Hcn Hdo]] Hj Hi Hin s'. destruct (releaseDep_shape (TxHash (pi_tx jt)) s i it Hi) as (queue&Es&Eq).
  destruct (queue_release deps j jt i it _ _ _ HQ Hj Hi Hin Eq) as (Hij&Hiq&HQ'). subst s'. rewrite Es.
  cbn [set_queue se_items se_queue]. split_and!.
  - split; [|done|].
    { cbn [set_queue se_items]. rewrite list_fmap_insert, <- Hit. apply list_insert_id. by rewrite list_lookup_fmap, Hi. }
    split; cbn [set_queue se_items se_queue se_txs].
    + eapply Forall2_impl; [exact Htx|]. intros k tx (kt&Hk&<-). eexists. split; [by eapply freed_insert|].
      case_decide; by simplify_eq.
    + done.
    + intros k Hk. destruct (Hdo k Hk) as (Hkq&kt&Hkt&Ek).
      assert (k ≠ i) as Hki by (intros ->; simplify_eq; set_solver). split.
      * rewrite Eq. destruct (waits _); [done|]. by rewrite not_elem_of_cons.
      * exists kt. by rewrite list_lookup_insert_ne.
  - by rewrite list_lookup_insert_ne.
  - intros k Hk. by rewrite list_lookup_insert_ne.
  - unfold turnsLeft. cbn [set_queue se_items se_queue se_byFee].
    pose proof (waiting_insert (se_items s) i it (freed (TxHash (pi_tx jt)) it) Hi) as Hw.
    rewrite (proj2 (waits_true it)) in Hw by set_solver. apply Permutation_length in Eq. rewrite Eq.
    destruct (waits _); simpl in *; lia.
Qed.

Lemma releaseAll_ok txs deps j jt L s added :
  select_ok txs deps (Some j) added s → se_items s !! j = Some jt → NoDup L →
  (∀ i, i ∈ L → ∃ it, se_items s !! i = Some it ∧ TxHash (pi_tx jt) ∈ pi_dependsOn it) →
  let s' := foldl (releaseDep (TxHash (pi_tx jt))) s L in
  select_ok txs deps (Some j) added s' ∧ turnsLeft s' = turnsLeft s.
Proof.
  intros HS Hj HL. revert s HS Hj. induction HL as [|i L HiL HL IH]; intros s HS Hj Hin; [done|].
  destruct (Hin i ltac:(by left)) as (it&Hi&Hd).
  destruct (releaseDep_ok txs deps j jt i it s added HS Hj Hi Hd) as (HS'&Hj'&Hsame&Ht).
  cbn [foldl]. destruct (IH _ HS' Hj') as [HS'' Ht''].
  - intros k Hk. rewrite Hsame by (intros ->; done). apply Hin. by right.
  - split; [done|]. by rewrite Ht''.
Qed.

(** The items that depend on a transaction, in the order the map is visited. *)
Lemma dependents_NoDup deps busy items queue h :
  queue_ok deps busy items queue → NoDup (map_range (default ∅ (deps !! h))).*2.
Proof.
  intros HQ. rewrite map_range_perm. set (m := default ∅ (deps !! h)).
  apply (NoDup_fmap_2_strong snd); [|apply NoDup_map_to_list].
  intros [a i] [b i'] Ha%elem_of_map_to_list Hb%elem_of_map_to_list E. simpl in E. subst i'.
  assert (∀ x, m !! x = Some i → deps !! h ≫= (.!! x) = Some i) as Hm.
  { intros x Hx. unfold m in Hx. by destruct (deps !! h). }
  destruct (qk_named _ _ _ _ HQ h a i (Hm _ Ha)) as (it&Hi&<-), (qk_named _ _ _ _ HQ h b i (Hm _ Hb)) as (it'&Hi'&<-).
  by simplify_eq.
Qed.

Lemma dependents_dependent deps h i : i ∈ (map_range (default ∅ (deps !! h))).*2 → dependent deps h i.
Proof.
  rewrite map_range_perm. intros ([h' i']&->&Hm)%list_elem_of_fmap. apply elem_of_map_to_list in Hm. exists h'.
  destruct (deps !! h) as [m|]; [done|]. unfold id, default in Hm. by rewrite lookup_empty in Hm.
Qed.

Lemma queue_close deps busy items queue : queue_ok deps busy items queue → queue_ok deps None items queue.
Proof. intros []. split; naive_solver. Qed.

Lemma addToBlock_ok txs deps height j jt w c s added :
  select_ok txs deps (Some j) added s → se_items s !! j = Some jt → j ∉ added → awaited deps (se_items s) jt →
  let s' := addToBlock deps height jt w c s in
  select_ok txs deps None (added ++ [j]) s' ∧ turnsLeft s' = turnsLeft s.
Proof.
  intros [Hit HQ [Htx Hcn Hdo]] Hj Hja Haw. unfold addToBlock. set (s1 := mkSelection _ _ _ _ _ _ _ _ _ _ _).
  assert (select_ok txs deps (Some j) (added ++ [j]) s1) as HS1.
  { split; [done|done|]. split; cbn [s1 se_txs se_items se_queue].
    - apply Forall2_app; [done|]. repeat constructor. by exists jt.
    - apply NoDup_app. split_and!; [done|set_solver|apply NoDup_singleton].
    - intros i [Hi| ->%list_elem_of_singleton]%elem_of_app; [by apply Hdo|].
      split; [by apply (qk_busy _ _ _ _ HQ)|by apply (qk_ready _ _ _ _ HQ); right]. }
  destruct (releaseAll_ok txs deps j jt (map_range (default ∅ (deps !! TxHash (pi_tx jt)))).*2 s1 (added ++ [j]))
    as [[Hit' HQ' Hch'] Ht]; [done|done|by eapply dependents_NoDup| |].
  - intros i Hi%dependents_dependent. by apply Haw.
  - split; [|done]. split; [done|by eapply queue_close|done].
Qed.

(** What a turn can come to. *)
Definition resorted (s : selection) : selection :=
  set_queue (se_items s) (heap_Init (txPQByFee (se_items s)) (se_queue s)) true s.

Definition requeued (i : nat) (s : selection) : selection :=
  set_queue (se_items s) (heap_Push (txPQByFee (se_items s)) (se_queue s) i) true s.

Inductive outcome (deps : dependMap) (coinbase : MsgTx) (height : Z) (segwit : bool) (i : nat) (item : txPrioItem)
    (s : selection) : selection → Prop :=
| outcome_skip : outcome deps coinbase height segwit i item s s
| outcome_witness s' :
    segwit = true → outcome deps coinbase height segwit i item (addWitness coinbase s) s' →
    outcome deps coinbase height segwit i item s s'
| outcome_resort s' :
    se_byFee s = false → outcome deps coinbase height segwit i item (resorted s) s' →
    outcome deps coinbase height segwit i item s s'
| outcome_requeue : se_byFee s = false → outcome deps coinbase height segwit i item s (requeued i (resorted s))
| outcome_add c v :
    (segwit = false → HasWitness (pi_tx item) = false) →
    se_weight s ≤ uint32 (se_weight s + uint32 (GetTransactionWeight (pi_tx item))) < BlockMaxWeight pol →
    se_sigOps s ≤ wrap64 (se_sigOps s + c) ≤ MaxBlockSigOpsCost →
    CheckTransactionInputs p (pi_tx item) height (se_view s) = Ok v →
    outcome deps coinbase height segwit i item s
      (addToBlock deps height item (uint32 (GetTransactionWeight (pi_tx item))) c s).

Lemma selectItem_outcome deps coinbase height segwit i item s :
  outcome deps coinbase height segwit i item s (selectItem p pol deps coinbase height segwit i item s).
Proof.
  unfold selectItem. destruct (negb segwit && HasWitness (pi_tx item)) eqn:Hw; [constructor|].
  assert (segwit = false → HasWitness (pi_tx item) = false) as Hseg by (intros ->; exact Hw). clear Hw.
  destruct (segwit && negb (se_witness s) && HasWitness (pi_tx item)) eqn:Hwit.
  1: apply outcome_witness; [by destruct segwit|]; generalize (addWitness coinbase s); clear s Hwit; intros s.
  all: cbv zeta; destruct (_ || _) eqn:Hwt; [constructor|]; apply orb_false_iff in Hwt as [Hw1%Z.ltb_ge Hw2%Z.leb_gt];
    destruct (GetSigOpCost _ _ _ _ _) as [c|e]; [|constructor].
  all: destruct ((_ <? _) || (_ <? _)) eqn:Hsg; [constructor|]; apply orb_false_iff in Hsg as [Hs1%Z.ltb_ge Hs2%Z.ltb_ge];
    destruct (se_byFee s && _ && _); [constructor|].
  all: destruct (negb (se_byFee s) && _) eqn:Hsw; [apply andb_true_iff in Hsw as [Hbf%negb_true_iff _]|].
  all: cbn [andb]; try (destruct (_ || SFltb _ _); [by apply (outcome_requeue _ _ _ _ _ _ s)|]; apply outcome_resort; [done|]).
  all: change (set_queue (se_items s) (heap_Init (txPQByFee (se_items s)) (se_queue s)) true s) with (resorted s) || idtac.
  all: destruct (CheckTransactionInputs _ _ _ _) as [v|e] eqn:Hin; [|constructor].
  all: destruct (ValidateTransactionScripts _ _ _); [|constructor].
  all: by apply (outcome_add _ _ _ _ _ _ _ c v).
Qed.

Lemma queue_perm deps busy items queue queue' :
  queue' ≡ₚ queue → queue_ok deps busy items queue → queue_ok deps busy items queue'.
Proof.
  intros E [Hnd Hre Hbu Hha Hna Haw]. assert (∀ i, i ∈ queue' ↔ i ∈ queue) as Hin by (intros; by rewrite E).
  split; try done; [by rewrite E|..]; setoid_rewrite Hin; done.
Qed.

Lemma queue_requeue deps i it items queue :
  queue_ok deps (Some i) items queue → items !! i = Some it → awaited deps items it → queue_ok deps None items (i :: queue).
Proof.
  intros [Hnd Hre Hbu Hha Hna Haw] Hi Hit. split; try done.
  - constructor; [by apply Hbu|done].
  - intros k [[->|Hk]%elem_of_cons|?]; [apply Hre; by right|apply Hre; by left|done].
  - intros k kt Hk [[->|Hkq]%elem_of_cons|Hd]; [by simplify_eq|apply (Haw k); auto..].
Qed.

Lemma queue_pop deps i items queue :
  queue_ok deps None items (i :: queue) →
  queue_ok deps (Some i) items queue ∧ ∃ it, items !! i = Some it ∧ awaited deps items it.
Proof.
  intros [Hnd Hre Hbu Hha Hna Haw]. apply NoDup_cons in Hnd as [Hi Hnd].
  destruct (Hre i ltac:(left; by left)) as (it&Hit&E). split.
  - split; try done.
    + intros k [Hk|[= <-]]; apply Hre; left; [by right|by left].
    + by intros k [= <-].
    + intros k kt Hk Hor. apply (Haw k); [done|]. destruct Hor; [left; by right|by right].
  - exists it. split; [done|]. apply (Haw i); [done|]. left. by left.
Qed.

Lemma chosen_queue added s s' :
  chosen added s → se_items s' = se_items s → se_txs s' = se_txs s →
  (∀ i, i ∈ added → i ∈ se_queue s' → i ∈ se_queue s) → chosen added s'.
Proof.
  intros [Htx Hnd Hdo] Ei Et Hq. split; rewrite ?Ei, ?Et; try done. intros i Hi.
  destruct (Hdo i Hi) as [Hiq Hit]. split; [auto|done].
Qed.

Lemma outcome_ok txs deps coinbase height segwit i item s s' added :
  outcome deps coinbase height segwit i item s s' →
  select_ok txs deps (Some i) added s → se_items s !! i = Some item → i ∉ added → awaited deps (se_items s) item →
  (∃ added', select_ok txs deps None added' s') ∧ (turnsLeft s' ≤ turnsLeft s)%nat.
Proof.
  induction 1 as [s|s s' Hseg Ho IH|s s' Hbf Ho IH|s Hbf|s c v _ _ _ _]; intros HS Hi Hia Haw.
  - split; [|done]. exists added. destruct HS. split; [done|by eapply queue_close|done].
  - destruct IH as [Hex Ht]; try done. destruct HS as [Hit HQ HC]. split; [done|done|]. by apply (chosen_queue added s).
  - destruct HS as [Hit HQ HC]. destruct IH as [Hex Ht]; try done.
    + split; [done|eapply queue_perm; [apply heap_Init_perm|done]|]. apply (chosen_queue added s); try done.
      intros k _. cbn [resorted set_queue se_queue]. by rewrite heap_Init_perm.
    + split; [done|]. etransitivity; [exact Ht|]. unfold turnsLeft. cbn [resorted set_queue se_items se_queue se_byFee].
      rewrite Hbf, (Permutation_length (heap_Init_perm _ _)). lia.
  - destruct HS as [Hit HQ HC]. split.
    + exists added. cbn [requeued resorted set_queue se_items se_queue].
      assert (heap_Push (txPQByFee (se_items s)) (heap_Init (txPQByFee (se_items s)) (se_queue s)) i ≡ₚ i :: se_queue s) as E
        by by rewrite heap_Push_perm, heap_Init_perm.
      split; [done|eapply queue_perm; [exact E|by eapply queue_requeue]|]. apply (chosen_queue added s); try done.
      intros k Hk. cbn [requeued resorted set_queue se_items se_queue]. rewrite E, elem_of_cons. naive_solver.
    + unfold turnsLeft. cbn [requeued resorted set_queue se_items se_queue se_byFee].
      rewrite Hbf, (Permutation_length (heap_Push_perm _ _ _)). cbn [length].
      rewrite (Permutation_length (heap_Init_perm _ _)). lia.
  - destruct (addToBlock_ok txs deps height i item (uint32 (GetTransactionWeight (pi_tx item))) c s added) as [HS' Ht]; try done.
    split; [by eexists|]. by rewrite Ht.
Qed.

(** The queue is empty after as many turns as there are items, and one. *)
Lemma selectLoop_ok fuel txs deps coinbase height segwit s added :
  select_ok txs deps None added s → (turnsLeft s ≤ fuel)%nat →
  let s' := selectLoop p pol fuel deps coinbase height segwit s in
  se_queue s' = [] ∧ ∃ added', select_ok txs deps None added' s'.
Proof.
  revert s added. induction fuel as [|f IH]; intros s added HS Ht; cbn [selectLoop].
  - split; [|by eexists]. unfold turnsLeft in Ht. destruct (se_queue s); [done|simpl in Ht; lia].
  - destruct (heap_Pop _ _) as [[i queue]|] eqn:Epop; [|apply heap_Pop_None in Epop; split; [done|by eexists]].
    apply heap_Pop_Some in Epop. destruct HS as [Hit HQ HC].
    destruct (queue_pop deps i _ _ (queue_perm _ _ _ _ _ (symmetry Epop) HQ)) as (HQ'&it&Hi&Haw).
    cbn [set_queue se_items]. rewrite Hi. set (s1 := set_queue (se_items s) queue (se_byFee s) s).
    assert (i ∉ added) as Hia.
    { intros Hin. apply (ch_done _ _ HC i Hin). rewrite Epop. by left. }
    assert (select_ok txs deps (Some i) added s1) as HS1.
    { split; [done|done|]. apply (chosen_queue added s); try done. intros k _ Hk. rewrite Epop. by right. }
    destruct (outcome_ok txs deps coinbase height segwit i it s1 _ added (selectItem_outcome _ _ _ _ _ _ _)) as [[added' HS'] Ht'];
      try done.
    apply (IH _ added' HS'). etransitivity; [exact Ht'|]. unfold turnsLeft in *.
    apply Permutation_length in Epop. cbn [s1 set_queue se_items se_queue se_byFee] in *. simpl in Epop. lia.
Qed.

(** *** What gathering leaves *)

Record gather_ok (txs : list MsgTx) (g : gathered) : Prop := {
  gk_nodup : NoDup (ga_queue g);
  gk_ready i : i ∈ ga_queue g → ∃ it, ga_items g !! i = Some it ∧ pi_dependsOn it = ∅;
  gk_items : pi_tx <$> ga_items g `sublist_of` txs;
  gk_deps h h' i : ga_dependers g !! h ≫= (.!! h') = Some i →
    ∃ it, ga_items g !! i = Some it ∧ TxHash (pi_tx it) = h' ∧ h ∈ pi_dependsOn it;
  gk_count : (length (ga_queue g) + waiting (ga_items g) ≤ length (ga_items g))%nat }.

Lemma gather_queue txs g : NoDup (TxHash <$> txs) → gather_ok txs g → queue_ok (ga_dependers g) None (ga_items g) (ga_queue g).
Proof.
  intros Hh [Hnd Hre Hit Hde _]. split; try done.
  - intros i [Hi|?]; [by apply Hre|done].
  - intros i j it jt Hi Hj E. apply (fun H => sublist_NoDup _ _ H (fmap_sublist TxHash _ _ Hit)) in Hh.
    eapply (NoDup_lookup _ i j _ Hh); rewrite !list_lookup_fmap; [by rewrite Hi|by rewrite Hj, E].
  - intros h h' i Hi. destruct (Hde h h' i Hi) as (it&?&?&_). eauto.
  - intros j jt _ _ i [h' Hi]. destruct (Hde _ h' i Hi) as (it&?&_&?). eauto.
Qed.

Lemma dependLoop_spec src utxos i hash l on deps :
  let '(_, on', deps') := dependLoop src utxos i hash l on deps in
  on ⊆ on' ∧ ∀ h h' k, deps' !! h ≫= (.!! h') = Some k →
    deps !! h ≫= (.!! h') = Some k ∨ (h' = hash ∧ k = i ∧ h ∈ on').
Proof.
  revert on deps. induction l as [|ti l IH]; intros on deps; cbn [dependLoop]; [by split; auto|].
  destruct (match LookupEntry _ _ with Some _ => _ | None => _ end); [apply IH|].
  destruct (negb _); [by split; auto|]. set (o := Hash (PreviousOutPoint ti)).
  specialize (IH ({[o]} ∪ on) (<[o := <[hash := i]> (default ∅ (deps !! o))]> deps)).
  destruct (dependLoop _ _ _ _ _ _ _) as [[? on'] deps']. destruct IH as [Hsub IH]. split; [set_solver|].
  intros h h' k [Hk|?]%IH; [|by right]. destruct (decide (o = h)) as [<-|Hne].
  - rewrite lookup_insert_eq in Hk. simpl in Hk. apply lookup_insert_Some in Hk as [[<- <-]|[_ Hk]]; [right; set_solver|].
    left. destruct (deps !! o); [done|]. unfold id, default in Hk. by rewrite lookup_empty in Hk.
  - left. by rewrite lookup_insert_ne in Hk.
Qed.

Lemma waiting_snoc items it : waiting (items ++ [it]) = (waiting items + if waits it then 1 else 0)%nat.
Proof.
  unfold waiting. rewrite filter_app, length_app. f_equal. rewrite filter_cons, filter_nil.
  destruct (waits it); [by rewrite decide_True|by rewrite decide_False].
Qed.

(** A new item at the end of the list. *)
Lemma gather_snoc txs g it queue deps v :
  gather_ok txs g →
  (queue = ga_queue g ∨ (pi_dependsOn it = ∅ ∧ queue ≡ₚ length (ga_items g) :: ga_queue g)) →
  (∀ h h' k, deps !! h ≫= (.!! h') = Some k → ga_dependers g !! h ≫= (.!! h') = Some k ∨
     (h' = TxHash (pi_tx it) ∧ k = length (ga_items g) ∧ h ∈ pi_dependsOn it)) →
  gather_ok (txs ++ [pi_tx it]) (mkGathered (ga_items g ++ [it]) queue deps v).
Proof.
  intros [Hnd Hre Hit Hde Hct] Hq Hd.
  assert (∀ i, i ∈ ga_queue g → i < length (ga_items g))%nat as Hlt.
  { intros i Hi. destruct (Hre i Hi) as (?&?&_). by eapply lookup_lt_Some. }
  assert (∀ i jt, ga_items g !! i = Some jt → (ga_items g ++ [it]) !! i = Some jt) as Hold by (intros; by apply lookup_app_l_Some).
  assert ((ga_items g ++ [it]) !! length (ga_items g) = Some it) as Hnew by by apply list_lookup_middle.
  split; cbn [ga_items ga_queue ga_dependers].
  - destruct Hq as [->|[_ ->]]; [done|]. constructor; [|done]. intros Hi%Hlt. lia.
  - intros i. destruct Hq as [->|[E ->]]; [|rewrite elem_of_cons; intros [->|Hi]; [by exists it|revert Hi]];
      intros (jt&?&?)%Hre; eauto.
  - rewrite fmap_app. by apply sublist_app.
  - intros h h' k [(jt&?&?&?)%Hde|(->&->&?)]%Hd; eauto.
  - rewrite waiting_snoc, length_app. simpl. destruct Hq as [->|[E Hq]]; [destruct (waits it); lia|].
    apply Permutation_length in Hq. simpl in Hq. rewrite (proj2 (waits_false it) E). lia.
Qed.

Lemma gather_mono txs txs' g : txs `sublist_of` txs' → gather_ok txs g → gather_ok txs' g.
Proof. intros Hs []. split; try done. by etransitivity. Qed.

Lemma gatherTx_ok now src byFee height txs g d b :
  gather_ok txs g →
  run (gatherTx now src byFee height g d) b (fun r _ =>
    ∃ g', r = Ok g' ∧ gather_ok (txs ++ [td_Tx d]) g').
Proof.
  intros HG. assert (gather_ok (txs ++ [td_Tx d]) g) as HG'.
  { eapply gather_mono; [|done]. by apply sublist_inserts_r. }
  unfold run, gatherTx. destruct (_ || _); [eauto|]. destruct (FetchUtxoView _ b) as [[utxos|e] b1]; [|eauto].
  pose proof (dependLoop_spec src utxos (length (ga_items g)) (TxHash (td_Tx d)) (txIn (td_Tx d)) ∅ (ga_dependers g)) as HD.
  destruct (dependLoop _ _ _ _ _ _ _) as [[available on] deps]. destruct HD as [_ HD].
  destruct (negb available).
  - eexists. split; [done|]. by apply (gather_snoc txs g (mkItem (td_Tx d) 0 (S754_zero false) 0 on)); [|left|].
  - eexists. split; [done|]. apply (gather_snoc txs g (mkItem (td_Tx d) _ _ _ on)); [done| |done].
    case_bool_decide as E; [right|by left]. split; [done|apply heap_Push_perm].
Qed.

Lemma gatherLoop_ok now src byFee height l txs g b :
  gather_ok txs g →
  run (gatherLoop now src byFee height l g) b (fun r _ =>
    ∃ g', r = Ok g' ∧ gather_ok (txs ++ (td_Tx <$> l)) g').
Proof.
  revert txs g b. induction l as [|d l IH]; intros txs g b HG; cbn [gatherLoop].
  - apply run_ret. exists g. split; [done|]. by rewrite app_nil_r.
  - apply run_bind. eapply run_mono; [by apply gatherTx_ok|]. intros ? b' (g'&->&HG').
    eapply run_mono; [by apply IH|]. intros r b2 (g2&->&HG2). exists g2. split; [done|].
    by rewrite fmap_cons, cons_middle, app_assoc.
Qed.

(** *** Limits *)

Definition weight32 (tx : MsgTx) : Z := uint32 (GetTransactionWeight tx).

(** What the turns keep of the block, when no witness is allowed. *)
Record within (start : Z) (s : selection) : Prop := {
  wi_range : 0 ≤ se_weight s < two32;
  wi_weight : se_weight s = start + sumZ (weight32 <$> se_txs s);
  wi_max : se_txs s = [] ∨ se_weight s < BlockMaxWeight pol;
  wi_sigOps : se_sigOps s ≤ MaxBlockSigOpsCost;
  wi_plain : Forall (fun tx => HasWitness tx = false) (se_txs s);
  wi_witness : se_witness s = false;
  wi_fees : se_totalFees s = wrap64 (sumZ (se_fees s)) ∧ length (se_fees s) = length (se_txs s) }.

Lemma within_queue start items queue byFee s : within start s → within start (set_queue items queue byFee s).
Proof. by intros []. Qed.

Lemma releaseDep_core h s i : ∃ items queue, releaseDep h s i = set_queue items queue (se_byFee s) s.
Proof.
  unfold releaseDep. destruct (se_items s !! i); [by eexists _, _|]. exists (se_items s), (se_queue s). by destruct s.
Qed.

Lemma within_add start deps height item c s :
  within start s → HasWitness (pi_tx item) = false →
  se_weight s ≤ uint32 (se_weight s + weight32 (pi_tx item)) < BlockMaxWeight pol →
  wrap64 (se_sigOps s + c) ≤ MaxBlockSigOpsCost →
  within start (addToBlock deps height item (weight32 (pi_tx item)) c s).
Proof.
  intros [Hr Hw Hm Hs Hp Hn [Hf Hl]] Hwit Hfit Hsig. unfold addToBlock.
  apply (foldl_inv (within start)).
  - assert (0 ≤ weight32 (pi_tx item) < two32) as Hwr by (apply Z.mod_pos_bound; done).
    assert (uint32 (se_weight s + weight32 (pi_tx item)) = se_weight s + weight32 (pi_tx item)) as E.
    { unfold uint32, two32 in *. destruct (Z.lt_ge_cases (se_weight s + weight32 (pi_tx item)) 4294967296);
        [by apply Z.mod_small; lia|].
      rewrite <- (Z.mod_unique (se_weight s + weight32 (pi_tx item)) 4294967296 1
                    (se_weight s + weight32 (pi_tx item) - 4294967296)) in Hfit by lia. lia. }
    split; cbn [se_weight se_txs se_sigOps se_witness se_totalFees se_fees].
    + apply Z.mod_pos_bound. done.
    + rewrite E, fmap_app, sumZ_app, Hw, list_fmap_singleton, sumZ_cons. change (sumZ []) with 0. lia.
    + right. apply Hfit.
    + done.
    + apply Forall_app. split; [done|]. by repeat constructor.
    + done.
    + rewrite Hf, !length_app, Hl, sumZ_app, wrap64_add_l. split; [|done]. f_equal. rewrite sumZ_cons. change (sumZ []) with 0. lia.
  - intros s' i _ HW. destruct (releaseDep_core (TxHash (pi_tx item)) s' i) as (items&queue&->). by apply within_queue.
Qed.

Lemma outcome_within start deps coinbase height i item s s' :
  outcome deps coinbase height false i item s s' → within start s → within start s'.
Proof.
  induction 1 as [s|s s' [=]|s s' Hbf Ho IH|s Hbf|s c v Hw Hfit [_ Hsig] _]; intros HW.
  - done.
  - apply IH. by apply within_queue.
  - by do 2 apply within_queue.
  - apply within_add; auto.
Qed.

Lemma selectLoop_within fuel start deps coinbase height s :
  within start s → within start (selectLoop p pol fuel deps coinbase height false s).
Proof.
  revert s. induction fuel as [|f IH]; intros s HW; cbn [selectLoop]; [done|].
  destruct (heap_Pop _ _) as [[i queue]|]; [|done]. apply IH.
  destruct (se_items _ !! i) as [it|]; [|by apply within_queue].
  eapply outcome_within; [apply selectItem_outcome|]. by apply within_queue.
Qed.

Lemma chosen_distinct txs deps busy added s :
  select_ok txs deps busy added s → NoDup (TxHash <$> se_txs s) ∧ ∀ tx, tx ∈ se_txs s → tx ∈ txs.
Proof.
  intros [Hit HQ [Htx Hnd Hdo]]. split.
  - apply NoDup_alt. intros a b h Ha Hb. apply list_lookup_fmap_Some in Ha as (x&->&Ha), Hb as (y&E&Hb).
    destruct (Forall2_lookup_r _ _ _ _ _ Htx Ha) as (i&Hi&it&Hit1&<-), (Forall2_lookup_r _ _ _ _ _ Htx Hb) as (j&Hj&jt&Hjt&<-).
    assert (i = j) as <- by (by eapply (qk_hashes _ _ _ _ HQ)). by eapply NoDup_lookup.
  - intros tx (a&Ha)%list_elem_of_lookup. destruct (Forall2_lookup_r _ _ _ _ _ Htx Ha) as (i&_&it&Hi&<-).
    rewrite <- Hit. apply list_elem_of_fmap. exists it. split; [done|]. by eapply list_elem_of_lookup_2.
Qed.

Lemma startSelection_ok txs coinbase g byFee :
  NoDup (TxHash <$> txs) → gather_ok txs g → CountSigOps coinbase * WitnessScaleFactor ≤ MaxBlockSigOpsCost →
  let s := startSelection coinbase g byFee in
  select_ok (pi_tx <$> ga_items g) (ga_dependers g) None [] s ∧ (turnsLeft s ≤ selectTurns (ga_items g))%nat ∧
  within (se_weight s) s.
Proof.
  intros Hnd HG Hsig s. split_and!.
  - split; [done|by eapply gather_queue|]. split; [constructor|apply NoDup_nil_2|by intros i ?%not_elem_of_nil].
  - pose proof (gk_count _ _ HG). unfold turnsLeft, selectTurns. cbn [s startSelection se_queue se_items se_byFee]. destruct byFee; lia.
  - split; cbn [s startSelection se_weight se_txs se_sigOps se_witness se_totalFees se_fees]; try done.
    + by apply Z.mod_pos_bound.
    + rewrite fmap_nil. change (sumZ []) with 0. lia.
    + by left.
Qed.

(** C35. The selection of transactions for a block ends, whatever the mempool
    holds and however its transactions depend on each other, if it holds each
    once: after as many turns as there are transactions, and one more, the
    queue is empty. The transactions chosen are different ones of the mempool,
    none has a witness while segwit is not active, with the coinbase they weigh
    less than the policy allows, and they stay within the signature operations
    of a block. *)
Theorem selection_spec now src byFee height coinbase b :
  NoDup (TxHash <$> (td_Tx <$> MiningDescs src)) →
  CountSigOps coinbase * WitnessScaleFactor ≤ MaxBlockSigOpsCost →
  run (gatherLoop now src byFee height (MiningDescs src) (mkGathered [] [] ∅ (NewUtxoViewpoint zeroHash))) b (fun r _ =>
    ∃ g, r = Ok g ∧
    let start := startSelection coinbase g byFee in
    let s := selectLoop p pol (selectTurns (ga_items g)) (ga_dependers g) coinbase height false start in
    se_queue s = [] ∧ NoDup (TxHash <$> se_txs s) ∧
    Forall (fun tx => tx ∈ td_Tx <$> MiningDescs src ∧ HasWitness tx = false) (se_txs s) ∧
    (se_txs s = [] ∨ se_weight start + sumZ (weight32 <$> se_txs s) < BlockMaxWeight pol) ∧
    se_sigOps s ≤ MaxBlockSigOpsCost ∧ se_totalFees s = wrap64 (sumZ (se_fees s))).
Proof.
  intros Hnd Hsig. eapply run_mono.
  - apply (gatherLoop_ok now src byFee height (MiningDescs src) []).
    split; cbn [ga_queue ga_items ga_dependers]; [apply NoDup_nil_2|by intros i ?%not_elem_of_nil|done| |done].
    intros h h' i. by rewrite lookup_empty.
  - intros r b' (g&->&HG). exists g. split; [done|]. intros start s. rewrite app_nil_l in HG.
    destruct (startSelection_ok _ coinbase g byFee Hnd HG Hsig) as (HS&Ht&HW). fold start in HS, Ht, HW.
    destruct (selectLoop_ok _ _ _ coinbase height false _ _ HS Ht) as [Hq (added&HS')]. fold s in Hq, HS'.
    pose proof (selectLoop_within (selectTurns (ga_items g)) _ (ga_dependers g) coinbase height _ HW) as HW'. fold s in HW'.
    destruct (chosen_distinct _ _ _ _ _ HS') as [Hdis Hin]. destruct HW' as [_ Hw Hm Hs Hp _ [Hf _]].
    split_and!; try done; [|by rewrite <- Hw]. apply Forall_forall. intros tx Htx. rewrite Forall_forall in Hp.
    split; [|by apply Hp]. eapply elem_of_submseteq; [by apply Hin|]. apply sublist_submseteq, HG.
Qed.

End selecting.

(** ** A concrete mempool *)

Module Samples.

#[local] Existing Instance toyCrypto.
#[local] Existing Instance goRuntime.
#[local] Existing Instance goRuntime_ok.

#[local] Instance acceptsAll : ScriptEngine := {|
  checkBlockScripts := fun _ _ _ => Ok tt; ValidateTransactionScripts := fun _ _ _ => Ok tt |}.

Definition coinOp : OutPoint := mkOutPoint (replicate 32 9) 0.

(** A transaction that spends a coin of the chain, and one that spends it. *)
Definition parentTx : MsgTx := mkMsgTx 1 [mkTxIn coinOp [] [] 0] [mkTxOut 70 [81]] 0.
Definition childTx : MsgTx := mkMsgTx 1 [mkTxIn (mkOutPoint (TxHash parentTx) 0) [] [] 0] [mkTxOut 60 [81]] 0.
Definition mempool : TxSource :=
  mkSource [mkDesc childTx 10 9000; mkDesc parentTx 30 1000] (fun h => bool_decide (h = TxHash parentTx)).

Definition anyChain : BlockChain :=
  mkChain ∅ ∅ ∅ [] (mkBest zeroHash 0 0 0 0 0 0 0)
    (mkCache [∅] [4] zeroHash {[ coinOp := mkCoin 100 [81] 1 false ]} None [] [] [])
    (mkDB ∅ ∅ ∅ ∅ None) ∅ ∅ None (mkCaches [] [] false).

Definition freePolicy : Policy := mkPolicy 0 4000000 0 0.

Definition gatheredOf : gathered :=
  match gatherLoop 0 mempool true 2 (MiningDescs mempool) (mkGathered [] [] ∅ (NewUtxoViewpoint zeroHash)) anyChain with
  | (Ok g, _) => g
  | _ => mkGathered [] [] ∅ (NewUtxoViewpoint zeroHash)
  end.

Definition chosenOf : selection :=
  selectLoop (dogecoinVMParams [] None) freePolicy 3 (ga_dependers gatheredOf) (NewMsgTx 1) 2 false
    (startSelection (NewMsgTx 1) gatheredOf true).

Lemma chosenOf_txs : se_txs chosenOf = [parentTx; childTx].
Proof. vm_compute. reflexivity. Qed.

Lemma gathered_two : length (ga_items gatheredOf) = 2%nat.
Proof. vm_compute. reflexivity. Qed.

Lemma mempool_distinct : NoDup (TxHash <$> (td_Tx <$> MiningDescs mempool)).
Proof. apply (bool_decide_unpack _). vm_compute. exact I. Qed.

Lemma selection_spec_witness :
  se_queue chosenOf = [] ∧ se_sigOps chosenOf ≤ MaxBlockSigOpsCost ∧ se_txs chosenOf = [parentTx; childTx].
Proof.
  pose proof (selection_spec (dogecoinVMParams [] None) freePolicy 0 mempool true 2 (NewMsgTx 1) anyChain
    mempool_distinct) as Hs.
  assert (CountSigOps (NewMsgTx 1) * WitnessScaleFactor ≤ MaxBlockSigOpsCost) as Hc by (vm_compute; discriminate).
  specialize (Hs Hc). pose proof gathered_two as Hl. unfold chosenOf. pose proof chosenOf_txs as Htx. unfold chosenOf in Htx.
  unfold run in Hs. unfold gatheredOf in *.
  destruct (gatherLoop 0 mempool true 2 (MiningDescs mempool) (mkGathered [] [] ∅ (NewUtxoViewpoint zeroHash)) anyChain)
    as [r b'] eqn:E. destruct Hs as (g&Er&Hq&_&_&_&Hm&_). subst r.
  unfold selectTurns in Hq, Hm. rewrite Hl in Hq, Hm. exact (conj Hq (conj Hm Htx)).
Defined.

End Samples.
