(* ===== verification/Reading.v ===== *)
(** * What only reads the chain

    Checking a block, making a template and looking a block up change nothing
    but the caches: the chain stands for the same blocks, the disk holds the
    same bytes, and a block that passed the check still passes it. *)

From Stdlib Require Import ZArith List Lia.
From stdpp Require Import base list gmap strings.
From S2P Require Import Prelude.
From S2P Require Import Wire.
From S2P Require Import Chain.
From S2P Require Import Merkle.
From S2P Require Import Versionbits.
From S2P Require Import Utxo.
From S2P Require Import Validate.
From S2P Require Import Context.
From S2P Require Import Process.
From S2P Require Import Extend.
From S2P Require Import Agree.
From S2P Require Import Start.
From S2P Require Import Mining.

Open Scope Z_scope.

Definition withCaches (u : utxoCache) (vb : vbCaches) (b : BlockChain) : BlockChain :=
  mkChain (bc_heap b) (bc_index b) (bc_dirty b) (bc_best b) (bc_snapshot b) u (bc_db b) (bc_orphans b)
    (bc_prevOrphans b) (bc_oldestOrphan b) vb.

Section reading.
Context `{CR : Crypto} `{SE : ScriptEngine} `{RT : GoRuntime} (p : Params) (PO : params_ok p).

Definition reading (b b' : BlockChain) : Prop :=
  ∃ u vb, b' = withCaches u vb b ∧ quiet b (set_utxo u b) ∧
    (tree_ok (bc_heap b) → distinct_hashes (bc_heap b) → coherent (bc_heap b) (p_Deploy p) (bc_vb b) →
     coherent (bc_heap b) (p_Deploy p) vb).

Lemma reading_quiet b b' : quiet b b' → reading b b'.
Proof. intros HQ. pose proof HQ as (u&->&_). exists u, (bc_vb b). split; [by destruct b|]. by split. Qed.

Lemma reading_caches b vb :
  (tree_ok (bc_heap b) → distinct_hashes (bc_heap b) → coherent (bc_heap b) (p_Deploy p) (bc_vb b) →
   coherent (bc_heap b) (p_Deploy p) vb) → reading b (withCaches (bc_utxo b) vb b).
Proof. intros Hc. exists (bc_utxo b), vb. split; [done|]. split; [|done]. assert (set_utxo (bc_utxo b) b = b) as -> by by destruct b. done. Qed.

#[export] Instance reading_preorder : PreOrder reading.
Proof.
  split.
  - intros b. apply reading_quiet. done.
  - intros b1 b2 b3 (u&vb&->&HQ&Hc) (u'&vb'&->&HQ'&Hc'). exists u', vb'. split; [done|]. split.
    + etrans; [exact HQ|]. destruct HQ' as (w&E&He&Hcw&Hs&HR). injection E as <-.
      exists u'. split; [done|]. split; [exact He|]. split; [exact Hcw|]. split; [exact Hs|exact HR].
    + cbn in Hc'. auto.
Qed.

Lemma reading_idle b b' : reading b b' → bc_vb b' = bc_vb b → idle b b'.
Proof.
  intros (u&vb&->&HQ&_) E. simpl in E. subst vb. apply quiet_idle in HQ. assert (withCaches u (bc_vb b) b = set_utxo u b) as -> by by destruct b.
  done.
Qed.

Lemma frame_reading b b' g blks : reading b b' → frame_ok p b g blks → frame_ok p b' g blks.
Proof.
  intros (u&vb&->&_&Hc) HF. pose proof (frame_distinct _ _ _ _ HF) as HD.
  destruct HF as [WF ? ? ? ? ? Hco ? ? ? ? ? ? [] ? ?]. specialize (Hc WF HD Hco). by split.
Qed.

Lemma chain_reading b b' g blks : reading b b' → chain_ok p b g blks → chain_ok p b' g blks.
Proof.
  intros HR (HF&HC&HH). split; [by eapply frame_reading|]. split; [|done].
  destruct HR as (u&vb&->&(w&E&_&_&(Ed&Ec&_)&HR)&_). injection E as <-. destruct HC as [? ? ? ? ? (k&?&?&?)]. split; try done.
  - by apply HR.
  - exists k. cbn. by rewrite Ed, Ec.
Qed.

Lemma linear_reading b b' g blks : reading b b' → linear_ok p b g blks → linear_ok p b' g blks.
Proof.
  intros HR [HC Hall Hl Hlv Hg]. pose proof (chain_reading _ _ _ _ HR HC) as HC'.
  destruct HR as (u&vb&->&_). by split.
Qed.

Lemma calm_reading b b' : reading b b' → calm (bc_utxo b) → calm (bc_utxo b').
Proof. intros (u&vb&->&(w&E&_&Hc&_)&_). injection E as <-. apply Hc. Qed.

Lemma disk_reading b b' : reading b b' → diskOf b' = diskOf b.
Proof.
  intros (u&vb&->&(w&E&_&_&(Ed&Ec&_)&_)&_). injection E as <-. unfold diskOf. cbn. by rewrite Ed, Ec.
Qed.

Lemma passed_reading now b b' blk : reading b b' → passed p now b blk → passed p now b' blk.
Proof.
  intros (u&vb&->&HQ&_) HP. apply (passed_quiet p now _ _ blk HQ) in HP. by destruct HP.
Qed.

Lemma snapshot_reading b b' :
  reading b b' → bc_snapshot b' = bc_snapshot b ∧ bc_best b' = bc_best b ∧ bc_heap b' = bc_heap b ∧ bc_index b' = bc_index b.
Proof. by intros (u&vb&->&_). Qed.

(** ** Methods *)

Definition readsOnly {A} (g : MsgBlock) (blks : list MsgBlock) (m : Ch A) : Prop :=
  ∀ b, chain_ok p b g blks → run m b (fun _ b' => reading b b').

Section methods.
Context (g : MsgBlock) (blks : list MsgBlock).

Lemma readsOnly_ret {A} (a : A) : readsOnly g blks (mret a).
Proof. intros b _. apply run_ret. done. Qed.

Lemma readsOnly_lift {A} (r : result A) : readsOnly g blks (st_lift r).
Proof. intros b _. apply run_lift. done. Qed.

Lemma readsOnly_bind {A B} (m : Ch A) (f : A → Ch B) :
  readsOnly g blks m → (∀ a, readsOnly g blks (f a)) → readsOnly g blks (m ≫= f).
Proof.
  intros Hm Hf b HOK. apply run_bind. eapply run_mono; [by apply Hm|]. intros [a|e] b' HR; [|done].
  eapply run_mono; [apply Hf; by eapply chain_reading|]. intros r b'' HR'. by etrans.
Qed.

Lemma readsOnly_get {A} (f : BlockChain → Ch A) :
  (∀ b, chain_ok p b g blks → run (f b) b (fun _ b' => reading b b')) → readsOnly g blks (st_get ≫= f).
Proof. intros Hf b HOK. apply run_get. by apply Hf. Qed.

Lemma readsOnly_dbView : readsOnly g blks dbView.
Proof.
  intros b (HF&HC&_). unfold run, dbView, onCache.
  destruct (dbTx_reps (bc_utxo b) _ _ (ca_reps _ _ _ _ HC)) as (r&u&E&HR&Hs&Hrest). rewrite E. apply reading_quiet.
  exists u. split; [done|]. unfold dbTx in E. unfold calm.
  destruct (uc_failures (bc_utxo b)) as [|f l] eqn:Ef; simplify_eq; cbn.
  - split; [done|]. split; [done|]. split; done.
  - split; [done|]. split; [by intros|]. split; [done|]. intros U K HU. eapply reps_transfer; [apply HC|done..].
Qed.

Lemma readsOnly_nodeAt q : readsOnly g blks (nodeAt q).
Proof. unfold nodeAt. apply readsOnly_get. intros b HOK. by apply readsOnly_lift. Qed.

Lemma readsOnly_fetch ops v : readsOnly g blks (onCache (fetchUtxosFromCache ops v)).
Proof.
  intros b (HF&HC&_). unfold run, onCache, fetchUtxosFromCache.
  destruct ops as [|op l]; [by apply reading_quiet; exists (bc_utxo b); destruct b|]. rewrite st_bind_run.
  pose proof (steady_fetchEntries (op :: l) (bc_utxo b)) as Hst. unfold run in Hst.
  destruct (fetchEntries_spec (op :: l) (bc_utxo b) _ _ (ca_reps _ _ _ _ HC)) as (r&u&E&HR&Hs&He&_). rewrite E in Hst |- *.
  assert (reading b (set_utxo u b)) as HRd.
  { apply reading_quiet. exists u. split; [done|]. split; [done|]. split; [by intros Hc; apply Hst|]. split; [done|].
    intros U K HU. eapply reps_transfer; [apply HC|done..]. }
  by destruct r.
Qed.

Lemma readsOnly_gather now src byFee h l ga : readsOnly g blks (gatherLoop now src byFee h l ga).
Proof.
  revert ga; induction l as [|d l IH]; intros ga; [apply readsOnly_ret|]. cbn [gatherLoop]. apply readsOnly_bind; [|done].
  intros b HOK. unfold run, gatherTx. destruct (_ || _); [done|].
  pose proof (readsOnly_fetch ((outsOf (td_Tx d)).*1 ++ (if IsCoinBaseTx (td_Tx d) then [] else prevOuts (td_Tx d)))
    (NewUtxoViewpoint zeroHash) b HOK) as HR. unfold run in HR. unfold FetchUtxoView.
  destruct (onCache _ b) as [[utxos|e] b']; [|done].
  destruct (dependLoop _ _ _ _ _ _ _) as [[available on] dependers]. by destruct (negb available).
Qed.

Lemma readsOnly_deployment H b prevNode i :
  chain_ok p b g blks → H = bc_heap b → (∀ q, prevNode = Some q → ∃ nd, H !! q = Some nd ∧ bn_height nd < 2147483647) →
  run (onVersionbits (deploymentState H (p_Deploy p) prevNode i)) b (fun _ b' => reading b b').
Proof.
  intros (HF&_) -> Hprev. unfold run, onVersionbits, deploymentState.
  destruct (p_Deployments (p_Deploy p) !! i) as [d|] eqn:Ed; [|by apply (reading_caches b (bc_vb b))].
  destruct (deployment_thresholdState (bc_heap b) (fk_tree _ _ _ _ HF) (frame_distinct _ _ _ _ HF) (p_Deploy p)
    (po_window p PO) i d prevNode (bc_vb b) (fk_caches _ _ _ _ HF) Ed Hprev) as (vb&->&Hc).
  by apply (reading_caches b vb).
Qed.

Lemma readsOnly_version H b prevNode :
  chain_ok p b g blks → H = bc_heap b → (∀ q, prevNode = Some q → ∃ nd, H !! q = Some nd ∧ bn_height nd < 2147483647) →
  run (onVersionbits (calcNextBlockVersion H (p_Deploy p) prevNode)) b (fun _ b' => reading b b').
Proof.
  intros (HF&_) -> Hprev. unfold run, onVersionbits.
  destruct (calcNextBlockVersion_spec (bc_heap b) (fk_tree _ _ _ _ HF) (frame_distinct _ _ _ _ HF) (p_Deploy p)
    (po_window p PO) prevNode (bc_vb b) (fk_caches _ _ _ _ HF) Hprev) as (vb&->&Hc).
  by apply (reading_caches b vb).
Qed.

Context (Hlen : Z.of_nat (length blks) < 2147483646).

Lemma chain_tip_low b t td : chain_ok p b g blks → bc_heap b !! t = Some td → bc_best b = view_of (bc_heap b) t →
  ∀ q, Some t = Some q → ∃ nd, bc_heap b !! q = Some nd ∧ bn_height nd < 2147483647.
Proof.
  intros (HF&_) Ht Ev q [= <-]. destruct (frame_tip p b g blks t td HF Ht Ev). exists td. split; [done|lia].
Qed.

(** A template: only caches change, and the block passed the check. *)
Lemma NewBlockTemplate_run pol now src payTo b :
  chain_ok p b g blks →
  run (NewBlockTemplate p pol now src payTo) b (fun r b' => reading b b' ∧
    ∀ t, r = Ok t → passed p now b' (bt_Block t) ∧ Nonce (bl_Header (bt_Block t)) = 0 ∧
      bt_Height t = int32_wrap (bs_Height (bc_snapshot b) + 1)).
Proof.
  intros HOK. unfold NewBlockTemplate. apply run_get.
  assert (∀ b' e, reading b b' → reading b b' ∧ ∀ t, @Err BlockTemplate e = Ok t → passed p now b' (bt_Block t) ∧
    Nonce (bl_Header (bt_Block t)) = 0 ∧ bt_Height t = int32_wrap (bs_Height (bc_snapshot b) + 1)) as Hfail by done.
  apply run_lift_bind; [intros script _|intros; by apply Hfail].
  apply run_lift_bind; [intros coinbase _|intros; by apply Hfail].
  apply run_bind. eapply run_mono; [by apply readsOnly_gather|]. intros [ga|e] b1 HR1; [|by apply Hfail].
  pose proof (chain_reading _ _ _ _ HR1 HOK) as HOK1. apply run_get.
  destruct (fk_tip _ _ _ _ (proj1 HOK1)) as (t&td&Ht&Ev&_). pose proof (chain_tip_low b1 t td HOK1 Ht Ev) as Hlow.
  rewrite Ev, (view_of_tip _ t td Ht). apply run_bind.
  eapply run_mono; [by apply (readsOnly_deployment (bc_heap b1) b1)|]. intros [st|e] b2 HR2; [|apply Hfail; by etrans].
  set (s := selectLoop _ _ _ _ _ _ _ _). destruct (if se_witness s then _ else _) as [cb commitment].
  pose proof (chain_reading _ _ _ _ HR2 HOK1) as HOK2. destruct (snapshot_reading _ _ HR2) as (_&Eb2&Eh2&_).
  apply (run_tipNode p _ b2 g blks); [apply HOK2|]. intros t2 td2 Ht2 Ev2 _. assert (t2 = t) as ->.
  { rewrite Eb2, Ev in Ev2. apply (f_equal view_tip) in Ev2. rewrite Eh2 in Ht2, Ev2.
    rewrite (view_of_tip _ t td Ht), (view_of_tip _ t2 td2 Ht2) in Ev2. congruence. }
  assert (reading b b2) as HR12 by by etrans. apply run_lift_bind; [intros diff _|intros; by apply Hfail].
  apply run_bind. eapply run_mono; [by apply (readsOnly_version (bc_heap b1) b2)|].
  intros [version|e] b3 HR3; [|apply Hfail; by etrans]. pose proof (chain_reading _ _ _ _ HR3 HOK2) as HOK3.
  assert (reading b b3) as HR13 by by etrans.
  apply run_bind. eapply run_mono; [by apply (template_run p now PO b3 g blks)|]. intros [[]|e] b4 [HQ Hp].
  - apply run_ret. assert (reading b b4) as HR14 by (etrans; [exact HR13|by apply reading_quiet]). split; [done|].
    intros tm [= <-]. cbn [bt_Block bl_Header bt_Height]. split_and!; [|done..]. eapply passed_quiet; [exact HQ|]. by apply Hp.
  - apply Hfail. etrans; [exact HR13|by apply reading_quiet].
Qed.

(** A block that passes the check can be connected. *)
Lemma template_connectable now blk b :
  chain_ok p b g blks →
  run (CheckConnectBlockTemplate p now blk) b (fun r _ =>
    r = Ok tt → connectable p (1 + Z.of_nat (length blks)) (bl_Transactions blk) (ledger g blks)).
Proof.
  intros HOK. pose proof HOK as (HF&HC&_). unfold CheckConnectBlockTemplate.
  apply (run_tipNode p _ b g blks); [done|]. intros t td Ht Ev _. destruct (frame_tip p b g blks t td HF Ht Ev) as [Eht _].
  apply run_lift_bind; [intros [] Hprev|done]. apply run_lift_bind; [intros [] Hs|done]. apply run_get.
  apply run_lift_bind; [intros [] Hctx|done].
  destruct (newBlockNode_ok (bc_heap b) (bl_Header blk) (Some t)) as (q&nd&Enew&Hq&Hmade&WF).
  { apply HF. } { intros ? [= <-]. exists td. split; [done|lia]. }
  rewrite Enew. apply run_bind, run_lift. rewrite lookup_insert_eq. apply run_bind, run_lift. cbn [from_option_err].
  apply ensure_Ok, bool_decide_eq_true in Hprev. rewrite Hprev.
  destruct (mf_child _ _ _ _ Hmade t eq_refl) as (td'&Ht'&Ehd&_). simplify_eq. pose proof (po_bip34 _ PO).
  apply run_bind. unfold run at 1, onCache.
  destruct (checkConnectBlock_spec p (<[q := nd]> (bc_heap b)) q nd blk now (bc_utxo b) (ledger g blks) (txids g blks)
    (ca_reps _ _ _ _ HC) (ca_ok _ _ _ _ HC) (po_reserve _ PO) ltac:(lia) Hs) as (r&u&->&_&_&Hok).
  destruct r as [v|e]; [|done]. apply run_ret. intros _. replace (1 + Z.of_nat (length blks)) with (bn_height nd) by lia. by eapply Hok.
Qed.

(** A block that passed the check passes it again. *)
Lemma template_ok now now' b blk :
  chain_ok p b g blks → calm (bc_utxo b) → passed p now b blk → now ≤ now' →
  okrun (CheckConnectBlockTemplate p now' blk) b (fun _ b' => quiet b b').
Proof.
  intros HOK Hc [Hs (t&td&Ht&Ev&Ep&Hctx&q&nd&v&(Enew&Hq&Hmade&WF)&Hw)] Hle. pose proof HOK as (HF&HC&_).
  unfold CheckConnectBlockTemplate. apply okrun_bind. destruct (frame_tipNode p b g blks HF) as (t'&td'&Etip&Ht'&Ev'&_).
  assert (t' = t) as ->.
  { rewrite Ev in Ev'. apply (f_equal view_tip) in Ev'. rewrite (view_of_tip _ t td Ht), (view_of_tip _ t' td' Ht') in Ev'. congruence. }
  simplify_eq. unfold okrun at 1, run at 1. rewrite Etip. eexists. split; [done|].
  apply okrun_ensure; [by apply bool_decide_eq_true|].
  apply (okrun_lift_bind _ _ _ _ tt); [by eapply (sanity_later blk now)|]. apply run_get.
  apply (okrun_lift_bind _ _ _ _ tt); [done|]. rewrite Enew. apply (okrun_lift_bind _ _ _ _ q); [done|].
  rewrite lookup_insert_eq. apply (okrun_lift_bind _ _ _ _ nd); [done|]. apply okrun_bind. unfold okrun at 1, run at 1, onCache.
  destruct (mf_child _ _ _ _ Hmade t eq_refl) as (td2&Ht2&Ehd&_). simplify_eq. pose proof (po_bip34 _ PO).
  destruct (frame_tip p b g blks t td HF Ht Ev) as [Eht _]. rewrite Ep.
  destruct (checkConnectBlock_with p (<[q := nd]> (bc_heap b)) q nd blk (bc_utxo b) _ _ (ca_reps _ _ _ _ HC) ltac:(lia))
    as (r&u&->&HRu&Hss&He&Hcu&[->|[_ Hx]]); [|done].
  rewrite Hw. eexists. split; [done|]. apply run_ret. eexists. split; [done|]. exists u. split; [done|]. split; [done|].
  split; [done|]. split; [done|]. intros U K HU. eapply reps_transfer; [apply HC|done..].
Qed.

(** So can one that passed it, whatever the database does next. *)
Lemma passed_connectable now b blk :
  chain_ok p b g blks → passed p now b blk →
  connectable p (1 + Z.of_nat (length blks)) (bl_Transactions blk) (ledger g blks).
Proof.
  intros HOK HP. set (u := bc_utxo b).
  set (u0 := mkCache (uc_maps u) (uc_maxEntries u) (uc_lastFlushHash u) (uc_db u) (uc_consistent u) (uc_rooms u) (uc_fulls u) []).
  assert (quiet b (set_utxo u0 b)) as HQ.
  { exists u0. split; [done|]. split; [done|]. split; [done|]. split; [done|]. intros U K [[? ? ?] ?]. by split; [split|]. }
  pose proof (chain_reading _ _ _ _ (reading_quiet _ _ HQ) HOK) as HOK0.
  pose proof (template_ok now now (set_utxo u0 b) blk HOK0 eq_refl (passed_quiet p now _ _ blk HQ HP) (Z.le_refl _)) as Hok.
  pose proof (okrun_and _ _ _ _ Hok (template_connectable now blk (set_utxo u0 b) HOK0)) as Hboth.
  unfold okrun, run in Hboth. destruct (CheckConnectBlockTemplate _ _ _ _) as [r b']. destruct Hboth as ([]&->&_&Hc). by apply Hc.
Qed.

(** The blocks of the chain are found by their hashes, *)
Lemma BlockByHash_run hash b :
  chain_ok p b g blks →
  run (BlockByHash hash) b (fun r b' => reading b b' ∧
    (∀ blk h, r = Ok (blk, h) → 0 ≤ h ∧ (g :: blks) !! Z.to_nat h = Some blk ∧ BlockHash (bl_Header blk) = hash) ∧
    (∀ i blk, calm (bc_utxo b) → (g :: blks) !! i = Some blk → BlockHash (bl_Header blk) = hash → r = Ok (blk, Z.of_nat i))).
Proof.
  intros HOK. pose proof HOK as (HF&_). unfold BlockByHash, LookupNode. apply run_get.
  destruct (fk_tip _ _ _ _ HF) as (t&td&Ht&Ev&_). pose proof (fk_tree _ _ _ _ HF) as WF.
  assert (∀ i blk, (g :: blks) !! i = Some blk → ∃ q nd, bc_index b !! BlockHash (bl_Header blk) = Some q ∧ bc_heap b !! q = Some nd ∧
    bc_best b !! i = Some (Some q) ∧ bn_height nd = Z.of_nat i ∧ bn_hash nd = BlockHash (bl_Header blk)) as Hon.
  { intros i blk Hb. destruct (Forall2_lookup_r _ _ _ _ _ (fk_chain _ _ _ _ HF) Hb) as (o&Ho&q&nd&->&Hq&E).
    exists q, nd. rewrite <- E. split_and!; [by apply (fk_indexed _ _ _ _ HF)|done..| |done].
    rewrite Ev in Ho. exact (view_of_at (bc_heap b) t td i q nd WF Ht Ho Hq). }
  destruct (bc_index b !! hash) as [q|] eqn:Ei; cycle 1.
  { apply run_lift. split; [reflexivity|]. split; [by intros|]. intros i blk _ Hb E. destruct (Hon i blk Hb) as (q&_&Hq&_). congruence. }
  destruct (fk_node _ _ _ _ HF hash q Ei) as (nd&Hnd&Eh). rewrite Ev.
  destruct (contains _ _ q) eqn:Ec; cbn [negb]; cycle 1.
  { apply run_lift. split; [reflexivity|]. split; [by intros|]. intros i blk _ Hb E. destruct (Hon i blk Hb) as (q'&nd'&Hq'&Hnd'&Ho&Ehi&_).
    rewrite E in Hq'. simplify_eq. rewrite Ev in Ho. pose proof (lookup_lt_Some _ _ _ Ho) as Hlt. rewrite (view_of_length _ t td Ht) in Hlt.
    rewrite (view_of_lookup _ t td) in Ho by (done || lia). injection Ho as Ho.
    rewrite (proj2 (contains_view _ WF t td q Ht)) in Ec; [done|by eexists]. }
  apply (contains_view _ WF t td q Ht) in Ec as (n&Hn). destruct (walk_Some _ WF _ _ _ _ Ht Hn) as (nd'&Hnd'&Ehn). simplify_eq.
  apply (run_nodeAt _ _ _ nd); [done|]. apply run_bind. unfold dbFetchBlockByNode. apply run_bind.
  pose proof (readsOnly_dbView b HOK) as HRd. pose proof (tree_height _ WF _ _ Hnd). pose proof (tree_height _ WF _ _ Ht).
  pose proof (walk_in _ WF _ _ _ _ Ht Hn) as Hle.
  assert (bc_best b !! Z.to_nat (bn_height nd) = Some (Some q)) as Hq.
  { rewrite Ev, (view_of_lookup _ t td) by (done || lia). rewrite <- Hn. do 2 f_equal. lia. }
  destruct (Forall2_lookup_l _ _ _ _ _ (fk_chain _ _ _ _ HF) Hq) as (blk&Hblk&q2&nd2&[= <-]&Hnd2&Eblk). simplify_eq.
  assert (db_blocks (bc_db b) !! bn_hash nd = Some blk) as Hheld.
  { rewrite Eblk. apply (fk_held _ _ _ _ HF). by eapply list_elem_of_lookup_2. }
  unfold run in HRd |- * at 1. destruct (dbView b) as [r b'] eqn:Edb. destruct r as [[]|e]; cycle 1.
  { split; [done|]. split; [by intros|]. intros i blk' Hc. rewrite dbView_calm in Edb by done. done. }
  assert (bc_db b' = bc_db b) as Edb' by by destruct HRd as (u&vb&->&_).
  apply run_get, run_lift. rewrite Edb', Hheld. apply run_ret. split; [done|]. split.
  - intros blk' h [= <- <-]. split; [lia|]. split; [done|congruence].
  - intros i blk' _ Hb E. assert (i = Z.to_nat (bn_height nd)) as ->.
    { eapply (chain_hashes p b g blks); [done..|]. congruence. }
    rewrite Hblk in Hb. injection Hb as <-. repeat f_equal. lia.
Qed.

(** and by their heights. *)
Lemma BlockHashByHeight_eq h b :
  chain_ok p b g blks →
  BlockHashByHeight h b =
  (match (if h <? 0 then None else (g :: blks) !! Z.to_nat h) with
   | Some blk => Ok (BlockHash (bl_Header blk))
   | None => Err notInMainChain
   end, b).
Proof.
  intros (HF&_). unfold BlockHashByHeight, nodeByHeight. rewrite st_get_bind.
  rewrite (Forall2_length _ _ _ (fk_chain _ _ _ _ HF)). destruct (Z.ltb_spec h 0) as [|Hh]; [done|]. cbn [orb].
  destruct (Z.leb_spec (Z.of_nat (length (g :: blks))) h) as [Hge|Hlt].
  { rewrite lookup_ge_None_2 by lia. done. }
  destruct (lookup_lt_is_Some_2 (g :: blks) (Z.to_nat h)) as [blk Hb]; [lia|].
  destruct (Forall2_lookup_r _ _ _ _ _ (fk_chain _ _ _ _ HF) Hb) as (o&Ho&q&nd&->&Hq&E). rewrite Ho, Hb. cbn [mjoin option_join].
  unfold nodeAt. rewrite st_bind_run, st_get_bind, Hq. cbn [from_option_err st_lift]. rewrite <- E. done.
Qed.

End methods.
End reading.
