(* ===== verification/VM.v ===== *)
(** * The virtual machine

    [vm/vm.go] and [vm/block_adapter.go]: the methods Snowman's engine calls,
    over btcd's chain of [Process], the templates of [Mining] and the start of
    [Start].  btcd's chain holds accepted blocks only; a block is parsed and
    verified without being written, and connected when it is accepted.

    The engine calls one method at a time, under its own lock.  The mempool and
    the clock are arguments: they change on their own between calls. *)

From Stdlib Require Import ZArith List Lia.
From stdpp Require Import base list gmap strings.
From S2P Require Import Prelude.
From S2P Require Import Wire.
From S2P Require Import Decode.
From S2P Require Import Script.
From S2P Require Import Chain.
From S2P Require Import Merkle.
From S2P Require Import Versionbits.
From S2P Require Import Utxo.
From S2P Require Import Validate.
From S2P Require Import Context.
From S2P Require Import Block.
From S2P Require Import Process.
From S2P Require Import Extend.
From S2P Require Import Agree.
From S2P Require Import Start.
From S2P Require Import Mining.

Open Scope Z_scope.

(** ** State *)

(** [wake] holds at most one wake-up; the time of the last build is none
    before the first. *)
Record blockBuilder := mkBuilder {
  bb_wake : bool; bb_hasPendingTxs : bool; bb_lastBuildTime : option Z; bb_lastBuildParentHash : bytes }.

Definition newBlockBuilder : blockBuilder := mkBuilder false false None zeroHash.

Record BlockAdapter := mkAdapter {
  btcBlock : MsgBlock; id : bytes; parentID : bytes; ba_height : Z; ba_timestamp : Z; ba_bytes : bytes }.

Inductive snowState := StateSyncing | Bootstrapping | NormalOp | otherState.

(** [broken] and [brokenErr] are one field. *)
Record VM := mkVM {
  vm_chain : BlockChain; vm_broken : option error; lastAccepted : bytes; preferred : bytes;
  verifiedBlocks : gmap bytes BlockAdapter; vm_builder : option blockBuilder; bootstrapped : bool; initialized : bool }.

Definition set_chain (b : BlockChain) (v : VM) : VM :=
  mkVM b (vm_broken v) (lastAccepted v) (preferred v) (verifiedBlocks v) (vm_builder v) (bootstrapped v) (initialized v).
Definition set_broken (e : option error) (v : VM) : VM :=
  mkVM (vm_chain v) e (lastAccepted v) (preferred v) (verifiedBlocks v) (vm_builder v) (bootstrapped v) (initialized v).
Definition set_lastAccepted (i : bytes) (v : VM) : VM :=
  mkVM (vm_chain v) (vm_broken v) i (preferred v) (verifiedBlocks v) (vm_builder v) (bootstrapped v) (initialized v).
Definition set_preferred (i : bytes) (v : VM) : VM :=
  mkVM (vm_chain v) (vm_broken v) (lastAccepted v) i (verifiedBlocks v) (vm_builder v) (bootstrapped v) (initialized v).
Definition set_verified (m : gmap bytes BlockAdapter) (v : VM) : VM :=
  mkVM (vm_chain v) (vm_broken v) (lastAccepted v) (preferred v) m (vm_builder v) (bootstrapped v) (initialized v).
Definition set_builder (b : option blockBuilder) (v : VM) : VM :=
  mkVM (vm_chain v) (vm_broken v) (lastAccepted v) (preferred v) (verifiedBlocks v) b (bootstrapped v) (initialized v).
Definition set_bootstrapped (x : bool) (v : VM) : VM :=
  mkVM (vm_chain v) (vm_broken v) (lastAccepted v) (preferred v) (verifiedBlocks v) (vm_builder v) x (initialized v).

Notation Vm := (St VM).

Definition update (f : VM → VM) : Vm unit := fun v => (Ok tt, f v).

Definition onChain {A} (m : Ch A) : Vm A := fun v =>
  let '(r, b) := m (vm_chain v) in (r, set_chain b v).

(** The second when the first fails. *)
Definition orElse {A} (m m' : Vm A) : Vm A := fun v =>
  match m v with
  | (Ok a, v') => (Ok a, v')
  | (Err _, v') => m' v'
  end.

(** ** The block builder *)

Definition TargetBlockTime : Z := 2000000000.
Definition RetryDelay : Z := 100000000.

Definition signalCanBuild (b : blockBuilder) : blockBuilder :=
  mkBuilder true true (bb_lastBuildTime b) (bb_lastBuildParentHash b).

Definition clearPendingSignal (b : blockBuilder) : blockBuilder :=
  mkBuilder (bb_wake b) false (bb_lastBuildTime b) (bb_lastBuildParentHash b).

Definition calculateBuildingDelay (clock : Z) (currentBlockHash : bytes) (b : blockBuilder) : Z :=
  match bb_lastBuildTime b with
  | None => 0
  | Some t =>
      let isRetry := bool_decide (bb_lastBuildParentHash b = currentBlockHash) in
      Z.max 0 (t + (if isRetry then RetryDelay else TargetBlockTime) - clock)
  end.

(** A hash and an identifier are the same 32 bytes. *)
Definition hashToID (hash : bytes) : bytes := hash.
Definition idToHash (i : bytes) : bytes := i.

Definition BlockHeightUnknown : Z := -1.

Section vm.
Context `{CR : Crypto} `{SE : ScriptEngine} `{RT : GoRuntime} (p : Params) (now : Z).

Definition hasProcessingBlocks (v : VM) : bool := bool_decide (verifiedBlocks v ≠ ∅).

Definition needToBuild (mempool : TxSource) (v : VM) : bool :=
  if hasProcessingBlocks v then false
  else
    let next := int32_wrap (bs_Height (bc_snapshot (vm_chain v)) + 1) in
    if 0 <? PegReserveAt p next then true else negb (Nat.eqb (length (MiningDescs mempool)) 0).

Definition onBuilder (f : blockBuilder → blockBuilder) (v : VM) : VM := set_builder (f <$> vm_builder v) v.

Definition handleBuildAttempt (clock : Z) (mempool : TxSource) (parentHash : bytes) (v : VM) : VM :=
  let v := onBuilder (fun b => mkBuilder (bb_wake b) false (Some clock) parentHash) v in
  if needToBuild mempool v then onBuilder signalCanBuild v else v.

Definition onBlockDecided (mempool : TxSource) (v : VM) : VM :=
  if needToBuild mempool v then onBuilder signalCanBuild v else v.

(** ** Blocks *)

(** Serializing to memory does not fail. *)
Definition newBlockAdapter (blk : MsgBlock) (height : Z) : result BlockAdapter :=
  ensure (negb (height =? BlockHeightUnknown)) (Errorf "block has no height");;
  Ok (mkAdapter blk (hashToID (BlockHash (bl_Header blk))) (hashToID (PrevBlock (bl_Header blk)))
        (height mod two64) (Timestamp (bl_Header blk)) (block_Serialize blk)).

(** Whatever the error, the block is not found. *)
Definition acceptedBlockAdapter (blockID : bytes) : Vm BlockAdapter := fun v =>
  match onChain (BlockByHash (idToHash blockID)) v with
  | (Ok (blk, height), v') => (newBlockAdapter blk height, v')
  | (Err _, v') => (Err errNotFound, v')
  end.

Definition getBlock (blockID : bytes) : Vm BlockAdapter := fun v =>
  match verifiedBlocks v !! blockID with
  | Some blk => (Ok blk, v)
  | None => acceptedBlockAdapter blockID v
  end.

Definition parseBlockAdapter (blockBytes : bytes) : Vm BlockAdapter :=
  msgBlock ← st_lift (block_BtcDecode (mkReader blockBytes 0)).1;
  st_ensure (bool_decide (block_Serialize msgBlock = blockBytes)) errNonCanonicalBlock;;
  orElse (getBlock (hashToID (BlockHash (bl_Header msgBlock))))
    (coinbase ← st_lift (from_option_err (head (bl_Transactions msgBlock)) errNoCoinbase);
     height ← st_lift (ExtractCoinbaseHeight coinbase);
     st_lift (newBlockAdapter msgBlock height)).

Definition Verify (b : BlockAdapter) : Vm unit :=
  v ← st_get;
  st_ensure (bool_decide (vm_broken v = None)) errBroken;;
  st_ensure (bool_decide (parentID b = lastAccepted v)) errParentNotAccepted;;
  let tipHeight := bs_Height (bc_snapshot (vm_chain v)) in
  st_ensure (ba_height b =? (tipHeight mod two64 + 1) mod two64) errWrongHeight;;
  onChain (CheckConnectBlockTemplate p now (btcBlock b));;
  update (fun v => set_verified (<[id b := b]> (verifiedBlocks v)) v).

Definition brokenBy (err : error) : VM → VM := set_broken (Some err).

Definition notTheTip : error := Errorf "accepted block did not become the chain tip".

(** The block is connected and written before it is said to be accepted. *)
Definition connectAndPersist (b : BlockAdapter) : Vm unit := fun v =>
    match onChain (ProcessBlock p now (btcBlock b)) v with
    | (Err err, v) => (Err err, if isRuleError err then v else brokenBy err v)
    | (Ok (isMainChain, isOrphan), v) =>
        if isOrphan || negb isMainChain then (Err notTheTip, brokenBy notTheTip v)
        else
          match onChain Persist v with
          | (Err err, v) => (Err err, brokenBy err v)
          | (Ok _, v) => (Ok tt, set_lastAccepted (id b) (set_verified (delete (id b) (verifiedBlocks v)) v))
          end
    end.

Definition accept (b : BlockAdapter) : Vm unit :=
  v ← st_get;
  st_ensure (bool_decide (parentID b = lastAccepted v)) errParentNotAccepted;;
  st_ensure (bool_decide (vm_broken v = None)) errBroken;;
  connectAndPersist b.

Definition Accept (mempool : TxSource) (b : BlockAdapter) : Vm unit :=
  accept b;; update (onBlockDecided mempool).

Definition Reject (mempool : TxSource) (b : BlockAdapter) : Vm unit :=
  update (fun v => set_verified (delete (id b) (verifiedBlocks v)) v);;
  update (onBlockDecided mempool).

(** ** The engine's methods *)

Definition getCurrentBlock : Vm MsgBlock :=
  v ← st_get;
  '(blk, _) ← onChain (BlockByHash (bs_Hash (bc_snapshot (vm_chain v))));
  mret blk.

(** [MiningAddrs]: what decoding each address gives, and its script; the
    generator has its policy. *)
Record buildConfig := mkBuildConfig { cf_generator : option Policy; cf_MiningAddrs : list (result (result bytes)) }.

Definition zeroNonce (blk : MsgBlock) : MsgBlock :=
  let h := bl_Header blk in
  mkBlock (mkHeader (Version h) (PrevBlock h) (MerkleRoot h) (Timestamp h) (Bits h) 0) (bl_Transactions blk).

(** After the guards of [BuildBlock]. *)
Definition buildOnTip (clock : Z) (cfg : buildConfig) (mempool : TxSource) : Vm BlockAdapter :=
  currentBlock ← getCurrentBlock;
  update (handleBuildAttempt clock mempool (BlockHash (bl_Header currentBlock)));;
  pol ← st_lift (from_option_err (cf_generator cfg) (Errorf "block template generator not available"));
  addr ← st_lift (from_option_err (head (cf_MiningAddrs cfg)) (Errorf "no mining address configured"));
  payToAddr ← st_lift addr;
  template ← onChain (NewBlockTemplate p pol now mempool (Some payToAddr));
  blockAdapter ← st_lift (newBlockAdapter (zeroNonce (bt_Block template)) (bt_Height template));
  v ← st_get;
  st_ensure (bool_decide (parentID blockAdapter = lastAccepted v))
    (Errorf "block template not built on the last accepted block");;
  update (onBuilder clearPendingSignal);;
  mret blockAdapter.

Definition BuildBlock (clock : Z) (cfg : buildConfig) (mempool : TxSource) : Vm BlockAdapter :=
  v ← st_get;
  st_ensure (bool_decide (vm_broken v = None)) errBroken;;
  st_ensure (initialized v) (Errorf "btcd adapter not initialized");;
  st_ensure (negb (hasProcessingBlocks v)) errBlockProcessing;;
  buildOnTip clock cfg mempool.

(** The block that is known is the one returned. *)
Definition ParseBlock (blockBytes : bytes) : Vm BlockAdapter :=
  v ← st_get;
  st_ensure (initialized v) errNotInitialized;;
  blockAdapter ← parseBlockAdapter blockBytes;
  orElse (getBlock (id blockAdapter)) (mret blockAdapter).

Definition GetBlock (blockID : bytes) : Vm BlockAdapter :=
  v ← st_get; st_ensure (initialized v) errNotInitialized;; getBlock blockID.

Definition SetPreference (blockID : bytes) : Vm unit :=
  v ← st_get; st_ensure (initialized v) errNotInitialized;; update (set_preferred blockID).

Definition LastAccepted : Vm bytes :=
  v ← st_get; st_ensure (initialized v) errNotInitialized;; mret (lastAccepted v).

Definition GetBlockIDAtHeight (height : Z) : Vm bytes :=
  v ← st_get;
  st_ensure (initialized v) errNotInitialized;;
  blockHash ← onChain (BlockHashByHeight (int32_wrap height));
  mret (hashToID blockHash).

(** The health, or why there is none. *)
Definition HealthCheck : Vm bytes :=
  v ← st_get;
  st_ensure (initialized v) errNotInitialized;;
  match vm_broken v with
  | Some why => st_lift (Err errBroken)
  | None => mret (lastAccepted v)
  end.

(** Starting gossip is [gossip]. *)
Definition initBlockBuilding (mempool : TxSource) : Vm unit :=
  v ← st_get;
  st_ensure (bool_decide (is_Some (vm_builder v))) (Errorf "block builder not initialized");;
  update (fun v => if negb (Nat.eqb (length (MiningDescs mempool)) 0) then onBuilder signalCanBuild v else v).

Definition SetState (gossip : result unit) (mempool : TxSource) (state : snowState) : Vm unit :=
  match state with
  | StateSyncing | Bootstrapping => update (set_bootstrapped false)
  | NormalOp =>
      v ← st_get;
      if bootstrapped v then mret tt
      else
        update (set_bootstrapped true);;
        st_lift gossip;;
        initBlockBuilding mempool
  | otherState => st_lift (Err (Errorf "unknown state"))
  end.

(** [BtcdMain] makes or loads the chain; its tip is the last accepted block. *)
Definition Initialize (genesis : MsgBlock) (d : disk) (maxEntries : Z) (rooms : list Z) (fulls failures : list bool) :
    result VM :=
  match New p now genesis (blank p d maxEntries rooms fulls failures) with
  | (Err e, _) => Err e
  | (Ok _, b) =>
      let i := hashToID (bs_Hash (bc_snapshot b)) in
      Ok (mkVM b None i i ∅ (Some newBlockBuilder) false true)
  end.

End vm.
