(* ===== verification/Builder.v ===== *)
(** * When to build

    The goroutines of [vm/block_builder.go]: mempool events, the senders of
    wake-ups, and the wait the engine polls, at the grain of their locks and
    channels.  [VM] has what the engine's calls do to the builder in one step;
    here a signal sets its flag in one step and sends its wake-up in another,
    and anything may come between.  No wake-up is lost, and a wait ends at the
    next tick at the latest. *)

From Stdlib Require Import ZArith List Lia Relations.
From stdpp Require Import base list gmap strings relations.
From S2P Require Import Prelude.
From S2P Require Import Wire.
From S2P Require Import Runtime.
From S2P Require Import Chain.
From S2P Require Import Versionbits.
From S2P Require Import Validate.
From S2P Require Import Process.
From S2P Require Import Start.
From S2P Require Import Mining.
From S2P Require Import VM.

Open Scope Z_scope.

(** ** State *)

Definition txSubmitChannelSize : nat := 1024.
Definition recheckEvery : Z := 500000000.

Inductive message := PendingTxs.

Definition ctxErr : error := Errorf "context done".
Definition contextCanceled : error := Errorf "context canceled".

(** Where the wait is: not called, about to read the flag, about to ask
    whether to build, at the select with its next tick, about to clear the
    flag, about to choose the delay, sleeping, or back. *)
Inductive waiter :=
| wIdle
| wFlag (tick : Z)
| wNeed (tick : Z)
| wSelect (tick : Z)
| wClear
| wChoose
| wSleep (until : Z)
| wBack (r : result message).

(** [w_signals] calls of [signalCanBuild] have begun, [w_sends] have set the
    flag and not sent. *)
Record world := mkWorld {
  w_vm : VM; w_mempool : TxSource; w_builder : blockBuilder; w_clock : Z;
  w_submits : nat; w_signals : nat; w_sends : nat; w_done : bool; w_shutdown : bool; w_waiter : waiter }.

Definition with_builder (b : blockBuilder) (w : world) : world :=
  mkWorld (w_vm w) (w_mempool w) b (w_clock w) (w_submits w) (w_signals w) (w_sends w) (w_done w) (w_shutdown w) (w_waiter w).
Definition with_waiter (x : waiter) (w : world) : world :=
  mkWorld (w_vm w) (w_mempool w) (w_builder w) (w_clock w) (w_submits w) (w_signals w) (w_sends w) (w_done w) (w_shutdown w) x.
Definition with_queues (submits signals sends : nat) (w : world) : world :=
  mkWorld (w_vm w) (w_mempool w) (w_builder w) (w_clock w) submits signals sends (w_done w) (w_shutdown w) (w_waiter w).
Definition with_around (v : VM) (mempool : TxSource) (clock : Z) (done shutdown : bool) (w : world) : world :=
  mkWorld v mempool (w_builder w) clock (w_submits w) (w_signals w) (w_sends w) done shutdown (w_waiter w).

(** The halves of [signalCanBuild]. *)
Definition setPending (x : bool) (b : blockBuilder) : blockBuilder :=
  mkBuilder (bb_wake b) x (bb_lastBuildTime b) (bb_lastBuildParentHash b).
Definition setWake (x : bool) (b : blockBuilder) : blockBuilder :=
  mkBuilder x (bb_hasPendingTxs b) (bb_lastBuildTime b) (bb_lastBuildParentHash b).

Lemma signalCanBuild_halves b : signalCanBuild b = setWake true (setPending true b).
Proof. done. Qed.

(** The ticker keeps one tick that was not taken. *)
Definition nextTick (clock tick : Z) : Z := tick + recheckEvery * ((clock - tick) / recheckEvery + 1).

Section builder.
Context `{CR : Crypto} `{SE : ScriptEngine} `{RT : GoRuntime} (p : Params).

Definition pending (w : world) : bool := bb_hasPendingTxs (w_builder w).
Definition need (w : world) : bool := needToBuild p (w_mempool w) (w_vm w).

(** A transaction enters the mempool; a full channel drops its event. *)
Definition onTxAccepted (mempool : TxSource) (w : world) : world :=
  let w := with_around (w_vm w) mempool (w_clock w) (w_done w) (w_shutdown w) w in
  if (w_submits w <? txSubmitChannelSize)%nat then with_queues (S (w_submits w)) (w_signals w) (w_sends w) w else w.

(** After the flag is cleared: [getCurrentBlock] and the delay. *)
Definition chooseDelay (w : world) : world :=
  let '(r, v) := getCurrentBlock (w_vm w) in
  let w := with_around v (w_mempool w) (w_clock w) (w_done w) (w_shutdown w) w in
  match r with
  | Err e => with_waiter (wBack (Err e)) w
  | Ok blk =>
      let delay := calculateBuildingDelay (w_clock w) (BlockHash (bl_Header blk)) (w_builder w) in
      with_waiter (if delay <=? 0 then wBack (Ok PendingTxs) else wSleep (w_clock w + delay)) w
  end.

(** The steps of [waitForNeedToBuild] and [waitForEvent]. *)
Inductive waits : world → world → Prop :=
| waits_pending w t : w_waiter w = wFlag t → pending w = true → waits w (with_waiter wClear w)
| waits_ask w t : w_waiter w = wFlag t → pending w = false → waits w (with_waiter (wNeed t) w)
| waits_needed w t : w_waiter w = wNeed t → need w = true → waits w (with_waiter wClear w)
| waits_block w t : w_waiter w = wNeed t → need w = false → waits w (with_waiter (wSelect t) w)
| waits_woken w t : w_waiter w = wSelect t → bb_wake (w_builder w) = true →
    waits w (with_builder (setWake false (w_builder w)) (with_waiter (wFlag t) w))
| waits_tick w t : w_waiter w = wSelect t → t ≤ w_clock w → waits w (with_waiter (wFlag (nextTick (w_clock w) t)) w)
| waits_done w t : w_waiter w = wSelect t → w_done w = true → waits w (with_waiter (wBack (Err ctxErr)) w)
| waits_shutdown w t : w_waiter w = wSelect t → w_shutdown w = true → waits w (with_waiter (wBack (Err contextCanceled)) w)
| waits_clear w : w_waiter w = wClear → waits w (with_builder (setPending false (w_builder w)) (with_waiter wChoose w))
| waits_choose w : w_waiter w = wChoose → waits w (chooseDelay w)
| waits_slept w u : w_waiter w = wSleep u → u ≤ w_clock w → waits w (with_waiter (wBack (Ok PendingTxs)) w)
| waits_sleep_done w u : w_waiter w = wSleep u → w_done w = true → waits w (with_waiter (wBack (Err ctxErr)) w)
| waits_sleep_shutdown w u : w_waiter w = wSleep u → w_shutdown w = true →
    waits w (with_waiter (wBack (Err contextCanceled)) w).

(** What happens around it: time passes, the engine's calls change the VM, the
    engine waits again, and signals run. *)
Inductive around : world → world → Prop :=
| around_world w v mempool clock shutdown : w_clock w ≤ clock → (w_shutdown w = true → shutdown = true) →
    around w (with_around v mempool clock (w_done w) shutdown w)
| around_cancel w : around w (with_around (w_vm w) (w_mempool w) (w_clock w) true (w_shutdown w) w)
| around_call w : w_waiter w = wIdle ∨ (∃ r, w_waiter w = wBack r) →
    around w (with_waiter (wFlag (w_clock w + recheckEvery))
                (with_around (w_vm w) (w_mempool w) (w_clock w) false (w_shutdown w) w))
| around_tx w mempool : around w (onTxAccepted mempool w)
| around_await w n : w_submits w = S n → around w (with_queues n (S (w_signals w)) (w_sends w) w)
| around_decided w : need w = true → around w (with_queues (w_submits w) (S (w_signals w)) (w_sends w) w)
| around_attempt w parentHash :
    around w (with_builder (mkBuilder (bb_wake (w_builder w)) false (Some (w_clock w)) parentHash) w)
| around_built w : around w (with_builder (clearPendingSignal (w_builder w)) w)
| around_set w n : w_signals w = S n →
    around w (with_builder (setPending true (w_builder w)) (with_queues (w_submits w) n (S (w_sends w)) w))
| around_send w n : w_sends w = S n →
    around w (with_builder (setWake true (w_builder w)) (with_queues (w_submits w) (w_signals w) n w)).

Definition runs : relation world := rtc (fun w w' => waits w w' ∨ around w w').

Definition fresh (v : VM) (mempool : TxSource) (clock : Z) : world :=
  mkWorld v mempool newBlockBuilder clock 0 0 0 false false wIdle.

Definition reachable (w : world) : Prop := ∃ v mempool clock, runs (fresh v mempool clock) w.

(** ** No wake-up is lost *)

(** Once the flag was read as unset, a flag that is set has its wake-up; the
    next tick is at most one period away, and no build is in the future. *)
Record awake (w : world) : Prop := {
  aw_flag t : w_waiter w = wNeed t ∨ w_waiter w = wSelect t → pending w = true →
    bb_wake (w_builder w) = true ∨ (0 < w_sends w)%nat;
  aw_tick t : w_waiter w = wFlag t ∨ w_waiter w = wNeed t ∨ w_waiter w = wSelect t → t ≤ w_clock w + recheckEvery;
  aw_built l : bb_lastBuildTime (w_builder w) = Some l → l ≤ w_clock w;
  aw_sleep u : w_waiter w = wSleep u → u ≤ w_clock w + TargetBlockTime }.

Lemma nextTick_soon clock t : t ≤ clock → nextTick clock t ≤ clock + recheckEvery.
Proof.
  intros Hle. unfold nextTick, recheckEvery. pose proof (Z.div_mod (clock - t) 500000000 ltac:(done)).
  pose proof (Z.mod_pos_bound (clock - t) 500000000 ltac:(done)). lia.
Qed.

Lemma delay_short clock hash b :
  (∀ l, bb_lastBuildTime b = Some l → l ≤ clock) → calculateBuildingDelay clock hash b ≤ TargetBlockTime.
Proof.
  intros Hl. unfold calculateBuildingDelay, TargetBlockTime, RetryDelay. destruct (bb_lastBuildTime b) as [l|]; [|done].
  specialize (Hl l eq_refl). case_bool_decide; lia.
Qed.

Ltac awake_auto :=
  unfold pending in *; constructor; unfold pending; cbn [w_waiter w_builder w_clock w_sends with_waiter with_builder with_queues with_around onTxAccepted
    bb_wake bb_hasPendingTxs bb_lastBuildTime setPending setWake clearPendingSignal]; intros;
  repeat match goal with
  | H : _ ∨ _ |- _ => destruct H
  | H : _ = _ :> waiter |- _ => (discriminate H || (injection H; clear H; intros))
  end; subst; try congruence; eauto; try lia.

Lemma chooseDelay_awake w : awake w → awake (chooseDelay w).
Proof.
  intros [Hf Ht Hb Hs]. unfold chooseDelay. destruct (getCurrentBlock (w_vm w)) as [[blk|e] v]; [|awake_auto].
  cbn [with_around w_clock w_builder]. pose proof (delay_short (w_clock w) (BlockHash (bl_Header blk)) (w_builder w) Hb).
  destruct (_ <=? _); awake_auto.
Qed.

Lemma waits_awake w w' : waits w w' → awake w → awake w'.
Proof.
  intros Hst HA. pose proof HA as [Hf Ht Hb Hs].
  destruct Hst as [w t E Hp|w t E Hp|w t E Hn|w t E Hn|w t E Hw|w t E Hle|w t E Hd|w t E Hd|w E|w E|w u E Hle|w u E Hd|w u E Hd];
    try (awake_auto; fail).
  - awake_auto. by apply nextTick_soon.
  - by apply chooseDelay_awake.
Qed.

Lemma around_awake w w' : around w w' → awake w → awake w'.
Proof.
  intros Hst HA. pose proof HA as [Hf Ht Hb Hs].
  destruct Hst as [w v mempool clock shutdown Hle Hsh|w|w Hw|w mempool|w n E|w Hn|w hash|w|w n E|w n E];
    try (unfold onTxAccepted; destruct (_ <? _)%nat); try (awake_auto; fail).
  - awake_auto; (etrans; [eauto|]; lia).
  - awake_auto. by simplify_eq.
Qed.

Lemma reachable_awake w : reachable w → awake w.
Proof.
  intros (v&mempool&clock&Hr). assert (awake (fresh v mempool clock)) as H0 by (unfold fresh; awake_auto; done).
  revert H0. induction Hr as [|w1 w2 w3 [Hs|Hs] _ IH]; [done|..]; intros HA; apply IH; [by eapply waits_awake|by eapply around_awake].
Qed.

(** ** A wait ends *)

Definition waiting (x : waiter) : bool := match x with wIdle | wBack _ => false | _ => true end.

(** The steps a wait has left, when there is something to build. *)
Definition stepsLeft (x : waiter) : nat :=
  match x with
  | wSelect _ => 6 | wFlag _ => 5 | wNeed _ => 4 | wClear => 3 | wChoose => 2 | wSleep _ => 1 | wIdle | wBack _ => 0
  end.

(** Time passes and nothing else happens. *)
Definition later (d : Z) (w : world) : world :=
  with_around (w_vm w) (w_mempool w) (w_clock w + d) (w_done w) (w_shutdown w) w.

Definition patience (x : waiter) : Z :=
  match x with wSelect _ => recheckEvery | wSleep _ => TargetBlockTime | _ => 0 end.

Lemma wait_step w :
  awake w → waiting (w_waiter w) = true → ∃ d w', 0 ≤ d ≤ patience (w_waiter w) ∧ waits (later d w) w'.
Proof.
  intros [_ Ht _ Hs] Hw. destruct (w_waiter w) as [|t|t|t| | |u|r] eqn:E; try done; cbn [patience].
  - exists 0. destruct (pending w) eqn:Ep; eexists; (split; [lia|]); [eapply waits_pending|eapply waits_ask]; done.
  - exists 0. destruct (need (later 0 w)) eqn:En; eexists; (split; [lia|]); [eapply waits_needed|eapply waits_block]; done.
  - exists (Z.max 0 (t - w_clock w)). specialize (Ht t (or_intror (or_intror eq_refl))). unfold recheckEvery in *. eexists. split; [lia|].
    eapply (waits_tick _ t); [done|]. cbn [later with_around w_clock]. lia.
  - exists 0. eexists. split; [lia|]. by apply waits_clear.
  - exists 0. eexists. split; [lia|]. by apply waits_choose.
  - exists (Z.max 0 (u - w_clock w)). specialize (Hs u eq_refl). unfold TargetBlockTime in *. eexists. split; [lia|].
    eapply (waits_slept _ u); [done|]. cbn [later with_around w_clock]. lia.
Qed.

Lemma wait_shrinks w w' : waits w w' → need w = true → (stepsLeft (w_waiter w') < stepsLeft (w_waiter w))%nat.
Proof.
  intros Hst Hn. destruct Hst as [w t E|w t E|w t E|w t E Hf|w t E|w t E|w t E|w t E|w E|w E|w u E|w u E|w u E];
    rewrite E; cbn [with_waiter with_builder w_waiter stepsLeft]; try lia; [congruence|].
  unfold chooseDelay. destruct (getCurrentBlock (w_vm w)) as [[blk|e] v]; [|simpl; lia]. cbn [with_waiter w_waiter].
  destruct (_ <=? _); simpl; lia.
Qed.

(** C39. The engine is told to build: however the goroutines interleave, a wait
    that blocks has the wake-up of every signal that was sent, it can always
    go on within half a second, or two when it sleeps until the next block is
    due, and while there is something to build every step it takes brings it
    closer to its return, six steps away at most. *)
Theorem wait_ends w :
  reachable w →
  (∀ t, w_waiter w = wSelect t → pending w = true → w_sends w = 0%nat → bb_wake (w_builder w) = true) ∧
  (waiting (w_waiter w) = true → ∃ d w', 0 ≤ d ≤ patience (w_waiter w) ∧ waits (later d w) w') ∧
  (need w = true → ∀ w', waits w w' → (stepsLeft (w_waiter w') < stepsLeft (w_waiter w) ≤ 6)%nat).
Proof.
  intros HR%reachable_awake. split_and!.
  - intros t E Hp Hz. destruct (aw_flag _ HR t (or_intror E) Hp); [done|lia].
  - intros Hw. by apply wait_step.
  - intros Hn w' Hst. split; [by apply wait_shrinks|]. destruct (w_waiter w); simpl; lia.
Qed.

End builder.

Module Waits.

#[local] Existing Instance toyCrypto.

Definition params : Params := dogecoinVMParams zeroHash None.
Definition noTxs : TxSource := mkSource [] (fun _ => false).
Definition vm : VM :=
  mkVM (blank params emptyDisk 1000 [] [] []) None zeroHash zeroHash ∅ (Some newBlockBuilder) false true.

(** A transaction is announced while the wait blocks. *)
Definition blocked : world := mkWorld vm noTxs newBlockBuilder 0 0 0 0 false false (wSelect recheckEvery).
Definition signalled : world :=
  with_builder (setWake true (setPending true newBlockBuilder)) (onTxAccepted noTxs blocked).

Lemma signalled_reachable : reachable params (with_queues 0 0 0 signalled).
Proof.
  exists vm, noTxs, 0. unfold runs.
  eapply rtc_l; [right; apply around_call; by left|]. eapply rtc_l; [left; by eapply waits_ask|].
  eapply rtc_l; [left; eapply waits_block; [done|vm_compute; reflexivity]|].
  eapply rtc_l; [right; apply (around_tx params _ noTxs)|]. eapply rtc_l; [right; apply (around_await params _ 0); done|].
  eapply rtc_l; [right; apply (around_set params _ 0); done|]. eapply rtc_l; [right; apply (around_send params _ 0); done|].
  apply rtc_refl.
Qed.

Lemma wait_ends_witness :
  bb_wake (w_builder (with_queues 0 0 0 signalled)) = true ∧
  ∃ d w', 0 ≤ d ≤ recheckEvery ∧ waits params (later d (with_queues 0 0 0 signalled)) w'.
Proof.
  destruct (wait_ends params _ signalled_reachable) as (Hwake&Hstep&_). split.
  - exact (Hwake recheckEvery eq_refl eq_refl eq_refl).
  - exact (Hstep eq_refl).
Defined.

End Waits.
