(* ===== verification/Lifecycle.v ===== *)
(** * The life of a block

    What the engine sees of [VM]: its methods as calls, an abstract chain of
    accepted blocks, and a simulation between them that holds whatever the
    engine calls and the database does.  Then what the engine gets when it
    keeps Snowman's contract, that it accepts what it verified: every accept
    succeeds, and the chain after a restart is the chain it accepted. *)

From Stdlib Require Import ZArith List Lia.
From stdpp Require Import base list gmap strings.
From S2P Require Import Prelude.
From S2P Require Import Wire.
From S2P Require Import Runtime.
From S2P Require Import Decode.
From S2P Require Import Script.
From S2P Require Import Chain.
From S2P Require Import Merkle.
From S2P Require Import Versionbits.
From S2P Require Import Utxo.
From S2P Require Import Validate.
From S2P Require Import Context.
From S2P Require Import Block.
From S2P Require Import Process.
From S2P Require Import Extend.
From S2P Require Import Agree.
From S2P Require Import Start.
From S2P Require Import Mining.
From S2P Require Import Reading.
From S2P Require Import VM.

Open Scope Z_scope.

(** ** Calls *)

Inductive call :=
| cVerify (now : Z) (b : BlockAdapter)
| cAccept (now : Z) (mempool : TxSource) (b : BlockAdapter)
| cReject (mempool : TxSource) (b : BlockAdapter)
| cBuild (now clock : Z) (cfg : buildConfig) (mempool : TxSource)
| cParse (blockBytes : bytes)
| cGet (blockID : bytes)
| cPrefer (blockID : bytes)
| cLast
| cHeight (height : Z)
| cHealth
| cState (gossip : result unit) (mempool : TxSource) (state : snowState).

Inductive answer := aDone | aBlock (b : BlockAdapter) | aID (i : bytes).

Section lifecycle.
Context `{CR : Crypto} `{SE : ScriptEngine} `{RT : GoRuntime} (p : Params) (PO : params_ok p) (g : MsgBlock).

Definition perform (c : call) : Vm answer :=
  match c with
  | cVerify now b => Verify p now b;; mret aDone
  | cAccept now mempool b => Accept p now mempool b;; mret aDone
  | cReject mempool b => Reject p mempool b;; mret aDone
  | cBuild now clock cfg mempool => b ← BuildBlock p now clock cfg mempool; mret (aBlock b)
  | cParse bs => b ← ParseBlock bs; mret (aBlock b)
  | cGet i => b ← GetBlock i; mret (aBlock b)
  | cPrefer i => SetPreference i;; mret aDone
  | cLast => i ← LastAccepted; mret (aID i)
  | cHeight h => i ← GetBlockIDAtHeight h; mret (aID i)
  | cHealth => i ← HealthCheck; mret (aID i)
  | cState gossip mempool st => SetState gossip mempool st;; mret aDone
  end.

(** ** The abstract chain *)

(** The accepted blocks, and whether the node still takes any. *)
Record ledgerState := mkSpec { s_blocks : list MsgBlock; s_up : bool }.

(** The block may be next. *)
Definition fits (blks : list MsgBlock) (blk : MsgBlock) : Prop :=
  PrevBlock (bl_Header blk) = tipOf g blks ∧
  connectable p (1 + Z.of_nat (length blks)) (bl_Transactions blk) (ledger g blks).

(** A block an adapter wraps. *)
Definition adapter_ok (b : BlockAdapter) : Prop :=
  id b = BlockHash (bl_Header (btcBlock b)) ∧ parentID b = PrevBlock (bl_Header (btcBlock b)) ∧
  ba_bytes b = block_Serialize (btcBlock b).

(** What a call may answer, and what becomes of the chain. *)
Definition specStep (s : ledgerState) (c : call) (r : result answer) (s' : ledgerState) : Prop :=
  match c, r with
  | cAccept _ _ b, Ok _ =>
      s_up s = true ∧ fits (s_blocks s) (btcBlock b) ∧ s' = mkSpec (s_blocks s ++ [btcBlock b]) true
  | cAccept _ _ b, Err e => s' = s ∨ s_up s = true ∧ isRuleError e = false ∧ s' = mkSpec (s_blocks s) false
  | cVerify _ b, Ok _ => s_up s = true ∧ fits (s_blocks s) (btcBlock b) ∧ s' = s
  | cBuild _ _ _ _, Ok (aBlock b) => s_up s = true ∧ adapter_ok b ∧ fits (s_blocks s) (btcBlock b) ∧ s' = s
  | cGet i, Ok (aBlock b) => s' = s ∧ (s_up s = true → adapter_ok b ∧ id b = i)
  | cParse _, Ok (aBlock b) => s' = s ∧ (s_up s = true → adapter_ok b)
  | cHeight h, Ok (aID i) =>
      s' = s ∧ (s_up s = true → 0 ≤ int32_wrap h ∧
        (fun blk => BlockHash (bl_Header blk)) <$> (g :: s_blocks s) !! Z.to_nat (int32_wrap h) = Some i)
  | cLast, Ok (aID i) => s' = s ∧ i = tipOf g (s_blocks s)
  | cHealth, Ok (aID i) => s' = s ∧ s_up s = true ∧ i = tipOf g (s_blocks s)
  | _, _ => s' = s
  end.

(** The node stands for the abstract chain. *)
Record simulates (v : VM) (s : ledgerState) : Prop := {
  sim_init : initialized v = true;
  sim_tip : lastAccepted v = tipOf g (s_blocks s);
  sim_up : s_up s = true ↔ vm_broken v = None;
  sim_chain : s_up s = true → chain_ok p (vm_chain v) g (s_blocks s);
  sim_verified i b : verifiedBlocks v !! i = Some b → id b = i ∧ adapter_ok b }.

(** What keeps identifiers and heights from wrapping round. *)
Definition callOk (s : ledgerState) (c : call) : Prop :=
  Z.of_nat (length (s_blocks s)) < 2147483646 ∧
  match c with
  | cAccept _ _ b => adapter_ok b ∧ no_collision (blockTxs (g :: s_blocks s ++ [btcBlock b]))
  | cVerify _ b => adapter_ok b
  | _ => True
  end.

(** ** Steps *)

Lemma run_update {A} (f : VM → VM) (k : unit → Vm A) v Q : run (k tt) (f v) Q → run (update f ≫= k) v Q.
Proof. intros H. apply run_bind. exact H. Qed.

Lemma run_onChain {A B} (m : Ch A) (f : A → Vm B) v Q :
  run m (vm_chain v) (fun r b => match r with Ok a => run (f a) (set_chain b v) Q | Err e => Q (Err e) (set_chain b v) end) →
  run (onChain m ≫= f) v Q.
Proof.
  intros H. apply run_bind. unfold run at 1, onChain. unfold run at 1 in H. destruct (m (vm_chain v)) as [r b]. exact H.
Qed.

Lemma newBlockAdapter_ok blk h b : newBlockAdapter blk h = Ok b → adapter_ok b ∧ btcBlock b = blk ∧ ba_height b = h mod two64.
Proof. unfold newBlockAdapter. intros ([]&_&[= <-])%bind_Ok. done. Qed.

(** What every call but an accept may do: the chain is read, and a block is
    verified by the time [T]. *)
Record moved (T : Z) (s : ledgerState) (v v' : VM) : Prop := {
  mv_last : lastAccepted v' = lastAccepted v;
  mv_chain : s_up s = true → reading p (vm_chain v) (vm_chain v');
  mv_verified i b : s_up s = true → verifiedBlocks v' !! i = Some b →
    verifiedBlocks v !! i = Some b ∨ ∃ now, now ≤ T ∧ passed p now (vm_chain v') (btcBlock b) }.

#[export] Instance moved_preorder T s : PreOrder (moved T s).
Proof.
  split.
  - intros v. split; [done|reflexivity|by left].
  - intros v1 v2 v3 [E1 H1 V1] [E2 H2 V2]. split; [congruence|intros Hu; etrans; eauto|].
    intros i b Hu Hi. destruct (V2 i b Hu Hi) as [Hi2|]; [|by right].
    destruct (V1 i b Hu Hi2) as [|(now&Hle&HP)]; [by left|]. right. exists now. split; [done|].
    eapply passed_reading; [|exact HP]. by apply H2.
Qed.

(** The node simulates the same abstract chain. *)
Definition kept (T : Z) (s : ledgerState) (v v' : VM) : Prop := simulates v' s ∧ moved T s v v'.

(** Only the chain's caches change, or the chain is not known. *)
Lemma kept_chain T v s b :
  simulates v s → (s_up s = true → reading p (vm_chain v) b) → kept T s v (set_chain b v).
Proof.
  intros [? ? ? Hc ?] HR. split; [|by split; [..|left]]. split; try done.
  intros Hu. eapply chain_reading; [by apply HR|by apply Hc].
Qed.

Lemma kept_builder T v s f : simulates v s → kept T s v (onBuilder f v).
Proof. intros []. split; [by split|]. split; [done|reflexivity|by left]. Qed.

Lemma kept_refl T v s : simulates v s → kept T s v v.
Proof. by split. Qed.

Lemma kept_decided T mempool v s : simulates v s → kept T s v (onBlockDecided p mempool v).
Proof. intros HS. unfold onBlockDecided. destruct (needToBuild p mempool v); [by apply kept_builder|by apply kept_refl]. Qed.

Lemma kept_delete T v s i : simulates v s → kept T s v (set_verified (delete i (verifiedBlocks v)) v).
Proof.
  intros [? ? ? ? Hv]. assert (∀ j b, delete i (verifiedBlocks v) !! j = Some b → verifiedBlocks v !! j = Some b) as Hd.
  { intros j b. rewrite lookup_delete_Some. by intros [_ ?]. }
  split; [split; try done; intros j b Hj; by apply Hv, Hd|]. split; [done|reflexivity|]. intros j b _ Hj. left. by apply Hd.
Qed.

Definition stays {A} (T : Z) (s : ledgerState) (m : Vm A) (P : A → Prop) : Prop :=
  ∀ v, simulates v s → run m v (fun r v' => kept T s v v' ∧ ∀ a, r = Ok a → P a).

Lemma stays_bind {A B} T s (m : Vm A) (f : A → Vm B) (P : A → Prop) (Q : B → Prop) :
  stays T s m P → (∀ a, P a → stays T s (f a) Q) → stays T s (m ≫= f) Q.
Proof.
  intros Hm Hf v HS. apply run_bind. eapply run_mono; [by apply Hm|]. intros [a|e] v' [[HS' HM] Ha]; [|done].
  eapply run_mono; [by apply Hf; [apply Ha|]|]. intros r v'' [[HS'' HM'] Hr]. split; [|done]. split; [done|by etrans].
Qed.

Lemma stays_lift {A} T s (r : result A) (P : A → Prop) : (∀ a, r = Ok a → P a) → stays T s (st_lift r) P.
Proof. intros HP v HS. apply run_lift. split; [by apply kept_refl|done]. Qed.

Lemma stays_ret {A} T s (a : A) (P : A → Prop) : P a → stays T s (mret a) P.
Proof. intros HP v HS. apply run_ret. split; [by apply kept_refl|]. by intros ? [= <-]. Qed.

Lemma stays_update T s f : (∀ v, simulates v s → kept T s v (f v)) → stays T s (update f) (fun _ => True).
Proof. intros Hf v HS. split; [by apply Hf|done]. Qed.

Lemma stays_get {A} T s (f : VM → Vm A) P :
  (∀ v, simulates v s → run (f v) v (fun r v' => kept T s v v' ∧ ∀ a, r = Ok a → P a)) → stays T s (st_get ≫= f) P.
Proof. intros Hf v HS. apply run_get. by apply Hf. Qed.

(** A check first. *)
Lemma run_check {A B} T s v (r : result B) (f : B → Vm A) (P : A → Prop) :
  simulates v s → (∀ x, r = Ok x → run (f x) v (fun r v' => kept T s v v' ∧ ∀ a, r = Ok a → P a)) →
  run (st_lift r ≫= f) v (fun r v' => kept T s v v' ∧ ∀ a, r = Ok a → P a).
Proof. intros HS Hf. apply run_lift_bind; [done|]. intros e _. split; [by apply kept_refl|done]. Qed.

Lemma stays_orElse {A} T s (m m' : Vm A) (P : A → Prop) : stays T s m P → stays T s m' P → stays T s (orElse m m') P.
Proof.
  intros Hm Hm' v HS. specialize (Hm v HS). unfold run, orElse in *. destruct (m v) as [[a|e] v'] eqn:E.
  - destruct Hm as [HS' Ha]. split; [done|]. intros ? [= <-]. by apply Ha.
  - destruct Hm as [[HS' HM] _]. specialize (Hm' v' HS'). unfold run in Hm'. destruct (m' v') as [r v''].
    destruct Hm' as [[HS'' HM'] Hr]. split; [|done]. split; [done|by etrans].
Qed.

(** Looking a block up. *)
Lemma stays_getBlock T s i : stays T s (getBlock i) (fun b => s_up s = true → adapter_ok b ∧ id b = i).
Proof.
  intros v HS. unfold run, getBlock. destruct (verifiedBlocks v !! i) as [b|] eqn:Ev.
  { split; [by apply kept_refl|]. intros ? [= <-] _. by destruct (sim_verified _ _ HS i b Ev). }
  unfold acceptedBlockAdapter, onChain. destruct (s_up s) eqn:Eu; cycle 1.
  { destruct (BlockByHash (idToHash i) (vm_chain v)) as [[[blk h]|e] b]; (split; [apply kept_chain; congruence|done]). }
  pose proof (BlockByHash_run p g (s_blocks s) (idToHash i) (vm_chain v) (sim_chain _ _ HS Eu)) as Hrun. unfold run in Hrun.
  destruct (BlockByHash (idToHash i) (vm_chain v)) as [[[blk h]|e] b]; destruct Hrun as (HR&Hok&_);
    (split; [by apply kept_chain|]); [|done].
  intros a [Ha [Eb _]]%newBlockAdapter_ok _. destruct (Hok blk h eq_refl) as (_&_&Eh). split; [done|].
  destruct Ha as (->&_). by rewrite Eb.
Qed.

Lemma passed_fits now v s blk :
  simulates v s → s_up s = true → passed p now (vm_chain v) blk → Z.of_nat (length (s_blocks s)) < 2147483646 →
  fits (s_blocks s) blk.
Proof.
  intros HS Hu HP Hlen. pose proof (sim_chain _ _ HS Hu) as HOK. split.
  - destruct HP as [_ (t&td&Ht&Ev&<-&_)]. by destruct (frame_tip p _ g (s_blocks s) t td (proj1 HOK) Ht Ev) as [_ ->].
  - by eapply passed_connectable.
Qed.

Lemma stays_Verify T s now b :
  now ≤ T → Z.of_nat (length (s_blocks s)) < 2147483646 → adapter_ok b →
  stays T s (Verify p now b) (fun _ => s_up s = true ∧ fits (s_blocks s) (btcBlock b)).
Proof.
  intros Hle Hlen Hb. unfold Verify. apply stays_get. intros v HS.
  apply run_check; [done|intros [] Hbr%ensure_Ok%bool_decide_eq_true]. apply (sim_up _ _ HS) in Hbr as Hu.
  apply run_check; [done|intros [] _]. apply run_check; [done|intros [] _].
  pose proof (sim_chain _ _ HS Hu) as HOK. apply run_onChain.
  eapply run_mono; [by apply (template_run p now PO _ g (s_blocks s))|]. intros [[]|e] b' [HQ HP];
    (assert (kept T s v (set_chain b' v)) as [HS' HM] by (apply kept_chain; [done|intros _; by apply reading_quiet])); [|by split].
  unfold update, run. split; [|intros ? _; split; [done|]; by apply (passed_fits now v); [..|apply HP|]].
  destruct HS' as [? ? ? ? Hv], HM as [Hl Hch Hver]. split; (split; try done);
    intros i b0; cbn [set_verified verifiedBlocks]; [|intros _]; rewrite lookup_insert_Some; intros [[<- <-]|[_ Hi]].
  - done.
  - by apply Hv.
  - right. exists now. split; [done|]. eapply passed_quiet; [exact HQ|]. by apply HP.
  - by left.
Qed.

Lemma stays_buildOnTip T s now clock cfg mempool :
  Z.of_nat (length (s_blocks s)) < 2147483646 → s_up s = true →
  stays T s (buildOnTip p now clock cfg mempool) (fun b => adapter_ok b ∧ fits (s_blocks s) (btcBlock b)).
Proof.
  intros Hlen Hu. unfold buildOnTip.
  apply (stays_bind _ _ _ _ (fun _ => True)).
  { apply stays_get. intros v HS. apply run_onChain.
    eapply run_mono; [apply (BlockByHash_run p g (s_blocks s)); by apply (sim_chain _ _ HS)|].
    intros [[blk h]|e] b' (HR&_); (assert (kept T s v (set_chain b' v)) as HS' by (by apply kept_chain)); by split. }
  intros cur _. apply (stays_bind _ _ _ _ (fun _ => True)).
  { apply stays_update. intros v HS. unfold handleBuildAttempt.
    match goal with |- context [onBuilder ?f v] => pose proof (kept_builder T v s f HS) as [HS1 HM1]; set (v1 := onBuilder f v) in * end.
    destruct (needToBuild _ _ _); [|by split]. destruct (kept_builder T v1 s signalCanBuild HS1) as [HS2 HM2].
    split; [done|by etrans]. }
  intros _ _. apply (stays_bind _ _ _ _ (fun _ => True)); [by apply stays_lift|]. intros pol _.
  apply (stays_bind _ _ _ _ (fun _ => True)); [by apply stays_lift|]. intros addr _.
  apply (stays_bind _ _ _ _ (fun _ => True)); [by apply stays_lift|]. intros payTo _.
  apply (stays_bind _ _ _ _ (fun t => zeroNonce (bt_Block t) = bt_Block t ∧ fits (s_blocks s) (bt_Block t))).
  { intros v HS. pose proof (NewBlockTemplate_run p PO g (s_blocks s) Hlen pol now mempool (Some payTo) (vm_chain v)
      (sim_chain _ _ HS Hu)) as Hrun. unfold run, onChain in *. destruct (NewBlockTemplate _ _ _ _ _ _) as [r b'].
    destruct Hrun as [HR Ht]. assert (kept T s v (set_chain b' v)) as [HS' HM'] by (by apply kept_chain). split; [by split|].
    intros t ->. destruct (Ht t eq_refl) as (HP&En&_). split; [|by apply (passed_fits now (set_chain b' v))].
    unfold zeroNonce. destruct (bt_Block t) as [[] txs]. simpl in *. by rewrite En. }
  intros t [Et Hf]. rewrite Et.
  apply (stays_bind _ _ _ _ (fun b => adapter_ok b ∧ btcBlock b = bt_Block t)).
  { apply stays_lift. intros b (?&?&_)%newBlockAdapter_ok. done. }
  intros b [Hb Eb]. apply stays_get. intros v HS. apply run_check; [done|intros [] _].
  apply run_update, run_ret. split; [by apply kept_builder|]. intros ? [= <-]. by rewrite Eb.
Qed.

Lemma stays_Build T s now clock cfg mempool :
  Z.of_nat (length (s_blocks s)) < 2147483646 →
  stays T s (BuildBlock p now clock cfg mempool) (fun b => s_up s = true ∧ adapter_ok b ∧ fits (s_blocks s) (btcBlock b)).
Proof.
  intros Hlen. unfold BuildBlock. apply stays_get. intros v HS.
  apply run_check; [done|intros [] Hbr%ensure_Ok%bool_decide_eq_true]. apply (sim_up _ _ HS) in Hbr as Hu.
  apply run_check; [done|intros [] _]. apply run_check; [done|intros [] _].
  eapply run_mono; [by apply stays_buildOnTip|]. intros r v' [HS' Hb]. split; [done|]. intros b ->. by split; [|apply Hb].
Qed.

(** Accepting: the chain has the block, on disk too, or is as it was, or the
    node takes no more. *)
Definition accepted (s : ledgerState) (b : BlockAdapter) (r : result unit) (v' : VM) : Prop :=
  match r with
  | Ok _ =>
      s_up s = true ∧ fits (s_blocks s) (btcBlock b) ∧ simulates v' (mkSpec (s_blocks s ++ [btcBlock b]) true) ∧
      uc_db (bc_utxo (vm_chain v')) = ledger g (s_blocks s ++ [btcBlock b]) ∧
      uc_consistent (bc_utxo (vm_chain v')) = Some (id b)
  | Err e => simulates v' s ∨ s_up s = true ∧ isRuleError e = false ∧ simulates v' (mkSpec (s_blocks s) false)
  end.

Lemma simulates_broken v s b e : simulates v s → simulates (brokenBy e (set_chain b v)) (mkSpec (s_blocks s) false).
Proof. by intros []. Qed.

Lemma accept_run s now b v :
  Z.of_nat (length (s_blocks s)) < 2147483646 → adapter_ok b → no_collision (blockTxs (g :: s_blocks s ++ [btcBlock b])) →
  simulates v s → run (accept p now b) v (accepted s b).
Proof.
  intros Hlen (Eid&Epar&_) Hcol HS. unfold accept. apply run_get.
  apply run_lift_bind; [intros [] Hp%ensure_Ok%bool_decide_eq_true|intros; by left].
  apply run_lift_bind; [intros [] Hbr%ensure_Ok%bool_decide_eq_true|intros; by left]. apply (sim_up _ _ HS) in Hbr as Hu.
  rewrite (sim_tip _ _ HS), Epar in Hp. pose proof (sim_chain _ _ HS Hu) as HOK.
  unfold connectAndPersist, run, onChain.
  pose proof (ProcessBlock_run p now PO (vm_chain v) g (s_blocks s) (btcBlock b) HOK Hp Hlen Hcol) as Hrun. unfold run in Hrun.
  destruct (ProcessBlock _ _ _ _) as [[[m o]|e] b1]; destruct Hrun as [Htr Hm]; cycle 1.
  { destruct (isRuleError e) eqn:Ee; cbn [accepted]; [left|right].
    - destruct HS. split; try done. intros _. by apply Htr.
    - split; [done|]. split; [done|]. by apply simulates_broken. }
  injection (Hm _ eq_refl) as -> ->. cbn [orb negb vm_chain set_chain].
  pose proof (Persist_run p b1 g (s_blocks s ++ [btcBlock b]) Htr) as Hrun. unfold run in Hrun.
  destruct (Persist b1) as [[[]|e] b2]; cbn [accepted]; cycle 1.
  { right. subst e. split; [done|]. split; [done|]. by apply (simulates_broken v s). }
  destruct Hrun as (HOK2&Hdb&Hco). split; [done|]. split.
  { split; [done|]. destruct Htr as (_&HC&_). pose proof (ca_connected _ _ _ _ HC (length (s_blocks s)) (btcBlock b)) as Hcn.
    rewrite take_app_length in Hcn. apply Hcn. rewrite lookup_app_r by done. by rewrite Nat.sub_diag. }
  assert (tipOf g (s_blocks s ++ [btcBlock b]) = id b) as Etip by (unfold tipOf; by rewrite last_snoc, Eid).
  split; [|split; [done|by rewrite <- Etip]]. destruct HS as [? ? ? ? Hv]. split; try done.
  intros i b0. cbn [set_lastAccepted set_verified set_chain verifiedBlocks]. rewrite lookup_delete_Some. intros [_ Hi]. by apply Hv.
Qed.

Lemma stays_SetState T s gossip mempool st : stays T s (SetState gossip mempool st) (fun _ => True).
Proof.
  assert (∀ x, stays T s (update (set_bootstrapped x)) (fun _ => True)) as Hset.
  { intros x. apply stays_update. intros v []. split; [by split|]. split; [done|reflexivity|by left]. }
  unfold SetState. destruct st; [apply Hset..| |by apply stays_lift].
  apply stays_get. intros v HS. destruct (bootstrapped v); [by apply stays_ret|].
  apply (stays_bind _ _ _ _ (fun _ => True)); [apply Hset| |done]. intros _ _.
  apply (stays_bind _ _ _ _ (fun _ => True)); [by apply stays_lift|]. intros _ _.
  apply stays_get. intros v' HS'. apply run_check; [done|intros [] _].
  split; [|done]. destruct (negb _); [by apply kept_builder|by apply kept_refl].
Qed.

Lemma stays_parse T s bs : stays T s (ParseBlock bs) (fun b => s_up s = true → adapter_ok b).
Proof.
  assert (∀ i, stays T s (getBlock i) (fun b => s_up s = true → adapter_ok b)) as Hget.
  { intros i v HS. eapply run_mono; [by apply stays_getBlock|]. intros r v' [HS' Hr]. split; [done|]. intros b -> Hu.
    by apply (Hr b eq_refl). }
  unfold ParseBlock. apply stays_get. intros v HS. apply run_check; [done|intros [] _].
  apply (stays_bind _ _ _ _ (fun b => s_up s = true → adapter_ok b)); [| |done].
  - apply (stays_bind _ _ _ _ (fun _ => True)); [by apply stays_lift|]. intros blk _.
    apply (stays_bind _ _ _ _ (fun _ => True)); [by apply stays_lift|]. intros _ _. apply stays_orElse; [apply Hget|].
    apply (stays_bind _ _ _ _ (fun _ => True)); [by apply stays_lift|]. intros cb _.
    apply (stays_bind _ _ _ _ (fun _ => True)); [by apply stays_lift|]. intros h _. apply stays_lift.
    intros b (?&_)%newBlockAdapter_ok. done.
  - intros b Hb. apply stays_orElse; [apply Hget|by apply stays_ret].
Qed.

Lemma stays_height T s h :
  stays T s (GetBlockIDAtHeight h) (fun i => s_up s = true → 0 ≤ int32_wrap h ∧
    (fun blk => BlockHash (bl_Header blk)) <$> (g :: s_blocks s) !! Z.to_nat (int32_wrap h) = Some i).
Proof.
  apply stays_get. intros v HS. apply run_check; [done|intros [] _]. unfold run. rewrite st_bind_run. unfold onChain.
  destruct (s_up s) eqn:Hu; cycle 1.
  { destruct (BlockHashByHeight _ _) as [[x|e] b']; (split; [|done]); (apply kept_chain; [done|congruence]). }
  rewrite (BlockHashByHeight_eq p g (s_blocks s)) by by apply (sim_chain _ _ HS).
  destruct (Z.ltb_spec (int32_wrap h) 0) as [|Hge]; [by split; [apply kept_chain|]|].
  destruct ((g :: s_blocks s) !! Z.to_nat (int32_wrap h)) as [blk|]; (split; [by apply kept_chain|]); [|done].
  intros i [= <-] _. done.
Qed.

(** A method's value as an answer. *)
Lemma stays_answer {A} T s (m : Vm A) (f : A → answer) (P : A → Prop) (Q : answer → Prop) :
  stays T s m P → (∀ a, P a → Q (f a)) → stays T s (a ← m; mret (f a)) Q.
Proof. intros Hm Hf. eapply stays_bind; [exact Hm|]. intros a Ha. by apply stays_ret, Hf. Qed.

Definition isAccept (c : call) : bool := match c with cAccept _ _ _ => true | _ => false end.
Definition callTime (T : Z) (c : call) : Z :=
  match c with cVerify now _ | cAccept now _ _ | cBuild now _ _ _ => now | _ => T end.

(** Every call but an accept leaves the abstract chain. *)
Lemma perform_stays T s c :
  callOk s c → isAccept c = false → callTime T c ≤ T → stays T s (perform c) (fun a => specStep s c (Ok a) s).
Proof.
  intros [Hlen Hc] Hna Ht.
  destruct c as [now b|now mempool b|mempool b|now clock cfg mempool|bs|i|i| |h| |gossip mempool st]; cbn [perform]; [|done|..].
  - eapply stays_answer; [by apply stays_Verify|]. by intros _ [? ?].
  - apply (stays_answer _ _ _ _ (fun _ => True)); [|done].
    apply (stays_bind _ _ _ _ (fun _ => True)); [apply stays_update; intros; by apply kept_delete|].
    intros _ _. apply stays_update. intros; by apply kept_decided.
  - eapply stays_answer; [by apply stays_Build|]. by intros b (?&?&?).
  - eapply stays_answer; [apply stays_parse|]. by intros b ?.
  - eapply stays_answer; [|by intros b Hb; split; [|exact Hb]].
    apply stays_get. intros v HS. apply run_check; [done|intros [] _]. by apply stays_getBlock.
  - apply (stays_answer _ _ _ _ (fun _ => True)); [|done].
    apply stays_get. intros v HS. apply run_check; [done|intros [] _]. split; [|done].
    destruct HS. split; [by split|]. split; [done|reflexivity|by left].
  - eapply stays_answer; [|by intros i Hi; split; [|exact Hi]].
    apply stays_get. intros v HS. apply run_check; [done|intros [] _]. apply run_ret. split; [by apply kept_refl|].
    intros ? [= <-]. by apply (sim_tip _ _ HS).
  - eapply stays_answer; [apply stays_height|by intros i Hi; split; [|exact Hi]].
  - eapply stays_answer; [|by intros i Hi; split; [|exact Hi]].
    apply stays_get. intros v HS. apply run_check; [done|intros [] _].
    destruct (vm_broken v) eqn:Eb; [apply run_lift; split; [by apply kept_refl|done]|].
    apply run_ret. split; [by apply kept_refl|]. intros ? [= <-].
    split; [by apply (sim_up _ _ HS)|apply (sim_tip _ _ HS)].
  - apply (stays_answer _ _ _ _ (fun _ => True)); [apply stays_SetState|done].
Qed.

Lemma perform_simulates v s c r v' :
  simulates v s → callOk s c → perform c v = (r, v') → ∃ s', specStep s c r s' ∧ simulates v' s'.
Proof.
  intros HS Hc E. destruct (isAccept c) eqn:Ea; cycle 1.
  { assert (callTime (callTime 0 c) c ≤ callTime 0 c) as Ht by by destruct c.
    pose proof (perform_stays (callTime 0 c) s c Hc Ea Ht v HS) as Hst. unfold run in Hst. rewrite E in Hst. destruct Hst as [[HS' _] Hr]. exists s. split; [|done].
    destruct r as [a|e]; [by apply Hr|by destruct c]. }
  destruct c as [|now mempool b| | | | | | | | | ]; try done. destruct Hc as [Hlen [Hb Hcol]].
  pose proof (accept_run s now b v Hlen Hb Hcol HS) as Hrun.
  cbn [perform] in E. unfold Accept in E. rewrite st_bind_run, st_bind_run in E. unfold run in Hrun.
  destruct (accept p now b v) as [[[]|e] v1]; cbn [accepted] in Hrun.
  - destruct Hrun as (Hu&Hf&HS1&_). injection E as <- <-. eexists. split; [done|]. by apply (kept_decided 0).
  - injection E as <- <-. destruct Hrun as [HS1|(Hu&He&HS1)]; [by exists s; split; [left|]|].
    eexists. split; [right|exact HS1]. done.
Qed.

(** ** Runs *)

Fixpoint performAll (cs : list call) (v : VM) : list (result answer) * VM :=
  match cs with
  | [] => ([], v)
  | c :: cs => let '(r, v1) := perform c v in let '(rs, v2) := performAll cs v1 in (r :: rs, v2)
  end.

Inductive specRun : ledgerState → list call → list (result answer) → ledgerState → Prop :=
| specDone s : specRun s [] [] s
| specCall s c r s1 cs rs s2 : specStep s c r s1 → specRun s1 cs rs s2 → specRun s (c :: cs) (r :: rs) s2.

Definition callBlock (c : call) : option BlockAdapter :=
  match c with cVerify _ b | cAccept _ _ b => Some b | _ => None end.

(** The blocks the engine accepts. *)
Definition offered (cs : list call) : list MsgBlock :=
  omap (fun c => match c with cAccept _ _ b => Some (btcBlock b) | _ => None end) cs.

(** No two transactions collide, and heights stay below 2{^31}. *)
Record callsOk (s : ledgerState) (cs : list call) : Prop := {
  co_adapter c b : c ∈ cs → callBlock c = Some b → adapter_ok b;
  co_collision : no_collision (blockTxs (g :: s_blocks s ++ offered cs));
  co_height : Z.of_nat (length (s_blocks s) + length cs) < 2147483646 }.

Lemma no_collision_sub txs txs' : (∀ tx, tx ∈ txs → tx ∈ txs') → no_collision txs' → no_collision txs.
Proof. intros Hs Hc tx tx' H1 H2. apply Hc; auto. Qed.

Lemma blockTxs_sub (l l' : list MsgBlock) tx : (∀ b, b ∈ l → b ∈ l') → tx ∈ blockTxs l → tx ∈ blockTxs l'.
Proof. unfold blockTxs. rewrite !list_elem_of_bind. intros Hs (b&?&?). exists b. split; auto. Qed.

Lemma callsOk_head s c cs : callsOk s (c :: cs) → callOk s c.
Proof.
  intros [Ha Hc Hh]. split; [simpl in Hh; lia|]. destruct c; try done; [apply (Ha (cVerify now b)); [left|done]|].
  split; [apply (Ha (cAccept now mempool b)); [left|done]|]. eapply no_collision_sub; [|exact Hc]. intros tx.
  apply blockTxs_sub. intros b'. cbn [offered omap list_omap]. set_solver.
Qed.

Lemma callsOk_tail s c cs r s' : callsOk s (c :: cs) → specStep s c r s' → callsOk s' cs.
Proof.
  intros [Ha Hc Hh] Hst.
  assert (s_blocks s' = s_blocks s ∨ ∃ now mp b, c = cAccept now mp b ∧ s_blocks s' = s_blocks s ++ [btcBlock b]) as Hs.
  { destruct c, r as [[]|]; cbn [specStep] in Hst; naive_solver. }
  split; [intros c' b Hin; apply Ha; by right| |].
  - eapply no_collision_sub; [|exact Hc]. intros tx. apply blockTxs_sub. intros b.
    destruct Hs as [->|(now&mp&b'&->&->)]; cbn [offered omap list_omap]; [|set_solver]. destruct c; set_solver.
  - destruct Hs as [->|(now&mp&b'&->&->)]; rewrite ?length_app in *; simpl in *; lia.
Qed.

Lemma performAll_simulates cs v s rs v' :
  simulates v s → callsOk s cs → performAll cs v = (rs, v') → ∃ s', specRun s cs rs s' ∧ simulates v' s'.
Proof.
  revert v s rs. induction cs as [|c cs IH]; intros v s rs HS Hc E; cbn [performAll] in E.
  { injection E as <- <-. exists s. split; [constructor|done]. }
  destruct (perform c v) as [r v1] eqn:Ep. destruct (performAll cs v1) as [rs1 v2] eqn:Ea. injection E as <- <-.
  destruct (perform_simulates v s c r v1 HS (callsOk_head _ _ _ Hc) Ep) as (s1&Hst&HS1).
  destruct (IH v1 s1 rs1 HS1 (callsOk_tail _ _ _ _ _ Hc Hst) Ea) as (s2&Hrun&HS2). exists s2. split; [by econstructor|done].
Qed.

Lemma specRun_prefix s cs rs s' :
  specRun s cs rs s' → s_blocks s `prefix_of` s_blocks s' ∧ (s_up s' = true → s_up s = true).
Proof.
  induction 1 as [s|s c r s1 cs rs s2 Hst _ [IH IHu]]; [done|].
  assert (s_blocks s `prefix_of` s_blocks s1 ∧ (s_up s1 = true → s_up s = true)) as [Hp Hu].
  { destruct c, r as [[]|]; cbn [specStep] in Hst; destruct_and?; subst; try done;
      try (split; [by apply prefix_app_r|done]); destruct Hst as [->|(?&?&->)]; done. }
  split; [by etrans|auto].
Qed.

(** ** The engine's contract *)

(** Without database failures: the chain only grew, and what was verified on
    the last accepted block passed the check. *)
Record ready (T : Z) (v : VM) (blks : list MsgBlock) : Prop := {
  rd_sim : simulates v (mkSpec blks true);
  rd_linear : linear_ok p (vm_chain v) g blks;
  rd_calm : calm (bc_utxo (vm_chain v));
  rd_parent i b : verifiedBlocks v !! i = Some b → ∃ blk, blk ∈ g :: blks ∧ parentID b = BlockHash (bl_Header blk);
  rd_passed i b : verifiedBlocks v !! i = Some b → parentID b = lastAccepted v →
    ∃ now, now ≤ T ∧ passed p now (vm_chain v) (btcBlock b) }.

Lemma ready_kept T T' v v' blks : T ≤ T' → ready T v blks → kept T' (mkSpec blks true) v v' → ready T' v' blks.
Proof.
  intros Hle [HS HL Hc Hpar Hp] [HS' [El HR Hv]]. specialize (HR eq_refl). split; [done| | | |].
  - by eapply linear_reading.
  - by eapply calm_reading.
  - intros i b Hi. destruct (Hv i b eq_refl Hi) as [Hi'|(now&_&HP)]; [by eapply Hpar|].
    destruct (sim_verified _ _ HS' i b Hi) as [_ (_&->&_)]. destruct (sim_chain _ _ HS' eq_refl) as (HF&_).
    destruct HP as [_ (t&td&Ht&Ev&<-&_)]. destruct (frame_tip p _ g blks t td HF Ht Ev) as [_ ->].
    eexists. split; [eapply list_elem_of_lookup_2, cons_last|done].
  - intros i b Hi Ep. rewrite El in Ep. destruct (Hv i b eq_refl Hi) as [Hi'|]; [|done].
    destruct (Hp i b Hi' Ep) as (now&Hn&HP). exists now. split; [lia|]. by eapply passed_reading.
Qed.

(** Every call but an accept keeps the node ready. *)
Lemma ready_call T v blks c r v' :
  ready T v blks → callOk (mkSpec blks true) c → isAccept c = false → T ≤ callTime T c → perform c v = (r, v') →
  ready (callTime T c) v' blks.
Proof.
  intros HR Hc Ha Ht E. eapply ready_kept; [exact Ht|exact HR|].
  assert (callTime (callTime T c) c ≤ callTime T c) as Hle by by destruct c.
  pose proof (perform_stays (callTime T c) (mkSpec blks true) c Hc Ha Hle v (rd_sim _ _ _ HR)) as Hst.
  unfold run in Hst. rewrite E in Hst. by destruct Hst.
Qed.

Lemma Persist_ok b blks :
  linear_ok p b g blks → calm (bc_utxo b) → okrun Persist b (fun _ b' => linear_ok p b' g blks ∧ calm (bc_utxo b')).
Proof.
  intros HL Hc. pose proof (ln_chain _ _ _ _ HL) as HOK.
  cut (okrun Persist b (fun _ b' => ∃ u, b' = set_utxo u b ∧ calm u)).
  { intros Hok. eapply okrun_mono; [exact (okrun_and _ _ _ _ Hok (Persist_run p b g blks HOK))|].
    intros [] b' [(u&->&Hcu) (HOK'&_)]. split; [|done]. by destruct HL. }
  unfold Persist. apply run_get. apply okrun_bind, okrun_onCache.
  pose proof (steady_flush FlushRequired false (bs_Hash (bc_snapshot b)) (bc_utxo b) Hc) as Hst. unfold okrun, run in *.
  destruct HOK as (_&HC&_). destruct (flush_spec FlushRequired false (bs_Hash (bc_snapshot b)) (bc_utxo b) _ _ (ca_reps _ _ _ _ HC)
    (ca_known _ _ _ _ HC)) as (r&u&E&[(->&_)|(->&_)]); rewrite E in Hst |- *; destruct Hst as [Hcu Hne]; [|done].
  eexists. split; [done|]. rewrite dbView_calm by done. eexists. split; [done|]. by exists u.
Qed.

(** A verified block is accepted. *)
Lemma ready_accept T v blks now b :
  ready T v blks → verifiedBlocks v !! id b = Some b → parentID b = lastAccepted v → T ≤ now →
  Z.of_nat (length blks) < 2147483646 → no_collision (blockTxs (g :: blks ++ [btcBlock b])) →
  no_header_collision g (blks ++ [btcBlock b]) →
  okrun (accept p now b) v (fun _ v' => ready now v' (blks ++ [btcBlock b])).
Proof.
  intros HR Hv Ep Hle Hlen Hcol Hhcol. pose proof (rd_sim _ _ _ HR) as HS.
  destruct (sim_verified _ _ HS _ _ Hv) as [_ Hb]. destruct (rd_passed _ _ _ HR _ _ Hv Ep) as (now0&Hn0&HP).
  pose proof (accept_run (mkSpec blks true) now b v Hlen Hb Hcol HS) as Hrun.
  assert (vm_broken v = None) as Hbr by by apply (sim_up _ _ HS).
  cut (okrun (accept p now b) v (fun _ v' => linear_ok p (vm_chain v') g (blks ++ [btcBlock b]) ∧ calm (bc_utxo (vm_chain v')) ∧
    lastAccepted v' = id b ∧ verifiedBlocks v' = delete (id b) (verifiedBlocks v))).
  { intros Hok. eapply okrun_mono; [exact (okrun_and _ _ _ _ Hok Hrun)|]. intros [] v' ((HL&Hc&El&Evd)&(_&_&HS'&_)).
    assert (∀ i b0, verifiedBlocks v' !! i = Some b0 → ∃ blk, blk ∈ g :: blks ∧ parentID b0 = BlockHash (bl_Header blk)) as Hpar.
    { intros i b0. rewrite Evd, lookup_delete_Some. intros [_ Hi]. by apply (rd_parent _ _ _ HR i). }
    split; try done; intros i b0 Hi; destruct (Hpar i b0 Hi) as (blk&Hin&Eb).
    - exists blk. split; [set_solver|done].
    - rewrite El. intros Eid. exfalso. destruct Hb as (Ebid&_). apply list_elem_of_lookup in Hin as (j&Hj).
      assert (j = length (g :: blks)) as ->; [|by rewrite lookup_ge_None_2 in Hj].
      eapply (chain_hashes p _ g (blks ++ [btcBlock b])); [apply (ln_chain _ _ _ _ HL)|rewrite app_comm_cons; by apply lookup_app_l_Some| |].
      + change (g :: blks ++ [btcBlock b]) with ((g :: blks) ++ [btcBlock b]). rewrite lookup_app_r, Nat.sub_diag by done. done.
      + congruence. }
  unfold accept. apply run_get. apply okrun_ensure; [by apply bool_decide_eq_true|].
  apply okrun_ensure; [by apply bool_decide_eq_true|]. unfold connectAndPersist, okrun, run, onChain.
  assert (now0 ≤ now) as Hnn by lia.
  pose proof (ProcessBlock_ok p PO now0 now (vm_chain v) g blks (btcBlock b) (rd_linear _ _ _ HR) (rd_calm _ _ _ HR) HP Hnn Hlen Hcol Hhcol) as Hok.
  unfold okrun, run in Hok. destruct (ProcessBlock _ _ _ _) as [r b1]. destruct Hok as (m&->&->&Hc1&HL1).
  cbn [orb negb vm_chain set_chain]. pose proof (Persist_ok b1 _ HL1 Hc1) as Hok. unfold okrun, run in Hok.
  destruct (Persist b1) as [r b2]. destruct Hok as ([]&->&HL2&Hc2). eexists. split; [done|]. done.
Qed.

(** Time does not run back, and what is accepted was verified on the last
    accepted block. *)
Definition conforming (T : Z) (v : VM) (c : call) : Prop :=
  T ≤ callTime T c ∧
  match c with
  | cAccept _ _ b => verifiedBlocks v !! id b = Some b ∧ parentID b = lastAccepted v
  | _ => True
  end.

Fixpoint conformingAll (T : Z) (v : VM) (cs : list call) : Prop :=
  match cs with
  | [] => True
  | c :: cs => conforming T v c ∧ conformingAll (callTime T c) (perform c v).2 cs
  end.

Lemma ready_decided T mempool v blks : ready T v blks → ready T (onBlockDecided p mempool v) blks.
Proof. intros HR. eapply ready_kept; [done|exact HR|]. apply kept_decided, HR. Qed.

Lemma ready_perform T v blks c cs :
  ready T v blks → callsOk (mkSpec blks true) (c :: cs) → no_header_collision g (blks ++ offered (c :: cs)) → conforming T v c →
  ∃ r v', perform c v = (r, v') ∧ ready (callTime T c) v' (blks ++ offered [c]) ∧ (isAccept c = true → r = Ok aDone).
Proof.
  intros HR Hc Hh [Ht Hcf]. pose proof (callsOk_head _ _ _ Hc) as Hok. destruct (perform c v) as [r v'] eqn:E. exists r, v'.
  split; [done|]. destruct (isAccept c) eqn:Ea; cycle 1.
  { split; [|done]. assert (offered [c] = []) as -> by by destruct c. rewrite app_nil_r. by eapply ready_call. }
  destruct c as [|now mempool b| | | | | | | | | ]; try done. destruct Hcf as [Hv Ep]. destruct Hok as [Hlen [_ Hcol]].
  assert (no_header_collision g (blks ++ [btcBlock b])) as Hhc.
  { intros x y Hx Hy. apply Hh; cbn [offered omap list_omap]; set_solver. }
  pose proof (ready_accept T v blks now b HR Hv Ep Ht Hlen Hcol Hhc) as Hacc. unfold okrun, run in Hacc.
  cbn [perform] in E. unfold Accept in E. rewrite st_bind_run, st_bind_run in E.
  destruct (accept p now b v) as [r1 v1]. destruct Hacc as ([]&->&HR1). injection E as <- <-.
  split; [by apply ready_decided|done].
Qed.

Lemma offered_cons c cs : offered (c :: cs) = offered [c] ++ offered cs.
Proof. unfold offered. cbn [omap list_omap]. by destruct c. Qed.

Lemma ready_run T v blks cs rs v' :
  ready T v blks → callsOk (mkSpec blks true) cs → no_header_collision g (blks ++ offered cs) → conformingAll T v cs →
  performAll cs v = (rs, v') →
  ready (foldl callTime T cs) v' (blks ++ offered cs) ∧ Forall2 (fun c r => isAccept c = true → r = Ok aDone) cs rs.
Proof.
  revert T v blks rs. induction cs as [|c cs IH]; intros T v blks rs HR Hc Hh Hcf E; cbn [performAll] in E.
  { injection E as <- <-. rewrite app_nil_r. split; [done|constructor]. }
  destruct Hcf as [Hcf Hcfs]. destruct (ready_perform T v blks c cs HR Hc Hh Hcf) as (r&v1&Ep&HR1&Hr).
  rewrite Ep in E, Hcfs. destruct (performAll cs v1) as [rs1 v2] eqn:Ea. injection E as <- <-.
  destruct (perform_simulates v (mkSpec blks true) c r v1 (rd_sim _ _ _ HR) (callsOk_head _ _ _ Hc) Ep) as (s1&Hst&_).
  rewrite offered_cons, app_assoc in Hh |- *.
  destruct (IH _ v1 (blks ++ offered [c]) rs1 HR1) as [HR' HF]; [| |done..|].
  - destruct Hc as [Ha Hcol Hht]. rewrite offered_cons, app_assoc in Hcol. split; [intros; eapply Ha; [by right|done]|done|].
    cbn [s_blocks length] in *. rewrite length_app. assert (length (offered [c]) ≤ 1)%nat by (destruct c; simpl; lia). lia.
  - done.
  - split; [done|]. by constructor.
Qed.

(** ** Building *)

Lemma buildOnTip_run T s now clock cfg mempool v :
  Z.of_nat (length (s_blocks s)) < 2147483646 → s_up s = true → simulates v s →
  run (buildOnTip p now clock cfg mempool) v (fun r v' => kept T s v v' ∧ ∀ b, r = Ok b →
    passed p now (vm_chain v') (btcBlock b) ∧ parentID b = lastAccepted v' ∧ adapter_ok b ∧
    ba_height b = 1 + Z.of_nat (length (s_blocks s))).
Proof.
  intros Hlen Hu HS.
  cut (run (buildOnTip p now clock cfg mempool) v (fun r v' => ∀ b, r = Ok b →
    passed p now (vm_chain v') (btcBlock b) ∧ parentID b = lastAccepted v' ∧ adapter_ok b ∧
    ba_height b = 1 + Z.of_nat (length (s_blocks s)))).
  { intros Hrun. eapply run_mono; [exact (run_and _ _ _ _ (stays_buildOnTip T s now clock cfg mempool Hlen Hu v HS) Hrun)|].
    intros r v' [[HK _] Hb]. by split. }
  unfold buildOnTip, getCurrentBlock. apply run_bind, run_get, run_onChain.
  eapply run_mono; [apply (BlockByHash_run p g (s_blocks s)); by apply (sim_chain _ _ HS)|].
  intros [[cur h]|e] b1 (HR1&_); [|done]. apply run_ret, run_update.
  apply run_lift_bind; [intros pol _|done]. apply run_lift_bind; [intros addr _|done]. apply run_lift_bind; [intros payTo _|done].
  set (v1 := handleBuildAttempt _ _ _ _ _).
  assert (vm_chain v1 = b1 ∧ lastAccepted v1 = lastAccepted v) as [Ec El].
  { unfold v1, handleBuildAttempt. by destruct (needToBuild _ _ _). }
  pose proof (chain_reading _ _ _ _ _ HR1 (sim_chain _ _ HS Hu)) as HOK1. apply run_onChain. rewrite Ec.
  eapply run_mono; [by apply (NewBlockTemplate_run p PO g (s_blocks s) Hlen)|]. intros [t|e] b2 [HR2 Ht]; [|done].
  destruct (Ht t eq_refl) as (HP&En&Eh). assert (zeroNonce (bt_Block t) = bt_Block t) as Ez.
  { unfold zeroNonce. destruct (bt_Block t) as [[] txs]. simpl in *. by rewrite En. }
  rewrite Ez. apply run_lift_bind; [intros b Hb|done]. apply newBlockAdapter_ok in Hb as (Hb&Ebk&Ehb). apply run_get.
  apply run_lift_bind; [intros [] Hpar%ensure_Ok%bool_decide_eq_true|done]. apply run_update, run_ret.
  intros ? [= <-]. rewrite Ebk. split_and!; [done..|]. rewrite Ehb, Eh.
  destruct (fk_tip _ _ _ _ (proj1 HOK1)) as (tp&td&Htp&Ev&_&Esh). destruct (frame_tip p b1 g (s_blocks s) tp td (proj1 HOK1) Htp Ev) as [Eht _].
  rewrite Esh, Eht, int32_wrap_small, Z.mod_small by (unfold two64; lia). lia.
Qed.

(** A block that was built passes, and is accepted. *)
Lemma ready_built T v blks now clock cfg mempool b v' now' :
  ready T v blks → Z.of_nat (length blks) < 2147483646 → T ≤ now →
  BuildBlock p now clock cfg mempool v = (Ok b, v') → now ≤ now' →
  okrun (Verify p now' b) v' (fun _ v2 => ready now' v2 blks ∧ verifiedBlocks v2 !! id b = Some b ∧ parentID b = lastAccepted v2).
Proof.
  intros HR Hlen HT E Hle. pose proof (rd_sim _ _ _ HR) as HS.
  unfold BuildBlock in E. rewrite st_get_bind in E.
  apply st_bind_Ok in E as ([]&v1&Eb&E). injection Eb as Eb <-. apply ensure_Ok, bool_decide_eq_true in Eb.
  apply st_bind_Ok in E as ([]&v1&Ei&E). injection Ei as _ <-. apply st_bind_Ok in E as ([]&v1&Ep&E). injection Ep as _ <-.
  pose proof (buildOnTip_run now (mkSpec blks true) now clock cfg mempool v Hlen eq_refl HS) as Hrun. unfold run in Hrun.
  rewrite E in Hrun. destruct Hrun as [HK Hb]. destruct (Hb b eq_refl) as (HP&Hpar&Had&Eh).
  pose proof (ready_kept T now v v' blks HT HR HK) as HR'. pose proof (rd_sim _ _ _ HR') as HS'.
  pose proof (sim_chain _ _ HS' eq_refl) as HOK.
  cut (okrun (Verify p now' b) v' (fun _ v2 => verifiedBlocks v2 !! id b = Some b ∧ lastAccepted v2 = lastAccepted v')).
  { intros Hok. pose proof (stays_Verify now' (mkSpec blks true) now' b (Z.le_refl _) Hlen Had v' HS') as Hst.
    eapply okrun_mono; [exact (okrun_and _ _ _ _ Hok Hst)|]. intros [] v2 [[Hv2 El2] [HK2 _]].
    split; [by eapply ready_kept|]. split; [done|congruence]. }
  unfold Verify. apply run_get. apply okrun_ensure; [by apply bool_decide_eq_true, (sim_up _ _ HS')|].
  apply okrun_ensure; [by apply bool_decide_eq_true|]. apply okrun_ensure.
  { destruct (fk_tip _ _ _ _ (proj1 HOK)) as (tp&td&Htp&Ev&_&Esh).
    destruct (frame_tip p _ g blks tp td (proj1 HOK) Htp Ev) as [Eht _]. rewrite Eh, Esh, Eht. apply Z.eqb_eq.
    cbn [s_blocks]. rewrite (Z.mod_small (Z.of_nat _)), Z.mod_small by (unfold two64; lia). lia. }
  apply okrun_bind. pose proof (template_ok p PO g blks now now' (vm_chain v') (btcBlock b) HOK (rd_calm _ _ _ HR') HP Hle) as Hok.
  unfold okrun at 1, run at 1, onChain. unfold okrun, run in Hok. destruct (CheckConnectBlockTemplate _ _ _ _) as [r b2].
  destruct Hok as ([]&->&_). eexists. split; [done|]. eexists. split; [done|]. split; [apply lookup_insert_eq|done].
Qed.

(** ** Starting *)

Lemma simulates_started b blks builder bs :
  linear_ok p b g blks → let i := hashToID (bs_Hash (bc_snapshot b)) in simulates (mkVM b None i i ∅ builder bs true) (mkSpec blks true).
Proof.
  intros HL. pose proof (ln_chain _ _ _ _ HL) as HOK. split; try done. apply (frame_snapshot p b g blks), HOK.
Qed.

Lemma ready_started T b blks builder bs :
  linear_ok p b g blks → calm (bc_utxo b) →
  let i := hashToID (bs_Hash (bc_snapshot b)) in ready T (mkVM b None i i ∅ builder bs true) blks.
Proof. intros HL Hc. split; try done. by apply simulates_started. Qed.

Lemma Initialize_ready (CO : CryptoOk) now maxE rooms fulls :
  genesis_of p g → ∃ v, Initialize p now g emptyDisk maxE rooms fulls [] = Ok v ∧ ready now v [].
Proof.
  intros HG. pose proof (start_ok p PO now g maxE rooms fulls HG) as Hok. unfold Initialize, okrun, run in *.
  destruct (New _ _ _ _) as [r b]. destruct Hok as ([]&->&HL&Hc). eexists. split; [done|]. by apply ready_started.
Qed.

(** After a restart the node is where it was. *)
Lemma restart_ready (CO : CryptoOk) T v blks now g' maxE rooms fulls :
  ready T v blks → Z.of_nat (length blks) < 2147483647 →
  ∃ v', Initialize p now g' (diskOf (vm_chain v)) maxE rooms fulls [] = Ok v' ∧ ready now v' blks ∧ lastAccepted v' = lastAccepted v.
Proof.
  intros HR Hlen.
  pose proof (restart_ok p PO CO now (vm_chain v) g g' blks maxE rooms fulls (rd_linear _ _ _ HR) Hlen) as Hok.
  unfold Initialize, okrun, run in *. destruct (New _ _ _ _) as [r b]. destruct Hok as ([]&->&HL&Hc). eexists. split; [done|].
  pose proof (ready_started now b blks (Some newBlockBuilder) false HL Hc) as HR'. split; [done|].
  by rewrite (sim_tip _ _ (rd_sim _ _ _ HR')), (sim_tip _ _ (rd_sim _ _ _ HR)).
Qed.

(** The life of a node whose database never fails and whose engine conforms:
    started on an empty database, called, and any number of times stopped
    between two calls and started again on what its database holds. T is its
    clock; blks are the blocks the engine accepted so far, over all restarts. *)
Inductive life : Z → VM → list MsgBlock → Prop :=
| lifeStart now maxE rooms fulls v :
    Initialize p now g emptyDisk maxE rooms fulls [] = Ok v → life now v []
| lifeCalls T v blks cs rs v' :
    life T v blks → callsOk (mkSpec blks true) cs → no_header_collision g (blks ++ offered cs) → conformingAll T v cs →
    performAll cs v = (rs, v') → life (foldl callTime T cs) v' (blks ++ offered cs)
| lifeRestart T v blks now maxE rooms fulls v' :
    life T v blks → Initialize p now g (diskOf (vm_chain v)) maxE rooms fulls [] = Ok v' → life now v' blks.

Lemma offered_length cs : (length (offered cs) ≤ length cs)%nat.
Proof. induction cs as [|c cs IH]; [done|]. rewrite offered_cons, length_app. destruct c; simpl; lia. Qed.

Lemma life_ready (CO : CryptoOk) T v blks :
  genesis_of p g → life T v blks → ready T v blks ∧ Z.of_nat (length blks) < 2147483647.
Proof.
  intros HG Hlife.
  induction Hlife as [now maxE rooms fulls v E|T v blks cs rs v' _ [IH _] Hc Hh Hcf E|T v blks now maxE rooms fulls v' _ [IH Hlen] E].
  - destruct (Initialize_ready CO now maxE rooms fulls HG) as (v0&E0&HR). split; [|done]. by assert (v0 = v) as <- by congruence.
  - split; [by eapply ready_run|]. destruct Hc as [_ _ Hh']. pose proof (offered_length cs). rewrite length_app. simpl in Hh'. lia.
  - destruct (restart_ready CO T v blks now g maxE rooms fulls IH Hlen) as (v0&E0&HR&_). split; [|done].
    by assert (v0 = v') as <- by congruence.
Qed.

(** ** Parsing *)

Lemma parse_sound v s bs b v' :
  simulates v s → s_up s = true → bytes_ok bs → ParseBlock bs v = (Ok b, v') →
  ∃ blk, block_ok blk ∧ bs = block_Serialize blk ∧ id b = BlockHash (bl_Header blk).
Proof.
  intros HS Hu Hbs E. unfold ParseBlock in E. rewrite st_get_bind in E. apply st_bind_Ok in E as ([]&v0&E0&E).
  injection E0 as _ <-. apply st_bind_Ok in E as (b1&v1&E1&E). unfold parseBlockAdapter in E1.
  apply st_bind_Ok in E1 as (blk&v2&Ed&E1). injection Ed as Ed <-.
  destruct (block_BtcDecode _) as [r rd] eqn:Edec. simpl in Ed. subst r.
  destruct (block_sound (mkReader bs 0) _ _ Hbs Edec) as [_ Hblk]. apply st_bind_Ok in E1 as ([]&v2&Ec&E1). injection Ec as Ec <-.
  apply ensure_Ok, bool_decide_eq_true in Ec. exists blk. split_and!; [done..|].
  assert (id b1 = BlockHash (bl_Header blk) ∧ simulates v1 s) as [Eid HS1].
  { unfold orElse in E1. pose proof (stays_getBlock 0 s (hashToID (BlockHash (bl_Header blk))) v HS) as Hg. unfold run in Hg.
    destruct (getBlock _ v) as [[k|e] v3]; destruct Hg as [[HS3 _] Hk].
    - injection E1 as <- <-. split; [|done]. by destruct (Hk k eq_refl Hu).
    - apply st_bind_Ok in E1 as (cb&v4&Ecb&E1). injection Ecb as _ <-. apply st_bind_Ok in E1 as (h&v4&Eh&E1).
      injection Eh as _ <-. injection E1 as E1 <-. apply newBlockAdapter_ok in E1 as ((->&_)&->&_). done. }
  unfold orElse in E. pose proof (stays_getBlock 0 s (id b1) v1 HS1) as Hg. unfold run in Hg.
  destruct (getBlock _ v1) as [[k|e] v3]; destruct Hg as [_ Hk].
  - injection E as <- <-. destruct (Hk k eq_refl Hu) as [_ ->]. done.
  - by injection E as <- <-.
Qed.

Lemma parse_complete v s blk cb rest h :
  simulates v s → block_ok blk → bl_Transactions blk = cb :: rest → ExtractCoinbaseHeight cb = Ok h → h ≠ BlockHeightUnknown →
  ∃ b v', ParseBlock (block_Serialize blk) v = (Ok b, v') ∧ simulates v' s.
Proof.
  intros HS Hblk Etx Eh Hne. pose proof (stays_parse 0 s (block_Serialize blk) v HS) as Hst. unfold run in Hst.
  cut (∃ b v', ParseBlock (block_Serialize blk) v = (Ok b, v')).
  { intros (b&v'&E). rewrite E in Hst. destruct Hst as [[HS' _] _]. by exists b, v'. }
  clear Hst. unfold ParseBlock. rewrite st_get_bind, st_bind_run, (sim_init _ _ HS). cbn [st_ensure ensure st_lift].
  assert (∃ b v', parseBlockAdapter (block_Serialize blk) v = (Ok b, v')) as (b&v1&E1).
  { unfold parseBlockAdapter. destruct (block_reads blk [] 0 Hblk (Z.le_refl _)) as [k Ek]. rewrite app_nil_r in Ek.
    rewrite st_bind_run, Ek. cbn [st_lift fst]. rewrite st_bind_run, bool_decide_true by done. cbn [st_ensure ensure st_lift].
    unfold orElse. destruct (getBlock _ v) as [[k1|e] v1]; [by eexists _, _|].
    rewrite Etx, st_bind_run. cbn [head from_option_err st_lift]. rewrite st_bind_run, Eh. cbn [st_lift].
    unfold newBlockAdapter. rewrite (proj2 (Z.eqb_neq _ _)) by done. by eexists _, _. }
  rewrite st_bind_run, E1. unfold orElse. destruct (getBlock (id b) v1) as [[k|e] v2]; by eexists _, _.
Qed.

(** ** The properties *)

(** C1. The node refines the abstract chain of accepted blocks: whatever the
    engine calls and whatever the database does, every answer is one the
    abstract chain allows, a block is verified, built or accepted only if it
    is connectable to the last accepted one, no accepted block is ever taken
    back, and a node that broke stays broken. *)
Theorem vm_refines v s cs rs v' :
  simulates v s → callsOk s cs → performAll cs v = (rs, v') →
  ∃ s', specRun s cs rs s' ∧ simulates v' s' ∧ s_blocks s `prefix_of` s_blocks s' ∧ (s_up s' = true → s_up s = true).
Proof.
  intros HS Hc E. destruct (performAll_simulates cs v s rs v' HS Hc E) as (s'&Hr&HS'). exists s'.
  by destruct (specRun_prefix _ _ _ _ Hr).
Qed.

(** C2. The money of the chain, whatever the engine calls: while the node is
    not broken no output is spent twice by the blocks it accepted, its coins
    are exactly those the blocks leave, they are worth no more than the
    subsidies and the reserve of those blocks, and every block that makes
    reserve pays it to the reserve's script. *)
Theorem coins_safe v s cs rs v' :
  simulates v s → callsOk s cs → performAll cs v = (rs, v') → vm_broken v' = None →
  ∃ blks, lastAccepted v' = tipOf g blks ∧ NoDup (blockTxs blks ≫= spends) ∧
    reps (bc_utxo (vm_chain v')) (ledger g blks) (txids g blks) ∧ valueOf (ledger g blks) ≤ minted p (length blks) ∧
    ∀ i blk, blks !! i = Some blk → paysReserve p (1 + Z.of_nat i) (bl_Transactions blk).
Proof.
  intros HS Hc E Hb. destruct (performAll_simulates cs v s rs v' HS Hc E) as (s'&_&HS'). exists (s_blocks s').
  apply (sim_up _ _ HS') in Hb. destruct (sim_chain _ _ HS' Hb) as (_&HC&HH). split; [by apply sim_tip|].
  split; [apply (chain_spends g), (hi_applied _ _ HH)|]. split; [by eapply ca_reps|]. split; [by eapply ca_supply|].
  intros i blk Hi. by destruct (ca_connected _ _ _ _ HC i blk Hi).
Qed.

(** C3. A node that starts with an empty database and an engine that accepts
    only what it verified on the last accepted block: while the database does
    not fail, every accept succeeds, the node never breaks, and its chain is
    the blocks accepted, with exactly the coins they leave. *)
Theorem engine_live (CO : CryptoOk) now maxE rooms fulls :
  genesis_of p g →
  ∃ v, Initialize p now g emptyDisk maxE rooms fulls [] = Ok v ∧
  ∀ cs rs v', callsOk (mkSpec [] true) cs → no_header_collision g (offered cs) → conformingAll now v cs →
    performAll cs v = (rs, v') →
    Forall2 (fun c r => isAccept c = true → r = Ok aDone) cs rs ∧ vm_broken v' = None ∧
    lastAccepted v' = tipOf g (offered cs) ∧ reps (bc_utxo (vm_chain v')) (ledger g (offered cs)) (txids g (offered cs)).
Proof.
  intros HG. destruct (Initialize_ready CO now maxE rooms fulls HG) as (v&E&HR). exists v. split; [done|].
  intros cs rs v' Hc Hh Hcf Er. destruct (ready_run now v [] cs rs v' HR Hc Hh Hcf Er) as [[HS HL _ _ _] HF].
  split; [done|]. split; [by apply (sim_up _ _ HS)|]. split; [apply (sim_tip _ _ HS)|]. apply (ln_chain _ _ _ _ HL).
Qed.

(** C4. What was accepted survives every restart. Take a node that first
    started with an empty database, whose engine accepts only what it verified on
    the last accepted block, whose database never fails a read or a write, whose
    clock does not run back within a run, and which was stopped between two calls
    and started again from what its database held any number of times; its blocks
    are fewer than 2{^31}, and no two of them or of their transactions share a
    hash. It is not broken, and its last accepted block is the last of all the
    blocks accepted over all those runs; and if it is started again, that start
    succeeds, with the same last accepted block, the chain of all those blocks and
    exactly the coins they leave. A restart after a write that failed is not
    covered. *)
Theorem restart_durable (CO : CryptoOk) T v blks :
  genesis_of p g → life T v blks →
  vm_broken v = None ∧ lastAccepted v = tipOf g blks ∧
  ∀ now maxE rooms fulls, ∃ v2, Initialize p now g (diskOf (vm_chain v)) maxE rooms fulls [] = Ok v2 ∧
    lastAccepted v2 = lastAccepted v ∧ simulates v2 (mkSpec blks true) ∧
    reps (bc_utxo (vm_chain v2)) (ledger g blks) (txids g blks).
Proof.
  intros HG [HR Hlen]%(life_ready CO); [|done]. pose proof (rd_sim _ _ _ HR) as HS.
  split; [by apply (sim_up _ _ HS)|]. split; [apply (sim_tip _ _ HS)|]. intros now maxE rooms fulls.
  destruct (restart_ready CO T v blks now g maxE rooms fulls HR Hlen) as (v2&E2&HR2&El).
  exists v2. split; [done|]. split; [done|]. split; [apply HR2|]. apply (ln_chain _ _ _ _ (rd_linear _ _ _ HR2)).
Qed.

(** C36. What a ready node builds, it verifies and accepts: the block passes
    [Verify] on the node that built it, and the accept that follows makes it
    the last accepted block. *)
Theorem built_accepted T v blks now clock cfg mempool b v' now1 now2 mempool' :
  ready T v blks → Z.of_nat (length blks) < 2147483646 → T ≤ now → now ≤ now1 → now1 ≤ now2 →
  BuildBlock p now clock cfg mempool v = (Ok b, v') →
  no_collision (blockTxs (g :: blks ++ [btcBlock b])) → no_header_collision g (blks ++ [btcBlock b]) →
  okrun (Verify p now1 b;; Accept p now2 mempool' b) v' (fun _ v2 =>
    ready now2 v2 (blks ++ [btcBlock b]) ∧ lastAccepted v2 = id b).
Proof.
  intros HR Hlen HT H1 H2 E Hcol Hh. apply okrun_bind. eapply okrun_mono; [by eapply ready_built|].
  intros _ v1 (HR1&Hv1&Ep1). unfold Accept. apply okrun_bind.
  eapply okrun_mono; [by eapply (ready_accept now1)|]. intros ? v2 HR2. eexists. split; [done|].
  pose proof (ready_decided now2 mempool' v2 _ HR2) as HR3. split; [done|].
  rewrite (sim_tip _ _ (rd_sim _ _ _ HR3)). unfold tipOf. cbn [s_blocks]. rewrite last_snoc.
  by destruct (sim_verified _ _ (rd_sim _ _ _ HR1) _ _ Hv1) as [_ (->&_)].
Qed.

(** C37. Parsing is exact: the bytes that parse are those of a block, whose
    identifier the result has, and the bytes of every block the decoder's
    limits allow and whose coinbase carries a height parse. *)
Theorem parse_exact v s :
  simulates v s → s_up s = true →
  (∀ bs b v', bytes_ok bs → ParseBlock bs v = (Ok b, v') →
     ∃ blk, block_ok blk ∧ bs = block_Serialize blk ∧ id b = BlockHash (bl_Header blk)) ∧
  (∀ blk cb rest h, block_ok blk → bl_Transactions blk = cb :: rest → ExtractCoinbaseHeight cb = Ok h →
     h ≠ BlockHeightUnknown → ∃ b v', ParseBlock (block_Serialize blk) v = (Ok b, v') ∧ simulates v' s).
Proof. intros HS Hu. split; [intros; by eapply parse_sound|intros; by eapply parse_complete]. Qed.

End lifecycle.

(** ** A node *)

Module Node.

#[local] Existing Instance toyCrypto.
#[local] Existing Instance goRuntime.
#[local] Existing Instance goRuntime_ok.

#[local] Instance acceptsAll : ScriptEngine := {|
  checkBlockScripts := fun _ _ _ => Ok tt; ValidateTransactionScripts := fun _ _ _ => Ok tt |}.

Definition genesis : MsgBlock := dogecoinVMTestNetGenesisBlock.
Definition params : Params := dogecoinVMParams (BlockHash (bl_Header genesis)) (Some (mkReserve [81] PegReserveAmountPerBlock 2)).
Definition noTxs : TxSource := mkSource [] (fun _ => false).
Definition start : Z := 1790200000.
Definition config : buildConfig := mkBuildConfig (Some (mkPolicy 0 4000000 0 0)) [Ok (Ok [81])].

Definition node : VM :=
  match Initialize params start genesis emptyDisk 1000 [] [] [] with
  | Ok v => v
  | Err e => mkVM (blank params emptyDisk 0 [] [] []) (Some e) [] [] ∅ None false false
  end.

Definition first : BlockAdapter :=
  match BuildBlock params start start config noTxs node with
  | (Ok b, _) => b
  | _ => mkAdapter genesis [] [] 0 0 []
  end.

Lemma params_ok_node : params_ok params.
Proof. apply network_params. Qed.

Lemma genesis_node : genesis_of params genesis.
Proof. apply network_genesis. by right. Qed.

Lemma node_started : Initialize params start genesis emptyDisk 1000 [] [] [] = Ok node.
Proof.
  destruct (Initialize_ready params params_ok_node genesis toyCrypto_ok start 1000 [] [] genesis_node) as (v&E&_).
  unfold node. by rewrite E.
Qed.

Lemma node_ready : ready params genesis start node [].
Proof.
  destruct (Initialize_ready params params_ok_node genesis toyCrypto_ok start 1000 [] [] genesis_node) as (v&E&HR).
  rewrite node_started in E. by injection E as ->.
Qed.

Lemma no_collision_NoDup txs : NoDup (TxHash <$> txs) → no_collision txs.
Proof.
  intros Hnd tx tx' [i Hi]%list_elem_of_lookup [j Hj]%list_elem_of_lookup E.
  assert (i = j) as ->; [|congruence].
  eapply (NoDup_lookup _ _ _ (TxHash tx) Hnd); rewrite list_lookup_fmap; [by rewrite Hi|rewrite Hj, E; reflexivity].
Qed.

Lemma no_header_collision_NoDup (g : MsgBlock) blks :
  NoDup ((fun b => BlockHash (bl_Header b)) <$> g :: blks) → no_header_collision g blks.
Proof.
  intros Hnd b b' [i Hi]%list_elem_of_lookup [j Hj]%list_elem_of_lookup E.
  assert (i = j) as ->; [|congruence].
  eapply (NoDup_lookup _ _ _ (BlockHash (bl_Header b)) Hnd); rewrite list_lookup_fmap; [by rewrite Hi|rewrite Hj, E; reflexivity].
Qed.

(** The first block is built, verified and accepted, then looked up. *)
Definition callsWith (b : BlockAdapter) : list call :=
  [cBuild start start config noTxs; cVerify start b; cAccept start noTxs b; cHeight 1; cLast; cHealth].
Definition calls : list call := callsWith first.

Lemma first_adapter : adapter_ok first.
Proof. split; [|split]; vm_compute; reflexivity. Qed.

Lemma first_collision : no_collision (blockTxs (genesis :: [btcBlock first])) ∧ no_header_collision genesis [btcBlock first].
Proof.
  split; [apply no_collision_NoDup|apply no_header_collision_NoDup]; apply (bool_decide_unpack _); vm_compute; exact I.
Qed.

Lemma callsWith_ok b :
  adapter_ok b → no_collision (blockTxs (genesis :: [btcBlock b])) → callsOk genesis (mkSpec [] true) (callsWith b).
Proof.
  intros Hb Hc. split; [|exact Hc|done]. intros c b'. unfold callsWith. rewrite !elem_of_cons.
  intros [->|[->|[->|[->|[->|[->|Hn]]]]]]; cbn [callBlock]; try done; [by intros [= <-]..|]. by apply not_elem_of_nil in Hn.
Qed.

Lemma calls_ok : callsOk genesis (mkSpec [] true) calls.
Proof. exact (callsWith_ok first first_adapter (proj1 first_collision)). Qed.

Definition built : VM := (BuildBlock params start start config noTxs node).2.

Lemma outcome_Ok (r : result BlockAdapter * VM) b0 :
  match r.1 with Ok _ => true | Err _ => false end = true →
  r = (Ok (match r with (Ok b, _) => b | _ => b0 end), r.2).
Proof. by destruct r as [[]]. Qed.

Lemma node_builds : BuildBlock params start start config noTxs node = (Ok first, built).
Proof.
  unfold first, built. apply outcome_Ok. vm_compute. reflexivity.
Qed.

Lemma callsWith_conform v b v' :
  BuildBlock params start start config noTxs v = (Ok b, v') →
  okrun (Verify params start b) v' (fun _ v2 => verifiedBlocks v2 !! id b = Some b ∧ parentID b = lastAccepted v2) →
  conformingAll params start v (callsWith b).
Proof.
  intros E Hv. unfold callsWith. cbn [conformingAll]. split; [done|].
  assert ((perform params (cBuild start start config noTxs) v).2 = v') as ->.
  { cbn [perform]. by rewrite st_bind_run, E. }
  split; [done|]. unfold okrun, run in Hv. destruct (Verify params start b v') as [r v2] eqn:Ev. destruct Hv as ([]&->&Hv).
  assert ((perform params (cVerify start b) v').2 = v2) as ->.
  { cbn [perform]. by rewrite st_bind_run, Ev. }
  split; [by split|]. done.
Qed.

Lemma calls_conform : conformingAll params start node calls.
Proof.
  apply (callsWith_conform node first built node_builds).
  eapply okrun_mono; [exact (ready_built params params_ok_node genesis start node [] start start config noTxs first built start
    node_ready eq_refl (Z.le_refl _) node_builds (Z.le_refl _))|]. intros _ v2 (_&H1&H2). exact (conj H1 H2).
Qed.

Definition answers : list (result answer) * VM := performAll params calls node.

Lemma node_answers : performAll params calls node = (answers.1, answers.2).
Proof. apply surjective_pairing. Qed.

Lemma vm_refines_witness :
  ∃ s', specRun params genesis (mkSpec [] true) calls answers.1 s' ∧ simulates params genesis answers.2 s'.
Proof.
  destruct (vm_refines params params_ok_node genesis node (mkSpec [] true) calls answers.1 answers.2
    (rd_sim _ _ _ _ _ node_ready) calls_ok node_answers) as (s'&Hr&HS&_). exact (ex_intro _ s' (conj Hr HS)).
Defined.

Lemma node_up : vm_broken answers.2 = None.
Proof. vm_compute. reflexivity. Qed.

Lemma coins_safe_witness :
  ∃ blks, NoDup (blockTxs blks ≫= spends) ∧ valueOf (ledger genesis blks) ≤ minted params (length blks).
Proof.
  destruct (coins_safe params params_ok_node genesis node (mkSpec [] true) calls answers.1 answers.2
    (rd_sim _ _ _ _ _ node_ready) calls_ok node_answers node_up) as (blks&_&Hd&_&Hv&_).
  exact (ex_intro _ blks (conj Hd Hv)).
Defined.

Lemma engine_live_witness : lastAccepted answers.2 = tipOf genesis [btcBlock first] ∧ vm_broken answers.2 = None.
Proof.
  destruct (engine_live params params_ok_node genesis toyCrypto_ok start 1000 [] [] genesis_node) as (v&E&H).
  rewrite node_started in E. injection E as <-.
  destruct (H calls answers.1 answers.2 calls_ok (proj2 first_collision) calls_conform node_answers) as (_&Hb&Hl&_).
  exact (conj Hl Hb).
Defined.

(** The node after its first block, and that node started again. *)
Lemma answers_life : life params genesis (foldl callTime start calls) answers.2 [btcBlock first].
Proof.
  exact (lifeCalls params genesis start node [] calls answers.1 answers.2 (lifeStart params genesis _ _ _ _ _ node_started)
    calls_ok (proj2 first_collision) calls_conform node_answers).
Qed.

Lemma restart_durable_witness :
  ∃ v1 v2, Initialize params start genesis (diskOf (vm_chain answers.2)) 1000 [] [] [] = Ok v1 ∧
    Initialize params start genesis (diskOf (vm_chain v1)) 1000 [] [] [] = Ok v2 ∧
    lastAccepted v2 = BlockHash (bl_Header (btcBlock first)) ∧
    reps (bc_utxo (vm_chain v2)) (ledger genesis [btcBlock first]) (txids genesis [btcBlock first]).
Proof.
  destruct (restart_durable params params_ok_node genesis toyCrypto_ok _ _ _ genesis_node answers_life) as (_&_&H1).
  destruct (H1 start 1000 [] []) as (v1&E1&_). exists v1.
  destruct (restart_durable params params_ok_node genesis toyCrypto_ok _ _ _ genesis_node
    (lifeRestart params genesis _ _ _ _ _ _ _ _ answers_life E1)) as (_&Ht&H2).
  destruct (H2 start 1000 [] []) as (v2&E2&El&_&Hr). exists v2. split; [exact E1|]. split; [exact E2|].
  split; [rewrite El, Ht; reflexivity|exact Hr].
Defined.

Lemma built_accepted_witness :
  okrun (Verify params start first;; Accept params start noTxs first) built (fun _ v2 => lastAccepted v2 = id first).
Proof.
  eapply okrun_mono; [exact (built_accepted params params_ok_node genesis start node [] start start config noTxs first built
    start start noTxs node_ready eq_refl (Z.le_refl _) (Z.le_refl _) (Z.le_refl _) node_builds (proj1 first_collision)
    (proj2 first_collision))|]. intros _ v2 [_ H]. exact H.
Defined.

Definition firstBytes : bytes := ba_bytes first.

Lemma firstBytes_ok : bytes_ok firstBytes.
Proof. apply (bool_decide_unpack (Forall (fun b => 0 ≤ b < 256) firstBytes)). vm_compute. exact I. Qed.

Definition parsed : BlockAdapter := match ParseBlock firstBytes node with (Ok b, _) => b | _ => first end.

Lemma parsed_Ok : ParseBlock firstBytes node = (Ok parsed, (ParseBlock firstBytes node).2).
Proof. unfold parsed. apply outcome_Ok. vm_compute. reflexivity. Qed.

Lemma parse_exact_witness : ∃ blk, block_ok blk ∧ firstBytes = block_Serialize blk.
Proof.
  destruct (parse_exact params genesis node (mkSpec [] true) (rd_sim _ _ _ _ _ node_ready) eq_refl) as [Hs _].
  destruct (Hs firstBytes parsed (ParseBlock firstBytes node).2 firstBytes_ok parsed_Ok) as (blk&Hb&Es&_). exact (ex_intro _ blk (conj Hb Es)).
Defined.

End Node.
