(* ===== verification/Tags.v ===== *)
(** Peg messages and destinations (src/cmd/dogevm/tags.go). *)

From S2P Require Import Prelude Text Wire Script.

(** ** Tags *)

Definition bytes_of (s : string) : bytes := code <$> String.list_ascii_of_string s.

Definition tagDeposit : bytes := bytes_of "DVMD".
Definition tagRelease : bytes := bytes_of "DVMI".
Definition tagPegOut : bytes := bytes_of "DVMO".
Definition tagPayment : bytes := bytes_of "DVMR".
Definition tagRefund : bytes := bytes_of "DVMF".
Definition tagContrib : bytes := bytes_of "DVMC".
Definition tagCancel : bytes := bytes_of "DVMX".

Definition destP2PKH : Z := 0.
Definition destP2SH : Z := 1.

(** A pay-to-hash address in a network-neutral form; hash is a [20]byte. *)
Record destination := mkDest { kind : Z; hash : bytes }.

#[export] Instance destination_eq_dec : EqDecision destination.
Proof. solve_decision. Defined.
#[export] Instance destination_countable : Countable destination.
Proof.
  refine (inj_countable' (fun d => (kind d, hash d)) (fun '(k, h) => mkDest k h) _).
  by intros [].
Defined.

Definition zeroDest : destination := mkDest 0 (replicate 20 0).

Definition destination_ok (d : destination) : Prop :=
  (kind d = destP2PKH ∨ kind d = destP2SH) ∧ length (hash d) = 20%nat ∧ bytes_ok (hash d).

(** The addresses btcutil decodes: the two pay-to-hash kinds with their
    hash160, and the others, which the peg does not take. *)
Inductive Address :=
| AddressPubKeyHash (hash160 : bytes)
| AddressScriptHash (hash160 : bytes)
| AddressOther.

Definition destinationOf (addr : Address) : result destination :=
  match addr with
  | AddressPubKeyHash h => Ok (mkDest destP2PKH h)
  | AddressScriptHash h => Ok (mkDest destP2SH h)
  | AddressOther => Err (Errorf "unsupported address type: use a P2PKH or P2SH address")
  end.

Definition address (d : destination) : Address :=
  if kind d =? destP2SH then AddressScriptHash (hash d) else AddressPubKeyHash (hash d).

(** The builder's error is dropped: what it built so far is the script. *)
Definition pkScript (d : destination) : bytes :=
  bscript
    (if kind d =? destP2SH
     then AddOp (AddData (AddOp NewScriptBuilder OP_HASH160) (hash d)) OP_EQUAL
     else AddOp (AddOp (AddData (AddOp (AddOp NewScriptBuilder OP_DUP) OP_HASH160) (hash d))
            OP_EQUALVERIFY) OP_CHECKSIG).

Definition destinationOfScript (script : bytes) : result destination :=
  match GetScriptClass script with
  | PubKeyHashTy => Ok (mkDest destP2PKH (slice 3 23 script))
  | ScriptHashTy => Ok (mkDest destP2SH (slice 2 22 script))
  | _ => Err (Errorf "not a P2PKH or P2SH output")
  end.

Definition encodeDestination (tag : bytes) (d : destination) : bytes :=
  tag ++ [kind d] ++ hash d.

Definition decodeDestination (payload : bytes) : result destination :=
  match payload with
  | k :: h =>
      if negb (Nat.eqb (length payload) 21) || (destP2SH <? k)
      then Err (Errorf "malformed destination") else Ok (mkDest k h)
  | [] => Err (Errorf "malformed destination")
  end.

Definition encodeOutPointTag (tag : bytes) (op : OutPoint) : bytes :=
  tag ++ Hash op ++ le_bytes 4 (Index op).

Definition encodeRelease (deposit : OutPoint) : bytes := encodeOutPointTag tagRelease deposit.
Definition encodeCancel (deposit : OutPoint) : bytes := encodeOutPointTag tagCancel deposit.
Definition encodeRefund (deposit : OutPoint) : bytes := encodeOutPointTag tagRefund deposit.
Definition encodePayment (request : bytes) : bytes := tagPayment ++ request.

(** The loop of opReturnData over the outputs; None is its early return on a
    script that does not parse. *)
Fixpoint opReturnLoop (outs : list TxOut) (found : nat) (data : bytes) : option (nat * bytes) :=
  match outs with
  | [] => Some (found, data)
  | out :: outs =>
      if negb (bool_decide (GetScriptClass (PkScript out) = NullDataTy))
      then opReturnLoop outs found data
      else match PushedData (PkScript out) with
           | Err _ => None
           | Ok pushes => opReturnLoop outs (S found) (concat pushes)
           end
  end.

(** The tag and payload of tx's OP_RETURN output, if it has exactly one. *)
Definition opReturnData (tx : MsgTx) : option (bytes * bytes) :=
  match opReturnLoop (txOut tx) 0 [] with
  | None => None
  | Some (found, data) =>
      if negb (Nat.eqb found 1) || Nat.ltb (length data) 4 then None
      else Some (take 4 data, drop 4 data)
  end.

(** An output carrying data; the code panics where this fails. *)
Definition nullData (data : bytes) : result TxOut :=
  script ← NullDataScript data; Ok (NewTxOut 0 script).

Definition parseOutPointTag (tx : MsgTx) (want : bytes) : option OutPoint :=
  match opReturnData tx with
  | None => None
  | Some (tag, payload) =>
      if negb (bool_decide (tag = want)) || negb (Nat.eqb (length payload) 36) then None
      else Some (mkOutPoint (take 32 payload) (le_Z (drop 32 payload)))
  end.

Definition parseRelease (tx : MsgTx) : option OutPoint := parseOutPointTag tx tagRelease.
Definition parseRefund (tx : MsgTx) : option OutPoint := parseOutPointTag tx tagRefund.
Definition parseCancel (tx : MsgTx) : option OutPoint := parseOutPointTag tx tagCancel.

Definition parsePayment (tx : MsgTx) : option bytes :=
  match opReturnData tx with
  | None => None
  | Some (tag, payload) =>
      if negb (bool_decide (tag = tagPayment)) || negb (Nat.eqb (length payload) 32) then None
      else Some payload
  end.

Definition isContribution (tx : MsgTx) : bool :=
  match opReturnData tx with
  | None => false
  | Some (tag, payload) => bool_decide (tag = tagContrib) && Nat.eqb (length payload) 0
  end.

Definition parseDestinationTag (tx : MsgTx) (want : bytes) : option destination :=
  match opReturnData tx with
  | None => None
  | Some (tag, payload) =>
      if negb (bool_decide (tag = want)) then None
      else match decodeDestination payload with Ok d => Some d | Err _ => None end
  end.

(** ** Destinations *)

Lemma plain_hash h : length h = 20%nat → plain_data h.
Proof. unfold plain_data. lia. Qed.

Lemma pkScript_P2SH h :
  length h = 20%nat → pkScript (mkDest destP2SH h) = OP_HASH160 :: OP_DATA_20 :: h ++ [OP_EQUAL].
Proof.
  intros Hh. unfold pkScript, NewScriptBuilder; cbn [kind hash Z.eqb destP2SH Pos.eqb].
  rewrite AddOp_ok by done. rewrite AddData_plain by (by apply plain_hash || done).
  rewrite AddOp_ok by (rewrite ?length_app; simpl; rewrite Hh; done). simpl.
  by rewrite Hh.
Qed.

Lemma pkScript_P2PKH k h :
  length h = 20%nat → k ≠ destP2SH →
  pkScript (mkDest k h) =
    OP_DUP :: OP_HASH160 :: OP_DATA_20 :: h ++ [OP_EQUALVERIFY; OP_CHECKSIG].
Proof.
  intros Hh Hk. unfold pkScript, NewScriptBuilder; cbn [kind hash].
  rewrite (proj2 (Z.eqb_neq _ _)) by done.
  do 2 rewrite AddOp_ok by done. rewrite AddData_plain by (by apply plain_hash || done).
  do 2 rewrite AddOp_ok by (rewrite ?length_app; simpl; rewrite Hh; done). simpl.
  by rewrite Hh, <- app_assoc.
Qed.

Lemma class_P2SH h :
  length h = 20%nat →
  GetScriptClass (OP_HASH160 :: OP_DATA_20 :: h ++ [OP_EQUAL]) = ScriptHashTy.
Proof. intros Hh. do 20 (destruct h as [|? h]; [discriminate Hh|]). destruct h; [done|discriminate Hh]. Qed.

Lemma class_P2PKH h :
  length h = 20%nat →
  GetScriptClass (OP_DUP :: OP_HASH160 :: OP_DATA_20 :: h ++ [OP_EQUALVERIFY; OP_CHECKSIG])
  = PubKeyHashTy.
Proof. intros Hh. do 20 (destruct h as [|? h]; [discriminate Hh|]). destruct h; [done|discriminate Hh]. Qed.

Lemma destinationOfScript_pkScript_ok d :
  destination_ok d → destinationOfScript (pkScript d) = Ok d.
Proof.
  destruct d as [k h]. intros ([Hk|Hk] & Hh & _); simpl in *; subst k; unfold destinationOfScript.
  - rewrite pkScript_P2PKH, class_P2PKH by done. do 2 f_equal.
    pose proof (slice_app [OP_DUP; OP_HASH160; OP_DATA_20] h [OP_EQUALVERIFY; OP_CHECKSIG]) as E.
    by rewrite Hh in E.
  - rewrite pkScript_P2SH, class_P2SH by done. do 2 f_equal.
    pose proof (slice_app [OP_HASH160; OP_DATA_20] h [OP_EQUAL]) as E. by rewrite Hh in E.
Qed.

(** A script's class says its shape. *)
Lemma class_PubKeyHash_inv s :
  GetScriptClass s = PubKeyHashTy → is_Some (extractPubKeyHash s).
Proof.
  unfold GetScriptClass, typeOfScript, isPubKeyHashScript. simpl.
  repeat case_bool_decide; simpl in *; repeat case_match; naive_solver.
Qed.

Lemma class_ScriptHash_inv s :
  GetScriptClass s = ScriptHashTy → is_Some (extractScriptHash s).
Proof.
  unfold GetScriptClass, typeOfScript, isScriptHashScript. simpl.
  repeat case_bool_decide; simpl in *; repeat case_match; naive_solver.
Qed.

Lemma destinationOfScript_sound s d :
  destinationOfScript s = Ok d → pkScript d = s ∧ length (hash d) = 20%nat.
Proof.
  unfold destinationOfScript. intros H.
  destruct (GetScriptClass s) eqn:Hc; try discriminate; injection H as <-.
  - apply class_PubKeyHash_inv in Hc as [h Hh]. pose proof Hh as Hh'.
    apply extractPubKeyHash_inv in Hh' as [-> Hl].
    pose proof (slice_app [OP_DUP; OP_HASH160; OP_DATA_20] h [OP_EQUALVERIFY; OP_CHECKSIG]) as E.
    rewrite Hl in E; simpl in E. simpl. rewrite E. by rewrite pkScript_P2PKH.
  - apply class_ScriptHash_inv in Hc as [h Hh]. pose proof Hh as Hh'.
    apply extractScriptHash_inv in Hh' as [-> Hl].
    pose proof (slice_app [OP_HASH160; OP_DATA_20] h [OP_EQUAL]) as E.
    rewrite Hl in E; simpl in E. simpl. rewrite E. by rewrite pkScript_P2SH.
Qed.

Lemma pkScript_not_NullData d :
  length (hash d) = 20%nat → GetScriptClass (pkScript d) ≠ NullDataTy.
Proof.
  destruct d as [k h]; simpl. intros Hh. destruct (decide (k = destP2SH)) as [->|].
  - by rewrite pkScript_P2SH, class_P2SH.
  - by rewrite pkScript_P2PKH, class_P2PKH.
Qed.

Lemma decode_encodeDestination d :
  destination_ok d → decodeDestination ([kind d] ++ hash d) = Ok d.
Proof.
  destruct d as [k h]. intros (Hk & Hh & _). simpl in *. rewrite Hh. simpl.
  unfold destP2PKH, destP2SH in *.
  by rewrite (proj2 (Z.ltb_ge _ _)) by lia.
Qed.

(** ** Reading one message *)

(** tx carries exactly one data output, holding data. *)
Definition carries (tx : MsgTx) (data : bytes) : Prop :=
  ∃ pre out post, txOut tx = pre ++ out :: post ∧ nullData data = Ok out ∧
    Forall (fun o => GetScriptClass (PkScript o) ≠ NullDataTy) (pre ++ post).

Lemma opReturnLoop_skip outs rest n data :
  Forall (fun o => GetScriptClass (PkScript o) ≠ NullDataTy) outs →
  opReturnLoop (outs ++ rest) n data = opReturnLoop rest n data.
Proof.
  induction 1 as [|o outs Ho _ IH]; [done|]. simpl.
  by rewrite bool_decide_eq_false_2.
Qed.

Lemma nullData_plain data out :
  plain_data data → nullData data = Ok out →
  out = NewTxOut 0 (OP_RETURN :: Z.of_nat (length data) :: data).
Proof.
  intros Hd. unfold nullData. rewrite NullDataScript_plain by done. simpl. by intros [= <-].
Qed.

Lemma opReturnData_carries tx data :
  carries tx data → plain_data data → (4 ≤ length data)%nat →
  opReturnData tx = Some (take 4 data, drop 4 data).
Proof.
  intros (pre & out & post & Htx & Hout & Hn) Hd Hl.
  apply Forall_app in Hn as [Hpre Hpost].
  apply nullData_plain in Hout as ->; [|done].
  unfold opReturnData. rewrite Htx, opReturnLoop_skip by done. cbn [opReturnLoop PkScript NewTxOut].
  rewrite GetScriptClass_NullData, PushedData_NullData by done.
  rewrite bool_decide_eq_true_2 by done. cbn [negb concat].
  rewrite <- (app_nil_r post), opReturnLoop_skip by done. cbn [opReturnLoop].
  rewrite app_nil_r. simpl Nat.eqb.
  by rewrite (proj2 (Nat.ltb_ge _ _)) by lia.
Qed.

Lemma outpoint_tag_plain tag op :
  length tag = 4%nat → outpoint_ok op → plain_data (encodeOutPointTag tag op).
Proof.
  intros Ht [[Hh _] _]. unfold plain_data, encodeOutPointTag.
  rewrite !length_app, le_bytes_length. unfold HashSize in Hh. lia.
Qed.

Lemma parseOutPointTag_carries tx tag op :
  length tag = 4%nat → outpoint_ok op → carries tx (encodeOutPointTag tag op) →
  parseOutPointTag tx tag = Some op.
Proof.
  intros Ht Hop Hc. pose proof (outpoint_tag_plain tag op Ht Hop) as Hp.
  unfold parseOutPointTag. rewrite (opReturnData_carries _ _ Hc Hp).
  2: { unfold encodeOutPointTag. rewrite length_app. lia. }
  destruct Hop as [[Hh _] Hi]. unfold encodeOutPointTag. rewrite (take_app_length' tag), (drop_app_length' tag) by done.
  rewrite bool_decide_eq_true_2 by done. rewrite length_app, le_bytes_length, Hh. cbn [negb orb Nat.eqb Nat.add].
  rewrite !(take_app_length' (Hash op)), !(drop_app_length' (Hash op)) by (by rewrite Hh).
  rewrite le_Z_le_bytes by (unfold two32 in Hi; simpl; lia). by destruct op.
Qed.

(** What parsePayment reads of a payment's tag. *)
Lemma parsePayment_carries tx request :
  length request = 32%nat → carries tx (encodePayment request) → parsePayment tx = Some request.
Proof.
  intros Hr Hc. unfold parsePayment. rewrite (opReturnData_carries _ _ Hc).
  - unfold encodePayment. rewrite take_app_length', drop_app_length' by done.
    rewrite bool_decide_eq_true_2 by done. by rewrite Hr.
  - unfold plain_data, encodePayment. rewrite length_app, Hr. simpl. lia.
  - unfold encodePayment. rewrite length_app, Hr. simpl. lia.
Qed.

Lemma parseDestinationTag_carries tx tag d :
  length tag = 4%nat → destination_ok d → carries tx (encodeDestination tag d) →
  parseDestinationTag tx tag = Some d.
Proof.
  intros Ht Hd Hc. pose proof Hd as (_ & Hh & _).
  unfold parseDestinationTag. rewrite (opReturnData_carries _ _ Hc).
  - unfold encodeDestination. rewrite take_app_length', drop_app_length' by done.
    rewrite bool_decide_eq_true_2, decode_encodeDestination by done. done.
  - unfold plain_data, encodeDestination. rewrite !length_app, Hh. simpl. lia.
  - unfold encodeDestination. rewrite length_app. lia.
Qed.

(** ** A transaction is one message at most *)

(** The tag of tx's message. *)
Definition tag_of (tx : MsgTx) : option bytes := fst <$> opReturnData tx.

Lemma parseOutPointTag_tag tx tag op :
  parseOutPointTag tx tag = Some op → tag_of tx = Some tag.
Proof.
  unfold parseOutPointTag, tag_of. destruct (opReturnData tx) as [[t p]|]; [|done].
  case_bool_decide; simpl; [subst|done]. done.
Qed.

Lemma parsePayment_tag tx h : parsePayment tx = Some h → tag_of tx = Some tagPayment.
Proof.
  unfold parsePayment, tag_of. destruct (opReturnData tx) as [[t p]|]; [|done].
  case_bool_decide; simpl; [by subst|done].
Qed.

Lemma isContribution_tag tx : isContribution tx = true → tag_of tx = Some tagContrib.
Proof.
  unfold isContribution, tag_of. destruct (opReturnData tx) as [[t p]|]; [|done].
  case_bool_decide; simpl; [by subst|done].
Qed.

Lemma parseDestinationTag_tag tx tag d :
  parseDestinationTag tx tag = Some d → tag_of tx = Some tag.
Proof.
  unfold parseDestinationTag, tag_of. destruct (opReturnData tx) as [[t p]|]; [|done].
  case_bool_decide; simpl; [by subst|done].
Qed.

(** The messages, and which of the code's readers answers for each. *)
Inductive message :=
| MDeposit (d : destination) | MRelease (op : OutPoint) | MPegOut (d : destination)
| MPayment (request : bytes) | MRefund (op : OutPoint) | MCancel (op : OutPoint)
| MContribution.

Definition message_ok (m : message) : Prop :=
  match m with
  | MDeposit d | MPegOut d => destination_ok d
  | MRelease op | MRefund op | MCancel op => outpoint_ok op
  | MPayment h => length h = 32%nat
  | MContribution => True
  end.

Definition encode_message (m : message) : bytes :=
  match m with
  | MDeposit d => encodeDestination tagDeposit d
  | MRelease op => encodeRelease op
  | MPegOut d => encodeDestination tagPegOut d
  | MPayment h => encodePayment h
  | MRefund op => encodeRefund op
  | MCancel op => encodeCancel op
  | MContribution => tagContrib
  end.

Definition reads_as (tx : MsgTx) (m : message) : Prop :=
  match m with
  | MDeposit d => parseDestinationTag tx tagDeposit = Some d
  | MRelease op => parseRelease tx = Some op
  | MPegOut d => parseDestinationTag tx tagPegOut = Some d
  | MPayment h => parsePayment tx = Some h
  | MRefund op => parseRefund tx = Some op
  | MCancel op => parseCancel tx = Some op
  | MContribution => isContribution tx = true
  end.

Definition message_tag (m : message) : bytes :=
  match m with
  | MDeposit _ => tagDeposit | MRelease _ => tagRelease | MPegOut _ => tagPegOut
  | MPayment _ => tagPayment | MRefund _ => tagRefund | MCancel _ => tagCancel
  | MContribution => tagContrib
  end.

Lemma reads_as_tag tx m : reads_as tx m → tag_of tx = Some (message_tag m).
Proof.
  destruct m; simpl; eauto using parseDestinationTag_tag, parseOutPointTag_tag,
    parsePayment_tag, isContribution_tag.
Qed.

Lemma reads_as_unique tx m m' : reads_as tx m → reads_as tx m' → m' = m.
Proof.
  intros H H'. pose proof (reads_as_tag _ _ H) as Ht. pose proof (reads_as_tag _ _ H') as Ht'.
  rewrite Ht in Ht'. injection Ht' as E. destruct m, m'; try discriminate E; simpl in *; congruence.
Qed.

Lemma carries_reads_as tx m : message_ok m → carries tx (encode_message m) → reads_as tx m.
Proof.
  destruct m; simpl; intros Hm Hc.
  7: { unfold isContribution. rewrite (opReturnData_carries _ _ Hc); [done| |].
       - unfold plain_data; simpl; lia.
       - simpl; lia. }
  all: first [by apply parseDestinationTag_carries | by apply parseOutPointTag_carries
             | by apply parsePayment_carries].
Qed.

(** Every peg message is read back as exactly what was written: a
    transaction whose only data output carries a well-formed message (deposit,
    release, peg-out, payment, refund, cancellation or contribution) is read as
    that message by its own parser, and as no other message by any parser. *)
Theorem message_roundtrip tx m :
  message_ok m → carries tx (encode_message m) → ∀ m', reads_as tx m' ↔ m' = m.
Proof.
  intros Hm Hc m'. pose proof (carries_reads_as tx m Hm Hc) as H. split.
  - by apply reads_as_unique.
  - by intros ->.
Qed.

Definition sampleOp : OutPoint := mkOutPoint (replicate 32 9) 3.

Lemma sampleOp_ok : outpoint_ok sampleOp.
Proof. repeat split; simpl; try done. repeat constructor; done. Qed.

(** A release of sampleOp: the payment, its tag, and change. *)
Definition sampleRelease : MsgTx :=
  mkMsgTx 1 [NewTxIn sampleOp [] []]
    [NewTxOut 5 (pkScript zeroDest); NewTxOut 0 (OP_RETURN :: 40 :: encodeRelease sampleOp);
     NewTxOut 7 (pkScript (mkDest destP2SH (replicate 20 1)))] 0.

Lemma message_roundtrip_witness : reads_as sampleRelease (MRelease sampleOp).
Proof.
  apply (message_roundtrip sampleRelease (MRelease sampleOp)).
  - apply sampleOp_ok.
  - exists [NewTxOut 5 (pkScript zeroDest)], (NewTxOut 0 (OP_RETURN :: 40 :: encodeRelease sampleOp)),
      [NewTxOut 7 (pkScript (mkDest destP2SH (replicate 20 1)))].
    split_and!; [done|done|]. repeat constructor; by apply pkScript_not_NullData.
  - done.
Defined.

(** Output scripts and destinations correspond exactly: a script of bytes
    reads as destination d if and only if d is well formed and the script is
    the one d pays to, so a refund to the sender read from an output pays that
    very script. *)
Theorem destinationOfScript_spec s d :
  bytes_ok s → destinationOfScript s = Ok d ↔ destination_ok d ∧ s = pkScript d.
Proof.
  intros Hs. split.
  - intros H. pose proof (destinationOfScript_sound _ _ H) as [E Hl]. subst s. split; [|done].
    split_and!; [|done|].
    + unfold destinationOfScript in H. destruct (GetScriptClass _); try discriminate;
        injection H as H; apply (f_equal kind) in H; [by left|by right].
    + destruct d as [k h]; simpl in *. destruct (decide (k = destP2SH)) as [->|].
      * rewrite pkScript_P2SH in Hs by done. apply Forall_cons in Hs as [_ Hs].
        apply Forall_cons in Hs as [_ Hs]. by apply Forall_app in Hs as [].
      * rewrite pkScript_P2PKH in Hs by done. do 3 apply Forall_cons in Hs as [_ Hs].
        by apply Forall_app in Hs as [].
  - intros [Hd ->]. by apply destinationOfScript_pkScript_ok.
Qed.

Lemma destinationOfScript_spec_witness :
  destinationOfScript (pkScript zeroDest) = Ok zeroDest.
Proof.
  apply destinationOfScript_spec; [|split; [|done]].
  - vm_compute. repeat constructor; discriminate.
  - split_and!; [by left|done|repeat constructor; done].
Defined.
