(* ===== verification/Auth.v ===== *)
(** Who a signer answers (src/cmd/dogevm/cosign.go: authenticate, nonceCache
    and requestDigest): requests signed by the coordinator, for this signer, of
    the last minutes, and each only once in one run of the process. *)

From Stdlib Require Import Ascii String.
From stdpp Require Import strings.
From S2P Require Import Prelude Text Wire Runtime.

Open Scope Z_scope.

(** ** Requests *)

(** The body is what the first megabyte of it reads as. *)
Record httpRequest := mkHttp {
  rq_Method : string; rq_Path : string; rq_Authorization : string; rq_Time : string; rq_Nonce : string;
  rq_Signature : string; rq_Body : result bytes }.

(** [a_coord] is ParseDERSignature and Verify under the coordinator's key,
    where the signer set names one; [a_me] the signer's own key, in hex. *)
Record authConfig := mkAuth {
  a_token : string; a_coord : option (bytes → bytes → bool); a_me : string; a_open : bool }.

(** Times are nanoseconds; [Unix] is whole seconds. *)
Definition Unix (t : Z) : Z := t / 1000000000.
Definition requestSkew : Z := 300 * 1000000000.

(** %d *)
Definition decInt (z : Z) : string := if z <? 0 then String "-" (dec (- z)) else dec z.

Definition newline : string := String (chr 10) EmptyString.

Definition requestDigest `{Crypto} (method path : string) (unix : Z) (nonce signer : string) (body : bytes) : bytes :=
  sha256 (ofString (String.concat newline
    ["dogevm coordinator request v2"%string; method; path; decInt unix; nonce; signer; hex_encode (sha256 body)])).

(** ** Nonces *)

(** When each accepted nonce may be forgotten. *)
Notation nonces := (gmap string Z).

Definition maxNonces : nat := Z.to_nat 100000.

Definition forget (now : Z) (seen : nonces) : nonces := filter (fun kv => Unix now ≤ kv.2) seen.

Definition fresh (nonce : string) (now : Z) : St nonces bool := fun seen =>
  match seen !! nonce with
  | Some _ => (Ok false, seen)
  | None =>
      let seen := if (maxNonces <=? size seen)%nat then forget now seen else seen in
      if (maxNonces <=? size seen)%nat then (Ok false, seen)
      else (Ok true, <[nonce := Unix (now + 2 * requestSkew)]> seen)
  end.

(** ** Authenticating *)

Definition unauthorized (why : string) : error := Errorf ("unauthorized" +:+ why).

Definition trimPrefix (prefix s : string) : string :=
  if String.prefix prefix s then String.substring (String.length prefix) (String.length s - String.length prefix) s else s.

Definition checkToken (c : authConfig) (r : httpRequest) : result unit :=
  if bool_decide (a_token c = EmptyString) then Ok tt
  else ensure (bool_decide (trimPrefix "Bearer " (rq_Authorization r) = a_token c)) (unauthorized EmptyString).

(** The signature of the coordinator; the clock is read twice. *)
Definition checkCoordinator `{Crypto} (verifies : bytes → bytes → bool) (me : string) (now now' : Z) (r : httpRequest)
    (body : bytes) : St nonces unit :=
  unix ← st_lift (from_option_err (parse_int (rq_Time r)) (unauthorized ": not signed by the coordinator"));
  let d := now - unix * 1000000000 in
  _ ← st_ensure ((d <=? requestSkew) && (- requestSkew <=? d)) (unauthorized ": request time is too far from this signer's clock");
  raw ← st_lift (from_option_err (hex_decode (rq_Nonce r)) (unauthorized ": the request has no nonce"));
  _ ← st_ensure (Nat.eqb (length raw) 16) (unauthorized ": the request has no nonce");
  raw ← st_lift (from_option_err (hex_decode (rq_Signature r)) (unauthorized ": not signed by the coordinator"));
  _ ← st_ensure (verifies raw (requestDigest (rq_Method r) (rq_Path r) unix (rq_Nonce r) me body))
        (unauthorized ": not signed by the coordinator for this signer");
  isFresh ← fresh (rq_Nonce r) now';
  st_ensure isFresh (unauthorized ": a replayed request").

Definition authenticate `{Crypto} (c : authConfig) (now now' : Z) (r : httpRequest) : St nonces bytes :=
  body ← st_lift (rq_Body r);
  _ ← st_lift (checkToken c r);
  _ ← match a_coord c with
      | Some verifies => checkCoordinator verifies (a_me c) now now' r body
      | None => mret tt
      end;
  _ ← st_ensure (negb (bool_decide (a_token c = EmptyString) && bool_decide (a_coord c = None) && negb (a_open c)))
        (unauthorized ": this signer has neither a token nor a coordinator key");
  mret body.

(** ** Accepted once *)

Section once.
Context `{CR : Crypto} (c : authConfig) (verifies : bytes → bytes → bool) (Hcoord : a_coord c = Some verifies).

(** A request, when it was checked and when its nonce was recorded. *)
Record arrival := mkArrival { ar_request : httpRequest; ar_checked : Z; ar_recorded : Z }.

(** Requests are recorded one after another; each within a second of its
    check. *)
Definition arrival_ok (last : Z) (a : arrival) : Prop :=
  last ≤ ar_recorded a ∧ ar_checked a ≤ ar_recorded a < ar_checked a + 1000000000.

(** What happens to a signer: requests, and restarts of its process, which
    forget the nonces. *)
Inductive event := arrives (a : arrival) | restarts.

(** The clock does not go back while a process runs. *)
Fixpoint events_ok (last : Z) (l : list event) : Prop :=
  match l with
  | [] => True
  | arrives a :: l => arrival_ok last a ∧ events_ok (ar_recorded a) l
  | restarts :: l => ∃ start, events_ok start l
  end.

(** What identifies a request to its signer. *)
Definition stamp (r : httpRequest) : option Z * string := (parse_int (rq_Time r), rq_Nonce r).

(** The requests that are accepted, in their order, each with the process that
    accepts it. *)
Fixpoint serve (process : nat) (l : list event) (seen : nonces) : list (nat * arrival) * nonces :=
  match l with
  | [] => ([], seen)
  | restarts :: l => serve (S process) l ∅
  | arrives a :: l =>
      let '(r, seen') := authenticate c (ar_checked a) (ar_recorded a) (ar_request a) seen in
      let '(rest, seen'') := serve process l seen' in
      (match r with Ok _ => (process, a) :: rest | Err _ => rest end, seen'')
  end.

(** The process and what identifies the request to it. *)
Definition stampIn (x : nat * arrival) : nat * (option Z * string) := (x.1, stamp (ar_request x.2)).

(** What an accepted request was shown to be. *)
Definition vouched (a : arrival) : Prop :=
  ∃ unix raw body, parse_int (rq_Time (ar_request a)) = Some unix ∧
    Z.abs (ar_checked a - unix * 1000000000) ≤ requestSkew ∧ rq_Body (ar_request a) = Ok body ∧
    hex_decode (rq_Signature (ar_request a)) = Some raw ∧
    verifies raw (requestDigest (rq_Method (ar_request a)) (rq_Path (ar_request a)) unix (rq_Nonce (ar_request a)) (a_me c) body) = true.

(** A request that was accepted has its nonce recorded until it is too old. *)
Definition remembered (last : Z) (seen : nonces) (st : option Z * string) : Prop :=
  ∃ unix, st.1 = Some unix ∧ ((∃ u, seen !! st.2 = Some u ∧ unix + 300 ≤ u) ∨ unix + 300 < Unix last).

Lemma Unix_mono t t' : t ≤ t' → Unix t ≤ Unix t'.
Proof. intros Hle. by apply Z.div_le_mono. Qed.

Lemma fresh_spec nonce now seen r seen' :
  fresh nonce now seen = (r, seen') → (size seen ≤ maxNonces)%nat →
  (size seen' ≤ maxNonces)%nat ∧
  (∀ k u, seen !! k = Some u → seen' !! k = Some u ∨ u < Unix now) ∧
  (r = Ok true → seen !! nonce = None ∧ seen' !! nonce = Some (Unix (now + 2 * requestSkew))).
Proof.
  unfold fresh. destruct (seen !! nonce) as [u0|] eqn:En; [intros [= <- <-] Hle; split_and!; [done|by left|done]|].
  set (s := if (maxNonces <=? size seen)%nat then forget now seen else seen). assert (∀ k u, seen !! k = Some u → s !! k = Some u ∨ u < Unix now) as Hk.
  { intros k u Hu. unfold s. destruct (_ <=? _)%nat; [|by left]. destruct (decide (Unix now ≤ u)); [left|right; lia].
    by apply map_lookup_filter_Some. }
  assert (s !! nonce = None) as Es.
  { unfold s. destruct (_ <=? _)%nat; [|done]. apply map_lookup_filter_None. by left. }
  assert (size s ≤ size seen)%nat as Hsz.
  { unfold s. destruct (_ <=? _)%nat; [|done]. apply map_subseteq_size, map_filter_subseteq. }
  destruct (Nat.leb_spec maxNonces (size s)) as [Hge|Hlt]; intros [= <- <-] Hle.
  - split; [lia|]. by split.
  - split; [rewrite map_size_insert_None by done; lia|]. split; [|by rewrite lookup_insert_eq].
    intros k u Hu. destruct (decide (nonce = k)) as [<-|]; [congruence|]. rewrite lookup_insert_ne by done. by apply Hk.
Qed.

Lemma checkCoordinator_spec now now' r body seen res seen' :
  checkCoordinator verifies (a_me c) now now' r body seen = (res, seen') →
  (res = Ok tt → ∃ unix raw, parse_int (rq_Time r) = Some unix ∧ Z.abs (now - unix * 1000000000) ≤ requestSkew ∧
     hex_decode (rq_Signature r) = Some raw ∧
     verifies raw (requestDigest (rq_Method r) (rq_Path r) unix (rq_Nonce r) (a_me c) body) = true ∧
     fresh (rq_Nonce r) now' seen = (Ok true, seen')) ∧
  (seen' = seen ∨ ∃ f, fresh (rq_Nonce r) now' seen = (f, seen')).
Proof.
  unfold checkCoordinator. rewrite st_bind_run.
  destruct (parse_int (rq_Time r)) as [unix|] eqn:Et; cbn [from_option_err st_lift]; [|intros [= <- <-]; by split; [|left]].
  rewrite st_bind_run. destruct (_ && _) eqn:Ed; cbn [st_ensure ensure st_lift]; [|intros [= <- <-]; by split; [|left]].
  rewrite st_bind_run. destruct (hex_decode (rq_Nonce r)) as [n|]; cbn [from_option_err st_lift]; [|intros [= <- <-]; by split; [|left]].
  rewrite st_bind_run. destruct (Nat.eqb _ _); cbn [st_ensure ensure st_lift]; [|intros [= <- <-]; by split; [|left]].
  rewrite st_bind_run. destruct (hex_decode (rq_Signature r)) as [raw|] eqn:Er; cbn [from_option_err st_lift]; [|intros [= <- <-]; by split; [|left]].
  rewrite st_bind_run. destruct (verifies _ _) eqn:Ev; cbn [st_ensure ensure st_lift]; [|intros [= <- <-]; by split; [|left]].
  rewrite st_bind_run. destruct (fresh _ _ seen) as [[[]|e] s1] eqn:Ef; cbn [st_ensure ensure st_lift]; intros [= <- <-]; (split; [|right; by eexists]); [|done..].
  intros _. exists unix, raw. apply andb_prop in Ed as [?%Z.leb_le ?%Z.leb_le]. split_and!; try done. lia.
Qed.

Lemma authenticate_spec now now' r seen res seen' :
  authenticate c now now' r seen = (res, seen') →
  (∀ body, res = Ok body → ∃ unix raw, parse_int (rq_Time r) = Some unix ∧ Z.abs (now - unix * 1000000000) ≤ requestSkew ∧
     rq_Body r = Ok body ∧ hex_decode (rq_Signature r) = Some raw ∧
     verifies raw (requestDigest (rq_Method r) (rq_Path r) unix (rq_Nonce r) (a_me c) body) = true ∧
     fresh (rq_Nonce r) now' seen = (Ok true, seen')) ∧
  (seen' = seen ∨ ∃ f, fresh (rq_Nonce r) now' seen = (f, seen')).
Proof.
  unfold authenticate. rewrite st_bind_run. destruct (rq_Body r) as [body|e]; cbn [st_lift]; [|intros [= <- <-]; by split; [|left]].
  rewrite st_bind_run. destruct (checkToken c r) as [[]|e]; cbn [st_lift]; [|intros [= <- <-]; by split; [|left]].
  rewrite st_bind_run, Hcoord. destruct (checkCoordinator _ _ _ _ _ _ seen) as [[[]|e] s1] eqn:Ec;
    destruct (checkCoordinator_spec _ _ _ _ _ _ _ Ec) as [Hok Hs]; [|intros [= <- <-]; by split].
  rewrite st_bind_run. assert (bool_decide (Some verifies = None) = false) as -> by by apply bool_decide_false.
  rewrite andb_false_r. cbn [negb andb st_ensure ensure st_lift]. intros [= <- <-]. split; [|done]. intros b [= <-].
  destruct (Hok eq_refl) as (unix&raw&?&?&?&?&?). exists unix, raw. split_and!; done.
Qed.
Lemma remembered_fresh last now nonce seen f seen' st :
  fresh nonce now seen = (f, seen') → (size seen ≤ maxNonces)%nat → last ≤ now →
  remembered last seen st → remembered now seen' st.
Proof.
  intros Ef Hsz Hle (unix&E&Hr). destruct (fresh_spec _ _ _ _ _ Ef Hsz) as (_&Hk&_). exists unix. split; [done|].
  destruct Hr as [(u&Hu&Hlu)|Hlt].
  - destruct (Hk _ _ Hu) as [?|?]; [left; by exists u|right; lia].
  - right. pose proof (Unix_mono _ _ Hle). lia.
Qed.

Lemma remembered_later last now seen st : last ≤ now → remembered last seen st → remembered now seen st.
Proof. intros Hle (unix&E&[?|?]); exists unix; (split; [done|]); [by left|right]. pose proof (Unix_mono _ _ Hle). lia. Qed.

(** An accepted request is not one of those remembered, and will be. *)
Lemma accepted_fresh last a seen body seen' :
  authenticate c (ar_checked a) (ar_recorded a) (ar_request a) seen = (Ok body, seen') →
  arrival_ok last a → (size seen ≤ maxNonces)%nat →
  ¬ remembered last seen (stamp (ar_request a)) ∧ remembered (ar_recorded a) seen' (stamp (ar_request a)) ∧ vouched a.
Proof.
  intros Ea [Hlast [Hck Hsec]] Hsz. destruct (proj1 (authenticate_spec _ _ _ _ _ _ Ea) body eq_refl) as (unix&raw&Et&Hd&Hb&Hr&Hv&Ef).
  destruct (fresh_spec _ _ _ _ _ Ef Hsz) as (_&_&Hnew). destruct (Hnew eq_refl) as [Hnone Hsome]. unfold requestSkew, stamp in *.
  pose proof (Z.div_mod (ar_recorded a) 1000000000 ltac:(done)). pose proof (Z.mod_pos_bound (ar_recorded a) 1000000000 ltac:(done)).
  split_and!.
  - intros (u&E&[(v&Hv'&_)|Hlt]); cbn [fst snd] in *; [congruence|]. rewrite Et in E. injection E as <-.
    pose proof (Unix_mono _ _ Hlast). unfold Unix in *. lia.
  - exists unix. split; [done|]. left. eexists. split; [exact Hsome|]. unfold Unix.
    replace (ar_recorded a + 2 * (300 * 1000000000)) with (ar_recorded a + 600 * 1000000000) by lia. rewrite Z.div_add by lia. lia.
  - exists unix, raw, body. done.
Qed.

Lemma serve_later n l seen x : x ∈ (serve n l seen).1 → (n ≤ x.1)%nat.
Proof.
  revert n seen. induction l as [|[a|] l IH]; intros n seen; cbn [serve]; [by intros ?%elem_of_nil| |].
  - destruct (authenticate _ _ _ _ seen) as [r seen1]. specialize (IH n seen1). destruct (serve n l seen1) as [rest seen2].
    destruct r; [|done]. intros [->|Hx]%elem_of_cons; [done|by apply IH].
  - intros Hx%IH. lia.
Qed.

Lemma serve_spec n l last seen (H : list (option Z * string)) :
  events_ok last l → (size seen ≤ maxNonces)%nat → Forall (remembered last seen) H →
  let '(accepted, seen') := serve n l seen in
  NoDup (stampIn <$> accepted) ∧ Forall (fun x => x.1 = n → stamp (ar_request x.2) ∉ H) accepted ∧
  Forall (fun x => vouched x.2) accepted ∧ (size seen' ≤ maxNonces)%nat.
Proof.
  revert n last seen H; induction l as [|[a|] l IH]; intros n last seen H Hl Hsz HH; cbn [serve].
  { split_and!; [constructor..|done]. }
  - destruct Hl as [Ha Hl]. destruct (authenticate _ _ _ _ seen) as [r seen1] eqn:Ea.
    destruct (authenticate_spec _ _ _ _ _ _ Ea) as [Hok Hs]. pose proof Ha as [Hlast _].
    assert ((size seen1 ≤ maxNonces)%nat ∧ Forall (remembered (ar_recorded a) seen1) H) as [Hsz1 HH1].
    { destruct Hs as [->|[f Ef]].
      - split; [done|]. eapply Forall_impl; [exact HH|]. intros st. by apply remembered_later.
      - split; [by apply (fresh_spec _ _ _ _ _ Ef)|]. eapply Forall_impl; [exact HH|]. intros st. by eapply remembered_fresh. }
    destruct r as [body|e]; [|specialize (IH n (ar_recorded a) seen1 H Hl Hsz1 HH1); by destruct (serve n l seen1)].
    destruct (accepted_fresh last a seen body seen1 Ea Ha Hsz) as (Hnew&Hrem&Hv).
    specialize (IH n (ar_recorded a) seen1 (stamp (ar_request a) :: H) Hl Hsz1 (Forall_cons_2 _ _ _ Hrem HH1)).
    destruct (serve n l seen1) as [rest seen2]. destruct IH as (Hnd&Hout&Hvs&Hsz2). rewrite Forall_forall in Hout. split_and!.
    + rewrite fmap_cons. apply NoDup_cons. split; [|done]. intros (x&E&Hx)%list_elem_of_fmap.
      pose proof (f_equal fst E) as E1. pose proof (f_equal snd E) as E2.
      change (stamp (ar_request a) = stamp (ar_request x.2)) in E2. apply (Hout x Hx (eq_sym E1)). rewrite <- E2. by left.
    + constructor; [intros _ Hin; apply Hnew; by eapply (proj1 (Forall_forall _ _) HH)|].
      apply Forall_forall. intros x Hx E Hin. apply (Hout x Hx E). by right.
    + by constructor.
    + done.
  - destruct Hl as [start Hl]. specialize (IH (S n) start ∅ [] Hl). rewrite map_size_empty in IH.
    specialize (IH (Nat.le_0_l _) (Forall_nil_2 _)). pose proof (serve_later (S n) l ∅) as Hle.
    destruct (serve (S n) l ∅) as [accepted seen']. destruct IH as (Hnd&_&Hvs&Hsz'). split_and!; [done| |done..].
    apply Forall_forall. intros x Hx%Hle E. lia.
Qed.

(** C40. A process of a signer whose set names a coordinator accepts no request
    twice: of any requests that arrive, forged and replayed ones included, and
    over any restarts, those one process accepts have different times or nonces,
    as long as its clock does not go back and a nonce is recorded within a second
    of the check of the request's time. Whichever process accepts it, a request
    was signed by the coordinator for this signer and its body, at most five
    minutes from the signer's clock; so a request from before a restart, which
    forgets the nonces, is accepted again no later than that. The nonces kept stay
    within their bound. *)
Theorem replays_refused l last :
  events_ok last l →
  let '(accepted, seen) := serve 0 l ∅ in
  NoDup (stampIn <$> accepted) ∧ Forall (fun x => vouched x.2) accepted ∧ (size seen ≤ maxNonces)%nat.
Proof.
  intros Hl. pose proof (serve_spec 0 l last ∅ [] Hl) as HS. rewrite map_size_empty in HS. specialize (HS (Nat.le_0_l _) (Forall_nil_2 _)).
  destruct (serve 0 l ∅) as [accepted seen]. destruct HS as (?&_&?&?). done.
Qed.

End once.

Module Requests.

#[local] Existing Instance toyCrypto.

(** A signature of a digest is the digest. *)
Definition checks (raw digest : bytes) : bool := bool_decide (raw = digest).
Definition config : authConfig := mkAuth EmptyString (Some checks) "02ab" false.

Definition request (nonce : string) : httpRequest :=
  mkHttp "POST" "/v1/sign" EmptyString "1790200000" nonce
    (hex_encode (requestDigest "POST" "/v1/sign" 1790200000 nonce "02ab" [1; 2; 3])) (Ok [1; 2; 3]).
Definition one : httpRequest := request "000102030405060708090a0b0c0d0e0f".
Definition two : httpRequest := request "100102030405060708090a0b0c0d0e0f".

(** The second arrival replays the first and is refused; after a restart the
    same request is accepted once more, and too late no more. *)
Definition at_ (s : Z) (r : httpRequest) : arrival := mkArrival r (s * 1000000000) (s * 1000000000 + 5).
Definition events : list event :=
  [arrives (at_ 1790200001 one); arrives (at_ 1790200002 one); arrives (at_ 1790200100 two); restarts;
   arrives (at_ 1790200200 one); arrives (at_ 1790200301 two)].

Lemma events_in_order : events_ok 0 events.
Proof.
  cbn [events_ok events at_ ar_checked ar_recorded]. unfold arrival_ok. cbn [at_ ar_checked ar_recorded].
  do 3 (split; [lia|]). exists 0. lia.
Qed.

Lemma replays_refused_witness :
  (serve config 0 events ∅).1 =
    [(0%nat, at_ 1790200001 one); (0%nat, at_ 1790200100 two); (1%nat, at_ 1790200200 one)] ∧
  NoDup (stampIn <$> (serve config 0 events ∅).1).
Proof.
  pose proof (replays_refused config checks eq_refl events 0 events_in_order) as HS.
  destruct (serve config 0 events ∅) as [accepted seen] eqn:E. destruct HS as (Hnd&_&_). split; [|exact Hnd].
  revert E. vm_compute. intros E. injection E as <- _. reflexivity.
Defined.

End Requests.
