(* ===== verification/Amount.v ===== *)
(** DOGE amounts as decimal strings (src/cmd/dogevm/params.go). *)

From Stdlib Require Import Ascii String.
From stdpp Require Import strings.
From S2P Require Import Prelude Text.

Definition koinuPerDoge : Z := 100000000.

(** fmt's zero-padded %d: the sign counts in the width. *)
Fixpoint zeros (n : nat) (s : string) : string :=
  match n with O => s | S n => String "0"%char (zeros n s) end.

Definition pad (w : nat) (s : string) : string := zeros (w - String.length s) s.

Definition fmt_d (w : nat) (n : Z) : string :=
  if n <? 0 then String "-"%char (pad (w - 1) (dec (- n))) else pad w (dec n).

(** formatDoge; the negation of the least int64 is itself. *)
Definition formatDoge (koinu : Z) : string :=
  let '(sign, koinu) := if koinu <? 0 then ("-"%string, wrap64 (- koinu)) else (EmptyString, koinu) in
  sign +:+ fmt_d 0 (Z.quot koinu koinuPerDoge) +:+ "." +:+ fmt_d 8 (Z.rem koinu koinuPerDoge).

Record parsing := mkParsing { whole : Z; frac : Z; fracDigits : nat; seenDot : bool }.

(** One rune of parseDoge's loop. *)
Definition parseRune (p : parsing) (c : ascii) : result parsing :=
  if (code c =? 46) && negb (seenDot p)
  then Ok (mkParsing (whole p) (frac p) (fracDigits p) true)
  else if is_digit c && negb (seenDot p) then
    let whole' := whole p [*] 10 [+] undigit c in
    if 10000000000 <? whole' then Err (Errorf "amount is too large")
    else Ok (mkParsing whole' (frac p) (fracDigits p) (seenDot p))
  else if is_digit c && Nat.ltb (fracDigits p) 8 then
    Ok (mkParsing (whole p) (frac p [*] 10 [+] undigit c) (S (fracDigits p)) (seenDot p))
  else Err (Errorf "invalid amount").

Fixpoint parseRunes (p : parsing) (s : string) : result parsing :=
  match s with
  | EmptyString => Ok p
  | String c s => p' ← parseRune p c; parseRunes p' s
  end.

(** [for ; fracDigits < 8; fracDigits++ { frac *= 10 }] *)
Fixpoint scale (n : nat) (frac : Z) : Z :=
  match n with O => frac | S n => scale n (frac [*] 10) end.

Definition parseDoge (s : string) : result Z :=
  match s with
  | EmptyString => Err (Errorf "empty amount")
  | _ =>
      p ← parseRunes (mkParsing 0 0 0 false) s;
      Ok (whole p [*] koinuPerDoge [+] scale (8 - fracDigits p) (frac p))
  end.

(** ** Reading back what is written *)

Lemma is_digit_code c : is_digit c = true → 48 ≤ code c ≤ 57.
Proof. unfold is_digit. rewrite andb_true_iff, !Z.leb_le. done. Qed.

Lemma undec_mono acc s v : 0 ≤ acc → undec acc s = Some v → acc ≤ v.
Proof.
  revert acc. induction s as [|c s IH]; intros acc Ha; simpl; [by intros [= ->]|].
  destruct (is_digit c) eqn:Hc; [|done]. apply is_digit_code in Hc. intros H.
  apply IH in H; unfold undigit in *; lia.
Qed.

Lemma parseRunes_app p s1 s2 :
  parseRunes p (s1 +:+ s2) = p' ← parseRunes p s1; parseRunes p' s2.
Proof.
  revert p. induction s1 as [|c s1 IH]; intros p; [done|].
  cbn [parseRunes String.app]. unfold mbind, result_bind in *.
  change (String.append s1 s2) with (s1 +:+ s2) in *.
  simpl. destruct (parseRune p c); [apply IH|done].
Qed.

Lemma parseRunes_whole s w f n v :
  0 ≤ w → undec w s = Some v → v ≤ 10000000000 →
  parseRunes (mkParsing w f n false) s = Ok (mkParsing v f n false).
Proof.
  revert w. induction s as [|c s IH]; intros w Hw; cbn [undec]; [by intros [= ->]|].
  destruct (is_digit c) eqn:Hc; [|done]. intros H Hv.
  apply is_digit_code in Hc as Hr. cbn [parseRunes]. unfold parseRune; cbn [seenDot whole].
  rewrite (proj2 (Z.eqb_neq _ _)) by lia. cbn [andb negb]. rewrite Hc. cbn [andb].
  assert (Hm : w * 10 + undigit c ≤ v).
  { apply (undec_mono _ s); [unfold undigit; lia|done]. }
  unfold undigit in *.
  rewrite wrap64_add_l, wrap64_small by i64.
  rewrite (proj2 (Z.ltb_ge _ _)) by lia. apply IH; [lia|done|done].
Qed.

Lemma parseRunes_frac s w f n v :
  0 ≤ f < 10 ^ Z.of_nat n → undec f s = Some v → (n + String.length s ≤ 8)%nat →
  parseRunes (mkParsing w f n true) s = Ok (mkParsing w v (n + String.length s) true).
Proof.
  revert f n. induction s as [|c s IH]; intros f n Hf; cbn [undec String.length].
  { rewrite Nat.add_0_r. by intros [= ->]. }
  destruct (is_digit c) eqn:Hc; [|done]. intros H Hv.
  apply is_digit_code in Hc as Hr. cbn [parseRunes]. unfold parseRune; cbn [seenDot whole frac fracDigits].
  rewrite Hc, !andb_false_r. cbn [andb negb]. rewrite (proj2 (Nat.ltb_lt n 8)) by lia.
  assert (10 ^ Z.of_nat n ≤ 10 ^ 7) by (apply Z.pow_le_mono_r; lia).
  unfold undigit in *. rewrite wrap64_add_l, wrap64_small by i64.
  cbn -[parseRunes]. rewrite (IH (f * 10 + (code c - 48)) (S n)); [|..|lia].
  - do 2 f_equal. lia.
  - rewrite Nat2Z.inj_succ, Z.pow_succ_r by lia. lia.
  - done.
Qed.

Lemma undec_zeros n s : undec 0 (zeros n s) = undec 0 s.
Proof. induction n as [|n IH]; [done|]. apply IH. Qed.

Lemma length_zeros n s : String.length (zeros n s) = (n + String.length s)%nat.
Proof. induction n as [|n IH]; simpl; [done|]. by rewrite IH. Qed.

Lemma dec_go_length fuel n k acc :
  0 ≤ n < 10 ^ Z.of_nat k → (0 < k)%nat →
  (String.length (dec_go fuel n acc) ≤ k + String.length acc)%nat.
Proof.
  revert n k acc. induction fuel as [|fuel IH]; intros n k acc Hn Hk; cbn [dec_go]; [lia|].
  destruct (Z.ltb_spec n 10); [simpl; lia|].
  destruct k as [|k]; [lia|]. rewrite Nat2Z.inj_succ, Z.pow_succ_r in Hn by lia.
  assert (0 < k)%nat by (destruct k; [simpl in Hn; lia|lia]).
  assert (0 ≤ n / 10 < 10 ^ Z.of_nat k).
  { split; [apply Z.div_pos; lia|apply Z.div_lt_upper_bound; lia]. }
  pose proof (IH (n / 10) k (String (digit (n mod 10)) acc)) as Hi. simpl in Hi. lia.
Qed.

Lemma dec_nonempty n : dec n ≠ EmptyString.
Proof. apply dec_go_nonempty. Qed.

(** Amounts survive being written and read back: for every amount from
    zero to ten thousand million DOGE, parseDoge reads formatDoge's string as
    exactly that amount. *)
Theorem parseDoge_formatDoge k :
  0 ≤ k < 10000000001 * koinuPerDoge → parseDoge (formatDoge k) = Ok k.
Proof.
  unfold koinuPerDoge. intros Hk.
  assert (Hq : 0 ≤ k ÷ 100000000 ≤ 10000000000).
  { rewrite Z.quot_div_nonneg by lia. split; [apply Z.div_pos; lia|].
    apply Z.lt_succ_r, Z.div_lt_upper_bound; lia. }
  pose proof (Z.rem_bound_pos k 100000000) as Hr.
  pose proof (Z.quot_rem' k 100000000) as Hqr.
  unfold formatDoge, fmt_d, koinuPerDoge. rewrite !(proj2 (Z.ltb_ge _ _)) by lia.
  set (q := k ÷ 100000000) in *. set (r := Z.rem k 100000000) in *.
  assert (Hs : ∀ s, parseDoge (dec q +:+ "." +:+ s) =
    p ← parseRunes (mkParsing 0 0 0 false) (dec q +:+ "." +:+ s);
    Ok (whole p [*] koinuPerDoge [+] scale (8 - fracDigits p) (frac p))).
  { intros s. destruct (dec q) eqn:E; [by apply dec_nonempty in E|done]. }
  change (EmptyString +:+ ?x) with x.
  replace (pad 0 (dec q)) with (dec q) by done. rewrite Hs, parseRunes_app.
  rewrite (parseRunes_whole _ 0 0 0 q); [|lia|apply undec_dec; lia|lia].
  unfold mbind, result_bind.
  change (parseRunes (mkParsing q 0 0 false) ("." +:+ ?x)) with (parseRunes (mkParsing q 0 0 true) x).
  assert (Hl : String.length (pad 8 (dec r)) = 8%nat).
  { unfold pad. rewrite length_zeros. pose proof (dec_go_length (S (Z.to_nat (Z.log2 r))) r 8 EmptyString) as Hd.
    change (10 ^ Z.of_nat 8) with 100000000 in Hd. cbn [String.length] in Hd. unfold dec. lia. }
  rewrite (parseRunes_frac _ q 0 0 r).
  - rewrite Hl. cbn -[wrap64 Z.mul Z.add]. rewrite wrap64_add_l, wrap64_small; [f_equal; unfold koinuPerDoge; lia|].
    unfold koinuPerDoge. i64.
  - simpl. lia.
  - unfold pad. rewrite undec_zeros. apply undec_dec. lia.
  - rewrite Hl. lia.
Qed.

Lemma parseDoge_formatDoge_witness : parseDoge (formatDoge 123450000678) = Ok 123450000678.
Proof. apply parseDoge_formatDoge. unfold koinuPerDoge. lia. Defined.

(** ** No string overflows *)

Definition parsing_ok (p : parsing) : Prop :=
  0 ≤ whole p ≤ 10000000000 ∧ 0 ≤ frac p < 10 ^ Z.of_nat (fracDigits p) ∧ (fracDigits p ≤ 8)%nat.

Lemma parseRune_ok p c p' : parsing_ok p → parseRune p c = Ok p' → parsing_ok p'.
Proof.
  intros (Hw & Hf & Hn) H. unfold parseRune in H.
  destruct (_ && _); [simplify_eq; done|].
  destruct (is_digit c) eqn:Hc; [|done]. apply is_digit_code in Hc.
  destruct (seenDot p); cbn [negb andb] in H.
  - destruct (Nat.ltb_spec (fracDigits p) 8); [|done]. simplify_eq.
    assert (10 ^ Z.of_nat (fracDigits p) ≤ 10 ^ 7) by (apply Z.pow_le_mono_r; lia).
    unfold parsing_ok, undigit; cbn [whole frac fracDigits].
    rewrite wrap64_add_l, wrap64_small by i64.
    rewrite Nat2Z.inj_succ, Z.pow_succ_r by lia. lia.
  - destruct (Z.ltb_spec 10000000000 (whole p [*] 10 [+] undigit c)) as [|Hle]; [done|]. simplify_eq.
    unfold undigit in *. rewrite wrap64_add_l, wrap64_small in Hle by i64.
    unfold parsing_ok; cbn [whole frac fracDigits].
    rewrite wrap64_add_l, wrap64_small by i64. lia.
Qed.

Lemma parseRunes_ok s p p' : parsing_ok p → parseRunes p s = Ok p' → parsing_ok p'.
Proof.
  revert p. induction s as [|c s IH]; intros p Hp; cbn [parseRunes]; [by intros [= <-]|].
  intros (p1 & H1 & H2)%bind_Ok. eauto using parseRune_ok.
Qed.

Lemma scale_exact n k f :
  0 ≤ f < 10 ^ Z.of_nat k → (n + k ≤ 8)%nat →
  scale n f = f * 10 ^ Z.of_nat n ∧ 0 ≤ scale n f < 10 ^ Z.of_nat (n + k).
Proof.
  revert k f. induction n as [|n IH]; intros k f Hf Hn; [simpl; lia|]. cbn [scale].
  assert (10 ^ Z.of_nat k ≤ 10 ^ 7) by (apply Z.pow_le_mono_r; lia).
  rewrite wrap64_small by i64.
  destruct (IH (S k) (f * 10)) as [E B]; [|lia|].
  - rewrite Nat2Z.inj_succ, Z.pow_succ_r by lia. lia.
  - rewrite E in *. rewrite (Nat2Z.inj_succ n), Z.pow_succ_r by lia.
    replace (S n + k)%nat with (n + S k)%nat by lia. split; [lia|done].
Qed.

(** No string overflows an amount: what parseDoge accepts is the exact
    value of its digits, from zero to ten thousand million DOGE and a
    fraction, far inside an int64, however long the string. *)
Theorem parseDoge_bounds s k :
  parseDoge s = Ok k → 0 ≤ k < 10000000001 * koinuPerDoge.
Proof.
  unfold parseDoge. destruct s as [|c s]; [done|].
  intros (p & Hp & Hk)%bind_Ok. injection Hk as <-.
  apply parseRunes_ok in Hp as (Hw & Hf & Hn); [|repeat split; simpl; lia].
  destruct (scale_exact (8 - fracDigits p) (fracDigits p) (frac p)) as [_ Hs]; [done|lia|].
  replace (8 - fracDigits p + fracDigits p)%nat with 8%nat in Hs by lia.
  change (10 ^ Z.of_nat 8) with 100000000 in Hs. unfold koinuPerDoge.
  rewrite wrap64_add_l, wrap64_small by i64. lia.
Qed.

Lemma parseDoge_bounds_witness : 0 ≤ 1050000000 < 10000000001 * koinuPerDoge.
Proof. apply (parseDoge_bounds "10.5"). vm_compute. reflexivity. Defined.
