(* ===== verification/Peg.v ===== *)
(** The peg's data (src/cmd/dogevm: bridge.go, chains.go, signers.go,
    tiers.go): what a node answers, the signer set and its scripts, the
    bridge's policy and the state it reads from the two chains. *)

From Stdlib Require Import Ascii String.
From S2P Require Import Prelude Text Wire Runtime Script Tags Amount.

(** ** Chains *)

(** A transaction and how many blocks confirm it (0 in mempool). *)
Record chainTx := mkChainTx { ct_tx : MsgTx; ct_confirmations : Z; ct_time : Z }.

Record utxo := mkUtxo {
  u_outPoint : OutPoint; u_value : Z; u_pkScript : bytes; u_confirmations : Z;
}.

#[export] Instance chainTx_eq_dec : EqDecision chainTx.
Proof. solve_decision. Defined.
#[export] Instance utxo_eq_dec : EqDecision utxo.
Proof. solve_decision. Defined.

(** What the bridge reads of either ledger: the chain interface's reads, and
    the optional confirmer, utxoSetter and conflictLister. A node's answers
    stay the same through one request. *)
Record chain := mkChain {
  txsFor : list Address → result (list chainTx);
  unspent : list Address → Z → result (list utxo);
  confirmer : option (bytes → result bool);
  utxoSetter : option (OutPoint → result bool);
  conflictLister : option (list Address → result (list chainTx));
}.

Definition confirmedOn (c : chain) : option (string → bool) :=
  match confirmer c with
  | None => None
  | Some confirmed => Some (fun txid =>
      match NewHashFromStr txid with
      | Err _ => false
      | Ok h => match confirmed h with Ok yes => yes | Err _ => false end
      end)
  end.

Definition unspentOn (c : chain) : option (OutPoint → bool) :=
  match utxoSetter c with
  | None => None
  | Some inUTXOSet => Some (fun op => match inUTXOSet op with Ok yes => yes | Err _ => true end)
  end.

(** ** Signers *)

(** The set's threshold, its compressed public keys, and the multisig redeem
    script load builds of them. *)
Record signerSet := mkSignerSet {
  Required : Z; pubKeys : list bytes; redeemScript : bytes;
}.

(** The tail of signerSet.load, after the keys parsed. *)
Definition loadSigners (required : Z) (keys : list bytes) : result signerSet :=
  _ ← ensure ((1 <=? required) && (required <=? Z.of_nat (length keys)))
        (Errorf "required signatures out of range");
  redeem ← MultiSigScript keys required;
  Ok (mkSignerSet required keys redeem).

Section signers.
Context `{Crypto}.

Definition hash160Of (script : bytes) : bytes := Hash160 script.

Definition p2shScript (redeem : bytes) : bytes :=
  pkScript (mkDest destP2SH (hash160Of redeem)).

Definition signers_pkScript (s : signerSet) : bytes := p2shScript (redeemScript s).

Definition signers_destination (s : signerSet) : destination :=
  mkDest destP2SH (hash160Of (redeemScript s)).

(** A P2SH address, whatever network's prefix it is shown with. *)
Definition signers_address (s : signerSet) : Address :=
  AddressScriptHash (hash160Of (redeemScript s)).

Definition depositRedeemScript (s : signerSet) (dest : destination) : bytes :=
  [OP_DATA_21; kind dest] ++ hash dest ++ [OP_DROP] ++ redeemScript s.
End signers.

Definition lookup_sig (sigs : gmap nat (list bytes)) (signer i : nat) : result bytes :=
  from_option_err (l ← sigs !! signer; l !! i) (goPanic "index out of range").

(** The signers whose signatures are used: the first Required, in key order. *)
Definition chosenSigners (s : signerSet) (sigs : gmap nat (list bytes)) : list nat :=
  foldl (fun signers i =>
      if bool_decide (is_Some (sigs !! i)) && (Z.of_nat (length signers) <? Required s)
      then signers ++ [i] else signers)
    [] (seq 0 (length (pubKeys s))).

Definition sigScriptOf (signers : list nat) (sigs : gmap nat (list bytes)) (i : nat)
    (redeem : bytes) : result bytes :=
  b ← foldl (fun b signer =>
        b ← b; sig ← lookup_sig sigs signer i; Ok (AddData b sig))
      (Ok (AddOp NewScriptBuilder OP_0)) signers;
  Script (AddData b redeem).

Definition setSigScript (ti : TxIn) (sigScript : bytes) : TxIn :=
  mkTxIn (PreviousOutPoint ti) sigScript (Witness ti) (Sequence ti).

(** [for i, redeem := range redeemScripts]: inputs and redeem scripts pair up. *)
Fixpoint assembleInputs (signers : list nat) (sigs : gmap nat (list bytes)) (i : nat)
    (ins : list TxIn) (redeems : list bytes) : result (list TxIn) :=
  match ins, redeems with
  | ti :: ins, redeem :: redeems =>
      sigScript ← sigScriptOf signers sigs i redeem;
      rest ← assembleInputs signers sigs (S i) ins redeems;
      Ok (setSigScript ti sigScript :: rest)
  | _, _ => Ok ins
  end.

(** assemble completes tx's signature scripts; on success the signed
    transaction replaces tx. *)
Definition assemble (s : signerSet) (tx : MsgTx) (redeems : list bytes)
    (sigs : gmap nat (list bytes)) : result MsgTx :=
  _ ← ensure (Nat.eqb (length redeems) (length (txIn tx))) (Errorf "redeem scripts and inputs differ");
  let signers := chosenSigners s sigs in
  _ ← ensure (Required s <=? Z.of_nat (length signers)) (Errorf "not enough signatures");
  ins ← assembleInputs signers sigs 0 (txIn tx) redeems;
  Ok (mkMsgTx (Version tx) ins (txOut tx) (LockTime tx)).

(** ** The signers chosen *)

Lemma chosenSigners_length s sigs :
  0 ≤ Required s → Z.of_nat (length (chosenSigners s sigs)) ≤ Required s.
Proof.
  intros Hr. unfold chosenSigners.
  apply (foldl_inv (fun l : list nat => Z.of_nat (length l) ≤ Required s)); [done|].
  intros l i _ Hl. destruct (bool_decide _); [|done]. simpl.
  destruct (Z.ltb_spec (Z.of_nat (length l)) (Required s)); [rewrite length_app; simpl; lia|done].
Qed.

(** ** Signing changes nothing but signatures *)

Lemma assembleInputs_strip signers sigs i ins redeems ins' :
  assembleInputs signers sigs i ins redeems = Ok ins' →
  (fun ti => mkTxIn (PreviousOutPoint ti) [] [] (Sequence ti)) <$> ins' =
  (fun ti => mkTxIn (PreviousOutPoint ti) [] [] (Sequence ti)) <$> ins.
Proof.
  revert i redeems ins'. induction ins as [|ti ins IH]; intros i redeems ins' Ha;
    destruct redeems as [|r redeems]; cbn [assembleInputs] in Ha; ok_inv; subst; try done.
  rewrite !fmap_cons. f_equal. eauto.
Qed.

(** Signing changes nothing a signer agreed to. *)
Lemma assemble_same `{Crypto} s tx redeems sigs tx' :
  assemble s tx redeems sigs = Ok tx' →
  unsignedHash tx' = unsignedHash tx ∧ prevOuts tx' = prevOuts tx ∧ txOut tx' = txOut tx.
Proof.
  intros Ha. unfold assemble in Ha. ok_inv. subst tx'.
  match goal with H : assembleInputs _ _ _ _ _ = Ok _ |- _ => apply assembleInputs_strip in H as Hs end.
  split_and!; [|..|done].
  - unfold unsignedHash, stripSigs; simpl. by rewrite Hs.
  - unfold prevOuts; simpl.
    apply (f_equal (fmap PreviousOutPoint)) in Hs. by rewrite <- !list_fmap_compose in Hs.
Qed.
