(* ===== verification/Spend.v ===== *)
(** * Who can spend the reserve

    The scripts the signers' coins are locked with (src/cmd/dogevm/signers.go),
    run by btcd's engine ([Engine]): an input of a connected block that spends a
    coin of the set carries signatures of as many of its keys as the set
    requires. *)

From Stdlib Require Import String.
From S2P Require Import Prelude Text Wire Runtime Script Chain Versionbits Utxo Validate Engine Tags Peg.

Lemma sublist_rev {A} (l k : list A) : sublist l k → sublist (reverse l) (reverse k).
Proof.
  induction 1 as [|x l k Hs IH|x l k Hs IH]; [constructor| |].
  - rewrite !reverse_cons. by apply sublist_app.
  - rewrite reverse_cons. by apply sublist_inserts_r.
Qed.

Section spend.
Context `{CR : Crypto} `{EC : Ecdsa}.

(** ** The first script: pushes *)

(** What a script of pushes leaves on the stack, its last first. *)
Definition pushed (script : bytes) : list bytes := reverse ((fun '(op, data, _) => item op data) <$> tokens script).

Lemma pushOnly_next k t t' :
  pushOnlyLoop k t = true → Next t = (true, t') → top t' ≤ OP_16 ∧ pushOnlyLoop (pred k) t' = true.
Proof.
  destruct k as [|k]; [done|]. cbn [pushOnlyLoop]. intros H1 Hn. rewrite Hn in H1.
  destruct (Z.ltb_spec OP_16 (top t')); [done|]. done.
Qed.

(** An engine at its second script, with the stack the first left. *)
Definition second (e : Engine) (pk : bytes) (st : list bytes) : Engine :=
  mkEngine (en_flags e) (en_tx e) (en_txIdx e) true (scripts e) 1 0 (MakeScriptTokenizer pk) st st [] [] 0.

Lemma tokensFrom_S n t t' : (length (trest t) ≤ n)%nat → Next t = (true, t') →
  ∃ raw, tokensFrom n t = (top t', default [] (tdata t'), raw) :: tokensFrom (pred n) t'.
Proof.
  intros Hl Hn. destruct (Next_true _ _ Hn) as [Hlt _]. destruct n as [|n]; [lia|]. cbn [tokensFrom]. rewrite Hn. eauto.
Qed.

Lemma tokensFrom_done n t : Done t = true → tokensFrom n t = [].
Proof. intros Hd. destruct n as [|n]; [done|]. cbn [tokensFrom]. unfold Next. by rewrite Hd. Qed.

Lemma runs_pushes more fuel k n e r sig pk :
  scripts e = [sig; pk] → pk ≠ [] → scriptIdx e = 0%nat → bip16 e = true → condStack e = [] →
  pushOnlyLoop k (tokenizer e) = true → (length (trest (tokenizer e)) ≤ n)%nat →
  execLoop more fuel e = Some (Ok tt, r) →
  ∃ more' st, more = S more' ∧ st = reverse ((fun '(op, data, _) => item op data) <$> tokensFrom n (tokenizer e)) ++ dstack e ∧
    execLoop more' (length pk) (second e pk st) = Some (Ok tt, r).
Proof.
  revert k n e. induction fuel as [|fuel IH]; intros k n e Hs Hpk Hi Hb Hc Hk Hn Hrun; [by destruct more|].
  destruct (Next (tokenizer e)) as [ok t] eqn:Hnx. destruct ok.
  2: { rewrite execLoop_S in Hrun. destruct (Step e) as [[b|x] e'] eqn:E; [|done].
       apply Step_inv in E as (t'&e1&Hn'&_). congruence. }
  destruct (pushOnly_next _ _ _ Hk Hnx) as [Hop Hk']. destruct (Next_true _ _ Hnx) as [Hlt _].
  destruct (tokensFrom_S n _ _ Hn Hnx) as [raw ->]. destruct (Done t) eqn:Hd.
  - destruct (runs_last _ _ _ _ _ Hnx Hd Hrun) as (e1&e2&b&e3&Hx&_&H2&H3&H4).
    apply exec_push in Hx; [|done|done]. subst e1.
    unfold nextScript in H2. rewrite st_bind_run in H2. cbn in H2. rewrite Hi, Hb in H2. cbn in H2. injection H2 as <-.
    unfold startScript in H3. rewrite st_bind_run in H3. cbn in H3. rewrite Hs in H3. cbn in H3.
    rewrite bool_decide_eq_false_2 in H3 by congruence. cbn in H3. injection H3 as <- <-.
    destruct H4 as [[? _]|(_&more'&->&H4)]; [done|]. exists more', (item (top t) (default [] (tdata t)) :: dstack e).
    split; [done|]. split; [by rewrite tokensFrom_done|]. clear IH Hrun. destruct e; cbn in *; subst; exact H4.
  - destruct (runs_mid _ _ _ _ _ Hnx Hd Hrun) as (e1&fuel'&[= <-]&Hx&Hrun'). apply exec_push in Hx; [|done|done]. subst e1.
    destruct (IH (pred k) (pred n) (set_dstack (item (top t) (default [] (tdata t)) :: dstack e) (set_tokenizer t e)) Hs Hpk Hi Hb Hc Hk' ltac:(cbn; lia) Hrun') as (more'&st&->&Hst&Hr).
    exists more', st. split; [done|]. split; [|exact Hr]. rewrite Hst. cbn [fmap list_fmap dstack set_dstack set_tokenizer tokenizer].
    rewrite reverse_cons, <- app_assoc. done.
Qed.


(** ** The second script: the hash *)

(** An engine at the redeem script. *)
Definition third (e : Engine) (script : bytes) (st : list bytes) : Engine :=
  mkEngine (en_flags e) (en_tx e) (en_txIdx e) true (scripts e ++ [script]) 2 0 (MakeScriptTokenizer script) (script :: st) st [] [] 0.

Definition p2sh (h : bytes) : bytes := OP_HASH160 :: OP_DATA_20 :: h ++ [OP_EQUAL].

Lemma plain_20 h : length h = 20%nat → plain_data h.
Proof. intros Hh. unfold plain_data. rewrite Hh. lia. Qed.

Lemma pop_inv e x e1 : PopByteArray e = (Ok x, e1) → ∃ st, dstack e = x :: st ∧ e1 = set_dstack st e.
Proof.
  unfold PopByteArray, nipN, PeekByteArray. intros (y&e2&H1&H2)%bind_run. apply bind_run in H1 as (e3&e4&H3&H1).
  injection H3 as <- <-. destruct (dstack e) as [|z st] eqn:Ed; cbn in H1; [done|]. injection H1 as <- <-.
  rewrite st_bind_run in H2. cbn in H2. rewrite Ed in H2. inversion H2. eauto.
Qed.

Lemma condition_inv final e e1 : CheckErrorCondition final e = (Ok tt, e1) →
  ∃ x st, dstack e = x :: st ∧ asBool x = true ∧ e1 = set_dstack st e.
Proof.
  unfold CheckErrorCondition. intros (e2&e3&H2&H1)%bind_run. injection H2 as <- <-.
  apply ensure_run in H1 as (_&H1). apply ensure_run in H1 as (_&H1). apply ensure_run in H1 as (_&H1).
  unfold PopBool in H1. apply bind_run in H1 as (v&e2&H2&H1). apply bind_run in H2 as (x&e3&(st&Hst&->)%pop_inv&H2).
  inversion H2. subst v e2. unfold st_ensure in H1. destruct (asBool x) eqn:Ex; [|done]. inversion H1. by exists x, st.
Qed.

Lemma runs_hash more fuel e h st r :
  length h = 20%nat → length (scripts e) = 2%nat →
  execLoop more fuel (second e (p2sh h) st) = Some (Ok tt, r) →
  ∃ script rest, st = script :: rest ∧ Hash160 script = h ∧
    (script ≠ [] → ∃ more', more = S more' ∧ execLoop more' (length script) (third e script rest) = Some (Ok tt, r)).
Proof.
  intros Hh Hs Hrun. destruct e as [fl tx ix b16 scr si lcs tok sav ds as_ cs no]. unfold second, third in *. engine.
  eapply (runs_mid _ _ _ _ (mkTok (OP_DATA_20 :: h ++ [OP_EQUAL]) OP_HASH160 None false)) in Hrun; [|done|done].
  destruct Hrun as (e1&f1&->&Hx&Hrun1). apply exec_op in Hx; [|done|done]. apply bind_run in Hx as (script&e2&Hpop&Hx).
  apply pop_inv in Hpop as (rest&Hst&->). injection Hx as <-. engine. subst st.
  pose proof (Next_plain h [OP_EQUAL] OP_HASH160 None (plain_20 h Hh)) as Hn2. rewrite Hh in Hn2.
  eapply (runs_mid _ _ _ _ (mkTok [OP_EQUAL] OP_DATA_20 (Some h) false)) in Hrun1; [|exact Hn2|done].
  destruct Hrun1 as (e3&f3&->&Hx&Hrun3). apply exec_push in Hx; [|done|done]. subst e3. engine.
  eapply (runs_last _ _ _ _ (mkTok [] OP_EQUAL None false)) in Hrun3; [|done|done].
  destruct Hrun3 as (e4&e5&b&e6&Hx&_&H5&H6&H7). apply exec_op in Hx; [|done|done]. cbn [top] in Hx.
  apply bind_run in Hx as (a&e7&Ha&Hx). apply pop_inv in Ha as (st&Est&->). engine. injection Est as <- <-.
  apply bind_run in Hx as (b'&e7&Hb&Hx). apply pop_inv in Hb as (st&Est&->). engine. injection Est as <- <-.
  injection Hx as <-. unfold nextScript in H5. apply bind_run in H5 as (e7&e8&E8&H5). injection E8 as <- <-. engine.
  cbn [Nat.eqb andb] in H5. apply bind_run in H5 as ([]&e7&H5&H8). injection H5 as <-. engine.
  apply bind_run in H8 as ([]&e7&H5&H8). apply condition_inv in H5 as (x&st&Est&Hx&->). engine. injection Est as <- <-.
  case_bool_decide as Hhash; [|done]. apply ensure_run in H8 as (_&H8). injection H8 as <-. engine.
  exists script, rest. split; [done|]. split; [done|]. intros Hne.
  assert ((scr ++ [script]) !! 2%nat = Some script) as Hl2 by (rewrite <- Hs; by rewrite lookup_app_r, Nat.sub_diag by lia).
  unfold startScript in H6. apply bind_run in H6 as (e8&e9&E8&H6). injection E8 as <- <-. cbv zeta in H6. engine.
  rewrite Hl2 in H6. rewrite bool_decide_eq_false_2 in H6 by congruence. rewrite Hl2 in H6. inversion H6. subst b e6. engine.
  destruct H7 as [[? _]|(_&more'&->&H7)]; [done|]. exists more'. split; [done|].
  change (length script) with (length (trest (MakeScriptTokenizer script))). exact H7.
Qed.

(** ** The third script: the multisignature *)

Definition pushKeys (keys : list bytes) : bytes := concat ((fun k => OP_DATA_33 :: k) <$> keys).
Definition multisig (m : Z) (keys : list bytes) : bytes :=
  (OP_1 - 1 + m) :: pushKeys keys ++ [OP_1 - 1 + Z.of_nat (length keys); OP_CHECKMULTISIG].

Definition compressed (k : bytes) : Prop := length k = 33%nat ∧ (head k = Some 2 ∨ head k = Some 3).

Lemma plain_33 k : compressed k → plain_data k.
Proof. intros [Hk _]. unfold plain_data. rewrite Hk. lia. Qed.

Lemma pushKeys_length keys : Forall compressed keys → length (pushKeys keys) = (34 * length keys)%nat.
Proof. unfold pushKeys. induction 1 as [|k ks [Hk _] _ IH]; [done|]. cbn. rewrite length_app, IH, Hk. lia. Qed.

Lemma addKeys keys s :
  Forall compressed keys → Z.of_nat (length s) + 34 * Z.of_nat (length keys) + 76 ≤ MaxScriptSize →
  foldl AddData (mkBuilder s None) keys = mkBuilder (s ++ pushKeys keys) None.
Proof.
  intros Hk. revert s. induction Hk as [|k keys Hk _ IH]; intros s Hs; [by rewrite app_nil_r|].
  cbn [foldl]. rewrite AddData_plain; [|by apply plain_33|cbn in Hs; lia]. destruct Hk as [Hk _]. rewrite IH.
  - unfold pushKeys. cbn. rewrite Hk, <- app_assoc. done.
  - rewrite length_app. cbn. rewrite Hk. cbn in Hs. lia.
Qed.

(** The numbers a set of at most fifteen keys needs. *)
Lemma small_numbers n : 1 ≤ n ≤ 15 → scriptNumBytes n = [n] ∧ ∀ b, MakeScriptNum [n] b maxScriptNumLen = Ok n.
Proof.
  intros Hn. assert (Forall (fun n => scriptNumBytes n = [n] ∧ (∀ b, MakeScriptNum [n] b maxScriptNumLen = Ok n)) (seqZ 1 15)) as Hall.
  { repeat constructor; by intros []. }
  rewrite Forall_forall in Hall. apply Hall. apply elem_of_seqZ. lia.
Qed.

Lemma AddInt64_small s n : 1 ≤ n ≤ 15 → Z.of_nat (length s) + 1 ≤ MaxScriptSize → AddInt64 (mkBuilder s None) n = mkBuilder (s ++ [OP_1 - 1 + n]) None.
Proof.
  intros Hn Hs. unfold AddInt64. cbn. rewrite (proj2 (Z.ltb_ge _ _)) by lia. rewrite (proj2 (Z.eqb_neq n 0)) by lia.
  rewrite (proj2 (Z.leb_le 1 n)), (proj2 (Z.leb_le n 16)) by lia. by rewrite orb_true_r.
Qed.

Definition set_ok (s : signerSet) : Prop :=
  loadSigners (Required s) (pubKeys s) = Ok s ∧ Forall compressed (pubKeys s) ∧ (length (pubKeys s) ≤ 15)%nat.

Lemma redeem_multisig s : set_ok s → 1 ≤ Required s ≤ Z.of_nat (length (pubKeys s)) ∧ redeemScript s = multisig (Required s) (pubKeys s).
Proof.
  intros (Hl&Hk&Hn). unfold loadSigners in Hl. apply bind_Ok in Hl as ([]&[H1%Z.leb_le H2%Z.leb_le]%ensure_Ok%andb_prop&Hl).
  split; [done|]. apply bind_Ok in Hl as (redeem&Hm&[= Hs]). unfold MultiSigScript in Hm.
  rewrite (proj2 (Z.ltb_ge _ _)) in Hm by done. unfold NewScriptBuilder in Hm.
  rewrite AddInt64_small in Hm; [|lia|cbn; unfold MaxScriptSize; lia].
  rewrite addKeys in Hm; [|done|cbn; unfold MaxScriptSize; lia].
  pose proof (pushKeys_length _ Hk) as Hlen.
  rewrite AddInt64_small in Hm; [|lia|rewrite length_app; cbn; unfold MaxScriptSize; lia].
  rewrite AddOp_ok in Hm by (rewrite !length_app; cbn; unfold MaxScriptSize; lia). cbn in Hm. injection Hm as <-.
  rewrite <- Hs. cbn [redeemScript]. unfold multisig. cbn. by rewrite <- !app_assoc.
Qed.

Lemma Next_op op rest o d : opcodeLength op = 1 → Next (mkTok (op :: rest) o d false) = (true, mkTok rest op None false).
Proof. intros Hl. unfold Next. cbn. by rewrite Hl. Qed.

Lemma small_op n : 1 ≤ n ≤ 15 → opcodeLength (OP_1 - 1 + n) = 1 ∧ OP_1 - 1 + n ≤ OP_16 ∧ item (OP_1 - 1 + n) [] = [n].
Proof.
  intros Hn. assert (Forall (fun n => opcodeLength (OP_1 - 1 + n) = 1 ∧ OP_1 - 1 + n ≤ OP_16 ∧ item (OP_1 - 1 + n) [] = [n]) (seqZ 1 15)) as Hall
    by (repeat constructor; done).
  rewrite Forall_forall in Hall. apply Hall. apply elem_of_seqZ. lia.
Qed.

(** One more push, in the middle of a script. *)
Lemma runs_push more fuel e r t :
  condStack e = [] → Next (tokenizer e) = (true, t) → Done t = false → top t ≤ OP_16 →
  execLoop more fuel e = Some (Ok tt, r) →
  ∃ fuel', execLoop more fuel' (set_tokenizer t (set_dstack (item (top t) (default [] (tdata t)) :: dstack e) e)) = Some (Ok tt, r).
Proof.
  intros Hc Hn Hd Ht Hrun. destruct (runs_mid _ _ _ _ _ Hn Hd Hrun) as (e1&f&->&Hx&Hr). apply exec_push in Hx; [|done|done].
  subst e1. by exists f.
Qed.

Lemma runs_keys more fuel e r keys tail o d :
  condStack e = [] → Forall compressed keys → tail ≠ [] → tokenizer e = mkTok (pushKeys keys ++ tail) o d false →
  execLoop more fuel e = Some (Ok tt, r) →
  ∃ fuel' o' d', execLoop more fuel' (set_tokenizer (mkTok tail o' d' false) (set_dstack (reverse keys ++ dstack e) e)) = Some (Ok tt, r).
Proof.
  intros Hc Hk Ht. revert fuel e o d Hc. induction Hk as [|k keys Hk _ IH]; intros fuel e o d Hc Htok Hrun.
  { exists fuel, o, d. destruct e. engine. cbn in Htok. by subst. }
  assert (Next (tokenizer e) = (true, mkTok (pushKeys keys ++ tail) OP_DATA_33 (Some k) false)) as Hn.
  { rewrite Htok. unfold pushKeys. cbn. rewrite <- app_assoc.
    pose proof (Next_plain k (pushKeys keys ++ tail) o d (plain_33 k Hk)) as Hn. destruct Hk as [Hk _]. rewrite Hk in Hn. exact Hn. }
  eapply runs_push in Hrun; [|done|exact Hn|by destruct (pushKeys keys), tail|done]. destruct Hrun as [f Hrun].
  eapply IH in Hrun; [|by destruct e|by destruct e]. destruct Hrun as (f'&o'&d'&Hrun). exists f', o', d'.
  destruct e. engine. rewrite reverse_cons, <- app_assoc. exact Hrun.
Qed.

Lemma popMany_inv n e xs e1 : popMany n e = (Ok xs, e1) → ∃ st, dstack e = xs ++ st ∧ length xs = n ∧ e1 = set_dstack st e.
Proof.
  revert e xs e1. induction n as [|n IH]; intros e xs e1; cbn [popMany].
  { intros H1. inversion H1. exists (dstack e1). by destruct e1. }
  intros (x&e2&(st&Hst&->)%pop_inv&H1)%bind_run. apply bind_run in H1 as (ys&e3&(st'&Hst'&Hlen&->)%IH&H1). inversion H1. subst xs e1.
  exists st'. destruct e. engine. subst. done.
Qed.

Lemma popInt_small e n st x e1 : 1 ≤ n ≤ 15 → dstack e = [n] :: st → PopInt e = (Ok x, e1) → x = n ∧ e1 = set_dstack st e.
Proof.
  intros Hn Hd. unfold PopInt. intros (so&e2&(st'&Hst&->)%pop_inv&H1)%bind_run. rewrite Hd in Hst. injection Hst as <- <-.
  apply bind_run in H1 as (e3&e4&H3&H1). injection H3 as <- <-. destruct (small_numbers n Hn) as [_ Hm]. rewrite Hm in H1.
  by inversion H1.
Qed.

(** What OP_CHECKMULTISIG did, over its keys and numbers. *)
Lemma checkMultiSig_inv e e1 m keys st :
  1 ≤ m ≤ Z.of_nat (length keys) → (length keys ≤ 15)%nat →
  dstack e = [Z.of_nat (length keys)] :: keys ++ [m] :: st → opcodeCheckMultiSig e = (Ok tt, e1) →
  ∃ sigs dummy st' script success e2, st = sigs ++ dummy :: st' ∧ Z.of_nat (length sigs) = m ∧
    en_flags e2 = en_flags e ∧ en_tx e2 = en_tx e ∧ en_txIdx e2 = en_txIdx e ∧
    removeSigs e2 sigs (subScript e) = Ok script ∧ multiSigLoop e2 script keys sigs None = Ok success ∧
    dstack e1 = fromBool success :: st' ∧ frame e e1.
Proof.
  intros Hm Hk Hd Hx. assert (frame e e1) as Hfr by (eapply (frame_opfunc 174 []); exact Hx).
  assert (∀ z, 1 ≤ z ≤ 15 → clamp32 z = z) as Hcl by (intros z Hz; unfold clamp32; lia).
  unfold opcodeCheckMultiSig in Hx. apply bind_run in Hx as (n&e3&Hp&Hx). eapply (popInt_small _ (Z.of_nat (length keys))) in Hp as [Hn1 Hn2]; [|lia|exact Hd]. subst n e3.
  rewrite Hcl in Hx by lia. apply ensure_run in Hx as (_&Hx). apply bind_run in Hx as ([]&e3&H3&Hx). injection H3 as <-.
  apply bind_run in Hx as (e2&e3&H3&Hx). injection H3 as <- <-. apply ensure_run in Hx as (_&Hx).
  set (e2 := set_numOps _ _) in Hx. assert (dstack e2 = keys ++ [m] :: st) as Hd2 by (by destruct e).
  assert (en_flags e2 = en_flags e ∧ en_tx e2 = en_tx e ∧ en_txIdx e2 = en_txIdx e ∧ subScript e2 = subScript e) as (F1&F2&F3&F4) by (by destruct e).
  clearbody e2. apply bind_run in Hx as (ks&e3&(st1&Hst1&Hlen&->)%popMany_inv&Hx). rewrite Hd2 in Hst1.
  rewrite Nat2Z.id in Hlen. apply app_inj_1 in Hst1 as [<- <-]; [|done].
  apply bind_run in Hx as (m'&e3&Hp&Hx). eapply (popInt_small _ m st) in Hp as [Hn1 Hn2]; [|lia|by destruct e2]. subst m' e3.
  rewrite Hcl in Hx by lia. apply ensure_run in Hx as (_&Hx). apply bind_run in Hx as (sigs&e3&(st2&Hst2&Hlen2&->)%popMany_inv&Hx).
  apply bind_run in Hx as (dummy&e3&(st3&Hst3&->)%pop_inv&Hx). apply ensure_run in Hx as (_&Hx).
  apply lift_run in Hx as (script&Hrem&Hx). apply lift_run in Hx as (success&Hloop&Hx). apply ensure_run in Hx as (_&Hx).
  inversion Hx. subst e1. exists sigs, dummy, st3, script, success, e2. destruct e2. engine. subst. rewrite F4 in Hrem. split_and!; try done. lia.
Qed.

(** A signature counted for a key. *)
Definition checked (e : Engine) (script sig key : bytes) : Prop :=
  sig ≠ [] ∧ ∃ s k, parseSig e (removelast sig) = Some s ∧ ParsePubKey key = Some k ∧
    verifySig s k (calcSignatureHash script (default 0 (last sig)) (en_tx e) (en_txIdx e)) (removelast sig) key = true.

Lemma multiSigLoop_checked e script keys sigs memo :
  (∀ x s, memo = Some (Some s) → head sigs = Some x → parseSig e (removelast x) = Some s) →
  multiSigLoop e script keys sigs memo = Ok true →
  ∃ ks, sublist ks keys ∧ Forall2 (checked e script) sigs ks.
Proof.
  revert sigs memo. induction keys as [|key keys IH]; intros sigs memo Hm; destruct sigs as [|sig sigs]; cbn [multiSigLoop];
    try (intros _; exists []; split; [apply sublist_nil_l|constructor]); [done|].
  destruct (Nat.ltb _ _); [done|].
  assert (∀ memo', (∀ x s, memo' = Some (Some s) → head (sig :: sigs) = Some x → parseSig e (removelast x) = Some s) →
    multiSigLoop e script keys (sig :: sigs) memo' = Ok true → ∃ ks, sublist ks (key :: keys) ∧ Forall2 (checked e script) (sig :: sigs) ks) as Hskip.
  { intros memo' Hm' H1. destruct (IH _ _ Hm' H1) as (ks&Hs&Hf). exists ks. split; [by apply sublist_cons|done]. }
  case_bool_decide as Hne; [by apply Hskip|]. intros (parsed&Hp&H1)%bind_Ok.
  assert (∀ s, parsed = Some s → parseSig e (removelast sig) = Some s) as Hps.
  { intros s ->. destruct memo as [q|]; [injection Hp as ->; by apply (Hm sig s)|].
    apply bind_Ok in Hp as ([]&_&Hp). apply bind_Ok in Hp as ([]&_&Hp). by injection Hp. }
  destruct parsed as [s|]; [|by apply (Hskip (Some None))]. specialize (Hps s eq_refl).
  apply bind_Ok in H1 as ([]&_&H1).
  destruct (ParsePubKey key) as [k|] eqn:Ek; [|apply (Hskip (Some (Some s))); [by intros x s' [= <-] [= <-]|done]].
  destruct (verifySig _ _ _ _ _) eqn:Ev; [|apply (Hskip (Some (Some s))); [by intros x s' [= <-] [= <-]|done]].
  destruct (IH sigs None) as (ks&Hs&Hf); [done|done|]. exists (key :: ks). split; [by apply sublist_skip|].
  constructor; [|done]. split; [done|]. by exists s, k.
Qed.

Lemma opfunc_multisig data e : opfunc OP_CHECKMULTISIG data e = opcodeCheckMultiSig e.
Proof. done. Qed.

(** After the redeem script there is no other. *)
Lemma last_script e e2 b e3 :
  scriptIdx e = 2%nat → length (scripts e) = 3%nat → nextScript (set_numOps 0 (set_astack [] e)) = (Ok tt, e2) →
  startScript e2 = (Ok b, e3) → b = true ∧ dstack e3 = dstack e.
Proof.
  intros Hi Hs H2 H3. destruct e as [fl tx ix b16 scr si lcs tok sav ds as_ cs no]. engine. subst si.
  unfold nextScript in H2. apply bind_run in H2 as (e4&e5&E4&H2). injection E4 as <- <-. engine. cbn [Nat.eqb andb] in H2. injection H2 as <-.
  assert (scr !! 3%nat = None) as Hn by (apply lookup_ge_None; lia).
  unfold startScript in H3. apply bind_run in H3 as (e4&e5&E4&H3). injection E4 as <- <-. cbv zeta in H3. engine.
  rewrite Hn in H3. rewrite bool_decide_eq_false_2 in H3 by done. rewrite Hn in H3. by inversion H3.
Qed.

(** The redeem script ran to a true stack. *)
Lemma runs_multisig more fuel e m keys rest r r' :
  1 ≤ m ≤ Z.of_nat (length keys) → Forall compressed keys → (length keys ≤ 15)%nat → length (scripts e) = 2%nat →
  execLoop more fuel (third e (multisig m keys) rest) = Some (Ok tt, r) → CheckErrorCondition true r = (Ok tt, r') →
  ∃ sigs script e2, Z.of_nat (length sigs) = m ∧ en_flags e2 = en_flags e ∧ en_tx e2 = en_tx e ∧ en_txIdx e2 = en_txIdx e ∧
    removeSigs e2 sigs (multisig m keys) = Ok script ∧ multiSigLoop e2 script (reverse keys) sigs None = Ok true.
Proof.
  intros Hm Hk Hn Hs Hrun Hr.
  assert ((scripts e ++ [multisig m keys]) !! 2%nat = Some (multisig m keys)) as Hl2
    by (rewrite <- Hs; by rewrite lookup_app_r, Nat.sub_diag by lia).
  destruct (small_op m) as (L1&L2&L3); [lia|]. destruct (small_op (Z.of_nat (length keys))) as (N1&N2&N3); [lia|].
  eapply runs_push in Hrun; [|done|by apply Next_op|by destruct keys|done]. destruct Hrun as [f1 Hrun]. cbn [top tdata default] in Hrun. rewrite L3 in Hrun.
  eapply runs_keys in Hrun; [|done|exact Hk| |done]; [|done]. destruct Hrun as (f2&o&d&Hrun).
  eapply runs_push in Hrun; [|done|by apply Next_op|done|done]. destruct Hrun as [f3 Hrun]. cbn [top tdata default] in Hrun. rewrite N3 in Hrun.
  eapply (runs_last _ _ _ _ (mkTok [] OP_CHECKMULTISIG None false)) in Hrun; [|done|done].
  destruct Hrun as (e1&e3&b&e4&Hx&_&H3&H4&H5). apply exec_op in Hx; [|done|done].
  cbn [top] in Hx. rewrite opfunc_multisig in Hx.
  destruct e as [fl tx ix b16 scr si lcs tok sav ds as_ cs no]. unfold third in *. engine.
  eapply checkMultiSig_inv in Hx; [|rewrite <- (length_reverse keys) in Hm; exact Hm|by rewrite length_reverse|engine; by rewrite length_reverse].
  destruct Hx as (sigs&dummy&st'&script&success&e2&_&Hlen&F1&F2&F3&Hrem&Hloop&Hd&Hfr). 
  exists sigs, script, e2. unfold subScript in Hrem. cbn [scripts scriptIdx lastCodeSep set_numOps set_tokenizer set_dstack] in Hrem. rewrite Hl2 in Hrem. split_and!; [done..|].
  destruct success; [done|]. destruct Hfr as (_&_&_&_&Fs&Fi&_).
  eapply last_script in H4; [|exact Fi| |exact H3]; [|rewrite Fs; engine; rewrite length_app, Hs; done]. destruct H4 as [-> H4].
  destruct H5 as [[_ ->]|[? _]]; [|done]. apply condition_inv in Hr as (x&st&Ex&Hx&_). rewrite H4, Hd in Ex. by injection Ex as <- _.
Qed.

(** ** The script that is signed *)

(** The data of a token of a redeem script. *)
Definition plainToken (t : Z * bytes * bytes) : Prop := t.1.2 = [] ∨ compressed t.1.2.

Lemma tokens_op n op rest o d :
  opcodeLength op = 1 → (∀ n' o', Forall plainToken (tokensFrom n' (mkTok rest o' None false))) →
  Forall plainToken (tokensFrom n (mkTok (op :: rest) o d false)).
Proof.
  intros Hop Hr. destruct n as [|n]; [constructor|]. cbn [tokensFrom]. rewrite Next_op by done.
  constructor; [by left|apply Hr].
Qed.

Lemma tokens_keys n keys tail o d :
  Forall compressed keys → (∀ n' o' d', Forall plainToken (tokensFrom n' (mkTok tail o' d' false))) →
  Forall plainToken (tokensFrom n (mkTok (pushKeys keys ++ tail) o d false)).
Proof.
  intros Hk Ht. revert n o d. induction Hk as [|k keys Hk _ IH]; intros n o d; [apply Ht|].
  destruct n as [|n]; [constructor|]. cbn [tokensFrom].
  pose proof (Next_plain k (pushKeys keys ++ tail) o d (plain_33 k Hk)) as Hn. rewrite (proj1 Hk) in Hn.
  change (pushKeys (k :: keys)) with ((OP_DATA_33 :: k) ++ pushKeys keys). rewrite <- app_assoc. cbn [app].
  change (Z.of_nat 33) with OP_DATA_33 in Hn. rewrite Hn. constructor; [by right|apply IH].
Qed.

Lemma tokens_multisig m keys :
  1 ≤ m ≤ Z.of_nat (length keys) → Forall compressed keys → (length keys ≤ 15)%nat → Forall plainToken (tokens (multisig m keys)).
Proof.
  intros Hm Hk Hn. apply tokens_op; [apply small_op; lia|]. intros n1 o1. apply tokens_keys; [done|]. intros n2 o2 d2.
  apply tokens_op; [apply small_op; lia|]. intros n3 o3. apply tokens_op; [done|]. intros n4 o4. by rewrite tokensFrom_done.
Qed.

Lemma removeSigs_same e sigs script :
  Forall plainToken (tokens script) → Forall (fun sig => head sig = Some 48) sigs → removeSigs e sigs script = Ok script.
Proof.
  intros Ht Hs. induction Hs as [|sig sigs Hh _ IH]; cbn [removeSigs]; [done|].
  assert (removeOpcodeByData script sig = (script, false)) as ->; [|by rewrite andb_false_r].
  unfold removeOpcodeByData, removeTokens. case_bool_decide; [done|]. destruct (existsb _ _) eqn:E; [|done].
  apply existsb_exists in E as ([[op data] raw]&Hin&[_ Hd%bool_decide_eq_true]%andb_prop). subst data.
  apply list_elem_of_In in Hin. rewrite Forall_forall in Ht. destruct (Ht _ Hin) as [?|[_ Hc]]; cbn in *; [done|].
  rewrite Hh in Hc. by destruct Hc.
Qed.

(** ** An input that spends a coin of the set *)

Lemma pkScript_p2sh set : length (Hash160 (redeemScript set)) = 20%nat → signers_pkScript set = p2sh (Hash160 (redeemScript set)).
Proof.
  intros Hh. unfold signers_pkScript, p2shScript, pkScript, hash160Of. cbn [kind hash].
  change (destP2SH =? destP2SH) with true. cbv iota. unfold NewScriptBuilder. rewrite AddOp_ok by done.
  rewrite AddData_plain; [|by apply plain_20|done]. rewrite AddOp_ok; [|by rewrite length_app; cbn; rewrite Hh].
  cbn. by rewrite Hh.
Qed.

Lemma is_p2sh h : length h = 20%nat → isScriptHashScript (p2sh h) = true.
Proof. intros Hh. do 20 (destruct h as [|? h]; [discriminate Hh|]). destruct h; [by vm_compute|discriminate Hh]. Qed.

(** As many signatures as the set requires, each by a key of its own and over
    the input with the redeem script in place. *)
Definition spentBySigners (set : signerSet) (tx : MsgTx) (i : nat) : Prop :=
  ∃ sigs ks, Z.of_nat (length sigs) = Required set ∧ sublist ks (pubKeys set) ∧
    Forall2 (fun sig key => sig ≠ [] ∧
      goodSig (calcSignatureHash (redeemScript set) (default 0 (last sig)) tx i) (removelast sig) key) sigs ks.

Context `{GR : GoRuntime} {EO : EcdsaOk}.

Lemma parseSig_tag e sig s : parseSig e sig = Some s → head sig = Some 48.
Proof. unfold parseSig. destruct (_ || _); apply parseSig_head. Qed.

Lemma checked_tag e script sig key : checked e script sig key → head sig = Some 48.
Proof. intros (Hne&s&k&Hp&_). apply parseSig_tag in Hp. destruct sig as [|x [|y sig]]; [done|done|exact Hp]. Qed.

Lemma checked_good e script sig key :
  checked e script sig key →
  sig ≠ [] ∧ goodSig (calcSignatureHash script (default 0 (last sig)) (en_tx e) (en_txIdx e)) (removelast sig) key.
Proof.
  intros (Hne&s&k&Hp&Hk&Hv). split; [done|]. apply orb_prop in Hv as [(c&Hc&He)%sigCache_cached|Hv]; [by eapply cached_good|].
  exists s, k. split; [|done]. unfold parseSig in Hp. destruct (_ || _); eauto.
Qed.

Lemma multisig_signed set e r r' more fuel rest :
  set_ok set → length (scripts e) = 2%nat →
  execLoop more fuel (third e (redeemScript set) rest) = Some (Ok tt, r) → CheckErrorCondition true r = (Ok tt, r') →
  spentBySigners set (en_tx e) (en_txIdx e).
Proof.
  intros Hset Hs Hrun Hr. destruct (redeem_multisig set Hset) as [Hm Hred]. destruct Hset as (_&Hk&Hn). rewrite Hred in Hrun.
  destruct (runs_multisig _ _ _ _ _ _ _ _ Hm Hk Hn Hs Hrun Hr) as (sigs&script&e2&Hlen&_&Ht&Hi&Hrem&Hloop).
  apply multiSigLoop_checked in Hloop as (ks&Hsub&Hf); [|done].
  assert (script = redeemScript set) as ->.
  { rewrite Hred. rewrite removeSigs_same in Hrem; [by injection Hrem|by apply tokens_multisig|].
    clear -Hf EO. induction Hf as [|sig key sigs ks Hc _ IH]; constructor; [by eapply checked_tag|done]. }
  exists (reverse sigs), (reverse ks). rewrite length_reverse. split_and!; [done| |].
  - apply sublist_rev in Hsub. by rewrite reverse_involutive in Hsub.
  - apply Forall2_reverse. rewrite <- Ht, <- Hi. eapply Forall2_impl; [exact Hf|]. intros. by apply checked_good.
Qed.

(** No item of the signature script hashes as the redeem script without
    being it. *)
Definition only_preimage (set : signerSet) (sigScript : bytes) : Prop :=
  Forall (fun x => Hash160 x = Hash160 (redeemScript set) → x = redeemScript set) (pushed sigScript).

Context {CRO : CryptoOk}.

Lemma spend_signed set tx i ti flags e :
  set_ok set → hasFlagOf flags ScriptBip16 = true → txIn tx !! i = Some ti → only_preimage set (SignatureScript ti) →
  NewEngine (signers_pkScript set) tx i flags = Ok e → Execute e = Ok tt → spentBySigners set tx i.
Proof.
  intros Hset Hf Hti Hnc Hnew Hex. destruct (redeem_multisig set Hset) as [_ Hred].
  assert (redeemScript set ≠ []) as Hne by (rewrite Hred; done). set (h := Hash160 (redeemScript set)) in *.
  assert (length h = 20%nat) as Hh by apply ripemd160_length.
  rewrite pkScript_p2sh in Hnew by done. fold h in Hnew. unfold NewEngine in Hnew. rewrite Hti, Hf, is_p2sh in Hnew by done. cbn [from_option_err] in Hnew.
  rewrite bind_Ok_l in Hnew. apply bind_Ok in Hnew as ([]&_&Hnew). apply bind_Ok in Hnew as ([]&_&Hnew). apply bind_Ok in Hnew as ([]&_&Hnew).
  apply bind_Ok in Hnew as ([]&Hpo%ensure_Ok&Hnew). apply bind_Ok in Hnew as ([]&_&[= <-]).
  unfold Execute in Hex. destruct (execLoop _ _ _) as [[[[]|x] r]|] eqn:Hrun; [|done|done].
  destruct (CheckErrorCondition true r) as [z r'] eqn:Hr. cbn in Hex. subst z. set (sig := SignatureScript ti) in *.
  set (e := mkEngine _ _ _ _ _ _ _ _ _ _ _ _ _) in Hrun.
  assert (∃ more fuel st, Forall (fun x => Hash160 x = h → x = redeemScript set) st ∧
    execLoop more fuel (second e (p2sh h) st) = Some (Ok tt, r)) as (more&fuel&st&Hst&Hrun2).
  { destruct (decide (sig = [])) as [Hs|Hs].
    - exists 2%nat, (length (p2sh h)), []. split; [constructor|]. unfold e in *. rewrite bool_decide_eq_true_2 in * by done. exact Hrun.
    - assert (scriptIdx e = 0%nat ∧ tokenizer e = MakeScriptTokenizer sig) as [Hi Ht] by (unfold e; cbn; by rewrite bool_decide_eq_false_2).
      eapply (runs_pushes _ _ _ (length sig)) in Hrun as (more&st&_&->&Hrun); [|done|done|exact Hi|done|done|rewrite Ht; exact Hpo|by rewrite Ht].
      eexists _, _, _. split; [|exact Hrun]. rewrite Ht. cbn [dstack e]. rewrite app_nil_r. exact Hnc. }
  apply runs_hash in Hrun2 as (script&rest&->&Hsc&Hrun3); [|done|done].
  apply Forall_cons in Hst as [Hst _]. rewrite (Hst Hsc) in Hrun3. destruct (Hrun3 Hne) as (more'&_&Hrun4).
  by eapply (multisig_signed set e).
Qed.

(** ** A block that spends a coin of the set *)

Lemma validateInputs_Ok v flags tx k ins i ti :
  validateInputs v flags tx k ins = Ok tt → ins !! i = Some ti → Index (PreviousOutPoint ti) ≠ MaxPrevOutIndex →
  validateInput v flags tx (k + i) ti = Ok tt.
Proof.
  revert k i. induction ins as [|ti0 ins IH]; intros k i H1 Hi Hx; [done|]. cbn [validateInputs] in H1.
  apply bind_Ok in H1 as ([]&H0&H1). destruct i as [|i].
  - injection Hi as ->. rewrite (proj2 (Z.eqb_neq _ _) Hx) in H0. by rewrite Nat.add_0_r.
  - rewrite <- Nat.add_succ_comm. by apply IH.
Qed.

Lemma scripts_signed set txs v flags tx i ti utxo :
  set_ok set → hasFlagOf flags ScriptBip16 = true → validateScripts txs v flags = Ok tt →
  tx ∈ txs → txIn tx !! i = Some ti → Index (PreviousOutPoint ti) ≠ MaxPrevOutIndex → only_preimage set (SignatureScript ti) →
  LookupEntry v (PreviousOutPoint ti) = Some utxo → ue_pkScript utxo = signers_pkScript set → spentBySigners set tx i.
Proof.
  intros Hset Hf Hv Htx Hti Hx Hpre Hu Hpk. apply checkAll_Ok in Hv. rewrite Forall_forall in Hv. specialize (Hv tx Htx).
  apply (validateInputs_Ok _ _ _ _ _ i ti) in Hv; [|done|done]. unfold validateInput in Hv. rewrite Hu, Hpk in Hv. cbn [Nat.add] in Hv.
  destruct (NewEngine _ _ _ _) as [e|] eqn:En; [|done]. destruct (Execute e) as [[]|] eqn:Ee; [|done]. by eapply spend_signed.
Qed.

(** An output the view found keeps its script while transactions connect. *)
Definition holds (v : UtxoViewpoint) (op : OutPoint) (script : bytes) : Prop :=
  ∃ u, LookupEntry v op = Some u ∧ ue_pkScript u = script.

Lemma holds_spend l v v' cs op script : view_spend l v = Ok (v', cs) → holds v op script → holds v' op script.
Proof.
  revert v v' cs. induction l as [|ti l IH]; intros v v' cs E Hh; cbn [view_spend] in E; [by injection E as <- _|].
  destruct (LookupEntry v (PreviousOutPoint ti)) as [e|] eqn:Ee; [|done]. apply bind_Ok in E as ([v1 cs1]&E&[= <- _]).
  eapply IH; [exact E|]. destruct Hh as (u&Hu&Hs). destruct (decide (PreviousOutPoint ti = op)) as [<-|Hne].
  - exists (Spend e). unfold LookupEntry, setEntry. cbn. rewrite lookup_insert_eq. split; [done|]. rewrite Hu in Ee. injection Ee as <-.
    unfold Spend. by destruct (IsSpent u).
  - exists u. unfold LookupEntry, setEntry. cbn. by rewrite lookup_insert_ne.
Qed.

Lemma holds_outs tx h v op script : Hash op ≠ TxHash tx → holds v op script → holds (AddTxOuts tx h v) op script.
Proof.
  intros Hne Hh. unfold AddTxOuts. assert (Forall (fun x => x.1 ≠ op) (outsOf tx)) as Hall.
  { apply Forall_forall. intros [op' o] (i&?&[= -> ->]&_)%elem_of_lookup_imap. cbn. by intros <-. }
  revert v Hh. induction Hall as [|[op' o] l Hx _ IH]; intros v Hh; [done|]. cbn [foldl]. apply IH.
  unfold view_addTxOut. destruct (IsUnspendable _); [done|]. destruct Hh as (u&Hu&Hs). exists u.
  unfold LookupEntry, setEntry. cbn. by rewrite lookup_insert_ne.
Qed.

Lemma holds_connect p h l v fees v' fees' op script :
  Forall (fun tx => Hash op ≠ TxHash tx) l → connectChecked p h l v fees = Ok (v', fees') → holds v op script → holds v' op script.
Proof.
  intros Hl. revert v fees. induction Hl as [|tx l Hne _ IH]; intros v fees E Hh; cbn [connectChecked] in E; [by injection E as <- _|].
  apply bind_Ok in E as (fee&_&E). apply bind_Ok in E as ([]&_&E). apply bind_Ok in E as ([v1 cs]&E1&E).
  eapply IH; [exact E|]. unfold view_connectTransaction in E1. destruct (IsCoinBaseTx tx).
  - injection E1 as <- _. by apply holds_outs.
  - apply bind_Ok in E1 as ([v2 cs2]&E1&[= <- _]). apply holds_outs; [done|]. by eapply holds_spend.
Qed.

(** What the fetch loads of a coin that an input needs. *)
Lemma holds_fetch txs h best s U K v s' n tx op c :
  reps s U K → fetchInputUtxos txs h (NewUtxoViewpoint best) s = (Ok v, s') → U !! op = Some c →
  tail txs !! n = Some tx → op ∈ prevOuts tx → Forall (fun tx => Hash op ≠ TxHash tx) txs → holds v op (c_pkScript c).
Proof.
  intros HR E HU Hn Hop Hne. unfold fetchInputUtxos in E. pose proof (findInputs_spec txs h best) as Hf.
  destruct (findInputsToFetch _ _ _) as [v0 needed]. destruct Hf as [_ Hf].
  destruct (fetchUtxosFromCache_spec needed v0 s U K HR) as (r&s1&E1&_&_&[->|(v1&->&_&Hv1)]);
    rewrite E1 in E; inversion E. subst v1 s1. specialize (Hv1 op). rewrite decide_True in Hv1.
  - rewrite HU in Hv1. unfold Utxo.unspent in Hv1. destruct (LookupEntry v op) as [u|] eqn:Eu; [|done]. destruct (IsSpent u); [done|].
    injection Hv1 as <-. by exists u.
  - eapply Hf; [exact Hn|done|]. intros j Hj. apply inFlight_Some in Hj as (tx'&Htx'&Eh).
    apply list_elem_of_lookup_2 in Htx'. rewrite Forall_forall in Hne. by destruct (Hne tx' Htx').
Qed.

(** The flags scripts run under once BIP 16 is enforced. *)
Lemma rules_scripts w p H node nd b v :
  checkScriptRules (H := btcdScripts w) p H node nd b true false v = Ok tt →
  ∃ flags, hasFlagOf flags ScriptBip16 = true ∧ validateScripts (bl_Transactions b) v flags = Ok tt.
Proof.
  unfold checkScriptRules. cbv zeta. intros ([]&_&E)%bind_Ok. cbn [checkBlockScripts btcdScripts] in E. revert E.
  set (b1 := _ && _). set (b2 := _ && _). set (b3 := deploymentActive _ _ _ DeploymentCSV).
  set (b4 := deploymentActive _ _ _ DeploymentTaproot). set (flags := addFlag b4 _ _).
  assert (hasFlagOf flags ScriptBip16 = true ∧ hasFlagOf flags ScriptVerifyWitness = false) as [Hb Hw]
    by (unfold flags; clearbody b1 b2 b3 b4; destruct b1, b2, b3, b4; by vm_compute).
  rewrite Hw. eauto.
Qed.

Lemma connect_scripts w p H node nd b s U K v' s' n tx op c :
  reps s U K → BIP0034Height p ≤ bn_height nd → Bip16Activation ≤ bn_timestamp nd →
  deploymentActive p H (bn_parent nd) DeploymentSegwit = false →
  checkConnectBlock (H0 := btcdScripts w) p H node nd b (NewUtxoViewpoint (PrevBlock (bl_Header b))) s = (Ok v', s') →
  U !! op = Some c → tail (bl_Transactions b) !! n = Some tx → op ∈ prevOuts tx →
  Forall (fun tx => Hash op ≠ TxHash tx) (bl_Transactions b) →
  ∃ v flags, hasFlagOf flags ScriptBip16 = true ∧ validateScripts (bl_Transactions b) v flags = Ok tt ∧ holds v op (c_pkScript c).
Proof.
  intros HR Hbip H16 Hsw E HU Hn Hop Hne. unfold checkConnectBlock in E.
  apply ensure_run in E as (_&E). apply ensure_run in E as (_&E). rewrite (proj2 (Z.ltb_ge _ _) Hbip), andb_false_r in E.
  apply bind_run in E as (v0&s0&E0&E). inversion E0. subst v0 s0. apply bind_run in E as (v1&s1&E1&E). cbv zeta in E.
  rewrite (proj2 (Z.leb_le _ _) H16), Hsw in E. apply lift_run in E as (cost&_&E). apply lift_run in E as ([v2 fees]&E2&E).
  apply lift_run in E as ([]&_&E). apply lift_run in E as ([]&E3&_). apply rules_scripts in E3 as (flags&Hf&Hv).
  exists v2, flags. split_and!; [done|done|]. eapply holds_connect; [exact Hne|exact E2|]. by eapply holds_fetch.
Qed.

(** C7. A coin locked with the signers' script leaves the ledger only by
    signatures of the set: where a block passes the rules, its scripts run by
    btcd's engine, and one of its transactions has an input that spends such a
    coin, the input carries as many signatures as the set requires, each by
    another key of the set and each over that transaction with the redeem script
    in the input's place - unless the input pushes another preimage of the
    script's hash.  The signature cache changes nothing. *)
Theorem reserve_needs_signers w p H node nd b s U K v' s' n tx i ti c set :
  set_ok set → reps s U K → BIP0034Height p ≤ bn_height nd → Bip16Activation ≤ bn_timestamp nd →
  deploymentActive p H (bn_parent nd) DeploymentSegwit = false →
  checkConnectBlock (H0 := btcdScripts w) p H node nd b (NewUtxoViewpoint (PrevBlock (bl_Header b))) s = (Ok v', s') →
  tail (bl_Transactions b) !! n = Some tx → txIn tx !! i = Some ti → Index (PreviousOutPoint ti) ≠ MaxPrevOutIndex →
  U !! PreviousOutPoint ti = Some c → c_pkScript c = signers_pkScript set →
  Forall (fun tx => Hash (PreviousOutPoint ti) ≠ TxHash tx) (bl_Transactions b) → only_preimage set (SignatureScript ti) →
  spentBySigners set tx i.
Proof.
  intros Hset HR Hbip H16 Hsw E Hn Hti Hx HU Hpk Hne Hpre.
  assert (PreviousOutPoint ti ∈ prevOuts tx) as Hop by (apply list_elem_of_fmap; exists ti; eauto using list_elem_of_lookup_2).
  destruct (connect_scripts _ _ _ _ _ _ _ _ _ _ _ _ _ _ _ HR Hbip H16 Hsw E HU Hn Hop Hne) as (v&flags&Hf&Hv&u&Hu&Hs).
  eapply scripts_signed; [done|done|exact Hv| |done..|by rewrite Hs].
  apply list_elem_of_lookup_2 in Hn. destruct (bl_Transactions b); [done|by right].
Qed.
End spend.

Module Samples.

#[local] Existing Instance toyCrypto.
#[local] Existing Instance toyCrypto_ok.
#[local] Existing Instance goRuntime.

(** Signatures that depend on the hash and on the key, in the form DER has. *)
Definition toySign (hash key : bytes) : bytes := [48; 6; 2; 1; 1 + mix hash mod 100; 2; 1; key !!! 1%nat].

#[local] Instance toyEcdsa : Ecdsa := {|
  PublicKey := bytes; sha1 := sha256;
  ParsePubKey key := if Nat.eqb (length key) 33 then Some key else None;
  ecdsa_Verify s hash key := bool_decide (s = (1 + mix hash mod 100, key !!! 1%nat));
  sigCache_Exists _ _ _ := false |}.

#[local] Instance toyEcdsa_ok : EcdsaOk.
Proof. done. Qed.

Definition keys : list bytes := (fun i => 2 :: replicate 32 i) <$> [1; 2; 3].
Definition two : signerSet := match loadSigners 2 keys with Ok s => s | Err _ => mkSignerSet 0 [] [] end.

Lemma two_ok : set_ok two.
Proof. split_and!; [by vm_compute| |by vm_compute; lia]. repeat constructor. Qed.

(** A coin of the set, and the payment the first and the third signer make. *)
Definition coinOp : OutPoint := mkOutPoint (replicate 32 7) 0.
Definition coin1 : coin := mkCoin 1000 (signers_pkScript two) 1 false.
Definition unsigned : MsgTx := mkMsgTx 1 [NewTxIn coinOp [] []] [mkTxOut 900 [81]] 0.
Definition signature (key : bytes) : bytes := toySign (calcSignatureHash (redeemScript two) 1 unsigned 0) key ++ [1].
Definition sigs : gmap nat (list bytes) :=
  {[ 0%nat := [signature (keys !!! 0%nat)]; 2%nat := [signature (keys !!! 2%nat)] ]}.
Definition payment : MsgTx :=
  match assembleInputs (chosenSigners two sigs) sigs 0 (txIn unsigned) [redeemScript two] with
  | Ok ins => mkMsgTx 1 ins (txOut unsigned) 0
  | Err _ => unsigned
  end.

Definition start : Z := 1790200000.
Definition params : Params := dogecoinVMParams [9] None.
Definition root : blockNode := mkNode None None zeroHash 0 0 4 486604799 0 start [2] 0.
Definition second_ : blockNode := mkNode (Some 0%nat) (Some 0%nat) [3] 1 1 4 486604799 0 (start + 1) [2] 0.
Definition tree : heap := {[ 0%nat := root; 1%nat := second_ ]}.
Definition coinbase : MsgTx := mkMsgTx 1 [NewTxIn (mkOutPoint zeroHash MaxPrevOutIndex) [1; 1] []] [mkTxOut 100 [81]] 0.
Definition block : MsgBlock := mkBlock (mkHeader 4 zeroHash [2] (start + 1) 486604799 0) [coinbase; payment].
Definition cache : utxoCache := mkCache [∅] [4] zeroHash {[ coinOp := coin1 ]} None [] [] [].
Definition connected : result UtxoViewpoint * utxoCache :=
  checkConnectBlock (H0 := btcdScripts (fun _ _ _ => Ok tt)) params tree 1 second_ block (NewUtxoViewpoint zeroHash) cache.

Lemma block_connects : match connected.1 with Ok _ => true | Err _ => false end = true.
Proof. vm_compute. reflexivity. Qed.

Lemma cache_reps : reps cache {[ coinOp := coin1 ]} {[ Hash coinOp ]}.
Proof.
  apply reps_empty; [by vm_compute|done|by intros op; unfold cache; cbn; rewrite lookup_empty|].
  intros op [c [<- _]%lookup_singleton_Some]. set_solver.
Qed.

Definition paidIn : TxIn := default (NewTxIn coinOp [] []) (txIn payment !! 0%nat).

Lemma paid_first : txIn payment !! 0%nat = Some paidIn.
Proof. vm_compute. reflexivity. Qed.

Lemma payment_preimage : only_preimage two (SignatureScript paidIn).
Proof.
  assert (forallb (fun x => negb (bool_decide (Hash160 x = Hash160 (redeemScript two))) || bool_decide (x = redeemScript two))
    (pushed (SignatureScript paidIn)) = true) as Hall by (vm_compute; reflexivity).
  rewrite forallb_forall in Hall. apply Forall_forall. intros x Hx%list_elem_of_In E. specialize (Hall x Hx).
  rewrite (bool_decide_eq_true_2 _ E) in Hall. by apply bool_decide_eq_true in Hall.
Qed.

Lemma payment_fresh : Forall (fun tx => Hash (PreviousOutPoint paidIn) ≠ TxHash tx) (bl_Transactions block).
Proof. apply (bool_decide_unpack _). vm_compute. exact I. Qed.

Lemma paid_coin : PreviousOutPoint paidIn = coinOp.
Proof. vm_compute. reflexivity. Qed.

(** The block of the payment connects, so it has the two signatures. *)
Lemma reserve_needs_signers_witness : spentBySigners two payment 0.
Proof.
  pose proof block_connects as E. destruct connected as [[v|x] s] eqn:Ec; [|discriminate E].
  apply (reserve_needs_signers (fun _ _ _ => Ok tt) params tree 1 second_ block cache {[ coinOp := coin1 ]} {[ Hash coinOp ]} v s 0 payment 0
    paidIn coin1 two).
  - exact two_ok.
  - exact cache_reps.
  - vm_compute. discriminate.
  - vm_compute. discriminate.
  - vm_compute. reflexivity.
  - exact Ec.
  - reflexivity.
  - exact paid_first.
  - rewrite paid_coin. discriminate.
  - rewrite paid_coin. apply lookup_singleton_eq.
  - reflexivity.
  - exact payment_fresh.
  - exact payment_preimage.
Defined.
End Samples.
