(* ===== verification/Redeem.v ===== *)
(** * What the signers assemble spends

    The other half of [Spend]: a transaction completed with the signatures of
    enough signers ([assemble], src/cmd/dogevm/signers.go) runs through btcd's
    engine, whatever the flags of a block, so a coin of the set can be spent. *)

From Stdlib Require Import String.
From S2P Require Import Prelude Text Wire Runtime Script Chain Versionbits Utxo Validate Engine Tags Peg Spend.

(** ** Running forward *)

Lemma bind_go {S A B} (m : St S B) (f : B → St S A) s x s1 : m s = (Ok x, s1) → (m ≫= f) s = f x s1.
Proof. intros E. by rewrite st_bind_run, E. Qed.

Lemma ensure_go {S A} b x (f : unit → St S A) s : b = true → (st_ensure b x ≫= f) s = f tt s.
Proof. by intros ->. Qed.

Lemma lift_go {S A B} (m : result B) (f : B → St S A) s x : m = Ok x → (st_lift m ≫= f) s = f x s.
Proof. by intros ->. Qed.

Section redeem.
Context `{CR : Crypto} `{EC : Ecdsa}.

(** An engine in the middle of its scripts with room on its stack. *)
Definition runnable (n : nat) (e : Engine) : Prop :=
  (scriptIdx e < length (scripts e))%nat ∧ condStack e = [] ∧ Z.of_nat (length (dstack e) + n + length (astack e)) ≤ MaxStackSize.

Lemma fwd_mid more fuel e t e1 res :
  Next (tokenizer e) = (true, t) → Done t = false → runnable 0 e →
  executeOpcode (top t) (default [] (tdata t)) (set_tokenizer t e) = (Ok tt, e1) →
  Z.of_nat (length (dstack e1) + length (astack e1)) ≤ MaxStackSize →
  execLoop more fuel e = Some res → ∃ f, execLoop more f e1 = Some res.
Proof.
  intros Hn Hd (Hi&_&_) Hx Hs. destruct fuel as [|fuel]; [by destruct more|]. rewrite execLoop_S.
  assert (Step e = (Ok false, e1)) as ->.
  { unfold Step. erewrite bind_go by reflexivity. rewrite ensure_go by by apply Nat.ltb_lt. rewrite Hn.
    erewrite bind_go by reflexivity. erewrite bind_go by exact Hx. erewrite bind_go by reflexivity.
    rewrite ensure_go by by apply Z.leb_le. by rewrite Hd. }
  destruct (frame_executeOpcode _ _ _ _ _ Hx) as (_&_&_&_&_&Ei&_). rewrite Ei. cbn. rewrite Nat.eqb_refl. eauto.
Qed.

Lemma fwd_last more fuel e t e1 e2 b e3 res :
  Next (tokenizer e) = (true, t) → Done t = true → runnable 0 e →
  executeOpcode (top t) (default [] (tdata t)) (set_tokenizer t e) = (Ok tt, e1) →
  Z.of_nat (length (dstack e1) + length (astack e1)) ≤ MaxStackSize → condStack e1 = [] →
  nextScript (set_numOps 0 (set_astack [] e1)) = (Ok tt, e2) → startScript e2 = (Ok b, e3) →
  execLoop more fuel e = Some res →
  if b then res = (Ok tt, e3) else ∃ more' f, execLoop more' f e3 = Some res.
Proof.
  intros Hn Hd (Hi&_&_) Hx Hs Hc H2 H3. destruct fuel as [|fuel]; [by destruct more|]. rewrite execLoop_S.
  assert (Step e = (Ok b, e3)) as ->.
  { unfold Step. erewrite bind_go by reflexivity. rewrite ensure_go by by apply Nat.ltb_lt. rewrite Hn.
    erewrite bind_go by reflexivity. erewrite bind_go by exact Hx. erewrite bind_go by reflexivity.
    rewrite ensure_go by by apply Z.leb_le. rewrite Hd. cbn [negb]. rewrite ensure_go by by rewrite Hc.
    erewrite bind_go by reflexivity. erewrite bind_go by exact H2. exact H3. }
  destruct b; [by intros [= <-]|]. destruct (Nat.eqb _ _); [eauto|]. destruct more; [done|eauto].
Qed.

(** ** Scripts as lists of instructions *)

(** The bytes, the opcode and the data of one. *)
Notation instr := (bytes * Z * option bytes)%type.

Definition reads (x : instr) : Prop :=
  ∀ rest o d, Next (mkTok (x.1.1 ++ rest) o d false) = (true, mkTok rest x.1.2 x.2 false).

Definition itemOf (x : instr) : bytes := item x.1.2 (default [] x.2).

(** A push of as few bytes as there are. *)
Definition pushes (x : instr) : Prop :=
  reads x ∧ 0 ≤ x.1.2 ≤ OP_16 ∧ x.1.2 ≠ 80 ∧ Z.of_nat (length (default [] x.2)) ≤ MaxScriptElementSize ∧
  (x.1.2 ≤ OP_PUSHDATA4 → checkMinimalDataPush x.1.2 (default [] x.2) = Ok tt).

Definition code (prog : list instr) : bytes := concat ((fun x => x.1.1) <$> prog).

Lemma exec_pushes x e : pushes x → condStack e = [] →
  executeOpcode x.1.2 (default [] x.2) e = (Ok tt, set_dstack (itemOf x :: dstack e) e).
Proof.
  destruct x as [[raw op] data]. intros (_&Hop&Hne&Hl&Hm) Hc. cbn [fst snd] in *. unfold executeOpcode, itemOf. cbn [fst snd].
  set (dt := default [] data) in *. clearbody dt. unfold isOpcodeDisabled, isOpcodeAlwaysIllegal.
  rewrite !ensure_go by (unfold OP_16 in *; lia). rewrite (proj2 (Z.ltb_ge _ _)) by lia.
  rewrite ensure_go by by apply Z.leb_le. erewrite bind_go by reflexivity. unfold isBranchExecuting at 1. rewrite Hc. cbn [negb andb].
  rewrite (lift_go _ _ _ tt).
  2: { destruct (Z.leb_spec op OP_PUSHDATA4); [|by rewrite andb_false_r]. rewrite (Hm ltac:(done)). by case_match. }
  unfold opfunc, item, OP_0, OP_1NEGATE, OP_PUSHDATA4, OP_1, OP_16 in *.
  destruct (Z.eqb_spec op 0); [done|]. destruct (Z.leb_spec 1 op); [|lia]. destruct (Z.leb_spec op 78); [done|]. cbn [andb].
  rewrite (proj2 (Z.leb_le op 96)) by lia. rewrite andb_true_r. destruct (Z.leb_spec 81 op).
  - by rewrite (proj2 (Z.eqb_neq op 79)) by lia.
  - assert (op = 79) as -> by lia. done.
Qed.

(** *** Which pushes there are *)

Lemma pushes_0 : pushes ([OP_0], OP_0, None).
Proof. by split_and!. Qed.

Lemma pushes_small n : 1 ≤ n ≤ 15 → pushes ([OP_1 - 1 + n], OP_1 - 1 + n, None).
Proof.
  intros Hn. destruct (small_op n Hn) as (L1&L2&_). unfold OP_1 in *. split_and!; cbn [fst snd default]; [|lia|done|lia|done|].
  - intros rest o d. by apply Next_op.
  - intros ?. unfold OP_PUSHDATA4 in *. lia.
Qed.

Lemma Next_pushdata op w data rest o d :
  opcodeLength op = - Z.of_nat w → (1 ≤ w ≤ 2)%nat → Z.of_nat (length data) < 256 ^ Z.of_nat w →
  Next (mkTok (op :: le_bytes w (Z.of_nat (length data)) ++ data ++ rest) o d false) = (true, mkTok rest op (Some data) false).
Proof.
  intros Hop Hw Hd. unfold Next. cbn [Done trest terr orb]. rewrite Hop. rewrite (proj2 (Z.eqb_neq _ 1)), (proj2 (Z.ltb_ge 1 _)) by lia.
  rewrite Z.opp_involutive, Nat2Z.id. rewrite (proj2 (Z.ltb_ge _ _)) by (rewrite length_app, le_bytes_length; lia).
  pose proof (le_bytes_length w (Z.of_nat (length data))) as Hl. rewrite (take_app_length' _ _ w), (drop_app_length' _ _ w) by done.
  rewrite le_Z_le_bytes by lia.
  assert (256 ^ Z.of_nat w ≤ 65536) by (change 65536 with (256 ^ 2); apply Z.pow_le_mono_r; lia).
  unfold int32_of. rewrite (proj2 (Z.ltb_lt (Z.of_nat (length data)) 2147483648)) by lia.
  rewrite (proj2 (Z.ltb_ge _ _)), (proj2 (Z.ltb_ge _ 0)) by (try rewrite length_app; lia). cbn [orb].
  by rewrite Nat2Z.id, drop_app_length, take_app_length.
Qed.

(** The data a builder adds. *)
Lemma pushes_data data : (2 ≤ length data ≤ 520)%nat → ∃ op, pushes (pushBytes data, op, Some data) ∧ itemOf (pushBytes data, op, Some data) = data.
Proof.
  intros Hd. assert (∀ op, 1 ≤ op ≤ 78 → itemOf (pushBytes data, op, Some data) = data) as Hi.
  { intros op Hop. unfold itemOf, item. cbn [fst snd from_option id]. rewrite (proj2 (Z.eqb_neq _ _)) by (unfold OP_0; lia).
    by rewrite (proj2 (Z.leb_le op OP_PUSHDATA4)) by (unfold OP_PUSHDATA4; lia). }
  assert (∀ op, 1 ≤ op ≤ 78 → reads (pushBytes data, op, Some data) →
    op = (if Z.of_nat (length data) <=? 75 then Z.of_nat (length data) else if Z.of_nat (length data) <=? 255 then 76 else 77) →
    ∃ op, pushes (pushBytes data, op, Some data) ∧ itemOf (pushBytes data, op, Some data) = data) as Hok.
  { intros op Hop Hr Eop. exists op. split; [|by apply Hi]. unfold pushes, OP_16, MaxScriptElementSize. cbn [fst snd from_option id].
    split_and!; [done|lia|lia|lia|lia|]. intros _. unfold checkMinimalDataPush, OP_0, OP_PUSHDATA1, OP_PUSHDATA2.
    rewrite !(proj2 (Z.eqb_neq (Z.of_nat (length data)) _)) by lia. cbn [andb].
    destruct (Z.leb_spec (Z.of_nat (length data)) 75); [by rewrite Eop, Z.eqb_refl|].
    destruct (Z.leb_spec (Z.of_nat (length data)) 255); [by subst|]. by rewrite (proj2 (Z.leb_le _ 65535)) by lia; subst. }
  destruct (Z.leb_spec (Z.of_nat (length data)) 75); [|destruct (Z.leb_spec (Z.of_nat (length data)) 255)].
  - apply (Hok (Z.of_nat (length data))); [lia| |done]. intros rest o d. cbn [fst snd]. rewrite pushBytes_plain by (unfold plain_data; lia).
    apply Next_plain. unfold plain_data. lia.
  - apply (Hok 76); [lia| |done]. intros rest o d. cbn [fst snd]. unfold pushBytes, OP_PUSHDATA1.
    rewrite !(proj2 (Z.eqb_neq (Z.of_nat (length data)) _)) by lia. cbn [orb andb].
    rewrite (proj2 (Z.ltb_ge _ _)), (proj2 (Z.leb_le _ 255)) by lia. rewrite <- app_assoc.
    pose proof (Next_pushdata 76 1 data rest o d) as Hn. rewrite <- Hn; [|done|lia|lia]. cbn [le_bytes app].
    do 3 f_equal. cbn. rewrite Z.mod_small by lia. done.
  - apply (Hok 77); [lia| |done]. intros rest o d. cbn [fst snd]. unfold pushBytes, OP_PUSHDATA1, OP_PUSHDATA2.
    rewrite !(proj2 (Z.eqb_neq (Z.of_nat (length data)) _)) by lia. cbn [orb andb].
    rewrite (proj2 (Z.ltb_ge _ _)), (proj2 (Z.leb_gt _ 255)), (proj2 (Z.leb_le _ 65535)) by lia. rewrite <- app_assoc.
    apply (Next_pushdata 77 2); [done|lia|cbn; lia].
Qed.

(** ** Running pushes *)

Lemma reads_nonempty x : reads x → x.1.1 ≠ [].
Proof. intros Hr E. pose proof (Hr [] 0 None) as Hn. rewrite E in Hn. discriminate Hn. Qed.

Lemma fwd_pushes more fuel e prog tail o d res :
  Forall pushes prog → tail ≠ [] → tokenizer e = mkTok (code prog ++ tail) o d false → runnable (length prog) e →
  execLoop more fuel e = Some res →
  ∃ f o' d', execLoop more f (set_tokenizer (mkTok tail o' d' false) (set_dstack (reverse (itemOf <$> prog) ++ dstack e) e)) = Some res.
Proof.
  intros Hp Ht. revert fuel e o d. induction Hp as [|x prog Hx Hp IH]; intros fuel e o d Htok Hr Hrun.
  { exists fuel, o, d. destruct e. engine. cbn in Htok. by subst. }
  assert (Next (tokenizer e) = (true, mkTok (code prog ++ tail) x.1.2 x.2 false)) as Hn.
  { rewrite Htok. unfold code. cbn. rewrite <- app_assoc. apply Hx. }
  destruct Hr as (Hi&Hc&Hl). cbn [length] in Hl. eapply fwd_mid in Hrun; [|exact Hn|by destruct (code prog), tail|split_and!; [done|done|lia]|..].
  2: { cbn [top tdata]. apply exec_pushes; [done|exact Hc]. }
  2: { destruct e. engine. cbn [length]. lia. }
  destruct Hrun as [f Hrun]. eapply IH in Hrun; [|by destruct e|split_and!; destruct e; engine; [done|done|cbn [length]; lia]].
  destruct Hrun as (f'&o'&d'&Hrun). exists f', o', d'. destruct e. engine. cbn [fmap list_fmap]. rewrite reverse_cons, <- app_assoc. exact Hrun.
Qed.

(** A script of instructions parses, and is push-only if they push. *)
Lemma parse_code k prog o d : Forall reads prog → terr (parseLoop k (mkTok (code prog) o d false)) = false.
Proof.
  intros Hp. revert k o d. induction Hp as [|x prog Hx Hp IH]; intros [|k] o d; try done.
  cbn [parseLoop]. unfold code. cbn. rewrite Hx. apply IH.
Qed.

Lemma parses_code prog : Forall reads prog → checkScriptParses (code prog) = true.
Proof. intros Hp. unfold checkScriptParses, MakeScriptTokenizer. by rewrite parse_code. Qed.

Lemma code_length prog : Forall reads prog → (length prog ≤ length (code prog))%nat.
Proof.
  induction 1 as [|x prog Hx Hp IH]; [done|]. unfold code. cbn. rewrite length_app. apply reads_nonempty in Hx.
  destruct (x.1.1); [done|]. cbn. unfold code in IH. lia.
Qed.

Lemma pushOnly_code k prog o d : Forall pushes prog → (length prog < k)%nat → pushOnlyLoop k (mkTok (code prog) o d false) = true.
Proof.
  intros Hp. revert k o d. induction Hp as [|x prog Hx Hp IH]; intros k o d Hk; destruct k as [|k]; try (cbn in Hk; lia); [done|].
  cbn [pushOnlyLoop]. destruct Hx as (Hx&[_ H16]&_). unfold code. cbn [fmap list_fmap concat]. rewrite Hx. cbn [top].
  rewrite (proj2 (Z.ltb_ge _ _)) by done. apply IH. cbn in Hk. lia.
Qed.

Lemma pushes_reads prog : Forall pushes prog → Forall reads prog.
Proof. intros Hp. eapply Forall_impl; [exact Hp|]. by intros x [Hx _]. Qed.

(** The first script, of pushes, and the second with the stack it left. *)
Lemma fwd_first more fuel e prog x pk res :
  Forall pushes prog → pushes x → (length prog ≤ 100)%nat → pk ≠ [] → bip16 e = true → scripts e = [code (prog ++ [x]); pk] →
  scriptIdx e = 0%nat → tokenizer e = MakeScriptTokenizer (code (prog ++ [x])) → condStack e = [] → dstack e = [] → astack e = [] →
  execLoop more fuel e = Some res →
  ∃ more' f, execLoop more' f (second e pk (itemOf x :: reverse (itemOf <$> prog))) = Some res.
Proof.
  intros Hp Hx Hlen Hpk Hb Hs Hi Ht Hc Hd Ha Hrun. unfold code in Ht. rewrite fmap_app, concat_app in Ht. cbn in Ht. rewrite app_nil_r in Ht.
  eapply (fwd_pushes _ _ _ prog x.1.1) in Hrun; [|done|by apply reads_nonempty, Hx|exact Ht|].
  2: { split_and!; [by rewrite Hs, Hi; cbn; lia|done|]. rewrite Hd, Ha. cbn. unfold MaxStackSize. lia. }
  destruct Hrun as (f&o&d&Hrun). destruct e as [fl tx ix b16 scr si lcs tok sav ds as_ cs no]. unfold second in *. engine. subst.
  eapply (fwd_last _ _ _ (mkTok [] x.1.2 x.2 false) _ _ false) in Hrun; [exact Hrun|..].
  - engine. pose proof (proj1 Hx [] o d) as Hn. rewrite app_nil_r in Hn. exact Hn.
  - done.
  - split_and!; engine; [cbn; lia|done|]. rewrite app_nil_r, length_reverse, length_fmap. cbn. unfold MaxStackSize. lia.
  - cbn [top tdata]. apply exec_pushes; done.
  - engine. cbn [length]. rewrite app_nil_r, length_reverse, length_fmap. cbn. unfold MaxStackSize. lia.
  - done.
  - unfold nextScript. erewrite bind_go by reflexivity. engine. cbn [Nat.eqb andb]. reflexivity.
  - unfold startScript. erewrite bind_go by reflexivity. engine. cbn [lookup list_lookup]. rewrite bool_decide_eq_false_2 by congruence.
    erewrite bind_go by reflexivity. cbn [lookup list_lookup]. engine. rewrite app_nil_r. reflexivity.
Qed.

(** ** The second script *)

Lemma exec_go op data e :
  OP_16 < op → isOpcodeDisabled op = false → isOpcodeAlwaysIllegal op = false → condStack e = [] → numOps e + 1 ≤ MaxOpsPerScript →
  executeOpcode op data e = opfunc op data (set_numOps (numOps e + 1) e).
Proof.
  intros Hop Hd Hi Hc Hn. unfold executeOpcode. rewrite Hd, Hi. rewrite !ensure_go by done. rewrite (proj2 (Z.ltb_lt _ _) Hop).
  erewrite (bind_go (_ ≫= _)). 2: { erewrite bind_go by reflexivity. erewrite bind_go by reflexivity.
    unfold st_ensure. cbn [numOps set_numOps]. by rewrite (proj2 (Z.leb_le _ _) Hn). }
  erewrite bind_go by reflexivity. destruct e. engine. subst. cbn [isBranchExecuting Engine.condStack negb andb].
  rewrite (lift_go _ _ _ tt); [done|]. unfold OP_16, OP_PUSHDATA4 in *. by rewrite (proj2 (Z.leb_gt op 78)), andb_false_r by lia.
Qed.

Lemma pop_go e x st : dstack e = x :: st → PopByteArray e = (Ok x, set_dstack st e).
Proof.
  intros Hd. unfold PopByteArray, nipN, PeekByteArray. erewrite bind_go.
  2: { erewrite bind_go by reflexivity. rewrite Hd. reflexivity. }
  erewrite bind_go by reflexivity. cbn. by rewrite Hd.
Qed.

Lemma condition_go final e x : length (scripts e) = scriptIdx e → dstack e = [x] ∨ final = false ∧ head (dstack e) = Some x →
  asBool x = true → CheckErrorCondition final e = (Ok tt, set_dstack (tail (dstack e)) e).
Proof.
  intros Hs Hd Hx. unfold CheckErrorCondition. erewrite bind_go by reflexivity. rewrite ensure_go by (apply Nat.leb_le; lia).
  rewrite ensure_go by (destruct Hd as [-> | [-> _]]; cbn; by rewrite ?andb_false_r).
  assert (∃ st, dstack e = x :: st) as [st Est] by (destruct Hd as [-> | [_ Hd]]; [eauto|]; destruct (dstack e); [done|]; injection Hd as ->; eauto).
  rewrite ensure_go by by rewrite Est. unfold PopBool. erewrite bind_go. 2: { erewrite bind_go by by apply pop_go. reflexivity. }
  rewrite Hx, Est. done.
Qed.

Lemma fwd_hash more fuel e script rest res :
  length (Hash160 script) = 20%nat → length (scripts e) = 2%nat → script ≠ [] → checkScriptParses script = true → (length rest ≤ 100)%nat →
  execLoop more fuel (second e (p2sh (Hash160 script)) (script :: rest)) = Some res →
  ∃ more' f, execLoop more' f (third e script rest) = Some res.
Proof.
  intros Hh Hs Hne Hpar Hlen Hrun. set (h := Hash160 script) in *.
  assert (((scripts e ++ [script]) : list bytes) !! 2%nat = Some script) as Hl2 by (rewrite <- Hs; by rewrite lookup_app_r, Nat.sub_diag by lia).
  destruct e as [fl tx ix b16 scr si lcs tok sav ds as_ cs no]. unfold second, third in *. engine.
  eapply (fwd_mid _ _ _ (mkTok (OP_DATA_20 :: h ++ [OP_EQUAL]) OP_HASH160 None false)) in Hrun; [|done|done|..].
  2: { split_and!; engine; [rewrite Hs; lia|done|cbn; unfold MaxStackSize; lia]. }
  2: { rewrite exec_go by done. change (opfunc _ _) with (hashWith Hash160). unfold hashWith. erewrite bind_go by (apply pop_go; reflexivity). reflexivity. }
  2: { engine. cbn. unfold MaxStackSize. lia. }
  destruct Hrun as [f1 Hrun]. engine. fold h in Hrun.
  assert (pushes (OP_DATA_20 :: h, OP_DATA_20, Some h)) as Hpush.
  { split_and!; [|done|done|done|cbn; rewrite Hh; done|].
    - intros rest' o d. pose proof (Next_plain h rest' o d (plain_20 h Hh)) as Hn. rewrite Hh in Hn. exact Hn.
    - intros _. cbn. unfold checkMinimalDataPush. by rewrite Hh. }
  eapply (fwd_pushes _ _ _ [(OP_DATA_20 :: h, OP_DATA_20, Some h)] [OP_EQUAL]) in Hrun; [|by constructor|done|engine; unfold code; cbn; by rewrite app_nil_r|].
  2: { split_and!; engine; [rewrite Hs; lia|done|cbn; unfold MaxStackSize; lia]. }
  destruct Hrun as (f2&o&d&Hrun). change (itemOf <$> _) with [h] in Hrun. engine. cbn [reverse rev_append app] in Hrun.
  eapply (fwd_last _ _ _ (mkTok [] OP_EQUAL None false) _ _ false) in Hrun; [exact Hrun|done|done|..].
  - split_and!; engine; [rewrite Hs; lia|done|cbn; unfold MaxStackSize; lia].
  - rewrite exec_go by done. change (opfunc _ _) with opcodeEqual. unfold opcodeEqual. erewrite bind_go by (apply pop_go; reflexivity).
    erewrite bind_go by (apply pop_go; reflexivity). rewrite bool_decide_eq_true_2 by done. reflexivity.
  - engine. cbn. unfold MaxStackSize. lia.
  - done.
  - unfold nextScript. erewrite bind_go by reflexivity. engine. cbn [Nat.eqb andb]. erewrite bind_go by reflexivity.
    erewrite bind_go by (apply (condition_go false _ [1]); [exact Hs|by right|done]). rewrite ensure_go by done. reflexivity.
  - unfold startScript. erewrite bind_go by reflexivity. engine. rewrite Hl2. rewrite bool_decide_eq_false_2 by congruence.
    erewrite bind_go by reflexivity. rewrite Hl2. reflexivity.
Qed.

(** ** The redeem script *)

Lemma popInt_go e n st : 1 ≤ n ≤ 15 → dstack e = [n] :: st → PopInt e = (Ok n, set_dstack st e).
Proof.
  intros Hn Hd. unfold PopInt. erewrite bind_go by by apply pop_go. erewrite bind_go by reflexivity.
  destruct (small_numbers n Hn) as [_ Hm]. by rewrite Hm.
Qed.

Lemma popMany_go e xs st : dstack e = xs ++ st → popMany (length xs) e = (Ok xs, set_dstack st e).
Proof.
  revert e. induction xs as [|x xs IH]; intros e Hd; [by destruct e; engine; subst|]. cbn [length popMany].
  erewrite bind_go by by apply pop_go. erewrite bind_go; [|by apply IH; destruct e]. by destruct e.
Qed.

(** The multisignature is met. *)
Lemma checkMultiSig_go e keys sigs st :
  1 ≤ Z.of_nat (length sigs) ≤ Z.of_nat (length keys) → (length keys ≤ 15)%nat → numOps e + 15 ≤ MaxOpsPerScript →
  dstack e = [Z.of_nat (length keys)] :: keys ++ [Z.of_nat (length sigs)] :: sigs ++ [] :: st →
  (∀ e', en_flags e' = en_flags e → en_tx e' = en_tx e → en_txIdx e' = en_txIdx e →
    ∃ script, removeSigs e' sigs (subScript e) = Ok script ∧ multiSigLoop e' script keys sigs None = Ok true) →
  opcodeCheckMultiSig e = (Ok tt, set_dstack ([1] :: st) (set_numOps (numOps e + Z.of_nat (length keys)) e)).
Proof.
  intros Hs Hk Hn Hd Hloop. assert (∀ z, 1 ≤ z ≤ 15 → clamp32 z = z) as Hcl by (intros z Hz; unfold clamp32; lia).
  unfold opcodeCheckMultiSig. erewrite bind_go by (apply popInt_go; [|exact Hd]; lia). rewrite Hcl by lia. cbv zeta.
  rewrite ensure_go by (unfold MaxPubKeysPerMultiSig; lia). erewrite bind_go by reflexivity. erewrite bind_go by reflexivity.
  set (e2 := set_numOps _ _). assert (dstack e2 = keys ++ [Z.of_nat (length sigs)] :: sigs ++ [] :: st) as Hd2 by by destruct e.
  assert (subScript e2 = subScript e) as Hsub by by destruct e.
  assert (numOps e2 = numOps e + Z.of_nat (length keys)) as Hn2 by by destruct e.
  rewrite ensure_go by (rewrite Hn2; lia). rewrite Nat2Z.id. erewrite bind_go by by apply popMany_go.
  erewrite bind_go by (apply popInt_go; [|reflexivity]; lia). rewrite Hcl by lia. rewrite ensure_go by lia. rewrite Nat2Z.id.
  erewrite bind_go by (apply popMany_go; reflexivity). erewrite bind_go by (apply pop_go; reflexivity).
  rewrite ensure_go by (rewrite bool_decide_eq_true_2 by done; by rewrite andb_false_r).
  destruct (Hloop e2) as (script&Hr&Hl); [by destruct e..|]. rewrite Hsub. erewrite lift_go by exact Hr. erewrite lift_go by exact Hl.
  cbn [negb andb]. rewrite ensure_go by done. by destruct e.
Qed.

Definition keyPushes (m : Z) (keys : list bytes) : list instr :=
  ([OP_1 - 1 + m], OP_1 - 1 + m, None) :: ((fun k => (OP_DATA_33 :: k, OP_DATA_33, Some k)) <$> keys) ++
    [([OP_1 - 1 + Z.of_nat (length keys)], OP_1 - 1 + Z.of_nat (length keys), None)].

Lemma multisig_code m keys :
  multisig m keys = code (keyPushes m keys) ++ [OP_CHECKMULTISIG].
Proof.
  unfold multisig, keyPushes, code, pushKeys. cbn [fmap list_fmap concat fst]. rewrite fmap_app, concat_app, <- list_fmap_compose. cbn.
  by rewrite <- app_assoc.
Qed.

Lemma pushes_key k : compressed k → pushes (OP_DATA_33 :: k, OP_DATA_33, Some k) ∧ itemOf (OP_DATA_33 :: k, OP_DATA_33, Some k) = k.
Proof.
  intros Hk. pose proof Hk as [Hl _]. split; [|done]. split_and!; [|done|done|done|cbn; by rewrite Hl|].
  - intros rest o d. pose proof (Next_plain k rest o d (plain_33 k Hk)) as Hn. rewrite Hl in Hn. exact Hn.
  - intros _. cbn. unfold checkMinimalDataPush. by rewrite Hl.
Qed.

Lemma keyPushes_ok m keys : 1 ≤ m ≤ Z.of_nat (length keys) → (length keys ≤ 15)%nat → Forall compressed keys →
  Forall pushes (keyPushes m keys) ∧ reverse (itemOf <$> keyPushes m keys) = [Z.of_nat (length keys)] :: reverse keys ++ [[m]].
Proof.
  intros Hm Hn Hk. split.
  - constructor; [apply pushes_small; lia|]. apply Forall_app. split; [|constructor; [apply pushes_small; lia|done]].
    apply Forall_fmap. eapply Forall_impl; [exact Hk|]. intros k Hc. by apply pushes_key.
  - unfold keyPushes. rewrite fmap_cons, fmap_app, reverse_cons, reverse_app. unfold itemOf at 1 2 3. cbn [fst snd from_option id fmap list_fmap].
    rewrite !(fun n H => proj2 (proj2 (small_op n H))) by lia. cbn [reverse rev_append app]. do 3 f_equal. rewrite <- list_fmap_compose.
    clear. induction keys as [|k keys IH]; [done|]. cbn. by f_equal.
Qed.

(** The redeem script over the signatures, the last on top, and the dummy. *)
Lemma fwd_multisig more fuel e keys sigs res :
  1 ≤ Z.of_nat (length sigs) ≤ Z.of_nat (length keys) → Forall compressed keys → (length keys ≤ 15)%nat → length (scripts e) = 2%nat →
  (∀ e', en_flags e' = en_flags e → en_tx e' = en_tx e → en_txIdx e' = en_txIdx e →
    ∃ script, removeSigs e' sigs (multisig (Z.of_nat (length sigs)) keys) = Ok script ∧ multiSigLoop e' script (reverse keys) sigs None = Ok true) →
  execLoop more fuel (third e (multisig (Z.of_nat (length sigs)) keys) (sigs ++ [[]])) = Some res →
  ∃ r, res = (Ok tt, r) ∧ (CheckErrorCondition true r).1 = Ok tt.
Proof.
  intros Hm Hk Hn Hs Hloop Hrun. set (m := Z.of_nat (length sigs)) in *. destruct (keyPushes_ok m keys Hm Hn Hk) as [Hp Hi].
  assert (((scripts e ++ [multisig m keys]) : list bytes) !! 2%nat = Some (multisig m keys)) as Hl2
    by (rewrite <- Hs; by rewrite lookup_app_r, Nat.sub_diag by lia).
  assert (((scripts e ++ [multisig m keys]) : list bytes) !! 3%nat = None) as Hl3 by (apply lookup_ge_None; rewrite length_app, Hs; cbn; lia).
  assert (length (keyPushes m keys) = 2 + length keys)%nat as Hlen by (unfold keyPushes; cbn; rewrite length_app, length_fmap; cbn; lia).
  destruct e as [fl tx ix b16 scr si lcs tok sav ds as_ cs no]. unfold third in *. engine.
  eapply (fwd_pushes _ _ _ (keyPushes m keys) [OP_CHECKMULTISIG]) in Hrun; [|done|done|engine; unfold MakeScriptTokenizer; f_equal; apply multisig_code|].
  2: { split_and!; engine; [rewrite length_app, Hs; cbn; lia|done|]. rewrite length_app, Hlen. cbn. unfold MaxStackSize. lia. }
  destruct Hrun as (f&o&d&Hrun). rewrite Hi in Hrun. engine. cbn [app] in Hrun. rewrite <- app_assoc in Hrun. cbn [app] in Hrun.
  eapply (fwd_last _ _ _ (mkTok [] OP_CHECKMULTISIG None false) _ _ true) in Hrun; [|done|done|..].
  2: { split_and!; engine; [rewrite length_app, Hs; cbn; lia|done|]. cbn [length]. rewrite length_app. cbn [length]. rewrite length_app, length_reverse. cbn. unfold MaxStackSize. lia. }
  2: { rewrite exec_go by done. cbn [top]. rewrite opfunc_multisig. apply (checkMultiSig_go _ (reverse keys) sigs []); engine.
       - by rewrite length_reverse.
       - by rewrite length_reverse.
       - done.
       - by rewrite length_reverse.
       - unfold subScript. engine. rewrite Hl2. exact Hloop. }
  2: { done. }
  2: { done. }
  2: { unfold nextScript. erewrite bind_go by reflexivity. engine. cbn [Nat.eqb andb]. reflexivity. }
  2: { unfold startScript. erewrite bind_go by reflexivity. engine. rewrite Hl3. rewrite bool_decide_eq_false_2 by done.
       erewrite bind_go by reflexivity. rewrite Hl3. reflexivity. }
  eexists. split; [exact Hrun|]. erewrite condition_go; [done| |by left|done]. engine. rewrite length_app, Hs. done.
Qed.

(** ** Matching signatures with keys *)

Definition counts (e : Engine) (script sig key : bytes) : Prop :=
  checked e script sig key ∧ checkHashTypeEncoding e (default 0 (last sig)) = Ok tt ∧ checkSignatureEncoding e (removelast sig) = Ok tt.

Lemma pubKey_encoding e k : compressed k → checkPubKeyEncoding e k = Ok tt.
Proof.
  intros [Hl Hh]. unfold checkPubKeyEncoding. destruct (negb _); [done|]. rewrite Hl. destruct k as [|x k]; [done|].
  cbn. by destruct Hh as [[= ->] | [= ->]].
Qed.

(** Taking the first key that verifies never costs a later match. *)
Lemma multiSigLoop_go e script keys sigs ks memo :
  Forall compressed keys → sublist ks keys → Forall2 (counts e script) sigs ks →
  (∀ p, memo = Some p → ∃ sig, head sigs = Some sig ∧ p = parseSig e (removelast sig)) →
  multiSigLoop e script keys sigs memo = Ok true.
Proof.
  intros Hk. revert sigs ks memo. induction Hk as [|key keys Hkey Hk IH]; intros sigs ks memo Hsub Hf Hm.
  { apply sublist_nil_r in Hsub as ->. by inversion Hf. }
  destruct Hf as [|sig k0 sigs ks ((Hne&s&pk&Hps&Hpk&Hv)&Hht&Hse) Hf]; [done|].
  assert (length sigs = length ks) as Hlen by by eapply Forall2_length.
  pose proof (sublist_length _ _ Hsub) as Hle. cbn [length] in Hle.
  cbn [multiSigLoop]. rewrite (proj2 (Nat.ltb_ge _ _)) by (cbn [length]; lia). rewrite bool_decide_eq_false_2 by done. cbv zeta.
  assert (match memo with Some parsed => Ok parsed | None => checkHashTypeEncoding e (default 0 (last sig));; checkSignatureEncoding e (removelast sig);; Ok (parseSig e (removelast sig)) end
    = Ok (Some s)) as Hp.
  { destruct memo as [p|]; [|by rewrite Hht, Hse; cbn; rewrite Hps]. destruct (Hm p eq_refl) as (?&[= <-]&->). by rewrite Hps. }
  rewrite Hp, bind_Ok_l, (pubKey_encoding _ _ Hkey), bind_Ok_l.
  assert (∀ p, Some (Some s) = Some p → ∃ sig0, head (sig :: sigs) = Some sig0 ∧ p = parseSig e (removelast sig0)) as Hm'
    by (intros p [= <-]; exists sig; by rewrite Hps).
  assert (Forall2 (counts e script) (sig :: sigs) (k0 :: ks)) as Hf' by (constructor; [split; [split; [done|by exists s, pk]|done]|done]).
  apply sublist_cons_r in Hsub as [Hsub|(l&[= -> ->]&Hsub)].
  - destruct (ParsePubKey key) as [k|]; [|by eapply IH]. destruct (verifySig s k _ _ key); [|by eapply IH].
    eapply IH; [|exact Hf|done]. etrans; [|exact Hsub]. by apply sublist_cons.
  - rewrite Hpk, Hv. by eapply IH.
Qed.

(** ** The signature script *)

Lemma data_pushes l : Forall (fun x : bytes => (2 ≤ length x ≤ 75)%nat) l →
  ∃ prog, Forall pushes prog ∧ itemOf <$> prog = l ∧ code prog = concat (pushBytes <$> l).
Proof.
  induction 1 as [|x l Hx Hl (prog&Hp&Hi&Hc)]; [by exists []|]. destruct (pushes_data x) as (op&Hpx&Hix); [lia|].
  exists ((pushBytes x, op, Some x) :: prog). split_and!; [by constructor|by rewrite fmap_cons, Hix, Hi|].
  unfold code in *. cbn. by rewrite Hc.
Qed.

Definition sigScript (sigs : list bytes) (redeem : bytes) : bytes := OP_0 :: concat (pushBytes <$> sigs) ++ pushBytes redeem.

Lemma sigScript_code sigs redeem : Forall (fun x : bytes => (2 ≤ length x ≤ 75)%nat) sigs → (2 ≤ length redeem ≤ 520)%nat →
  ∃ prog x, sigScript sigs redeem = code (prog ++ [x]) ∧ Forall pushes prog ∧ pushes x ∧ length prog = S (length sigs) ∧
    itemOf x = redeem ∧ reverse (itemOf <$> prog) = reverse sigs ++ [[]].
Proof.
  intros Hs Hr. destruct (data_pushes sigs Hs) as (prog&Hp&Hi&Hc). destruct (pushes_data redeem Hr) as (op&Hpx&Hix).
  exists (([OP_0], OP_0, None) :: prog), (pushBytes redeem, op, Some redeem). split_and!; [|constructor; [apply pushes_0|done]|done| |done|].
  - unfold sigScript. rewrite <- Hc. unfold code. cbn. rewrite fmap_app, concat_app. cbn. by rewrite app_nil_r.
  - cbn. by rewrite <- Hi, length_fmap.
  - by rewrite fmap_cons, reverse_cons, Hi.
Qed.

Lemma pushes_length l : Forall (fun x : bytes => (2 ≤ length x ≤ 75)%nat) l → (length (concat (pushBytes <$> l)) ≤ 76 * length l)%nat.
Proof. induction 1 as [|x l Hx Hl IH]; [cbn; lia|]. cbn. rewrite length_app, pushBytes_plain by done. cbn. lia. Qed.

Lemma sigScript_length sigs redeem : Forall (fun x : bytes => (2 ≤ length x ≤ 75)%nat) sigs → (2 ≤ length redeem ≤ 520)%nat →
  (length (sigScript sigs redeem) ≤ 76 * length sigs + 524)%nat.
Proof.
  intros Hs Hr. unfold sigScript. cbn. rewrite length_app.
  assert (length (pushBytes redeem) ≤ 523)%nat.
  { unfold pushBytes. repeat case_match; cbn [length]; rewrite ?length_app; cbn [length]; rewrite ?le_bytes_length; try lia. }
  apply pushes_length in Hs. lia.
Qed.

Lemma multisig_length m keys : Forall compressed keys → length (multisig m keys) = (3 + 34 * length keys)%nat.
Proof.
  intros Hk. unfold multisig. cbn. rewrite length_app, pushKeys_length by done. cbn. lia.
Qed.

(** ** The whole input *)

Lemma parses_multisig m keys : 1 ≤ m ≤ Z.of_nat (length keys) → (length keys ≤ 15)%nat → Forall compressed keys →
  checkScriptParses (multisig m keys) = true.
Proof.
  intros Hm Hn Hk. rewrite multisig_code. destruct (keyPushes_ok m keys Hm Hn Hk) as [Hp _].
  replace (code (keyPushes m keys) ++ [OP_CHECKMULTISIG]) with (code (keyPushes m keys ++ [([OP_CHECKMULTISIG], OP_CHECKMULTISIG, None)]))
    by (unfold code; by rewrite fmap_app, concat_app).
  apply parses_code, Forall_app. split; [by apply pushes_reads|]. constructor; [|done]. intros rest o d. by apply Next_op.
Qed.

Lemma parses_p2sh h : length h = 20%nat → checkScriptParses (p2sh h) = true.
Proof. intros Hh. do 20 (destruct h as [|? h]; [discriminate Hh|]). destruct h; [by vm_compute|discriminate Hh]. Qed.

Context {CRO : CryptoOk}.

(** The engine an input with such a script starts with. *)
Lemma newEngine_go set tx i ti flags sigs :
  set_ok set → hasFlagOf flags ScriptBip16 = true → txIn tx !! i = Some ti → SignatureScript ti = sigScript sigs (redeemScript set) →
  Forall (fun x : bytes => (2 ≤ length x ≤ 75)%nat) sigs → (length sigs ≤ 15)%nat → (2 ≤ length (redeemScript set) ≤ 520)%nat →
  NewEngine (signers_pkScript set) tx i flags =
  Ok (mkEngine flags tx i true [SignatureScript ti; p2sh (Hash160 (redeemScript set))] 0 0 (MakeScriptTokenizer (SignatureScript ti)) [] [] [] [] 0).
Proof.
  intros Hset Hf Hti Hss Hsl Hn Hr. assert (length (Hash160 (redeemScript set)) = 20%nat) as Hh by apply ripemd160_length.
  destruct (sigScript_code sigs (redeemScript set) Hsl Hr) as (prog&x&Hc&Hp&Hx&Hpl&_&_).
  assert (Forall pushes (prog ++ [x])) as Hall by (apply Forall_app; split; [done|by constructor]).
  assert (IsPushOnlyScript (SignatureScript ti) = true) as Hpo.
  { unfold IsPushOnlyScript. rewrite Hss, Hc. apply pushOnly_code; [done|]. pose proof (code_length _ (pushes_reads _ Hall)). lia. }
  assert (checkScriptParses (SignatureScript ti) = true) as Hpar by (rewrite Hss, Hc; by apply parses_code, pushes_reads).
  pose proof (sigScript_length sigs (redeemScript set) Hsl Hr) as Hlen. rewrite <- Hss in Hlen.
  unfold NewEngine. rewrite pkScript_p2sh by done. rewrite Hti, Hf, is_p2sh by done. cbn [from_option_err]. rewrite bind_Ok_l.
  assert (SignatureScript ti ≠ []) as Hne by (rewrite Hss; done). rewrite (bool_decide_eq_false_2 _ Hne). cbn [andb negb ensure].
  rewrite bind_Ok_l, andb_false_r. cbn [negb ensure]. rewrite bind_Ok_l, Hpo, orb_true_r. cbn [orb negb andb ensure]. rewrite !bind_Ok_l. cbn [forallb].
  rewrite Hpar, parses_p2sh by done. rewrite (proj2 (Z.leb_le (Z.of_nat (length (SignatureScript ti))) _)) by (unfold MaxScriptSize; lia).
  assert (Z.of_nat (length (p2sh (Hash160 (redeemScript set)))) = 23) as -> by (unfold p2sh; cbn; rewrite length_app, Hh; done).
  by rewrite !orb_true_r.
Qed.

Lemma signed_executes set tx i ti flags sigs ks :
  set_ok set → hasFlagOf flags ScriptBip16 = true → txIn tx !! i = Some ti → SignatureScript ti = sigScript sigs (redeemScript set) →
  Forall (fun x : bytes => (2 ≤ length x ≤ 75)%nat) sigs → Z.of_nat (length sigs) = Required set → sublist ks (pubKeys set) →
  (∀ e, en_flags e = flags → en_tx e = tx → en_txIdx e = i → Forall2 (counts e (redeemScript set)) sigs ks) →
  ∃ e, NewEngine (signers_pkScript set) tx i flags = Ok e ∧ Execute e = Ok tt.
Proof.
  intros Hset Hf Hti Hss Hsl Hreq Hsub Hcnt. destruct (redeem_multisig set Hset) as [Hm Hred]. pose proof Hset as (_&Hk&Hn).
  assert (length (redeemScript set) = (3 + 34 * length (pubKeys set))%nat) as Hrl by (rewrite Hred; by apply multisig_length).
  assert (length (Hash160 (redeemScript set)) = 20%nat) as Hh by apply ripemd160_length.
  eexists. split; [eapply newEngine_go; [done..|lia|lia]|]. set (e := mkEngine _ _ _ _ _ _ _ _ _ _ _ _ _).
  assert (NewEngine (signers_pkScript set) tx i flags = Ok e) as Hnew by (eapply newEngine_go; [done..|lia|lia]).
  apply Execute_ends in Hnew. unfold Execute. destruct (execLoop _ _ e) as [res|] eqn:Hrun; [|done]. clear Hnew.
  destruct (sigScript_code sigs (redeemScript set)) as (prog&x&Hc&Hp&Hx&Hpl&Hix&Hir); [done|lia|].
  eapply (fwd_first _ _ _ prog x (p2sh (Hash160 (redeemScript set)))) in Hrun; try done; [|lia|unfold e; cbn [scripts]; congruence|unfold e; cbn [tokenizer]; congruence].
  destruct Hrun as (m1&f1&Hrun). rewrite Hix, Hir in Hrun. eapply fwd_hash in Hrun; [|done|done| | |].
  2: { rewrite Hred. done. }
  2: { rewrite Hred. apply parses_multisig; [lia|done|done]. }
  2: { rewrite length_app, length_reverse. cbn. lia. }
  destruct Hrun as (m2&f2&Hrun). rewrite Hred, <- Hreq, <- (length_reverse sigs) in Hrun.
  apply fwd_multisig in Hrun as (r&->&Hr); [exact Hr|rewrite length_reverse; lia|done|done|done|].
  intros e' E1 E2 E3. rewrite length_reverse, Hreq, <- Hred. exists (redeemScript set).
  pose proof (Hcnt e' E1 E2 E3) as Hf2. split.
  - apply removeSigs_same; [rewrite Hred; by apply tokens_multisig|]. apply Forall_reverse. clear -Hf2.
    induction Hf2 as [|sig key sigs ks [Hc _] _ IH]; constructor; [by eapply checked_tag|done].
  - eapply multiSigLoop_go; [by apply Forall_reverse|by apply sublist_rev|by apply Forall2_reverse|done].
Qed.

(** ** Signatures *)

(** The signature of signer [j] for input [i]: DER with a low S, then the hash
    type, and it verifies. *)
Definition signs (set : signerSet) (tx : MsgTx) (i j : nat) (sig : bytes) : Prop :=
  ∃ der key s k, sig = der ++ [SigHashAll] ∧ pubKeys set !! j = Some key ∧ (∀ e, checkSignatureEncoding e der = Ok tt) ∧
    ParseDERSignature der = Some s ∧ ParsePubKey key = Some k ∧
    ecdsa_Verify s (calcSignatureHash (redeemScript set) SigHashAll tx i) k = true.

Lemma scalar_ber b n : scalarOf true b = Some n → scalarOf false b = Some n.
Proof. unfold scalarOf. cbn [andb]. by destruct (negb _). Qed.

(** What parses as DER parses as BER, as the same signature. *)
Lemma der_ber sig s : ParseDERSignature sig = Some s → ParseSignature sig = Some s.
Proof.
  unfold ParseDERSignature, ParseSignature, ecdsa_parseSig. cbn [andb]. rewrite orb_false_r.
  destruct (Nat.ltb (length sig) 8); [done|]. destruct (Nat.ltb 72 (length sig)); [done|]. cbn [orb].
  destruct (negb (sig !!! 0%nat =? 48)); [done|]. destruct (_ || _); [done|]. cbv zeta. destruct (_ || _); [done|].
  intros (r&Hr%scalar_ber&H1)%bind_Some. rewrite Hr. cbn [mbind option_bind]. destruct (_ || _); [done|]. apply bind_Some in H1 as (s'&Hs%scalar_ber&H1).
  by rewrite Hs.
Qed.

Lemma der_length sig s : ParseDERSignature sig = Some s → (8 ≤ length sig ≤ 72)%nat.
Proof.
  unfold ParseDERSignature, ecdsa_parseSig. destruct (Nat.ltb_spec (length sig) 8); [done|]. cbn [andb].
  destruct (Nat.ltb_spec 72 (length sig)); [done|]. lia.
Qed.

Lemma signs_counts set tx i j sig e :
  signs set tx i j sig → calcSignatureHash (redeemScript set) SigHashAll (en_tx e) (en_txIdx e) = calcSignatureHash (redeemScript set) SigHashAll tx i →
  counts e (redeemScript set) sig (default [] (pubKeys set !! j)) ∧ (2 ≤ length sig ≤ 75)%nat.
Proof.
  intros (der&key&s&k&->&Hkey&Henc&Hp&Hk&Hv) Hh. rewrite Hkey. cbn [from_option id].
  pose proof (der_length _ _ Hp) as Hl. split; [|rewrite length_app; cbn; lia]. unfold counts, checked. rewrite removelast_last, last_snoc.
  cbn [from_option id]. split_and!; [by destruct der| |by unfold checkHashTypeEncoding; destruct (negb _)|done].
  exists s, k. split_and!; [|done|].
  - unfold parseSig. destruct (_ || _); [done|by apply der_ber].
  - unfold verifySig. rewrite Hh, Hv. apply orb_true_r.
Qed.

(** ** Assembling *)

(** The inputs differ in their signature scripts only. *)
Definition sameInput (ti ti' : TxIn) : Prop :=
  PreviousOutPoint ti' = PreviousOutPoint ti ∧ Witness ti' = Witness ti ∧ Sequence ti' = Sequence ti.

Lemma assembleInputs_at signers sigs k ins redeems ins' :
  assembleInputs signers sigs k ins redeems = Ok ins' → length redeems = length ins →
  Forall2 sameInput ins ins' ∧
  ∀ i ti', ins' !! i = Some ti' → ∃ redeem, redeems !! i = Some redeem ∧ sigScriptOf signers sigs (k + i) redeem = Ok (SignatureScript ti').
Proof.
  revert k redeems ins'. induction ins as [|ti ins IH]; intros k [|redeem redeems] ins' Ha Hl; try done; cbn [assembleInputs] in Ha.
  { injection Ha as <-. split; [constructor|]. by intros i ti'. }
  apply bind_Ok in Ha as (script&Hs&Ha). apply bind_Ok in Ha as (rest&Ha&[= <-]). destruct (IH _ _ _ Ha) as [Hf Hat]; [by injection Hl|].
  split; [by constructor|]. intros [|i] ti' Hi.
  - injection Hi as <-. exists redeem. by rewrite Nat.add_0_r.
  - destruct (Hat i ti' Hi) as (r&Hr&Hsc). exists r. by rewrite <- Nat.add_succ_comm.
Qed.

Lemma sigHash_same script ht v ins ins' outs lt i :
  Forall2 sameInput ins ins' → calcSignatureHash script ht (mkMsgTx v ins' outs lt) i = calcSignatureHash script ht (mkMsgTx v ins outs lt) i.
Proof.
  intros Hf. unfold calcSignatureHash. cbn [txIn txOut Wire.Version LockTime]. destruct (_ && _); [done|].
  match goal with |- context [imap ?f ins'] => assert (imap f ins' = imap f ins) as -> end; [|done].
  set (others := _ || _). clearbody others. set (idx := i). clearbody idx. generalize (removeOpcodeRaw script OP_CODESEPARATOR). intros sc.
  revert idx. induction Hf as [|ti ti' ins ins' (E1&E2&E3) Hf IH]; intros idx; [done|]. cbn [imap]. rewrite E1, E2, E3. f_equal.
  destruct idx as [|idx]; [|apply (IH idx)]. unfold compose. cbn [Nat.eqb].
  clear IH. induction Hf as [|t t' l l' (F1&F2&F3) _ IH]; [done|]. cbn [imap]. rewrite F1, F2, F3. f_equal. exact IH.
Qed.

Lemma sigs_fold sigs i signers b b' :
  foldl (fun b signer => b ← b; sig ← lookup_sig sigs signer i; Ok (AddData b sig)) (Ok b) signers = Ok b' →
  ∃ l, Forall2 (fun signer sig => lookup_sig sigs signer i = Ok sig) signers l ∧ b' = foldl AddData b l.
Proof.
  revert b. induction signers as [|j signers IH]; intros b; cbn [foldl]; [intros [= <-]; by exists []|]. rewrite bind_Ok_l.
  destruct (lookup_sig sigs j i) as [sig|x] eqn:El; cbn [mbind result_bind].
  - intros (l&Hl&->)%IH. exists (sig :: l). split; [by constructor|done].
  - intros Hf. exfalso. clear IH. induction signers as [|k signers IHs]; [done|by apply IHs].
Qed.

Lemma addSigs l s : Forall (fun x : bytes => (2 ≤ length x ≤ 75)%nat) l → Z.of_nat (length s) + 76 * Z.of_nat (length l) + 76 ≤ MaxScriptSize →
  foldl AddData (mkBuilder s None) l = mkBuilder (s ++ concat (pushBytes <$> l)) None.
Proof.
  intros Hl. revert s. induction Hl as [|x l Hx Hl IH]; intros s Hs; [by rewrite app_nil_r|]. cbn [length] in Hs.
  cbn [foldl fmap list_fmap concat]. rewrite AddData_plain; [|done|lia]. rewrite <- pushBytes_plain by done.
  rewrite IH; [by rewrite <- app_assoc|]. rewrite length_app, pushBytes_plain by done. cbn [length]. lia.
Qed.

Lemma canonicalDataSize_le data : canonicalDataSize data ≤ 5 + Z.of_nat (length data).
Proof. unfold canonicalDataSize. repeat case_match; lia. Qed.

(** The script of an assembled input. *)
Lemma sigScriptOf_shape signers sigs i redeem script l :
  sigScriptOf signers sigs i redeem = Ok script → Forall2 (fun signer sig => lookup_sig sigs signer i = Ok sig) signers l →
  Forall (fun x : bytes => (2 ≤ length x ≤ 75)%nat) l → (length l ≤ 15)%nat → (2 ≤ length redeem ≤ 520)%nat →
  script = sigScript l redeem.
Proof.
  intros Hs Hl Hp Hn Hr. unfold sigScriptOf in Hs. apply bind_Ok in Hs as (b&(l'&Hl'&->)%sigs_fold&Hs).
  assert (l' = l) as ->.
  { clear -Hl Hl'. revert l Hl. induction Hl' as [|j x js xs Hj _ IH]; intros l Hl; inversion Hl as [|? y ? ys Hy Hys]; subst; [done|].
    f_equal; [congruence|by apply IH]. }
  unfold NewScriptBuilder in Hs. rewrite AddOp_ok in Hs by done. rewrite addSigs in Hs; [|done|cbn; unfold MaxScriptSize; lia].
  pose proof (pushes_length l Hp) as Hcl.
  unfold AddData in Hs. cbn [berr bscript] in Hs. pose proof (canonicalDataSize_le redeem).
  rewrite !(proj2 (Z.ltb_ge _ _)) in Hs by (rewrite ?length_app; cbn; unfold MaxScriptSize, MaxScriptElementSize; lia).
  cbn in Hs. by injection Hs as <-.
Qed.

(** The signers are chosen in the order of the keys. *)
Lemma chosen_order set sigs : sublist (chosenSigners set sigs) (seq 0 (length (pubKeys set))).
Proof.
  unfold chosenSigners. set (f := fun (signers : list nat) (i : nat) => _).
  assert (∀ l acc, sublist (foldl f acc l) (acc ++ l)) as Hs; [|apply (Hs _ [])].
  intros l. induction l as [|x l IH]; intros acc; [by rewrite app_nil_r|]. cbn [foldl]. etrans; [apply IH|]. unfold f.
  destruct (_ && _); [by rewrite <- app_assoc|]. by apply sublist_app, sublist_cons.
Qed.

Lemma chosen_keys set l : sublist l (seq 0 (length (pubKeys set))) → sublist ((fun j => default [] (pubKeys set !! j)) <$> l) (pubKeys set).
Proof.
  intros Hs%(fmap_sublist (fun j => default [] (pubKeys set !! j))). etrans; [exact Hs|].
  assert ((fun j => default [] (pubKeys set !! j)) <$> seq 0 (length (pubKeys set)) = pubKeys set) as ->; [|done].
  generalize (pubKeys set). intros keys. induction keys as [|k keys IH]; [done|]. cbn. f_equal. rewrite <- IH at 2.
  rewrite <- fmap_S_seq, <- list_fmap_compose. done.
Qed.

(** ** Assembled transactions spend *)

Lemma assembled_input set tx redeems sigs tx' flags i ti' :
  set_ok set → hasFlagOf flags ScriptBip16 = true → assemble set tx redeems sigs = Ok tx' →
  Forall (fun r => r = redeemScript set) redeems →
  (∀ j sig, j ∈ chosenSigners set sigs → lookup_sig sigs j i = Ok sig → signs set tx i j sig) →
  txIn tx' !! i = Some ti' → ∃ e, NewEngine (signers_pkScript set) tx' i flags = Ok e ∧ Execute e = Ok tt.
Proof.
  intros Hset Hf Ha Hr Hsig Hti. destruct (redeem_multisig set Hset) as [Hm Hred]. pose proof Hset as (_&Hk&Hn).
  assert (length (redeemScript set) = (3 + 34 * length (pubKeys set))%nat) as Hrl by (rewrite Hred; by apply multisig_length).
  unfold assemble in Ha. apply bind_Ok in Ha as ([]&Hl%ensure_Ok%Nat.eqb_eq&Ha). apply bind_Ok in Ha as ([]&Hq%ensure_Ok%Z.leb_le&Ha).
  apply bind_Ok in Ha as (ins&Ha&[= <-]). cbn [txIn] in Hti. destruct (assembleInputs_at _ _ _ _ _ _ Ha Hl) as [Hsame Hat].
  destruct (Hat i ti' Hti) as (redeem&Hri&Hsc). cbn [Nat.add] in Hsc.
  assert (redeem = redeemScript set) as -> by (rewrite Forall_lookup in Hr; by eapply Hr).
  pose proof Hsc as Hsc'. unfold sigScriptOf in Hsc'. apply bind_Ok in Hsc' as (b&(l&Hl2&_)%sigs_fold&_).
  set (tx2 := mkMsgTx _ _ _ _) in *. set (ks := (fun j => default [] (pubKeys set !! j)) <$> chosenSigners set sigs).
  assert (∀ e, en_tx e = tx2 → en_txIdx e = i → Forall2 (counts e (redeemScript set)) l ks ∧ Forall (fun x : bytes => (2 ≤ length x ≤ 75)%nat) l) as Hcnt.
  { intros e E1 E2. assert (calcSignatureHash (redeemScript set) SigHashAll (en_tx e) (en_txIdx e) =
      calcSignatureHash (redeemScript set) SigHashAll tx i) as Hh.
    { rewrite E1, E2. unfold tx2. rewrite (sigHash_same _ _ _ (txIn tx)) by done. by destruct tx. }
    unfold ks. clear -Hl2 Hsig Hh. induction Hl2 as [|j sig js l Hj Hl2 IH]; [split; constructor|].
    destruct IH as [IH1 IH2]; [intros; apply Hsig; [by right|done]|]. destruct (signs_counts set tx i j sig e) as [Hc Hlen]; [apply Hsig; [by left|done]|done|].
    split; by constructor. }
  destruct (Hcnt (mkEngine flags tx2 i true [] 0 0 (MakeScriptTokenizer []) [] [] [] [] 0)) as [_ Hplain]; [done..|].
  pose proof (chosenSigners_length set sigs ltac:(lia)) as Hcl. apply Forall2_length in Hl2 as Hlen.
  apply (signed_executes set tx2 i ti' flags l ks); [done|done|done| |done|lia|apply chosen_keys, chosen_order|by intros e _ E1 E2; apply Hcnt].
  by eapply sigScriptOf_shape; [exact Hsc|exact Hl2|done|lia|lia].
Qed.

(** C8. What the signers assemble spends their coins: a transaction whose
    inputs are coins of the set, completed with canonical signatures of the
    chosen signers, passes script validation under every combination of flags
    with BIP 16 and without witnesses, as those of DogecoinVM's blocks are. *)
Theorem assembled_spends w set tx redeems sigs tx' v flags :
  set_ok set → hasFlagOf flags ScriptBip16 = true → hasFlagOf flags ScriptVerifyWitness = false →
  assemble set tx redeems sigs = Ok tx' → Forall (fun r => r = redeemScript set) redeems →
  Forall (fun ti => ∃ u, LookupEntry v (PreviousOutPoint ti) = Some u ∧ ue_pkScript u = signers_pkScript set) (txIn tx) →
  (∀ i j sig, (i < length (txIn tx))%nat → j ∈ chosenSigners set sigs → lookup_sig sigs j i = Ok sig → signs set tx i j sig) →
  ValidateTransactionScripts (ScriptEngine := btcdScripts w) tx' v flags = Ok tt.
Proof.
  intros Hset Hf Hw Ha Hr Hv Hsig. cbn [ValidateTransactionScripts btcdScripts]. rewrite Hw. unfold validateScripts. cbn [checkAll].
  pose proof Ha as Ha'. unfold assemble in Ha'. apply bind_Ok in Ha' as ([]&Hl%ensure_Ok%Nat.eqb_eq&Ha'). apply bind_Ok in Ha' as ([]&_&Ha').
  apply bind_Ok in Ha' as (ins&Ha'&E). destruct (assembleInputs_at _ _ _ _ _ _ Ha' Hl) as [Hsame _]. assert (txIn tx' = ins) as Hin by (by injection E as <-).
  assert (∀ k l, drop k (txIn tx') = l → validateInputs v flags tx' k l = Ok tt) as Hall; [|by rewrite (Hall 0%nat (txIn tx'))].
  intros k l. revert k. induction l as [|ti l IH]; intros k Hd; [done|]. cbn [validateInputs].
  assert (txIn tx' !! k = Some ti) as Hk by (rewrite <- (Nat.add_0_r k), <- lookup_drop, Hd; done).
  rewrite (IH (S k)); [|by rewrite <- Nat.add_1_r, <- drop_drop, Hd]. destruct (_ =? _); [done|].
  pose proof Hk as Hk'. rewrite Hin in Hk'. destruct (Forall2_lookup_r _ _ _ _ _ Hsame Hk') as (ti0&Hti0&(Eop&_)).
  destruct (assembled_input set tx redeems sigs tx' flags k ti) as (e&He&Hx); [done..| |done|].
  { intros j sig. apply Hsig. by apply lookup_lt_Some in Hti0. }
  rewrite Forall_lookup in Hv. destruct (Hv k ti0 Hti0) as (u&Hu&Hpk). unfold validateInput. by rewrite Eop, Hu, Hpk, He, Hx.
Qed.
End redeem.

Module Samples.

#[local] Existing Instance toyCrypto.
#[local] Existing Instance toyCrypto_ok.
#[local] Existing Instance Spend.Samples.toyEcdsa.
Import Spend.Samples.

Definition unspentView : UtxoViewpoint := mkView {[ coinOp := Some (mkEntry 1000 (signers_pkScript two) 1 0) ]} zeroHash.

Definition der (j : nat) : bytes := toySign (calcSignatureHash (redeemScript two) 1 unsigned 0) (keys !!! j).

(** The two signatures keep the encoding rules whatever the flags. *)
Lemma der_canonical j e : (j = 0 ∨ j = 2)%nat → checkSignatureEncoding e (der j) = Ok tt.
Proof.
  intros Hj. unfold checkSignatureEncoding.
  destruct (hasFlag e ScriptVerifyDERSignatures), (hasFlag e ScriptVerifyLowS), (hasFlag e ScriptVerifyStrictEncoding);
    destruct Hj; subst j; vm_compute; reflexivity.
Qed.

Lemma signers_sign j sig : lookup_sig sigs j 0 = Ok sig → signs two unsigned 0 j sig.
Proof.
  intros Hs. assert ((j = 0 ∨ j = 2)%nat ∧ sig = der j ++ [1]) as [Hj ->].
  { revert Hs. unfold lookup_sig, sigs.
    destruct (decide (j = 0%nat)) as [->|H0]; [rewrite lookup_insert_eq; intros [= <-]; split; [by left|done]|].
    destruct (decide (j = 2%nat)) as [->|H2]; [rewrite lookup_insert_ne, lookup_singleton_eq by done; intros [= <-]; split; [by right|done]|].
    by rewrite lookup_insert_ne, lookup_singleton_ne by done. }
  pose proof (fun e => der_canonical j e Hj) as Hd.
  exists (der j), (keys !!! j), (default (0, 0) (ParseDERSignature (der j))), (keys !!! j).
  split_and!; [done| |exact Hd|..]; clear Hd; destruct Hj; subst j; vm_compute; reflexivity.
Qed.

(** The first and the third signer of two required pay from the set's coin,
    under all flags but the witness's. *)
Definition flags : Z := Z.ldiff (Z.ones 21) ScriptVerifyWitness.

Lemma assembled_spends_witness : ValidateTransactionScripts (ScriptEngine := btcdScripts (fun _ _ _ => Ok tt)) payment unspentView flags = Ok tt.
Proof.
  apply (assembled_spends _ two unsigned [redeemScript two] sigs).
  - exact two_ok.
  - vm_compute. reflexivity.
  - vm_compute. reflexivity.
  - vm_compute. reflexivity.
  - by constructor.
  - constructor; [|constructor]. exists (mkEntry 1000 (signers_pkScript two) 1 0). split; vm_compute; reflexivity.
  - intros i j sig Hi _ Hs. assert (i = 0%nat) as -> by (cbn in Hi; lia). by apply signers_sign.
Defined.
End Samples.
