(* ===== verification/Lineage.v ===== *)
(** The anchor lineage (src/cmd/dogevm/lineage.go, and oldestCoin of
    bridge.go): which coin every transaction the signers sign must spend. *)

From S2P Require Import Prelude Text Wire Runtime Script Tags Amount Peg.

(** ** The order of outpoints *)

(** bytes.Compare(a, b) < 0 *)
Fixpoint bytesLess (a b : bytes) : bool :=
  match a, b with
  | _, [] => false
  | [], _ :: _ => true
  | x :: a, y :: b => if x =? y then bytesLess a b else x <? y
  end.

Definition outPointLess (a b : OutPoint) : bool :=
  if bool_decide (Hash a = Hash b) then Index a <? Index b else bytesLess (Hash a) (Hash b).

(** u comes before best: an older block, or the lower outpoint of the same. *)
Definition olderCoin (u best : utxo) : bool :=
  (u_confirmations best <? u_confirmations u) ||
  ((u_confirmations u =? u_confirmations best) && outPointLess (u_outPoint u) (u_outPoint best)).

Definition oldestCoin (coins : list utxo) : option utxo :=
  foldl (fun best u =>
      match best with
      | None => Some u
      | Some b => if olderCoin u b then Some u else best
      end) None coins.

(** ** The line *)

Record lineage := mkLineage {
  l_script : bytes;
  l_rootDepth : Z;
  l_spentBy : gmap OutPoint chainTx;
  l_coins : list utxo;
}.

Section lineage.
Context `{Crypto}.

(** The outputs tx pays to script, with their indices. *)
Fixpoint coinsAt (script hash : bytes) (conf : Z) (i : Z) (outs : list TxOut) : list utxo :=
  match outs with
  | [] => []
  | out :: outs =>
      (if bool_decide (PkScript out = script)
       then [mkUtxo (mkOutPoint hash (uint32 i)) (Value out) (PkScript out) conf] else [])
      ++ coinsAt script hash conf (i + 1) outs
  end.

Definition addLineageTx (l : lineage) (t : chainTx) : lineage :=
  if ct_confirmations t <=? 0 then l
  else mkLineage (l_script l) (l_rootDepth l)
    (foldl (fun m ti => <[PreviousOutPoint ti := t]> m) (l_spentBy l) (txIn (ct_tx t)))
    (l_coins l ++
     coinsAt (l_script l) (TxHash (ct_tx t)) (ct_confirmations t) 0 (txOut (ct_tx t))).

Definition newLineage (txs : list chainTx) (script : bytes) (rootDepth : Z) : lineage :=
  foldl addLineageTx (mkLineage script rootDepth ∅ []) txs.

Definition rootCandidate (l : lineage) (before : Z) (u : utxo) : bool :=
  negb ((u_confirmations u <? l_rootDepth l) ||
        ((0 <? before) && (before <=? u_confirmations u))).

Definition root (l : lineage) (before : Z) : option utxo :=
  let '(spent, unspent) := foldl (fun '(spent, unspent) u =>
      if negb (rootCandidate l before u) then (spent, unspent)
      else match l_spentBy l !! u_outPoint u with
           | Some _ => (spent ++ [u], unspent)
           | None => (spent, unspent ++ [u])
           end) ([], []) (l_coins l) in
  match spent with
  | _ :: _ => oldestCoin spent
  | [] => oldestCoin unspent
  end.

(** The last output paying script: its index. *)
Fixpoint lastOutput (script : bytes) (i : Z) (outs : list TxOut) : option Z :=
  match outs with
  | [] => None
  | out :: outs =>
      match lastOutput script (i + 1) outs with
      | Some j => Some j
      | None => if bool_decide (PkScript out = script) then Some i else None
      end
  end.

(** The coin after cur without a restart, and whether there is one. *)
Definition next (l : lineage) (cur : OutPoint) : result (OutPoint * bool) :=
  match l_spentBy l !! cur with
  | None => Ok (cur, false)
  | Some t =>
      match lastOutput (l_script l) 0 (txOut (ct_tx t)) with
      | Some i => Ok (mkOutPoint (TxHash (ct_tx t)) (uint32 i), true)
      | None => Err errLineEnded
      end
  end.

(** The coin after cur, with restarts; spentBy[cur]'s zero value has no
    confirmations. *)
Definition step (l : lineage) (cur : OutPoint) : result (OutPoint * bool) :=
  match next l cur with
  | Err errLineEnded =>
      let confirmations := match l_spentBy l !! cur with Some t => ct_confirmations t | None => 0 end in
      match root l confirmations with
      | Some r => Ok (u_outPoint r, true)
      | None => Err (Errorf "the anchor was spent by a transaction which pays nothing back to the peg")
      end
  | r => r
  end.

Record tipResult := mkTip { t_tip : OutPoint; t_root : OutPoint; t_moved : bool; t_ok : bool }.

(** [for range len(l.coins) + 1] *)
Fixpoint tipLoop (l : lineage) (root : OutPoint) (n : nat) (cur : OutPoint) (moved : bool)
    : tipResult * option error :=
  match n with
  | O => (mkTip cur root moved false, Some (Errorf "the anchor's line is longer than its coins"))
  | S n =>
      match step l cur with
      | Err e => (mkTip cur root moved false, Some e)
      | Ok (next, more) =>
          if negb more then (mkTip cur root moved true, None)
          else tipLoop l root n next true
      end
  end.

Definition tip (l : lineage) : tipResult * option error :=
  match root l 0 with
  | None => (mkTip zeroOutPoint zeroOutPoint false false, None)
  | Some r => tipLoop l (u_outPoint r) (length (l_coins l) + 1) (u_outPoint r) false
  end.

Definition anchorIn (l : lineage) (coins : list utxo) : option utxo :=
  match tip l with
  | (t, None) => if t_ok t then list_find (fun u => u_outPoint u = t_tip t) coins ≫= fun p => Some p.2
                 else None
  | (_, Some _) => None
  end.
End lineage.

(** ** The oldest coin is unique, whatever order the coins are listed in *)

Lemma bytesLess_irrefl a : bytesLess a a = false.
Proof. induction a as [|x a IH]; [done|]. simpl. by rewrite Z.eqb_refl. Qed.

Lemma bytesLess_asym a b : bytesLess a b = true → bytesLess b a = false.
Proof.
  revert b. induction a as [|x a IH]; intros [|y b]; simpl; try done.
  destruct (Z.eqb_spec x y) as [->|]; [rewrite Z.eqb_refl; apply IH|].
  rewrite (proj2 (Z.eqb_neq y x)) by done. intros ?%Z.ltb_lt. apply Z.ltb_ge. lia.
Qed.

Lemma bytesLess_total a b : a ≠ b → bytesLess a b = true ∨ bytesLess b a = true.
Proof.
  revert b. induction a as [|x a IH]; intros [|y b]; simpl; try (by auto).
  intros Hn. destruct (Z.eqb_spec x y) as [->|].
  - rewrite Z.eqb_refl. apply IH. naive_solver.
  - rewrite (proj2 (Z.eqb_neq y x)) by done. rewrite !Z.ltb_lt. lia.
Qed.

Lemma bytesLess_trans a b c :
  bytesLess a b = true → bytesLess b c = true → bytesLess a c = true.
Proof.
  revert b c. induction a as [|x a IH]; intros [|y b] [|z c]; simpl; try done.
  destruct (Z.eqb_spec x y) as [->|]; destruct (Z.eqb_spec y z) as [->|];
    repeat match goal with |- context [?x =? ?y] => destruct (Z.eqb_spec x y) end;
    rewrite ?Z.ltb_lt; try lia; eauto.
Qed.

Lemma outPointLess_asym a b : outPointLess a b = true → outPointLess b a = false.
Proof.
  unfold outPointLess. repeat case_bool_decide; try congruence.
  - intros ?%Z.ltb_lt. apply Z.ltb_ge. lia.
  - apply bytesLess_asym.
Qed.

Lemma outPointLess_total a b : a ≠ b → outPointLess a b = true ∨ outPointLess b a = true.
Proof.
  destruct a as [h i], b as [h' i']. unfold outPointLess; simpl. intros Hn.
  repeat case_bool_decide; try congruence.
  - subst. rewrite !Z.ltb_lt. assert (i ≠ i') by congruence. lia.
  - by apply bytesLess_total.
Qed.

Lemma outPointLess_trans a b c :
  outPointLess a b = true → outPointLess b c = true → outPointLess a c = true.
Proof.
  unfold outPointLess. repeat case_bool_decide; rewrite ?Z.ltb_lt; try congruence.
  - lia.
  - intros Hab Hbc. destruct a, b, c; simpl in *; subst.
    by rewrite (bytesLess_asym _ _ Hab) in Hbc.
  - apply bytesLess_trans.
Qed.

Lemma olderCoin_asym a b : olderCoin a b = true → olderCoin b a = false.
Proof.
  unfold olderCoin. rewrite orb_true_iff, andb_true_iff, orb_false_iff, andb_false_iff,
    Z.ltb_lt, Z.ltb_ge, Z.eqb_eq, Z.eqb_neq.
  intros [|[? ?%outPointLess_asym]]; intuition lia.
Qed.

Lemma olderCoin_trans a b c :
  olderCoin a b = true → olderCoin b c = true → olderCoin a c = true.
Proof.
  unfold olderCoin. rewrite !orb_true_iff, !andb_true_iff, !Z.ltb_lt, !Z.eqb_eq.
  intros [?|[? H1]] [?|[? H2]]; try (left; lia).
  right. split; [lia|]. by eapply outPointLess_trans.
Qed.

Lemma olderCoin_total a b :
  u_outPoint a ≠ u_outPoint b → olderCoin a b = true ∨ olderCoin b a = true.
Proof.
  intros Hn. unfold olderCoin. rewrite !orb_true_iff, !andb_true_iff, !Z.ltb_lt, !Z.eqb_eq.
  destruct (outPointLess_total _ _ Hn); destruct (Z.lt_total (u_confirmations a) (u_confirmations b))
    as [?|[?|?]]; intuition lia.
Qed.

(** u is the oldest of l. *)
Definition is_oldest (u : utxo) (l : list utxo) : Prop :=
  u ∈ l ∧ ∀ v, v ∈ l → v = u ∨ olderCoin u v = true.

Lemma oldestCoin_go l best :
  NoDup (u_outPoint <$> best :: l) →
  ∃ u, foldl (fun best u =>
      match best with
      | None => Some u
      | Some b => if olderCoin u b then Some u else best
      end) (Some best) l = Some u ∧ is_oldest u (best :: l).
Proof.
  revert best. induction l as [|v l IH]; intros best Hnd.
  - exists best. split; [done|]. split; [by left|]. intros v Hv. left. set_solver.
  - simpl. rewrite !fmap_cons in Hnd. apply NoDup_cons in Hnd as [Hb Hnd].
    pose proof Hnd as [Hv Hl]%NoDup_cons.
    assert (Hne : u_outPoint best ≠ u_outPoint v) by set_solver.
    destruct (olderCoin v best) eqn:E.
    + destruct (IH v) as (u & -> & Hin & Hall); [done|]. exists u. split; [done|].
      split; [by right|]. intros w Hw. apply elem_of_cons in Hw as [->|Hw]; [|auto].
      right. destruct (Hall v) as [->|Hvu]; [by left|done|]. by eapply olderCoin_trans.
    + destruct (IH best) as (u & -> & Hin & Hall).
      { rewrite fmap_cons. apply NoDup_cons; set_solver. }
      exists u. split; [done|].
      destruct (olderCoin_total best v) as [Hbv|]; [done| |congruence].
      split; [set_solver|]. intros w Hw.
      apply elem_of_cons in Hw as [->|Hw]; [apply Hall; by left|].
      apply elem_of_cons in Hw as [->|Hw]; [|apply Hall; by right].
      right. destruct (Hall best) as [->|?]; [by left|done|]. by eapply olderCoin_trans.
Qed.

Lemma oldestCoin_None l : oldestCoin l = None ↔ l = [].
Proof.
  split; [|by intros ->]. destruct l as [|u l]; [done|]. unfold oldestCoin; simpl.
  revert u. induction l as [|v l IH]; intros u; simpl; [done|].
  intros Hf. destruct (olderCoin v u); by apply IH in Hf.
Qed.

Lemma oldestCoin_spec l u :
  NoDup (u_outPoint <$> l) → oldestCoin l = Some u ↔ is_oldest u l.
Proof.
  intros Hnd. destruct l as [|v l].
  { split; [done|]. intros [Hu _]. by apply elem_of_nil in Hu. }
  unfold oldestCoin; simpl. destruct (oldestCoin_go l v Hnd) as (w & -> & Hw).
  split; [by intros [= <-]|]. intros Hu. f_equal.
  destruct Hw as [Hw Hwall], Hu as [Hu Huall].
  destruct (Hwall u Hu) as [|H1]; [done|]. destruct (Huall w Hw) as [|H2]; [done|].
  by rewrite (olderCoin_asym _ _ H1) in H2.
Qed.

Lemma oldestCoin_perm l1 l2 :
  NoDup (u_outPoint <$> l1) → l1 ≡ₚ l2 → oldestCoin l1 = oldestCoin l2.
Proof.
  intros Hnd Hp. assert (Hnd2 : NoDup (u_outPoint <$> l2)) by by rewrite <- Hp.
  destruct (oldestCoin l2) as [u|] eqn:E.
  - apply oldestCoin_spec in E; [|done]. apply oldestCoin_spec; [done|].
    unfold is_oldest in *. by setoid_rewrite Hp.
  - apply oldestCoin_None in E as ->. apply Permutation_nil_r in Hp as ->. done.
Qed.

Lemma oldestCoin_in l u : oldestCoin l = Some u → u ∈ l.
Proof.
  destruct l as [|v l]; [done|]. unfold oldestCoin; simpl.
  revert v. induction l as [|w l IH]; intros v; simpl; [intros [= ->]; by left|].
  intros Hf. destruct (olderCoin w v); apply IH in Hf; set_solver.
Qed.

Lemma lastOutput_spec script i outs j :
  lastOutput script i outs = Some j →
  ∃ k out, outs !! k = Some out ∧ PkScript out = script ∧ j = i + Z.of_nat k.
Proof.
  revert i. induction outs as [|o outs IH]; intros i; simpl; [done|].
  destruct (lastOutput script (i + 1) outs) as [j'|] eqn:E.
  - intros [= <-]. destruct (IH _ E) as (k & out & Hk & Hs & ->).
    exists (S k), out. split_and!; [done..|lia].
  - case_bool_decide; [|done]. intros [= <-]. exists 0%nat, o. split_and!; [done..|lia].
Qed.

(** ** The line depends on the confirmed transactions alone *)

Section agreement.
Context `{Crypto}.

Definition is_confirmed (t : chainTx) : Prop := 0 < ct_confirmations t.

(** What consensus keeps of the confirmed transactions a node lists: each is
    listed once, and no output is spent twice. *)
Record history_ok (txs : list chainTx) : Prop := {
  history_ids : NoDup ((fun t => TxHash (ct_tx t)) <$> txs);
  history_spends : NoDup (txs ≫= fun t => spentOuts (ct_tx t));
  history_outs : Forall (fun t => Z.of_nat (length (txOut (ct_tx t))) < two32) txs;
}.

Definition txCoins (script : bytes) (t : chainTx) : list utxo :=
  coinsAt script (TxHash (ct_tx t)) (ct_confirmations t) 0 (txOut (ct_tx t)).

Lemma newLineage_fields txs l :
  let l' := foldl addLineageTx l txs in
  let c := filter is_confirmed txs in
  l_script l' = l_script l ∧ l_rootDepth l' = l_rootDepth l ∧
  l_coins l' = l_coins l ++ (c ≫= txCoins (l_script l)) ∧
  l_spentBy l' = foldl (fun m t => foldl (fun m ti => <[PreviousOutPoint ti := t]> m) m (txIn (ct_tx t)))
    (l_spentBy l) c.
Proof.
  revert l. induction txs as [|t txs IH]; intros l; simpl.
  { by rewrite app_nil_r. }
  destruct (IH (addLineageTx l t)) as (-> & -> & -> & ->).
  unfold addLineageTx, is_confirmed. rewrite filter_cons.
  destruct (Z.leb_spec (ct_confirmations t) 0).
  - by rewrite decide_False by lia.
  - rewrite decide_True by lia. simpl. by rewrite <- app_assoc.
Qed.

Lemma spentBy_other txs (m : gmap OutPoint chainTx) op :
  op ∉ (txs ≫= fun t => prevOuts (ct_tx t)) →
  foldl (fun m t => foldl (fun m ti => <[PreviousOutPoint ti := t]> m) m (txIn (ct_tx t))) m txs !! op
  = m !! op.
Proof.
  revert m. induction txs as [|t txs IH]; intros m Hop; [done|]. simpl in *.
  rewrite elem_of_app in Hop. rewrite IH by tauto.
  assert (Hin : op ∉ prevOuts (ct_tx t)) by tauto. clear Hop IH.
  unfold prevOuts in Hin. revert m. induction (txIn (ct_tx t)) as [|ti ins IH]; intros m; [done|].
  simpl in *. rewrite IH by set_solver. apply lookup_insert_ne. set_solver.
Qed.

Lemma spentBy_tx (t : chainTx) (m : gmap OutPoint chainTx) ins op :
  op ∈ (PreviousOutPoint <$> ins) →
  foldl (fun m ti => <[PreviousOutPoint ti := t]> m) m ins !! op = Some t.
Proof.
  revert m. induction ins as [|ti ins IH]; intros m Hop; [set_solver|]. simpl.
  destruct (decide (op ∈ (PreviousOutPoint <$> ins))) as [|Hn]; [by apply IH|].
  assert (op = PreviousOutPoint ti) as -> by set_solver. clear IH Hop.
  assert (He : <[PreviousOutPoint ti := t]> m !! PreviousOutPoint ti = Some t)
    by apply lookup_insert_eq.
  revert He. generalize (<[PreviousOutPoint ti := t]> m). clear m.
  revert Hn. induction ins as [|ti' ins IH]; intros Hn m He; [done|]. simpl.
  apply IH; [set_solver|]. rewrite lookup_insert_ne by set_solver. done.
Qed.

(** spentBy holds exactly the confirmed spends. *)
Lemma spentBy_spec txs script d op t :
  history_ok (filter is_confirmed txs) → op ≠ nullOut →
  l_spentBy (newLineage txs script d) !! op = Some t ↔
  t ∈ filter is_confirmed txs ∧ op ∈ prevOuts (ct_tx t).
Proof.
  intros [_ Hs _] Hnull. unfold newLineage.
  destruct (newLineage_fields txs (mkLineage script d ∅ [])) as (_ & _ & _ & ->). simpl.
  assert (Hm : (∅ : gmap OutPoint chainTx) !! op = None) by apply lookup_empty.
  revert Hm. generalize (∅ : gmap OutPoint chainTx).
  induction (filter is_confirmed txs) as [|t' l IH]; intros m Hm; simpl.
  { rewrite Hm. split; [done|]. intros [Hin _]. by apply elem_of_nil in Hin. }
  simpl in Hs. apply NoDup_app in Hs as (Hs1 & Hdis & Hs2).
  destruct (decide (op ∈ prevOuts (ct_tx t'))) as [Hop|Hop].
  - assert (Hx : ∀ t, t ∈ l → op ∉ prevOuts (ct_tx t)).
    { intros t'' Ht'' Hop''. apply (Hdis op); [|apply list_elem_of_bind; exists t''; split; [|done]];
        by apply list_elem_of_filter. }
    rewrite spentBy_other by (intros (t'' & ? & ?)%list_elem_of_bind; by eapply Hx).
    rewrite spentBy_tx by done.
    rewrite elem_of_cons. split; [naive_solver|]. intros [[->|Ht] Hop']; [done|].
    by destruct (Hx t).
  - rewrite IH; [|done|].
    + rewrite elem_of_cons. naive_solver.
    + clear IH Hs1 Hdis Hs2. unfold prevOuts in Hop.
      revert m Hm. induction (txIn (ct_tx t')) as [|ti ins IHi]; intros m Hm; [done|].
      simpl in *. apply IHi; [set_solver|]. rewrite lookup_insert_ne by set_solver. done.
Qed.

(** Whatever spentBy holds is a confirmed transaction. *)
Lemma spentBy_in txs script d op t :
  l_spentBy (newLineage txs script d) !! op = Some t → t ∈ filter is_confirmed txs.
Proof.
  unfold newLineage. destruct (newLineage_fields txs (mkLineage script d ∅ [])) as (_ & _ & _ & ->). simpl.
  intros Ht. revert op t Ht. generalize (filter is_confirmed txs) as c. intros c op t.
  apply (foldl_inv (fun m : gmap OutPoint chainTx => m !! op = Some t → t ∈ c)).
  { by rewrite lookup_empty. }
  intros m t' Hin Hm. apply (foldl_inv (fun m : gmap OutPoint chainTx => m !! op = Some t → t ∈ c)); [done|].
  intros m' ti _ Hm'. rewrite lookup_insert_Some. naive_solver.
Qed.

Lemma newLineage_coins txs script d :
  l_coins (newLineage txs script d) = filter is_confirmed txs ≫= txCoins script.
Proof. unfold newLineage. by destruct (newLineage_fields txs (mkLineage script d ∅ [])) as (_ & _ & -> & _). Qed.

Lemma newLineage_script txs script d : l_script (newLineage txs script d) = script.
Proof. unfold newLineage. by destruct (newLineage_fields txs (mkLineage script d ∅ [])) as (-> & _). Qed.

Lemma newLineage_rootDepth txs script d : l_rootDepth (newLineage txs script d) = d.
Proof. unfold newLineage. by destruct (newLineage_fields txs (mkLineage script d ∅ [])) as (_ & -> & _). Qed.

Lemma coinsAt_elem script hash conf i outs u :
  u ∈ coinsAt script hash conf i outs ↔
  ∃ k out, outs !! k = Some out ∧ PkScript out = script ∧
    u = mkUtxo (mkOutPoint hash (uint32 (i + Z.of_nat k))) (Value out) (PkScript out) conf.
Proof.
  revert i. induction outs as [|o outs IH]; intros i; simpl.
  { split; [by intros ?%elem_of_nil|]. intros (k & out & Hk & _). by rewrite lookup_nil in Hk. }
  rewrite elem_of_app, IH. split.
  - intros [Hu|(k & out & Hk & Hs & ->)].
    + case_bool_decide; [|by apply elem_of_nil in Hu].
      apply list_elem_of_singleton in Hu as ->. exists 0%nat, o. split_and!; [done..|].
      by rewrite Z.add_0_r.
    + exists (S k), out. split_and!; [done..|]. do 3 f_equal. lia.
  - intros ([|k] & out & Hk & Hs & ->); simpl in Hk.
    + simplify_eq. left. rewrite bool_decide_eq_true_2 by done.
      apply list_elem_of_singleton. by rewrite Z.add_0_r.
    + right. exists k, out. split_and!; [done..|]. do 3 f_equal. lia.
Qed.

Lemma coinsAt_NoDup script hash conf i outs :
  0 ≤ i → i + Z.of_nat (length outs) ≤ two32 →
  NoDup (u_outPoint <$> coinsAt script hash conf i outs).
Proof.
  revert i. induction outs as [|o outs IH]; intros i Hi Hl; simpl in *; [constructor|].
  case_bool_decide; simpl; [|apply IH; lia].
  apply NoDup_cons. split; [|apply IH; lia].
  intros (u & Hu & Hin)%list_elem_of_fmap.
  apply coinsAt_elem in Hin as (k & out & Hk & _ & ->). simpl in Hu.
  injection Hu as Hu. apply lookup_lt_Some in Hk. unfold uint32, two32 in *.
  rewrite !Z.mod_small in Hu by lia. lia.
Qed.

Lemma coins_NoDup txs script :
  history_ok txs → NoDup (u_outPoint <$> (txs ≫= txCoins script)).
Proof.
  intros [Hids _ Houts]. induction txs as [|t txs IH]; simpl; [constructor|].
  apply NoDup_cons in Hids as [Ht Hids]. apply Forall_cons in Houts as [Ho Houts].
  rewrite fmap_app. apply NoDup_app. split_and!; [|..|by apply IH].
  - apply coinsAt_NoDup; lia.
  - intros op (u & -> & Hu)%list_elem_of_fmap (v & E & Hv)%list_elem_of_fmap.
    apply list_elem_of_bind in Hv as (t' & Hv & Ht').
    apply coinsAt_elem in Hu as (k & o & _ & _ & ->). apply coinsAt_elem in Hv as (k' & o' & _ & _ & ->).
    simpl in E. apply Ht. injection E as E _. rewrite E. apply list_elem_of_fmap. eauto.
Qed.

Lemma small_index hash i : 0 ≤ i < two32 - 1 → mkOutPoint hash (uint32 i) ≠ nullOut.
Proof.
  unfold nullOut, MaxPrevOutIndex, uint32, two32. intros Hi [= _ E]. rewrite Z.mod_small in E; lia.
Qed.

(** No coin is a coinbase's null input. *)
Lemma coins_real txs script u :
  history_ok txs → u ∈ (txs ≫= txCoins script) → u_outPoint u ≠ nullOut.
Proof.
  intros [_ _ Ho] (t & Hu & Ht)%list_elem_of_bind. rewrite Forall_forall in Ho.
  specialize (Ho t Ht). apply coinsAt_elem in Hu as (k & out & Hk & _ & ->). simpl.
  apply lookup_lt_Some in Hk. apply (small_index (TxHash (ct_tx t)) (0 + Z.of_nat k)). lia.
Qed.

(** Two readings of one line: the same spends (coinbases apart), the coins in
    any order. *)
Record same_line (l1 l2 : lineage) : Prop := {
  same_script : l_script l1 = l_script l2;
  same_depth : l_rootDepth l1 = l_rootDepth l2;
  same_spentBy op : op ≠ nullOut → l_spentBy l1 !! op = l_spentBy l2 !! op;
  same_coins : l_coins l1 ≡ₚ l_coins l2;
  same_real u : u ∈ l_coins l1 → u_outPoint u ≠ nullOut;
  same_outs op t : op ≠ nullOut → l_spentBy l1 !! op = Some t →
    Z.of_nat (length (txOut (ct_tx t))) < two32;
}.

Definition spentCoin (l : lineage) (before : Z) (u : utxo) : Prop :=
  rootCandidate l before u = true ∧ is_Some (l_spentBy l !! u_outPoint u).
Definition unspentCoin (l : lineage) (before : Z) (u : utxo) : Prop :=
  rootCandidate l before u = true ∧ l_spentBy l !! u_outPoint u = None.

#[export] Instance spentCoin_dec l before u : Decision (spentCoin l before u).
Proof. unfold spentCoin. apply _. Defined.
#[export] Instance unspentCoin_dec l before u : Decision (unspentCoin l before u).
Proof. unfold unspentCoin. apply _. Defined.

Lemma root_filter l before :
  root l before = match filter (spentCoin l before) (l_coins l) with
    | [] => oldestCoin (filter (unspentCoin l before) (l_coins l))
    | s => oldestCoin s
    end.
Proof.
  unfold root.
  assert (Hf : ∀ coins s u, foldl (fun '(spent, unspent) u =>
      if negb (rootCandidate l before u) then (spent, unspent)
      else match l_spentBy l !! u_outPoint u with
           | Some _ => (spent ++ [u], unspent)
           | None => (spent, unspent ++ [u])
           end) (s, u) coins =
    (s ++ filter (spentCoin l before) coins, u ++ filter (unspentCoin l before) coins)).
  { intros coins. induction coins as [|c coins IH]; intros s u; simpl.
    { by rewrite !app_nil_r. }
    rewrite !filter_cons.
    destruct (rootCandidate l before c) eqn:Er; simpl.
    - destruct (l_spentBy l !! u_outPoint c) eqn:El; rewrite IH.
      + rewrite decide_True by (split; eauto). rewrite decide_False by (intros [_ ?]; congruence).
        by rewrite <- app_assoc.
      + rewrite decide_False by (intros [_ [? ?]]; congruence). rewrite decide_True by (split; done).
        by rewrite <- app_assoc.
    - rewrite IH. by rewrite !decide_False by (intros [? _]; congruence). }
  rewrite Hf. simpl. by destruct (filter _ _).
Qed.

Lemma filter_same {A} (P Q : A → Prop) `{∀ x, Decision (P x), ∀ x, Decision (Q x)} (l : list A) :
  (∀ x, x ∈ l → P x ↔ Q x) → filter P l = filter Q l.
Proof.
  induction l as [|x l IH]; intros Hl; [done|]. rewrite !filter_cons.
  rewrite IH by (intros; apply Hl; by right). specialize (Hl x ltac:(by left)).
  repeat case_decide; tauto.
Qed.

Lemma root_same l1 l2 before :
  NoDup (u_outPoint <$> l_coins l1) → same_line l1 l2 → root l1 before = root l2 before.
Proof.
  intros Hnd [Hs Hd Hb Hc Hr _]. rewrite !root_filter.
  rewrite (filter_same (spentCoin l1 before) (spentCoin l2 before)), 
    (filter_same (unspentCoin l1 before) (unspentCoin l2 before)).
  2, 3: intros u Hu; unfold spentCoin, unspentCoin, rootCandidate; by rewrite Hd, Hb by auto.
  assert (H1 : filter (spentCoin l2 before) (l_coins l1) ≡ₚ filter (spentCoin l2 before) (l_coins l2))
    by by rewrite Hc.
  assert (H2 : filter (unspentCoin l2 before) (l_coins l1) ≡ₚ filter (unspentCoin l2 before) (l_coins l2))
    by by rewrite Hc.
  assert (Hsub : ∀ P `{∀ x, Decision (P x)}, NoDup (u_outPoint <$> filter P (l_coins l1))).
  { intros P ?. eapply sublist_NoDup; [exact Hnd|]. apply fmap_sublist, sublist_filter. }
  pose proof (oldestCoin_perm _ _ (Hsub _ _) H1) as E1.
  pose proof (oldestCoin_perm _ _ (Hsub _ _) H2) as E2.
  destruct (filter (spentCoin l2 before) (l_coins l1)) eqn:F1;
    destruct (filter (spentCoin l2 before) (l_coins l2)) eqn:F2; try done.
  - by apply Permutation_nil_l in H1.
  - by apply Permutation_nil_r in H1.
Qed.

Lemma step_same l1 l2 cur :
  NoDup (u_outPoint <$> l_coins l1) → same_line l1 l2 → cur ≠ nullOut → step l1 cur = step l2 cur.
Proof.
  intros Hnd Hl Hcur. unfold step, next.
  rewrite (same_spentBy _ _ Hl), (same_script _ _ Hl) by done.
  destruct (l_spentBy l2 !! cur) as [t|]; [|done].
  destruct (lastOutput _ _ _); [done|]. by rewrite (root_same _ _ _ Hnd Hl).
Qed.

Lemma root_in l before r : root l before = Some r → r ∈ l_coins l.
Proof.
  rewrite root_filter. destruct (filter (spentCoin l before) (l_coins l)) as [|v s] eqn:E.
  - intros Hr%oldestCoin_in. by apply list_elem_of_filter in Hr as [_ ?].
  - rewrite <- E. intros Hr%oldestCoin_in. by apply list_elem_of_filter in Hr as [_ ?].
Qed.

Lemma step_real l1 l2 cur nxt :
  same_line l1 l2 → cur ≠ nullOut → step l1 cur = Ok (nxt, true) → nxt ≠ nullOut.
Proof.
  intros Hl Hcur. unfold step, next. destruct (l_spentBy l1 !! cur) as [t|] eqn:E; [|done].
  destruct (lastOutput _ _ _) as [i|] eqn:El.
  - intros [= <-]. apply lastOutput_spec in El as (k & out & Hk & _ & ->).
    apply small_index. apply lookup_lt_Some in Hk. pose proof (same_outs _ _ Hl _ _ Hcur E). lia.
  - destruct (root l1 _) as [r|] eqn:Hr; [|done]. intros [= <-].
    by eapply same_real, root_in.
Qed.

Lemma tip_same l1 l2 :
  NoDup (u_outPoint <$> l_coins l1) → same_line l1 l2 → tip l1 = tip l2.
Proof.
  intros Hnd Hl. unfold tip. rewrite (root_same _ _ _ Hnd Hl).
  destruct (root l2 0) as [r|] eqn:Hr; [|done].
  rewrite (Permutation_length (same_coins _ _ Hl)).
  assert (Hcur : u_outPoint r ≠ nullOut).
  { eapply same_real; [done|]. rewrite (same_coins _ _ Hl). by eapply root_in. }
  revert Hcur. generalize (u_outPoint r) at 1 3 5 as cur. generalize false as moved.
  induction (length (l_coins l2) + 1)%nat as [|n IH]; intros moved cur Hcur; [done|].
  simpl. rewrite (step_same _ _ _ Hnd Hl) by done.
  destruct (step l2 cur) as [[nxt []]|] eqn:Hs; [|done|done]. apply IH.
  rewrite <- (step_same _ _ _ Hnd Hl) in Hs by done. by eapply step_real.
Qed.

Lemma history_ok_perm txs1 txs2 : txs1 ≡ₚ txs2 → history_ok txs1 → history_ok txs2.
Proof.
  intros Hp [Hi Hs Ho]. split.
  - by rewrite <- Hp.
  - by rewrite <- Hp.
  - by rewrite <- Hp.
Qed.

Lemma newLineage_same txs1 txs2 script d :
  history_ok (filter is_confirmed txs1) →
  filter is_confirmed txs1 ≡ₚ filter is_confirmed txs2 →
  same_line (newLineage txs1 script d) (newLineage txs2 script d).
Proof.
  intros Hok Hp. pose proof (history_ok_perm _ _ Hp Hok) as Hok2. split.
  - by rewrite !newLineage_script.
  - by rewrite !newLineage_rootDepth.
  - intros op Hop. apply option_eq. intros t. rewrite !spentBy_spec by done. by rewrite Hp.
  - rewrite !newLineage_coins. by rewrite Hp.
  - intros u. rewrite newLineage_coins. by apply coins_real.
  - intros op t Hop Ht. apply spentBy_spec in Ht as [Ht _]; [|done..].
    pose proof (history_outs _ Hok) as Ho. rewrite Forall_forall in Ho. by apply Ho.
Qed.

(** C16. Every signer that reads the same blocks finds the same anchor: two
    listings of a script's history with the same confirmed transactions, in any
    order and with any unconfirmed ones beside them, give the same tip, root
    and errors, so a payment shown in a mempool or a node's order of listing
    never moves the anchor. *)
Theorem tip_agrees txs1 txs2 script d :
  history_ok (filter is_confirmed txs1) →
  filter is_confirmed txs1 ≡ₚ filter is_confirmed txs2 →
  tip (newLineage txs1 script d) = tip (newLineage txs2 script d).
Proof.
  intros Hok Hp. apply tip_same; [|by apply newLineage_same].
  rewrite newLineage_coins. by apply coins_NoDup.
Qed.
End agreement.

(** ** Following the line ends *)

Section termination.
Context `{Crypto}.

(** The order of a chain's transactions, blocks first: pos numbers them so
    that a spend comes after what it spends and a deeper block before a
    shallower one. *)
Record chain_order (txs : list chainTx) (pos : bytes → Z) : Prop := {
  order_spend t t' op : t ∈ txs → t' ∈ txs → op ∈ prevOuts (ct_tx t) → Hash op = TxHash (ct_tx t') →
    pos (TxHash (ct_tx t')) < pos (TxHash (ct_tx t));
  order_depth t t' : t ∈ txs → t' ∈ txs → ct_confirmations t < ct_confirmations t' →
    pos (TxHash (ct_tx t')) < pos (TxHash (ct_tx t));
}.

Lemma coins_elem txs script d u :
  u ∈ l_coins (newLineage txs script d) ↔
  ∃ t k out, t ∈ filter is_confirmed txs ∧ txOut (ct_tx t) !! k = Some out ∧ PkScript out = script ∧
    u = mkUtxo (mkOutPoint (TxHash (ct_tx t)) (uint32 (Z.of_nat k))) (Value out) (PkScript out)
          (ct_confirmations t).
Proof.
  rewrite newLineage_coins, list_elem_of_bind. unfold txCoins. setoid_rewrite coinsAt_elem.
  simpl. naive_solver.
Qed.

Lemma root_elem l before r :
  NoDup (u_outPoint <$> l_coins l) → root l before = Some r →
  r ∈ l_coins l ∧ rootCandidate l before r = true.
Proof.
  intros Hnd. rewrite root_filter.
  assert (Hsub : ∀ P `{∀ x, Decision (P x)}, NoDup (u_outPoint <$> filter P (l_coins l))).
  { intros P ?. eapply sublist_NoDup; [exact Hnd|]. apply fmap_sublist, sublist_filter. }
  destruct (filter (spentCoin l before) (l_coins l)) as [|v s] eqn:E.
  - intros Hr. apply oldestCoin_spec in Hr as [Hr _]; [|by apply Hsub].
    apply list_elem_of_filter in Hr as [[? _] ?]. done.
  - rewrite <- E. intros Hr. apply oldestCoin_spec in Hr as [Hr _]; [|by apply Hsub].
    apply list_elem_of_filter in Hr as [[? _] ?]. done.
Qed.

Context (txs : list chainTx) (script : bytes) (d : Z) (pos : bytes → Z).
Hypothesis Hok : history_ok (filter is_confirmed txs).
Hypothesis Hord : chain_order (filter is_confirmed txs) pos.

Let l := newLineage txs script d.
Let coinPos (u : utxo) : Z := pos (Hash (u_outPoint u)).

Lemma line_NoDup : NoDup (u_outPoint <$> l_coins l).
Proof. unfold l. rewrite newLineage_coins. by apply coins_NoDup. Qed.

(** Each step leads to a coin later in the chain. *)
Lemma step_later cur nxt :
  cur ∈ l_coins l → step l (u_outPoint cur) = Ok (nxt, true) →
  ∃ v, v ∈ l_coins l ∧ u_outPoint v = nxt ∧ coinPos cur < coinPos v.
Proof.
  intros Hc Hs. pose proof Hc as Hreal. unfold l in Hreal. rewrite newLineage_coins in Hreal.
  apply (coins_real _ _ _ Hok) in Hreal. apply coins_elem in Hc as (tc & kc & oc & Htc & Hkc & Hsc & ->).
  unfold step, next in Hs. simpl in Hs.
  set (op := mkOutPoint _ _) in *.
  destruct (l_spentBy l !! op) as [t|] eqn:Hsp; [|by simplify_eq].
  apply spentBy_spec in Hsp as [Ht Hop]; [|done..].
  assert (Hlt : pos (TxHash (ct_tx tc)) < pos (TxHash (ct_tx t))).
  { by apply (order_spend _ _ Hord t tc op). }
  unfold l in Hs. rewrite newLineage_script in Hs. fold l in Hs.
  destruct (lastOutput script 0 (txOut (ct_tx t))) as [i|] eqn:El.
  - injection Hs as <-. apply lastOutput_spec in El as (k & out & Hk & Hso & ->).
    eexists. split; [apply coins_elem; exists t, k, out; by split_and!|]. done.
  - destruct (root l (ct_confirmations t)) as [r|] eqn:Er; [|done].
    injection Hs as <-. apply root_elem in Er as [Hr Hcand]; [|apply line_NoDup].
    exists r. split_and!; [done..|]. unfold coinPos. simpl.
    apply coins_elem in Hr as (tr & kr & orr & Htr & Hkr & Hsr & ->). simpl in *.
    transitivity (pos (TxHash (ct_tx t))); [done|]. apply (order_depth _ _ Hord); [done..|].
    unfold rootCandidate in Hcand. simpl in Hcand.
    apply list_elem_of_filter in Ht as [Htp _]. unfold is_confirmed in Htp.
    rewrite negb_true_iff, orb_false_iff, andb_false_iff, Z.ltb_ge, Z.leb_gt in Hcand. lia.
Qed.

(** How many coins come after cur: the loop's measure. *)
Definition later (cur : utxo) : nat := length (filter (fun v => coinPos cur < coinPos v) (l_coins l)).

Lemma later_decreases cur v :
  v ∈ l_coins l → coinPos cur < coinPos v → (later v < later cur)%nat.
Proof.
  unfold later. intros Hv Hlt. induction (l_coins l) as [|w ws IH]; [by apply elem_of_nil in Hv|].
  assert (Hle : (length (filter (fun u => (coinPos v < coinPos u)%Z) ws) ≤
                 length (filter (fun u => (coinPos cur < coinPos u)%Z) ws))%nat).
  { clear IH Hv. induction ws as [|x ws IH]; [done|]. rewrite !filter_cons.
    repeat case_decide; simpl; lia. }
  apply elem_of_cons in Hv as [->|Hv]; rewrite !filter_cons.
  - rewrite decide_False by lia. rewrite decide_True by lia. simpl. lia.
  - specialize (IH Hv). repeat case_decide; simpl; lia.
Qed.

Lemma later_bound cur : cur ∈ l_coins l → (later cur < length (l_coins l))%nat.
Proof.
  unfold later. intros Hc. induction (l_coins l) as [|w ws IH]; [by apply elem_of_nil in Hc|].
  rewrite filter_cons. apply elem_of_cons in Hc as [->|Hc].
  - rewrite decide_False by lia. simpl. pose proof (length_filter (fun v => coinPos w < coinPos v) ws). lia.
  - specialize (IH Hc). case_decide; simpl; lia.
Qed.

Definition linked (a b : OutPoint) : Prop := step l a = Ok (b, true).

Lemma tipLoop_ends n r cur moved t e :
  cur ∈ l_coins l → (later cur < n)%nat →
  tipLoop l r n (u_outPoint cur) moved = (t, e) →
  ∃ u, u ∈ l_coins l ∧ t_tip t = u_outPoint u ∧ t_root t = r ∧ rtc linked (u_outPoint cur) (t_tip t) ∧
    match e with
    | None => t_ok t = true ∧ l_spentBy l !! t_tip t = None
    | Some _ => t_ok t = false ∧ next l (t_tip t) = Err errLineEnded
    end.
Proof.
  revert cur moved. induction n as [|n IH]; intros cur moved Hc Hn Ht; [lia|]. simpl in Ht.
  destruct (step l (u_outPoint cur)) as [[nxt more]|err] eqn:Hs.
  - destruct more; simpl in Ht.
    + destruct (step_later _ _ Hc Hs) as (v & Hv & <- & Hlt).
      destruct (IH v true Hv) as (u & Hu & Htip & Hroot & Hr & He); [|done|].
      { pose proof (later_decreases _ _ Hv Hlt). lia. }
      exists u. split_and!; try done. by eapply rtc_l.
    + simplify_eq; simpl. exists cur. split_and!; try done. unfold step, next in Hs.
      destruct (l_spentBy l !! u_outPoint cur); [|done]. destruct (lastOutput _ _ _); [done|].
      by destruct (root _ _).
  - simplify_eq; simpl. exists cur. split_and!; try done. unfold step in Hs.
    unfold next in *. destruct (l_spentBy l !! u_outPoint cur); [|done].
    by destruct (lastOutput _ _ _).
Qed.
End termination.

(** C17. Following the line always ends where it should: on a chain (spends
    after what they spend, deeper blocks first) the loop's bound of one step per
    coin is never reached. The tip is a coin at script, reached from the root
    along confirmed spends, that no confirmed transaction spends; the only error
    is a line that ended (a confirmed spend paying nothing back, and no later
    coin to start again from), and there is no tip only while there is no root. *)
Theorem tip_spec `{Crypto} txs script d pos t e :
  history_ok (filter is_confirmed txs) → chain_order (filter is_confirmed txs) pos →
  let l := newLineage txs script d in
  tip l = (t, e) →
  match root l 0 with
  | None => e = None ∧ t_ok t = false
  | Some r =>
      t_root t = u_outPoint r ∧
      (∃ u, u ∈ l_coins l ∧ t_tip t = u_outPoint u) ∧
      rtc (linked txs script d) (u_outPoint r) (t_tip t) ∧
      match e with
      | None => t_ok t = true ∧ l_spentBy l !! t_tip t = None
      | Some _ => t_ok t = false ∧ next l (t_tip t) = Err errLineEnded
      end
  end.
Proof.
  intros Hok Hord l Ht. unfold tip in Ht. destruct (root l 0) as [r|] eqn:Hr; [|by simplify_eq].
  apply root_elem in Hr as [Hin _]; [|by apply line_NoDup].
  assert (Hn : (later txs script d pos r < length (l_coins l) + 1)%nat).
  { pose proof (later_bound txs script d pos r Hin) as Hb. fold l in Hb. lia. }
  destruct (tipLoop_ends txs script d pos Hok Hord _ _ _ _ _ _ Hin Hn Ht)
    as (u & Hu & E & Hroot & Hl & He).
  split_and!; [done|by exists u|done|done].
Qed.

(** ** A small history: a payment to a script, a spend of it that pays change
    back, and an unconfirmed payment *)

Module Samples.
#[local] Existing Instance toyCrypto.

Definition script0 : bytes := [169; 20; 1; 135].
Definition txA : MsgTx := mkMsgTx 1 [NewTxIn sampleOp [] []] [mkTxOut 900 script0; mkTxOut 5 [1]] 0.
Definition txB : MsgTx :=
  mkMsgTx 1 [NewTxIn (mkOutPoint (TxHash txA) 0) [] []] [mkTxOut 100 [7]; mkTxOut 800 script0] 0.
Definition txC : MsgTx := mkMsgTx 1 [NewTxIn (mkOutPoint (TxHash txB) 1) [] []] [mkTxOut 1 script0] 0.
Definition txs1 : list chainTx := [mkChainTx txA 9 0; mkChainTx txB 4 0; mkChainTx txC 0 0].
Definition txs2 : list chainTx := [mkChainTx txB 4 0; mkChainTx txA 9 0].
Definition pos0 (h : bytes) : Z := if bool_decide (h = TxHash txA) then 0 else 1.

Lemma txs1_ok : history_ok (filter is_confirmed txs1).
Proof.
  change (filter is_confirmed txs1) with [mkChainTx txA 9 0; mkChainTx txB 4 0].
  split; [apply (bool_decide_unpack _); vm_compute; exact I..|]. repeat constructor.
Qed.

Lemma pos0_A : pos0 (TxHash txA) = 0.
Proof. vm_compute. reflexivity. Qed.
Lemma pos0_B : pos0 (TxHash txB) = 1.
Proof. vm_compute. reflexivity. Qed.

Lemma txs1_order : chain_order (filter is_confirmed txs1) pos0.
Proof.
  change (filter is_confirmed txs1) with [mkChainTx txA 9 0; mkChainTx txB 4 0].
  assert (HA : ∀ op, op ∈ prevOuts txA → Hash op ≠ TxHash txA ∧ Hash op ≠ TxHash txB).
  { intros op ->%list_elem_of_singleton. split; vm_compute; discriminate. }
  assert (HB : ∀ op, op ∈ prevOuts txB → Hash op ≠ TxHash txB).
  { intros op ->%list_elem_of_singleton. vm_compute. discriminate. }
  split.
  - intros t t' op Ht Ht' Hop E. rewrite !elem_of_cons, elem_of_nil in Ht, Ht'.
    destruct Ht as [->|[->|[]]], Ht' as [->|[->|[]]]; cbn [ct_tx] in *.
    + destruct (HA op Hop) as [Hn _]. elim (Hn E).
    + destruct (HA op Hop) as [_ Hn]. elim (Hn E).
    + rewrite pos0_A, pos0_B. lia.
    + elim (HB op Hop E).
  - intros t t' Ht Ht' Hc. rewrite !elem_of_cons, elem_of_nil in Ht, Ht'.
    destruct Ht as [->|[->|[]]], Ht' as [->|[->|[]]]; cbn [ct_tx ct_confirmations] in *;
      rewrite ?pos0_A, ?pos0_B; lia.
Qed.

Lemma tip_agrees_witness : tip (newLineage txs1 script0 2) = tip (newLineage txs2 script0 2).
Proof.
  apply (tip_agrees txs1 txs2 script0 2 txs1_ok).
  change (filter is_confirmed txs1) with [mkChainTx txA 9 0; mkChainTx txB 4 0].
  change (filter is_confirmed txs2) with [mkChainTx txB 4 0; mkChainTx txA 9 0].
  apply Permutation_swap.
Defined.

Lemma tip_txs1 :
  tip (newLineage txs1 script0 2) =
  (mkTip (mkOutPoint (TxHash txB) 1) (mkOutPoint (TxHash txA) 0) true true, None).
Proof. vm_compute. reflexivity. Qed.

Lemma tip_spec_witness :
  l_spentBy (newLineage txs1 script0 2) !! mkOutPoint (TxHash txB) 1 = None.
Proof.
  pose proof (tip_spec txs1 script0 2 pos0 _ _ txs1_ok txs1_order tip_txs1) as Ht.
  cbv zeta in Ht. cbn [t_root t_tip t_ok] in Ht.
  destruct (root _ 0) as [r|]; [|by destruct Ht].
  by destruct Ht as (_ & _ & _ & _ & Ht).
Defined.
End Samples.
