(* ===== verification/State.v ===== *)
(** The bridge and the state it reads (src/cmd/dogevm/bridge.go: bridge,
    deposit, pegOut, pegState, audit), and its tiers (tiers.go). *)

From Stdlib Require Import Ascii String.
From S2P Require Import Prelude Text Wire Script Tags Amount Peg Lineage.

Record confirmationTier := mkTier { UpTo : Z; Confirmations : Z }.

#[export] Instance confirmationTier_eq_dec : EqDecision confirmationTier.
Proof. solve_decision. Defined.

(** The bridge's policy, with what its files list: [registry] is
    registry.list(), [contributionsFile] the contributions file's text, None
    where there is none. Durations are in nanoseconds. *)
Record bridge := mkBridge {
  signers : signerSet;
  registry : result (list destination);
  contributionsFile : result (option string);
  depositConfirmations : Z;
  confirmationTiers : list confirmationTier;
  vmFee : Z;
  dogeFee : Z;
  bumpAfter : Z;
  fenceBumpAfter : Z;
  minDeposit : Z;
  minPegOut : Z;
  maxDeposit : Z;
  maxCirculating : Z;
  confFloor : Z;
  maxShallow : Z;
}.

Record deposit := mkDeposit {
  d_time : Z; d_outPoint : OutPoint; d_value : Z; d_dest : destination;
  d_valid : bool; d_hasDest : bool; d_confirmations : Z;
}.

Record pegOut := mkPegOut {
  p_time : Z; p_txid : bytes; p_value : Z; p_dest : destination;
  p_valid : bool; p_confirmations : Z;
}.

Record pegState := mkPegState {
  redeemFor : gmap bytes bytes;
  depositDest : gmap bytes destination;
  reserveCreated : Z;
  reserveUnspent : Z;
  reserveUTXOs : list utxo;
  vmPending : bool;
  reserveAnchor : option utxo;
  pegAnchor : option utxo;
  reserveLine : lineage;
  pegLine : lineage;
  released : gmap OutPoint bytes;
  cancelled : gmap OutPoint bool;
  pegOuts : list pegOut;
  deposits : list deposit;
  paid : gmap bytes bytes;
  refunded : gmap OutPoint bytes;
  pendingCoins : gmap OutPoint utxo;
  vmUnconfirmed : gmap bytes chainTx;
  unconfirmed : gmap bytes chainTx;
  held : list deposit;
  settled : list deposit;
  locked : Z;
  lockedUTXOs : list utxo;
  unclaimedOnDoge : Z;
  unclaimedOnVM : Z;
  contributed : Z;
  contributions : list utxo;
  pendingRefunds : Z;
  pendingFees : Z;
  vmTxs : list chainTx;
  dogeTxs : list chainTx;
  dogeConflicted : option (list chainTx);
}.

Definition has {K A} `{Countable K} (m : gmap K A) (k : K) : bool := bool_decide (is_Some (m !! k)).

Lemma has_true {K A} `{Countable K} (m : gmap K A) k : has m k = true ↔ is_Some (m !! k).
Proof. unfold has. by rewrite bool_decide_eq_true. Qed.

Lemma has_false {K A} `{Countable K} (m : gmap K A) k : has m k = false ↔ m !! k = None.
Proof. unfold has. rewrite bool_decide_eq_false, eq_None_not_Some. done. Qed.

Definition isCancelled (s : pegState) (op : OutPoint) : bool := has (cancelled s) op.

Definition isUnconfirmed (s : pegState) (txid : bytes) : bool := has (unconfirmed s) txid.

Definition isCoinbase (tx : MsgTx) : bool :=
  match txIn tx with
  | [ti] => (Index (PreviousOutPoint ti) =? MaxPrevOutIndex) &&
            bool_decide (Hash (PreviousOutPoint ti) = zeroHash)
  | _ => false
  end.

(** ** The audit *)

Record auditResult := mkAudit {
  Circulating : Z; PendingPegIns : Z; PendingPegOuts : Z; Locked : Z; RequiredDoge : Z;
  Surplus : Z; UnclaimedOnDoge : Z; UnclaimedOnVM : Z; Contributed : Z;
  PendingRefunds : Z; PendingFees : Z;
}.

Definition solvent (a : auditResult) : bool := (0 <=? Surplus a) && (0 <=? Circulating a).

(** A deposit in a block, not yet credited. *)
Definition uncredited (s : pegState) (d : deposit) : bool :=
  negb (has (released s) (d_outPoint d)) && (0 <? d_confirmations d).

(** A peg-out not paid in a block. *)
Definition unpaid (s : pegState) (p : pegOut) : bool :=
  match paid s !! p_txid p with
  | None => true
  | Some payment => isUnconfirmed s payment
  end.

Definition audit (s : pegState) : auditResult :=
  let circulating := reserveCreated s [-] reserveUnspent s in
  let pendingPegIns := foldl (fun t d => if uncredited s d then t [+] d_value d else t) 0 (deposits s) in
  let pendingPegOuts := foldl (fun t p => if unpaid s p then t [+] p_value p else t) 0 (pegOuts s) in
  let required := circulating [+] pendingPegIns [+] pendingPegOuts [+] unclaimedOnDoge s
    [+] unclaimedOnVM s [+] pendingRefunds s [+] pendingFees s in
  mkAudit circulating pendingPegIns pendingPegOuts (locked s) required (locked s [-] required)
    (unclaimedOnDoge s) (unclaimedOnVM s) (contributed s) (pendingRefunds s) (pendingFees s).

(** ** Confirmation tiers *)

Definition confirmationsFor (b : bridge) (value : Z) : Z :=
  let n := match list_find (fun t => value ≤ UpTo t) (confirmationTiers b) with
    | Some (_, t) => Confirmations t
    | None => depositConfirmations b
    end in
  if n <? confFloor b then confFloor b else n.

Definition minMainnetConfirmations : Z := 6.

Definition shallowCap (b : bridge) : Z :=
  if 0 <? maxShallow b then maxShallow b
  else match last (confirmationTiers b) with Some t => UpTo t | None => 0 end.

Definition shallowCredited (b : bridge) (s : pegState) : Z :=
  foldl (fun total d =>
      if has (released s) (d_outPoint d) && (d_confirmations d <? depositConfirmations b)
      then total [+] d_value d else total) 0 (deposits s).

Definition shallowRoom (b : bridge) (s : pegState) (d : deposit) (promised : Z) : result unit :=
  if depositConfirmations b <=? d_confirmations d then Ok tt
  else
    let total := shallowCredited b s [+] promised [+] d_value d in
    ensure (negb (shallowCap b <? total))
      (Errorf "crediting the deposit would exceed the limit on shallow deposits; it waits for more").

(** One tier of creditTiers, after those in out. *)
Definition creditTier (b : bridge) (out : list confirmationTier) (t : confirmationTier)
    : list confirmationTier :=
  let t := if Confirmations t <? confFloor b then mkTier (UpTo t) (confFloor b) else t in
  match last out with
  | Some l => if Confirmations t <=? Confirmations l
              then take (length out - 1) out ++ [mkTier (UpTo t) (Confirmations l)]
              else out ++ [t]
  | None => out ++ [t]
  end.

Definition creditTiers (b : bridge) : list confirmationTier :=
  foldl (creditTier b) [] (confirmationTiers b).

(** ** A policy for concrete runs *)

Definition sampleSigners : signerSet :=
  mkSignerSet 2 [2 :: replicate 32 1; 3 :: replicate 32 2; 2 :: replicate 32 3] [82; 83; 174].

Definition sampleTiers : list confirmationTier :=
  [mkTier (10 * koinuPerDoge) 1; mkTier (50 * koinuPerDoge) 12; mkTier (100 * koinuPerDoge) 12].

Definition sampleBridge : bridge := {|
  signers := sampleSigners; registry := Ok []; contributionsFile := Ok None;
  depositConfirmations := 60; confirmationTiers := sampleTiers;
  vmFee := 100000; dogeFee := koinuPerDoge; bumpAfter := 0; fenceBumpAfter := 0;
  minDeposit := 5 * koinuPerDoge; minPegOut := 5 * koinuPerDoge;
  maxDeposit := 0; maxCirculating := 0; confFloor := 6; maxShallow := 0;
|}.

Definition emptyLine : lineage := mkLineage [] 0 ∅ [].

(** A state with the given anchors and coins, and nothing else. *)
Definition sampleState (ra pa : option utxo) (reserve confirmed : list utxo) : pegState := {|
  redeemFor := ∅; depositDest := ∅; reserveCreated := 0; reserveUnspent := 0;
  reserveUTXOs := reserve; vmPending := false; reserveAnchor := ra; pegAnchor := pa;
  reserveLine := emptyLine; pegLine := emptyLine; released := ∅; cancelled := ∅;
  pegOuts := []; deposits := []; paid := ∅; refunded := ∅; pendingCoins := ∅;
  vmUnconfirmed := ∅; unconfirmed := ∅; held := []; settled := []; locked := 0;
  lockedUTXOs := confirmed; unclaimedOnDoge := 0; unclaimedOnVM := 0; contributed := 0;
  contributions := []; pendingRefunds := 0; pendingFees := 0; vmTxs := []; dogeTxs := [];
  dogeConflicted := None;
|}.

(** The same with a history, contributions and redeem scripts. *)
Definition sampleHistory (s : pegState) (line : lineage) (vm doge : list chainTx) (contribs : list utxo)
    (redeems : gmap bytes bytes) : pegState := {|
  redeemFor := redeems; depositDest := ∅; reserveCreated := 0; reserveUnspent := 0;
  reserveUTXOs := reserveUTXOs s; vmPending := false; reserveAnchor := reserveAnchor s; pegAnchor := pegAnchor s;
  reserveLine := emptyLine; pegLine := line; released := ∅; cancelled := ∅;
  pegOuts := []; deposits := []; paid := ∅; refunded := ∅; pendingCoins := ∅;
  vmUnconfirmed := ∅; unconfirmed := ∅; held := []; settled := []; locked := 90 * koinuPerDoge;
  lockedUTXOs := lockedUTXOs s; unclaimedOnDoge := 0; unclaimedOnVM := 0; contributed := 0;
  contributions := contribs; pendingRefunds := 0; pendingFees := 0; vmTxs := vm; dogeTxs := doge;
  dogeConflicted := None;
|}.
