(* ===== verification/Tiers.v ===== *)
(** Confirmation tiers (src/cmd/dogevm/tiers.go): how many Dogecoin
    confirmations a deposit waits for, and what the site publishes of it. *)

From Stdlib Require Import Ascii String.
From S2P Require Import Prelude Text Wire Script Tags Amount Peg Lineage State.

(** One part of the flag, after the tiers already read. *)
Definition parseTier (full : Z) (tiers : list confirmationTier) (part : string)
    : result (list confirmationTier) :=
  match cut ":"%char (trim_space part) with
  | None => Err (Errorf "confirmation tier is not DOGE:CONFIRMATIONS")
  | Some (amount, confs) =>
      upTo ← parseDoge amount;
      n ← from_option_err (parse_int confs) (Errorf "confirmations must be a positive whole number");
      _ ← ensure (1 <=? n) (Errorf "confirmations must be a positive whole number");
      _ ← ensure (n <=? full) (Errorf "confirmation tier asks for more than -confirmations");
      _ ← ensure (match last tiers with
                  | Some t => negb ((upTo <=? UpTo t) || (n <? Confirmations t))
                  | None => true
                  end) (Errorf "confirmation tiers must rise in amount and confirmations");
      Ok (tiers ++ [mkTier upTo n])
  end.

Fixpoint parseTiers (full : Z) (tiers : list confirmationTier) (parts : list string)
    : result (list confirmationTier) :=
  match parts with
  | [] => Ok tiers
  | part :: parts => tiers' ← parseTier full tiers part; parseTiers full tiers' parts
  end.

Definition parseConfirmationTiers (s : string) (full : Z) : result (list confirmationTier) :=
  if decide (trim_space s = EmptyString) then Ok []
  else parseTiers full [] (split_on ","%char s).

(** ** What parsing promises *)

Definition tier_lt (a b : confirmationTier) : Prop :=
  UpTo a < UpTo b ∧ Confirmations a ≤ Confirmations b.

Definition tiers_ok (full : Z) (tiers : list confirmationTier) : Prop :=
  StronglySorted tier_lt tiers ∧ Forall (fun t => 1 ≤ Confirmations t ≤ full) tiers.

Lemma tier_lt_trans a b c : tier_lt a b → tier_lt b c → tier_lt a c.
Proof. unfold tier_lt. lia. Qed.

Lemma StronglySorted_snoc {A} (R : A → A → Prop) l x :
  StronglySorted R l → Forall (fun y => R y x) l → StronglySorted R (l ++ [x]).
Proof.
  induction 1 as [|y l Hl IH Hy]; intros Hx; simpl; [repeat constructor|].
  apply Forall_cons in Hx as [Hyx Hx]. constructor; [by apply IH|].
  apply Forall_app; split; [done|by constructor].
Qed.

(** In a list sorted by a transitive relation, what is below the last element
    is above every element. *)
Lemma last_above {A} (R : A → A → Prop) l t x :
  (∀ a b c, R a b → R b c → R a c) →
  StronglySorted R l → last l = Some t → R t x → Forall (fun y => R y x) l.
Proof.
  intros Htr Hs. induction Hs as [|y l Hl IH Hy]; [done|].
  destruct l as [|z l]; simpl; intros Hlast Ht.
  - simplify_eq. by repeat constructor.
  - specialize (IH Hlast Ht). constructor; [|done].
    apply Forall_cons in IH as [Hz _]. apply Forall_cons in Hy as [Hy _]. eauto.
Qed.

Lemma parseTier_ok full tiers part tiers' :
  tiers_ok full tiers → parseTier full tiers part = Ok tiers' → tiers_ok full tiers'.
Proof.
  intros [Hs Hf] H. unfold parseTier in H. destruct (cut _ _) as [[a c]|]; [|done].
  ok_inv. subst tiers'. rewrite Z.leb_le in *.
  split; [|apply Forall_app; split; [done|by repeat constructor]].
  apply StronglySorted_snoc; [done|].
  destruct (last tiers) as [t|] eqn:Hl; [|apply last_None in Hl as ->; constructor].
  eapply last_above; eauto using tier_lt_trans.
  match goal with H : negb _ = true |- _ =>
    rewrite negb_true_iff, orb_false_iff, Z.leb_gt, Z.ltb_ge in H end.
  unfold tier_lt; simpl; lia.
Qed.

Lemma parseTiers_ok full parts tiers tiers' :
  tiers_ok full tiers → parseTiers full tiers parts = Ok tiers' → tiers_ok full tiers'.
Proof.
  revert tiers. induction parts as [|p parts IH]; intros tiers Ht; simpl; [by intros [= <-]|].
  intros (t1 & H1 & H2)%bind_Ok. eauto using parseTier_ok.
Qed.

Lemma parseConfirmationTiers_ok s full tiers :
  parseConfirmationTiers s full = Ok tiers → tiers_ok full tiers.
Proof.
  unfold parseConfirmationTiers. case_decide; [intros [= <-]|apply parseTiers_ok]; repeat constructor.
Qed.

(** ** The tier a value falls in *)

Fixpoint tierFor (tiers : list confirmationTier) (above value : Z) : Z :=
  match tiers with
  | [] => above
  | t :: tiers => if value <=? UpTo t then Confirmations t else tierFor tiers above value
  end.

Lemma tierFor_app l1 l2 above value :
  tierFor (l1 ++ l2) above value = tierFor l1 (tierFor l2 above value) value.
Proof. induction l1 as [|t l1 IH]; [done|]. simpl. by rewrite IH. Qed.

Lemma list_find_tierFor tiers above value :
  match list_find (fun t => value ≤ UpTo t) tiers with
  | Some (_, t) => Confirmations t
  | None => above
  end = tierFor tiers above value.
Proof.
  induction tiers as [|t tiers IH]; [done|]. simpl. case_decide as Hd.
  - by rewrite (proj2 (Z.leb_le _ _)).
  - rewrite (proj2 (Z.leb_gt _ _)) by lia. rewrite <- IH.
    by destruct (list_find _ tiers) as [[? ?]|].
Qed.

Lemma confirmationsFor_tierFor b value :
  confirmationsFor b value =
  Z.max (confFloor b) (tierFor (confirmationTiers b) (depositConfirmations b) value).
Proof.
  unfold confirmationsFor. rewrite list_find_tierFor.
  destruct (Z.ltb_spec (tierFor (confirmationTiers b) (depositConfirmations b) value) (confFloor b)); lia.
Qed.

Lemma tierFor_bounds full tiers value :
  tiers_ok full tiers → 1 ≤ full → 1 ≤ tierFor tiers full value ≤ full.
Proof.
  intros [_ Hf] Hfull. induction Hf as [|t l Ht Hl IH]; simpl; [lia|].
  destruct (_ <=? _); lia.
Qed.

Lemma tierFor_lower full tiers value n :
  n ≤ full → Forall (fun t => n ≤ Confirmations t) tiers → n ≤ tierFor tiers full value.
Proof.
  intros Hn Hf. induction Hf as [|t l Ht Hl IH]; simpl; [lia|]. destruct (_ <=? _); lia.
Qed.

Lemma tierFor_mono full tiers v1 v2 :
  tiers_ok full tiers → v1 ≤ v2 → tierFor tiers full v1 ≤ tierFor tiers full v2.
Proof.
  intros [Hs Hf] Hv. induction Hs as [|t l Hl IH Ht]; simpl; [lia|].
  apply Forall_cons in Hf as [Hft Hf]. specialize (IH Hf).
  destruct (Z.leb_spec v1 (UpTo t)); destruct (Z.leb_spec v2 (UpTo t)); try lia.
  apply tierFor_lower; [lia|]. eapply Forall_impl; [exact Ht|]. intros x [_ ?]. lia.
Qed.

(** A larger deposit never waits less, and none waits less than the
    floor: with any tiers the flag accepts, the confirmations a deposit needs
    rise with its value, are at least the floor and at least one, and are at
    most the full confirmations or the floor. *)
Theorem confirmationsFor_policy s b :
  parseConfirmationTiers s (depositConfirmations b) = Ok (confirmationTiers b) →
  1 ≤ depositConfirmations b →
  (∀ v1 v2, v1 ≤ v2 → confirmationsFor b v1 ≤ confirmationsFor b v2) ∧
  (∀ v, confFloor b ≤ confirmationsFor b v ∧ 1 ≤ confirmationsFor b v ∧
        confirmationsFor b v ≤ Z.max (confFloor b) (depositConfirmations b)).
Proof.
  intros Hp Hd. apply parseConfirmationTiers_ok in Hp. split.
  - intros v1 v2 Hv. rewrite !confirmationsFor_tierFor.
    pose proof (tierFor_mono _ _ _ _ Hp Hv). lia.
  - intros v. rewrite confirmationsFor_tierFor. pose proof (tierFor_bounds _ _ v Hp Hd). lia.
Qed.

Lemma confirmationsFor_policy_witness :
  confirmationsFor sampleBridge 7 ≤ confirmationsFor sampleBridge (60 * koinuPerDoge).
Proof.
  apply (proj1 (confirmationsFor_policy "10:1,50:12,100:12" sampleBridge
    ltac:(vm_compute; reflexivity) ltac:(vm_compute; discriminate))).
  vm_compute. discriminate.
Defined.

(** ** The published tiers *)

Definition raised (b : bridge) (t : confirmationTier) : confirmationTier :=
  if Confirmations t <? confFloor b then mkTier (UpTo t) (confFloor b) else t.

Lemma raised_UpTo b t : UpTo (raised b t) = UpTo t.
Proof. unfold raised. by destruct (_ <? _). Qed.

Lemma raised_Confirmations b t :
  Confirmations (raised b t) = Z.max (confFloor b) (Confirmations t).
Proof.
  unfold raised. destruct (Z.ltb_spec (Confirmations t) (confFloor b)); simpl; lia.
Qed.

(** What creditTiers has made of the tiers so far: the same answer for every
    value, ending with the last tier read. *)
Definition credits (b : bridge) (out prefix : list confirmationTier) : Prop :=
  (∀ above v, tierFor out above v = tierFor (raised b <$> prefix) above v) ∧
  (UpTo <$> last out) = (UpTo <$> last prefix) ∧
  (Confirmations <$> last out) = ((fun t => Confirmations (raised b t)) <$> last prefix).

Lemma creditTier_credits b out prefix t :
  StronglySorted tier_lt (prefix ++ [t]) → credits b out prefix →
  credits b (creditTier b out t) (prefix ++ [t]).
Proof.
  intros Hs (Hf & Hu & Hc). unfold creditTier. fold (raised b t). cbv zeta.
  unfold credits. rewrite last_snoc, fmap_app. change (raised b <$> [t]) with [raised b t].
  destruct (last out) as [o|] eqn:Ho.
  2: { rewrite last_snoc. simpl. rewrite raised_UpTo. split_and!; [|done..].
       intros above v. by rewrite !tierFor_app, Hf. }
  destruct (last prefix) as [p|] eqn:Hp; [|done]. simpl in Hu, Hc. simplify_eq.
  assert (Hpt : tier_lt p t).
  { apply last_Some in Hp as [pre ->]. clear -Hs.
    induction pre as [|x pre IH]; simpl in Hs; inversion_clear Hs as [|? ? Hs' Hall]; [|by apply IH].
    by apply Forall_cons in Hall as [? _]. }
  apply last_Some in Ho as [ini ->].
  destruct (Z.leb_spec (Confirmations (raised b t)) (Confirmations o)).
  - rewrite length_app. cbn [length]. rewrite Nat.add_sub, take_app_length, last_snoc.
    simpl. rewrite raised_UpTo. rewrite !raised_Confirmations in *. destruct Hpt as [Hpu Hpc].
    split_and!; [|done|f_equal; lia].
    intros above v. rewrite !tierFor_app, <- Hf, tierFor_app. simpl. f_equal.
    rewrite raised_UpTo, raised_Confirmations.
    destruct (Z.leb_spec v (UpTo t)); destruct (Z.leb_spec v (UpTo o)); lia.
  - rewrite last_snoc. simpl. rewrite raised_UpTo. split_and!; [|done..].
    intros above v. by rewrite (tierFor_app (ini ++ [o])), Hf, tierFor_app.
Qed.

Lemma StronglySorted_app_l {A} (R : A → A → Prop) l1 l2 :
  StronglySorted R (l1 ++ l2) → StronglySorted R l1.
Proof.
  induction l1 as [|x l1 IH]; simpl; [constructor|]. inversion_clear 1 as [|? ? Hs Hf].
  constructor; [by apply IH|]. by apply Forall_app in Hf as [].
Qed.

Lemma creditTiers_credits b tiers prefix out :
  StronglySorted tier_lt (prefix ++ tiers) → credits b out prefix →
  credits b (foldl (creditTier b) out tiers) (prefix ++ tiers).
Proof.
  revert prefix out. induction tiers as [|t tiers IH]; intros prefix out Hs Hc; simpl.
  { by rewrite app_nil_r. }
  rewrite (cons_middle t), app_assoc in Hs |- *. apply IH; [done|].
  apply creditTier_credits; [|done]. by eapply StronglySorted_app_l.
Qed.

(** What the site publishes is what the bridge waits for: with any tiers
    the flag accepts, looking a deposit's value up in creditTiers, and above them
    in the full confirmations (or the floor), gives exactly confirmationsFor. *)
Theorem creditTiers_exact s b value :
  parseConfirmationTiers s (depositConfirmations b) = Ok (confirmationTiers b) →
  tierFor (creditTiers b) (Z.max (confFloor b) (depositConfirmations b)) value =
  confirmationsFor b value.
Proof.
  intros Hp. apply parseConfirmationTiers_ok in Hp as [Hs _].
  destruct (creditTiers_credits b (confirmationTiers b) [] []) as [Hf _]; [done|by split_and!|].
  unfold creditTiers. rewrite Hf, confirmationsFor_tierFor. simpl. clear.
  induction (confirmationTiers b) as [|t l IH]; [done|]. simpl.
  rewrite raised_UpTo, raised_Confirmations. by destruct (value <=? UpTo t).
Qed.

Lemma creditTiers_exact_witness :
  tierFor (creditTiers sampleBridge) 60 (75 * koinuPerDoge) = confirmationsFor sampleBridge (75 * koinuPerDoge).
Proof.
  apply (creditTiers_exact "10:1,50:12,100:12" sampleBridge (75 * koinuPerDoge)).
  vm_compute. reflexivity.
Defined.
