(* ===== verification/Build.v ===== *)
(** What the bridge spends and the transactions it builds
    (src/cmd/dogevm/bridge.go): coin selection behind the anchor, releases,
    cancellations, payouts and refunds. *)

From Stdlib Require Import Ascii String.
From S2P Require Import Prelude Text Wire Runtime Script Tags Amount Peg Lineage State.

(** pegDust is the least the peg's change output holds. *)
Definition pegDust : Z := Z.quot koinuPerDoge 100.

Lemma pegDust_val : pegDust = 1000000.
Proof. done. Qed.

Definition maxBumpFees : Z := 4.

Section build.
Context `{Crypto} `{GoRuntime}.

(** ** Coin selection *)

Definition sum_values (coins : list utxo) : Z := foldl (fun t u => t [+] u_value u) 0 coins.

Fixpoint pickLoop (sorted : list utxo) (amount total : Z) : list utxo * Z :=
  match sorted with
  | [] => ([], total)
  | u :: sorted =>
      if amount <=? total then ([], total)
      else let '(picked, total') := pickLoop sorted amount (total [+] u_value u) in
           (u :: picked, total')
  end.

Definition selectUTXOs (utxos : list utxo) (amount : Z) : result (list utxo * Z) :=
  let sorted := sort_slice (fun x y => u_value y <? u_value x) utxos in
  let '(picked, total) := pickLoop sorted amount 0 in
  if total <? amount then Err (Errorf "not enough DOGE available") else Ok (picked, total).

Definition containsOutPoint (coins : list utxo) (op : OutPoint) : bool :=
  existsb (fun u => bool_decide (u_outPoint u = op)) coins.

Definition anchoredSelection (anchor : utxo) (available : list utxo) (need : Z)
    : result (list utxo * Z) :=
  if need <=? u_value anchor then Ok ([anchor], u_value anchor)
  else
    let rest := filter (fun u => u_outPoint u ≠ u_outPoint anchor) available in
    '(more, total) ← selectUTXOs rest (need [-] u_value anchor);
    Ok (anchor :: more, u_value anchor [+] total).

Definition payoutInputs (s : pegState) (confirmed : list utxo) (value : Z) : result (list utxo) :=
  match pegAnchor s with
  | None => Err (Errorf "the peg address holds no confirmed DOGE to anchor a payout")
  | Some anchor =>
      if negb (containsOutPoint confirmed (u_outPoint anchor))
      then Err (Errorf "waiting for the payment spending the anchor to confirm")
      else '(inputs, _) ← anchoredSelection anchor confirmed value; Ok inputs
  end.

Definition releaseInputs (s : pegState) (value : Z) : result (list utxo * Z) :=
  match reserveAnchor s with
  | Some anchor =>
      if containsOutPoint (reserveUTXOs s) (u_outPoint anchor)
      then anchoredSelection anchor (reserveUTXOs s) (value [+] pegDust)
      else Err (Errorf "waiting for the reserve's anchor to be free")
  | None => Err (Errorf "waiting for the reserve's anchor to be free")
  end.

Definition cancelInputs (s : pegState) (fee : Z) : result (list utxo) :=
  match reserveAnchor s with
  | Some anchor =>
      if containsOutPoint (reserveUTXOs s) (u_outPoint anchor)
      then '(inputs, _) ← anchoredSelection anchor (reserveUTXOs s) (fee [+] pegDust); Ok inputs
      else Err (Errorf "waiting for the reserve's anchor to be free")
  | None => Err (Errorf "waiting for the reserve's anchor to be free")
  end.

(** ** Transactions *)

Definition spend (u : utxo) : TxIn := NewTxIn (u_outPoint u) [] [].

(** BIP125: replaceable by one paying more. *)
Definition spendReplaceable (u : utxo) : TxIn :=
  mkTxIn (u_outPoint u) [] [] (MaxTxInSequenceNum - 2).

Definition addInputs (mk : utxo → TxIn) (tx : MsgTx) (inputs : list utxo) : MsgTx :=
  foldl (fun tx u => AddTxIn tx (mk u)) tx inputs.

(** [for i := 1; i < len(inputs); i++]: an input the others cover need without. *)
Definition unneeded (inputs : list utxo) (total need : Z) : bool :=
  existsb (fun u => need <=? total [-] u_value u) (drop 1 inputs).

Definition buildRelease (b : bridge) (inputs : list utxo) (total : Z) (d : deposit) : result MsgTx :=
  let tx := addInputs spend (NewMsgTx TxVersion) inputs in
  let tx := AddTxOut tx (NewTxOut (d_value d [-] vmFee b) (pkScript (d_dest d))) in
  let change := total [-] d_value d in
  let tx := if 0 <? change then AddTxOut tx (NewTxOut change (signers_pkScript (signers b))) else tx in
  data ← nullData (encodeRelease (d_outPoint d));
  Ok (AddTxOut tx data).

Definition buildCancel (b : bridge) (inputs : list utxo) (op : OutPoint) : result MsgTx :=
  let need := vmFee b [+] pegDust in
  let total := sum_values inputs in
  _ ← ensure (negb (Nat.eqb (length inputs) 0 || (total <? need)))
        (Errorf "the reserve coins proposed do not cover a cancellation");
  _ ← ensure (negb (unneeded inputs total need)) (Errorf "spends a coin the cancellation does not need");
  let tx := addInputs spend (NewMsgTx TxVersion) inputs in
  let tx := AddTxOut tx (NewTxOut (total [-] vmFee b) (signers_pkScript (signers b))) in
  data ← nullData (encodeCancel op);
  Ok (AddTxOut tx data).

(** [tx.TxOut[0].Value = pays] *)
Definition setFirstValue (tx : MsgTx) (pays : Z) : MsgTx :=
  match txOut tx with
  | out :: outs => mkMsgTx (Version tx) (txIn tx) (mkTxOut pays (PkScript out) :: outs) (LockTime tx)
  | [] => tx
  end.

Definition buildPayout (b : bridge) (inputs : list utxo) (value : Z) (dest : destination)
    (data : bytes) (fee : Z) : result MsgTx :=
  let '(tx, total) := foldl (fun '(tx, total) u => (AddTxIn tx (spendReplaceable u), total [+] u_value u))
    (NewMsgTx 1, 0) inputs in
  _ ← ensure (negb (total <? value)) (Errorf "inputs hold less than the payout");
  _ ← ensure (negb (bool_decide (pkScript dest = signers_pkScript (signers b))))
        (Errorf "never pays the peg address itself");
  _ ← ensure (negb (unneeded inputs total value)) (Errorf "spends a coin the payout does not need");
  let tx := AddTxOut tx (NewTxOut 0 (pkScript dest)) in
  let '(change, topUp) :=
    if total [-] value <? pegDust then (pegDust, pegDust [-] (total [-] value)) else (total [-] value, 0) in
  let tx := AddTxOut tx (NewTxOut change (signers_pkScript (signers b))) in
  dataOut ← nullData data;
  let tx := AddTxOut tx dataOut in
  let pays := value [-] fee [-] topUp in
  _ ← ensure (negb (pays <? pegDust)) (Errorf "the payout does not cover the fee and the peg's change");
  Ok (setFirstValue tx pays).

(** ** Replacements *)

Definition checkBumpFee (b : bridge) (fee oldFee value : Z) : result unit :=
  _ ← ensure (negb (fee <=? oldFee)) (Errorf "a replacement must pay more");
  _ ← ensure (negb (maxBumpFees [*] dogeFee b <? fee)) (Errorf "a replacement's fee is too high");
  ensure (negb (Z.quot value 2 <? fee)) (Errorf "the fee would take more than half").

Definition coinsOf (s : pegState) (tx : MsgTx) : list utxo :=
  omap (fun ti => pendingCoins s !! PreviousOutPoint ti) (txIn tx).

(** The fee of an unconfirmed transaction, as this node knows its coins. *)
Definition feeOf (s : pegState) (tx : MsgTx) : Z :=
  foldl (fun t u => t [+] u_value u) 0 (coinsOf s tx) [-]
  foldl (fun t o => t [+] Value o) 0 (txOut tx).

Definition unconfirmedFor (s : pegState) (data : bytes) : option (chainTx * Z) :=
  let '(best, bestFee) := foldl (fun '(best, bestFee) '(_, t) =>
      match opReturnData (ct_tx t) with
      | Some (tag, payload) =>
          if bool_decide (tag ++ payload = data) then
            let fee := feeOf s (ct_tx t) in
            if bestFee <? fee then (Some t, fee) else (best, bestFee)
          else (best, bestFee)
      | None => (best, bestFee)
      end) (None, -1) (map_range (unconfirmed s)) in
  match best with
  | Some t => if 0 <=? bestFee then Some (t, bestFee) else None
  | None => None
  end.

Definition refundable (b : bridge) (d : deposit) : result unit :=
  ensure (negb (d_confirmations d <? confirmationsFor b (d_value d)))
    (Errorf "the deposit can be refunded once it has its confirmations").

(** ** Limits *)

Definition depositInRange (b : bridge) (value : Z) : bool :=
  (minDeposit b <=? value) && ((maxDeposit b =? 0) || (value <=? maxDeposit b)).

Definition creditable (b : bridge) (dest : destination) (value : Z) : bool :=
  depositInRange b value && negb (bool_decide (pkScript dest = signers_pkScript (signers b))).
End build.

(** ** Facts about inputs and outputs *)

Section shapes.
Context `{Crypto} `{GoRuntime}.

(** Coins as the chains have them: non-negative values whose sum an int64
    holds. *)
Definition coins_ok (coins : list utxo) : Prop :=
  Forall (fun u => 0 ≤ u_value u) coins ∧ sumZ (u_value <$> coins) < two63.

Definition total_of (coins : list utxo) : Z := sumZ (u_value <$> coins).

Lemma total_of_cons u l : total_of (u :: l) = u_value u + total_of l.
Proof. done. Qed.

Lemma total_of_app l1 l2 : total_of (l1 ++ l2) = total_of l1 + total_of l2.
Proof. unfold total_of. by rewrite fmap_app, sumZ_app. Qed.

Lemma total_of_nonneg l : Forall (fun u => 0 ≤ u_value u) l → 0 ≤ total_of l.
Proof. intros Hl. apply sumZ_nonneg, Forall_fmap. done. Qed.

Lemma foldl_values l t :
  foldl (fun t u => t [+] u_value u) t l = foldl (fun t x => t [+] x) t (u_value <$> l).
Proof. revert t. induction l as [|u l IH]; intros t; [done|]. apply IH. Qed.

Lemma sum_values_exact l : coins_ok l → sum_values l = total_of l.
Proof.
  intros [Hn Hs]. unfold sum_values. rewrite foldl_values. apply sum64_small.
  pose proof (total_of_nonneg l Hn). unfold total_of in *. i64.
Qed.

Lemma addInputs_fields mk tx l :
  addInputs mk tx l = mkMsgTx (Version tx) (txIn tx ++ (mk <$> l)) (txOut tx) (LockTime tx).
Proof.
  unfold addInputs. revert tx. induction l as [|u l IH]; intros tx; simpl.
  { rewrite app_nil_r. by destruct tx. }
  rewrite IH. unfold AddTxIn; simpl. by rewrite <- app_assoc.
Qed.

Lemma payoutLoop_fields l tx t :
  foldl (fun '(tx, total) u => (AddTxIn tx (spendReplaceable u), total [+] u_value u)) (tx, t) l =
  (addInputs spendReplaceable tx l, foldl (fun t u => t [+] u_value u) t l).
Proof. revert tx t. induction l as [|u l IH]; intros tx t; [done|]. simpl. apply IH. Qed.

(** The shape of a payout: what it pays, what it keeps, and its tag. *)
Lemma buildPayout_shape b inputs value dest data fee tx :
  coins_ok inputs → 0 ≤ fee ≤ value →
  buildPayout b inputs value dest data fee = Ok tx →
  ∃ pays change dataOut,
    tx = mkMsgTx 1 (spendReplaceable <$> inputs)
      [mkTxOut pays (pkScript dest); mkTxOut change (signers_pkScript (signers b)); dataOut] 0 ∧
    nullData data = Ok dataOut ∧ pkScript dest ≠ signers_pkScript (signers b) ∧
    pegDust ≤ pays ∧ pays + fee ≤ value ≤ total_of inputs ∧
    pegDust ≤ change ∧ pays + change + fee = total_of inputs.
Proof.
  intros Hc Hf Hb. unfold buildPayout in Hb. rewrite payoutLoop_fields in Hb.
  fold (sum_values inputs) in Hb. rewrite sum_values_exact in Hb by done.
  destruct Hc as [Hn Hs]. fold (total_of inputs) in Hs. pose proof (total_of_nonneg _ Hn) as Ht.
  set (total := total_of inputs) in *.
  apply bind_Ok in Hb as ([] & Hle & Hb). apply ensure_Ok in Hle.
  rewrite negb_true_iff, Z.ltb_ge in Hle.
  apply bind_Ok in Hb as ([] & Hd & Hb). apply ensure_Ok in Hd.
  rewrite negb_true_iff, bool_decide_eq_false in Hd.
  apply bind_Ok in Hb as ([] & _ & Hb).
  rewrite (wrap64_small (total - value)) in Hb by i64. unfold pegDust, koinuPerDoge in *.
  change (100000000 ÷ 100) with 1000000 in *.
  destruct (Z.ltb_spec (total - value) 1000000);
    apply bind_Ok in Hb as (dataOut & Hdata & Hb); apply bind_Ok in Hb as ([] & Hp & Hb);
    apply ensure_Ok in Hp; rewrite negb_true_iff, Z.ltb_ge in Hp; injection Hb as <-;
    rewrite addInputs_fields; unfold setFirstValue; simpl;
    rewrite ?wrap64_sub_l, ?wrap64_sub_r in Hp |- *;
    (rewrite wrap64_small in Hp |- * by i64);
    eexists _, _, dataOut; split_and!; try done; lia.
Qed.
End shapes.

(** ** Coin selection *)

Section selection.
Context `{Crypto} `{GoRuntime} `{!GoRuntimeOk}.

Definition larger (x y : utxo) : bool := u_value y <? u_value x.

Lemma larger_weak_order : weak_order larger.
Proof.
  unfold larger. split.
  - intros x y. rewrite Z.ltb_lt, Z.ltb_ge. lia.
  - intros x y z. rewrite !Z.ltb_lt. lia.
Qed.

Lemma coins_ok_perm l1 l2 : l1 ≡ₚ l2 → coins_ok l1 → coins_ok l2.
Proof. intros Hp [Hn Hs]. unfold coins_ok. rewrite <- Hp. done. Qed.

Lemma coins_ok_app l1 l2 : coins_ok (l1 ++ l2) → coins_ok l1 ∧ coins_ok l2.
Proof.
  intros [Hn Hs]. apply Forall_app in Hn as [Hl1 Hl2]. rewrite fmap_app, sumZ_app in Hs.
  pose proof (total_of_nonneg _ Hl1). pose proof (total_of_nonneg _ Hl2). unfold total_of in *.
  split; (split; [done|lia]).
Qed.

Lemma coins_ok_submseteq l1 l2 : l1 ⊆+ l2 → coins_ok l2 → coins_ok l1.
Proof.
  intros [k Hk]%submseteq_Permutation Hl2. apply (coins_ok_perm _ _ Hk) in Hl2.
  by apply coins_ok_app in Hl2 as [].
Qed.

Lemma pickLoop_spec sorted amount total picked total' :
  Forall (fun u => 0 ≤ u_value u) sorted → 0 ≤ total → total + total_of sorted < two63 →
  pickLoop sorted amount total = (picked, total') →
  ∃ rest, sorted = picked ++ rest ∧ total' = total + total_of picked ∧
    (amount ≤ total' ∨ rest = []) ∧
    (∀ pre u, picked = pre ++ [u] → total + total_of pre < amount).
Proof.
  intros Hn. revert total picked total'. induction Hn as [|u l Hu Hl IH]; intros total picked total' Ht Hb Hp.
  { simplify_eq/=. exists []. split_and!; [done|unfold total_of; simpl; lia|by right|].
    intros [|? ?] ?; discriminate. }
  rewrite total_of_cons in Hb. simpl in Hp. pose proof (total_of_nonneg _ Hl).
  destruct (Z.leb_spec amount total).
  { simplify_eq. exists (u :: l). split_and!; [done|unfold total_of; simpl; lia|by left|].
    intros [|? ?] ?; discriminate. }
  rewrite wrap64_small in Hp by i64.
  destruct (pickLoop l amount (total + u_value u)) as [p t] eqn:E. simplify_eq.
  destruct (IH (total + u_value u) p total') as (rest & -> & -> & Hcov & Hmin); [lia|lia|done|].
  exists rest. rewrite total_of_cons. split_and!; [done|lia|by destruct Hcov; auto|].
  intros [|w pre] v Hv; simplify_eq/=; [unfold total_of; simpl; lia|].
  rewrite total_of_cons. specialize (Hmin pre v eq_refl). lia.
Qed.

(** Every coin picked is needed: without it the rest do not cover amount. *)
Lemma pickLoop_needed sorted amount picked rest :
  StronglySorted (fun x y => larger y x = false) sorted → sorted = picked ++ rest →
  (∀ pre u, picked = pre ++ [u] → total_of pre < amount) →
  Forall (fun u => total_of picked - u_value u < amount) picked.
Proof.
  intros Hs -> Hmin. destruct (decide (picked = [])) as [->|Hne]; [constructor|].
  destruct (exists_last Hne) as (pre & v & ->). specialize (Hmin pre v eq_refl).
  rewrite total_of_app. unfold total_of at 2; simpl.
  apply Forall_forall. intros u Hu. apply elem_of_app in Hu as [Hu|Hu]; [|apply list_elem_of_singleton in Hu as ->; lia].
  assert (Hle : u_value v ≤ u_value u); [|lia].
  rewrite <- app_assoc in Hs. clear -Hs Hu.
  induction pre as [|w pre IH]; [by apply elem_of_nil in Hu|].
  simpl in Hs. inversion_clear Hs as [|? ? Hs' Hall].
  apply elem_of_cons in Hu as [->|Hu]; [|by apply IH].
  apply Forall_app in Hall as [_ Hall]. apply Forall_cons in Hall as [Hv _].
  unfold larger in Hv. apply Z.ltb_ge in Hv. done.
Qed.

(** What selectUTXOs promises: coins of the list, each needed, that cover the
    amount; it fails only when all of them together do not. *)
Lemma selectUTXOs_spec utxos amount :
  coins_ok utxos →
  match selectUTXOs utxos amount with
  | Ok (picked, total) =>
      picked ⊆+ utxos ∧ total = total_of picked ∧ amount ≤ total ∧
      Forall (fun u => total - u_value u < amount) picked
  | Err _ => total_of utxos < amount
  end.
Proof.
  intros [Hn Hs]. unfold selectUTXOs. fold larger.
  set (sorted := sort_slice larger utxos).
  assert (Hperm : sorted ≡ₚ utxos) by apply sort_slice_perm.
  assert (Hsort : StronglySorted (fun x y => larger y x = false) sorted)
    by apply sort_slice_sorted, larger_weak_order.
  assert (Hn' : Forall (fun u => 0 ≤ u_value u) sorted) by by rewrite Hperm.
  assert (Ht : total_of sorted = total_of utxos) by (unfold total_of; by rewrite Hperm).
  destruct (pickLoop sorted amount 0) as [picked total] eqn:E.
  destruct (pickLoop_spec sorted amount 0 picked total Hn') as (rest & Hrest & -> & Hcov & Hmin);
    [lia|unfold total_of in *; lia|done|]. rewrite Z.add_0_l in *.
  destruct (Z.ltb_spec (total_of picked) amount) as [Hlt|Hge].
  - destruct Hcov as [Hcov|Hcov]; [lia|]. rewrite Hcov, app_nil_r in Hrest. by rewrite <- Ht, Hrest.
  - split_and!; [|done|done|].
    + rewrite <- Hperm, Hrest. apply submseteq_inserts_r. done.
    + by eapply pickLoop_needed.
Qed.

(** What a signed transaction spends: the anchor first, then other coins that
    are each needed. *)
Definition anchored (anchor : utxo) (available inputs : list utxo) (need : Z) : Prop :=
  ∃ more, inputs = anchor :: more ∧ more ⊆+ available ∧
    Forall (fun u => u_outPoint u ≠ u_outPoint anchor) more ∧
    need ≤ total_of inputs ∧ Forall (fun u => total_of inputs - u_value u < need) more.

Lemma anchoredSelection_spec anchor available need :
  coins_ok (anchor :: available) → need < two63 →
  match anchoredSelection anchor available need with
  | Ok (inputs, total) => anchored anchor available inputs need ∧ total = total_of inputs ∧ coins_ok inputs
  | Err _ => total_of (anchor :: filter (fun u => u_outPoint u ≠ u_outPoint anchor) available) < need
  end.
Proof.
  intros Hc Hneed. pose proof Hc as [Hn Hs]. apply Forall_cons in Hn as [Ha Hn].
  assert (Hle : ∀ l, l ⊆+ available → coins_ok (anchor :: l)).
  { intros l Hl. eapply coins_ok_submseteq; [|exact Hc]. by apply submseteq_skip. }
  unfold anchoredSelection. destruct (Z.leb_spec need (u_value anchor)).
  { split_and!; [|unfold total_of; simpl; lia|].
    - exists []. split_and!; [done|apply submseteq_nil_l|constructor|unfold total_of; simpl; lia|constructor].
    - apply Hle, submseteq_nil_l. }
  set (rest := filter _ available).
  assert (Hrest : rest ⊆+ available) by apply sublist_submseteq, sublist_filter.
  pose proof (Hle _ Hrest) as Hcr. pose proof Hcr as [Hnr Hsr].
  change (sumZ (u_value <$> anchor :: rest)) with (u_value anchor + total_of rest) in Hsr.
  assert (Hcr' : coins_ok rest) by by apply (coins_ok_app [anchor] rest) in Hcr as [].
  pose proof (total_of_nonneg rest (proj1 Hcr')) as Hr0.
  rewrite wrap64_small by i64.
  pose proof (selectUTXOs_spec rest (need - u_value anchor) Hcr') as Hsel.
  destruct (selectUTXOs rest (need - u_value anchor)) as [[more total]|e]; simpl.
  2: { rewrite total_of_cons. lia. }
  destruct Hsel as (Hsub & -> & Hcov & Hmin).
  assert (Hma : more ⊆+ available) by by etrans.
  pose proof (Hle _ Hma) as Hcm. pose proof Hcm as [Hnm Hsm].
  apply Forall_cons in Hnm as [_ Hnm]. pose proof (total_of_nonneg _ Hnm).
  change (sumZ (u_value <$> anchor :: more)) with (u_value anchor + total_of more) in Hsm.
  rewrite wrap64_small by i64. split_and!; [|done|done].
  exists more. split_and!; [done|done| |rewrite total_of_cons; lia|].
  - apply Forall_forall. intros u Hu. eapply elem_of_submseteq in Hu; [|exact Hsub].
    by apply list_elem_of_filter in Hu as [? _].
  - eapply Forall_impl; [exact Hmin|]. intros u Hu. rewrite total_of_cons. simpl in *. lia.
Qed.

Lemma anchored_unneeded anchor available inputs need :
  coins_ok inputs → anchored anchor available inputs need →
  unneeded inputs (total_of inputs) need = false.
Proof.
  intros [Hn Hs] (more & -> & _ & _ & _ & Hmin). unfold unneeded. simpl drop.
  fold (total_of (anchor :: more)) in Hs.
  pose proof Hn as [_ Hnm]%Forall_cons. pose proof (total_of_nonneg _ Hn).
  set (total := total_of (anchor :: more)) in *.
  assert (Hle : Forall (fun u => u_value u ≤ total) more).
  { apply Forall_forall. intros u Hu. subst total. rewrite total_of_cons.
    apply Forall_cons in Hn as [Ha _].
    apply elem_of_Permutation in Hu as [k Hk]. unfold total_of. rewrite Hk in Hnm |- *.
    apply Forall_cons in Hnm as [_ Hk0]. pose proof (total_of_nonneg _ Hk0).
    change (sumZ (u_value <$> u :: k)) with (u_value u + total_of k). lia. }
  clearbody total. clear Hn. induction more as [|u more IH]; [done|]. simpl.
  apply Forall_cons in Hmin as [Hu Hmin]. apply Forall_cons in Hle as [Hlu Hle].
  apply Forall_cons in Hnm as [Hu0 Hnm].
  rewrite wrap64_small by i64. rewrite (proj2 (Z.leb_gt _ _)) by lia. simpl. apply IH; done.
Qed.
End selection.

(** ** The transactions built *)

Section built.
Context `{Crypto} `{!CryptoOk} `{GoRuntime} `{!GoRuntimeOk}.

Lemma plain_message m : message_ok m → plain_data (encode_message m).
Proof.
  destruct m; cbn [encode_message message_ok];
    try (by apply outpoint_tag_plain); unfold plain_data, encodeDestination, encodePayment;
    intros Hm; rewrite ?length_app; simpl; try lia; destruct Hm as (_ & Hh & _); lia.
Qed.

Lemma nullData_message m :
  message_ok m →
  nullData (encode_message m) =
    Ok (NewTxOut 0 (OP_RETURN :: Z.of_nat (length (encode_message m)) :: encode_message m)).
Proof.
  intros Hm. unfold nullData. by rewrite NullDataScript_plain by by apply plain_message.
Qed.

Lemma signers_pkScript_shape sg :
  signers_pkScript sg = OP_HASH160 :: OP_DATA_20 :: hash160Of (redeemScript sg) ++ [OP_EQUAL].
Proof. apply pkScript_P2SH, ripemd160_length. Qed.

Lemma signers_pkScript_not_data sg : GetScriptClass (signers_pkScript sg) ≠ NullDataTy.
Proof. apply pkScript_not_NullData, ripemd160_length. Qed.

(** The outputs the bridge pays, then its own change, then the tag: the
    change is the line's next coin, and the tag is the only message. *)
Lemma paid_changed_tagged sg ins pays dest change m v lt :
  message_ok m → length (hash dest) = 20%nat → pkScript dest ≠ signers_pkScript sg →
  let tx := mkMsgTx v ins
    [mkTxOut pays (pkScript dest); mkTxOut change (signers_pkScript sg);
     NewTxOut 0 (OP_RETURN :: Z.of_nat (length (encode_message m)) :: encode_message m)] lt in
  lastOutput (signers_pkScript sg) 0 (txOut tx) = Some 1 ∧ ∀ m', reads_as tx m' ↔ m' = m.
Proof.
  intros Hm Hd Hne tx. split.
  - unfold tx. simpl. rewrite bool_decide_eq_false_2, bool_decide_eq_true_2; [done..|].
    by rewrite signers_pkScript_shape.
  - assert (Hr : reads_as tx m).
    { apply carries_reads_as; [done|]. unfold carries, tx; simpl.
      eexists [_; _], _, []. split_and!; [done|by apply nullData_message|].
      repeat constructor; [by apply pkScript_not_NullData|apply signers_pkScript_not_data]. }
    intros m'. split; [by apply reads_as_unique|by intros ->].
Qed.

(** The inputs of an anchored selection, as outpoints. *)
Definition spends_anchored (anchor : utxo) (available : list utxo) (tx : MsgTx) : Prop :=
  head (prevOuts tx) = Some (u_outPoint anchor) ∧
  ∀ op, op ∈ prevOuts tx → op = u_outPoint anchor ∨ op ∈ (u_outPoint <$> available).

Lemma spends_anchored_intro mk anchor available inputs need v outs lt :
  (∀ u, PreviousOutPoint (mk u) = u_outPoint u) → anchored anchor available inputs need →
  spends_anchored anchor available (mkMsgTx v (mk <$> inputs) outs lt).
Proof.
  intros Hmk (more & -> & Hsub & _). unfold spends_anchored, prevOuts; simpl. split; [by rewrite Hmk|].
  rewrite Hmk. intros op [->|Hop]%elem_of_cons; [by left|]. right.
  apply list_elem_of_fmap in Hop as (ti & -> & Hti). apply list_elem_of_fmap in Hti as (u & -> & Hu).
  rewrite Hmk. apply list_elem_of_fmap. exists u. split; [done|]. by eapply elem_of_submseteq.
Qed.

(** C19. Every payout and refund the bridge selects coins for can be built and
    is exact: for a payment worth at least its fee and twice the dust, from the
    coins payoutInputs chooses, buildPayout succeeds; the transaction spends the
    anchor first and otherwise only confirmed peg coins, pays dest at most the
    amount less the fee, returns the rest to the peg in an output of at least the
    dust limit which is the line's next anchor, leaves exactly the fee to the
    miner, and carries the given message and no other. *)
Theorem payout_exact b s anchor confirmed inputs value dest m fee :
  pegAnchor s = Some anchor → coins_ok (anchor :: confirmed) →
  payoutInputs s confirmed value = Ok inputs →
  0 ≤ fee → fee + 2 * pegDust ≤ value < two63 →
  length (hash dest) = 20%nat → pkScript dest ≠ signers_pkScript (signers b) → message_ok m →
  ∃ tx, buildPayout b inputs value dest (encode_message m) fee = Ok tx ∧
    spends_anchored anchor confirmed tx ∧
    (∃ pays change dataOut,
       txOut tx = [mkTxOut pays (pkScript dest); mkTxOut change (signers_pkScript (signers b)); dataOut] ∧
       Value dataOut = 0 ∧ pegDust ≤ pays ≤ value - fee ∧ pegDust ≤ change ∧
       pays + change + fee = total_of inputs) ∧
    lastOutput (signers_pkScript (signers b)) 0 (txOut tx) = Some 1 ∧
    (∀ m', reads_as tx m' ↔ m' = m).
Proof.
  intros Ha Hc Hin Hf Hv Hd Hne Hm. unfold payoutInputs in Hin. rewrite Ha in Hin.
  case_match; [done|]. pose proof (anchoredSelection_spec anchor confirmed value Hc ltac:(lia)) as Hsel.
  destruct (anchoredSelection anchor confirmed value) as [[inputs' total]|]; [|done].
  injection Hin as ->. destruct Hsel as (Hanch & _ & Hci).
  assert (Hval : value ≤ total_of inputs) by by destruct Hanch as (? & _ & _ & _ & ? & _).
  assert (Hex : ∃ tx, buildPayout b inputs value dest (encode_message m) fee = Ok tx).
  { unfold buildPayout. rewrite payoutLoop_fields. fold (sum_values inputs).
    rewrite sum_values_exact by done. rewrite (proj2 (Z.ltb_ge (total_of inputs) value)) by lia.
    rewrite bool_decide_eq_false_2 by done. rewrite (anchored_unneeded _ _ _ _ Hci Hanch).
    rewrite nullData_message by done. cbn [ensure negb].
    unfold pegDust, koinuPerDoge in *. change (100000000 ÷ 100) with 1000000 in *.
    destruct Hci as [_ Hs]. fold (total_of inputs) in Hs.
    rewrite (wrap64_small (total_of inputs - value)) by i64.
    destruct (Z.ltb_spec (total_of inputs - value) 1000000);
      cbn -[wrap64 setFirstValue]; wrap64_norm; rewrite wrap64_small by i64;
      rewrite (proj2 (Z.ltb_ge _ _)) by lia; by eexists. }
  destruct Hex as [tx Htx]. exists tx. split; [done|].
  apply buildPayout_shape in Htx as (pays & change & dataOut & -> & Hdata & _ & Hp & Hpv & Hch & Hsum);
    [|done|rewrite pegDust_val in *; lia].
  rewrite nullData_message in Hdata by done. injection Hdata as <-.
  split_and!.
  - by eapply spends_anchored_intro.
  - eexists _, _, _. split_and!; [done|done|lia..].
  - by apply paid_changed_tagged.
  - by apply paid_changed_tagged.
Qed.

(** C20. Every release the bridge selects coins for is exact: buildRelease
    succeeds on the coins releaseInputs chooses; the transaction spends the
    reserve's anchor first and otherwise only reserve coins, credits the
    deposit's value less the VM fee to its destination, returns everything else
    to the reserve (which gives up exactly the deposit's value) in an output of
    at least the dust limit which is the line's next anchor, and is read as the
    release of that deposit and as nothing else. *)
Theorem release_exact b s anchor inputs total d :
  reserveAnchor s = Some anchor → coins_ok (anchor :: reserveUTXOs s) →
  releaseInputs s (d_value d) = Ok (inputs, total) →
  0 ≤ vmFee b ≤ d_value d → d_value d + pegDust < two63 →
  length (hash (d_dest d)) = 20%nat → pkScript (d_dest d) ≠ signers_pkScript (signers b) →
  outpoint_ok (d_outPoint d) →
  ∃ tx dataOut, buildRelease b inputs total d = Ok tx ∧
    spends_anchored anchor (reserveUTXOs s) tx ∧
    txOut tx = [mkTxOut (d_value d - vmFee b) (pkScript (d_dest d));
                mkTxOut (total_of inputs - d_value d) (signers_pkScript (signers b)); dataOut] ∧
    Value dataOut = 0 ∧ pegDust ≤ total_of inputs - d_value d ∧
    lastOutput (signers_pkScript (signers b)) 0 (txOut tx) = Some 1 ∧
    (∀ m', reads_as tx m' ↔ m' = MRelease (d_outPoint d)).
Proof.
  intros Ha Hc Hin Hf Hv Hd Hne Hop. unfold releaseInputs in Hin. rewrite Ha in Hin.
  case_match; [|done]. rewrite pegDust_val in *. rewrite wrap64_small in Hin by i64.
  pose proof (anchoredSelection_spec anchor (reserveUTXOs s) (d_value d + 1000000) Hc Hv) as Hsel.
  rewrite Hin in Hsel. destruct Hsel as (Hanch & -> & Hci).
  assert (Hval : d_value d + 1000000 ≤ total_of inputs) by by destruct Hanch as (? & _ & _ & _ & ? & _).
  destruct Hci as [_ Hs]. fold (total_of inputs) in Hs.
  unfold buildRelease. change (encodeRelease (d_outPoint d)) with (encode_message (MRelease (d_outPoint d))).
  rewrite nullData_message, addInputs_fields by done.
  rewrite !wrap64_small by i64. rewrite (proj2 (Z.ltb_lt _ _)) by lia.
  unfold AddTxOut. cbn [mbind result_bind txIn txOut Version LockTime NewMsgTx app].
  eexists _, _. split; [reflexivity|].
  split_and!; [by eapply spends_anchored_intro|done|done|lia|by apply paid_changed_tagged..].
Qed.

(** Every cancellation the bridge selects coins for is exact: it spends
    the reserve's anchor first and otherwise only reserve coins, returns all of
    it less the VM fee to the reserve in an output of at least the dust limit
    which is the line's next anchor, and is read as the cancellation of that
    deposit and as nothing else. *)
Theorem cancel_exact b s anchor inputs op :
  reserveAnchor s = Some anchor → coins_ok (anchor :: reserveUTXOs s) →
  cancelInputs s (vmFee b) = Ok inputs → 0 ≤ vmFee b → vmFee b + pegDust < two63 → outpoint_ok op →
  ∃ tx dataOut, buildCancel b inputs op = Ok tx ∧
    spends_anchored anchor (reserveUTXOs s) tx ∧
    txOut tx = [mkTxOut (total_of inputs - vmFee b) (signers_pkScript (signers b)); dataOut] ∧
    Value dataOut = 0 ∧ pegDust ≤ total_of inputs - vmFee b ∧
    lastOutput (signers_pkScript (signers b)) 0 (txOut tx) = Some 0 ∧
    (∀ m', reads_as tx m' ↔ m' = MCancel op).
Proof.
  intros Ha Hc Hin Hf Hv Hop. unfold cancelInputs in Hin. rewrite Ha in Hin.
  case_match; [|done]. rewrite pegDust_val in *. rewrite wrap64_small in Hin by i64.
  pose proof (anchoredSelection_spec anchor (reserveUTXOs s) (vmFee b + 1000000) Hc Hv) as Hsel.
  destruct (anchoredSelection _ _ _) as [[inputs' total]|]; [|done]. injection Hin as ->.
  destruct Hsel as (Hanch & _ & Hci).
  assert (Hval : vmFee b + 1000000 ≤ total_of inputs) by by destruct Hanch as (? & _ & _ & _ & ? & _).
  unfold buildCancel. rewrite sum_values_exact, pegDust_val by done. rewrite (wrap64_small (vmFee b + _)) by i64.
  rewrite (proj2 (Z.ltb_ge _ _)) by lia. rewrite (anchored_unneeded _ _ _ _ Hci Hanch).
  destruct Hci as [_ Hs]. fold (total_of inputs) in Hs. rewrite wrap64_small by i64.
  replace (Nat.eqb (length inputs) 0) with false by (by destruct Hanch as (? & -> & _)).
  change (encodeCancel op) with (encode_message (MCancel op)).
  rewrite nullData_message, addInputs_fields by done.
  unfold AddTxOut. cbn [mbind result_bind txIn txOut Version LockTime NewMsgTx app ensure negb orb].
  eexists _, _. split; [reflexivity|].
  split_and!; [by eapply spends_anchored_intro|done|done|lia| |].
  - simpl. rewrite bool_decide_eq_false_2, bool_decide_eq_true_2; [done..|].
    by rewrite signers_pkScript_shape.
  - match goal with |- ∀ m', reads_as ?tx m' ↔ _ => assert (Hr : reads_as tx (MCancel op)) end.
    { apply carries_reads_as; [done|]. eexists [_], _, []. split_and!; [done|by apply nullData_message|].
      repeat constructor. apply signers_pkScript_not_data. }
    intros m'. split; [by apply reads_as_unique|by intros ->].
Qed.
End built.

(** ** Concrete runs *)

Module Samples.
#[local] Existing Instance toyCrypto.
#[local] Existing Instance toyCrypto_ok.
#[local] Existing Instance goRuntime.
#[local] Existing Instance goRuntime_ok.

Definition coin (i value : Z) : utxo := mkUtxo (mkOutPoint (replicate 32 i) 0) value [] 9.
Definition coins : list utxo := [coin 1 (3 * koinuPerDoge); coin 2 (40 * koinuPerDoge); coin 3 (8 * koinuPerDoge)].
Definition state : pegState :=
  sampleState (Some (coin 1 (3 * koinuPerDoge))) (Some (coin 1 (3 * koinuPerDoge))) coins coins.
Definition dest0 : destination := mkDest destP2PKH (replicate 20 5).
Definition deposit0 : deposit := mkDeposit 0 sampleOp (20 * koinuPerDoge) dest0 true true 99.

Lemma coins_sample : coins_ok (coin 1 (3 * koinuPerDoge) :: coins).
Proof. split; [repeat constructor; vm_compute; discriminate|vm_compute; reflexivity]. Qed.

Lemma dest0_other : pkScript dest0 ≠ signers_pkScript (signers sampleBridge).
Proof. vm_compute. discriminate. Qed.

Lemma payout_exact_witness :
  ∃ tx, buildPayout sampleBridge [coin 1 (3 * koinuPerDoge); coin 2 (40 * koinuPerDoge)]
    (20 * koinuPerDoge) dest0 (encode_message (MPayment (replicate 32 4))) koinuPerDoge = Ok tx.
Proof.
  destruct (payout_exact sampleBridge state (coin 1 (3 * koinuPerDoge)) coins
    [coin 1 (3 * koinuPerDoge); coin 2 (40 * koinuPerDoge)] (20 * koinuPerDoge) dest0
    (MPayment (replicate 32 4)) koinuPerDoge) as (tx & Htx & _); [done|apply coins_sample| | | | | |done|].
  - vm_compute. reflexivity.
  - vm_compute. discriminate.
  - vm_compute. split; [discriminate|reflexivity].
  - reflexivity.
  - apply dest0_other.
  - exists tx. exact Htx.
Defined.

Lemma release_exact_witness :
  ∃ tx, buildRelease sampleBridge [coin 1 (3 * koinuPerDoge); coin 2 (40 * koinuPerDoge)]
    (43 * koinuPerDoge) deposit0 = Ok tx.
Proof.
  destruct (release_exact sampleBridge state (coin 1 (3 * koinuPerDoge))
    [coin 1 (3 * koinuPerDoge); coin 2 (40 * koinuPerDoge)] (43 * koinuPerDoge) deposit0)
    as (tx & _ & Htx & _); [done|apply coins_sample| | | | | | |].
  - vm_compute. reflexivity.
  - vm_compute. split; discriminate.
  - vm_compute. reflexivity.
  - reflexivity.
  - apply dest0_other.
  - apply sampleOp_ok.
  - exists tx. exact Htx.
Defined.

Lemma cancel_exact_witness :
  ∃ tx, buildCancel sampleBridge [coin 1 (3 * koinuPerDoge)] sampleOp = Ok tx.
Proof.
  destruct (cancel_exact sampleBridge state (coin 1 (3 * koinuPerDoge)) [coin 1 (3 * koinuPerDoge)] sampleOp)
    as (tx & _ & Htx & _); [done|apply coins_sample| | | |apply sampleOp_ok|].
  - vm_compute. reflexivity.
  - vm_compute. discriminate.
  - vm_compute. reflexivity.
  - exists tx. exact Htx.
Defined.
End Samples.
