(* ===== verification/Load.v ===== *)
(** Reading the peg's state back from the two chains
    (src/cmd/dogevm/bridge.go: dogeWatchSet, load, listedContributions). *)

From Stdlib Require Import Ascii String.
From S2P Require Import Prelude Text Wire Runtime Script Tags Amount Peg Lineage State Build.

(** ** The contributions file *)

Definition listLine (listed : gset string) (line : string) : result (gset string) :=
  match fields line with
  | [] => Ok listed
  | f :: _ =>
      if match f with String c _ => bool_decide (c = "#"%char) | EmptyString => false end then Ok listed
      else
        _ ← ensure (bool_decide (is_Some (cut ":"%char f)))
              (Errorf "a transaction, not an output: list TXID:VOUT");
        op ← parseOutPoint f;
        Ok ({[OutPoint_String op]} ∪ listed)
  end.

Fixpoint listLines (listed : gset string) (lines : list string) : result (gset string) :=
  match lines with
  | [] => Ok listed
  | line :: lines => listed' ← listLine listed line; listLines listed' lines
  end.

(** What the file lists; no file lists nothing. *)
Definition listedContributions (file : result (option string)) : result (gset string) :=
  raw ← file;
  match raw with
  | None => Ok ∅
  | Some raw => listLines ∅ (split_on "010"%char raw)
  end.

(** ** Outputs *)

Section load.
Context `{Crypto} `{GoRuntime}.

Definition spendsAny (tx : MsgTx) (outs : gset OutPoint) : bool :=
  existsb (fun ti => bool_decide (PreviousOutPoint ti ∈ outs)) (txIn tx).

(** The outputs of tx whose script passes p, with their outpoints. *)
Fixpoint outputsIf (p : bytes → bool) (hash : bytes) (i : Z) (outs : list TxOut)
    : list (OutPoint * TxOut) :=
  match outs with
  | [] => []
  | out :: outs =>
      (if p (PkScript out) then [(mkOutPoint hash (uint32 i), out)] else [])
      ++ outputsIf p hash (i + 1) outs
  end.

Definition outputsTo (tx : MsgTx) (script : bytes) : gset OutPoint * Z :=
  let l := outputsIf (fun s => bool_decide (s = script)) (TxHash tx) 0 (txOut tx) in
  (list_to_set l.*1, foldl (fun t o => t [+] Value o) 0 l.*2).

(** The outputs of txs whose script passes p. *)
Definition outputsOf (p : bytes → bool) (txs : list chainTx) : gset OutPoint :=
  foldl (fun outs t => outs ∪ list_to_set (outputsIf p (TxHash (ct_tx t)) 0 (txOut (ct_tx t))).*1) ∅ txs.

(** ** The Dogecoin addresses watched *)

Record watchSet := mkWatch {
  w_addrs : list Address; w_redeemFor : gmap bytes bytes; w_depositDest : gmap bytes destination;
}.

Definition watchOne (b : bridge) (w : watchSet) (d : destination) : watchSet :=
  let redeem := depositRedeemScript (signers b) d in
  mkWatch (w_addrs w ++ [AddressScriptHash (hash160Of redeem)])
    (<[p2shScript redeem := redeem]> (w_redeemFor w))
    (<[p2shScript redeem := d]> (w_depositDest w)).

Definition dogeWatchSet (b : bridge) : result watchSet :=
  dests ← registry b;
  Ok (foldl (watchOne b)
    (mkWatch [signers_address (signers b)]
       {[signers_pkScript (signers b) := redeemScript (signers b)]} ∅) dests).

(** ** The DogecoinVM side *)

Record vmSide := mkVMSide {
  v_reserveCreated : Z;
  v_released : gmap OutPoint bytes;
  v_cancelled : gmap OutPoint bool;
  v_vmPending : bool;
  v_vmUnconfirmed : gmap bytes chainTx;
  v_pegOuts : list pegOut;
  v_unclaimedOnVM : Z;
}.

(** One transaction of the reserve's history. *)
Definition loadVMTx (b : bridge) (reserveOuts : gset OutPoint) (v : vmSide) (t : chainTx) : vmSide :=
  let script := signers_pkScript (signers b) in
  let paidIn := (outputsTo (ct_tx t) script).2 in
  let txid := TxHash (ct_tx t) in
  if isCoinbase (ct_tx t) then
    if 0 <? ct_confirmations t
    then mkVMSide (v_reserveCreated v [+] paidIn) (v_released v) (v_cancelled v) (v_vmPending v)
           (v_vmUnconfirmed v) (v_pegOuts v) (v_unclaimedOnVM v)
    else v
  else if spendsAny (ct_tx t) reserveOuts then
    mkVMSide (v_reserveCreated v)
      (match parseRelease (ct_tx t) with
       | Some deposit => <[deposit := txid]> (v_released v) | None => v_released v end)
      (match parseCancel (ct_tx t) with
       | Some deposit =>
           <[deposit := default false (v_cancelled v !! deposit) || (0 <? ct_confirmations t)]> (v_cancelled v)
       | None => v_cancelled v end)
      (if ct_confirmations t =? 0 then true else v_vmPending v)
      (if ct_confirmations t =? 0 then <[txid := t]> (v_vmUnconfirmed v) else v_vmUnconfirmed v)
      (v_pegOuts v) (v_unclaimedOnVM v)
  else if ct_confirmations t =? 0 then v
  else
    let tagged := parseDestinationTag (ct_tx t) tagPegOut in
    let dest := default zeroDest tagged in
    let ok := bool_decide (is_Some tagged) && negb (bool_decide (pkScript dest = script)) in
    let p := mkPegOut (ct_time t) txid paidIn dest (ok && (minPegOut b <=? paidIn)) (ct_confirmations t) in
    if p_valid p
    then mkVMSide (v_reserveCreated v) (v_released v) (v_cancelled v) (v_vmPending v)
           (v_vmUnconfirmed v) (v_pegOuts v ++ [p]) (v_unclaimedOnVM v)
    else mkVMSide (v_reserveCreated v) (v_released v) (v_cancelled v) (v_vmPending v)
           (v_vmUnconfirmed v) (v_pegOuts v) (v_unclaimedOnVM v [+] paidIn).

Definition loadVM (b : bridge) (txs : list chainTx) : vmSide :=
  let script := signers_pkScript (signers b) in
  let reserveOuts := outputsOf (fun s => bool_decide (s = script)) txs in
  foldl (loadVMTx b reserveOuts) (mkVMSide 0 ∅ ∅ false ∅ [] 0) txs.

(** The signers' own spends of the reserve. *)
Definition signerSpends (b : bridge) (txs : list chainTx) : gset bytes :=
  let script := signers_pkScript (signers b) in
  let reserveOuts := outputsOf (fun s => bool_decide (s = script)) txs in
  list_to_set ((fun t => TxHash (ct_tx t)) <$>
    filter (fun t => negb (isCoinbase (ct_tx t)) && spendsAny (ct_tx t) reserveOuts = true) txs).

Definition spentByKnown (txs : list chainTx) : gset OutPoint :=
  list_to_set (txs ≫= fun t => prevOuts (ct_tx t)).

(** The reserve still held: its value and its confirmed coins. *)
Definition reserveHeld (b : bridge) (txs : list chainTx) (held : list utxo) : Z * list utxo :=
  foldl (fun '(unspent, coins) u =>
      if bool_decide (u_outPoint u ∈ spentByKnown txs) then (unspent, coins)
      else if (u_confirmations u =? 0) && negb (bool_decide (Hash (u_outPoint u) ∈ signerSpends b txs))
      then (unspent, coins)
      else (unspent [+] u_value u, if 0 <? u_confirmations u then coins ++ [u] else coins))
    (0, []) held.

(** ** The Dogecoin side *)

Record dogeSide := mkDogeSide {
  g_unconfirmed : gmap bytes chainTx;
  g_paid : gmap bytes bytes;
  g_refunded : gmap OutPoint bytes;
  g_all : list deposit;
  g_contributed : Z;
  g_contributions : list utxo;
}.

(** If an action has two transactions listed, the one in a block counts. *)
Definition counts (unconfirmed : gmap bytes chainTx) (t : chainTx) (prev : option bytes) : bool :=
  match prev with
  | None => true
  | Some prev => has unconfirmed prev && (0 <? ct_confirmations t)
  end.

(** A payout to a personal deposit address is a deposit to it. *)
Definition personalDeposits (b : bridge) (w : watchSet) (t : chainTx) : list deposit :=
  omap (fun '(op, out) =>
      dest ← w_depositDest w !! PkScript out;
      Some (mkDeposit (ct_time t) op (Value out) dest (creditable b dest (Value out)) true (ct_confirmations t)))
    (outputsIf (fun _ => true) (TxHash (ct_tx t)) 0 (txOut (ct_tx t))).

(** A transaction that spends peg outputs: only the signers make those. *)
Definition loadSignerTx (b : bridge) (w : watchSet) (g : dogeSide) (t : chainTx) : dogeSide :=
  let txid := TxHash (ct_tx t) in
  let unconfirmed := if ct_confirmations t =? 0 then <[txid := t]> (g_unconfirmed g) else g_unconfirmed g in
  let paid := match parsePayment (ct_tx t) with
    | Some request => if counts unconfirmed t (g_paid g !! request) then <[request := txid]> (g_paid g) else g_paid g
    | None => g_paid g end in
  let refunded := match parseRefund (ct_tx t) with
    | Some op => if counts unconfirmed t (g_refunded g !! op) then <[op := txid]> (g_refunded g) else g_refunded g
    | None => g_refunded g end in
  mkDogeSide unconfirmed paid refunded (g_all g ++ personalDeposits b w t) (g_contributed g) (g_contributions g).

(** One output of a transaction someone else made. *)
Definition loadOutput (b : bridge) (w : watchSet) (listed : gset string) (t : chainTx)
    (g : dogeSide) (o : OutPoint * TxOut) : dogeSide :=
  let '(op, out) := o in
  let script := signers_pkScript (signers b) in
  let tagDest := parseDestinationTag (ct_tx t) tagDeposit in
  let contribution := isContribution (ct_tx t) || bool_decide (OutPoint_String op ∈ listed) in
  let add d := mkDogeSide (g_unconfirmed g) (g_paid g) (g_refunded g) (g_all g ++ [d])
    (g_contributed g) (g_contributions g) in
  match w_depositDest w !! PkScript out with
  | Some dest =>
      add (mkDeposit (ct_time t) op (Value out) dest (creditable b dest (Value out)) true (ct_confirmations t))
  | None =>
      if bool_decide (PkScript out = script) then
        if contribution
        then mkDogeSide (g_unconfirmed g) (g_paid g) (g_refunded g) (g_all g)
               (if 0 <? ct_confirmations t then g_contributed g [+] Value out else g_contributed g)
               (g_contributions g ++ [mkUtxo op (Value out) (PkScript out) (ct_confirmations t)])
        else
          let dest := default zeroDest tagDest in
          let hasTag := bool_decide (is_Some tagDest) in
          add (mkDeposit (ct_time t) op (Value out) dest (hasTag && creditable b dest (Value out)) hasTag
                 (ct_confirmations t))
      else g
  end.

Definition loadDogeTx (b : bridge) (w : watchSet) (listed : gset string) (pegOuts : gset OutPoint)
    (g : dogeSide) (t : chainTx) : dogeSide :=
  if spendsAny (ct_tx t) pegOuts then loadSignerTx b w g t
  else foldl (loadOutput b w listed t) g
         (outputsIf (fun _ => true) (TxHash (ct_tx t)) 0 (txOut (ct_tx t))).

Definition watched (w : watchSet) (script : bytes) : bool := has (w_redeemFor w) script.

Definition loadDoge (b : bridge) (w : watchSet) (listed : gset string) (txs : list chainTx) : dogeSide :=
  foldl (loadDogeTx b w listed (outputsOf (watched w) txs)) (mkDogeSide ∅ ∅ ∅ [] 0 []) txs.

(** ** Classification *)

Record classes := mkClasses {
  c_settled : list deposit; c_deposits : list deposit; c_held : list deposit;
  c_pendingRefunds : Z; c_unclaimedOnDoge : Z;
}.

(** The refund or release of op, if it isn't the zero hash. *)
Definition settledBy (m : gmap OutPoint bytes) (op : OutPoint) : bool :=
  negb (bool_decide (default zeroHash (m !! op) = zeroHash)).

Definition classify (v : vmSide) (g : dogeSide) (c : classes) (d : deposit) : classes :=
  if settledBy (g_refunded g) (d_outPoint d) then
    mkClasses (c_settled c ++ [d]) (c_deposits c) (c_held c)
      (if has (g_unconfirmed g) (default zeroHash (g_refunded g !! d_outPoint d)) && (0 <? d_confirmations d)
       then c_pendingRefunds c [+] d_value d else c_pendingRefunds c) (c_unclaimedOnDoge c)
  else if d_valid d && negb (has (v_cancelled v) (d_outPoint d)) then
    mkClasses (c_settled c) (c_deposits c ++ [d]) (c_held c) (c_pendingRefunds c) (c_unclaimedOnDoge c)
  else if settledBy (v_released v) (d_outPoint d) then c
  else
    mkClasses (c_settled c) (c_deposits c) (c_held c ++ [d]) (c_pendingRefunds c)
      (if 0 <? d_confirmations d then c_unclaimedOnDoge c [+] d_value d else c_unclaimedOnDoge c).

Definition classifyAll (v : vmSide) (g : dogeSide) : classes :=
  foldl (classify v g) (mkClasses [] [] [] 0 0) (g_all g).

(** ** What is locked *)

Definition lockedConfirmed (utxos : list utxo) : Z :=
  foldl (fun t u => if 0 <? u_confirmations u then t [+] u_value u else t) 0 utxos.

(** The confirmed peg coins the history shows. *)
Definition confirmedCoin (w : watchSet) (txs : list chainTx) : gmap OutPoint utxo :=
  foldl (fun m t =>
      if 0 <? ct_confirmations t then
        foldl (fun m '(op, out) =>
            <[op := mkUtxo op (Value out) (PkScript out) (ct_confirmations t)]> m) m
          (outputsIf (watched w) (TxHash (ct_tx t)) 0 (txOut (ct_tx t)))
      else m) ∅ txs.

(** The confirmed coins unconfirmed transactions spend, and what is locked
    with them. *)
Definition addPending (coins : gmap OutPoint utxo) (acc : gmap OutPoint utxo * Z) (t : chainTx)
    : gmap OutPoint utxo * Z :=
  foldl (fun '(pending, locked) ti =>
      match coins !! PreviousOutPoint ti with
      | Some c => if has pending (PreviousOutPoint ti) then (pending, locked)
                  else (<[PreviousOutPoint ti := c]> pending, locked [+] u_value c)
      | None => (pending, locked)
      end) acc (txIn (ct_tx t)).

Definition pendingOf (w : watchSet) (txs : list chainTx) (unconfirmed : gmap bytes chainTx) (locked : Z)
    : gmap OutPoint utxo * Z :=
  foldl (fun acc '(_, t) => addPending (confirmedCoin w txs) acc t) (∅, locked) (map_range unconfirmed).

(** ** load *)

Definition load (b : bridge) (vm doge : chain) : result pegState :=
  let script := signers_pkScript (signers b) in
  let reserveAddr := signers_address (signers b) in
  vmTxs ← txsFor vm [reserveAddr];
  let v := loadVM b vmTxs in
  heldUTXOs ← unspent vm [reserveAddr] 0;
  let reserveLine := newLineage vmTxs script 1 in
  let '(reserveUnspent, reserveUTXOs) := reserveHeld b vmTxs heldUTXOs in
  w ← dogeWatchSet b;
  dogeTxs ← txsFor doge (w_addrs w);
  conflicted ← match conflictLister doge with
    | Some conflictedFor => l ← conflictedFor (w_addrs w); Ok (Some l)
    | None => Ok None
    end;
  listed ← listedContributions (contributionsFile b);
  let g := loadDoge b w listed dogeTxs in
  let c := classifyAll v g in
  lockedUTXOs ← unspent doge (w_addrs w) 0;
  let '(pendingCoins, locked) := pendingOf w dogeTxs (g_unconfirmed g) (lockedConfirmed lockedUTXOs) in
  let pegCoins := filter (fun u => 0 < u_confirmations u) lockedUTXOs ++ (map_range pendingCoins).*2 in
  let pegLine := newLineage dogeTxs script (Z.max (depositConfirmations b) (confFloor b)) in
  Ok {|
    redeemFor := w_redeemFor w; depositDest := w_depositDest w;
    reserveCreated := v_reserveCreated v; reserveUnspent := reserveUnspent;
    reserveUTXOs := reserveUTXOs; vmPending := v_vmPending v;
    reserveAnchor := anchorIn reserveLine (filter (fun u => 0 < u_confirmations u) heldUTXOs);
    pegAnchor := anchorIn pegLine pegCoins;
    reserveLine := reserveLine; pegLine := pegLine;
    released := v_released v; cancelled := v_cancelled v;
    pegOuts := sort_slice (fun x y => p_confirmations y <? p_confirmations x) (v_pegOuts v);
    deposits := sort_slice (fun x y => d_confirmations y <? d_confirmations x) (c_deposits c);
    paid := g_paid g; refunded := g_refunded g; pendingCoins := pendingCoins;
    vmUnconfirmed := v_vmUnconfirmed v; unconfirmed := g_unconfirmed g;
    held := c_held c; settled := c_settled c; locked := locked; lockedUTXOs := lockedUTXOs;
    unclaimedOnDoge := c_unclaimedOnDoge c; unclaimedOnVM := v_unclaimedOnVM v;
    contributed := g_contributed g; contributions := g_contributions g;
    pendingRefunds := c_pendingRefunds c; pendingFees := 0;
    vmTxs := vmTxs; dogeTxs := dogeTxs; dogeConflicted := conflicted;
  |}.
End load.

(** ** What the loaded state is made of *)

Section loaded.
Context `{Crypto} `{GoRuntime} `{!GoRuntimeOk}.

(** t spends an output some transaction of txs pays to a script that passes p:
    only the signers can. *)
Definition signed_spend (p : bytes → bool) (txs : list chainTx) (t : chainTx) : Prop :=
  ∃ op t' k out, op ∈ prevOuts (ct_tx t) ∧ t' ∈ txs ∧ txOut (ct_tx t') !! k = Some out ∧
    p (PkScript out) = true ∧ op = mkOutPoint (TxHash (ct_tx t')) (uint32 (Z.of_nat k)).

Lemma outputsIf_elem p hash i outs op out :
  (op, out) ∈ outputsIf p hash i outs ↔
  ∃ k, outs !! k = Some out ∧ p (PkScript out) = true ∧ op = mkOutPoint hash (uint32 (i + Z.of_nat k)).
Proof.
  revert i. induction outs as [|o outs IH]; intros i; simpl.
  { split; [by intros ?%elem_of_nil|]. intros (k & Hk & _). by rewrite lookup_nil in Hk. }
  rewrite elem_of_app, IH. split.
  - intros [Ho|(k & Hk & Hp & ->)].
    + destruct (p (PkScript o)) eqn:E; [|by apply elem_of_nil in Ho].
      apply list_elem_of_singleton in Ho. simplify_eq. exists 0%nat. rewrite Z.add_0_r. done.
    + exists (S k). split_and!; [done..|]. do 2 f_equal. lia.
  - intros ([|k] & Hk & Hp & ->); simpl in Hk.
    + simplify_eq. left. rewrite Hp, Z.add_0_r. by apply list_elem_of_singleton.
    + right. exists k. split_and!; [done..|]. do 2 f_equal. lia.
Qed.

Lemma outputsOf_elem p txs op :
  op ∈ outputsOf p txs →
  ∃ t' k out, t' ∈ txs ∧ txOut (ct_tx t') !! k = Some out ∧ p (PkScript out) = true ∧
    op = mkOutPoint (TxHash (ct_tx t')) (uint32 (Z.of_nat k)).
Proof.
  unfold outputsOf. revert op. apply foldl_inv; [set_solver|].
  intros outs t Ht IH op [Hop|Hop]%elem_of_union; [by apply IH|].
  apply elem_of_list_to_set, list_elem_of_fmap in Hop as ([op' out] & -> & Hop).
  apply outputsIf_elem in Hop as (k & Hk & Hp & ->). by exists t, k, out.
Qed.

Lemma spendsAny_signed p txs t :
  spendsAny (ct_tx t) (outputsOf p txs) = true → signed_spend p txs t.
Proof.
  unfold spendsAny. intros (ti & Hti & Hop)%existsb_exists. apply bool_decide_eq_true in Hop.
  apply outputsOf_elem in Hop as (t' & k & out & Ht' & Hk & Hp & E).
  exists (PreviousOutPoint ti), t', k, out. split_and!; [|done..].
  apply list_elem_of_fmap. exists ti. split; [done|]. by apply list_elem_of_In.
Qed.

Definition peg_script (b : bridge) (s : bytes) : bool := bool_decide (s = signers_pkScript (signers b)).

(** Releases and cancellations are read only from spends of the reserve. *)
Definition vm_trusted (b : bridge) (txs : list chainTx) (v : vmSide) : Prop :=
  (∀ op h, v_released v !! op = Some h →
     ∃ t, t ∈ txs ∧ h = TxHash (ct_tx t) ∧ signed_spend (peg_script b) txs t ∧ parseRelease (ct_tx t) = Some op) ∧
  (∀ op c, v_cancelled v !! op = Some c →
     ∃ t, t ∈ txs ∧ signed_spend (peg_script b) txs t ∧ parseCancel (ct_tx t) = Some op ∧
       (c = true → ∃ t', t' ∈ txs ∧ signed_spend (peg_script b) txs t' ∧
          parseCancel (ct_tx t') = Some op ∧ 0 < ct_confirmations t')).

Lemma loadVMTx_trusted b txs v t :
  t ∈ txs → vm_trusted b txs v →
  vm_trusted b txs (loadVMTx b (outputsOf (peg_script b) txs) v t).
Proof.
  intros Ht [Hr Hc]. unfold loadVMTx. destruct (isCoinbase (ct_tx t)); [by case_match|].
  destruct (spendsAny (ct_tx t) _) eqn:Hs; [|by repeat case_match].
  apply spendsAny_signed in Hs. split; simpl.
  - intros op h. destruct (parseRelease (ct_tx t)) as [d|] eqn:Hp; [|apply Hr].
    destruct (decide (d = op)) as [->|]; [|rewrite lookup_insert_ne by done; apply Hr].
    rewrite lookup_insert_eq. intros [= <-]. by exists t.
  - intros op c. destruct (parseCancel (ct_tx t)) as [d|] eqn:Hp; [|apply Hc].
    destruct (decide (d = op)) as [->|]; [|rewrite lookup_insert_ne by done; apply Hc].
    rewrite lookup_insert_eq. intros [= <-]. exists t. split_and!; [done..|].
    intros [Hd|Hd]%orb_true_iff; [|apply Z.ltb_lt in Hd; by exists t].
    destruct (v_cancelled v !! op) as [c|] eqn:E; [|done]. simpl in Hd. subst c.
    destruct (Hc op true E) as (_ & _ & _ & _ & Hc'). by apply Hc'.
Qed.

Lemma loadVM_trusted b txs : vm_trusted b txs (loadVM b txs).
Proof.
  unfold loadVM. apply foldl_inv; [by split|]. intros v t Ht. by apply loadVMTx_trusted.
Qed.

(** Payments and refunds are read only from spends of the peg's coins. *)
Definition doge_trusted (w : watchSet) (txs : list chainTx) (g : dogeSide) : Prop :=
  (∀ r h, g_paid g !! r = Some h →
     ∃ t, t ∈ txs ∧ h = TxHash (ct_tx t) ∧ signed_spend (watched w) txs t ∧ parsePayment (ct_tx t) = Some r) ∧
  (∀ op h, g_refunded g !! op = Some h →
     ∃ t, t ∈ txs ∧ h = TxHash (ct_tx t) ∧ signed_spend (watched w) txs t ∧ parseRefund (ct_tx t) = Some op).

Lemma loadOutput_keeps b w listed t g o :
  let g' := loadOutput b w listed t g o in
  g_paid g' = g_paid g ∧ g_refunded g' = g_refunded g ∧ g_unconfirmed g' = g_unconfirmed g.
Proof. destruct o as [op out]. unfold loadOutput. repeat case_match; done. Qed.

Lemma loadDogeTx_trusted b w listed txs g t :
  t ∈ txs → doge_trusted w txs g →
  doge_trusted w txs (loadDogeTx b w listed (outputsOf (watched w) txs) g t).
Proof.
  intros Ht [Hp Hr]. unfold loadDogeTx. destruct (spendsAny (ct_tx t) _) eqn:Hs.
  - apply spendsAny_signed in Hs. unfold loadSignerTx. split; simpl.
    + intros r h. destruct (parsePayment (ct_tx t)) as [r'|] eqn:E; [|apply Hp].
      case_match; [|apply Hp]. destruct (decide (r' = r)) as [->|]; [|rewrite lookup_insert_ne by done; apply Hp].
      rewrite lookup_insert_eq. intros [= <-]. by exists t.
    + intros r h. destruct (parseRefund (ct_tx t)) as [r'|] eqn:E; [|apply Hr].
      case_match; [|apply Hr]. destruct (decide (r' = r)) as [->|]; [|rewrite lookup_insert_ne by done; apply Hr].
      rewrite lookup_insert_eq. intros [= <-]. by exists t.
  - apply (foldl_inv (doge_trusted w txs)); [done|]. intros g' o _ [Hp' Hr'].
    destruct (loadOutput_keeps b w listed t g' o) as (Ep & Er & _).
    split; [rewrite Ep|rewrite Er]; done.
Qed.

Lemma loadDoge_trusted b w listed txs : doge_trusted w txs (loadDoge b w listed txs).
Proof.
  unfold loadDoge. apply foldl_inv; [by split|]. intros g t Ht. by apply loadDogeTx_trusted.
Qed.

(** What load read and how its state is built of it. *)
Record loaded_from (b : bridge) (s : pegState) (w : watchSet) (listed : gset string) : Prop := {
  lf_watch : dogeWatchSet b = Ok w;
  lf_listed : listedContributions (contributionsFile b) = Ok listed;
  lf_redeemFor : redeemFor s = w_redeemFor w;
  lf_depositDest : depositDest s = w_depositDest w;
  lf_released : released s = v_released (loadVM b (vmTxs s));
  lf_cancelled : cancelled s = v_cancelled (loadVM b (vmTxs s));
  lf_vmPending : vmPending s = v_vmPending (loadVM b (vmTxs s));
  lf_pegOuts : pegOuts s ≡ₚ v_pegOuts (loadVM b (vmTxs s));
  lf_paid : paid s = g_paid (loadDoge b w listed (dogeTxs s));
  lf_refunded : refunded s = g_refunded (loadDoge b w listed (dogeTxs s));
  lf_unconfirmed : unconfirmed s = g_unconfirmed (loadDoge b w listed (dogeTxs s));
  lf_vmUnconfirmed : vmUnconfirmed s = v_vmUnconfirmed (loadVM b (vmTxs s));
  lf_deposits : deposits s ≡ₚ
    c_deposits (classifyAll (loadVM b (vmTxs s)) (loadDoge b w listed (dogeTxs s)));
  lf_held : held s = c_held (classifyAll (loadVM b (vmTxs s)) (loadDoge b w listed (dogeTxs s)));
  lf_settled : settled s = c_settled (classifyAll (loadVM b (vmTxs s)) (loadDoge b w listed (dogeTxs s)));
  lf_pendingRefunds : pendingRefunds s =
    c_pendingRefunds (classifyAll (loadVM b (vmTxs s)) (loadDoge b w listed (dogeTxs s)));
  lf_unclaimed : unclaimedOnDoge s =
    c_unclaimedOnDoge (classifyAll (loadVM b (vmTxs s)) (loadDoge b w listed (dogeTxs s)));
}.

Lemma load_inv b vm doge s : load b vm doge = Ok s → ∃ w listed, loaded_from b s w listed.
Proof.
  unfold load. intros Hl.
  apply bind_Ok in Hl as (vtxs & Hvm & Hl). apply bind_Ok in Hl as (hu & Hhu & Hl).
  destruct (reserveHeld b vtxs hu) as [ru rc]. apply bind_Ok in Hl as (w & Hw & Hl).
  apply bind_Ok in Hl as (dtxs & Hd & Hl). apply bind_Ok in Hl as (conf & Hconf & Hl).
  apply bind_Ok in Hl as (listed & Hli & Hl). apply bind_Ok in Hl as (lu & Hlu & Hl).
  destruct (pendingOf _ _ _ _) as [pc lk]. injection Hl as <-.
  exists w, listed. split; simpl; try done; apply sort_slice_perm.
Qed.

Lemma dogeWatchSet_addr b w : dogeWatchSet b = Ok w → signers_address (signers b) ∈ w_addrs w.
Proof.
  unfold dogeWatchSet. intros E. apply bind_Ok in E as (dests & _ & [= <-]).
  apply (foldl_inv (fun w => signers_address (signers b) ∈ w_addrs w)); [by left|].
  intros w d _ Hw. simpl. apply elem_of_app. by left.
Qed.

(** The histories are the nodes' answers. *)
Lemma load_reads b vm doge s :
  load b vm doge = Ok s →
  txsFor vm [signers_address (signers b)] = Ok (vmTxs s) ∧
  ∃ w, signers_address (signers b) ∈ w_addrs w ∧ txsFor doge (w_addrs w) = Ok (dogeTxs s).
Proof.
  unfold load. intros Hl.
  apply bind_Ok in Hl as (vtxs & Hvm & Hl). apply bind_Ok in Hl as (hu & Hhu & Hl).
  destruct (reserveHeld b vtxs hu) as [ru rc]. apply bind_Ok in Hl as (w & Hw & Hl).
  apply bind_Ok in Hl as (dtxs & Hd & Hl). apply bind_Ok in Hl as (conf & Hconf & Hl).
  apply bind_Ok in Hl as (listed & Hli & Hl). apply bind_Ok in Hl as (lu & Hlu & Hl).
  destruct (pendingOf _ _ _ _) as [pc lk]. injection Hl as <-. eauto using dogeWatchSet_addr.
Qed.

(** The unconfirmed transactions: listed with no confirmation, of the signers. *)
Definition waits_in (p : bytes → bool) (txs : list chainTx) (txid : bytes) (t : chainTx) : Prop :=
  txid = TxHash (ct_tx t) ∧ t ∈ txs ∧ ct_confirmations t = 0 ∧ signed_spend p txs t.

Lemma loadDoge_waits b w listed txs : map_Forall (waits_in (watched w) txs) (g_unconfirmed (loadDoge b w listed txs)).
Proof.
  unfold loadDoge. apply (foldl_inv (fun g => map_Forall (waits_in (watched w) txs) (g_unconfirmed g))); [apply map_Forall_empty|].
  intros g t Ht Hg. unfold loadDogeTx. destruct (spendsAny (ct_tx t) _) eqn:Hs.
  - apply spendsAny_signed in Hs. cbn. destruct (Z.eqb_spec (ct_confirmations t) 0); [|done].
    by apply map_Forall_insert_2.
  - apply (foldl_inv (fun g => map_Forall (waits_in (watched w) txs) (g_unconfirmed g))); [done|]. intros g' o _ Hg'.
    destruct (loadOutput_keeps b w listed t g' o) as (_ & _ & ->). done.
Qed.

Lemma loadVM_waits b txs : map_Forall (waits_in (peg_script b) txs) (v_vmUnconfirmed (loadVM b txs)).
Proof.
  unfold loadVM. apply (foldl_inv (fun v => map_Forall (waits_in (peg_script b) txs) (v_vmUnconfirmed v))); [apply map_Forall_empty|].
  intros v t Ht Hv. unfold loadVMTx. destruct (isCoinbase _); [by case_match|]. destruct (spendsAny (ct_tx t) _) eqn:Hs.
  - apply spendsAny_signed in Hs. cbn. destruct (Z.eqb_spec (ct_confirmations t) 0); [|done].
    by apply map_Forall_insert_2.
  - repeat case_match; done.
Qed.

Lemma load_waits b vm doge s : load b vm doge = Ok s →
  map_Forall (waits_in (has (redeemFor s)) (dogeTxs s)) (unconfirmed s) ∧
  map_Forall (waits_in (peg_script b) (vmTxs s)) (vmUnconfirmed s).
Proof.
  intros (w & listed & Hf)%load_inv.
  rewrite (lf_unconfirmed _ _ _ _ Hf), (lf_vmUnconfirmed _ _ _ _ Hf), (lf_redeemFor _ _ _ _ Hf).
  split; [apply loadDoge_waits|apply loadVM_waits].
Qed.

(** C21. Peg messages are only trusted on transactions the signers made: every
    deposit load records as credited, cancelled or refunded, and every peg-out
    recorded as paid, is so because a transaction the chain lists spends an
    output paid to the reserve (or to a watched Dogecoin script) and carries that
    very message; a cancellation counts as in a block only if one such is. *)
Theorem load_trusts_signers b vm doge s :
  load b vm doge = Ok s →
  let reserve := signed_spend (peg_script b) (vmTxs s) in
  let peg := signed_spend (has (redeemFor s)) (dogeTxs s) in
  (∀ op h, released s !! op = Some h →
     ∃ t, t ∈ vmTxs s ∧ h = TxHash (ct_tx t) ∧ reserve t ∧ parseRelease (ct_tx t) = Some op) ∧
  (∀ op c, cancelled s !! op = Some c →
     ∃ t, t ∈ vmTxs s ∧ reserve t ∧ parseCancel (ct_tx t) = Some op ∧
       (c = true → ∃ t', t' ∈ vmTxs s ∧ reserve t' ∧
          parseCancel (ct_tx t') = Some op ∧ 0 < ct_confirmations t')) ∧
  (∀ r h, paid s !! r = Some h →
     ∃ t, t ∈ dogeTxs s ∧ h = TxHash (ct_tx t) ∧ peg t ∧ parsePayment (ct_tx t) = Some r) ∧
  (∀ op h, refunded s !! op = Some h →
     ∃ t, t ∈ dogeTxs s ∧ h = TxHash (ct_tx t) ∧ peg t ∧ parseRefund (ct_tx t) = Some op).
Proof.
  intros (w & listed & Hf)%load_inv reserve peg.
  destruct (loadVM_trusted b (vmTxs s)) as [Hr Hc].
  destruct (loadDoge_trusted b w listed (dogeTxs s)) as [Hp Hre].
  unfold peg. rewrite (lf_released _ _ _ _ Hf), (lf_cancelled _ _ _ _ Hf), (lf_paid _ _ _ _ Hf),
    (lf_refunded _ _ _ _ Hf), (lf_redeemFor _ _ _ _ Hf).
  split_and!; [apply Hr|apply Hc|apply Hp|apply Hre].
Qed.

(** ** Every deposit is one thing *)

Definition is_refunded (g : dogeSide) (d : deposit) : bool := settledBy (g_refunded g) (d_outPoint d).
Definition is_open (v : vmSide) (g : dogeSide) (d : deposit) : bool :=
  negb (is_refunded g d) && (d_valid d && negb (has (v_cancelled v) (d_outPoint d))).
Definition is_held (v : vmSide) (g : dogeSide) (d : deposit) : bool :=
  negb (is_refunded g d) && negb (d_valid d && negb (has (v_cancelled v) (d_outPoint d)))
  && negb (settledBy (v_released v) (d_outPoint d)).
Definition refund_pending (g : dogeSide) (d : deposit) : bool :=
  is_refunded g d && (has (g_unconfirmed g) (default zeroHash (g_refunded g !! d_outPoint d))
                      && (0 <? d_confirmations d)).
Definition held_confirmed (v : vmSide) (g : dogeSide) (d : deposit) : bool :=
  is_held v g d && (0 <? d_confirmations d).

Lemma classifyAll_spec v g :
  classifyAll v g = mkClasses
    (filter (fun d => is_refunded g d = true) (g_all g))
    (filter (fun d => is_open v g d = true) (g_all g))
    (filter (fun d => is_held v g d = true) (g_all g))
    (foldl (fun t d => if refund_pending g d then t [+] d_value d else t) 0 (g_all g))
    (foldl (fun t d => if held_confirmed v g d then t [+] d_value d else t) 0 (g_all g)).
Proof.
  unfold classifyAll.
  assert (Hf : ∀ l c, foldl (classify v g) c l = mkClasses
    (c_settled c ++ filter (fun d => is_refunded g d = true) l)
    (c_deposits c ++ filter (fun d => is_open v g d = true) l)
    (c_held c ++ filter (fun d => is_held v g d = true) l)
    (foldl (fun t d => if refund_pending g d then t [+] d_value d else t) (c_pendingRefunds c) l)
    (foldl (fun t d => if held_confirmed v g d then t [+] d_value d else t) (c_unclaimedOnDoge c) l)).
  { induction l as [|d l IH]; intros c; simpl; [by rewrite !app_nil_r; destruct c|].
    rewrite IH, !filter_cons. unfold classify, held_confirmed, refund_pending, is_open, is_held.
    fold (is_refunded g d). destruct (is_refunded g d); simpl.
    { by rewrite <- app_assoc. }
    destruct (d_valid d && negb (has (v_cancelled v) (d_outPoint d))); simpl.
    { by rewrite <- app_assoc. }
    destruct (settledBy (v_released v) (d_outPoint d)); simpl; [done|]. by rewrite <- app_assoc. }
  rewrite Hf. done.
Qed.

(** ** What the audit owes depositors *)

(** A deposit in a block still owed: to its sender while its refund is not in
    a block, otherwise unless it was credited. *)
Definition owed (s : pegState) (d : deposit) : bool :=
  (0 <? d_confirmations d) &&
  match refunded s !! d_outPoint d with
  | Some txid => isUnconfirmed s txid
  | None => negb (has (released s) (d_outPoint d))
  end.

Lemma settledBy_has (m : gmap OutPoint bytes) op :
  (∀ h, m !! op = Some h → h ≠ zeroHash) → settledBy m op = has m op.
Proof.
  intros Hz. unfold settledBy, has. destruct (m !! op) as [h|] eqn:E; simpl.
  - by rewrite bool_decide_eq_false_2 by by apply Hz.
  - done.
Qed.

(** C22. The audit owes every deposit exactly once: over all deposits the
    chain shows, what the audit counts as pending peg-ins, unclaimed deposits and
    pending refunds adds up to exactly the deposits in a block that are still
    owed, each counted once, whether it is valid, out of range, untagged or
    cancelled: one with no refund while it is not credited, and one with a refund
    while that is not in a block, credited or not. *)
Theorem audit_counts_deposits b vm doge s w listed :
  load b vm doge = Ok s → dogeWatchSet b = Ok w →
  listedContributions (contributionsFile b) = Ok listed →
  let all := g_all (loadDoge b w listed (dogeTxs s)) in
  Forall (fun d => 0 ≤ d_value d) all → sumZ (d_value <$> all) < two63 →
  (∀ t, t ∈ vmTxs s ∨ t ∈ dogeTxs s → TxHash (ct_tx t) ≠ zeroHash) →
  PendingPegIns (audit s) + UnclaimedOnDoge (audit s) + PendingRefunds (audit s) =
  sumZ (d_value <$> filter (fun d => owed s d = true) all).
Proof.
  intros Hload Hw Hli all Hnn Hsum Hz.
  destruct (load_inv _ _ _ _ Hload) as (w' & listed' & Hf).
  assert (w' = w) as -> by (pose proof (lf_watch _ _ _ _ Hf); congruence).
  assert (listed' = listed) as -> by (pose proof (lf_listed _ _ _ _ Hf); congruence).
  set (v := loadVM b (vmTxs s)) in *. set (g := loadDoge b w listed (dogeTxs s)) in *.
  cbn [audit PendingPegIns UnclaimedOnDoge PendingRefunds].
  rewrite (lf_unclaimed _ _ _ _ Hf), (lf_pendingRefunds _ _ _ _ Hf).
  fold v g. rewrite classifyAll_spec. cbn [c_pendingRefunds c_unclaimedOnDoge]. fold all.
  pose proof (lf_deposits _ _ _ _ Hf) as Hd. fold v g in Hd. rewrite classifyAll_spec in Hd.
  cbn [c_deposits] in Hd. fold all in Hd.
  assert (Hdn : Forall (fun d => 0 ≤ d_value d) (deposits s)).
  { rewrite Hd. apply Forall_forall. intros d [_ Hin]%list_elem_of_filter.
    rewrite Forall_forall in Hnn. auto. }
  pose proof (sumZ_le_filter (fun d => is_open v g d = true) d_value all Hnn) as Hle.
  rewrite !foldl_sum_if_exact by (done || (rewrite ?Hd; lia)).
  rewrite Hd, list_filter_filter.
  rewrite (list_filter_iff _ (fun d => is_open v g d && uncredited s d = true))
    by (intros d; rewrite andb_true_iff; tauto).
  apply sumZ_three_filters. intros d _.
  assert (Hrel : ∀ op, settledBy (v_released v) op = has (v_released v) op).
  { intros op. apply settledBy_has. intros h Hh.
    destruct (loadVM_trusted b (vmTxs s)) as [Hr _]. destruct (Hr _ _ Hh) as (t & Ht & -> & _). auto. }
  assert (Href : ∀ op, settledBy (g_refunded g) op = has (g_refunded g) op).
  { intros op. apply settledBy_has. intros h Hh.
    destruct (loadDoge_trusted b w listed (dogeTxs s)) as [_ Hr].
    destruct (Hr _ _ Hh) as (t & Ht & -> & _). auto. }
  unfold is_open, held_confirmed, refund_pending, is_held, is_refunded, owed, uncredited, isUnconfirmed.
  rewrite (lf_released _ _ _ _ Hf), (lf_refunded _ _ _ _ Hf), (lf_unconfirmed _ _ _ _ Hf).
  fold v g. rewrite !Hrel, !Href.
  destruct (g_refunded g !! d_outPoint d) as [h|] eqn:E.
  - rewrite (proj2 (has_true (g_refunded g) _)) by eauto. simpl.
    by destruct (has (g_unconfirmed g) h), (0 <? d_confirmations d).
  - rewrite (proj2 (has_false (g_refunded g) _)) by done. simpl.
    by destruct (d_valid d && _), (has (v_released v) _), (0 <? d_confirmations d).
Qed.
End loaded.

(** ** A small peg: a reserve made by a coinbase, one deposit of 20 DOGE, its
    release, and a second deposit not yet credited *)

Module Samples.
#[local] Existing Instance toyCrypto.
#[local] Existing Instance goRuntime.
#[local] Existing Instance goRuntime_ok.

Definition reserve : bytes := signers_pkScript sampleSigners.
Definition alice : destination := mkDest destP2PKH (replicate 20 5).

Definition coinbase : MsgTx :=
  mkMsgTx 1 [NewTxIn (mkOutPoint zeroHash MaxPrevOutIndex) [] []] [mkTxOut (1000 * koinuPerDoge) reserve] 0.

Definition depositTx (i : Z) : MsgTx :=
  mkMsgTx 1 [NewTxIn (mkOutPoint (replicate 32 i) 0) [] []]
    [mkTxOut (20 * koinuPerDoge) reserve;
     mkTxOut 0 (OP_RETURN :: 25 :: encodeDestination tagDeposit alice)] 0.

Definition dep (i : Z) : OutPoint := mkOutPoint (TxHash (depositTx i)) 0.

Definition releaseTx : MsgTx :=
  mkMsgTx 1 [NewTxIn (mkOutPoint (TxHash coinbase) 0) [] []]
    [mkTxOut (20 * koinuPerDoge - 100000) (pkScript alice); mkTxOut (980 * koinuPerDoge) reserve;
     mkTxOut 0 (OP_RETURN :: 40 :: encodeRelease (dep 1))] 0.

Definition vmNode : chain := {|
  txsFor := fun _ => Ok [mkChainTx coinbase 9 0; mkChainTx releaseTx 3 0];
  unspent := fun _ _ => Ok [mkUtxo (mkOutPoint (TxHash releaseTx) 1) (980 * koinuPerDoge) reserve 3];
  confirmer := None; utxoSetter := None; conflictLister := None;
|}.

Definition dogeNode : chain := {|
  txsFor := fun _ => Ok [mkChainTx (depositTx 1) 99 0; mkChainTx (depositTx 2) 70 0];
  unspent := fun _ _ => Ok [mkUtxo (dep 1) (20 * koinuPerDoge) reserve 99;
                            mkUtxo (dep 2) (20 * koinuPerDoge) reserve 70];
  confirmer := None; utxoSetter := None; conflictLister := None;
|}.

(** What the witnesses need of the state load returns. *)
Definition loadedWell (s : pegState) : bool :=
  has (released s) (dep 1) && negb (has (released s) (dep 2)) && Nat.eqb (length (deposits s)) 2
  && solvent (audit s) && (Surplus (audit s) =? 0) && bool_decide (is_Some (reserveAnchor s))
  && bool_decide (is_Some (pegAnchor s)).

(** The chains' histories, as load keeps them. *)
Lemma load_histories s :
  load sampleBridge vmNode dogeNode = Ok s →
  vmTxs s = [mkChainTx coinbase 9 0; mkChainTx releaseTx 3 0] ∧
  dogeTxs s = [mkChainTx (depositTx 1) 99 0; mkChainTx (depositTx 2) 70 0].
Proof.
  intros (Hv & w & _ & Hd)%load_reads. injection Hv as <-. injection Hd as <-. split; reflexivity.
Qed.

Lemma load_sample : ∃ s, load sampleBridge vmNode dogeNode = Ok s ∧ loadedWell s = true.
Proof.
  destruct (load sampleBridge vmNode dogeNode) as [s|e] eqn:E.
  - exists s. split; [reflexivity|].
    assert (match load sampleBridge vmNode dogeNode with Ok s => loadedWell s | Err _ => false end = true)
      as Hl by (vm_compute; reflexivity). by rewrite E in Hl.
  - assert (is_ok (load sampleBridge vmNode dogeNode) = true) as Hl by (vm_compute; reflexivity).
    by rewrite E in Hl.
Qed.

Lemma load_trusts_signers_witness :
  ∃ s t, load sampleBridge vmNode dogeNode = Ok s ∧ t ∈ vmTxs s ∧ parseRelease (ct_tx t) = Some (dep 1).
Proof.
  destruct load_sample as (s & Hs & Hw).
  destruct (load_trusts_signers sampleBridge vmNode dogeNode s Hs) as [Hr _].
  unfold loadedWell in Hw. rewrite !andb_true_iff in Hw. destruct Hw as [[[[[[Hd _] _] _] _] _] _].
  apply has_true in Hd as [h Hh]. destruct (Hr _ _ Hh) as (t & Ht & _ & _ & Hp).
  exists s, t. auto.
Defined.

Definition watchSample : watchSet :=
  mkWatch [signers_address (signers sampleBridge)]
    {[signers_pkScript (signers sampleBridge) := redeemScript (signers sampleBridge)]} ∅.

Definition depositsSample : list deposit :=
  g_all (loadDoge sampleBridge watchSample ∅
    [mkChainTx (depositTx 1) 99 0; mkChainTx (depositTx 2) 70 0]).

Lemma audit_counts_deposits_witness :
  ∃ s, load sampleBridge vmNode dogeNode = Ok s ∧
    PendingPegIns (audit s) + UnclaimedOnDoge (audit s) + PendingRefunds (audit s) =
    sumZ (d_value <$> filter (fun d => owed s d = true) depositsSample).
Proof.
  destruct load_sample as (s & Hs & _). exists s. split; [exact Hs|].
  destruct (load_histories s Hs) as [Hv Hd].
  pose proof (audit_counts_deposits sampleBridge vmNode dogeNode s watchSample ∅ Hs eq_refl eq_refl) as Ha.
  rewrite Hd, Hv in Ha. cbv zeta in Ha. apply Ha.
  - vm_compute. repeat constructor; discriminate.
  - vm_compute. reflexivity.
  - intros t [Ht|Ht]; rewrite !elem_of_cons, elem_of_nil in Ht;
      destruct Ht as [->|[->|[]]]; vm_compute; discriminate.
Defined.
End Samples.
