(* ===== verification/SigningLog.v ===== *)
(** A signer's log and what it proves (src/cmd/dogevm/cosign.go: action,
    signingLog; evidence.go). *)

From Stdlib Require Import Ascii String.
From S2P Require Import Prelude Text Wire Runtime Script Tags Amount Peg Lineage State Build.

(** ** Actions *)

Definition chainDogecoinVM : string := "dogecoinvm".
Definition chainDogecoin : string := "dogecoin".
Definition actionRelease : string := "release".
Definition actionPayout : string := "payout".
Definition actionRefund : string := "refund".
Definition actionCancel : string := "cancel".
Definition actionFence : string := "fence".

(** What a proposed transaction is for. *)
Record action := mkAction { Kind : string; Deposit : string; PegOut : string; To : string }.

Definition encodeDest (d : destination) : string := hex_encode (kind d :: hash d).

Definition parseDest (s : string) : result destination :=
  raw ← from_option_err (hex_decode s) (Errorf "invalid hex");
  decodeDestination raw.

Definition refundAction (op : OutPoint) (dest : destination) : action :=
  mkAction actionRefund (OutPoint_String op) EmptyString (encodeDest dest).

Definition keyOf (kind id : string) : string := kind +:+ String ":"%char id.

(** The kinds whose key is an outpoint. *)
Definition outpointKind (k : string) : bool :=
  bool_decide (k = actionRelease) || bool_decide (k = actionRefund) ||
  bool_decide (k = actionCancel) || bool_decide (k = actionFence).

(** The action's key in the log, from the parsed value. *)
Definition action_key (a : action) : result string :=
  if outpointKind (Kind a) then
    op ← parseOutPoint (Deposit a); Ok (keyOf (Kind a) (OutPoint_String op))
  else if bool_decide (Kind a = actionPayout) then
    txid ← NewHashFromStr (PegOut a); Ok (keyOf (Kind a) (Hash_String txid))
  else Err (Errorf "unknown action").

(** ** The log *)

Record loggedTx := mkLoggedTx {
  Txid : string; Signed : list string; Inputs : list string; lt_Chain : string; Fee : Z;
}.

Record loggedAction := mkLogged { la_Value : Z; First : Z; Txs : list loggedTx }.

Record signingLog := mkLog {
  Actions : gmap string loggedAction;
  Anchors : gmap string string;
  History : string;
  Cutover : gmap string (list string);
  CutoverEpoch : Z;
  CutoverStarted : Z;
  FenceBudget : Z;
  FenceCapital : list string;
}.

Definition historyNew : string := "new".
Definition historyFenced : string := "fenced".

(** createSigningLog's empty log, for a new key. *)
Definition newSigningLog : signingLog := mkLog ∅ ∅ historyNew ∅ 0 0 0 [].

Definition log_has (l : signingLog) (key : string) : bool := has (Actions l) key.

Definition setActions (l : signingLog) (m : gmap string loggedAction) : signingLog :=
  mkLog m (Anchors l) (History l) (Cutover l) (CutoverEpoch l) (CutoverStarted l)
    (FenceBudget l) (FenceCapital l).

Definition setAnchors (l : signingLog) (m : gmap string string) : signingLog :=
  mkLog (Actions l) m (History l) (Cutover l) (CutoverEpoch l) (CutoverStarted l)
    (FenceBudget l) (FenceCapital l).

Section log.
Context `{Crypto} `{GoRuntime}.

(** ** Evidence from the chains *)

Record chainEvidence := mkEvidence {
  listed : gmap string (gmap string chainTx);
  nodes : option (string → chain);
  deep : Z;
}.

(** The transactions of one chain by unsigned ID; a confirmed listing wins. *)
Definition byUnsignedID (txs : list chainTx) : gmap string chainTx :=
  foldl (fun byID t =>
      let id := Hash_String (unsignedHash (ct_tx t)) in
      match byID !! id with
      | Some prev => if ct_confirmations prev <? ct_confirmations t then <[id := t]> byID else byID
      | None => <[id := t]> byID
      end) ∅ txs.

Definition newChainEvidence (s : pegState) (nodes : option (string → chain)) : chainEvidence :=
  mkEvidence (<[chainDogecoinVM := byUnsignedID (vmTxs s)]>
              {[chainDogecoin := byUnsignedID (dogeTxs s)]}) nodes 0.

Definition listedOn (e : chainEvidence) (chain : string) : gmap string chainTx :=
  default ∅ (listed e !! chain).

Definition ev_confirmed (e : chainEvidence) (chain : string) (t : loggedTx) : bool :=
  match listedOn e chain !! Txid t with
  | Some lt => 0 <? ct_confirmations lt
  | None => false
  end ||
  match nodes e with
  | None => false
  | Some nodes =>
      match confirmedOn (nodes chain) with
      | None => false
      | Some f => existsb f (Signed t) || f (Txid t)
      end
  end.

Definition shallow (e : chainEvidence) (chain : string) (t : loggedTx) : bool :=
  if negb (bool_decide (chain = chainDogecoin)) || (deep e <=? 1) then false
  else match listedOn e chain !! Txid t with
       | None => true
       | Some lt => ct_confirmations lt <? deep e
       end.

Definition spentDeep (e : chainEvidence) (chain : string) (t : loggedTx) (op : OutPoint) : bool :=
  let need := if bool_decide (chain = chainDogecoin) && (1 <? deep e) then deep e else 1 in
  existsb (fun '(id, lt) =>
      negb (bool_decide (id = Txid t)) && (need <=? ct_confirmations lt) &&
      existsb (fun ti => bool_decide (PreviousOutPoint ti = op)) (txIn (ct_tx lt)))
    (map_range (listedOn e chain)).

(** The inputs that parse, as they print. *)
Definition parsedInputs (t : loggedTx) : list string :=
  omap (fun raw => match parseOutPoint raw with Ok op => Some (OutPoint_String op) | Err _ => None end) (Inputs t).

Definition spentElsewhere (e : chainEvidence) (chain : string) (t : loggedTx) : bool :=
  existsb (fun '(id, lt) =>
      (0 <? ct_confirmations lt) && negb (bool_decide (id = Txid t)) &&
      existsb (fun ti => bool_decide (OutPoint_String (PreviousOutPoint ti) ∈ parsedInputs t))
        (txIn (ct_tx lt)))
    (map_range (listedOn e chain)).

Definition contains (l : list string) (s : string) : bool := bool_decide (s ∈ l).

(** The IDs the chains list a logged transaction under, added to Signed. *)
Definition learnTx (e : chainEvidence) (t : loggedTx) : loggedTx :=
  foldl (fun t '(_, byID) =>
      match byID !! Txid t with
      | None => t
      | Some lt =>
          let id := Hash_String (TxHash (ct_tx lt)) in
          if contains (Signed t) id then t
          else mkLoggedTx (Txid t) (Signed t ++ [id]) (Inputs t) (lt_Chain t) (Fee t)
      end) t (map_range (listed e)).

Definition learnLog (e : chainEvidence) (l : signingLog) : signingLog :=
  setActions l ((fun a => mkLogged (la_Value a) (First a) (learnTx e <$> Txs a)) <$> Actions l).

Definition releasesDead (l : signingLog) (e : chainEvidence) (op : OutPoint) : bool :=
  match Actions l !! keyOf actionRelease (OutPoint_String op) with
  | None => true
  | Some a => forallb (fun t =>
      negb (ev_confirmed e chainDogecoinVM t || negb (spentElsewhere e chainDogecoinVM t))) (Txs a)
  end.

Definition releasesDeadOrConflicting (l : signingLog) (e : chainEvidence) (op anchor : OutPoint) : bool :=
  match Actions l !! keyOf actionRelease (OutPoint_String op) with
  | None => true
  | Some a => forallb (fun t =>
      negb (ev_confirmed e chainDogecoinVM t) &&
      (spentElsewhere e chainDogecoinVM t || contains (Inputs t) (OutPoint_String anchor))) (Txs a)
  end.

(** ** permit and record *)

(** An earlier transaction some input of which is gone is dead. *)
Definition txLive (unspent : gset OutPoint) (inChain : option (OutPoint → bool)) (prev : loggedTx) : bool :=
  forallb (fun raw =>
      match parseOutPoint raw with
      | Err _ => false
      | Ok op => negb (negb (bool_decide (op ∈ unspent)) &&
                       match inChain with None => true | Some f => negb (f op) end)
      end) (Inputs prev).

Definition txConflicts (tx : MsgTx) (prev : loggedTx) : bool :=
  existsb (fun raw => bool_decide (raw ∈ (OutPoint_String <$> prevOuts tx))) (Inputs prev).

Definition permit (l : signingLog) (key chain : string) (tx : MsgTx) (unspent : gset OutPoint)
    (ev : option chainEvidence) (inChain : option (OutPoint → bool)) : result unit :=
  match Actions l !! key with
  | None => Ok tt
  | Some a =>
      _ ← ensure (negb (existsb (fun prev =>
             match ev with Some e => ev_confirmed e chain prev | None => false end) (Txs a)))
            (Errorf "already signed, and it is in a block");
      ensure (forallb (fun prev => negb (txLive unspent inChain prev && negb (txConflicts tx prev))) (Txs a))
        (Errorf "already signed, and this proposal could confirm alongside it")
  end.

Definition entryOf (chain : string) (tx : MsgTx) (fee : Z) : loggedTx :=
  mkLoggedTx (Hash_String (TxHash tx)) [] (OutPoint_String <$> prevOuts tx) chain
    (if 0 <? fee then fee else 0).

(** What record makes of the log, before writing it. *)
Definition recorded (l : signingLog) (key chain : string) (tx : MsgTx) (value fee now : Z) : signingLog :=
  let l := match txIn tx with
    | ti :: _ => if negb (bool_decide (chain = EmptyString))
                 then setAnchors l (<[chain := OutPoint_String (PreviousOutPoint ti)]> (Anchors l)) else l
    | [] => l
    end in
  let a := default (mkLogged value now []) (Actions l !! key) in
  setActions l (<[key := mkLogged (la_Value a) (First a) (Txs a ++ [entryOf chain tx fee])]> (Actions l)).

(** ** The anchor *)

Fixpoint anchorTrail (line : lineage) (inChain : option (OutPoint → bool)) (want : OutPoint)
    (n : nat) (cur : OutPoint) : result unit :=
  match n with
  | O => Err (Errorf "this signer's anchor trail is too long to follow")
  | S n =>
      if bool_decide (cur = want) then Ok tt
      else match next line cur with
           | Err e => Err e
           | Ok (nxt, more) =>
               if negb more then
                 if match inChain with Some f => f cur | None => false end
                 then Err (Errorf "the anchor this signer last signed with is still unspent")
                 else Err (Errorf "this signer's anchor is gone, but no confirmed transaction it knows spends it")
               else anchorTrail line inChain want n nxt
           end
  end.

Definition anchorMoved (l : signingLog) (chain : string) (tx : MsgTx)
    (inChain : option (OutPoint → bool)) (line : option lineage) : result unit :=
  match txIn tx with
  | [] => Ok tt
  | ti :: _ =>
      let want := PreviousOutPoint ti in
      let last := default EmptyString (Anchors l !! chain) in
      _ ← ensure (negb (bool_decide (last = EmptyString))) (Errorf "this signer's log has no anchor");
      cur ← parseOutPoint last;
      match line with
      | None => Err (Errorf "this signer has no view of the anchor's line")
      | Some line => anchorTrail line inChain want (length (l_coins line) + 2) cur
      end
  end.

(** ** Volume and promised fees *)

Definition volumeSince (l : signingLog) (t : Z) : Z :=
  foldl (fun total '(_, a) => if t <=? First a then total [+] la_Value a else total) 0
    (map_range (Actions l)).

Definition evConfirmed (ev : option chainEvidence) (t : loggedTx) : bool :=
  match ev with Some e => ev_confirmed e (lt_Chain t) t | None => false end.

(** Whether a logged transaction could still be mined. *)
Definition feeLive (known : gset OutPoint) (ev : option chainEvidence)
    (inChain : option (string → OutPoint → bool)) (t : loggedTx) : bool :=
  forallb (fun raw =>
      match parseOutPoint raw with
      | Err _ => false
      | Ok op =>
          bool_decide (op ∈ known) ||
          match inChain with Some f => f (lt_Chain t) op | None => false end ||
          match ev with None => true | Some e => negb (spentDeep e (lt_Chain t) t op) end
      end) (Inputs t).

(** The first transaction of the action with a fee that is in a block. *)
Fixpoint feeConfirmed (ev : option chainEvidence) (txs : list loggedTx) : option loggedTx :=
  match txs with
  | [] => None
  | t :: txs => if (0 <? Fee t) && evConfirmed ev t then Some t else feeConfirmed ev txs
  end.

Definition mostLive (known : gset OutPoint) (ev : option chainEvidence)
    (inChain : option (string → OutPoint → bool)) (txs : list loggedTx) : Z :=
  foldl (fun most t =>
      if (Fee t <=? 0) || (Fee t <=? most) then most
      else if feeLive known ev inChain t then Fee t else most) 0 txs.

(** What one action still holds of the surplus. *)
Definition actionUnseen (known : gset OutPoint) (ev : option chainEvidence)
    (inChain : option (string → OutPoint → bool)) (a : loggedAction) : Z :=
  match feeConfirmed ev (Txs a) with
  | Some t =>
      if negb match ev with Some e => shallow e (lt_Chain t) t | None => false end then 0
      else Z.max (foldl (fun worst alt => Z.max worst (Fee alt)) 0 (Txs a) [-] Fee t) 0
  | None => mostLive known ev inChain (Txs a)
  end.

Definition unseenFees (l : signingLog) (known : gset OutPoint) (ev : option chainEvidence)
    (inChain : option (string → OutPoint → bool)) (except : string) : Z :=
  foldl (fun total '(key, a) =>
      if bool_decide (key = except) then total else total [+] actionUnseen known ev inChain a)
    0 (map_range (Actions l)).

(** ** Reading a log back *)

Definition cutoverChains : list string := [chainDogecoin; chainDogecoinVM].

Definition sortStrings (l : list string) : list string := sort_slice String.ltb l.

(** A set built as a map[string]bool, listed and sorted. *)
Definition sortedSet (l : list string) : list string :=
  sortStrings (fst <$> map_range (list_to_map ((fun s => (s, tt)) <$> l) : gmap string unit)).

Definition setCutover (l : signingLog) (m : gmap string (list string)) : signingLog :=
  mkLog (Actions l) (Anchors l) (History l) m (CutoverEpoch l) (CutoverStarted l)
    (FenceBudget l) (FenceCapital l).

(** One chain of an old log's cutoverWaived. *)
Definition restoreChain (r : result signingLog) (entry : string * list string) : result signingLog :=
  let '(chain, coins) := entry in
  l ← r;
  if bool_decide (coins = []) then Ok l
  else
    _ ← ensure (bool_decide (chain ∈ cutoverChains)) (Errorf "cutoverWaived names unknown chain");
    let all := default [] (Cutover l !! chain) ++ coins in
    _ ← ensure (forallb (fun op => is_ok (parseOutPoint op)) all) (Errorf "cutoverWaived");
    Ok (setCutover l (<[chain := sortedSet all]> (Cutover l))).

Definition restoreWaived (l : signingLog) (waived : gmap string (list string)) : result signingLog :=
  foldl restoreChain (Ok l) (map_range waived).

(** The canonical spelling of a key a log was written with. *)
Definition normalKey (rawKey : string) : result string :=
  match cut ":"%char rawKey with
  | None => Err (Errorf "invalid signing-log action key")
  | Some (kind, value) =>
      if outpointKind kind then action_key (mkAction kind value EmptyString EmptyString)
      else if bool_decide (kind = actionPayout) then action_key (mkAction kind EmptyString value EmptyString)
      else Err (Errorf "invalid signing-log action key")
  end.

(** One entry of the loop; a null action is an error. *)
Definition normalizeEntry (r : result (gmap string loggedAction)) (entry : string * option loggedAction)
    : result (gmap string loggedAction) :=
  let '(rawKey, logged) := entry in
  normalized ← r;
  logged ← from_option_err logged (Errorf "signing-log action is null");
  key ← normalKey rawKey;
  match normalized !! key with
  | Some existing =>
      _ ← ensure (la_Value existing =? la_Value logged)
            (Errorf "signing-log aliases have different values");
      Ok (<[key := mkLogged (la_Value existing)
              (if First logged <? First existing then First logged else First existing)
              (Txs existing ++ Txs logged)]> normalized)
  | None => Ok (<[key := logged]> normalized)
  end.

Definition normalizeKeys (l : signingLog) (actions : gmap string (option loggedAction)) : result signingLog :=
  normalized ← foldl normalizeEntry (Ok ∅) (map_range actions);
  Ok (setActions l normalized).

(** openSigningLog, from the file's fields: the log, its actions (a JSON null
    is a nil action) and the old waiver. *)
Definition openSigningLog (file : option (signingLog * gmap string (option loggedAction) * gmap string (list string)))
    : result signingLog :=
  match file with
  | None => Err errQuarantined
  | Some (l, actions, waived) => l ← restoreWaived l waived; normalizeKeys l actions
  end.
End log.

(** ** At most one transaction per action *)

Section one_confirms.
Context `{Crypto} `{GoRuntime}.

(** The chain as it ends up: its confirmed transactions, coinbases apart. *)
Context (final : list MsgTx) (key chain : string).

Record chain_ok : Prop := {
  final_spends : NoDup (final ≫= prevOuts);
  final_ops : Forall (fun t => Forall outpoint_ok (prevOuts t)) final;
  final_inputs : Forall (fun t => prevOuts t ≠ []) final;
  final_real : Forall (fun t => nullOut ∉ prevOuts t) final;
}.

Definition entries (l : signingLog) : list loggedTx :=
  match Actions l !! key with Some a => Txs a | None => [] end.

(** t is a signing of what e records. *)
Definition logged_as (t : MsgTx) (e : loggedTx) : Prop :=
  Txid e = Hash_String (unsignedHash t) ∧ Inputs e = OutPoint_String <$> prevOuts t.

(** What the signer's node shows it, against the chain as it ends up: blocks
    that stay, an input it knows of gone only once a block spends it, and a
    logged transaction in one of those blocks seen there. *)
Record honest_view (l : signingLog) (blocks : list MsgTx) (unspent : gset OutPoint)
    (ev : option chainEvidence) (inChain : option (OutPoint → bool)) : Prop := {
  view_final : blocks ⊆ final;
  view_gone e op : e ∈ entries l → OutPoint_String op ∈ Inputs e → op ∉ unspent →
    match inChain with Some f => f op = false | None => True end →
    ∃ t, t ∈ blocks ∧ op ∈ prevOuts t;
  view_seen t e : t ∈ blocks → e ∈ entries l → logged_as t e →
    match ev with Some v => ev_confirmed v chain e = true | None => False end;
}.

Definition same_entry (e1 e2 : loggedTx) : Prop := Txid e1 = Txid e2 ∧ Inputs e1 = Inputs e2.

(** The logs a signer reaches: signing for the action only what permit
    passes, and whatever else it does leaving the action's entries alone. *)
Inductive signed_log : signingLog → Prop :=
| signed_none l : Actions l !! key = None → signed_log l
| signed_other l l' : signed_log l → Forall2 same_entry (entries l) (entries l') → signed_log l'
| signed_next l tx blocks unspent ev inChain value fee now :
    signed_log l → honest_view l blocks unspent ev inChain →
    permit l key chain tx unspent ev inChain = Ok tt →
    signed_log (recorded l key chain tx value fee now).

Lemma entries_recorded l tx value fee now :
  entries (recorded l key chain tx value fee now) = entries l ++ [entryOf chain tx fee].
Proof.
  assert (E : ∀ m, entries (setAnchors l m) = entries l) by done.
  unfold recorded. set (l' := match txIn tx with [] => l | _ => _ end).
  assert (El : Actions l' = Actions l) by (subst l'; destruct (txIn tx); [done|by case_bool_decide]).
  unfold entries at 1. simpl. rewrite El, lookup_insert_eq. simpl.
  unfold entries. by destruct (Actions l !! key).
Qed.

Lemma final_one t1 t2 op :
  chain_ok → t1 ∈ final → t2 ∈ final → op ∈ prevOuts t1 → op ∈ prevOuts t2 → t1 = t2.
Proof.
  intros [Hs _ _ _]. induction final as [|t ts IH]; [by intros ?%elem_of_nil|].
  simpl in Hs. apply NoDup_app in Hs as (_ & Hd & Hs). rewrite !elem_of_cons.
  assert (Hx : ∀ t', t' ∈ ts → op ∈ prevOuts t → op ∈ prevOuts t' → False).
  { intros t' Ht' H1 H2. apply (Hd op H1). apply list_elem_of_bind. eauto. }
  intros [->|?] [->|?] ??; [done|..]; [exfalso; eauto..|]. by apply IH.
Qed.

(** Two entries of which both cannot confirm, or the first never will. *)
Definition excluded (e1 e2 : loggedTx) : Prop :=
  (∃ raw, raw ∈ Inputs e1 ∧ raw ∈ Inputs e2) ∨ ∀ t, t ∈ final → ¬ logged_as t e1.

Lemma permit_excludes l tx blocks unspent ev inChain e fee :
  chain_ok → honest_view l blocks unspent ev inChain → e ∈ entries l →
  permit l key chain tx unspent ev inChain = Ok tt →
  excluded e (entryOf chain tx fee).
Proof.
  intros Hok [Hfin Hgone Hseen] He Hp. unfold permit in Hp. unfold entries in *.
  destruct (Actions l !! key) as [a|]; [|by apply elem_of_nil in He].
  apply bind_Ok in Hp as ([] & Hc%ensure_Ok & Hl%ensure_Ok).
  rewrite negb_true_iff in Hc.
  rewrite forallb_forall in Hl. specialize (Hl e ltac:(by apply list_elem_of_In)).
  rewrite negb_true_iff, andb_false_iff, negb_false_iff in Hl. destruct Hl as [Hl|Hl].
  - right. intros t Ht [Hid Hin]. destruct (existsb_exists (fun prev => match ev with
      Some e => ev_confirmed e chain prev | None => false end) (Txs a)) as [_ Hex].
    rewrite Hc in Hex. enough (Hb : t ∈ blocks).
    { specialize (Hseen t e Hb He (conj Hid Hin)). discriminate Hex. exists e.
      split; [by apply list_elem_of_In|]. by destruct ev. }
    clear Hex. apply not_true_iff_false in Hl. unfold txLive in Hl. rewrite forallb_forall in Hl.
    apply dec_stable. intros Hb. apply Hl. intros raw Hraw%list_elem_of_In.
    rewrite Hin in Hraw. apply list_elem_of_fmap in Hraw as (op & -> & Hop).
    assert (Hopok : outpoint_ok op).
    { destruct Hok as [_ Hops _ _]. rewrite Forall_forall in Hops.
      specialize (Hops t Ht). rewrite Forall_forall in Hops. by apply Hops. }
    rewrite parseOutPoint_OutPoint_String by done.
    case_bool_decide as Hun; [done|]. simpl. rewrite negb_true_iff.
    enough (Hn : ¬ (match inChain with Some f => f op = false | None => True end)).
    { destruct inChain as [f|]; [by destruct (f op)|done]. }
    intros Hf. destruct (Hgone e op He) as (t' & Ht' & Hop'); [|done..|].
    { rewrite Hin. apply list_elem_of_fmap. eauto. }
    apply Hb. rewrite (final_one t t' op); try done. by apply Hfin.
  - left. unfold txConflicts in Hl. apply existsb_exists in Hl as (raw & Hraw & Hsp).
    apply bool_decide_eq_true in Hsp. exists raw. split; [by apply list_elem_of_In|done].
Qed.

Lemma signed_log_excludes l :
  chain_ok → signed_log l → ∀ i j e1 e2, (i < j)%nat →
  entries l !! i = Some e1 → entries l !! j = Some e2 → excluded e1 e2.
Proof.
  intros Hok Hl. induction Hl as [l Hn|l l' Hl IH Hs|l tx bl un ev ic v fee now Hl IH Hv Hp];
    intros i j e1 e2 Hij Hi Hj.
  - unfold entries in Hi. rewrite Hn in Hi. by rewrite lookup_nil in Hi.
  - destruct (Forall2_lookup_r _ _ _ _ _ Hs Hi) as (e1' & Hi' & [E1 I1]).
    destruct (Forall2_lookup_r _ _ _ _ _ Hs Hj) as (e2' & Hj' & [E2 I2]).
    destruct (IH i j e1' e2' Hij Hi' Hj') as [(raw & H1 & H2)|Hd].
    + left. exists raw. by rewrite <- I1, <- I2.
    + right. intros t Ht [A B]. apply (Hd t Ht). split; congruence.
  - rewrite entries_recorded in Hi, Hj. apply lookup_app_Some in Hj as [Hj|[Hge Hj]].
    + apply lookup_app_Some in Hi as [Hi|[Hi _]]; [by eapply IH|].
      apply lookup_lt_Some in Hj. lia.
    + apply list_lookup_singleton_Some in Hj as [Hj <-].
      rewrite lookup_app_l in Hi by lia.
      eapply permit_excludes; try done. by eapply list_elem_of_lookup_2.
Qed.
End one_confirms.

(** Of all the signings of what a signer signed for one action of a chain, each
    time only after permit passed it against an honest node, at most one is ever
    in the chain. *)
Lemma one_confirms `{Crypto} `{GoRuntime} (final : list MsgTx) (key chain : string)
    (l : signingLog) (t1 t2 : MsgTx) (e1 e2 : loggedTx) :
  chain_ok final → signed_log final key chain l →
  e1 ∈ entries key l → e2 ∈ entries key l →
  t1 ∈ final → t2 ∈ final → logged_as t1 e1 → logged_as t2 e2 → t1 = t2.
Proof.
  intros Hok Hl He1 He2 Ht1 Ht2 L1 L2.
  assert (Hx : ∀ t1 t2 e1 e2, excluded final e1 e2 → t1 ∈ final → t2 ∈ final →
      logged_as t1 e1 → logged_as t2 e2 → t1 = t2).
  { clear -Hok. intros t1 t2 e1 e2 [(raw & R1 & R2)|Hd] H1 H2 L1 L2; [|by destruct (Hd t1)].
    destruct L1 as [_ L1], L2 as [_ L2]. rewrite L1 in R1. rewrite L2 in R2.
    apply list_elem_of_fmap in R1 as (o1 & -> & R1). apply list_elem_of_fmap in R2 as (o2 & E & R2).
    pose proof (final_ops _ Hok) as Hops. rewrite Forall_forall in Hops.
    pose proof (Hops t1 H1) as Ho1. pose proof (Hops t2 H2) as Ho2.
    rewrite Forall_forall in Ho1, Ho2.
    apply OutPoint_String_inj in E as <-; [|by auto..]. by eapply final_one. }
  apply list_elem_of_lookup in He1 as [i Hi]. apply list_elem_of_lookup in He2 as [j Hj].
  pose proof (signed_log_excludes final key chain l Hok Hl) as Hex.
  destruct (lt_eq_lt_dec i j) as [[Hij|<-]|Hij].
  - by eapply (Hx t1 t2 e1 e2); [eapply (Hex i j)|..].
  - assert (e1 = e2) as <- by congruence. apply (Hx t1 t2 e1 e1); try done. left.
    pose proof (final_inputs _ Hok) as Hne. rewrite Forall_forall in Hne.
    specialize (Hne t1 Ht1). destruct L1 as [_ L1]. rewrite L1.
    destruct (prevOuts t1) as [|o os]; [done|]. exists (OutPoint_String o). split; by left.
  - symmetry. by eapply (Hx t2 t1 e2 e1); [eapply (Hex j i)|..].
Qed.

(** ** The anchor moves only along confirmed spends *)

Section anchors.
Context `{Crypto}.
Context (txs : list chainTx) (script : bytes) (d : Z) (pos : bytes → Z).
Hypothesis Hok : history_ok (filter is_confirmed txs).
Hypothesis Hord : chain_order (filter is_confirmed txs) pos.

Let line := newLineage txs script d.

(** The coin a confirmed spend of a moves the line to, with no restart. *)
Definition moves (a b : OutPoint) : Prop := next line a = Ok (b, true).

Lemma moves_coin a b : moves a b → ∃ v, v ∈ l_coins line ∧ u_outPoint v = b.
Proof.
  unfold moves, next. destruct (l_spentBy line !! a) as [t|] eqn:E; [|done].
  destruct (lastOutput _ _ _) as [i|] eqn:El; [|done]. intros [= <-].
  apply lastOutput_spec in El as (k & out & Hk & Hs & ->).
  apply spentBy_in in E. unfold line in Hs. rewrite newLineage_script in Hs.
  eexists. split; [apply coins_elem; exists t, k, out; by split_and!|done].
Qed.

Lemma moves_step a b : moves a b → step line a = Ok (b, true).
Proof. unfold moves, step. by intros ->. Qed.

Lemma anchorTrail_sound inChain want n cur :
  anchorTrail line inChain want n cur = Ok tt → rtc moves cur want.
Proof.
  revert cur. induction n as [|n IH]; intros cur Ht; [done|]. simpl in Ht.
  case_bool_decide as Hc; [by subst|].
  destruct (next line cur) as [[nxt more]|] eqn:E; [|done].
  destruct more; simpl in Ht; [|by destruct (match inChain with Some f => f cur | None => false end)].
  eapply rtc_l; [exact E|by apply IH].
Qed.

Lemma anchorTrail_complete inChain want n cur :
  cur ∈ l_coins line → (later txs script d pos cur < n)%nat →
  rtc moves (u_outPoint cur) want → anchorTrail line inChain want n (u_outPoint cur) = Ok tt.
Proof.
  revert cur. induction n as [|n IH]; intros cur Hc Hn Hr; [lia|]. simpl.
  case_bool_decide as He; [done|]. apply rtc_inv in Hr as [Heq|(b & Hb & Hr)]; [done|].
  destruct (step_later txs script d pos Hok Hord cur b Hc (moves_step _ _ Hb)) as (v & Hv & <- & Hlt).
  unfold moves in Hb. rewrite Hb. simpl. apply IH; [done| |done].
  pose proof (later_decreases txs script d pos _ _ Hv Hlt). lia.
Qed.

Lemma anchorTrail_spec inChain want cur :
  anchorTrail line inChain want (length (l_coins line) + 2) cur = Ok tt ↔ rtc moves cur want.
Proof.
  split; [by apply anchorTrail_sound|]. intros Hr.
  replace (length (l_coins line) + 2)%nat with (S (length (l_coins line) + 1)) by lia. simpl.
  case_bool_decide as He; [done|]. apply rtc_inv in Hr as [->|(b & Hb & Hr)]; [done|].
  destruct (moves_coin _ _ Hb) as (v & Hv & <-). unfold moves in Hb. rewrite Hb. simpl.
  apply anchorTrail_complete; [done| |done].
  pose proof (later_bound txs script d pos v Hv) as Hl. fold line in Hl. lia.
Qed.
End anchors.

(** C18. A signer changes its anchor exactly as the chain moved it: on a chain
    with spends after what they spend, anchorMoved passes a transaction if and
    only if its first input is reached from the anchor the signer last signed
    with by following confirmed spends to their change (no restart of the
    line); a log with no anchor passes nothing, and the bound on the trail
    never refuses one the chain has. *)
Theorem anchorMoved_spec `{Crypto} txs script d pos (l : signingLog) chain tx inChain ti rest :
  history_ok (filter is_confirmed txs) → chain_order (filter is_confirmed txs) pos →
  txIn tx = ti :: rest →
  anchorMoved l chain tx inChain (Some (newLineage txs script d)) = Ok tt ↔
  ∃ last cur, Anchors l !! chain = Some last ∧ parseOutPoint last = Ok cur ∧
    rtc (moves txs script d) cur (PreviousOutPoint ti).
Proof.
  intros Hok Hord Htx. unfold anchorMoved. rewrite Htx.
  destruct (Anchors l !! chain) as [last|]; simpl; [|by split; [|intros (? & ? & ? & _)]].
  destruct (decide (last = EmptyString)) as [->|Hne].
  { split; [done|]. intros (? & ? & [= <-] & Hp & _). by vm_compute in Hp. }
  rewrite bool_decide_eq_false_2 by done. simpl.
  destruct (parseOutPoint last) as [cur|e] eqn:Hp; simpl;
    [|split; [done|intros (? & ? & [= <-] & Hp' & _); congruence]].
  rewrite (anchorTrail_spec txs script d pos) by done. split; [by eauto|].
  intros (? & ? & [= <-] & Hp' & Hr). rewrite Hp in Hp'. injection Hp' as <-. exact Hr.
Qed.

(** ** Keys *)

(** What an action is about, as its kind has it parsed. *)
Definition subject (a : action) : result (OutPoint + bytes) :=
  if outpointKind (Kind a) then inl <$> parseOutPoint (Deposit a)
  else inr <$> NewHashFromStr (PegOut a).

Lemma outpointKind_no_colon k : outpointKind k = true → no_colon k.
Proof.
  unfold outpointKind. rewrite !orb_true_iff, !bool_decide_eq_true.
  intros [[[->| ->]| ->]| ->]; vm_compute; repeat split; discriminate.
Qed.

Lemma payout_no_colon : no_colon actionPayout.
Proof. vm_compute. repeat split; discriminate. Qed.

Lemma keyOf_inj k1 k2 s1 s2 :
  no_colon k1 → no_colon k2 → keyOf k1 s1 = keyOf k2 s2 → k1 = k2 ∧ s1 = s2.
Proof.
  unfold keyOf. intros Hk1 Hk2 E. apply (f_equal (cut ":"%char)) in E.
  rewrite !cut_app in E by done. by simplify_eq.
Qed.

(** The shape of a key: the kind, and the subject as it prints. *)
Lemma action_key_shape a k :
  action_key a = Ok k → no_colon (Kind a) ∧ ∃ x, subject a = Ok x ∧
    match x with
    | inl op => outpointKind (Kind a) = true ∧ outpoint_ok op ∧ k = keyOf (Kind a) (OutPoint_String op)
    | inr h => Kind a = actionPayout ∧ hash_ok h ∧ k = keyOf (Kind a) (Hash_String h)
    end.
Proof.
  unfold action_key, subject. destruct (outpointKind (Kind a)) eqn:Eo.
  - intros E. apply bind_Ok in E as (op & Ep & [= <-]). rewrite Ep.
    split; [by apply outpointKind_no_colon|]. exists (inl op). split_and!; [done..| |done].
    by eapply parseOutPoint_ok.
  - case_bool_decide as Ek; [|done]. intros E. apply bind_Ok in E as (h & Eh & [= <-]). rewrite Eh.
    split; [rewrite Ek; apply payout_no_colon|]. exists (inr h). split_and!; [done..| |done].
    by eapply NewHashFromStr_ok.
Qed.

Lemma same_key a b k : action_key a = Ok k → action_key b = Ok k → Kind a = Kind b ∧ subject a = subject b.
Proof.
  intros Ha Hb. apply action_key_shape in Ha as (Na & x & Sa & Xa).
  apply action_key_shape in Hb as (Nb & y & Sb & Xb).
  destruct x as [op|h], y as [op'|h']; destruct Xa as (Ka & Oa & ->), Xb as (Kb & Ob & Ek);
    apply keyOf_inj in Ek as [Ek Es]; try done; (split; [done|]); rewrite Sa, Sb.
  - by apply OutPoint_String_inj in Es as ->.
  - rewrite Ek, Kb in Ka. by vm_compute in Ka.
  - rewrite <- Ek, Ka in Kb. by vm_compute in Kb.
  - by apply Hash_String_inj in Es as ->.
Qed.

(** A log key names one action and one only: two proposals have the same
    key exactly when they are of one kind and about the same deposit output or
    peg-out transaction, however the coordinator spelled it. *)
Theorem action_key_identifies a b k :
  action_key a = Ok k →
  action_key b = Ok k ↔ Kind a = Kind b ∧ subject a = subject b.
Proof.
  intros Ha. split.
  - intros Hb. by eapply same_key.
  - intros [Ek Es]. rewrite <- Ha. unfold action_key, subject in *. rewrite <- Ek in *.
    destruct (outpointKind (Kind a)).
    + destruct (parseOutPoint (Deposit a)), (parseOutPoint (Deposit b)); by simplify_eq/=.
    + case_bool_decide; [|done].
      destruct (NewHashFromStr (PegOut a)), (NewHashFromStr (PegOut b)); by simplify_eq/=.
Qed.

(** ** Reading a log back loses nothing *)

Section reading.
Context `{Crypto} `{GoRuntime} `{!GoRuntimeOk}.

(** All of a is in a'. *)
Definition within (a a' : loggedAction) : Prop :=
  la_Value a = la_Value a' ∧ First a' ≤ First a ∧ Txs a ⊆ Txs a'.

Lemma within_refl a : within a a.
Proof. done. Qed.

Lemma within_trans a b c : within a b → within b c → within a c.
Proof. intros (E1 & F1 & S1) (E2 & F2 & S2). split_and!; [congruence|lia|set_solver]. Qed.

Lemma action_key_normal a k : action_key a = Ok k → normalKey k = Ok k.
Proof.
  intros Ha. apply action_key_shape in Ha as (Hn & x & _ & Hx).
  destruct x as [op|h]; destruct Hx as (Ek & Hok & ->); unfold normalKey, keyOf; rewrite cut_app by done.
  - rewrite Ek. unfold action_key. simpl. rewrite Ek.
    by rewrite parseOutPoint_OutPoint_String.
  - rewrite Ek. rewrite (bool_decide_eq_true_2 (actionPayout = actionPayout)) by done.
    change (outpointKind actionPayout) with false. cbn iota.
    unfold action_key. cbn [Kind PegOut Deposit]. change (outpointKind actionPayout) with false. cbn iota.
    rewrite (bool_decide_eq_true_2 (actionPayout = actionPayout)) by done.
    by rewrite NewHashFromStr_String.
Qed.

Lemma normalKey_canonical raw k : normalKey raw = Ok k → normalKey k = Ok k.
Proof.
  unfold normalKey at 1. destruct (cut _ raw) as [[kind value]|]; [|done].
  destruct (outpointKind kind); [apply action_key_normal|]. case_bool_decide; [apply action_key_normal|done].
Qed.

(** The keys a signer records under. *)
Definition keys_ok (l : signingLog) : Prop := ∀ k, is_Some (Actions l !! k) → normalKey k = Ok k.

Lemma normalize_err es e : foldl normalizeEntry (Err e) es = Err e.
Proof. induction es as [|[raw o] es IH]; [done|]. simpl. apply IH. Qed.

Lemma normalizeEntry_step m raw o m' :
  normalizeEntry (Ok m) (raw, o) = Ok m' →
  ∃ a k a', o = Some a ∧ normalKey raw = Ok k ∧ m' = <[k := a']> m ∧ within a a' ∧
    (∀ b, m !! k = Some b → within b a' ∧ Txs a' = Txs b ++ Txs a) ∧ (m !! k = None → a' = a).
Proof.
  simpl. destruct o as [a|]; [|done]. simpl. destruct (normalKey raw) as [k|]; [|done]. simpl.
  destruct (m !! k) as [b|] eqn:Eb.
  - destruct (Z.eqb_spec (la_Value b) (la_Value a)) as [Ev|]; [|done]. intros [= <-].
    eexists _, _, _. do 3 (split; [done|]). split; [|split; [|by rewrite Eb]].
    + split; [done|]. split; simpl; [|set_solver]. destruct (Z.ltb_spec (First a) (First b)); lia.
    + rewrite Eb. intros c [= <-]. split; [|done]. split; [done|]. split; simpl; [|set_solver].
      destruct (Z.ltb_spec (First a) (First b)); lia.
  - intros [= <-]. eexists _, _, _. do 3 (split; [done|]). split; [done|]. by rewrite Eb.
Qed.

(** A log with such keys is read back as it is. *)
Lemma normalize_normal es m :
  NoDup es.*1 → (∀ k a, (k, a) ∈ es → normalKey k = Ok k ∧ m !! k = None) →
  foldl normalizeEntry (Ok m) (prod_map id Some <$> es) = Ok (list_to_map es ∪ m).
Proof.
  revert m. induction es as [|[k a] es IH]; intros m Hn Hk; [by rewrite list_to_map_nil, (left_id_L ∅ (∪) m)|].
  rewrite fmap_cons, NoDup_cons in Hn. destruct Hn as [Hn Hd]. destruct (Hk k a) as [Ek Em]; [by left|].
  rewrite fmap_cons. cbn [foldl]. unfold normalizeEntry at 2. simpl. rewrite Ek. simpl. rewrite Em, IH.
  - by rewrite <- insert_union_r, insert_union_l by by apply not_elem_of_list_to_map.
  - done.
  - intros k' a' Hin. destruct (Hk k' a') as [E1 E2]; [by right|]. split; [done|]. rewrite lookup_insert_ne; [done|].
    intros ->. apply Hn. by apply (list_elem_of_fmap_2 fst) in Hin.
Qed.

(** Where a transaction of the read log comes from. *)
Definition from_entry (es : list (string * option loggedAction)) (k : string) (t : loggedTx) : Prop :=
  ∃ raw a, (raw, Some a) ∈ es ∧ normalKey raw = Ok k ∧ t ∈ Txs a.

Lemma normalize_spec es m m' :
  foldl normalizeEntry (Ok m) es = Ok m' →
  (∀ k a, m !! k = Some a → ∃ a', m' !! k = Some a' ∧ within a a') ∧
  (∀ raw a, (raw, Some a) ∈ es → ∃ k a', normalKey raw = Ok k ∧ m' !! k = Some a' ∧ within a a') ∧
  (∀ k a' t, m' !! k = Some a' → t ∈ Txs a' →
     (∃ a, m !! k = Some a ∧ t ∈ Txs a) ∨ from_entry es k t) ∧
  (∀ k a', m' !! k = Some a' → is_Some (m !! k) ∨ ∃ raw, normalKey raw = Ok k).
Proof.
  revert m. induction es as [|[raw o] es IH]; intros m Hf.
  { injection Hf as <-. split_and!; [by eauto using within_refl|by intros ??[]%elem_of_nil|by eauto|by eauto]. }
  change (foldl normalizeEntry (normalizeEntry (Ok m) (raw, o)) es = Ok m') in Hf.
  destruct (normalizeEntry (Ok m) (raw, o)) as [m1|e] eqn:E1; [|by rewrite normalize_err in Hf].
  apply normalizeEntry_step in E1 as (a & k & a' & -> & Hk & -> & Ha & Hold & Hnew).
  destruct (IH _ Hf) as (I1 & I2 & I3 & I4). split_and!.
  - intros k' b Hb. destruct (decide (k' = k)) as [->|Hne].
    + destruct (I1 k a') as (c & Hc & Hw); [by rewrite lookup_insert_eq|].
      exists c. split; [done|]. eapply within_trans; [by apply Hold|done].
    + apply I1. by rewrite lookup_insert_ne.
  - intros raw' b [[= -> ->]|Hin]%elem_of_cons; [|by apply I2].
    destruct (I1 k a') as (c & Hc & Hw); [by rewrite lookup_insert_eq|].
    exists k, c. split_and!; [done..|]. by eapply within_trans.
  - intros k' c t Hc Ht. destruct (I3 _ _ _ Hc Ht) as [(b & Hb & Hin)|(raw' & b & Hin & Hr)].
    + apply lookup_insert_Some in Hb as [[<- <-]|[Hne Hb]]; [|left; by eauto].
      destruct (m !! k) as [b0|] eqn:Eb.
      * destruct (Hold b0 eq_refl) as [_ E]. rewrite E in Hin. apply elem_of_app in Hin as [Hin|Hin].
        -- left. by eauto.
        -- right. exists raw, a. split_and!; [by left|done..].
      * rewrite (Hnew eq_refl) in Hin. right. exists raw, a. split_and!; [by left|done..].
    + right. exists raw', b. destruct Hr. split_and!; [by right|done..].
  - intros k' c Hc. destruct (I4 _ _ Hc) as [[b Hb]|Hr]; [|by right].
    apply lookup_insert_Some in Hb as [[<- _]|[_ Hb]]; [right|left]; by eauto.
Qed.
End reading.

Lemma normalizeKeys_normal `{Crypto} `{GoRuntime} `{!GoRuntimeOk} l :
  keys_ok l → normalizeKeys l (Some <$> Actions l) = Ok l.
Proof.
  intros Hk. unfold normalizeKeys.
  assert (∃ es, map_range (Some <$> Actions l) = prod_map id Some <$> es ∧ es ≡ₚ map_to_list (Actions l)) as (es & -> & He).
  { pose proof (map_range_perm (Some <$> Actions l)) as Hp. rewrite map_to_list_fmap in Hp.
    apply Permutation_map_inv in Hp as (es & E & Hp). exists es. by rewrite Hp. }
  rewrite normalize_normal.
  - simpl. rewrite map_union_empty. rewrite (list_to_map_proper es (map_to_list (Actions l))); [|..|done].
    + rewrite list_to_map_to_list. by destruct l.
    + rewrite He. apply NoDup_fst_map_to_list.
  - rewrite He. apply NoDup_fst_map_to_list.
  - intros k a Hin. rewrite He, elem_of_map_to_list in Hin. split; [apply Hk; eauto|apply lookup_empty].
Qed.

(** Reading a log back loses no signature: normalizeKeys keeps every
    transaction of every entry under its action's canonical key (with its value,
    and a first signing no later), adds none, leaves only canonical keys, and
    touches nothing else of the log. *)
Theorem normalizeKeys_keeps `{Crypto} `{GoRuntime} `{!GoRuntimeOk} l actions l' :
  normalizeKeys l actions = Ok l' →
  (∀ raw a, actions !! raw = Some (Some a) →
     ∃ k a', normalKey raw = Ok k ∧ Actions l' !! k = Some a' ∧ within a a') ∧
  (∀ k a' t, Actions l' !! k = Some a' → t ∈ Txs a' →
     ∃ raw a, actions !! raw = Some (Some a) ∧ normalKey raw = Ok k ∧ t ∈ Txs a) ∧
  (∀ k a', Actions l' !! k = Some a' → normalKey k = Ok k) ∧
  l' = setActions l (Actions l').
Proof.
  unfold normalizeKeys. intros E. apply bind_Ok in E as (m & Hf & [= <-]). simpl.
  apply normalize_spec in Hf as (_ & I2 & I3 & I4).
  assert (Hin : ∀ raw o, (raw, o) ∈ map_range actions ↔ actions !! raw = Some o).
  { intros raw o. rewrite map_range_perm. apply elem_of_map_to_list. }
  split_and!; [| | |done].
  - intros raw a Ha. apply I2. by apply Hin.
  - intros k a' t Hk Ht. destruct (I3 _ _ _ Hk Ht) as [(b & Hb & _)|(raw & a & Hr & ?)].
    + by rewrite lookup_empty in Hb.
    + exists raw, a. split; [by apply Hin|done].
  - intros k a' Hk. destruct (I4 _ _ Hk) as [[b Hb]|[raw Hr]].
    + by rewrite lookup_empty in Hb.
    + by eapply normalKey_canonical.
Qed.

(** ** Volume and promised fees, as sums *)

Section sums.
Context `{Crypto} `{GoRuntime} `{!GoRuntimeOk}.

(** A total over a map does not depend on the order range visits it in. *)
Lemma range_sum {A} (p : string * A → bool) (v : string * A → Z) (m : gmap string A) :
  foldl (fun t x => if p x then t [+] v x else t) 0 (map_range m) =
  wrap64 (sumZ (v <$> filter (fun x => p x = true) (map_to_list m))).
Proof.
  rewrite <- (map_range_perm m).
  pose proof (foldl_sum_if p v (map_range m) 0) as E. rewrite Z.add_0_l in E. rewrite <- E.
  symmetry. apply wrap64_small.
  apply (foldl_inv i64_ok); [i64|]. intros t x _ Ht. destruct (p x); auto with doge.
Qed.

Definition volume (l : signingLog) (t : Z) : Z :=
  sumZ ((fun ka => la_Value ka.2) <$>
    filter (fun ka => (t <=? First ka.2) = true) (map_to_list (Actions l))).

Lemma foldl_ext_eq {A B} (f g : A → B → A) l a :
  (∀ a x, f a x = g a x) → foldl f a l = foldl g a l.
Proof. intros Hf. revert a. induction l as [|x l IH]; intros a; simpl; [done|]. by rewrite Hf. Qed.

Lemma volumeSince_volume l t : volumeSince l t = wrap64 (volume l t).
Proof.
  unfold volumeSince, volume. rewrite <- range_sum.
  apply foldl_ext_eq. by intros ? [].
Qed.

Lemma volume_insert_new l k a t :
  Actions l !! k = None →
  volume (setActions l (<[k := a]> (Actions l))) t =
  (if t <=? First a then la_Value a else 0) + volume l t.
Proof.
  intros Hk. unfold volume. simpl. rewrite map_to_list_insert by done. rewrite filter_cons. simpl.
  destruct (t <=? First a).
  - rewrite decide_True by done. rewrite fmap_cons, sumZ_cons. done.
  - by rewrite decide_False by done.
Qed.

Lemma volume_insert_same l k a a' t :
  Actions l !! k = Some a → First a' = First a → la_Value a' = la_Value a →
  volume (setActions l (<[k := a']> (Actions l))) t = volume l t.
Proof.
  intros Hk Hf Hv. unfold volume. simpl.
  rewrite <- insert_delete_eq, map_to_list_insert by apply lookup_delete_eq.
  rewrite <- (map_to_list_delete (Actions l) k a Hk), !filter_cons. simpl. rewrite Hf.
  destruct (t <=? First a).
  - rewrite !decide_True by done. rewrite !fmap_cons, !sumZ_cons. simpl. by rewrite Hv.
  - by rewrite !decide_False by done.
Qed.

Lemma Actions_recorded l key chain tx value fee now :
  ∃ l', Actions l' = Actions l ∧ recorded l key chain tx value fee now =
    let a := default (mkLogged value now []) (Actions l !! key) in
    setActions l' (<[key := mkLogged (la_Value a) (First a) (Txs a ++ [entryOf chain tx fee])]> (Actions l')).
Proof.
  unfold recorded. set (l' := match txIn tx with [] => l | _ => _ end).
  assert (El : Actions l' = Actions l) by (subst l'; destruct (txIn tx); [done|by case_bool_decide]).
  exists l'. by rewrite El.
Qed.

(** What signing adds to the volume: the value, the first time only. *)
Lemma volume_recorded l key chain tx value fee now t :
  volume (recorded l key chain tx value fee now) t =
  (if log_has l key then 0 else if t <=? now then value else 0) + volume l t.
Proof.
  destruct (Actions_recorded l key chain tx value fee now) as (l' & El & ->).
  assert (Ev : volume l t = volume l' t) by (unfold volume; by rewrite El).
  unfold log_has, has. rewrite Ev, <- El.
  destruct (Actions l' !! key) as [a|] eqn:E.
  - rewrite bool_decide_eq_true_2 by eauto. rewrite Z.add_0_l. by eapply volume_insert_same.
  - rewrite bool_decide_eq_false_2 by (intros [? ?]; congruence). by rewrite volume_insert_new.
Qed.
End sums.

(** ** Fees still promised *)

Section fees.
Context `{Crypto} `{GoRuntime} `{!GoRuntimeOk}.
Context (known : gset OutPoint) (ev : option chainEvidence)
  (inChain : option (string → OutPoint → bool)).

Definition others (l : signingLog) (except : string) : list (string * loggedAction) :=
  filter (fun ka => negb (bool_decide (ka.1 = except)) = true) (map_to_list (Actions l)).

Lemma unseenFees_sum l except :
  unseenFees l known ev inChain except =
  wrap64 (sumZ ((fun ka => actionUnseen known ev inChain ka.2) <$> others l except)).
Proof.
  unfold unseenFees, others. rewrite <- range_sum. apply foldl_ext_eq.
  intros t [k a]. simpl. by case_bool_decide.
Qed.

Lemma mostLive_spec txs m :
  0 ≤ m →
  let r := foldl (fun most t =>
      if (Fee t <=? 0) || (Fee t <=? most) then most
      else if feeLive known ev inChain t then Fee t else most) m txs in
  m ≤ r ∧ ∀ t, t ∈ txs → feeLive known ev inChain t = true → Fee t ≤ r.
Proof.
  revert m. induction txs as [|t txs IH]; intros m Hm; simpl.
  { split; [lia|]. by intros t Ht%elem_of_nil. }
  set (m1 := if (Fee t <=? 0) || _ then _ else _).
  assert (Hm1 : m ≤ m1 ∧ (feeLive known ev inChain t = true → Fee t ≤ m1)).
  { subst m1. destruct (Z.leb_spec (Fee t) 0), (Z.leb_spec (Fee t) m); simpl; [lia..|].
    destruct (feeLive _ _ _ t); [lia|]. split; [lia|done]. }
  destruct (IH m1) as [I1 I2]; [lia|]. split; [lia|].
  intros t' [->|Ht']%elem_of_cons Hl; [|by apply I2]. destruct Hm1 as [_ Hm1]. specialize (Hm1 Hl). lia.
Qed.

Lemma worst_spec txs w :
  let r := foldl (fun worst alt => Z.max worst (Fee alt)) w txs in
  w ≤ r ∧ (∀ t, t ∈ txs → Fee t ≤ r) ∧ (r = w ∨ ∃ t, t ∈ txs ∧ r = Fee t).
Proof.
  revert w. induction txs as [|t txs IH]; intros w; simpl.
  { split_and!; [lia| |by left]. by intros t Ht%elem_of_nil. }
  destruct (IH (Z.max w (Fee t))) as (I1 & I2 & I3). split_and!; [lia|..].
  - intros t' [->|Ht']%elem_of_cons; [lia|by apply I2].
  - destruct I3 as [->|(t' & Ht' & ->)]; [|right; exists t'; split; [by right|done]].
    destruct (Z.max_spec w (Fee t)) as [[_ ->]|[_ ->]]; [right|by left]. exists t. split; [by left|done].
Qed.

Lemma feeConfirmed_elem txs c : feeConfirmed ev txs = Some c → c ∈ txs.
Proof.
  induction txs as [|t txs IH]; [done|]. simpl. case_match; [intros [= ->]; by left|].
  intros Hc. right. by apply IH.
Qed.

Lemma feeConfirmed_evConfirmed txs c : feeConfirmed ev txs = Some c → evConfirmed ev c = true.
Proof.
  induction txs as [|t txs IH]; [done|]. simpl. case_match eqn:E; [intros [= ->]; by apply andb_true_iff in E as [_ E]|apply IH].
Qed.
End fees.

(** ** Fees still promised, against the chains *)

Section fees_chain.
Context `{Crypto} `{GoRuntime} `{!GoRuntimeOk}.

(** The transactions of one chain by unsigned ID. *)
Lemma byUnsignedID_spec txs :
  (∀ id t, byUnsignedID txs !! id = Some t → t ∈ txs ∧ id = Hash_String (unsignedHash (ct_tx t))) ∧
  (∀ t, t ∈ txs → ∃ t', byUnsignedID txs !! Hash_String (unsignedHash (ct_tx t)) = Some t' ∧
     ct_confirmations t ≤ ct_confirmations t').
Proof.
  unfold byUnsignedID. induction txs as [|u txs [IH1 IH2]] using rev_ind; [by split; [|intros ? ?%elem_of_nil]|].
  rewrite foldl_app. simpl. set (m := foldl _ _ txs) in *. set (id0 := Hash_String (unsignedHash (ct_tx u))).
  assert (Hin : ∀ id t, <[id0:=u]> m !! id = Some t → t ∈ txs ++ [u] ∧ id = Hash_String (unsignedHash (ct_tx t))).
  { intros id t [[<- <-]|[_ Hm]]%lookup_insert_Some; [by rewrite elem_of_app, list_elem_of_singleton; auto|].
    destruct (IH1 _ _ Hm). by rewrite elem_of_app; auto. }
  assert (Hm : ∀ id t, m !! id = Some t → t ∈ txs ++ [u] ∧ id = Hash_String (unsignedHash (ct_tx t))).
  { intros id t Hm. destruct (IH1 _ _ Hm). by rewrite elem_of_app; auto. }
  assert (Hu : ∀ t, t ∈ txs → (∀ p, m !! id0 = Some p → ct_confirmations p ≤ ct_confirmations u) →
      ∃ t', <[id0:=u]> m !! Hash_String (unsignedHash (ct_tx t)) = Some t' ∧ ct_confirmations t ≤ ct_confirmations t').
  { intros t Ht Hp. destruct (IH2 t Ht) as (t' & Et & Hle).
    destruct (decide (Hash_String (unsignedHash (ct_tx t)) = id0)) as [Eid|Hne].
    - rewrite Eid in *. exists u. rewrite lookup_insert_eq. split; [done|]. specialize (Hp _ Et). lia.
    - exists t'. by rewrite lookup_insert_ne. }
  destruct (m !! id0) as [p|] eqn:Ep.
  - destruct (ct_confirmations p <? ct_confirmations u) eqn:Eb; split; try done.
    + intros t [Ht|Et%list_elem_of_singleton]%elem_of_app; [|subst t].
      * apply Hu; [done|]. intros p' [= <-]. lia.
      * exists u. fold id0. by rewrite lookup_insert_eq.
    + intros t [Ht|Et%list_elem_of_singleton]%elem_of_app; [by apply IH2|subst t]. exists p. fold id0. split; [done|lia].
  - split; [done|]. intros t [Ht|Et%list_elem_of_singleton]%elem_of_app; [by apply Hu|subst t].
    exists u. fold id0. by rewrite lookup_insert_eq.
Qed.

(** The chains: the transactions in their blocks now, and those, coinbases
    apart, in the blocks they end up with. *)
Context (blocks final : string → list MsgTx).

#[local] Instance logged_as_dec t e : Decision (logged_as t e).
Proof. unfold logged_as. apply _. Defined.

(** A signing of what t records is in its chain. *)
Definition holds (ch : string → list MsgTx) (t : loggedTx) : bool :=
  existsb (fun tx => bool_decide (logged_as tx t)) (ch (lt_Chain t)).

Lemma holds_true ch t : holds ch t = true ↔ ∃ tx, tx ∈ ch (lt_Chain t) ∧ logged_as tx t.
Proof.
  unfold holds. rewrite existsb_exists. by setoid_rewrite bool_decide_eq_true; setoid_rewrite list_elem_of_In.
Qed.

Definition maxZ (l : list Z) : Z := foldr Z.max 0 l.

(** The fee an action takes on those chains. *)
Definition feeIn (ch : string → list MsgTx) (a : loggedAction) : Z :=
  maxZ (Fee <$> filter (fun t => holds ch t = true) (Txs a)).

Lemma maxZ_spec l : 0 ≤ maxZ l ∧ (∀ x, x ∈ l → x ≤ maxZ l) ∧ (maxZ l = 0 ∨ maxZ l ∈ l).
Proof.
  induction l as [|y l (I1 & I2 & I3)]; [split_and!; [done|by intros x ?%elem_of_nil|by left]|]. simpl. split_and!; [lia|..].
  - intros x [->|Hx]%elem_of_cons; [lia|]. specialize (I2 x Hx). lia.
  - destruct (Z.max_spec y (maxZ l)) as [[_ ->]|[Hle ->]]; [destruct I3; [by left|right; by right]|].
    right. by left.
Qed.

Lemma feeIn_ge ch a t : t ∈ Txs a → holds ch t = true → Fee t ≤ feeIn ch a.
Proof. intros Ht Hh. apply maxZ_spec, list_elem_of_fmap_2, list_elem_of_filter. done. Qed.

Lemma feeIn_le ch a m : 0 ≤ m → (∀ t, t ∈ Txs a → holds ch t = true → Fee t ≤ m) → feeIn ch a ≤ m.
Proof.
  intros Hp Hm. unfold feeIn. destruct (maxZ_spec (Fee <$> filter (fun t => holds ch t = true) (Txs a))) as (_ & _ & [->|Hin]); [done|].
  apply list_elem_of_fmap in Hin as (t & -> & [Hh Ht]%list_elem_of_filter). by apply Hm.
Qed.

(** What a signer sees of a chain. *)
Definition historyOf (s : pegState) (name : string) : list chainTx :=
  if bool_decide (name = chainDogecoinVM) then vmTxs s else if bool_decide (name = chainDogecoin) then dogeTxs s else [].

(** The depth at which a block stays: deep on Dogecoin, any on DogecoinVM. *)
Definition staysAt (deep : Z) (name : string) : Z := if bool_decide (name = chainDogecoin) then Z.max deep 1 else 1.

(** A signer's view of the chains, against them: what it lists in a block is in
    one, and stays if it is that deep; its node says of nothing else that it is
    in a block; the IDs the log knows a transaction under are its own, and of the
    transactions of one action no more than one is ever in its chain. *)
Record fees_view (s : pegState) (nodes : string → chain) (deep : Z) (l : signingLog) : Prop := {
  fv_blocks name t : t ∈ historyOf s name → 0 < ct_confirmations t → ct_tx t ∈ blocks name;
  fv_deep name t : t ∈ historyOf s name → staysAt deep name ≤ ct_confirmations t →
    ct_tx t ∈ final name ∨ prevOuts (ct_tx t) = [nullOut];
  fv_final name tx : staysAt deep name = 1 → tx ∈ blocks name → tx ∈ final name ∨ prevOuts tx = [nullOut];
  fv_node name ask id : confirmedOn (nodes name) = Some ask → ask id = true →
    ∃ tx, tx ∈ blocks name ∧ id = Hash_String (TxHash tx);
  fv_ids key a t tx : Actions l !! key = Some a → t ∈ Txs a → tx ∈ blocks (lt_Chain t) →
    Hash_String (TxHash tx) ∈ Txid t :: Signed t → Txid t = Hash_String (unsignedHash tx);
  fv_inputs key a t tx : Actions l !! key = Some a → t ∈ Txs a → tx ∈ blocks (lt_Chain t) →
    Txid t = Hash_String (unsignedHash tx) → Inputs t = OutPoint_String <$> prevOuts tx ∧ prevOuts tx ≠ [nullOut];
  fv_one key a t t' : Actions l !! key = Some a → t ∈ Txs a → t' ∈ Txs a → holds final t = true → holds final t' = true →
    same_entry t t' ∧ lt_Chain t = lt_Chain t' }.

Context (s : pegState) (nodes : string → chain) (deep : Z) (l : signingLog).
Context (Hok : ∀ name, chain_ok (final name)) (HV : fees_view s nodes deep l).

Let ev : chainEvidence := mkEvidence (listed (newChainEvidence s (Some nodes))) (Some nodes) deep.

Lemma listedOn_history name id lt :
  listedOn ev name !! id = Some lt → lt ∈ historyOf s name ∧ id = Hash_String (unsignedHash (ct_tx lt)).
Proof.
  unfold listedOn, historyOf, ev, newChainEvidence. cbn [listed].
  destruct (decide (name = chainDogecoinVM)) as [->|N1].
  { rewrite lookup_insert_eq, bool_decide_eq_true_2 by done. apply byUnsignedID_spec. }
  rewrite lookup_insert_ne, bool_decide_eq_false_2 by done. destruct (decide (name = chainDogecoin)) as [->|N2].
  { rewrite lookup_singleton_eq, bool_decide_eq_true_2 by done. apply byUnsignedID_spec. }
  rewrite lookup_singleton_ne by done. simpl. by rewrite lookup_empty.
Qed.

(** A logged transaction the evidence has in a block is in one. *)
Lemma confirmed_block key a t :
  Actions l !! key = Some a → t ∈ Txs a → ev_confirmed ev (lt_Chain t) t = true →
  ∃ tx, tx ∈ blocks (lt_Chain t) ∧ logged_as tx t ∧ prevOuts tx ≠ [nullOut].
Proof.
  intros Ha Ht Hc.
  enough (∃ tx, tx ∈ blocks (lt_Chain t) ∧ Txid t = Hash_String (unsignedHash tx)) as (tx & Hb & Ei).
  { exists tx. destruct (fv_inputs _ _ _ _ HV key a t tx Ha Ht Hb Ei). by split_and!. }
  unfold ev_confirmed in Hc. apply orb_true_iff in Hc as [Hc|Hc].
  - destruct (listedOn ev (lt_Chain t) !! Txid t) as [lt|] eqn:El; [|done]. apply listedOn_history in El as [Hlt Ei].
    exists (ct_tx lt). split; [|done]. apply (fv_blocks _ _ _ _ HV); [done|lia].
  - cbn [SigningLog.nodes ev] in Hc. destruct (confirmedOn (nodes (lt_Chain t))) as [ask|] eqn:Ea; [|done].
    assert (∃ id, id ∈ Txid t :: Signed t ∧ ask id = true) as (id & Hid & Hask).
    { apply orb_true_iff in Hc as [(id & Hid & Hask)%existsb_exists|Hask]; [|exists (Txid t); split; [left|done]].
      exists id. split; [right; by apply list_elem_of_In|done]. }
    destruct (fv_node _ _ _ _ HV _ _ _ Ea Hask) as (tx & Hb & ->). exists tx. split; [done|].
    by apply (fv_ids _ _ _ _ HV key a t tx).
Qed.

Lemma confirmed_holds key a t :
  Actions l !! key = Some a → t ∈ Txs a → ev_confirmed ev (lt_Chain t) t = true → holds blocks t = true.
Proof. intros Ha Ht Hc. apply holds_true. destruct (confirmed_block key a t Ha Ht Hc) as (tx & Hb & Hl & _). eauto. Qed.

(** One that is not shallow stays. *)
Lemma settled_holds key a t :
  Actions l !! key = Some a → t ∈ Txs a → ev_confirmed ev (lt_Chain t) t = true → shallow ev (lt_Chain t) t = false →
  holds final t = true.
Proof.
  intros Ha Ht Hc Hs. apply holds_true.
  assert (∃ tx, logged_as tx t ∧ prevOuts tx ≠ [nullOut] ∧ (tx ∈ final (lt_Chain t) ∨ prevOuts tx = [nullOut])) as (tx & Hl & Hn & [?|?]);
    [|by exists tx|done].
  unfold shallow in Hs. cbn [SigningLog.deep ev] in Hs. destruct (negb (bool_decide (lt_Chain t = chainDogecoin)) || (deep <=? 1)) eqn:Ed.
  - destruct (confirmed_block key a t Ha Ht Hc) as (tx & Hb & Hl & Hn). exists tx. split_and!; [done..|].
    apply (fv_final _ _ _ _ HV); [|done]. unfold staysAt. case_bool_decide; [|done]. simpl in Ed. lia.
  - apply orb_false_iff in Ed as [Ed%negb_false_iff%bool_decide_eq_true Hd].
    destruct (listedOn ev (lt_Chain t) !! Txid t) as [lt|] eqn:El; [|done]. apply listedOn_history in El as [Hlt Ei].
    assert (ct_tx lt ∈ blocks (lt_Chain t)) as Hb by (apply (fv_blocks _ _ _ _ HV); [done|lia]).
    destruct (fv_inputs _ _ _ _ HV key a t _ Ha Ht Hb Ei) as [Hi Hn]. exists (ct_tx lt). split_and!; [done..|].
    apply (fv_deep _ _ _ _ HV); [done|]. unfold staysAt. rewrite bool_decide_eq_true_2 by done. lia.
Qed.

(** One that ends up in its chain was live: nothing that stays spends its inputs. *)
Lemma final_live known inChain t : holds final t = true → feeLive known (Some ev) inChain t = true.
Proof.
  intros (tx & Hf & [Ei En])%holds_true. unfold feeLive. apply forallb_forall. intros raw Hraw%list_elem_of_In.
  rewrite En in Hraw. apply list_elem_of_fmap in Hraw as (op & -> & Hop). destruct (Hok (lt_Chain t)) as [_ Ho _ Hr].
  rewrite Forall_forall in Ho, Hr. specialize (Ho tx Hf). rewrite Forall_forall in Ho.
  rewrite parseOutPoint_OutPoint_String by by apply Ho. apply orb_true_iff. right. apply negb_true_iff.
  unfold spentDeep. apply not_true_is_false. intros ([id lt] & Hin%list_elem_of_In & Hx)%existsb_exists.
  rewrite map_range_perm, elem_of_map_to_list in Hin. apply listedOn_history in Hin as [Hlt ->].
  rewrite !andb_true_iff, negb_true_iff, bool_decide_eq_false in Hx. destruct Hx as [[Hne Hd%Z.leb_le] Hs].
  apply existsb_exists in Hs as (ti & Hti%list_elem_of_In & Hp%bool_decide_eq_true).
  assert (op ∈ prevOuts (ct_tx lt)) as Hop' by (rewrite <- Hp; by apply list_elem_of_fmap_2).
  destruct (fv_deep _ _ _ _ HV (lt_Chain t) lt Hlt) as [Hfin|Hcb].
  - unfold staysAt. cbn [SigningLog.deep ev] in Hd. case_bool_decide; [|done]. simpl in Hd. destruct (1 <? deep) eqn:E1; lia.
  - apply Hne. rewrite Ei. by rewrite (final_one _ _ _ op (Hok _) Hf Hfin).
  - apply (Hr tx Hf). rewrite Hcb in Hop'. by apply list_elem_of_singleton in Hop' as <-.
Qed.

Lemma actionUnseen_covers known inChain key a :
  Actions l !! key = Some a → Forall (fun t => 0 ≤ Fee t < two63) (Txs a) →
  Z.max 0 (feeIn final a - feeIn blocks a) ≤ actionUnseen known (Some ev) inChain a ≤ maxZ (Fee <$> Txs a).
Proof.
  intros Ha Hfees. rewrite Forall_forall in Hfees. destruct (maxZ_spec (Fee <$> Txs a)) as (X1 & X2 & X3).
  assert (∀ t, t ∈ Txs a → Fee t ≤ maxZ (Fee <$> Txs a)) as Hmax by (intros t Ht; by apply X2, list_elem_of_fmap_2).
  assert (0 ≤ feeIn blocks a) as Hb0 by exact (proj1 (maxZ_spec _)). unfold actionUnseen.
  destruct (feeConfirmed (Some ev) (Txs a)) as [c|] eqn:Ec.
  - pose proof (feeConfirmed_elem _ _ _ Ec) as Hc. pose proof (feeConfirmed_evConfirmed _ _ _ Ec) as Hev. simpl in Hev.
    pose proof (feeIn_ge _ _ _ Hc (confirmed_holds _ _ _ Ha Hc Hev)) as Hge. pose proof (Hfees c Hc) as Hfc.
    destruct (worst_spec (Txs a) 0) as (W1 & W2 & W3). set (w := foldl _ 0 (Txs a)) in *.
    assert (Hw : 0 ≤ w < two63 ∧ w ≤ maxZ (Fee <$> Txs a)).
    { destruct W3 as [->|(t & Ht & ->)]; [split; [i64|done]|]. split; [by apply Hfees|by apply Hmax]. }
    assert (feeIn final a ≤ w) as Hfw by (apply feeIn_le; eauto). rewrite wrap64_small by i64.
    destruct (shallow ev (lt_Chain c) c) eqn:Es; cbn [negb]; [lia|]. split; [|lia].
    enough (feeIn final a ≤ feeIn blocks a) by lia. apply feeIn_le; [done|]. intros t Ht Hh.
    pose proof (settled_holds _ _ _ Ha Hc Hev Es) as Hhc.
    destruct (fv_one _ _ _ _ HV key a t c Ha Ht Hc Hh Hhc) as [[E1 E2] E3]. apply feeIn_ge; [done|].
    destruct (confirmed_block _ _ _ Ha Hc Hev) as (tx & Hb & [L1 L2] & _). apply holds_true. exists tx. rewrite E3.
    split; [done|split; congruence].
  - destruct (mostLive_spec known (Some ev) inChain (Txs a) 0) as [M1 M2]; [lia|]. split.
    + enough (feeIn final a ≤ mostLive known (Some ev) inChain (Txs a)) by (unfold mostLive in *; lia).
      apply feeIn_le; [done|]. intros t Ht Hh. apply M2; [done|]. by apply final_live.
    + unfold mostLive. apply (foldl_inv (fun m => m ≤ maxZ (Fee <$> Txs a))); [done|]. intros m t Ht Hm.
      destruct (_ || _); [done|]. destruct (feeLive _ _ _ _); [by apply Hmax|done].
Qed.
End fees_chain.

(** C28. What the signer reserves of the surplus is enough, however the chains
    end up. Take a view of the chains (what it lists in a block is in one, and
    stays there once it is deep enough on Dogecoin, or in any block on
    DogecoinVM; a shallower block a reorganisation may replace), a log whose
    entries name transactions by their own IDs, and chains that end up spending no
    coin twice and with at most one of the transactions signed for one action.
    Then the fees of the other actions that the chains end up with beyond those
    they hold now sum to no more than unseenFees, as long as the largest fees
    signed for them sum to an int64. *)
Theorem unseenFees_covers `{Crypto} `{GoRuntime} `{!GoRuntimeOk} (blocks final : string → list MsgTx)
    (s : pegState) (nodes : string → chain) (deep : Z) (l : signingLog) known inChain except :
  (∀ name, chain_ok (final name)) → fees_view blocks final s nodes deep l →
  (∀ k a, Actions l !! k = Some a → Forall (fun t => 0 ≤ Fee t < two63) (Txs a)) →
  sumZ ((fun ka => maxZ (Fee <$> Txs ka.2)) <$> others l except) < two63 →
  sumZ ((fun ka => Z.max 0 (feeIn final ka.2 - feeIn blocks ka.2)) <$> others l except) ≤
  unseenFees l known (Some (mkEvidence (listed (newChainEvidence s (Some nodes))) (Some nodes) deep)) inChain except.
Proof.
  intros Hok HV Hfees Hsum. rewrite unseenFees_sum. set (ev := mkEvidence _ _ _).
  assert (Hin : ∀ ka, ka ∈ others l except →
    Z.max 0 (feeIn final ka.2 - feeIn blocks ka.2) ≤ actionUnseen known (Some ev) inChain ka.2 ≤ maxZ (Fee <$> Txs ka.2)).
  { intros [k a] [_ Hk%elem_of_map_to_list]%list_elem_of_filter. simpl. eapply actionUnseen_covers; eauto. }
  assert (sumZ ((fun ka => Z.max 0 (feeIn final ka.2 - feeIn blocks ka.2)) <$> others l except) ≤
      sumZ ((fun ka => actionUnseen known (Some ev) inChain ka.2) <$> others l except) ∧
    0 ≤ sumZ ((fun ka => actionUnseen known (Some ev) inChain ka.2) <$> others l except) ≤
      sumZ ((fun ka => maxZ (Fee <$> Txs ka.2)) <$> others l except)).
  { clear Hsum. induction (others l except) as [|ka rest IH]; [done|]. rewrite !fmap_cons, !sumZ_cons.
    destruct IH as [I1 I2]; [intros; apply Hin; by right|]. pose proof (Hin ka ltac:(by left)). lia. }
  rewrite wrap64_small by i64. lia.
Qed.

(** ** A small log: one payout signed twice, the second replacing the first *)

Module Samples.
#[local] Existing Instance toyCrypto.
#[local] Existing Instance toyCrypto_ok.
#[local] Existing Instance goRuntime.
#[local] Existing Instance goRuntime_ok.

Definition op1 : OutPoint := mkOutPoint (replicate 32 1) 0.
Definition op2 : OutPoint := mkOutPoint (replicate 32 2) 1.
Definition op3 : OutPoint := mkOutPoint (replicate 32 3) 2.
Definition pays (ops : list OutPoint) (sig : bytes) : MsgTx :=
  mkMsgTx 1 ((fun op => NewTxIn op sig []) <$> ops) [mkTxOut 5 [1]] 0.
Definition key1 : string := keyOf actionPayout (Hash_String (replicate 32 9)).
Definition log1 : signingLog := recorded newSigningLog key1 chainDogecoin (pays [op1; op2] []) 10 3 7.
Definition log2 : signingLog := recorded log1 key1 chainDogecoin (pays [op1; op3] []) 10 4 8.
Definition anchored : signingLog :=
  setAnchors newSigningLog {[chainDogecoin := OutPoint_String (mkOutPoint (TxHash Lineage.Samples.txA) 0)]}.

Lemma anchored_moves :
  moves Lineage.Samples.txs1 Lineage.Samples.script0 2
    (mkOutPoint (TxHash Lineage.Samples.txA) 0) (mkOutPoint (TxHash Lineage.Samples.txB) 1).
Proof. unfold moves. vm_compute. reflexivity. Qed.

Lemma anchorMoved_spec_witness :
  anchorMoved anchored chainDogecoin (pays [mkOutPoint (TxHash Lineage.Samples.txB) 1] []) None
    (Some (newLineage Lineage.Samples.txs1 Lineage.Samples.script0 2)) = Ok tt.
Proof.
  apply (anchorMoved_spec Lineage.Samples.txs1 Lineage.Samples.script0 2 Lineage.Samples.pos0
    anchored chainDogecoin _ None
    (NewTxIn (mkOutPoint (TxHash Lineage.Samples.txB) 1) [] []) []).
  - apply Lineage.Samples.txs1_ok.
  - apply Lineage.Samples.txs1_order.
  - reflexivity.
  - exists (OutPoint_String (mkOutPoint (TxHash Lineage.Samples.txA) 0)),
      (mkOutPoint (TxHash Lineage.Samples.txA) 0).
    split; [vm_compute; reflexivity|]. split.
    + apply parseOutPoint_OutPoint_String. split; [apply TxHash_ok|split; vm_compute; congruence].
    + eapply rtc_l; [apply anchored_moves|apply rtc_refl].
Defined.

Definition spelled : action := mkAction actionRelease (OutPoint_String op2 +:+ EmptyString) EmptyString EmptyString.
Definition respelled : action :=
  mkAction actionRelease (Hash_String (replicate 32 2) +:+ String ":"%char "001") EmptyString "x".

Lemma action_key_identifies_witness :
  ∃ k, action_key spelled = Ok k ∧ action_key respelled = Ok k.
Proof.
  exists (keyOf actionRelease (OutPoint_String op2)).
  assert (Hs : action_key spelled = Ok (keyOf actionRelease (OutPoint_String op2)))
    by (vm_compute; reflexivity).
  split; [exact Hs|]. apply (action_key_identifies spelled respelled _ Hs).
  split; vm_compute; reflexivity.
Defined.

Definition oldKeys : gmap string (option loggedAction) :=
  <[keyOf actionRelease (OutPoint_String op2) := Some (mkLogged 4 9 [entryOf chainDogecoinVM (pays [op1] []) 0])]>
  {[keyOf actionRelease (Hash_String (replicate 32 2) +:+ String ":"%char "01") :=
      Some (mkLogged 4 8 [entryOf chainDogecoinVM (pays [op3] []) 0])]}.

Lemma normalizeKeys_keeps_witness :
  ∃ l', normalizeKeys newSigningLog oldKeys = Ok l' ∧ l' = setActions newSigningLog (Actions l').
Proof.
  assert (E : is_ok (normalizeKeys newSigningLog oldKeys) = true) by (vm_compute; reflexivity).
  destruct (normalizeKeys newSigningLog oldKeys) as [l'|e] eqn:El; [|discriminate E].
  exists l'. split; [reflexivity|].
  exact (proj2 (proj2 (proj2 (normalizeKeys_keeps newSigningLog oldKeys l' El)))).
Defined.

Lemma log2_actions : map_to_list (Actions log2) = [(key1, mkLogged 10 7
  [entryOf chainDogecoin (pays [op1; op2] []) 3; entryOf chainDogecoin (pays [op1; op3] []) 4])].
Proof. vm_compute. reflexivity. Qed.

(** The first of the two is two blocks deep, and a reorganisation puts the
    second in its place. *)
Definition onDoge (txs : list MsgTx) (name : string) : list MsgTx := if bool_decide (name = chainDogecoin) then txs else [].
Definition node0 (_ : string) : chain := {|
  txsFor := fun _ => Ok []; unspent := fun _ _ => Ok []; confirmer := None; utxoSetter := None; conflictLister := None |}.
Definition seen2 : pegState :=
  sampleHistory (sampleState None None [] []) emptyLine [] [mkChainTx (pays [op1; op2] []) 2 0] [] ∅.

Lemma onDoge_elem txs name tx : tx ∈ onDoge txs name → name = chainDogecoin ∧ tx ∈ txs.
Proof. unfold onDoge. case_bool_decide; [done|]. by intros ?%elem_of_nil. Qed.

Lemma seen2_history name t : t ∈ historyOf seen2 name → name = chainDogecoin ∧ t = mkChainTx (pays [op1; op2] []) 2 0.
Proof.
  unfold historyOf. case_bool_decide; [by intros ?%elem_of_nil|]. case_bool_decide; [|by intros ?%elem_of_nil].
  by intros ->%list_elem_of_singleton.
Qed.

Lemma log2_entry k a t : Actions log2 !! k = Some a → t ∈ Txs a →
  t = entryOf chainDogecoin (pays [op1; op2] []) 3 ∨ t = entryOf chainDogecoin (pays [op1; op3] []) 4.
Proof.
  intros Hk Ht. apply elem_of_map_to_list in Hk. rewrite log2_actions in Hk. apply list_elem_of_singleton in Hk. injection Hk as _ ->.
  cbn [Txs] in Ht. set_solver.
Qed.

Lemma seen2_view : fees_view (onDoge [pays [op1; op2] []]) (onDoge [pays [op1; op3] []]) seen2 node0 10 log2.
Proof.
  split.
  - intros name t [-> ->]%seen2_history _. left.
  - intros name t [-> ->]%seen2_history. intros Hd. exfalso. vm_compute in Hd. by apply Hd.
  - intros name tx Hd [-> _]%onDoge_elem. discriminate Hd.
  - intros name ask id Ha. discriminate Ha.
  - intros k a t tx Hk Ht [_ Hb%list_elem_of_singleton]%onDoge_elem Hid. subst tx.
    destruct (log2_entry _ _ _ Hk Ht) as [->| ->]; apply list_elem_of_singleton in Hid; revert Hid; vm_compute; congruence.
  - intros k a t tx Hk Ht [_ Hb%list_elem_of_singleton]%onDoge_elem Hid. subst tx.
    destruct (log2_entry _ _ _ Hk Ht) as [->| ->]; revert Hid; vm_compute; [by split|discriminate].
  - intros k a t t' Hk Ht Ht' Hh Hh'. destruct (log2_entry _ _ _ Hk Ht) as [->| ->]; [vm_compute in Hh; discriminate|].
    destruct (log2_entry _ _ _ Hk Ht') as [->| ->]; [vm_compute in Hh'; discriminate|]. split; [split|]; reflexivity.
Qed.

Lemma onDoge_ok name : chain_ok (onDoge [pays [op1; op3] []] name).
Proof. unfold onDoge. case_bool_decide; split; apply (bool_decide_unpack _); vm_compute; exact I. Qed.

Lemma unseenFees_covers_witness :
  4 - 3 ≤ unseenFees log2 ∅ (Some (mkEvidence (listed (newChainEvidence seen2 (Some node0))) (Some node0) 10)) None EmptyString.
Proof.
  pose proof (unseenFees_covers (onDoge [pays [op1; op2] []]) (onDoge [pays [op1; op3] []]) seen2 node0 10 log2 ∅ None EmptyString
    onDoge_ok seen2_view) as Hc.
  assert (Hs : sumZ ((fun ka => Z.max 0 (feeIn (onDoge [pays [op1; op3] []]) ka.2 - feeIn (onDoge [pays [op1; op2] []]) ka.2))
    <$> others log2 EmptyString) = 4 - 3) by (vm_compute; reflexivity).
  rewrite Hs in Hc. apply Hc.
  - intros k a Hk. apply Forall_forall. intros t Ht. destruct (log2_entry _ _ _ Hk Ht) as [->| ->]; vm_compute; split; congruence.
  - vm_compute. reflexivity.
Defined.
End Samples.
