(* ===== verification/Registry.v ===== *)
(** Durable files and the registry of personal deposit addresses
    (src/cmd/dogevm/registry.go, main.go: registerDeposit, cosign.go:
    signingLog.write). *)

From Stdlib Require Import Ascii String.
From S2P Require Import Prelude Text Wire Runtime Script Tags Amount Peg Lineage State Build SigningLog.

(** ** Replacing a file

    Both files are replaced by writing a temporary one, renaming it and
    syncing the directory. A failure before the rename leaves the old file; one
    after it leaves the new one, and is an error all the same. *)

Inductive writeOutcome := written | notWritten | notSynced.

Definition reaches_disk (o : writeOutcome) : bool :=
  match o with notWritten => false | _ => true end.

(** How the next write goes, and how those after it do. *)
Definition nextWrite (l : list writeOutcome) : writeOutcome * list writeOutcome :=
  match l with o :: l => (o, l) | [] => (written, []) end.

Definition writeError (o : writeOutcome) : result unit :=
  match o with
  | written => Ok tt
  | notWritten => Err (Errorf "the file was not replaced")
  | notSynced => Err (Errorf "the directory was not synced")
  end.

(** ** The signing log, in memory and on disk *)

Record logState := mkLogState {
  ls_log : signingLog;
  ls_disk : signingLog;
  ls_writes : list writeOutcome;
}.

Definition getLog : St logState signingLog := fun st => (Ok (ls_log st), st).

Definition putLog (l : signingLog) : St logState unit := fun st =>
  (Ok tt, mkLogState l (ls_disk st) (ls_writes st)).

Definition log_write : St logState unit := fun st =>
  let '(o, rest) := nextWrite (ls_writes st) in
  (writeError o, mkLogState (ls_log st) (if reaches_disk o then ls_log st else ls_disk st) rest).

(** The log a restart opens: the one on disk, which no longer has the field of
    an old waiver once it was opened and written. *)
Definition reopen `{Crypto} `{GoRuntime} (st : logState) : result signingLog :=
  openSigningLog (Some (ls_disk st, Some <$> Actions (ls_disk st), ∅)).

Lemma reopen_normal `{Crypto} `{GoRuntime} `{!GoRuntimeOk} st : keys_ok (ls_disk st) → reopen st = Ok (ls_disk st).
Proof.
  intros Hk. unfold reopen, openSigningLog, restoreWaived.
  assert (map_range (∅ : gmap string (list string)) = []) as ->.
  { apply Permutation_nil_r. by rewrite map_range_perm, map_to_list_empty. }
  simpl. by apply normalizeKeys_normal.
Qed.

(** record: the entry goes to disk before record returns without an error. *)
Definition record `{Crypto} (key chain : string) (tx : MsgTx) (value fee now : Z) : St logState unit :=
  l ← getLog;
  _ ← putLog (recorded l key chain tx value fee now);
  log_write.

(** learnSigned writes the log only if it learned an ID. *)
Definition learnSigned `{Crypto} `{GoRuntime} (e : chainEvidence) : St logState unit :=
  l ← getLog;
  let l' := learnLog e l in
  let learned := existsb (fun '(_, a) => existsb (fun t =>
        negb (Nat.eqb (length (Signed (learnTx e t))) (length (Signed t)))) (Txs a))
      (map_range (Actions l)) in
  _ ← putLog l';
  if learned then log_write else mret tt.

(** ** The deposit registry *)

Record registryState := mkRegistry {
  r_file : result (list destination);
  r_writes : list writeOutcome;
  (** The addresses the Dogecoin node watches, and whether its next watch
      calls succeed. *)
  r_watched : list destination;
  r_watches : list bool;
}.

Definition registry_list : St registryState (list destination) := fun st => (r_file st, st).

Definition registry_has (d : destination) : St registryState bool :=
  dests ← registry_list; mret (bool_decide (d ∈ dests)).

(** add records d, reporting whether it was new. *)
Definition registry_add (d : destination) : St registryState bool := fun st =>
  match r_file st with
  | Err e => (Err e, st)
  | Ok dests =>
      if bool_decide (d ∈ dests) then (Ok false, st)
      else
        let '(o, rest) := nextWrite (r_writes st) in
        let file := if reaches_disk o then Ok (dests ++ [d]) else r_file st in
        ((_ ← writeError o; Ok true), mkRegistry file rest (r_watched st) (r_watches st))
  end.

(** dogeChain.watch(addr, false). *)
Definition watchAddress (d : destination) : St registryState unit := fun st =>
  let '(ok, rest) := match r_watches st with ok :: rest => (ok, rest) | [] => (true, []) end in
  if ok then (Ok tt, mkRegistry (r_file st) (r_writes st) (r_watched st ++ [d]) rest)
  else (Err (Errorf "importaddress failed"), mkRegistry (r_file st) (r_writes st) (r_watched st) rest).

(** registerDeposit; node says whether the Dogecoin chain is a node of ours,
    whose wallet watches addresses. *)
Definition registerDeposit `{Crypto} (b : bridge) (node : bool) (dest : destination)
    : St registryState Address :=
  let addr := AddressScriptHash (hash160Of (depositRedeemScript (signers b) dest)) in
  added ← registry_add dest;
  _ ← (if added && node then watchAddress dest else mret tt);
  mret addr.

(** ** What the registry promises *)

Lemma NoDup_snoc {A} (l : list A) x : NoDup l → x ∉ l → NoDup (l ++ [x]).
Proof.
  intros Hl Hx. apply NoDup_app. split_and!; [done| |apply NoDup_singleton].
  intros y Hy ->%list_elem_of_singleton. done.
Qed.

(** The registry only grows, holds each destination once, and has recorded
    the destination whenever registering it succeeds: whatever fails on the
    way, no registered deposit address is ever lost or listed twice. *)
Theorem registerDeposit_keeps {CR : Crypto} b node d st r st' dests :
  r_file st = Ok dests → NoDup dests →
  registerDeposit b node d st = (r, st') →
  ∃ dests', r_file st' = Ok dests' ∧ NoDup dests' ∧ dests `prefix_of` dests' ∧
    (∀ x, x ∈ dests' → x ∈ dests ∨ x = d) ∧
    (is_ok r = true → d ∈ dests').
Proof.
  intros Hf Hnd. unfold registerDeposit, mbind, st_bind.
  destruct (registry_add d st) as [ra s1] eqn:Ea.
  assert (Hs : ∃ dests', r_file s1 = Ok dests' ∧ NoDup dests' ∧ dests `prefix_of` dests' ∧
    (∀ x, x ∈ dests' → x ∈ dests ∨ x = d) ∧ (is_ok ra = true → d ∈ dests')).
  { unfold registry_add in Ea. rewrite Hf in Ea.
    case_bool_decide as Hd; [injection Ea as <- <-; exists dests; by eauto 8|].
    destruct (nextWrite (r_writes st)) as [[] rest]; injection Ea as <- <-; simpl.
    - exists (dests ++ [d]). split_and!; [done|by apply NoDup_snoc|by eexists| |].
      { intros x [?|?%list_elem_of_singleton]%elem_of_app; by auto. }
      intros _. apply elem_of_app. right. by left.
    - exists dests. split_and!; [done..|by auto|done].
    - exists (dests ++ [d]). split_and!; [done|by apply NoDup_snoc|by eexists| |].
      { intros x [?|?%list_elem_of_singleton]%elem_of_app; by auto. }
      intros _. apply elem_of_app. right. by left. }
  destruct Hs as (dests' & Hf' & Hnd' & Hp & Hsub & Hin).
  destruct ra as [added|e]; [|intros [= <- <-]; exists dests'; by split_and!].
  destruct (added && node); simpl.
  - unfold watchAddress. destruct (match r_watches s1 with ok :: rest => _ | [] => _ end) as [ok rest].
    destruct ok; intros [= <- <-]; exists dests'; by split_and!.
  - intros [= <- <-]; exists dests'; by split_and!.
Qed.

(** A destination whose watch call failed is registered all the same: asked
    again, registerDeposit reports success and watches nothing. *)
Lemma registered_unwatched {CR : Crypto} b d :
  let st := mkRegistry (Ok []) [] [] [false] in
  let '(r1, st1) := registerDeposit b true d st in
  let '(r2, st2) := registerDeposit b true d st1 in
  is_ok r1 = false ∧ is_ok r2 = true ∧ r_file st2 = Ok [d] ∧ r_watched st2 = [].
Proof.
  assert (E1 : bool_decide (d ∈ []) = false) by (apply bool_decide_eq_false_2; by intros ?%elem_of_nil).
  assert (E2 : bool_decide (d ∈ [] ++ [d]) = true) by (apply bool_decide_eq_true_2; by left).
  unfold registerDeposit, registry_add, mbind, st_bind.
  cbn [r_file r_writes nextWrite]. rewrite E1. cbn -[bool_decide app].
  rewrite E2. done.
Qed.

Module Samples.
#[local] Existing Instance toyCrypto.

Lemma registerDeposit_keeps_witness :
  ∃ dests', r_file (registerDeposit sampleBridge true zeroDest (mkRegistry (Ok []) [notSynced] [] [])).2
    = Ok dests' ∧ NoDup dests'.
Proof.
  destruct (registerDeposit sampleBridge true zeroDest (mkRegistry (Ok []) [notSynced] [] [])) as [r st'] eqn:E.
  destruct (registerDeposit_keeps sampleBridge true zeroDest (mkRegistry (Ok []) [notSynced] [] []) r st' []
    eq_refl (NoDup_nil_2) E) as (dests' & Hf & Hn & _).
  exists dests'. split; [exact Hf|exact Hn].
Defined.
End Samples.
