(* ===== verification/Cutover.v ===== *)
(** The cutover (src/cmd/dogevm/cutover.go, fence.go): what it records, when
    a coin is cleared, how it ends, the fences that clear it, and the budget
    their fees come from. *)

From Stdlib Require Import Ascii String.
From S2P Require Import Prelude Text Wire Runtime Script Tags Amount Peg Lineage State Build SigningLog Registry.

Definition tagFence : bytes := bytes_of "DVMZ".

Definition encodeFence (anchor : OutPoint) : bytes := encodeOutPointTag tagFence anchor.

Definition parseFence (tx : MsgTx) : option OutPoint := parseOutPointTag tx tagFence.

Definition maxFenceInputs (chain : string) : nat :=
  if bool_decide (chain = chainDogecoin) then 100 else 400.

Definition maxFenceBytes : Z := 90000.

(** ** Time

    Times are nanoseconds; Unix() is the second they fall in. *)

Definition second : Z := 1000000000.
Definition unix (now : Z) : Z := now / second.

(** ** Sizes and fees *)

Definition varIntLen (n : Z) : Z := if n <? 253 then 1 else if n <=? 65535 then 3 else 5.

Definition pushLen (n : Z) : Z := if n <? 76 then 1 else if n <=? 255 then 2 else 3.

Definition fenceInputSize (required : Z) (redeem : bytes) : Z :=
  let script := 1 + required * (1 + 73) + pushLen (Z.of_nat (length redeem)) + Z.of_nat (length redeem) in
  36 + varIntLen script + script + 4.

(** A fence's size in bytes once signed. *)
Definition fenceSize (redeems : list bytes) (required : Z) : Z :=
  foldl (fun size redeem => size + fenceInputSize required redeem)
    (4 + varIntLen (Z.of_nat (length redeems)) + 1 + 4) redeems
  + (8 + 1 + 23) + (8 + 1 + 2 + 4 + 36).

Definition fenceFee (chain : string) (base size : Z) : Z :=
  if bool_decide (chain = chainDogecoinVM) then Z.max base (((size [*] base) [+] 249) ÷ 250)
  else base [*] Z.max 1 ((size [+] 9999) ÷ 10000).

Section cutover.
Context `{Crypto} `{GoRuntime}.

(** ** One chain as a cutover reads it *)

Record chainView := mkView {
  cv_txs : list chainTx;
  cv_conflicted : list chainTx;
  cv_depth : Z;
  cv_isCoin : TxOut → bool;
  cv_spentAt : gmap OutPoint Z;
  cv_conflictDepth : gmap bytes Z;
  cv_funding : gmap bytes chainTx;
}.

Definition spentAtOf (txs : list chainTx) : gmap OutPoint Z :=
  foldl (fun m t =>
      if ct_confirmations t <=? 0 then m
      else foldl (fun m ti =>
          <[PreviousOutPoint ti := Z.max (default 0 (m !! PreviousOutPoint ti)) (ct_confirmations t)]> m)
        m (txIn (ct_tx t))) ∅ txs.

Definition fundingOf (txs conflicted : list chainTx) : gmap bytes chainTx :=
  foldl (fun m t => <[TxHash (ct_tx t) := t]> m) ∅ (txs ++ conflicted).

Definition conflictDepthOf (conflicted : list chainTx) : gmap bytes Z :=
  foldl (fun m t =>
      let hash := TxHash (ct_tx t) in
      <[hash := Z.max (default 0 (m !! hash)) (- ct_confirmations t)]> m) ∅ conflicted.

Definition view (s : pegState) (chain : string) : chainView :=
  let vm := bool_decide (chain = chainDogecoinVM) in
  let txs := if vm then vmTxs s else dogeTxs s in
  let conflicted := if vm then [] else default [] (dogeConflicted s) in
  mkView txs conflicted
    (if vm then 1 else Z.max (l_rootDepth (pegLine s)) 1)
    (fun out => if vm then bool_decide (PkScript out = l_script (reserveLine s))
                else has (redeemFor s) (PkScript out))
    (spentAtOf txs) (conflictDepthOf conflicted) (fundingOf txs conflicted).

Definition spentAt (v : chainView) (op : OutPoint) : Z := default 0 (cv_spentAt v !! op).
Definition conflictDepth (v : chainView) (h : bytes) : Z := default 0 (cv_conflictDepth v !! h).

(** op can no longer be spent by a signature given before. *)
Definition cleared (v : chainView) (op : OutPoint) : bool :=
  (cv_depth v <=? spentAt v op) || (cv_depth v <=? conflictDepth v (Hash op)).

(** ** What a cutover records *)

Fixpoint coinOuts (v : chainView) (hash : bytes) (i : Z) (outs : list TxOut) : list OutPoint :=
  match outs with
  | [] => []
  | out :: outs =>
      let op := mkOutPoint hash (uint32 i) in
      (if cv_isCoin v out && negb (cleared v op) then [op] else []) ++ coinOuts v hash (i + 1) outs
  end.

(** The set's coins the chain's history shows, not yet cleared. *)
Definition chainCoins (s : pegState) (chain : string) : gset OutPoint :=
  let v := view s chain in
  list_to_set ((cv_txs v ++ cv_conflicted v) ≫= fun t =>
    if bool_decide (chain = chainDogecoinVM) && (ct_confirmations t <=? 0) then []
    else coinOuts v (TxHash (ct_tx t)) 0 (txOut (ct_tx t))).

(** The chain an input of a logged transaction is on. *)
Definition inputChain (s : pegState) (t : loggedTx) (op : OutPoint) : string :=
  if negb (bool_decide (lt_Chain t = EmptyString)) then lt_Chain t
  else default EmptyString (head (filter (fun c => is_Some (cv_funding (view s c) !! Hash op)) cutoverChains)).

(** Every input of every transaction in the log. *)
Definition loggedInputs (l : signingLog) : list (loggedTx * string) :=
  map_range (Actions l) ≫= fun '(_, a) => Txs a ≫= fun t => (fun raw => (t, raw)) <$> Inputs t.

(** One of them: added to its chain's coins unless cleared. *)
Definition addLoggedInput (s : pegState) (r : result (gmap string (gset OutPoint)))
    (input : loggedTx * string) : result (gmap string (gset OutPoint)) :=
  let '(t, raw) := input in
  coins ← r;
  op ← parseOutPoint raw;
  let chain := inputChain s t op in
  _ ← ensure (bool_decide (chain ∈ cutoverChains))
        (Errorf "the log's transaction is in neither chain's history");
  _ ← ensure (has (cv_funding (view s chain)) (Hash op))
        (Errorf "the log's transaction isn't in the chain's history");
  if cleared (view s chain) op then Ok coins
  else Ok (<[chain := {[op]} ∪ default ∅ (coins !! chain)]> coins).

Definition sortedCoins (coins : gmap string (gset OutPoint)) : gmap string (list string) :=
  (fun ops : gset OutPoint => sortStrings (OutPoint_String <$> elements ops)) <$> coins.

Definition cutoverCoins (s : pegState) (l : signingLog) : result (gmap string (list string)) :=
  let start : gmap string (gset OutPoint) :=
    list_to_map ((fun c => (c, chainCoins s c)) <$> cutoverChains) in
  coins ← foldl (addLoggedInput s) (Ok start) (loggedInputs l);
  Ok (sortedCoins coins).

(** ** Its course *)

Definition indexOf (set : signerSet) (pub : bytes) : Z :=
  match list_find (eq pub) (pubKeys set) with Some (i, _) => Z.of_nat i | None => -1 end.

Definition unproven (l : signingLog) : bool :=
  bool_decide (History l = EmptyString) || negb (bool_decide (Cutover l = ∅)).

Definition startedLog (l : signingLog) (coins : gmap string (list string)) (now : Z) : signingLog :=
  mkLog (Actions l) (Anchors l) (History l)
    (foldl (fun m chain =>
        <[chain := sortedSet (default [] (Cutover l !! chain) ++ default [] (coins !! chain))]> m)
      (Cutover l) cutoverChains)
    (CutoverEpoch l + 1) (unix now) (FenceBudget l) (FenceCapital l).

Definition startCutover (set : signerSet) (pub : bytes) (now : Z) (s : pegState) : St logState unit :=
  l ← getLog;
  _ ← st_ensure (0 <=? indexOf set pub) (Errorf "this key is not in the signer set");
  _ ← st_ensure (bool_decide (History l = EmptyString))
        (Errorf "a later cutover isn't supported by this release");
  coins ← st_lift (cutoverCoins s l);
  _ ← putLog (startedLog l coins now);
  log_write.

Definition leftCoin (s : pegState) (chain raw : string) : bool :=
  match parseOutPoint raw with Ok op => negb (cleared (view s chain) op) | Err _ => true end.

Definition pendingCoin (s : pegState) (chain raw : string) : bool :=
  match parseOutPoint raw with
  | Ok op => (spentAt (view s chain) op =? 0) && negb (cleared (view s chain) op)
  | Err _ => true
  end.

Definition coinsIf (p : string → string → bool) (l : signingLog) : gmap string (list string) :=
  filter (fun kv => kv.2 ≠ [])
    (map_imap (fun chain coins => Some (filter (fun raw => p chain raw = true) coins)) (Cutover l)).

(** The recorded coins not yet cleared, per chain that has any. *)
Definition cutoverLeft (l : signingLog) (s : pegState) : gmap string (list string) :=
  coinsIf (leftCoin s) l.

(** The recorded coins no confirmed transaction spends at all. *)
Definition cutoverPending (l : signingLog) (s : pegState) : gmap string (list string) :=
  coinsIf (pendingCoin s) l.

(** The tip of each chain's line; a chain whose line has no root is left out. *)
Definition tips (s : pegState) : result (gmap string string) :=
  foldl (fun r '(chain, line) =>
      out ← r;
      match tip line with
      | (_, Some e) => Err e
      | (t, None) => if t_ok t then Ok (<[chain := OutPoint_String (t_tip t)]> out) else Ok out
      end) (Ok ∅)
    (map_range (<[chainDogecoin := pegLine s]> {[chainDogecoinVM := reserveLine s]} : gmap string lineage)).

Definition setHistory (l : signingLog) (h : string) : signingLog :=
  mkLog (Actions l) (Anchors l) h (Cutover l) (CutoverEpoch l) (CutoverStarted l)
    (FenceBudget l) (FenceCapital l).

(** The chains whose coins are all cleared leave the cutover. *)
Definition keepLeft (l : signingLog) (s : pegState) : gmap string (list string) :=
  filter (fun kv => default [] (cutoverLeft l s !! kv.1) ≠ []) (Cutover l).

(** The cutover over on both chains: the log is fenced, its anchors the tips. *)
Definition fencedLog (l : signingLog) : signingLog := setHistory (setCutover l ∅) historyFenced.

Definition finishCutover (l : signingLog) (s : pegState) : St logState unit :=
  _ ← putLog (fencedLog l);
  t ← st_lift (tips s);
  putLog (setAnchors (fencedLog l) (t ∪ Anchors l)).

(** advanceCutover once a cutover has started. *)
Definition endCutover (s : pegState) : St logState bool :=
  l ← getLog;
  if bool_decide (Cutover l = ∅) then mret false
  else
    let rest := keepLeft l s in
    if bool_decide (rest = Cutover l) then mret false
    else
      _ ← (if bool_decide (rest = ∅) then finishCutover l s else putLog (setCutover l rest));
      _ ← log_write;
      mret true.

Definition advanceCutover (set : signerSet) (pub : bytes) (now : Z) (s : pegState) : St logState bool :=
  l ← getLog;
  if bool_decide (History l = EmptyString) && bool_decide (Cutover l = ∅) then
    if indexOf set pub <? 0 then mret false
    else _ ← startCutover set pub now s; endCutover s
  else endCutover s.

Definition cutoverGate (set : signerSet) (pub : bytes) (now : Z) (s : pegState) : St logState unit :=
  _ ← advanceCutover set pub now s;
  l ← getLog;
  st_ensure (negb (unproven l)) (Errorf "this signer is in a cutover").

(** ** Fences on a chain *)

(** The value of output op on chain, from the history in s. *)
Definition coinValue (s : pegState) (chain : string) (op : OutPoint) : option Z :=
  t ← cv_funding (view s chain) !! Hash op;
  out ← txOut (ct_tx t) !! Z.to_nat (Index op);
  Some (Value out).

(** What a fence pays; -1 if an input is unknown. *)
Definition fenceFeeOf (s : pegState) (chain : string) (tx : MsgTx) : Z :=
  match mapM (coinValue s chain) (prevOuts tx) with
  | None => -1
  | Some values =>
      foldl (fun rest out => rest [-] Value out) (sum64 values) (txOut tx)
  end.

Definition isFenceOf (t : chainTx) (recorded : gset OutPoint) : bool :=
  bool_decide (is_Some (parseFence (ct_tx t))) &&
  existsb (fun ti => bool_decide (PreviousOutPoint ti ∈ recorded)) (txIn (ct_tx t)).

(** The pending fence paying most, and whether one is in a block short of depth. *)
Definition fenceState (s : pegState) (chain : string) (recorded : gset OutPoint) : option chainTx * bool :=
  let v := view s chain in
  foldl (fun '(pending, shallow) t =>
      if negb (isFenceOf t recorded) then (pending, shallow)
      else if ct_confirmations t =? 0 then
        (match pending with
         | None => Some t
         | Some p => if fenceFeeOf s chain (ct_tx p) <? fenceFeeOf s chain (ct_tx t) then Some t else pending
         end, shallow)
      else (pending, shallow || (ct_confirmations t <? cv_depth v)))
    (None, false) (cv_txs v).

Definition setFence (v : chainView) (t : chainTx) : bool :=
  bool_decide (is_Some (parseFence (ct_tx t))) &&
  existsb (fun ti =>
      match cv_funding v !! Hash (PreviousOutPoint ti) with
      | Some f => match txOut (ct_tx f) !! Z.to_nat (Index (PreviousOutPoint ti)) with
                  | Some out => cv_isCoin v out
                  | None => false
                  end
      | None => false
      end) (txIn (ct_tx t)).

(** A Dogecoin fence of the set not yet settled. *)
Definition unsettledDogeFence (s : pegState) : option chainTx :=
  let v := view s chainDogecoin in
  head (filter (fun t => ((ct_confirmations t <? cv_depth v) && setFence v t) = true) (cv_txs v) ++
        filter (fun t => ((- ct_confirmations t <? cv_depth v) && setFence v t) = true) (cv_conflicted v)).

Definition waitForDogeFence (s : pegState) : result unit :=
  ensure (bool_decide (unsettledDogeFence s = None)) (Errorf "a Dogecoin fence isn't settled").

(** What every surplus spend other than a Dogecoin fence must pass. *)
Definition surplusSpendWait (l : signingLog) (s : pegState) : result unit :=
  _ ← ensure (bool_decide (default [] (cutoverLeft l s !! chainDogecoin) = []))
        (Errorf "this signer's Dogecoin cutover still has coins to clear");
  waitForDogeFence s.

(** ** What a fence spends *)

Definition recordedSet (coins : list string) : gset OutPoint :=
  list_to_set (omap (fun raw => match parseOutPoint raw with Ok op => Some op | Err _ => None end) coins).

Definition spendsRecorded (inputs : list utxo) (recorded : gset OutPoint) : bool :=
  existsb (fun u => bool_decide (u_outPoint u ∈ recorded)) inputs.

Definition notFence (t : chainTx) : bool := bool_decide (parseFence (ct_tx t) = None).

(** Every coin fences on chain will spend, in order. *)
Definition fenceOrder (s : pegState) (chain : string) : result (list utxo) :=
  '(anchor, free) ←
    (if bool_decide (chain = chainDogecoin) then
       _ ← ensure (negb (existsb (fun kt => notFence kt.2) (map_range (unconfirmed s))))
             (Errorf "a Dogecoin transaction of the peg is pending");
       Ok (pegAnchor s, filter (fun u => 0 < u_confirmations u) (lockedUTXOs s))
     else if bool_decide (chain = chainDogecoinVM) then
       _ ← ensure (negb (existsb (fun kt => notFence kt.2) (map_range (vmUnconfirmed s))))
             (Errorf "a DogecoinVM transaction of the reserve is pending");
       Ok (reserveAnchor s, reserveUTXOs s)
     else Err (Errorf "unknown chain"));
  let anchor := match anchor with
    | Some a => if containsOutPoint free (u_outPoint a) then Some a else None
    | None => None
    end in
  let rest := match anchor with
    | Some a => filter (fun u => u_outPoint u ≠ u_outPoint a) free
    | None => free
    end in
  Ok (option_list anchor ++ sort_slice olderCoin rest).

Definition fenceInputs (s : pegState) (chain : string) (recorded : gset OutPoint) : result (list utxo) :=
  inputs ← fenceOrder s chain;
  let inputs := take (maxFenceInputs chain) inputs in
  _ ← ensure (spendsRecorded inputs recorded) (Errorf "no recorded coin is left for a fence to spend");
  Ok inputs.

Definition fenceBase (b : bridge) (chain : string) : Z :=
  if bool_decide (chain = chainDogecoin) then dogeFee b else vmFee b.

Definition buildFence (b : bridge) (chain : string) (inputs : list utxo) (fee : Z) : result MsgTx :=
  match inputs with
  | [] => Err (Errorf "nothing to fence")
  | first :: _ =>
      let doge := bool_decide (chain = chainDogecoin) in
      let tx := addInputs (if doge then spendReplaceable else spend)
        (NewMsgTx (if doge then 1 else TxVersion)) inputs in
      let total := sum_values inputs in
      _ ← ensure (negb (total [-] fee <? pegDust)) (Errorf "not enough for the fence's fee and the next anchor");
      let tx := AddTxOut tx (NewTxOut (total [-] fee) (signers_pkScript (signers b))) in
      data ← nullData (encodeFence (u_outPoint first));
      Ok (AddTxOut tx data)
  end.

Definition addRedeem (b : bridge) (s : pegState) (chain : string)
    (r : result (list bytes * list destination)) (u : utxo) : result (list bytes * list destination) :=
  '(redeems, register) ← r;
  if bool_decide (chain = chainDogecoinVM) then Ok (redeems ++ [redeemScript (signers b)], register)
  else
    redeem ← from_option_err (redeemFor s !! u_pkScript u) (Errorf "no redeem script for peg output");
    Ok (redeems ++ [redeem], register ++ option_list (depositDest s !! u_pkScript u)).

(** The redeem script of each input, and the personal addresses among them. *)
Definition fenceRedeems (b : bridge) (s : pegState) (chain : string) (inputs : list utxo)
    : result (list bytes * list destination) := foldl (addRedeem b s chain) (Ok ([], [])) inputs.

Definition fenceSizeOf (b : bridge) (s : pegState) (chain : string) (inputs : list utxo) : result Z :=
  '(redeems, _) ← fenceRedeems b s chain inputs;
  Ok (fenceSize redeems (Required (signers b))).

(** How many inputs the next round keeps. *)
Definition trimTo (len size : Z) : Z := Z.max 1 (Z.min ((len * maxFenceBytes) ÷ size) (len - 1)).

(** [for len(inputs) > 1]; each round drops an input, so there are no more
    rounds than inputs. *)
Fixpoint trimLoop (fuel : nat) (b : bridge) (s : pegState) (chain : string) (inputs : list utxo)
    : result (list utxo) :=
  match fuel with
  | O => Ok inputs
  | S fuel =>
      if Nat.leb (length inputs) 1 then Ok inputs
      else
        size ← fenceSizeOf b s chain inputs;
        if size <=? maxFenceBytes then Ok inputs
        else trimLoop fuel b s chain (take (Z.to_nat (trimTo (Z.of_nat (length inputs)) size)) inputs)
  end.

Definition trimToSize (b : bridge) (s : pegState) (chain : string) (inputs : list utxo)
    : result (list utxo) := trimLoop (length inputs) b s chain inputs.

(** The fence a cutover recording recorded calls for now. *)
Definition nextFence (b : bridge) (now : Z) (s : pegState) (chain : string) (recorded : gset OutPoint)
    (bumpAfter : Z) : result (MsgTx * list utxo * Z) :=
  let '(pending, shallow) := fenceState s chain recorded in
  let base := fenceBase b chain in
  match pending with
  | Some p =>
      _ ← ensure (bool_decide (chain = chainDogecoin)) (Errorf "a fence is waiting for a block");
      _ ← ensure (negb (bumpAfter <=? 0)) (Errorf "a fence is unconfirmed, and replacements are off");
      _ ← ensure (negb (now - ct_time p * second <? bumpAfter)) (Errorf "a fence has not waited long enough");
      inputs ← from_option_err (mapM (fun op => pendingCoins s !! op) (prevOuts (ct_tx p)))
        (Errorf "the pending fence spends a coin that isn't a confirmed peg coin");
      size ← fenceSizeOf b s chain inputs;
      let fee := fenceFeeOf s chain (ct_tx p) [+] fenceFee chain base size in
      tx ← buildFence b chain inputs fee;
      Ok (tx, inputs, fee)
  | None =>
      _ ← ensure (negb shallow) (Errorf "a fence is in a block and not yet deep enough");
      inputs ← fenceInputs s chain recorded;
      inputs ← trimToSize b s chain inputs;
      _ ← ensure (spendsRecorded inputs recorded) (Errorf "the next fence spends none of the recorded coins");
      size ← fenceSizeOf b s chain inputs;
      let fee := fenceFee chain base size in
      tx ← buildFence b chain inputs fee;
      Ok (tx, inputs, fee)
  end.

(** A signer's check of a fence proposal: the transaction its own view calls
    for, its redeem scripts and its fee. *)
Definition checkFence (b : bridge) (now : Z) (l : signingLog) (s : pegState) (chain : string)
    : result (MsgTx * list bytes * Z) :=
  coins ← from_option_err (Cutover l !! chain) (Errorf "this signer is in no cutover on the chain");
  '(want, inputs, fee) ← nextFence b now s chain (recordedSet coins) (fenceBumpAfter b);
  '(redeems, _) ← fenceRedeems b s chain inputs;
  Ok (want, redeems, fee).

(** ** The fence budget *)

Definition isFeeKey (k : string) : bool :=
  String.prefix (actionFence +:+ ":") k || String.prefix (actionCancel +:+ ":") k.

Definition mostFee (a : loggedAction) : Z := foldl (fun most t => Z.max most (Fee t)) 0 (Txs a).

(** The surplus fees the log ever signed, with fee added to action key. *)
Definition fenceFees (l : signingLog) (key : string) (fee : Z) : Z :=
  let '(total, seen) := foldl (fun '(total, seen) '(k, a) =>
      if negb (isFeeKey k) then (total, seen)
      else if bool_decide (k = key) then (total [+] Z.max (mostFee a) fee, true)
      else (total [+] mostFee a, seen)) (0, false) (map_range (Actions l)) in
  if seen then total else total [+] fee.

Definition setBudget (l : signingLog) (budget : Z) (capital : list string) : signingLog :=
  mkLog (Actions l) (Anchors l) (History l) (Cutover l) (CutoverEpoch l) (CutoverStarted l)
    budget capital.

(** The first time: the share of the surplus in deep coins, the deep
    contributions counted in it. *)
Definition firstBudget (s : pegState) (share : Z) (l : signingLog) : signingLog :=
  let deep := l_rootDepth (pegLine s) in
  let surplus := foldl (fun surplus u =>
      if (0 <? u_confirmations u) && (u_confirmations u <? deep) then surplus [-] u_value u else surplus)
    (Surplus (audit s)) (contributions s) in
  setBudget l (Z.max surplus 0 ÷ share)
    (FenceCapital l ++ (OutPoint_String <$> (u_outPoint <$>
       filter (fun u => (deep <=? u_confirmations u) = true) (contributions s)))).

Definition addContribution (deep share : Z) (acc : signingLog * bool) (u : utxo) : signingLog * bool :=
  let '(l, changed) := acc in
  let op := OutPoint_String (u_outPoint u) in
  if contains (FenceCapital l) op || (u_confirmations u <? deep) then (l, changed)
  else (setBudget l (FenceBudget l [+] (u_value u ÷ share)) (FenceCapital l ++ [op]), true).

(** The log with the share of every contribution become deep, and whether it
    changed. *)
Definition addFenceCapital (s : pegState) (share : Z) (l : signingLog) : signingLog * bool :=
  let first := (FenceBudget l =? 0) && bool_decide (FenceCapital l = []) in
  let l := if first then firstBudget s share l else l in
  foldl (addContribution (l_rootDepth (pegLine s)) share) (l, first) (contributions s).

Definition shareOf (set : signerSet) : Z :=
  Z.max 1 (Z.of_nat (length (pubKeys set)) - Required set + 1).

Definition cutoverBudgetRoom (set : signerSet) (s : pegState) (key : string) (fee : Z) : St logState unit :=
  l ← getLog;
  if CutoverEpoch l =? 0 then mret tt
  else
    let '(l', changed) := addFenceCapital s (shareOf set) l in
    _ ← putLog l';
    _ ← (if changed then log_write else mret tt);
    st_ensure (negb (FenceBudget l' <? fenceFees l' key fee)) (Errorf "fences would cost more than the budget").
End cutover.

(** ** A cutover ends only when every coin is cleared *)

Section clears.
Context {CR : Crypto} {COK : CryptoOk} {RT : GoRuntime} {ROK : GoRuntimeOk}.

Lemma sortedSet_elem l x : x ∈ sortedSet l ↔ x ∈ l.
Proof.
  unfold sortedSet, sortStrings. rewrite sort_slice_perm, map_range_perm, list_elem_of_fmap. split.
  - intros ([y []] & -> & Hy). apply elem_of_map_to_list, elem_of_list_to_map_2 in Hy.
    apply list_elem_of_fmap in Hy as (? & [= ->] & ?). done.
  - intros Hx. exists (x, tt). split; [done|]. apply elem_of_map_to_list.
    destruct (list_to_map ((fun s => (s, tt)) <$> l) !! x) as [[]|] eqn:E; [done|].
    apply not_elem_of_list_to_map_2 in E. destruct E. rewrite <- list_fmap_compose.
    apply list_elem_of_fmap. by exists x.
Qed.

Lemma coinsIf_lookup p l chain coins :
  coinsIf p l !! chain = Some coins ↔
  ∃ all, Cutover l !! chain = Some all ∧ coins = filter (fun raw => p chain raw = true) all ∧ coins ≠ [].
Proof.
  unfold coinsIf. rewrite map_lookup_filter_Some, map_lookup_imap. simpl.
  destruct (Cutover l !! chain) as [all|]; simpl; naive_solver.
Qed.

(** The chains with nothing left are those whose coins are all cleared. *)
Lemma keepLeft_gone l s chain coins :
  Cutover l !! chain = Some coins → keepLeft l s !! chain = None →
  ∀ raw, raw ∈ coins → ∃ op, parseOutPoint raw = Ok op ∧ cleared (view s chain) op = true.
Proof.
  intros Hc Hk raw Hraw. unfold keepLeft in Hk.
  apply map_lookup_filter_None in Hk as [Hk|Hk]; [congruence|]. specialize (Hk _ Hc). simpl in Hk.
  destruct (leftCoin s chain raw) eqn:El.
  - destruct Hk. intros E. assert (Hin : raw ∈ filter (fun raw => leftCoin s chain raw = true) coins).
    { by apply list_elem_of_filter. }
    assert (Hl : cutoverLeft l s !! chain = Some (filter (fun raw => leftCoin s chain raw = true) coins)).
    { apply coinsIf_lookup. exists coins. split_and!; [done..|]. intros E'. rewrite E' in Hin.
      by apply elem_of_nil in Hin. }
    rewrite Hl in E. simpl in E. rewrite E in Hin. by apply elem_of_nil in Hin.
  - unfold leftCoin in El. destruct (parseOutPoint raw) as [op|]; [|done].
    exists op. split; [done|]. by apply negb_false_iff.
Qed.

Lemma addLoggedInput_err s es e : foldl (addLoggedInput s) (Err e) es = Err e.
Proof. induction es as [|[t raw] es IH]; [done|]. simpl. apply IH. Qed.

(** What the loop over the log leaves: all it started with, and every logged
    input not cleared. *)
Lemma loggedInputs_spec s es coins coins' :
  foldl (addLoggedInput s) (Ok coins) es = Ok coins' →
  (∀ chain ops, coins !! chain = Some ops → ∃ ops', coins' !! chain = Some ops' ∧ ops ⊆ ops') ∧
  (∀ t raw, (t, raw) ∈ es → ∃ op, parseOutPoint raw = Ok op ∧ inputChain s t op ∈ cutoverChains ∧
     (cleared (view s (inputChain s t op)) op = true ∨
      ∃ ops', coins' !! inputChain s t op = Some ops' ∧ op ∈ ops')).
Proof.
  revert coins. induction es as [|[t raw] es IH]; intros coins Hf.
  { injection Hf as <-. split; [by eauto|]. by intros ??[]%elem_of_nil. }
  change (foldl (addLoggedInput s) (addLoggedInput s (Ok coins) (t, raw)) es = Ok coins') in Hf.
  destruct (addLoggedInput s (Ok coins) (t, raw)) as [c1|e] eqn:E1; [|by rewrite addLoggedInput_err in Hf].
  destruct (IH _ Hf) as [I1 I2]. cbn in E1.
  destruct (parseOutPoint raw) as [op|] eqn:Ep; [|done]. cbn in E1.
  apply bind_Ok in E1 as ([] & Hch%ensure_Ok & E1). apply bool_decide_eq_true in Hch.
  apply bind_Ok in E1 as ([] & _ & E1).
  destruct (cleared (view s (inputChain s t op)) op) eqn:Ecl; injection E1 as <-.
  - split; [done|]. intros t' raw' [[= -> ->]|Hin]%elem_of_cons; [|by apply I2]. exists op. by eauto.
  - assert (Hnew : ∃ ops', coins' !! inputChain s t op = Some ops' ∧
        {[op]} ∪ default ∅ (coins !! inputChain s t op) ⊆ ops').
    { apply I1. by rewrite lookup_insert_eq. }
    split.
    + intros chain ops Hc. destruct (decide (chain = inputChain s t op)) as [->|Hne].
      * destruct Hnew as (ops' & Ho & Hsub). exists ops'. split; [done|]. rewrite Hc in Hsub. set_solver.
      * apply I1. by rewrite lookup_insert_ne.
    + intros t' raw' [[= -> ->]|Hin]%elem_of_cons; [|by apply I2]. exists op. split_and!; [done..|].
      right. destruct Hnew as (ops' & Ho & Hsub). exists ops'. split; [done|set_solver].
Qed.

Lemma coinOuts_ok v hash i outs op :
  hash_ok hash → op ∈ coinOuts v hash i outs → outpoint_ok op ∧ cleared v op = false.
Proof.
  intros Hh. revert i. induction outs as [|out outs IH]; intros i; simpl; [by intros ?%elem_of_nil|].
  rewrite elem_of_app. intros [Hop|Hop]; [|by eapply IH].
  destruct (cv_isCoin v out && negb (cleared v (mkOutPoint hash (uint32 i)))) eqn:E;
    [|by apply elem_of_nil in Hop].
  apply list_elem_of_singleton in Hop as ->. apply andb_true_iff in E as [_ E%negb_true_iff].
  split; [|done]. split; [done|]. simpl. by apply Z.mod_pos_bound.
Qed.

Lemma chainCoins_ok s chain op :
  op ∈ chainCoins s chain → outpoint_ok op ∧ cleared (view s chain) op = false.
Proof.
  unfold chainCoins. rewrite elem_of_list_to_set, list_elem_of_bind. intros (t & Hop & _).
  destruct (_ && _); [by apply elem_of_nil in Hop|]. eapply coinOuts_ok; [apply TxHash_ok|done].
Qed.

Lemma startedLog_lookup l coins now chain :
  chain ∈ cutoverChains →
  Cutover (startedLog l coins now) !! chain =
  Some (sortedSet (default [] (Cutover l !! chain) ++ default [] (coins !! chain))).
Proof.
  intros Hc. unfold cutoverChains in *. simpl. apply elem_of_cons in Hc as [->|Hc].
  - rewrite lookup_insert_ne by done. apply lookup_insert_eq.
  - apply list_elem_of_singleton in Hc as ->. apply lookup_insert_eq.
Qed.

Lemma cutoverCoins_spec s l coins :
  cutoverCoins s l = Ok coins →
  (∀ chain op, chain ∈ cutoverChains → op ∈ chainCoins s chain →
     OutPoint_String op ∈ default [] (coins !! chain)) ∧
  (∀ t raw, (t, raw) ∈ loggedInputs l → ∃ op, parseOutPoint raw = Ok op ∧
     inputChain s t op ∈ cutoverChains ∧
     (cleared (view s (inputChain s t op)) op = true ∨
      OutPoint_String op ∈ default [] (coins !! inputChain s t op))).
Proof.
  unfold cutoverCoins. intros E. apply bind_Ok in E as (sets & Hf & [= <-]).
  apply loggedInputs_spec in Hf as [I1 I2].
  assert (Hin : ∀ chain ops op, sets !! chain = Some ops → op ∈ ops →
      OutPoint_String op ∈ default [] (sortedCoins sets !! chain)).
  { intros chain ops op Hs Hop. unfold sortedCoins. rewrite lookup_fmap, Hs. simpl.
    unfold sortStrings. rewrite sort_slice_perm. apply list_elem_of_fmap. exists op.
    split; [done|]. by apply elem_of_elements. }
  split.
  - intros chain op Hc Hop. destruct (I1 chain (chainCoins s chain)) as (ops & Hs & Hsub).
    + unfold cutoverChains in *. simpl. apply elem_of_cons in Hc as [->|Hc]; [apply lookup_insert_eq|].
      apply list_elem_of_singleton in Hc as ->. rewrite lookup_insert_ne by done. apply lookup_insert_eq.
    + eapply Hin; [done|set_solver].
  - intros t raw Ht. destruct (I2 t raw Ht) as (op & Hp & Hc & [Hcl|(ops & Hs & Hop)]).
    + exists op. by eauto.
    + exists op. split_and!; [done..|]. right. by eapply Hin.
Qed.

(** ** A cutover over the requests that see it through *)

Section progress.
(** The requests, in order, and the views each may decide on. *)
Context {V : Type} (seen : V → pegState → Prop).

(** A coin one of the requests found cleared. *)
Definition clearedBy (es : list V) (chain raw : string) : Prop :=
  ∃ e s op, e ∈ es ∧ seen e s ∧ parseOutPoint raw = Ok op ∧ cleared (view s chain) op = true.

Definition recordedIn (l : signingLog) (chain raw : string) : Prop := raw ∈ default [] (Cutover l !! chain).

(** Still recorded, or found cleared. *)
Definition accounted (es : list V) (l : signingLog) (chain raw : string) : Prop :=
  recordedIn l chain raw ∨ clearedBy es chain raw.

(** An input of a transaction the log holds, with the chain it names. *)
Definition loggedOn (l : signingLog) (name raw : string) : Prop :=
  ∃ t, (t, raw) ∈ loggedInputs l ∧ lt_Chain t = name.

(** A cutover of l0 that started on view s: every coin of the set the view
    shows and every input l0 holds is accounted for. *)
Record startedOn (l0 : signingLog) (s : pegState) (es : list V) (l : signingLog) : Prop := {
  started_coins chain op : chain ∈ cutoverChains → op ∈ chainCoins s chain → accounted es l chain (OutPoint_String op);
  started_inputs t raw : loggedOn l0 (lt_Chain t) raw → ∃ op, parseOutPoint raw = Ok op ∧
    inputChain s t op ∈ cutoverChains ∧ accounted es l (inputChain s t op) (OutPoint_String op) }.

Definition unstarted (l : signingLog) : Prop := History l = EmptyString ∧ Cutover l = ∅.

(** What the requests es since the log l0 was opened make sure of in l. *)
Record progressed (l0 : signingLog) (es : list V) (l : signingLog) : Prop := {
  pg_recorded chain raw : recordedIn l0 chain raw → accounted es l chain raw;
  pg_started : unstarted l0 →
    (unstarted l ∧ ∀ name raw, loggedOn l0 name raw → loggedOn l name raw) ∨
    ∃ before e after s, es = before ++ e :: after ∧ seen e s ∧ startedOn l0 s (e :: after) l }.

Lemma accounted_mono es es' l l' chain raw :
  (∀ e, e ∈ es → e ∈ es') → (recordedIn l chain raw → accounted es' l' chain raw) →
  accounted es l chain raw → accounted es' l' chain raw.
Proof. intros He Hl [Hr|(e & s & op & Hin & Hx)]; [by apply Hl|]. right. exists e, s, op. split; [by apply He|done]. Qed.

Lemma startedOn_mono l0 s es es' l l' :
  (∀ e, e ∈ es → e ∈ es') → (∀ chain raw, recordedIn l chain raw → accounted es' l' chain raw) →
  startedOn l0 s es l → startedOn l0 s es' l'.
Proof.
  intros He Hl [Hc Hi]. split.
  - intros chain op Hch Hop. eapply accounted_mono; [exact He|by apply Hl|by apply Hc].
  - intros t raw Ht. destruct (Hi t raw Ht) as (op & Hp & Hch & Ha). exists op. split_and!; [done..|].
    eapply accounted_mono; [exact He|by apply Hl|done].
Qed.

Lemma progressed_open l : progressed l [] l.
Proof. split; [by left|]. intros H. by left. Qed.

(** A request more. *)
Lemma progressed_more l0 es e l : progressed l0 es l → progressed l0 (es ++ [e]) l.
Proof.
  intros [Hr Hs]. split.
  - intros chain raw Hin. eapply accounted_mono; [|by left|by apply Hr]. set_solver.
  - intros Hu. destruct (Hs Hu) as [?|(before & e0 & after & s & -> & He & Hst)]; [by left|right].
    exists before, e0, (after ++ [e]), s. rewrite <- app_assoc. split_and!; [done..|].
    eapply startedOn_mono; [|by left|exact Hst]. set_solver.
Qed.

(** Changes that leave no recorded coin unaccounted for, to a log whose cutover
    has started. *)
Lemma progressed_cutover l0 es e s l l' :
  seen e s → ¬ unstarted l → (∀ chain raw, recordedIn l chain raw → accounted [e] l' chain raw) →
  progressed l0 (es ++ [e]) l → progressed l0 (es ++ [e]) l'.
Proof.
  intros He Hn Hl [Hr Hs].
  assert (Hl' : ∀ es', e ∈ es' → ∀ chain raw, recordedIn l chain raw → accounted es' l' chain raw).
  { intros es' Hin chain raw Hc. eapply accounted_mono; [|by left|by apply Hl]. set_solver. }
  split.
  - intros chain raw Hin. eapply accounted_mono; [|apply Hl'|by apply Hr]; set_solver.
  - intros Hu. destruct (Hs Hu) as [[? _]|(before & e0 & after & s0 & E & He0 & Hst)]; [done|right].
    exists before, e0, after, s0. split_and!; [done..|]. eapply startedOn_mono; [|apply Hl'|exact Hst]; [done|].
    apply (f_equal last) in E. rewrite last_snoc, last_app_cons in E. by apply last_Some_elem_of.
Qed.

Lemma recordedIn_empty l chain raw : Cutover l = ∅ → ¬ recordedIn l chain raw.
Proof. unfold recordedIn. intros ->. rewrite lookup_empty. apply not_elem_of_nil. Qed.

(** The request that starts the cutover. *)
Lemma progressed_start l0 es e s l coins now :
  seen e s → unstarted l → cutoverCoins s l = Ok coins →
  progressed l0 (es ++ [e]) l → progressed l0 (es ++ [e]) (startedLog l coins now).
Proof.
  intros He [Hh Hc] Hcoins [Hr Hs]. destruct (cutoverCoins_spec _ _ _ Hcoins) as [C1 C2].
  assert (Hin : ∀ chain raw, chain ∈ cutoverChains → raw ∈ default [] (coins !! chain) →
      recordedIn (startedLog l coins now) chain raw).
  { intros chain raw Hch Hraw. unfold recordedIn. rewrite startedLog_lookup by done. simpl.
    apply sortedSet_elem, elem_of_app. by right. }
  split.
  - intros chain raw Hin0. destruct (Hr chain raw Hin0) as [H0|H0]; [by apply recordedIn_empty in H0|by right].
  - intros Hu. right. destruct (Hs Hu) as [[_ Hlog]|(before & e0 & after & s0 & E & He0 & Hst)].
    + exists es, e, [], s. split_and!; [done..|]. split.
      * intros chain op Hch Hop. left. by apply Hin; [|apply C1].
      * intros t raw (t' & Ht' & Et)%Hlog. destruct (C2 _ _ Ht') as (op & Hp & Hch & Hcl). exists op.
        assert (inputChain s t' op = inputChain s t op) as Ec by (unfold inputChain; by rewrite Et).
        rewrite Ec in *. split_and!; [done..|]. destruct Hcl as [Hcl|Hcl]; [|left; by apply Hin].
        right. exists e, s, op. split_and!; [by left|done| |done].
        apply parseOutPoint_OutPoint_String. by eapply parseOutPoint_ok.
    + exists before, e0, after, s0. split_and!; [done..|]. eapply startedOn_mono; [done| |exact Hst].
      intros chain raw []%recordedIn_empty. done.
Qed.

(** The chains that are cleared leave it. *)
Lemma keepLeft_accounted e s l l' chain raw :
  seen e s → Cutover l' = keepLeft l s → recordedIn l chain raw → accounted [e] l' chain raw.
Proof.
  intros He El Hin. unfold accounted, recordedIn in *. rewrite El. destruct (Cutover l !! chain) as [coins|] eqn:Ec; [|by apply elem_of_nil in Hin].
  destruct (keepLeft l s !! chain) as [coins'|] eqn:Ek.
  - left. unfold keepLeft in Ek. apply map_lookup_filter_Some in Ek as [Ek _]. simpl in *. by simplify_eq.
  - right. destruct (keepLeft_gone l s chain coins Ec Ek raw Hin) as (op & Hp & Hcl). exists e, s, op.
    split_and!; [by left|done..].
Qed.

(** Everything else a signer does to its log. *)
Lemma progressed_other l0 es l l' :
  History l' = History l → Cutover l' = Cutover l → (∀ name raw, loggedOn l name raw → loggedOn l' name raw) →
  progressed l0 es l → progressed l0 es l'.
Proof.
  intros Eh Ec Hlog [Hr Hs].
  assert (Hin : ∀ chain raw es, recordedIn l chain raw → accounted es l' chain raw).
  { intros chain raw es' Hin. left. unfold recordedIn in *. by rewrite Ec. }
  split.
  - intros chain raw H0. eapply accounted_mono; [done| |by apply Hr]. apply Hin.
  - intros Hu. destruct (Hs Hu) as [[[H1 H2] H3]|(before & e0 & after & s0 & E & He0 & Hst)].
    + left. split; [split; congruence|]. eauto.
    + right. exists before, e0, after, s0. split_and!; [done..|]. eapply startedOn_mono; [done| |exact Hst]. eauto.
Qed.

(** In memory and on disk. *)
Definition progressedBoth (l0 : signingLog) (es : list V) (st : logState) : Prop :=
  progressed l0 es (ls_log st) ∧ progressed l0 es (ls_disk st).

Lemma log_write_progressed l0 es st :
  progressedBoth l0 es st → run log_write st (fun _ st' => progressedBoth l0 es st').
Proof.
  intros [Hl Hd]. unfold run, log_write. destruct (nextWrite _) as [o rest]. split; [done|]. simpl. by destruct (reaches_disk o).
Qed.

Lemma startCutover_progressed l0 es e set pub now s st :
  seen e s → unstarted (ls_log st) → progressedBoth l0 (es ++ [e]) st →
  run (startCutover set pub now s) st (fun r st' => progressedBoth l0 (es ++ [e]) st').
Proof.
  intros He Hu HP. unfold startCutover. apply run_bind. unfold run, getLog. cbv beta iota.
  apply run_lift_bind; [intros [] _|done]. apply run_lift_bind; [intros [] _|done]. apply run_lift_bind; [intros coins Hc|done].
  apply run_bind. unfold run, putLog. cbv beta iota. apply log_write_progressed. destruct HP as [Hl Hd].
  split; [by eapply progressed_start|done].
Qed.

Lemma endCutover_progressed l0 es e s st :
  seen e s → progressedBoth l0 (es ++ [e]) st →
  run (endCutover s) st (fun _ st' => progressedBoth l0 (es ++ [e]) st').
Proof.
  intros He HP. unfold endCutover. apply run_bind. unfold run at 1, getLog. cbv beta iota zeta.
  case_bool_decide as Ec; [done|]. case_bool_decide as Ek; [done|]. destruct HP as [Hl Hd].
  assert (Hto : ∀ l', Cutover l' = keepLeft (ls_log st) s → progressed l0 (es ++ [e]) l').
  { intros l' El. eapply progressed_cutover; [exact He|by intros []| |exact Hl]. intros chain raw. by apply (keepLeft_accounted e s). }
  apply run_bind. eapply (run_mono _ _ (fun _ st' => progressedBoth l0 (es ++ [e]) st')).
  - case_bool_decide as Er; [|split; [by apply Hto|done]]. unfold finishCutover. apply run_bind. unfold run at 1, putLog. cbv beta iota.
    apply run_lift_bind; [intros t _|intros err _]; (split; [by apply Hto|done]).
  - intros [[]|err] st1 H1; [|done]. apply run_bind. eapply run_mono; [by apply log_write_progressed|].
    by intros [[]|err] st2 H2.
Qed.

Lemma advanceCutover_progressed l0 es e set pub now s st :
  seen e s → progressedBoth l0 (es ++ [e]) st →
  run (advanceCutover set pub now s) st (fun _ st' => progressedBoth l0 (es ++ [e]) st').
Proof.
  intros He HP. unfold advanceCutover. apply run_bind. unfold run at 1, getLog. cbv beta iota.
  destruct (_ && _) eqn:Eu; [|by apply endCutover_progressed]. destruct (_ <? 0); [done|].
  apply andb_true_iff in Eu as [Eh%bool_decide_eq_true Ec%bool_decide_eq_true].
  apply run_bind. eapply run_mono; [by apply startCutover_progressed|]. intros [[]|err] st1 H1; [|done].
  by apply endCutover_progressed.
Qed.

(** A log that is proven again: nothing recorded is left. *)
Lemma progressed_proven l0 es l : unproven l = false → progressed l0 es l →
  (∀ chain raw, recordedIn l0 chain raw → clearedBy es chain raw) ∧
  (unstarted l0 → ∃ before e after s, es = before ++ e :: after ∧ seen e s ∧
     (∀ chain op, chain ∈ cutoverChains → op ∈ chainCoins s chain → clearedBy (e :: after) chain (OutPoint_String op)) ∧
     ∀ t raw, loggedOn l0 (lt_Chain t) raw → ∃ op, parseOutPoint raw = Ok op ∧ inputChain s t op ∈ cutoverChains ∧
       clearedBy (e :: after) (inputChain s t op) (OutPoint_String op)).
Proof.
  unfold unproven. intros [Hh%bool_decide_eq_false Hc%negb_false_iff%bool_decide_eq_true]%orb_false_iff [Hr Hs].
  assert (Hcl : ∀ es chain raw, accounted es l chain raw → clearedBy es chain raw).
  { intros es' chain raw [[]%recordedIn_empty|?]; done. }
  split; [eauto|]. intros Hu. destruct (Hs Hu) as [[[? _] _]|(before & e & after & s & -> & He & [S1 S2])]; [done|].
  exists before, e, after, s. split_and!; [done..|eauto|].
  intros t raw Ht. destruct (S2 t raw Ht) as (op & Hp & Hch & Ha). eauto.
Qed.
End progress.
End clears.

Section advance.
Context {CR : Crypto} {RT : GoRuntime}.

Lemma log_write_log st r st' : log_write st = (r, st') → ls_log st' = ls_log st.
Proof. unfold log_write. destruct (nextWrite (ls_writes st)). by intros [= _ <-]. Qed.

End advance.

(** When the tips cannot be read the log in memory is already a fenced one,
    with the anchors it had, though nothing was written: the next request finds
    no cutover in its way. *)
Lemma fenced_without_tips {CR : Crypto} {RT : GoRuntime} set pub now s st e :
  keepLeft (ls_log st) s = ∅ → Cutover (ls_log st) ≠ ∅ → tips s = Err e →
  let st' := mkLogState (fencedLog (ls_log st)) (ls_disk st) (ls_writes st) in
  advanceCutover set pub now s st = (Err e, st') ∧
  cutoverGate set pub now s st' = (Ok tt, st') ∧
  Anchors (ls_log st') = Anchors (ls_log st).
Proof.
  intros Hk Hc Ht st'. split_and!; [| |done].
  - unfold advanceCutover, endCutover, finishCutover, mbind, st_bind. simpl.
    rewrite (bool_decide_eq_false_2 (Cutover (ls_log st) = ∅)) by done. rewrite andb_false_r. simpl.
    rewrite Hk, (bool_decide_eq_false_2 (∅ = Cutover (ls_log st))) by (by intros E; apply Hc).
    rewrite (bool_decide_eq_true_2 (∅ = ∅)) by done. unfold st_lift. simpl. rewrite Ht, ?(bool_decide_eq_false_2 (Cutover (ls_log st) = ∅)) by done. reflexivity.
  - unfold cutoverGate, advanceCutover, endCutover, mbind, st_bind. simpl.
    rewrite (bool_decide_eq_true_2 (∅ = ∅)) by done. by simpl.
Qed.

(** ** A fence fits *)

Section sizes.
Context {CR : Crypto} {RT : GoRuntime}.

Definition redeemOf (b : bridge) (s : pegState) (chain : string) (u : utxo) : option bytes :=
  if bool_decide (chain = chainDogecoinVM) then Some (redeemScript (signers b))
  else redeemFor s !! u_pkScript u.

Lemma addRedeem_mapM b s chain us rs reg :
  match mapM (redeemOf b s chain) us with
  | Some rs' => ∃ reg', foldl (addRedeem b s chain) (Ok (rs, reg)) us = Ok (rs ++ rs', reg')
  | None => ∃ e, foldl (addRedeem b s chain) (Ok (rs, reg)) us = Err e
  end.
Proof.
  assert (Herr : ∀ us e, foldl (addRedeem b s chain) (Err e) us = Err e).
  { intros us'. induction us' as [|u' us' IH']; intros e; [done|]. apply IH'. }
  revert rs reg. induction us as [|u us IH]; intros rs reg; [exists reg; by rewrite app_nil_r|].
  change (foldl (addRedeem b s chain) (Ok (rs, reg)) (u :: us))
    with (foldl (addRedeem b s chain) (addRedeem b s chain (Ok (rs, reg)) u) us).
  assert (Hu : match redeemOf b s chain u with
    | Some rd => ∃ reg', addRedeem b s chain (Ok (rs, reg)) u = Ok (rs ++ [rd], reg')
    | None => ∃ e, addRedeem b s chain (Ok (rs, reg)) u = Err e end).
  { unfold redeemOf. cbn [addRedeem mbind result_bind]. case_bool_decide; [by eauto|].
    destruct (redeemFor s !! u_pkScript u); simpl; by eauto. }
  cbn [mapM]. destruct (redeemOf b s chain u) as [rd|].
  - destruct Hu as [reg' ->]. specialize (IH (rs ++ [rd]) reg'). simpl.
    destruct (mapM (redeemOf b s chain) us); simpl; [|done]. by rewrite <- app_assoc in IH.
  - destruct Hu as [e ->]. simpl. eexists. apply Herr.
Qed.

Lemma fenceSizeOf_mapM b s chain inputs size :
  fenceSizeOf b s chain inputs = Ok size ↔
  ∃ rs, mapM (redeemOf b s chain) inputs = Some rs ∧ size = fenceSize rs (Required (signers b)).
Proof.
  unfold fenceSizeOf, fenceRedeems. pose proof (addRedeem_mapM b s chain inputs [] []) as Hm.
  destruct (mapM (redeemOf b s chain) inputs) as [rs|].
  - destruct Hm as [reg ->]. simpl. naive_solver.
  - destruct Hm as [e ->]. simpl. naive_solver.
Qed.

(** Sizes are known of every prefix. *)
Lemma fenceSizeOf_prefix b s chain us inputs size :
  us `prefix_of` inputs → fenceSizeOf b s chain inputs = Ok size →
  ∃ size', fenceSizeOf b s chain us = Ok size'.
Proof.
  intros [more ->] (rs & Hm & _)%fenceSizeOf_mapM. apply mapM_Some in Hm.
  apply Forall2_app_inv_l in Hm as (rs1 & rs2 & H1 & _ & ->).
  exists (fenceSize rs1 (Required (signers b))). apply fenceSizeOf_mapM. exists rs1.
  split; [|done]. by apply mapM_Some.
Qed.

Lemma trimTo_bounds len size : 2 ≤ len → 1 ≤ trimTo len size ≤ len - 1.
Proof. unfold trimTo. lia. Qed.

Lemma trimLoop_spec fuel b s chain inputs size :
  (length inputs ≤ fuel)%nat → inputs ≠ [] → fenceSizeOf b s chain inputs = Ok size →
  ∃ out size', trimLoop fuel b s chain inputs = Ok out ∧ out `prefix_of` inputs ∧ out ≠ [] ∧
    fenceSizeOf b s chain out = Ok size' ∧ (size' ≤ maxFenceBytes ∨ length out = 1%nat) ∧
    (size ≤ maxFenceBytes → out = inputs).
Proof.
  revert inputs size. induction fuel as [|fuel IH]; intros inputs size Hf Hne Hs.
  { destruct inputs; [done|simpl in Hf; lia]. }
  simpl. destruct (Nat.leb_spec (length inputs) 1) as [Hl|Hl].
  { exists inputs, size. split_and!; [done..| |done]. right. destruct inputs as [|u [|]]; simpl in *; [done|done|lia]. }
  rewrite Hs. simpl. destruct (Z.leb_spec size maxFenceBytes) as [Hm|Hm].
  { exists inputs, size. split_and!; [done..|by left|done]. }
  pose proof (trimTo_bounds (Z.of_nat (length inputs)) size ltac:(lia)) as Hb.
  set (n := Z.to_nat (trimTo (Z.of_nat (length inputs)) size)).
  destruct (fenceSizeOf_prefix b s chain (take n inputs) inputs size) as [size1 Hs1]; [|done|].
  { apply prefix_take. }
  destruct (IH (take n inputs) size1) as (out & size' & Ho & Hp & Hn & Hs' & Hsz & _).
  - rewrite length_take. lia.
  - intros E. apply (f_equal length) in E. rewrite length_take in E. simpl in E. lia.
  - done.
  - exists out, size'. split_and!; [done| |done..|lia]. etrans; [done|]. apply prefix_take.
Qed.
End sizes.

(** Trimming a fence always ends and always leaves one that relays: of
    coins whose redeem scripts are known it keeps a prefix (the anchor, first,
    always stays) whose signed size is within maxFenceBytes, unless one input
    alone is larger; a fence that already fits is left as it is. *)
Theorem trimToSize_fits {CR : Crypto} {RT : GoRuntime} b s chain inputs size :
  inputs ≠ [] → fenceSizeOf b s chain inputs = Ok size →
  ∃ out size', trimToSize b s chain inputs = Ok out ∧ out `prefix_of` inputs ∧ out ≠ [] ∧
    fenceSizeOf b s chain out = Ok size' ∧ (size' ≤ maxFenceBytes ∨ length out = 1%nat) ∧
    (size ≤ maxFenceBytes → out = inputs).
Proof. intros Hne Hs. by apply trimLoop_spec. Qed.

(** ** A fence of two coins *)

Module Samples.
#[local] Existing Instance toyCrypto.
#[local] Existing Instance toyCrypto_ok.
#[local] Existing Instance goRuntime.
#[local] Existing Instance goRuntime_ok.

Definition op0 : OutPoint := mkOutPoint (replicate 32 1) 0.
Definition spender : MsgTx := mkMsgTx 1 [NewTxIn op0 [] []] [mkTxOut 5 [1]] 0.
Definition cleanState : pegState :=
  sampleHistory (sampleState None None [] []) emptyLine [] [mkChainTx spender 60 0] [] ∅.
Definition twoCoins : list utxo := [mkUtxo op0 (3 * koinuPerDoge) [1] 9; mkUtxo sampleOp (4 * koinuPerDoge) [1] 8].

Lemma trimToSize_fits_witness :
  ∃ out size', trimToSize sampleBridge cleanState chainDogecoinVM twoCoins = Ok out ∧
    fenceSizeOf sampleBridge cleanState chainDogecoinVM out = Ok size'.
Proof.
  destruct (trimToSize_fits sampleBridge cleanState chainDogecoinVM twoCoins
    (fenceSize [redeemScript sampleSigners; redeemScript sampleSigners] 2))
    as (out & size' & Ho & _ & _ & Hs & _).
  - discriminate.
  - vm_compute. reflexivity.
  - exists out, size'. split; [exact Ho|exact Hs].
Defined.
End Samples.
