(* ===== verification/Fence.v ===== *)
(** The fence a cutover sends: what it pays, how large it is once signed, and
    what its fees can add up to (src/cmd/dogevm/cutover.go). *)

From Stdlib Require Import Ascii String.
From S2P Require Import Prelude Text Wire Runtime Script Tags Amount Peg Lineage State Build SigningLog Registry Cutover.

Section fences.
Context {CR : Crypto} {COK : CryptoOk} {RT : GoRuntime}.

Definition tagScript (op : OutPoint) : bytes := OP_RETURN :: 40 :: encodeFence op.

Lemma encodeFence_length op : outpoint_ok op → length (encodeFence op) = 40%nat.
Proof.
  intros [[Hh _] _]. unfold encodeFence, encodeOutPointTag.
  rewrite !length_app, le_bytes_length, Hh. done.
Qed.

Lemma nullData_fence op : outpoint_ok op → nullData (encodeFence op) = Ok (NewTxOut 0 (tagScript op)).
Proof.
  intros Hop. unfold nullData. rewrite NullDataScript_plain by (by apply outpoint_tag_plain).
  unfold tagScript. by rewrite encodeFence_length.
Qed.

(** The transaction buildFence makes. *)
Definition fenceTx (b : bridge) (chain : string) (first : utxo) (inputs : list utxo) (pays : Z) : MsgTx :=
  let doge := bool_decide (chain = chainDogecoin) in
  mkMsgTx 1 ((if doge then spendReplaceable else spend) <$> inputs)
    [mkTxOut pays (signers_pkScript (signers b)); mkTxOut 0 (tagScript (u_outPoint first))] 0.

Lemma buildFence_shape b chain first rest fee :
  outpoint_ok (u_outPoint first) → coins_ok (first :: rest) → 0 ≤ fee < two63 →
  let pays := total_of (first :: rest) - fee in
  buildFence b chain (first :: rest) fee =
  if pays <? pegDust then Err (Errorf "not enough for the fence's fee and the next anchor")
  else Ok (fenceTx b chain first (first :: rest) pays).
Proof.
  intros Hop Hc Hfee. unfold buildFence. rewrite sum_values_exact by done.
  destruct Hc as [Hn Hs]. fold (total_of (first :: rest)) in Hs. pose proof (total_of_nonneg _ Hn) as Ht.
  rewrite wrap64_small by i64. rewrite addInputs_fields.
  destruct (total_of (first :: rest) - fee <? pegDust); [done|].
  cbn [negb ensure mbind result_bind]. rewrite nullData_fence by done.
  unfold fenceTx, AddTxOut, NewTxOut, NewMsgTx. simpl. by case_bool_decide.
Qed.
End fences.

(** C24. A fence moves the set's coins to itself and nowhere else: it spends
    exactly the coins given, in order, the first named in its tag; everything
    less the fee goes back to the signers' script in one output of at least
    pegDust (the next anchor), and it fails exactly when that would be less. *)
Theorem fence_exact {CR : Crypto} {COK : CryptoOk} {RT : GoRuntime} b chain first rest fee r :
  outpoint_ok (u_outPoint first) → coins_ok (first :: rest) → 0 ≤ fee < two63 →
  buildFence b chain (first :: rest) fee = r →
  (is_ok r = true ↔ pegDust + fee ≤ total_of (first :: rest)) ∧
  ∀ tx, r = Ok tx →
    prevOuts tx = u_outPoint <$> first :: rest ∧
    parseFence tx = Some (u_outPoint first) ∧
    (∃ data, txOut tx = [mkTxOut (total_of (first :: rest) - fee) (signers_pkScript (signers b)); mkTxOut 0 data]) ∧
    stripSigs tx = tx.
Proof.
  intros Hop Hc Hfee <-. rewrite buildFence_shape by done.
  destruct (Z.ltb_spec (total_of (first :: rest) - fee) pegDust) as [Hd|Hd].
  { split; [|done]. simpl. split; [done|lia]. }
  split; [simpl; split; [lia|done]|]. intros tx [= <-]. split_and!.
  - unfold prevOuts, fenceTx. cbn [txIn]. rewrite <- list_fmap_compose. by case_bool_decide.
  - apply parseOutPointTag_carries; [done|done|].
    eexists [_], _, []. split_and!; [done|by apply nullData_fence|].
    apply Forall_singleton. apply signers_pkScript_not_data.
  - by eexists.
  - unfold stripSigs, fenceTx. cbn [txIn txOut Version LockTime]. f_equal. rewrite <- list_fmap_compose.
    by case_bool_decide.
Qed.

(** ** A fence's size once signed *)

Section signed_size.
Context {CR : Crypto} {COK : CryptoOk}.

Lemma WriteVarInt_length n :
  0 ≤ n < two32 → Z.of_nat (length (WriteVarInt n)) = varIntLen n.
Proof.
  unfold WriteVarInt, varIntLen, two32. intros Hn.
  destruct (n <? 253); [done|]. destruct (n <=? 65535); [by cbn [length]; rewrite le_bytes_length|].
  rewrite (proj2 (Z.leb_le n 4294967295)) by lia. cbn [length]. by rewrite le_bytes_length.
Qed.

Lemma varIntLen_mono n m : n ≤ m → varIntLen n ≤ varIntLen m.
Proof.
  unfold varIntLen. intros Hn.
  destruct (Z.ltb_spec n 253), (Z.ltb_spec m 253), (Z.leb_spec n 65535), (Z.leb_spec m 65535); lia.
Qed.

(** What a data push adds to a script, and that nothing is pushed past the
    limits. *)
Lemma AddData_length bd data :
  (2 ≤ length data)%nat → berr (AddData bd data) = None →
  berr bd = None ∧
  Z.of_nat (length (bscript (AddData bd data))) =
    Z.of_nat (length (bscript bd)) + pushLen (Z.of_nat (length data)) + Z.of_nat (length data) ∧
  Z.of_nat (length (bscript (AddData bd data))) ≤ MaxScriptSize.
Proof.
  intros Hd. unfold AddData. destruct (berr bd) as [e|] eqn:Eb; [by rewrite Eb|].
  destruct (Z.ltb_spec MaxScriptSize (Z.of_nat (length (bscript bd)) + canonicalDataSize data)) as [|Hm]; [done|].
  destruct (Z.ltb_spec MaxScriptElementSize (Z.of_nat (length data))) as [|He]; [done|]. intros _.
  split; [done|]. unfold addData; cbn [bscript]. rewrite length_app.
  assert (Hp : Z.of_nat (length (pushBytes data)) = pushLen (Z.of_nat (length data)) + Z.of_nat (length data) ∧
               canonicalDataSize data = pushLen (Z.of_nat (length data)) + Z.of_nat (length data)).
  { clear Hm. unfold pushBytes, canonicalDataSize, pushLen, OP_PUSHDATA1, MaxScriptElementSize in *.
    rewrite !(proj2 (Z.eqb_neq (Z.of_nat (length data)) _)) by lia. simpl.
    destruct (Z.ltb_spec (Z.of_nat (length data)) 76); [by simpl; lia|].
    destruct (Z.leb_spec (Z.of_nat (length data)) 255); [by simpl; lia|].
    rewrite (proj2 (Z.leb_le _ 65535)) by lia. simpl. lia. }
  lia.
Qed.

(** One signature of each chosen signer for input i, of at most 73 bytes. *)
Definition sigs_ok (signers : list nat) (sigs : gmap nat (list bytes)) (i : nat) : Prop :=
  ∀ signer sig, signer ∈ signers → lookup_sig sigs signer i = Ok sig → (2 ≤ length sig ≤ 73)%nat.

Definition sigs_full (signers : list nat) (sigs : gmap nat (list bytes)) (i : nat) : Prop :=
  ∀ signer sig, signer ∈ signers → lookup_sig sigs signer i = Ok sig → length sig = 73%nat.

Lemma push_sigs_length signers sigs i bd bd' :
  sigs_ok signers sigs i →
  foldl (fun b signer => b ← b; sig ← lookup_sig sigs signer i; Ok (AddData b sig)) (Ok bd) signers = Ok bd' →
  berr bd' = None →
  berr bd = None ∧
  Z.of_nat (length (bscript bd')) ≤ Z.of_nat (length (bscript bd)) + 74 * Z.of_nat (length signers) ∧
  (sigs_full signers sigs i →
   Z.of_nat (length (bscript bd')) = Z.of_nat (length (bscript bd)) + 74 * Z.of_nat (length signers)).
Proof.
  revert bd. induction signers as [|sg signers IH]; intros bd Hok Hf Hb.
  { injection Hf as <-. simpl. split_and!; [done|lia|lia]. }
  simpl in Hf. destruct (lookup_sig sigs sg i) as [sig|e] eqn:El.
  2: { exfalso. revert Hf. simpl. clear. induction signers as [|x l IH]; [done|apply IH]. }
  simpl in Hf. pose proof (Hok sg sig ltac:(by left) El) as Hs.
  destruct (IH (AddData bd sig)) as (B1 & B2 & B3); [|done|done|].
  { intros x y Hx. apply Hok. by right. }
  destruct (AddData_length bd sig) as (C1 & C2 & _); [lia|done|].
  assert (Hpl : pushLen (Z.of_nat (length sig)) = 1) by (unfold pushLen; by rewrite (proj2 (Z.ltb_lt _ _)) by lia).
  rewrite C2, Hpl in B2, B3. cbn [length]. split_and!; [done|lia|].
  intros Hfull. rewrite B3; [|intros x y Hx; apply Hfull; by right].
  rewrite (Hfull sg sig); [lia|by left|done].
Qed.

Definition sigScriptSize (required : Z) (redeem : bytes) : Z :=
  1 + required * (1 + 73) + pushLen (Z.of_nat (length redeem)) + Z.of_nat (length redeem).

Lemma sigScriptOf_length signers sigs i redeem script :
  sigs_ok signers sigs i → (2 ≤ length redeem)%nat →
  sigScriptOf signers sigs i redeem = Ok script →
  Z.of_nat (length script) ≤ sigScriptSize (Z.of_nat (length signers)) redeem ∧
  Z.of_nat (length script) ≤ MaxScriptSize ∧
  (sigs_full signers sigs i → Z.of_nat (length script) = sigScriptSize (Z.of_nat (length signers)) redeem).
Proof.
  intros Hok Hr. unfold sigScriptOf. intros E. apply bind_Ok in E as (bd & Hf & Hs).
  unfold Script in Hs. destruct (berr (AddData bd redeem)) eqn:Eb; [done|]. injection Hs as <-.
  destruct (AddData_length bd redeem Hr Eb) as (B1 & B2 & B3).
  unfold NewScriptBuilder in Hf. rewrite AddOp_ok in Hf by done.
  destruct (push_sigs_length _ _ _ _ _ Hok Hf B1) as (_ & C1 & C2). cbn [bscript app length] in C1, C2.
  unfold sigScriptSize. split_and!; [lia|done|]. intros Hfull. specialize (C2 Hfull). lia.
Qed.

Lemma writeTxIn_length ti :
  length (Hash (PreviousOutPoint ti)) = 32%nat → Z.of_nat (length (SignatureScript ti)) ≤ MaxScriptSize →
  Z.of_nat (length (writeTxIn ti)) =
    36 + varIntLen (Z.of_nat (length (SignatureScript ti))) + Z.of_nat (length (SignatureScript ti)) + 4.
Proof.
  intros Hh Hs. unfold writeTxIn, writeOutPoint, WriteVarBytes.
  rewrite !length_app, !le_bytes_length, Hh, !Nat2Z.inj_add, WriteVarInt_length;
    unfold MaxScriptSize, two32 in *; lia.
Qed.

Lemma assembleInputs_size signers sigs ins redeems i ins' :
  (∀ j, sigs_ok signers sigs j) → Forall (fun r : bytes => (2 ≤ length r)%nat) redeems →
  Forall (fun ti => length (Hash (PreviousOutPoint ti)) = 32%nat) ins → length redeems = length ins →
  assembleInputs signers sigs i ins redeems = Ok ins' →
  let n := Z.of_nat (length signers) in
  length ins' = length ins ∧ Forall2 (fun ti ti' => Witness ti' = Witness ti) ins ins' ∧
  Z.of_nat (length (concat (writeTxIn <$> ins'))) ≤ sumZ (fenceInputSize n <$> redeems) ∧
  ((∀ j, sigs_full signers sigs j) →
   Z.of_nat (length (concat (writeTxIn <$> ins'))) = sumZ (fenceInputSize n <$> redeems)).
Proof.
  intros Hok Hr. revert ins i ins'. induction Hr as [|redeem redeems Hrd Hr IH]; intros ins i ins' Hh Hl Ha n.
  { destruct ins; [|done]. injection Ha as <-. split_and!; done. }
  destruct ins as [|ti ins]; [done|]. apply Forall_cons in Hh as [Hti Hh]. cbn in Ha.
  apply bind_Ok in Ha as (script & Hs & Ha). apply bind_Ok in Ha as (rest & Ha & [= <-]).
  destruct (IH ins (S i) rest) as (L & W & S1 & S2); [done|simpl in Hl; lia|done|].
  destruct (sigScriptOf_length _ _ _ _ _ (Hok i) Hrd Hs) as (Q1 & Q2 & Q3).
  cbn [fmap list_fmap concat]. rewrite length_app, Nat2Z.inj_add, writeTxIn_length by done.
  rewrite !sumZ_cons. cbn [SignatureScript setSigScript].
  unfold fenceInputSize at 1 3. fold (sigScriptSize n redeem).
  pose proof (varIntLen_mono _ _ Q1) as Hv. split_and!.
  - simpl. by f_equal.
  - by constructor.
  - unfold n in *. cbn zeta in S1. lia.
  - intros Hfull. rewrite (Q3 (Hfull i)). cbn zeta in S2. rewrite S2 by done. fold n. lia.
Qed.

Lemma fenceSize_sum redeems required :
  fenceSize redeems required =
  92 + varIntLen (Z.of_nat (length redeems)) + sumZ (fenceInputSize required <$> redeems).
Proof.
  unfold fenceSize.
  assert (Hf : ∀ l t, foldl (fun size redeem => size + fenceInputSize required redeem) t l =
    t + sumZ (fenceInputSize required <$> l)).
  { intros l. induction l as [|r l IH]; intros t; [by rewrite Z.add_0_r|]. cbn [foldl]. rewrite IH, fmap_cons, sumZ_cons. lia. }
  rewrite Hf. lia.
Qed.

(** The signed fence's bytes other than its inputs'. *)
Lemma Serialize_fence_length b op ins pays :
  outpoint_ok op → Z.of_nat (length ins) < two32 →
  let tx := mkMsgTx 1 ins [mkTxOut pays (signers_pkScript (signers b)); mkTxOut 0 (tagScript op)] 0 in
  HasWitness tx = false →
  Z.of_nat (length (Serialize tx)) =
  92 + varIntLen (Z.of_nat (length ins)) + Z.of_nat (length (concat (writeTxIn <$> ins))).
Proof.
  intros Hop Hn tx Hw. unfold Serialize, btcEncode. rewrite Hw. subst tx. cbn [andb app txIn txOut Version LockTime].
  assert (H1 : length (WriteTxOut (mkTxOut pays (signers_pkScript (signers b)))) = 32%nat).
  { unfold WriteTxOut, WriteVarBytes. cbn [Value PkScript]. rewrite signers_pkScript_shape.
    rewrite !length_app, le_bytes_length. cbn [length]. rewrite length_app.
    unfold hash160Of, Hash160. rewrite ripemd160_length. done. }
  assert (H2 : length (WriteTxOut (mkTxOut 0 (tagScript op))) = 51%nat).
  { unfold WriteTxOut, WriteVarBytes, tagScript. cbn [Value PkScript].
    rewrite !length_app, le_bytes_length. cbn [length]. by rewrite encodeFence_length. }
  rewrite !length_app, !le_bytes_length. cbn [fmap list_fmap concat]. rewrite !length_app, H1, H2.
  cbn [length]. rewrite !Nat2Z.inj_add, WriteVarInt_length by lia. cbn [WriteVarInt Z.ltb length]. simpl. lia.
Qed.

Lemma HasWitness_none tx : Forall (fun ti => Witness ti = []) (txIn tx) → HasWitness tx = false.
Proof.
  intros Hw. unfold HasWitness. induction Hw as [|ti ins Hti Hw IH]; [done|]. simpl. by rewrite Hti.
Qed.
End signed_size.

(** C25. fenceSize is what a signed fence really weighs: of the fence buildFence
    makes, completed by assemble with signatures of at most 73 bytes, the
    serialized transaction is never larger than fenceSize of its redeem scripts,
    and exactly that when every signature has 73 bytes. *)
Theorem fenceSize_exact {CR : Crypto} {COK : CryptoOk} {RT : GoRuntime}
    b chain first rest fee tx redeems sigs signed :
  Forall (fun u => outpoint_ok (u_outPoint u)) (first :: rest) →
  coins_ok (first :: rest) → 0 ≤ fee < two63 → Z.of_nat (length (first :: rest)) < two32 →
  buildFence b chain (first :: rest) fee = Ok tx →
  0 ≤ Required (signers b) → Forall (fun r : bytes => (2 ≤ length r)%nat) redeems →
  (∀ i, sigs_ok (chosenSigners (signers b) sigs) sigs i) →
  assemble (signers b) tx redeems sigs = Ok signed →
  Z.of_nat (length (Serialize signed)) ≤ fenceSize redeems (Required (signers b)) ∧
  ((∀ i, sigs_full (chosenSigners (signers b) sigs) sigs i) →
   Z.of_nat (length (Serialize signed)) = fenceSize redeems (Required (signers b))).
Proof.
  intros Hops Hc Hfee Hn Hb Hreq Hrd Hsg Ha.
  rewrite buildFence_shape in Hb; [|by apply Forall_cons in Hops as [? _]|done|done].
  destruct (_ <? pegDust); [done|]. injection Hb as <-.
  unfold assemble in Ha. apply bind_Ok in Ha as ([] & Hl%ensure_Ok & Ha). apply Nat.eqb_eq in Hl.
  apply bind_Ok in Ha as ([] & Hq%ensure_Ok & Ha). apply Z.leb_le in Hq.
  apply bind_Ok in Ha as (ins & Ha & [= <-]).
  assert (Hlen : Z.of_nat (length (chosenSigners (signers b) sigs)) = Required (signers b)).
  { pose proof (chosenSigners_length (signers b) sigs Hreq). lia. }
  apply assembleInputs_size in Ha as (L & W & S1 & S2); [|done|done| |done].
  2: { unfold fenceTx. cbn [txIn]. apply Forall_fmap. eapply Forall_impl; [exact Hops|].
       intros u [[Hh _] _]. by case_bool_decide. }
  rewrite Hlen in S1, S2.
  assert (Hw : HasWitness (mkMsgTx 1 ins (txOut (fenceTx b chain first (first :: rest)
      (total_of (first :: rest) - fee))) 0) = false).
  { apply HasWitness_none. cbn [txIn]. clear -W. unfold fenceTx in W. cbn [txIn] in W.
    remember ((if bool_decide (chain = chainDogecoin) then spendReplaceable else spend) <$> first :: rest) as l eqn:El.
    assert (Hl : Forall (fun ti => Witness ti = []) l).
    { subst l. apply Forall_fmap, Forall_true. intros u. by case_bool_decide. }
    clear El. induction W as [|ti ti' l l' Hti W IH]; [done|].
    apply Forall_cons in Hl as [Ht Hl]. constructor; [congruence|by apply IH]. }
  unfold fenceTx in *. cbn [txIn txOut Version LockTime] in *. rewrite length_fmap in L, Hl.
  assert (Hop : outpoint_ok (u_outPoint first)) by by apply Forall_cons in Hops as [? _].
  assert (Hs := Serialize_fence_length b (u_outPoint first) ins _ Hop ltac:(rewrite L; done) Hw).
  cbn zeta in Hs. rewrite Hs, fenceSize_sum, Hl, L. split; [lia|]. intros Hfull. rewrite S2 by done. lia.
Qed.

(** ** The lifetime budget *)

Section budget.
Context {CR : Crypto} {RT : GoRuntime} {ROK : GoRuntimeOk}.

(** The surplus fees a log ever signed, each action at its costliest. *)
Definition lifetimeFees (l : signingLog) : Z :=
  sumZ ((fun ka => mostFee ka.2) <$> filter (fun ka => isFeeKey ka.1 = true) (map_to_list (Actions l))).

Definition feeAt (key : string) (fee : Z) (ka : string * loggedAction) : Z :=
  if bool_decide (ka.1 = key) then Z.max (mostFee ka.2) fee else mostFee ka.2.

Lemma fenceFees_fold key fee es t b :
  wrap64 (foldl (fun '(total, seen) '(k, a) =>
      if negb (isFeeKey k) then (total, seen)
      else if bool_decide (k = key) then (total [+] Z.max (mostFee a) fee, true)
      else (total [+] mostFee a, seen)) (t, b) es).1 =
  wrap64 (t + sumZ (feeAt key fee <$> filter (fun ka => isFeeKey ka.1 = true) es)) ∧
  (foldl (fun '(total, seen) '(k, a) =>
      if negb (isFeeKey k) then (total, seen)
      else if bool_decide (k = key) then (total [+] Z.max (mostFee a) fee, true)
      else (total [+] mostFee a, seen)) (t, b) es).2 =
  b || (isFeeKey key && bool_decide (key ∈ es.*1)).
Proof.
  revert t b. induction es as [|[k a] es IH]; intros t b.
  { simpl. rewrite Z.add_0_r. split; [done|]. by destruct b, (isFeeKey key). }
  cbn [foldl]. rewrite filter_cons. rewrite fmap_cons. cbn [fst].
  destruct (isFeeKey k) eqn:Ek; cbn [negb].
  - rewrite decide_True by done. rewrite fmap_cons, sumZ_cons. unfold feeAt at 1. cbn [fst snd].
    destruct (decide (k = key)) as [->|E];
      [rewrite !(bool_decide_eq_true_2 (key = key)) by done|rewrite !(bool_decide_eq_false_2 (k = key)) by done].
    + destruct (IH (t [+] Z.max (mostFee a) fee) true) as [-> ->]. split.
      * rewrite wrap64_add_l. f_equal. lia.
      * rewrite Ek, (bool_decide_eq_true_2 (key ∈ key :: es.*1)) by by left. by rewrite orb_true_r.
    + destruct (IH (t [+] mostFee a) b) as [-> ->]. split.
      * rewrite wrap64_add_l. f_equal. lia.
      * do 2 f_equal. apply bool_decide_ext. rewrite elem_of_cons. naive_solver.
  - rewrite decide_False by done. destruct (IH t b) as [-> ->]. split; [done|]. f_equal.
    destruct (isFeeKey key) eqn:Ekey; [|done]. simpl. apply bool_decide_ext. rewrite elem_of_cons.
    split; [by right|]. intros [->|]; [congruence|done].
Qed.

Lemma fenceFees_sum l key fee :
  isFeeKey key = true →
  wrap64 (fenceFees l key fee) =
  wrap64 (sumZ (feeAt key fee <$> filter (fun ka => isFeeKey ka.1 = true) (map_to_list (Actions l)))
          + (if log_has l key then 0 else fee)).
Proof.
  intros Hk. unfold fenceFees.
  destruct (fenceFees_fold key fee (map_range (Actions l)) 0 false) as [Hs Hb].
  destruct (foldl _ (0, false) (map_range (Actions l))) as [total seen]. simpl in Hs, Hb.
  rewrite Hk in Hb. simpl in Hb.
  assert (Hseen : seen = log_has l key).
  { rewrite Hb. unfold log_has, has. apply bool_decide_ext. rewrite map_range_perm.
    rewrite list_elem_of_fmap. split.
    - intros ([k a] & -> & Hin). apply elem_of_map_to_list in Hin. by eauto.
    - intros [a Ha]. exists (key, a). split; [done|]. by apply elem_of_map_to_list. }
  rewrite map_range_perm in Hs. rewrite Hseen. destruct (log_has l key).
  - rewrite Hs. f_equal. lia.
  - rewrite wrap64_wrap64. rewrite <- (wrap64_add_l total), Hs, wrap64_add_l. f_equal.
Qed.

Lemma mostFee_nonneg a : 0 ≤ mostFee a.
Proof. unfold mostFee. apply (foldl_inv (fun m => 0 ≤ m)); [lia|]. intros. lia. Qed.

Lemma mostFee_snoc v f txs e :
  mostFee (mkLogged v f (txs ++ [e])) = Z.max (mostFee (mkLogged v f txs)) (Fee e).
Proof. unfold mostFee. simpl. by rewrite foldl_app. Qed.

Lemma feeAt_other key fee (l : list (string * loggedAction)) :
  (∀ ka, ka ∈ l → ka.1 ≠ key) → feeAt key fee <$> l = (fun ka => mostFee ka.2) <$> l.
Proof.
  intros Hl. apply list_fmap_ext. intros i ka Hi. unfold feeAt.
  rewrite bool_decide_eq_false_2; [done|]. apply Hl. by eapply list_elem_of_lookup_2.
Qed.

(** What signing for a fee action makes of the lifetime fees: what fenceFees
    counted beforehand. *)
Lemma lifetimeFees_recorded l key chain tx value fee now :
  isFeeKey key = true → 0 ≤ fee →
  lifetimeFees (recorded l key chain tx value fee now) =
  sumZ (feeAt key fee <$> filter (fun ka => isFeeKey ka.1 = true) (map_to_list (Actions l)))
  + (if log_has l key then 0 else fee).
Proof.
  intros Hk Hfee. destruct (Actions_recorded l key chain tx value fee now) as (l' & El & ->).
  assert (Hent : Fee (entryOf chain tx fee) = fee).
  { unfold entryOf. simpl. destruct (Z.ltb_spec 0 fee); lia. }
  unfold lifetimeFees, log_has, has. rewrite El. destruct (Actions l !! key) as [a|] eqn:Ea.
  - rewrite bool_decide_eq_true_2 by eauto. simpl.
    rewrite <- insert_delete_eq, map_to_list_insert by apply lookup_delete_eq.
    rewrite <- (map_to_list_delete (Actions l) key a Ea), !filter_cons. cbn [fst].
    rewrite !decide_True by done. rewrite !fmap_cons, !sumZ_cons, feeAt_other.
    + unfold feeAt. cbn [fst snd]. rewrite bool_decide_eq_true_2 by done.
      rewrite mostFee_snoc, Hent. unfold mostFee at 1. cbn [Txs]. fold (mostFee a). lia.
    + intros [k a'] [_ Hin]%list_elem_of_filter. apply elem_of_map_to_list in Hin. simpl.
      by apply lookup_delete_Some in Hin as [? _].
  - rewrite bool_decide_eq_false_2 by (by intros [? ?]). simpl.
    rewrite map_to_list_insert by done. rewrite filter_cons. cbn [fst].
    rewrite decide_True by done. rewrite fmap_cons, sumZ_cons, feeAt_other.
    + cbn [snd]. change [entryOf chain tx fee] with ([] ++ [entryOf chain tx fee]).
      rewrite mostFee_snoc, Hent. unfold mostFee at 1. simpl. lia.
    + intros [k a'] [_ Hin]%list_elem_of_filter. apply elem_of_map_to_list in Hin. simpl. congruence.
Qed.

Lemma fenceFees_i64 l key fee : i64_ok (fenceFees l key fee).
Proof.
  unfold fenceFees. match goal with |- i64_ok (let '(_, _) := ?f in _) => set (fold := f) end.
  assert (Hf : i64_ok fold.1).
  { subst fold. apply (foldl_inv (fun acc : Z * bool => i64_ok acc.1)); [simpl; i64|].
    intros [t b] [k a] _ Ht. simpl in *. destruct (negb _); [done|].
    case_bool_decide; simpl; auto with doge. }
  destruct fold as [t []]; simpl in *; auto with doge.
Qed.

(** One more fee adds at most itself. *)
Lemma feeAt_bound key fee (l : list (string * loggedAction)) :
  0 ≤ fee → NoDup l.*1 →
  sumZ (feeAt key fee <$> l) ≤ sumZ ((fun ka => mostFee ka.2) <$> l) + (if bool_decide (key ∈ l.*1) then fee else 0) ∧
  0 ≤ sumZ (feeAt key fee <$> l).
Proof.
  intros Hfee. induction l as [|[k a] l IH]; intros Hnd.
  { by vm_compute. }
  rewrite fmap_cons in Hnd. apply NoDup_cons in Hnd as [Hk Hnd]. destruct (IH Hnd) as [I1 I2]. clear IH.
  rewrite !fmap_cons, !sumZ_cons. unfold feeAt at 1 3. cbn [fst snd] in *.
  pose proof (mostFee_nonneg a) as Ha. destruct (decide (k = key)) as [->|Hne].
  - rewrite (bool_decide_eq_true_2 (key = key)) by done.
    rewrite bool_decide_eq_true_2 by by left. rewrite bool_decide_eq_false_2 in I1 by done. lia.
  - rewrite (bool_decide_eq_false_2 (k = key)) by done. split; [|lia].
    rewrite (bool_decide_ext (key ∈ k :: l.*1) (key ∈ l.*1)); [lia|].
    rewrite elem_of_cons. split; [intros [->|]; done|by right].
Qed.

Lemma addContribution_actions deep share acc u :
  Actions (addContribution deep share acc u).1 = Actions acc.1 ∧
  CutoverEpoch (addContribution deep share acc u).1 = CutoverEpoch acc.1.
Proof. destruct acc as [l c]. unfold addContribution. by destruct (_ || _). Qed.

Lemma addFenceCapital_actions s share l :
  Actions (addFenceCapital s share l).1 = Actions l ∧
  CutoverEpoch (addFenceCapital s share l).1 = CutoverEpoch l.
Proof.
  unfold addFenceCapital. set (first := (_ =? 0) && _).
  apply (foldl_inv (fun acc : signingLog * bool => Actions acc.1 = Actions l ∧ CutoverEpoch acc.1 = CutoverEpoch l)).
  - simpl. by destruct first.
  - intros acc u _ [H1 H2]. destruct (addContribution_actions (l_rootDepth (pegLine s)) share acc u). split; congruence.
Qed.

Lemma cutoverBudgetRoom_Ok set s key fee st st' :
  cutoverBudgetRoom set s key fee st = (Ok tt, st') → CutoverEpoch (ls_log st) ≠ 0 →
  ls_log st' = (addFenceCapital s (shareOf set) (ls_log st)).1 ∧
  fenceFees (ls_log st') key fee ≤ FenceBudget (ls_log st') ∧
  (ls_log st' ≠ ls_log st → (addFenceCapital s (shareOf set) (ls_log st)).2 = true → ls_disk st' = ls_log st').
Proof.
  unfold cutoverBudgetRoom, mbind. intros E He. unfold st_bind at 1 in E. simpl in E.
  rewrite (proj2 (Z.eqb_neq _ _)) in E by done.
  destruct (addFenceCapital s (shareOf set) (ls_log st)) as [l' changed]. unfold st_bind in E. simpl in E.
  destruct changed; simpl in E.
  - unfold log_write in E. simpl in E. destruct (nextWrite (ls_writes st)) as [[] rest]; simpl in E; try done.
    unfold st_ensure, st_lift in E. injection E as E <-. apply ensure_Ok in E. simpl.
    rewrite negb_true_iff, Z.ltb_ge in E. done.
  - unfold st_ensure, st_lift in E. injection E as E <-. apply ensure_Ok in E. simpl.
    rewrite negb_true_iff, Z.ltb_ge in E. done.
Qed.
End budget.

(** C26. The lifetime budget is never overspent: once a log has been through a
    cutover, a surplus spend (a fence or a cancellation) that cutoverBudgetRoom
    passes leaves, when recorded, the fees the log ever signed (each action
    at its costliest alternative, sent or not, every cutover together) within
    its budget. *)
Theorem budget_never_overspent {CR : Crypto} {RT : GoRuntime} {ROK : GoRuntimeOk}
    set s key chain tx value fee now st st' :
  isFeeKey key = true → 0 ≤ fee →
  CutoverEpoch (ls_log st) ≠ 0 → lifetimeFees (ls_log st) + fee < two63 →
  cutoverBudgetRoom set s key fee st = (Ok tt, st') →
  let l := recorded (ls_log st') key chain tx value fee now in
  lifetimeFees l ≤ FenceBudget l.
Proof.
  intros Hk Hfee He Hbound Hr l.
  destruct (cutoverBudgetRoom_Ok _ _ _ _ _ _ Hr He) as (El & Hle & _).
  destruct (addFenceCapital_actions s (shareOf set) (ls_log st)) as [Ea _].
  assert (HB : FenceBudget l = FenceBudget (ls_log st')).
  { unfold l, recorded. destruct (txIn tx); [done|]. by case_bool_decide. }
  rewrite HB. unfold l. rewrite lifetimeFees_recorded by done.
  pose proof (fenceFees_sum (ls_log st') key fee Hk) as Hs.
  rewrite (wrap64_small _ (fenceFees_i64 _ _ _)) in Hs.
  set (fees := filter _ (map_to_list (Actions (ls_log st')))) in *.
  assert (Hnd : NoDup fees.*1).
  { eapply sublist_NoDup; [apply (NoDup_fst_map_to_list (Actions (ls_log st')))|]. apply fmap_sublist, sublist_filter. }
  destruct (feeAt_bound key fee fees Hfee Hnd) as [B1 B2].
  assert (Hlf : lifetimeFees (ls_log st) = sumZ ((fun ka => mostFee ka.2) <$> fees)).
  { unfold lifetimeFees, fees. by rewrite El, Ea. }
  assert (Hin : bool_decide (key ∈ fees.*1) = true → log_has (ls_log st') key = true).
  { intros ([k a] & -> & [_ Hin]%list_elem_of_filter)%bool_decide_eq_true%list_elem_of_fmap.
    apply elem_of_map_to_list in Hin. unfold log_has, has. apply bool_decide_eq_true_2. by eauto. }
  rewrite wrap64_small in Hs; [lia|].
  destruct (bool_decide (key ∈ fees.*1)); [rewrite Hin in * by done|destruct (log_has (ls_log st') key)]; i64.
Qed.

(** ** Capital is counted once *)

Section capital.
Context {CR : Crypto} {RT : GoRuntime}.

Definition coinName (u : utxo) : string := OutPoint_String (u_outPoint u).

Definition newCapital (deep : Z) (l : signingLog) (us : list utxo) : list utxo :=
  filter (fun u => deep ≤ u_confirmations u ∧ coinName u ∉ FenceCapital l) us.

Lemma addContributions_spec deep share us l c :
  NoDup (coinName <$> us) → i64_ok (FenceBudget l) →
  (foldl (addContribution deep share) (l, c) us).1 =
  setBudget l (wrap64 (FenceBudget l + sumZ ((fun u => u_value u ÷ share) <$> newCapital deep l us)))
    (FenceCapital l ++ (coinName <$> newCapital deep l us)).
Proof.
  revert l c. induction us as [|u us IH]; intros l c Hnd Hb.
  { simpl. rewrite Z.add_0_r, wrap64_small, app_nil_r by done. by destruct l. }
  rewrite fmap_cons in Hnd. apply NoDup_cons in Hnd as [Hu Hnd].
  cbn [foldl]. unfold newCapital. rewrite filter_cons. fold (coinName u).
  unfold addContribution at 2. fold (coinName u).
  destruct (decide (deep ≤ u_confirmations u ∧ coinName u ∉ FenceCapital l)) as [[Hd Hn]|Hn].
  - unfold contains. rewrite bool_decide_eq_false_2 by done. rewrite (proj2 (Z.ltb_ge _ _)) by done. cbn [orb].
    rewrite IH by (done || apply wrap64_ok). unfold newCapital. cbn [FenceCapital FenceBudget setBudget].
    assert (E : filter (fun v => deep ≤ u_confirmations v ∧ coinName v ∉ FenceCapital l ++ [coinName u]) us =
                filter (fun v => deep ≤ u_confirmations v ∧ coinName v ∉ FenceCapital l) us).
    { apply filter_same. intros v Hv. rewrite elem_of_app, list_elem_of_singleton.
      assert (coinName v ≠ coinName u); [|tauto].
      intros Ev. apply Hu. rewrite <- Ev. apply list_elem_of_fmap. by exists v. }
    rewrite E, !fmap_cons, sumZ_cons, wrap64_add_l, <- app_assoc. simpl. unfold setBudget. simpl. f_equal.
    f_equal. lia.
  - assert (Hc : contains (FenceCapital l) (coinName u) || (u_confirmations u <? deep) = true).
    { unfold contains. apply orb_true_iff. rewrite bool_decide_eq_true, Z.ltb_lt.
      destruct (decide (coinName u ∈ FenceCapital l)); [by left|]. right. apply Z.nle_gt. tauto. }
    rewrite Hc. by apply IH.
Qed.

Lemma firstBudget_i64 s share l : 1 ≤ share → i64_ok (FenceBudget (firstBudget s share l)).
Proof.
  intros Hs. unfold firstBudget. cbn [FenceBudget setBudget].
  set (surplus := foldl _ _ _).
  assert (Hi : i64_ok surplus).
  { subst surplus. apply (foldl_inv i64_ok); [apply wrap64_ok|].
    intros t u _ Ht. destruct (_ && _); [apply wrap64_ok|done]. }
  assert (Hq : 0 ≤ Z.max surplus 0 ÷ share ≤ Z.max surplus 0).
  { split; [apply Z.quot_pos; lia|]. apply Z.quot_le_upper_bound; nia. }
  i64.
Qed.

Lemma firstBudget_capital s share l :
  FenceCapital l = [] →
  FenceCapital (firstBudget s share l) = coinName <$> newCapital (l_rootDepth (pegLine s)) l (contributions s) ∧
  newCapital (l_rootDepth (pegLine s)) (firstBudget s share l) (contributions s) = [].
Proof.
  intros Hl. unfold newCapital.
  assert (E : FenceCapital (firstBudget s share l) =
    coinName <$> filter (fun u => l_rootDepth (pegLine s) ≤ u_confirmations u ∧ coinName u ∉ FenceCapital l) (contributions s)).
  { unfold firstBudget. cbn [FenceCapital setBudget]. rewrite Hl. simpl. rewrite <- list_fmap_compose.
    unfold coinName, compose. f_equal. apply filter_same. intros u _. rewrite Z.leb_le. pose proof (not_elem_of_nil (OutPoint_String (u_outPoint u))). tauto. }
  split; [done|]. rewrite E.
  destruct (filter (fun u => l_rootDepth (pegLine s) ≤ u_confirmations u ∧ coinName u ∉ _) (contributions s))
    as [|u us] eqn:Ef at 1; [done|exfalso].
  assert (Hu : u ∈ u :: us) by by left. rewrite <- Ef in Hu.
  apply list_elem_of_filter in Hu as [[Hd Hn] Hin]. apply Hn.
  apply list_elem_of_fmap. exists u. split; [done|]. apply list_elem_of_filter.
  split; [|done]. split; [done|]. rewrite Hl. apply not_elem_of_nil.
Qed.
End capital.

(** No contribution buys fence fees twice: adding capital keeps every
    contribution already counted, counts each one at most once, only at
    rootDepth, and once the budget is set grows it by exactly the signer's share
    of those newly counted. *)
Theorem capital_counted_once {CR : Crypto} {RT : GoRuntime} s share l :
  1 ≤ share →
  NoDup (FenceCapital l) → NoDup (coinName <$> contributions s) → i64_ok (FenceBudget l) →
  let l' := (addFenceCapital s share l).1 in
  let fresh := newCapital (l_rootDepth (pegLine s)) l (contributions s) in
  NoDup (FenceCapital l') ∧ FenceCapital l' = FenceCapital l ++ (coinName <$> fresh) ∧
  (FenceBudget l ≠ 0 ∨ FenceCapital l ≠ [] →
   FenceBudget l' = wrap64 (FenceBudget l + sumZ ((fun u => u_value u ÷ share) <$> fresh))).
Proof.
  intros Hshare Hnd Hus Hb l' fresh.
  assert (Hfr : NoDup (FenceCapital l ++ (coinName <$> fresh))).
  { apply NoDup_app. split_and!; [done| |].
    - intros x Hx (u & -> & [[_ Hn] _]%list_elem_of_filter)%list_elem_of_fmap. done.
    - eapply sublist_NoDup; [exact Hus|]. apply fmap_sublist, sublist_filter. }
  enough (HE : FenceCapital l' = FenceCapital l ++ (coinName <$> fresh) ∧
    (FenceBudget l ≠ 0 ∨ FenceCapital l ≠ [] →
     FenceBudget l' = wrap64 (FenceBudget l + sumZ ((fun u => u_value u ÷ share) <$> fresh)))).
  { destruct HE as [HE1 HE2]. rewrite HE1. by split_and!. }
  subst l'. unfold addFenceCapital.
  destruct ((FenceBudget l =? 0) && bool_decide (FenceCapital l = [])) eqn:Ef.
  - apply andb_true_iff in Ef as [Ef%Z.eqb_eq Ec%bool_decide_eq_true].
    split; [|intros [?|?]; done]. destruct (firstBudget_capital s share l Ec) as [F1 F2].
    rewrite addContributions_spec by (done || by apply firstBudget_i64).
    cbn [FenceCapital setBudget]. rewrite F2, app_nil_r, F1. by rewrite Ec.
  - rewrite addContributions_spec by done. done.
Qed.

Module Samples.
#[local] Existing Instance toyCrypto.
#[local] Existing Instance toyCrypto_ok.
#[local] Existing Instance goRuntime.
#[local] Existing Instance goRuntime_ok.

Definition coin1 : utxo := mkUtxo (mkOutPoint (replicate 32 1) 0) (3 * koinuPerDoge) [1] 9.
Definition coin2 : utxo := mkUtxo (mkOutPoint (replicate 32 2) 1) (4 * koinuPerDoge) [1] 8.

Lemma coin1_ok : outpoint_ok (u_outPoint coin1).
Proof. split; [split; [reflexivity|repeat constructor; vm_compute; congruence]|vm_compute; split; congruence]. Qed.
Lemma coin2_ok : outpoint_ok (u_outPoint coin2).
Proof. split; [split; [reflexivity|repeat constructor; vm_compute; congruence]|vm_compute; split; congruence]. Qed.
Lemma coins12_ok : coins_ok [coin1; coin2].
Proof. split; [repeat constructor; vm_compute; discriminate|vm_compute; reflexivity]. Qed.
Lemma fee_ok : 0 ≤ koinuPerDoge < two63.
Proof. vm_compute. split; [discriminate|reflexivity]. Qed.

Lemma fence_exact_witness :
  is_ok (buildFence sampleBridge chainDogecoin [coin1; coin2] koinuPerDoge) = true.
Proof.
  apply (fence_exact sampleBridge chainDogecoin coin1 [coin2] koinuPerDoge _
    coin1_ok coins12_ok fee_ok eq_refl).
  vm_compute. discriminate.
Defined.

Definition sig73 : bytes := replicate 73 7.
Definition sigs0 : gmap nat (list bytes) := <[0%nat := [sig73; sig73]]> {[2%nat := [sig73; sig73]]}.
Definition redeems0 : list bytes := [redeemScript sampleSigners; redeemScript sampleSigners].

Lemma sigs0_full l i : sigs_full l sigs0 i.
Proof.
  intros k sig _ Hk. unfold lookup_sig in Hk.
  assert (Hl : ∀ l', sigs0 !! k = Some l' → l' = [sig73; sig73]).
  { intros l'. unfold sigs0. rewrite lookup_insert_Some, lookup_singleton_Some. intros [[_ <-]|[_ [_ <-]]]; done. }
  destruct (sigs0 !! k) as [l'|]; [|discriminate Hk]. rewrite (Hl l' eq_refl) in Hk.
  destruct i as [|[|i]]; simpl in Hk; [| |discriminate Hk]; by injection Hk as <-.
Qed.

Lemma sigs0_ok l i : sigs_ok l sigs0 i.
Proof. intros k sig Hk Hs. rewrite (sigs0_full l i k sig Hk Hs). lia. Qed.

Definition fence12 : result MsgTx := buildFence sampleBridge chainDogecoin [coin1; coin2] koinuPerDoge.
Definition fenceOf12 : MsgTx := match fence12 with Ok tx => tx | Err _ => NewMsgTx 1 end.
Definition signed12 : MsgTx :=
  match assemble sampleSigners fenceOf12 redeems0 sigs0 with Ok tx => tx | Err _ => NewMsgTx 1 end.

Lemma fence12_built : buildFence sampleBridge chainDogecoin [coin1; coin2] koinuPerDoge = Ok fenceOf12.
Proof. vm_compute. reflexivity. Qed.
Lemma signed12_built : assemble (signers sampleBridge) fenceOf12 redeems0 sigs0 = Ok signed12.
Proof. vm_compute. reflexivity. Qed.

Lemma fenceSize_exact_witness :
  Z.of_nat (length (Serialize signed12)) = fenceSize redeems0 (Required (signers sampleBridge)).
Proof.
  apply (fenceSize_exact sampleBridge chainDogecoin coin1 [coin2] koinuPerDoge fenceOf12 redeems0 sigs0 signed12).
  - constructor; [apply coin1_ok|]. constructor; [apply coin2_ok|constructor].
  - apply coins12_ok.
  - apply fee_ok.
  - vm_compute. reflexivity.
  - apply fence12_built.
  - vm_compute. discriminate.
  - repeat constructor.
  - apply sigs0_ok.
  - apply signed12_built.
  - apply sigs0_full.
Defined.

Definition fenceKey : string := keyOf actionFence (OutPoint_String (u_outPoint coin1)).
Definition budgetLog : signingLog :=
  mkLog ∅ ∅ EmptyString ∅ 1 0 (10 * koinuPerDoge) [].
Definition budgetState : logState := mkLogState budgetLog budgetLog [].
Definition contribs : list utxo := [mkUtxo (mkOutPoint (replicate 32 9) 0) (6 * koinuPerDoge) [1] 80].
Definition fenceView : pegState :=
  sampleHistory (sampleState None None [] []) (mkLineage [1] 60 ∅ []) [] [] contribs ∅.
Definition roomed : result unit * logState :=
  cutoverBudgetRoom sampleSigners fenceView fenceKey koinuPerDoge budgetState.

Lemma roomed_ok : roomed.1 = Ok tt.
Proof. vm_compute. reflexivity. Qed.

Lemma budget_never_overspent_witness :
  let l := recorded (ls_log roomed.2) fenceKey chainDogecoin (fenceOf12) 0 koinuPerDoge 0 in
  lifetimeFees l ≤ FenceBudget l.
Proof.
  apply (budget_never_overspent sampleSigners fenceView fenceKey chainDogecoin fenceOf12 0 koinuPerDoge 0
    budgetState roomed.2).
  - vm_compute. reflexivity.
  - vm_compute. discriminate.
  - discriminate.
  - vm_compute. reflexivity.
  - rewrite <- roomed_ok. apply surjective_pairing.
Defined.

Lemma capital_counted_once_witness :
  FenceBudget (addFenceCapital fenceView 2 budgetLog).1 =
  wrap64 (FenceBudget budgetLog + sumZ ((fun u => u_value u ÷ 2) <$> newCapital 60 budgetLog contribs)).
Proof.
  apply (capital_counted_once fenceView 2 budgetLog).
  - lia.
  - apply NoDup_nil_2.
  - apply NoDup_singleton.
  - vm_compute. split; [discriminate|reflexivity].
  - left. discriminate.
Defined.
End Samples.
