(* ===== verification/Cosigner.v ===== *)
(** The signer service (src/cmd/dogevm/cosign.go: cosigner; fence.go): what it
    checks of a proposal against its own view of both chains, what it logs and
    when it answers with signatures. *)

From Stdlib Require Import Ascii String.
From S2P Require Import Prelude Text Wire Decode Script Tags Amount Peg Lineage State Build Load SigningLog Registry Cutover.

(** ** A request, the signer's surroundings and its state *)

Record signRequest := mkRequest {
  req_Chain : string; req_Action : action; req_Tx : string; req_Register : list string; req_Fee : Z;
}.

(** What a signer reads while it handles one request: its configuration, its
    nodes, its clock and its operator's files. rawSig is
    txscript.RawTxInSignature with its key, verifies a check of one signature
    (CalcSignatureHash, ParseDERSignature, Verify), decodeAddress
    btcutil.DecodeAddress, and importTxs the Dogecoin node once transactions
    were imported (None when the chain is not a node of its own). *)
Record signerEnv := mkEnv {
  e_b : bridge;
  e_pub : bytes;
  e_vm : chain;
  e_doge : chain;
  e_importTxs : option (list bytes → chain);
  e_now : Z;
  e_paused : bool;
  e_maxDaily : Z;
  e_maxRegistrations : Z;
  e_approvals : option (result string);
  e_decodeAddress : string → result Address;
  e_rawSig : MsgTx → nat → bytes → result bytes;
  e_verifies : MsgTx → nat → bytes → bytes → bool;
}.

Record cosigner := mkCosigner {
  c_log : logState;
  c_registry : registryState;
  c_registered : list Z;
  c_fenceFee : Z;
  c_mine : gmap bytes bool;
  (** The quarantine marker, and whether one can be written. *)
  c_marker : option string;
  c_markerOk : bool;
}.

Definition on_log {A} (m : St logState A) : St cosigner A := fun c =>
  let '(r, ls) := m (c_log c) in
  (r, mkCosigner ls (c_registry c) (c_registered c) (c_fenceFee c) (c_mine c) (c_marker c) (c_markerOk c)).

Definition on_registry {A} (m : St registryState A) : St cosigner A := fun c =>
  let '(r, rs) := m (c_registry c) in
  (r, mkCosigner (c_log c) rs (c_registered c) (c_fenceFee c) (c_mine c) (c_marker c) (c_markerOk c)).

Definition setRegistered (times : list Z) : St cosigner unit := fun c =>
  (Ok tt, mkCosigner (c_log c) (c_registry c) times (c_fenceFee c) (c_mine c) (c_marker c) (c_markerOk c)).

Definition setFenceFee (fee : Z) : St cosigner unit := fun c =>
  (Ok tt, mkCosigner (c_log c) (c_registry c) (c_registered c) fee (c_mine c) (c_marker c) (c_markerOk c)).

Definition setMine (mine : gmap bytes bool) : St cosigner unit := fun c =>
  (Ok tt, mkCosigner (c_log c) (c_registry c) (c_registered c) (c_fenceFee c) mine (c_marker c) (c_markerOk c)).

Definition setMarker (marker : option string) : St cosigner unit := fun c =>
  (Ok tt, mkCosigner (c_log c) (c_registry c) (c_registered c) (c_fenceFee c) (c_mine c) marker (c_markerOk c)).

Section cosigner.
Context `{Crypto} `{GoRuntime}.

(** ** Registering addresses *)

Definition hour : Z := 3600 * second.
Definition defaultMaxRegistrations : Z := 600.

Definition registrationLimit (e : signerEnv) : Z :=
  if e_maxRegistrations e <=? 0 then defaultMaxRegistrations else e_maxRegistrations e.

Definition register (e : signerEnv) (d : destination) : St cosigner Address :=
  known ← on_registry (registry_has d);
  _ ← (if (known : bool) then mret tt
       else
         c ← st_get;
         let recent := filter (fun t => e_now e - t < hour) (c_registered c) in
         _ ← setRegistered recent;
         _ ← st_ensure (negb (registrationLimit e <=? Z.of_nat (length recent)))
               (Errorf "this signer has started watching too many new deposit addresses in the last hour");
         setRegistered (recent ++ [e_now e]));
  on_registry (registerDeposit (e_b e) (bool_decide (is_Some (e_importTxs e))) d).

Definition handleRegister (e : signerEnv) (destination : string) : St cosigner Address :=
  d ← st_lift (parseDest destination);
  register e d.

(** ** Its own view *)

Definition setRegistryOf (b : bridge) (file : result (list destination)) : bridge :=
  mkBridge (signers b) file (contributionsFile b) (depositConfirmations b) (confirmationTiers b)
    (vmFee b) (dogeFee b) (bumpAfter b) (fenceBumpAfter b) (minDeposit b) (minPegOut b) (maxDeposit b)
    (maxCirculating b) (confFloor b) (maxShallow b).

(** b.load(), with the registry as it is now. *)
Definition loadView (e : signerEnv) (doge : chain) : St cosigner pegState := fun c =>
  (load (setRegistryOf (e_b e) (r_file (c_registry c))) (e_vm e) doge, c).

Definition findDeposit (l : list deposit) (op : OutPoint) : option deposit :=
  head (filter (fun d => d_outPoint d = op) l).

Definition findPegOut (l : list pegOut) (txid : bytes) : option pegOut :=
  head (filter (fun p => p_txid p = txid) l).

(** What the signer's wallet has not seen of a proposal. *)
Definition missingTxs (s : pegState) (req : signRequest) (tx : MsgTx) : result (list bytes) :=
  let kind := Kind (req_Action req) in
  first ← (if bool_decide (kind = actionRelease) || bool_decide (kind = actionRefund) then
      op ← parseOutPoint (Deposit (req_Action req));
      if bool_decide (findDeposit (deposits s) op = None) && bool_decide (findDeposit (held s) op = None) &&
         negb (has (released s) op)
      then Ok [Hash op] else Ok []
    else Ok []);
  let inputs :=
    if bool_decide (req_Chain req = chainDogecoin) then
      Hash <$> filter (fun op => op ∉ (u_outPoint <$> lockedUTXOs s)) (prevOuts tx)
    else [] in
  Ok (first ++ inputs).

(** catchUp: the view, and the Dogecoin node, once what was missing is imported. *)
Definition catchUp (e : signerEnv) (s : pegState) (req : signRequest) (tx : MsgTx)
    : St cosigner (pegState * chain) :=
  match e_importTxs e with
  | None => mret (s, e_doge e)
  | Some importTxs =>
      missing ← st_lift (missingTxs s req tx);
      if bool_decide (missing = []) then mret (s, e_doge e)
      else
        let doge := importTxs missing in
        s' ← loadView e doge;
        mret (s', doge)
  end.

(** ** Signatures the log does not hold *)

Definition pegRedeem (set : signerSet) (script : bytes) : bool :=
  bool_decide (script = redeemScript set) ||
  (bool_decide (length script = length (redeemScript set) + 23)%nat &&
   at_ script 0 OP_DATA_21 && at_ script 22 OP_DROP &&
   bool_decide (drop 23 script = redeemScript set)).


(** One input carrying a signature by the key over a peg redeem script. *)
Definition inputSigned (e : signerEnv) (tx : MsgTx) (i : nat) (ti : TxIn) : bool :=
  match PushedData (SignatureScript ti) with
  | Err _ => false
  | Ok pushes =>
      match last pushes with
      | None => false
      | Some redeem =>
          (2 <=? Z.of_nat (length pushes)) && pegRedeem (signers (e_b e)) redeem &&
          existsb (fun item => (2 <=? Z.of_nat (length item)) &&
              bool_decide (last item = Some SigHashAll) &&
              e_verifies e tx i redeem (removelast item)) (removelast pushes)
      end
  end.

Definition signedBy (e : signerEnv) (tx : MsgTx) : bool :=
  (0 <=? indexOf (signers (e_b e)) (e_pub e)) &&
  existsb (fun '(i, ti) => inputSigned e tx i ti) (imap pair (txIn tx)).

Definition txids (l : signingLog) : list string :=
  map_range (Actions l) ≫= fun '(_, a) => Txid <$> Txs a.

(** One transaction of unlogged; checked ones are remembered. *)
Definition unloggedTx (e : signerEnv) (logged : list string) (acc : gmap bytes bool * list string) (t : chainTx)
    : gmap bytes bool * list string :=
  let '(mine, missing) := acc in
  let txid := TxHash (ct_tx t) in
  let signed := match mine !! txid with Some signed => signed | None => signedBy e (ct_tx t) end in
  (<[txid := signed]> mine,
   if signed && negb (contains logged (Hash_String (unsignedHash (ct_tx t))))
   then missing ++ [Hash_String txid] else missing).

Definition unlogged (e : signerEnv) (s : pegState) : St cosigner (list string) :=
  c ← st_get;
  let '(mine, missing) := foldl (unloggedTx e (txids (ls_log (c_log c)))) (c_mine c, []) (vmTxs s ++ dogeTxs s) in
  _ ← setMine mine;
  mret missing.

Definition quarantined (c : cosigner) : string :=
  match c_marker c with None => EmptyString | Some raw => trim_space raw end.

Definition quarantine {A} (reason : string) : St cosigner A :=
  c ← st_get;
  _ ← (if c_markerOk c then setMarker (Some (reason +:+ String "010"%char EmptyString)) else mret tt);
  st_lift (Err errQuarantined).

Definition quarantineReason (missing : list string) : string :=
  "the chains show this signer signed " +:+ String.concat ", " missing +:+ ", which its signing log does not hold".

(** fence: quarantined already, or by a signature the log does not hold. *)
Definition fence (e : signerEnv) (s : pegState) : St cosigner unit :=
  c ← st_get;
  if negb (bool_decide (quarantined c = EmptyString)) then st_lift (Err errQuarantined)
  else
    missing ← unlogged e s;
    if negb (bool_decide (missing = [])) then quarantine (quarantineReason missing) else mret tt.

(** ** The operator's approvals *)

Definition approvalLines (e : signerEnv) : option (list (list string)) :=
  match e_approvals e with
  | Some (Ok raw) => Some (fields <$> split_on "010"%char raw)
  | _ => None
  end.

Definition forceApproved (e : signerEnv) (op : OutPoint) : bool :=
  match approvalLines e with
  | None => false
  | Some lines => existsb (fun f => match f with
      | [a; _; force] => bool_decide (a = OutPoint_String op) && bool_decide (force = "force"%string)
      | _ => false
      end) lines
  end.

Definition refundListed (e : signerEnv) (op : OutPoint) : bool :=
  match approvalLines e with
  | None => false
  | Some lines => existsb (fun f => match f with
      | a :: _ :: _ => bool_decide (a = OutPoint_String op)
      | _ => false
      end) lines
  end.

(** Whether refundApproved reads the line as op's. *)
Definition approvalFor (op : OutPoint) (f : list string) : bool :=
  match f with
  | [a; _] | [a; _; _] => negb (String.prefix "#" a) && bool_decide (a = OutPoint_String op)
  | _ => false
  end.

Definition refundApproved (e : signerEnv) (op : OutPoint) (dest : destination) : result bool :=
  match e_approvals e with
  | None => Err (Errorf "this signer approves no refunds")
  | Some (Err err) => Err err
  | Some (Ok raw) =>
      match head (filter (fun f => approvalFor op f = true) (fields <$> split_on "010"%char raw)) with
      | Some (_ :: addr :: more) =>
          _ ← ensure (match more with [w] => bool_decide (w = "force"%string) | _ => true end)
                (Errorf "unknown word");
          addr ← e_decodeAddress e addr;
          approved ← destinationOf addr;
          _ ← ensure (bool_decide (approved = dest)) (Errorf "the refund is approved to a different address");
          Ok (bool_decide (length more = 1%nat))
      | _ => Err (Errorf "the refund is not in this signer's approvals")
      end
  end.

(** ** check *)

(** What the checks of every action share: the request, the proposal, the
    view with the fees promised elsewhere, the evidence and the action's key. *)
Record checkCtx := mkCtx {
  x_req : signRequest; x_tx : MsgTx; x_s : pegState; x_ev : chainEvidence;
  x_unseen : Z; x_except : string; x_doge : chain;
}.

(** What an action's check decides: the transaction this signer would build,
    the redeem script of each input, the DOGE it moves, and the outputs it
    knows are unspent. *)
Record checked := mkChecked {
  k_want : MsgTx; k_redeems : list bytes; k_value : Z; k_unspent : gset OutPoint;
}.

Definition spendsAnchor (tx : MsgTx) (anchor : option utxo) : result unit :=
  match anchor with
  | None => Err (Errorf "this signer sees no anchor for the transaction")
  | Some a =>
      ensure (match txIn tx with
              | ti :: _ => bool_decide (PreviousOutPoint ti = u_outPoint a)
              | [] => false
              end) (Errorf "the transaction must spend the anchor first")
  end.

(** The proposal's inputs from outputs this signer knows the peg holds. *)
Definition pick (tx : MsgTx) (available : list utxo) : result (list utxo * Z) :=
  let byOutPoint := foldl (fun (m : gmap OutPoint utxo) u => <[u_outPoint u := u]> m) ∅ available in
  inputs ← from_option_err (mapM (fun op => byOutPoint !! op) (prevOuts tx))
    (Errorf "an input is not a confirmed peg output in this signer's view");
  Ok (inputs, sum_values inputs).

Definition cutPrefix (prefix s : string) : option string :=
  if String.prefix prefix s
  then Some (String.substring (String.length prefix) (String.length s - String.length prefix) s) else None.

(** Releases this signer signed for other shallow deposits not credited yet. *)
Definition promisedShallow (b : bridge) (l : signingLog) (s : pegState) (op : OutPoint) : Z :=
  foldl (fun promised '(key, a) =>
      match cutPrefix (actionRelease +:+ ":") key with
      | None => promised
      | Some other =>
          if bool_decide (other = OutPoint_String op) then promised
          else match parseOutPoint other with
               | Err _ => promised
               | Ok oop =>
                   if has (released s) oop then promised
                   else match findDeposit (deposits s) oop with
                        | Some od => if d_confirmations od <? depositConfirmations b
                                     then promised [+] la_Value a else promised
                        | None => promised
                        end
               end
      end) 0 (map_range (Actions l)).

Definition outPoints (coins : list utxo) : gset OutPoint := list_to_set (u_outPoint <$> coins).

Definition checkRelease (e : signerEnv) (x : checkCtx) (l : signingLog) : result checked :=
  let b := e_b e in let s := x_s x in let tx := x_tx x in
  _ ← ensure (bool_decide (req_Chain (x_req x) = chainDogecoinVM)) (Errorf "a release is a DogecoinVM transaction");
  op ← parseOutPoint (Deposit (req_Action (x_req x)));
  _ ← ensure (negb (has (released s) op)) (Errorf "the deposit was already credited");
  _ ← ensure (negb (has (refunded s) op)) (Errorf "the deposit was refunded");
  _ ← ensure (negb (isCancelled s op || log_has l (keyOf actionCancel (OutPoint_String op))))
        (Errorf "the deposit was cancelled for a refund, so it is never credited");
  _ ← ensure (negb (log_has l (keyOf actionRefund (OutPoint_String op))))
        (Errorf "this signer signed a refund of the deposit, so it never credits it");
  d ← from_option_err (findDeposit (deposits s) op) (Errorf "no creditable deposit in this signer's view");
  _ ← ensure (negb (d_confirmations d <? confirmationsFor b (d_value d)))
        (Errorf "the deposit has not its confirmations");
  _ ← ensure (negb ((0 <? maxCirculating b) &&
                    (maxCirculating b <? reserveCreated s [-] reserveUnspent s [+] d_value d)))
        (Errorf "crediting the deposit would exceed the circulating cap");
  _ ← shallowRoom b s d (promisedShallow b l s op);
  _ ← spendsAnchor tx (reserveAnchor s);
  '(inputs, total) ← pick tx (reserveUTXOs s);
  _ ← ensure (negb (total <? d_value d [+] pegDust))
        (Errorf "inputs do not cover the deposit and the reserve's change");
  want ← buildRelease b inputs total d;
  all ← unspent (e_vm e) [signers_address (signers b)] 0;
  Ok (mkChecked want (replicate (length inputs) (redeemScript (signers b))) (d_value d) (outPoints all)).

(** The surplus, less what this signer already promised, can pay fee. *)
Definition feeRoom (set : signerSet) (a : auditResult) (fee unseen : Z) : result unit :=
  ensure (negb (Surplus a [+] unseen <? (fee [+] unseen) [*] shareOf set))
    (Errorf "the fee is more than this signer's share of the peg's surplus").

(** Who may cancel: the operator approved it, with force if it is creditable. *)
Definition cancelApproved (e : signerEnv) (s : pegState) (op : OutPoint) : result unit :=
  match findDeposit (deposits s) op with
  | Some _ => ensure (forceApproved e op) (Errorf "this signer's operator hasn't approved a forced refund")
  | None =>
      match findDeposit (held s) op with
      | Some d =>
          _ ← ensure (d_hasDest d) (Errorf "neither creditable nor held with a destination");
          ensure (refundListed e op) (Errorf "the refund is not in this signer's approvals")
      | None => Err (Errorf "neither creditable nor held with a destination")
      end
  end.

Definition checkCancel (e : signerEnv) (x : checkCtx) : St cosigner checked :=
  c ← st_get;
  let b := e_b e in let s := x_s x in let tx := x_tx x in let l := ls_log (c_log c) in
  '(want, inputs) ← st_lift (
    _ ← ensure (bool_decide (req_Chain (x_req x) = chainDogecoinVM))
          (Errorf "a cancellation is a DogecoinVM transaction");
    op ← parseOutPoint (Deposit (req_Action (x_req x)));
    _ ← ensure (negb (has (released s) op)) (Errorf "the deposit was credited");
    _ ← ensure (negb (has (refunded s) op)) (Errorf "the deposit was refunded");
    _ ← ensure (negb (isCancelled s op)) (Errorf "the deposit is already cancelled");
    anchor ← from_option_err (reserveAnchor s) (Errorf "this signer sees no reserve anchor");
    _ ← ensure (releasesDeadOrConflicting l (x_ev x) op (u_outPoint anchor))
          (Errorf "this signer signed a release that could still confirm beside a cancellation");
    _ ← cancelApproved e s op;
    _ ← spendsAnchor tx (reserveAnchor s);
    '(inputs, _) ← pick tx (reserveUTXOs s);
    want ← buildCancel b inputs op;
    _ ← surplusSpendWait l s;
    _ ← feeRoom (signers b) (audit s) (vmFee b) (x_unseen x);
    Ok (want, inputs));
  _ ← on_log (cutoverBudgetRoom (signers b) s (x_except x) (vmFee b));
  mret (mkChecked want (replicate (length inputs) (redeemScript (signers b))) 0 (outPoints inputs)).

Definition checkFenceAction (e : signerEnv) (x : checkCtx) : St cosigner checked :=
  c ← st_get;
  let b := e_b e in let s := x_s x in let l := ls_log (c_log c) in
  let chain := req_Chain (x_req x) in
  '(want, redeems, fee) ← st_lift (
    _ ← ensure (bool_decide (chain = chainDogecoin) || bool_decide (chain = chainDogecoinVM)) (Errorf "no chain");
    '(want, redeems, fee) ← checkFence b (e_now e) l s chain;
    _ ← ensure (match prevOuts want with
                | op :: _ => bool_decide (Deposit (req_Action (x_req x)) = OutPoint_String op)
                | [] => false
                end) (Errorf "a fence names the coin it spends first");
    _ ← (if bool_decide (chain = chainDogecoinVM) then surplusSpendWait l s else Ok tt);
    _ ← feeRoom (signers b) (audit s) fee (x_unseen x);
    Ok (want, redeems, fee));
  _ ← on_log (cutoverBudgetRoom (signers b) s (x_except x) fee);
  _ ← setFenceFee fee;
  mret (mkChecked want redeems 0 (list_to_set (prevOuts want))).

(** What a payout pays: its value, destination and tag. *)
Definition checkPayoutAction (x : checkCtx) : result (Z * destination * bytes) :=
  let s := x_s x in
  txid ← NewHashFromStr (PegOut (req_Action (x_req x)));
  _ ← ensure (match paid s !! txid with
              | Some payment => (0 <? req_Fee (x_req x)) && isUnconfirmed s payment
              | None => true
              end) (Errorf "the peg-out was already paid");
  p ← from_option_err (findPegOut (pegOuts s) txid) (Errorf "no final peg-out in this signer's view");
  Ok (p_value p, p_dest p, encodePayment (p_txid p)).

(** What a refund pays. *)
Definition checkRefundAction (e : signerEnv) (x : checkCtx) (l : signingLog) : result (Z * destination * bytes) :=
  let b := e_b e in let s := x_s x in
  op ← parseOutPoint (Deposit (req_Action (x_req x)));
  replacing ← match refunded s !! op with
    | Some txid =>
        _ ← ensure ((0 <? req_Fee (x_req x)) && isUnconfirmed s txid) (Errorf "the deposit was already refunded");
        Ok true
    | None => Ok false
    end;
  _ ← ensure (negb (has (released s) op)) (Errorf "the deposit was credited");
  dest ← parseDest (To (req_Action (x_req x)));
  _ ← ensure (releasesDead l (x_ev x) op) (Errorf "this signer signed a release of the deposit, so it never refunds it");
  _ ← refundApproved e op dest;
  d ← from_option_err (findDeposit (if (replacing : bool) then settled s else held s) op)
    (Errorf "the deposit is not held for a refund in this signer's view");
  _ ← ensure (negb (d_hasDest d && negb (default false (cancelled s !! op))))
        (Errorf "refunded only once its cancellation on DogecoinVM is in a block");
  _ ← refundable b d;
  Ok (d_value d, dest, encodeRefund op).

(** A replacement's coins: exactly those of the unconfirmed payment it
    replaces, for one fee more. *)
Definition checkReplacement (e : signerEnv) (x : checkCtx) (value : Z) (data : bytes)
    : result (list utxo * Z * gset OutPoint) :=
  let b := e_b e in let s := x_s x in let fee := req_Fee (x_req x) in
  '(r, oldFee) ← from_option_err (unconfirmedFor s data)
    (Errorf "a replacement needs an unconfirmed payment to replace");
  _ ← ensure (bool_decide (prevOuts (x_tx x) = prevOuts (ct_tx r)))
        (Errorf "a replacement must spend exactly what it replaces");
  _ ← ensure (fee =? oldFee [+] dogeFee b) (Errorf "a replacement pays exactly one fee more");
  _ ← checkBumpFee b fee oldFee value;
  '(inputs, total) ← pick (x_tx x) (coinsOf s (ct_tx r));
  Ok (inputs, total, outPoints inputs).

Definition checkPayment (e : signerEnv) (x : checkCtx) (l : signingLog) : result checked :=
  let b := e_b e in let s := x_s x in let tx := x_tx x in
  _ ← ensure (bool_decide (req_Chain (x_req x) = chainDogecoin)) (Errorf "a Dogecoin transaction");
  '(value, dest, data) ← (if bool_decide (Kind (req_Action (x_req x)) = actionPayout)
                          then checkPayoutAction x else checkRefundAction e x l);
  _ ← ensure (negb (value <=? dogeFee b)) (Errorf "the amount does not cover the Dogecoin fee");
  '(inputs, total, unspent, fee) ← (if 0 <? req_Fee (x_req x) then
      '(inputs, total, unspent) ← checkReplacement e x value data;
      Ok (inputs, total, unspent, req_Fee (x_req x))
    else
      _ ← spendsAnchor tx (pegAnchor s);
      '(inputs, total) ← pick tx (filter (fun u => 0 < u_confirmations u) (lockedUTXOs s));
      Ok (inputs, total, outPoints (lockedUTXOs s), dogeFee b));
  _ ← ensure (negb (total <? value)) (Errorf "inputs do not cover the payment");
  want ← buildPayout b inputs value dest data fee;
  redeems ← from_option_err (mapM (fun u => redeemFor s !! u_pkScript u) inputs) (Errorf "no redeem script");
  Ok (mkChecked want redeems value unspent).

(** The switch on the action's kind. *)
Definition checkAction (e : signerEnv) (x : checkCtx) : St cosigner checked :=
  c ← st_get;
  let l := ls_log (c_log c) in
  let kind := Kind (req_Action (x_req x)) in
  if bool_decide (kind = actionRelease) then st_lift (checkRelease e x l)
  else if bool_decide (kind = actionCancel) then checkCancel e x
  else if bool_decide (kind = actionFence) then checkFenceAction e x
  else if bool_decide (kind = actionPayout) || bool_decide (kind = actionRefund) then st_lift (checkPayment e x l)
  else st_lift (Err (Errorf "unknown action")).

(** The proposal, unsigned and spending no output twice. *)
Definition decodeProposal (req : signRequest) : result MsgTx :=
  tx ← decodeTx (req_Tx req);
  _ ← ensure (forallb (fun ti => bool_decide (SignatureScript ti = []) && bool_decide (Witness ti = [])) (txIn tx))
        (Errorf "proposal inputs must be unsigned");
  _ ← ensure (bool_decide (NoDup (prevOuts tx))) (Errorf "proposal spends an output twice");
  Ok tx.

(** [for _, h := range req.Register] *)
Fixpoint registerAll (e : signerEnv) (dests : list string) : St cosigner unit :=
  match dests with
  | [] => mret tt
  | h :: dests =>
      d ← st_lift (parseDest h);
      _ ← register e d;
      registerAll e dests
  end.

Definition addPendingFees (s : pegState) (fees : Z) : pegState :=
  mkPegState (redeemFor s) (depositDest s) (reserveCreated s) (reserveUnspent s) (reserveUTXOs s) (vmPending s)
    (reserveAnchor s) (pegAnchor s) (reserveLine s) (pegLine s) (released s) (cancelled s) (pegOuts s)
    (deposits s) (paid s) (refunded s) (pendingCoins s) (vmUnconfirmed s) (unconfirmed s) (held s) (settled s)
    (locked s) (lockedUTXOs s) (unclaimedOnDoge s) (unclaimedOnVM s) (contributed s) (contributions s)
    (pendingRefunds s) (pendingFees s [+] fees) (vmTxs s) (dogeTxs s) (dogeConflicted s).

Definition chainNamed (e : signerEnv) (doge : chain) (name : string) : chain :=
  if bool_decide (name = chainDogecoin) then doge else e_vm e.

(** The view of both chains everything after it is decided from. *)
Definition checkView (e : signerEnv) (req : signRequest) (tx : MsgTx) : St cosigner checkCtx :=
  let b := e_b e in
  s ← loadView e (e_doge e);
  '(s, doge) ← catchUp e s req tx;
  _ ← fence e s;
  _ ← on_log (if bool_decide (Kind (req_Action req) = actionFence)
              then _ ← advanceCutover (signers b) (e_pub e) (e_now e) s; mret tt
              else cutoverGate (signers b) (e_pub e) (e_now e) s);
  let ev0 := newChainEvidence s (Some (chainNamed e doge)) in
  let ev := mkEvidence (listed ev0) (nodes ev0)
    (Z.max (Z.max (depositConfirmations b) (confFloor b)) 1) in
  _ ← on_log (learnSigned ev);
  c ← st_get;
  let except := match action_key (req_Action req) with Ok k => k | Err _ => EmptyString end in
  let unseen := unseenFees (ls_log (c_log c))
    (list_to_set (u_outPoint <$> lockedUTXOs s) ∪ list_to_set (u_outPoint <$> reserveUTXOs s))
    (Some ev) (Some (fun name op => match unspentOn (chainNamed e doge name) with Some f => f op | None => false end))
    except in
  let s := addPendingFees s unseen in
  _ ← st_ensure (solvent (audit s)) errInsolvent;
  mret (mkCtx req tx s ev unseen except doge).

(** The checks of the log, whatever the action. *)
Definition checkLog (e : signerEnv) (x : checkCtx) (k : checked) (l : signingLog) : result unit :=
  let req := x_req x in let tx := x_tx x in
  _ ← ensure (bool_decide (encodeTx (k_want k) = encodeTx tx))
        (Errorf "the proposal is not the transaction this signer would build for that action");
  key ← action_key (req_Action req);
  let inChain := unspentOn (if bool_decide (req_Chain req = chainDogecoin) then x_doge x else e_vm e) in
  _ ← permit l key (req_Chain req) tx (k_unspent k) (Some (x_ev x)) inChain;
  let line := if bool_decide (req_Chain req = chainDogecoinVM) then reserveLine (x_s x) else pegLine (x_s x) in
  _ ← (if bool_decide (Kind (req_Action req) = actionFence) && has (Cutover l) (req_Chain req) then Ok tt
       else anchorMoved l (req_Chain req) tx inChain (Some line));
  ensure (negb ((0 <? e_maxDaily e) && negb (log_has l key) &&
                (e_maxDaily e <? volumeSince l (unix (e_now e - 24 * hour)) [+] k_value k)))
    (Errorf "signing would exceed this signer's daily limit").

(** check decides whether to sign req. *)
Definition check (e : signerEnv) (req : signRequest) : St cosigner (MsgTx * list bytes * Z) :=
  _ ← st_ensure (negb (e_paused e && negb (bool_decide (Kind (req_Action req) = actionFence)))) errPaused;
  tx ← st_lift (decodeProposal req);
  _ ← registerAll e (req_Register req);
  x ← checkView e req tx;
  k ← checkAction e x;
  c ← st_get;
  _ ← st_lift (checkLog e x k (ls_log (c_log c)));
  mret (tx, k_redeems k, k_value k).

(** signInputs: one signature, with its sighash byte, per input. *)
Fixpoint signEach (e : signerEnv) (tx : MsgTx) (i : nat) (redeems : list bytes) : result (list bytes) :=
  match redeems with
  | [] => Ok []
  | redeem :: redeems =>
      sig ← e_rawSig e tx i redeem;
      sigs ← signEach e tx (S i) redeems;
      Ok (sig :: sigs)
  end.

Definition signInputs (e : signerEnv) (tx : MsgTx) (redeems : list bytes) : result (list bytes) :=
  _ ← ensure (Nat.eqb (length redeems) (length (txIn tx))) (Errorf "redeem scripts and inputs differ");
  signEach e tx 0 redeems.

(** handleSign, from the decoded request: the signatures it answers with. *)
Definition handleSign (e : signerEnv) (req : signRequest) : St cosigner (list bytes) :=
  key ← st_lift (action_key (req_Action req));
  '(tx, redeems, value) ← check e req;
  sigs ← st_lift (signInputs e tx redeems);
  c ← st_get;
  let kind := Kind (req_Action req) in
  let fee := if bool_decide (kind = actionCancel) then vmFee (e_b e)
             else if bool_decide (kind = actionFence) then c_fenceFee c else 0 in
  _ ← on_log (record key (req_Chain req) tx value fee (unix (e_now e)));
  mret sigs.

(** handleStatus: an unproven log starts its cutover on the first request. *)
Definition handleStatus (e : signerEnv) : St cosigner (string * gmap string (list string) * bool) :=
  s ← loadView e (e_doge e);
  c ← st_get;
  _ ← (if bool_decide (quarantined c = EmptyString)
       then _ ← on_log (advanceCutover (signers (e_b e)) (e_pub e) (e_now e) s); mret tt
       else mret tt);
  c ← st_get;
  let l := ls_log (c_log c) in
  mret (History l, cutoverLeft l s, solvent (audit s)).
End cosigner.

Lemma findDeposit_Some l op d : findDeposit l op = Some d → d ∈ l ∧ d_outPoint d = op.
Proof.
  unfold findDeposit. intros Hd. apply head_Some in Hd as [l' El].
  assert (Hin : d ∈ filter (fun d => d_outPoint d = op) l) by (rewrite El; by left).
  by apply list_elem_of_filter in Hin as [? ?].
Qed.
