(* ===== verification/Coordinator.v ===== *)
(** The coordinator (src/cmd/dogevm: bridge.go step, bumpStuck, release, pay,
    refund, cancel and rebroadcast; cosign.go authorize and remoteSigner.sign;
    signers.go verifyInputs): what it proposes to the signers, which
    signatures it takes, and what it sends to the two chains. *)

From Stdlib Require Import Ascii String.
From S2P Require Import Prelude Text Wire Decode Script Tags Amount Peg Lineage State Build Load SigningLog Registry Cutover Cosigner.

(** ** Its surroundings *)

Record proposal := mkProposal {
  pr_Chain : string; pr_Action : action; pr_tx : MsgTx; pr_redeems : list bytes; pr_Register : list destination; pr_Fee : Z }.

Record signResponse := mkResponse { rs_PublicKey : string; rs_Signatures : list string }.

(** What the coordinator reads in one step. A key it holds is its public key
    with txscript.RawTxInSignature; a remote signer what its POST answers;
    parsePub btcec.ParsePubKey, to the compressed key; verifies
    CalcSignatureHash, ParseDERSignature and Verify with a key; a send what the
    node answers, a resend likewise where the node takes one. *)
Record coordEnv := mkCoord {
  q_b : bridge;
  q_vm : chain;
  q_doge : chain;
  q_keys : list (bytes * (MsgTx → nat → bytes → result bytes));
  q_remotes : list (signRequest → result signResponse);
  q_parsePub : bytes → option bytes;
  q_verifies : bytes → MsgTx → nat → bytes → bytes → bool;
  q_send : string → MsgTx → result bytes;
  q_resend : string → option (MsgTx → result unit);
  q_now : Z;
  q_paused : option error;
}.

(** What was sent to each chain, what was handed over again, and when a
    transaction last was. *)
Record coordinator := mkCoordinator {
  sent : list (string * MsgTx);
  resends : list (string * MsgTx);
  resent : gmap bytes Z;
}.

Section coordinator.
Context `{CR : Crypto} `{RT : GoRuntime} (q : coordEnv).

(** ** Signatures *)

Definition requestOf (p : proposal) : signRequest :=
  mkRequest (pr_Chain p) (pr_Action p) (encodeTx (pr_tx p)) (encodeDest <$> pr_Register p) (pr_Fee p).

Definition remoteSign (remote : signRequest → result signResponse) (p : proposal) : result (Z * list bytes) :=
  resp ← remote (requestOf p);
  rawPub ← from_option_err (hex_decode (rs_PublicKey resp)) (Errorf "invalid hex");
  pub ← from_option_err (q_parsePub q rawPub) (Errorf "not a public key");
  let index := indexOf (signers (q_b q)) pub in
  _ ← ensure (0 <=? index) (Errorf "signed with a key that is not in the signer set");
  sigs ← from_option_err (mapM hex_decode (rs_Signatures resp)) (Errorf "invalid hex");
  Ok (index, sigs).

(** One signature of verifyInputs. *)
Definition sigVerifies (pub : bytes) (tx : MsgTx) (i : nat) (redeem sig : bytes) : bool :=
  (2 <=? Z.of_nat (length sig)) && bool_decide (last sig = Some SigHashAll) && q_verifies q pub tx i redeem (removelast sig).

Fixpoint verifyEach (pub : bytes) (tx : MsgTx) (i : nat) (redeems sigs : list bytes) : bool :=
  match redeems, sigs with
  | redeem :: redeems, sig :: sigs => sigVerifies pub tx i redeem sig && verifyEach pub tx (S i) redeems sigs
  | _, _ => true
  end.

Definition verifyInputs (tx : MsgTx) (redeems : list bytes) (index : Z) (sigs : list bytes) : result unit :=
  pub ← from_option_err (if 0 <=? index then pubKeys (signers (q_b q)) !! Z.to_nat index else None) (Errorf "no signer");
  _ ← ensure (Nat.eqb (length sigs) (length (txIn tx)) && Nat.eqb (length redeems) (length (txIn tx)))
        (Errorf "have signatures for other inputs");
  ensure (verifyEach pub tx 0 redeems sigs) (Errorf "signature does not verify").

(** signInputs with a key of this process. *)
Fixpoint signEachWith (raw : MsgTx → nat → bytes → result bytes) (tx : MsgTx) (i : nat) (redeems : list bytes) : result (list bytes) :=
  match redeems with
  | [] => Ok []
  | redeem :: redeems =>
      sig ← raw tx i redeem;
      sigs ← signEachWith raw tx (S i) redeems;
      Ok (sig :: sigs)
  end.

Definition signInputsWith (raw : MsgTx → nat → bytes → result bytes) (tx : MsgTx) (redeems : list bytes) : result (list bytes) :=
  _ ← ensure (Nat.eqb (length redeems) (length (txIn tx))) (Errorf "redeem scripts and inputs differ");
  signEachWith raw tx 0 redeems.

(** The keys this process holds, for every key of the set. *)
Fixpoint signOwn (p : proposal) (keys : list (nat * bytes * (bytes * (MsgTx → nat → bytes → result bytes))))
    (sigs : gmap nat (list bytes)) : result (gmap nat (list bytes)) :=
  match keys with
  | [] => Ok sigs
  | (i, pub, (mine, raw)) :: keys =>
      if bool_decide (mine = pub) then
        s ← signInputsWith raw (pr_tx p) (pr_redeems p);
        signOwn p keys (<[i := s]> sigs)
      else signOwn p keys sigs
  end.

Definition ownPairs : list (nat * bytes * (bytes * (MsgTx → nat → bytes → result bytes))) :=
  imap pair (pubKeys (signers (q_b q))) ≫= fun ip => (fun key => (ip, key)) <$> q_keys q.

(** Remote signers, until there are enough; what one answers wrong is left. *)
Fixpoint askRemotes (p : proposal) (remotes : list (signRequest → result signResponse)) (sigs : gmap nat (list bytes))
    : gmap nat (list bytes) :=
  match remotes with
  | [] => sigs
  | r :: remotes =>
      if Required (signers (q_b q)) <=? Z.of_nat (base.size sigs) then sigs
      else
        match remoteSign r p with
        | Err _ => askRemotes p remotes sigs
        | Ok (index, s) =>
            if has sigs (Z.to_nat index) then askRemotes p remotes sigs
            else match verifyInputs (pr_tx p) (pr_redeems p) index s with
                 | Err _ => askRemotes p remotes sigs
                 | Ok _ => askRemotes p remotes (<[Z.to_nat index := s]> sigs)
                 end
        end
  end.

(** The signed transaction. *)
Definition authorize (p : proposal) : result MsgTx :=
  own ← signOwn p ownPairs ∅;
  let sigs := askRemotes p (q_remotes q) own in
  _ ← ensure (Required (signers (q_b q)) <=? Z.of_nat (base.size sigs)) (Errorf "not enough signatures");
  assemble (signers (q_b q)) (pr_tx p) (pr_redeems p) sigs.

(** ** Sending *)

Definition send (chain : string) (tx : MsgTx) : St coordinator bytes := fun c =>
  (q_send q chain tx, mkCoordinator (sent c ++ [(chain, tx)]) (resends c) (resent c)).

Definition propose (p : proposal) : St coordinator bytes :=
  tx ← st_lift (authorize p);
  send (pr_Chain p) tx.

Definition releaseProposal (d : deposit) (tx : MsgTx) : proposal :=
  mkProposal chainDogecoinVM (mkAction actionRelease (OutPoint_String (d_outPoint d)) EmptyString EmptyString)
    tx (replicate (length (txIn tx)) (redeemScript (signers (q_b q)))) [d_dest d] 0.

Definition release (s : pegState) (d : deposit) : St coordinator bytes :=
  '(inputs, total) ← st_lift (releaseInputs s (d_value d));
  tx ← st_lift (buildRelease (q_b q) inputs total d);
  propose (releaseProposal d tx).

(** The redeem script of every coin. *)
Definition redeemsOf (s : pegState) (inputs : list utxo) : result (list bytes) :=
  from_option_err (mapM (fun u => redeemFor s !! u_pkScript u) inputs) (Errorf "no redeem script for a peg output").

Definition registerOf (s : pegState) (inputs : list utxo) : list destination :=
  omap (fun u => depositDest s !! u_pkScript u) inputs.

Definition confirmedCoins (s : pegState) : list utxo := filter (fun u => 0 < u_confirmations u) (lockedUTXOs s).

Definition payFromPeg (s : pegState) (value : Z) (dest : destination) (data : bytes) (why : action) : St coordinator bytes :=
  let b := q_b q in
  _ ← st_ensure (negb (value <=? dogeFee b)) (Errorf "the amount does not cover the fee");
  inputs ← st_lift (payoutInputs s (confirmedCoins s) value);
  tx ← st_lift (buildPayout b inputs value dest data (dogeFee b));
  redeems ← st_lift (redeemsOf s inputs);
  propose (mkProposal chainDogecoin why tx redeems (registerOf s inputs) 0).

Definition payoutAction (p : pegOut) : action := mkAction actionPayout EmptyString (Hash_String (p_txid p)) EmptyString.

Definition pay (s : pegState) (p : pegOut) : St coordinator bytes :=
  payFromPeg s (p_value p) (p_dest p) (encodePayment (p_txid p)) (payoutAction p).

Definition cancelProposal (op : OutPoint) (inputs : list utxo) (tx : MsgTx) : proposal :=
  mkProposal chainDogecoinVM (mkAction actionCancel (OutPoint_String op) EmptyString EmptyString) tx
    (replicate (length inputs) (redeemScript (signers (q_b q)))) [] 0.

Definition cancel (s : pegState) (op : OutPoint) : St coordinator bytes :=
  let b := q_b q in
  _ ← st_ensure (negb (vmPending s)) (Errorf "a DogecoinVM transaction of the peg is pending");
  inputs ← st_lift (cancelInputs s (vmFee b));
  tx ← st_lift (buildCancel b inputs op);
  propose (cancelProposal op inputs tx).

(** ** Refunds *)


(** The cancellation is the first half of a refund. *)
Definition cancelFirst (s : pegState) (op : OutPoint) : St coordinator bytes :=
  _ ← cancel s op; st_lift (Err errCancelSent).

Definition ifPaused {A} (m : St coordinator A) : St coordinator A :=
  match q_paused q with Some e => st_lift (Err e) | None => m end.

(** Of a deposit the bridge holds, or, forced, one it could credit. *)
Definition refundHeld (s : pegState) (op : OutPoint) (dest : destination) (force : bool) : St coordinator bytes :=
  match findDeposit (held s) op with
  | Some d =>
      _ ← st_lift (refundable (q_b q) d);
      if d_hasDest d && negb (isCancelled s op) then cancelFirst s op
      else payFromPeg s (d_value d) dest (encodeRefund op) (refundAction op dest)
  | None =>
      match findDeposit (deposits s) op with
      | Some _ => _ ← st_ensure force errCreditable; cancelFirst s op
      | None => st_lift (Err errNotRefundable)
      end
  end.

Definition refund (op : OutPoint) (dest : destination) (force : bool) : St coordinator bytes :=
  ifPaused (
    s ← st_lift (load (q_b q) (q_vm q) (q_doge q));
    _ ← st_ensure (negb (has (refunded s) op)) (Errorf "already refunded");
    _ ← st_ensure (negb (has (released s) op)) (Errorf "already credited");
    _ ← st_ensure (negb (bool_decide (cancelled s !! op = Some false)))
          (Errorf "the deposit's cancellation on DogecoinVM isn't in a block yet");
    refundHeld s op dest force).

(** ** Replacements *)

Record due := mkDue { du_value : Z; du_dest : destination; du_data : bytes; du_why : action }.

Definition duePayout (s : pegState) (p : pegOut) : option due :=
  match paid s !! p_txid p with
  | Some txid => if isUnconfirmed s txid then Some (mkDue (p_value p) (p_dest p) (encodePayment (p_txid p)) (payoutAction p)) else None
  | None => None
  end.

(** A deposit that is settled without a refund has the zero hash. *)
Definition dueRefund (s : pegState) (d : deposit) : option due :=
  let txid := default zeroHash (refunded s !! d_outPoint d) in
  t ← unconfirmed s !! txid;
  o ← head (txOut (ct_tx t));
  match destinationOfScript (PkScript o) with
  | Ok dest => Some (mkDue (d_value d) dest (encodeRefund (d_outPoint d)) (refundAction (d_outPoint d) dest))
  | Err _ => None
  end.

Inductive did :=
| didBump (old : MsgTx) (txid : bytes) (fee : Z)
| didCredit (d : deposit) (txid : bytes)
| didPay (p : pegOut) (txid : bytes).

(** The replacement of one, or nothing. *)
Definition bumpTx (s : pegState) (d : due) : option (chainTx * Z * list utxo * MsgTx) :=
  '(r, oldFee) ← unconfirmedFor s (du_data d);
  if (ct_time r =? 0) || (unix (q_now q) - ct_time r <? Z.quot (bumpAfter (q_b q)) second) then None
  else
    let fee := oldFee [+] dogeFee (q_b q) in
    match checkBumpFee (q_b q) fee oldFee (du_value d) with
    | Err _ => None
    | Ok _ =>
        let inputs := coinsOf s (ct_tx r) in
        if negb (Nat.eqb (length inputs) (length (txIn (ct_tx r)))) then None
        else match buildPayout (q_b q) inputs (du_value d) (du_dest d) (du_data d) fee with
             | Err _ => None
             | Ok tx => Some (r, fee, inputs, tx)
             end
    end.

Fixpoint bumpLoop (s : pegState) (todo : list due) : St coordinator (option did) :=
  match todo with
  | [] => mret None
  | d :: todo =>
      match bumpTx s d with
      | None => bumpLoop s todo
      | Some (r, fee, inputs, tx) =>
          redeems ← st_lift (redeemsOf s inputs);
          txid ← propose (mkProposal chainDogecoin (du_why d) tx redeems (registerOf s inputs) fee);
          mret (Some (didBump (ct_tx r) txid fee))
      end
  end.

Definition bumpStuck (s : pegState) : St coordinator (option did) :=
  if bumpAfter (q_b q) <=? 0 then mret None
  else bumpLoop s (omap (duePayout s) (pegOuts s) ++ omap (dueRefund s) (settled s)).

(** ** Rebroadcasting *)

Definition resendEvery : Z := 600 * second.

(** A fence the node dropped is conflicted, and not dead. *)
Definition dogeResends (s : pegState) : gmap bytes chainTx :=
  let v := view s chainDogecoin in
  foldl (fun m t => if bool_decide (is_Some (parseFence (ct_tx t))) && (- ct_confirmations t <? cv_depth v)
                    then <[TxHash (ct_tx t) := t]> m else m) (unconfirmed s) (cv_conflicted v).

(** One transaction: a failure is logged. *)
Definition resendOne (chain : string) (c : coordinator) (kt : bytes * chainTx) : coordinator :=
  let '(txid, t) := kt in
  match resent c !! txid with
  | Some last => if q_now q - last <? resendEvery then c
                 else mkCoordinator (sent c) (resends c ++ [(chain, ct_tx t)]) (<[txid := q_now q]> (resent c))
  | None => mkCoordinator (sent c) (resends c ++ [(chain, ct_tx t)]) (<[txid := q_now q]> (resent c))
  end.

Definition resendAll (chain : string) (txs : gmap bytes chainTx) (c : coordinator) : coordinator :=
  match q_resend q chain with
  | None => c
  | Some _ => foldl (resendOne chain) c (map_range txs)
  end.

Definition rebroadcast (s : pegState) : St coordinator unit := fun c =>
  let dogeTxs := dogeResends s in
  let c := resendAll chainDogecoinVM (vmUnconfirmed s) (resendAll chainDogecoin dogeTxs c) in
  (Ok tt, mkCoordinator (sent c) (resends c)
            (filter (fun kv => is_Some (dogeTxs !! kv.1) ∨ is_Some (vmUnconfirmed s !! kv.1)) (resent c))).

(** ** A step *)

Definition stepFailed : error := Errorf "releasing or paying failed".

(** A deposit the step tries to credit. *)
Definition toCredit (s : pegState) (d : deposit) : bool :=
  let b := q_b q in
  negb (has (released s) (d_outPoint d) || (d_confirmations d <? confirmationsFor b (d_value d))) &&
  negb ((0 <? maxCirculating b) && (maxCirculating b <? reserveCreated s [-] reserveUnspent s [+] d_value d)) &&
  match shallowRoom b s d 0 with Ok _ => true | Err _ => false end.

(** The first that succeeds; one that fails does not hold up the rest. *)
Fixpoint firstOf {A} (try : A → St coordinator did) (l : list A) (failed : bool) : St coordinator (option did * bool) := fun c =>
  match l with
  | [] => (Ok (None, failed), c)
  | x :: l =>
      match try x c with
      | (Ok d, c') => (Ok (Some d, failed), c')
      | (Err _, c') => firstOf try l true c'
      end
  end.

Definition credit (s : pegState) (d : deposit) : St coordinator did := txid ← release s d; mret (didCredit d txid).
Definition payOut (s : pegState) (p : pegOut) : St coordinator did := txid ← pay s p; mret (didPay p txid).

(** A step, from a solvent view. *)
Definition stepOn (s : pegState) : St coordinator (option did) :=
  _ ← rebroadcast s;
  bumped ← bumpStuck s;
  match bumped with
  | Some d => mret (Some d)
  | None =>
      '(credited, failed) ← (if vmPending s then mret (None, false)
                             else firstOf (credit s) (filter (fun d => toCredit s d = true) (deposits s)) false);
      match credited with
      | Some d => mret (Some d)
      | None =>
          '(paidOut, failed) ← firstOf (payOut s) (filter (fun p => negb (has (paid s) (p_txid p)) = true) (pegOuts s)) failed;
          match paidOut with
          | Some d => mret (Some d)
          | None => if (failed : bool) then st_lift (Err stepFailed) else mret None
          end
      end
  end.

Definition step : St coordinator (option did) :=
  ifPaused (
    s ← st_lift (load (q_b q) (q_vm q) (q_doge q));
    _ ← st_ensure (solvent (audit s)) errInsolvent;
    stepOn s).

End coordinator.

(** ** Signatures it takes *)

Section signed.
Context `{CR : Crypto} `{RT : GoRuntime} (q : coordEnv).

(** One signer's signatures: made with a key held here, or verified. *)
Definition vouchedBy (p : proposal) (i : nat) (sigs : list bytes) : Prop :=
  (∃ pub raw, pubKeys (signers (q_b q)) !! i = Some pub ∧ (pub, raw) ∈ q_keys q ∧
     signInputsWith raw (pr_tx p) (pr_redeems p) = Ok sigs) ∨
  verifyInputs q (pr_tx p) (pr_redeems p) (Z.of_nat i) sigs = Ok tt.

Lemma ownPairs_spec i pub key : (i, pub, key) ∈ ownPairs q → pubKeys (signers (q_b q)) !! i = Some pub ∧ key ∈ q_keys q.
Proof.
  unfold ownPairs. intros ([i' pub']&Hin&Hip)%list_elem_of_bind. apply list_elem_of_fmap in Hin as (key'&[= <- <- <-]&Hk).
  split; [|done]. apply elem_of_lookup_imap in Hip as (j&x&[= <- <-]&Hx). done.
Qed.

Lemma signOwn_vouched p keys sigs sigs' :
  (∀ x, x ∈ keys → x ∈ ownPairs q) → map_Forall (vouchedBy p) sigs → signOwn p keys sigs = Ok sigs' →
  map_Forall (vouchedBy p) sigs'.
Proof.
  revert sigs. induction keys as [|[[i pub] [mine raw]] keys IH]; intros sigs Hin Hs; cbn [signOwn]; [by intros [= <-]|].
  case_bool_decide as Hp; [subst mine|apply IH; [set_solver|done]].
  intros (s&Es&E)%bind_Ok. destruct (ownPairs_spec i pub (pub, raw)) as [Hi Hk]; [apply Hin; by left|].
  eapply IH; [set_solver| |exact E]. apply map_Forall_insert_2; [|done]. left. eauto.
Qed.

Lemma remoteSign_index r p i s : remoteSign q r p = Ok (i, s) → 0 ≤ i.
Proof.
  unfold remoteSign. intros (resp&_&H1)%bind_Ok. apply bind_Ok in H1 as (raw&_&H1). apply bind_Ok in H1 as (pub&_&H1).
  apply bind_Ok in H1 as ([]&Hi%ensure_Ok%Z.leb_le&H1). apply bind_Ok in H1 as (sigs&_&[= <- <-]). done.
Qed.

Lemma askRemotes_vouched p remotes sigs :
  map_Forall (vouchedBy p) sigs → map_Forall (vouchedBy p) (askRemotes q p remotes sigs).
Proof.
  revert sigs. induction remotes as [|r remotes IH]; intros sigs Hs; cbn [askRemotes]; [done|].
  destruct (_ <=? _); [done|]. destruct (remoteSign q r p) as [[i s]|e] eqn:Er; [|by apply IH].
  apply remoteSign_index in Er. destruct (has sigs _); [by apply IH|].
  destruct (verifyInputs q _ _ i s) as [[]|e] eqn:Ev; [|by apply IH].
  apply IH, map_Forall_insert_2; [|done]. right. by rewrite Z2Nat.id.
Qed.

(** A transaction completed with the signatures of enough signers. *)
Definition backed (p : proposal) (tx : MsgTx) : Prop :=
  ∃ sigs, map_Forall (vouchedBy p) sigs ∧ Required (signers (q_b q)) ≤ Z.of_nat (base.size sigs) ∧
    assemble (signers (q_b q)) (pr_tx p) (pr_redeems p) sigs = Ok tx.

Lemma authorize_backed p tx : authorize q p = Ok tx → backed p tx.
Proof.
  unfold authorize. intros (own&Eo&H1)%bind_Ok. apply bind_Ok in H1 as ([]&Hn%ensure_Ok%Z.leb_le&Ea).
  exists (askRemotes q p (q_remotes q) own). split; [|done]. eapply askRemotes_vouched, signOwn_vouched; [done| |exact Eo].
  apply map_Forall_empty.
Qed.

Lemma backed_same p tx : backed p tx → unsignedHash tx = unsignedHash (pr_tx p) ∧ prevOuts tx = prevOuts (pr_tx p) ∧ txOut tx = txOut (pr_tx p).
Proof. intros (sigs&_&_&E). by eapply assemble_same. Qed.

End signed.

(** ** What it sends *)

Section sends.
Context `{CR : Crypto} `{RO : GoRuntimeOk} (q : coordEnv).

(** Why a payment is made: a peg-out that is not paid, or a refund of a
    deposit that was neither credited nor refunded, and cannot be credited. *)
Inductive payment (s : pegState) : Z → destination → bytes → action → Prop :=
| paysPegOut p : p ∈ pegOuts s → paid s !! p_txid p = None →
    payment s (p_value p) (p_dest p) (encodePayment (p_txid p)) (payoutAction p)
| paysRefund d dest : d ∈ held s → refunded s !! d_outPoint d = None → released s !! d_outPoint d = None →
    cancelled s !! d_outPoint d ≠ Some false → (d_hasDest d = true → is_Some (cancelled s !! d_outPoint d)) →
    refundable (q_b q) d = Ok tt →
    payment s (d_value d) dest (encodeRefund (d_outPoint d)) (refundAction (d_outPoint d) dest).

Definition dueIn (s : pegState) (d : due) : Prop :=
  (∃ p, p ∈ pegOuts s ∧ duePayout s p = Some d) ∨ (∃ x, x ∈ settled s ∧ dueRefund s x = Some d).

(** The proposal that credits a deposit, and the one that pays from the peg. *)
Definition creditBy (s : pegState) (d : deposit) (p : proposal) : Prop :=
  ∃ inputs total tx, releaseInputs s (d_value d) = Ok (inputs, total) ∧ buildRelease (q_b q) inputs total d = Ok tx ∧
    p = releaseProposal q d tx.

Definition paymentBy (s : pegState) (value : Z) (dest : destination) (data : bytes) (why : action) (p : proposal) : Prop :=
  ∃ inputs tx redeems, dogeFee (q_b q) < value ∧ payoutInputs s (confirmedCoins s) value = Ok inputs ∧
    buildPayout (q_b q) inputs value dest data (dogeFee (q_b q)) = Ok tx ∧ redeemsOf s inputs = Ok redeems ∧
    p = mkProposal chainDogecoin why tx redeems (registerOf s inputs) 0.

(** The proposals made from one view of the chains. *)
Inductive proposed (s : pegState) : proposal → Prop :=
| proposedRelease d p : d ∈ deposits s → toCredit q s d = true → vmPending s = false → creditBy s d p → proposed s p
| proposedPayment value dest data why p : payment s value dest data why → paymentBy s value dest data why p → proposed s p
| proposedCancel op inputs tx : vmPending s = false → released s !! op = None → refunded s !! op = None →
    cancelInputs s (vmFee (q_b q)) = Ok inputs → buildCancel (q_b q) inputs op = Ok tx →
    proposed s (cancelProposal q op inputs tx)
| proposedBump d r fee inputs tx redeems : dueIn s d → bumpTx q s d = Some (r, fee, inputs, tx) →
    redeemsOf s inputs = Ok redeems →
    proposed s (mkProposal chainDogecoin (du_why d) tx redeems (registerOf s inputs) fee).

(** A transaction of a proposal with enough signatures. *)
Definition sentFor (s : pegState) (x : string * MsgTx) : Prop :=
  ∃ p, proposed s p ∧ pr_Chain p = x.1 ∧ backed q p x.2.

(** Nothing is handed over again. *)
Definition resendsSame (c c' : coordinator) : Prop := resends c' = resends c ∧ resent c' = resent c.

Definition sends (P : string * MsgTx → Prop) (c c' : coordinator) : Prop :=
  resendsSame c c' ∧ ∃ new, sent c' = sent c ++ new ∧ Forall P new.

#[local] Instance sends_preorder P : PreOrder (sends P).
Proof.
  split.
  - intros c. split; [done|]. exists []. by rewrite app_nil_r.
  - intros c1 c2 c3 ([R1 T1]&n1&E1&F1) ([R2 T2]&n2&E2&F2). split; [split; congruence|]. exists (n1 ++ n2). rewrite E2, E1, app_assoc. split; [done|by apply Forall_app].
Qed.

Lemma propose_sends P p : (∀ tx, backed q p tx → P (pr_Chain p, tx)) → preserves (sends P) (propose q p).
Proof.
  intros HP c r c'. unfold propose. rewrite st_bind_run. destruct (authorize q p) as [tx|e] eqn:Ea; cbn [st_lift].
  - intros [= _ <-]. split; [done|]. exists [(pr_Chain p, tx)]. split; [done|]. constructor; [by apply HP, authorize_backed|constructor].
  - intros [= _ <-]. reflexivity.
Qed.

(** The coin the peg's transactions on a chain spend first. *)
Definition anchorOf (s : pegState) (chain : string) : option utxo :=
  if bool_decide (chain = chainDogecoinVM) then reserveAnchor s else pegAnchor s.

Definition inLine (s : pegState) (chain : string) (tx : MsgTx) : Prop :=
  ∃ a, anchorOf s chain = Some a ∧ head (prevOuts tx) = Some (u_outPoint a).

Lemma prevOuts_mk mk v inputs outs lt :
  (∀ u, PreviousOutPoint (mk u) = u_outPoint u) → prevOuts (mkMsgTx v (mk <$> inputs) outs lt) = u_outPoint <$> inputs.
Proof. intros Hmk. unfold prevOuts. cbn [txIn]. rewrite <- list_fmap_compose. apply list_fmap_ext. intros ? u _. apply Hmk. Qed.

Lemma buildRelease_prevOuts b inputs total d tx : buildRelease b inputs total d = Ok tx → prevOuts tx = u_outPoint <$> inputs.
Proof.
  unfold buildRelease. intros (data&_&[= <-])%bind_Ok. rewrite addInputs_fields. destruct (0 <? _); by apply (prevOuts_mk spend).
Qed.

Lemma buildCancel_prevOuts b inputs op tx : buildCancel b inputs op = Ok tx → prevOuts tx = u_outPoint <$> inputs.
Proof.
  unfold buildCancel. intros ([]&_&E)%bind_Ok. apply bind_Ok in E as ([]&_&E). apply bind_Ok in E as (data&_&[= <-]).
  rewrite addInputs_fields. by apply (prevOuts_mk spend).
Qed.

Lemma buildPayout_prevOuts b inputs value dest data fee tx :
  buildPayout b inputs value dest data fee = Ok tx → prevOuts tx = u_outPoint <$> inputs.
Proof.
  unfold buildPayout. rewrite payoutLoop_fields, addInputs_fields. intros ([]&_&E)%bind_Ok. apply bind_Ok in E as ([]&_&E).
  apply bind_Ok in E as ([]&_&E). destruct (if _ <? _ then _ else _) as [change topUp]. apply bind_Ok in E as (dataOut&_&E).
  apply bind_Ok in E as ([]&_&[= <-]). by apply (prevOuts_mk spendReplaceable).
Qed.

Lemma anchoredSelection_head a available need inputs total :
  anchoredSelection a available need = Ok (inputs, total) → ∃ more, inputs = a :: more.
Proof.
  unfold anchoredSelection. destruct (need <=? _); [intros [= <- _]; by exists []|].
  intros ([more t]&_&[= <- _])%bind_Ok. by exists more.
Qed.

Lemma releaseInputs_head s v inputs total : releaseInputs s v = Ok (inputs, total) → ∃ a more, reserveAnchor s = Some a ∧ inputs = a :: more.
Proof.
  unfold releaseInputs. destruct (reserveAnchor s) as [a|]; [|done]. destruct (containsOutPoint _ _); [|done].
  intros (more&->)%anchoredSelection_head. by exists a, more.
Qed.

Lemma cancelInputs_head s fee inputs : cancelInputs s fee = Ok inputs → ∃ a more, reserveAnchor s = Some a ∧ inputs = a :: more.
Proof.
  unfold cancelInputs. destruct (reserveAnchor s) as [a|]; [|done]. destruct (containsOutPoint _ _); [|done].
  intros ([l t]&(more&->)%anchoredSelection_head&[= <-])%bind_Ok. by exists a, more.
Qed.

Lemma payoutInputs_head s l v inputs : payoutInputs s l v = Ok inputs → ∃ a more, pegAnchor s = Some a ∧ inputs = a :: more.
Proof.
  unfold payoutInputs. destruct (pegAnchor s) as [a|]; [|done]. destruct (negb _); [done|].
  intros ([l' t]&(more&->)%anchoredSelection_head&[= <-])%bind_Ok. by exists a, more.
Qed.

Lemma inLine_intro s chain a more tx :
  anchorOf s chain = Some a → prevOuts tx = u_outPoint <$> a :: more → inLine s chain tx.
Proof. intros Ha Hp. exists a. by rewrite Hp. Qed.

(** What a transaction of the line looks like once sent. *)
Definition sentInLine (s : pegState) (x : string * MsgTx) : Prop := sentFor s x ∧ inLine s x.1 x.2.

Lemma proposed_sends s p : proposed s p → inLine s (pr_Chain p) (pr_tx p) → preserves (sends (sentInLine s)) (propose q p).
Proof.
  intros Hp (a&Ha&Hh). apply propose_sends. intros tx Hb. split; [by exists p|]. exists a. split; [done|].
  cbn [snd]. apply backed_same in Hb as (_&->&_). done.
Qed.

Lemma release_sends s d :
  d ∈ deposits s → toCredit q s d = true → vmPending s = false → preserves (sends (sentInLine s)) (release q s d).
Proof.
  intros Hd Hc Hv. unfold release. apply (preserves_lift_bind _). intros [inputs total] Ei. apply (preserves_lift_bind _). intros tx Et.
  apply proposed_sends; [eapply proposedRelease; [done..|]; by exists inputs, total, tx|]. apply releaseInputs_head in Ei as (a&more&Ha&->).
  eapply inLine_intro; [exact Ha|by eapply buildRelease_prevOuts].
Qed.

Lemma payFromPeg_sends s value dest data why :
  payment s value dest data why → preserves (sends (sentInLine s)) (payFromPeg q s value dest data why).
Proof.
  intros Hp. unfold payFromPeg. apply (preserves_lift_bind _). intros [] Hf%ensure_Ok%negb_true_iff%Z.leb_gt.
  apply (preserves_lift_bind _). intros inputs Ei. apply (preserves_lift_bind _). intros tx Et.
  apply (preserves_lift_bind _). intros redeems Er. apply proposed_sends; [eapply proposedPayment; [done|]; by exists inputs, tx, redeems|].
  apply payoutInputs_head in Ei as (a&more&Ha&->). eapply inLine_intro; [exact Ha|by eapply buildPayout_prevOuts].
Qed.

Lemma cancel_sends s op :
  released s !! op = None → refunded s !! op = None → preserves (sends (sentInLine s)) (cancel q s op).
Proof.
  intros Hr Hf. unfold cancel. apply (preserves_lift_bind _). intros [] Hv%ensure_Ok%negb_true_iff.
  apply (preserves_lift_bind _). intros inputs Ei. apply (preserves_lift_bind _). intros tx Et.
  apply proposed_sends; [by eapply proposedCancel|]. apply cancelInputs_head in Ei as (a&more&Ha&->).
  eapply inLine_intro; [exact Ha|by eapply buildCancel_prevOuts].
Qed.

(** At most one replacement is sent, and then nothing else is done. *)
Lemma bumpLoop_sends s todo : (∀ d, d ∈ todo → dueIn s d) → ∀ c,
  run (bumpLoop q s todo) c (fun r c' => resendsSame c c' ∧ (sent c' = sent c ∨ r ≠ Ok None ∧ ∃ x, sentFor s x ∧ sent c' = sent c ++ [x])).
Proof.
  induction todo as [|d todo IH]; intros Hd c; cbn [bumpLoop]; [by split; [|left]|].
  destruct (bumpTx q s d) as [[[[r fee] inputs] tx]|] eqn:Eb; [|apply IH; set_solver].
  apply run_lift_bind; [|by split; [|left]]. intros redeems Er. set (p := mkProposal _ _ _ _ _ _).
  unfold propose. apply run_bind, run_lift_bind; [|by split; [|left]]. intros tx' Ea%authorize_backed. unfold run, send.
  assert (sentFor s (pr_Chain p, tx')) by (exists p; split_and!; [eapply proposedBump; [set_solver|done..]|done|done]).
  destruct (q_send q _ tx') as [txid|e]; (split; [done|]); right; (split; [done|by eexists]).
Qed.

Lemma bumpStuck_sends s c :
  run (bumpStuck q s) c (fun r c' => resendsSame c c' ∧ (sent c' = sent c ∨ r ≠ Ok None ∧ ∃ x, sentFor s x ∧ sent c' = sent c ++ [x])).
Proof.
  unfold bumpStuck. destruct (_ <=? 0); [by split; [|left]|]. apply bumpLoop_sends. intros d [Hd|Hd]%elem_of_app.
  - apply list_elem_of_omap in Hd as (p&Hp&E). left. eauto.
  - apply list_elem_of_omap in Hd as (x&Hx&E). right. eauto.
Qed.

Lemma firstOf_preserves {A} R `{!PreOrder R} (try : A → St coordinator did) l failed :
  (∀ x, x ∈ l → preserves R (try x)) → preserves R (firstOf try l failed).
Proof.
  revert failed. induction l as [|x l IH]; intros failed Ht c r c'; cbn [firstOf]; [intros [= _ <-]; reflexivity|].
  destruct (try x c) as [[d|e] c1] eqn:Ex; (assert (R c c1) as Hc by (eapply Ht; [by left|exact Ex])).
  - by intros [= _ <-].
  - intros E. etrans; [exact Hc|]. eapply IH; [|exact E]. set_solver.
Qed.

(** A transaction the view shows waiting for a block: the node lists it
    unconfirmed, and it spends the peg's coins; or it is a fence the Dogecoin
    node dropped, conflicted and not yet dead. *)
Inductive waits (s : pegState) : string → chainTx → Prop :=
| waitsOnVM txid t : waits_in (peg_script (q_b q)) (vmTxs s) txid t → waits s chainDogecoinVM t
| waitsOnDoge txid t : waits_in (has (redeemFor s)) (dogeTxs s) txid t → waits s chainDogecoin t
| waitsDropped t : t ∈ cv_conflicted (view s chainDogecoin) → is_Some (parseFence (ct_tx t)) →
    - ct_confirmations t < cv_depth (view s chainDogecoin) → waits s chainDogecoin t.

(** A transaction handed over again: one that waits, not handed over again in
    the resendEvery before; when it was is remembered. *)
Definition resentFor (s : pegState) (c c' : coordinator) (x : string * MsgTx) : Prop :=
  (∃ t, waits s x.1 t ∧ x.2 = ct_tx t) ∧
  (∀ last, resent c !! TxHash x.2 = Some last → resendEvery ≤ q_now q - last) ∧
  resent c' !! TxHash x.2 = Some (q_now q).

(** What passes over transactions, of hashes in D, leave. *)
Definition resendsFrom (s : pegState) (D : bytes → Prop) (c c' : coordinator) : Prop :=
  sent c' = sent c ∧
  (∃ again, resends c' = resends c ++ again ∧ Forall (fun x => resentFor s c c' x ∧ D (TxHash x.2)) again) ∧
  ∀ txid, resent c' !! txid = resent c !! txid ∨ resent c' !! txid = Some (q_now q).

Lemma resendsFrom_refl s D c : resendsFrom s D c c.
Proof. split; [done|]. split; [|by left]. exists []. by rewrite app_nil_r. Qed.

Lemma resendOne_from s D c0 chain c txid t :
  waits s chain t → txid = TxHash (ct_tx t) → D txid → resendsFrom s D c0 c →
  resendsFrom s D c0 (resendOne q chain c (txid, t)).
Proof.
  intros Hw -> HD Hc. unfold resendOne. set (c1 := mkCoordinator _ _ _).
  assert ((∀ last, resent c !! TxHash (ct_tx t) = Some last → resendEvery ≤ q_now q - last) → resendsFrom s D c0 c1) as Hgo.
  2: { destruct (resent c !! TxHash (ct_tx t)) as [last|]; [|by apply Hgo]. destruct (_ <? resendEvery) eqn:El; [done|].
       apply Hgo. intros ? [= <-]. by apply Z.ltb_ge. }
  intros Hdue. destruct Hc as (Es&(again&Ea&Hf)&Ht). subst c1. split; [done|]. split; cbn.
  - exists (again ++ [(chain, ct_tx t)]). rewrite Ea, app_assoc. split; [done|]. apply Forall_app. split.
    + eapply Forall_impl; [exact Hf|]. intros x ((H1&H2&H3)&H4). split; [|done]. split; [done|]. split; [done|]. cbn.
      destruct (decide (TxHash (ct_tx t) = TxHash x.2)) as [->|]; [by rewrite lookup_insert_eq|by rewrite lookup_insert_ne].
    + constructor; [|constructor]. split; [|done]. split; [by exists t|]. cbn. rewrite lookup_insert_eq. split; [|done].
      intros last E. destruct (Ht (TxHash (ct_tx t))) as [E'|E']; [apply Hdue; congruence|].
      specialize (Hdue _ E'). unfold resendEvery, second in Hdue. lia.
  - intros txid. destruct (decide (TxHash (ct_tx t) = txid)) as [->|]; [right; by rewrite lookup_insert_eq|].
    rewrite lookup_insert_ne by done. apply Ht.
Qed.

Lemma resendAll_from s D c0 chain txs c :
  map_Forall (fun txid t => waits s chain t ∧ txid = TxHash (ct_tx t)) txs → (∀ txid, is_Some (txs !! txid) → D txid) →
  resendsFrom s D c0 c → resendsFrom s D c0 (resendAll q chain txs c).
Proof.
  intros Ht HD Hc. unfold resendAll. destruct (q_resend q chain); [|done].
  apply (foldl_inv (resendsFrom s D c0)); [done|]. intros c1 [txid t] Hin H1.
  rewrite map_range_perm, elem_of_map_to_list in Hin. destruct (Ht _ _ Hin). apply resendOne_from; [done..| |done]. by apply HD.
Qed.

Lemma dogeResends_wait s vm doge : load (q_b q) vm doge = Ok s →
  map_Forall (fun txid t => waits s chainDogecoin t ∧ txid = TxHash (ct_tx t)) (dogeResends s).
Proof.
  intros [Hd _]%load_waits. unfold dogeResends.
  apply (foldl_inv (map_Forall (fun txid t => waits s chainDogecoin t ∧ txid = TxHash (ct_tx t)))).
  - intros txid t Ht. specialize (Hd txid t Ht). split; [by eapply waitsOnDoge|by destruct Hd].
  - intros m t Ht Hm. case_match eqn:E; [|done]. apply andb_true_iff in E as [Hf%bool_decide_eq_true Hl%Z.ltb_lt].
    apply map_Forall_insert_2; [|done]. split; [by apply waitsDropped|done].
Qed.

(** Rebroadcasting hands over nothing new, and only what waits. *)
Lemma rebroadcast_resends s vm doge c : load (q_b q) vm doge = Ok s →
  run (rebroadcast q s) c (fun r c' => r = Ok tt ∧ sent c' = sent c ∧
    ∃ again, resends c' = resends c ++ again ∧ Forall (resentFor s c c') again).
Proof.
  intros Hl. pose proof (dogeResends_wait _ _ _ Hl) as Hd. apply load_waits in Hl as [_ Hv]. unfold run, rebroadcast.
  set (D := fun txid => is_Some (dogeResends s !! txid) ∨ is_Some (vmUnconfirmed s !! txid)).
  set (c' := resendAll q chainDogecoinVM _ _).
  assert (resendsFrom s D c c') as (Es&(again&Ea&Hf)&_).
  { apply resendAll_from; [|by right|apply resendAll_from; [done|by left|apply resendsFrom_refl]].
    intros txid t Ht. specialize (Hv txid t Ht). split; [by eapply waitsOnVM|by destruct Hv]. }
  clearbody c'. split; [done|]. split; [done|]. exists again. split; [done|]. eapply Forall_impl; [exact Hf|].
  intros x ((H1&H2&H3)&HD). split; [done|]. split; [done|]. cbn. apply map_lookup_filter_Some. by split.
Qed.

(** Crediting and paying, when nothing was replaced. *)
Lemma credits_send s failed :
  vmPending s = false → preserves (sends (sentInLine s)) (firstOf (credit q s) (filter (fun d => toCredit q s d = true) (deposits s)) failed).
Proof.
  intros Hv. apply firstOf_preserves; [apply _|]. intros d [Hc Hd]%list_elem_of_filter.
  apply preserves_bind; [apply _|by apply release_sends|]. intros txid. apply preserves_ret, _.
Qed.

Lemma payouts_send s failed :
  preserves (sends (sentInLine s)) (firstOf (payOut q s) (filter (fun p => negb (has (paid s) (p_txid p)) = true) (pegOuts s)) failed).
Proof.
  apply firstOf_preserves; [apply _|]. intros p [Hn%negb_true_iff%has_false Hp]%list_elem_of_filter.
  apply preserves_bind; [apply _|by apply payFromPeg_sends, paysPegOut|]. intros txid. apply preserves_ret, _.
Qed.

(** What was sent from one view: proposals made on it, with enough signatures;
    any two to one chain spend a common coin, so at most one is ever confirmed. *)
Definition sentFrom (s : pegState) (new : list (string * MsgTx)) : Prop :=
  Forall (sentFor s) new ∧
  ∀ i j chain tx tx', new !! i = Some (chain, tx) → new !! j = Some (chain, tx') → i ≠ j →
    ∃ op, op ∈ prevOuts tx ∧ op ∈ prevOuts tx'.

Lemma sentFrom_line s new : Forall (sentInLine s) new → sentFrom s new.
Proof.
  intros Hn. split; [eapply Forall_impl; [exact Hn|]; by intros x [? _]|].
  intros i j chain tx tx' Hi Hj _. rewrite Forall_lookup in Hn.
  destruct (Hn _ _ Hi) as [_ (a&Ha&Hh)], (Hn _ _ Hj) as [_ (a'&Ha'&Hh')]. cbn [fst snd] in *. simplify_eq.
  exists (u_outPoint a). split; eapply (head_Some_elem_of _ _); done.
Qed.

Lemma sentFrom_one s x : sentFor s x → sentFrom s [x].
Proof.
  intros Hx. split; [by repeat constructor|]. intros i j chain tx tx' Hi%lookup_lt_Some Hj%lookup_lt_Some. simpl in *. lia.
Qed.

Lemma refund_sends s op dest force :
  preserves (sends (sentInLine s))
    (_ ← st_ensure (negb (has (refunded s) op)) (Errorf "already refunded");
     _ ← st_ensure (negb (has (released s) op)) (Errorf "already credited");
     _ ← st_ensure (negb (bool_decide (cancelled s !! op = Some false)))
           (Errorf "the deposit's cancellation on DogecoinVM isn't in a block yet");
     refundHeld q s op dest force).
Proof.
  apply (preserves_lift_bind _). intros [] Hf%ensure_Ok%negb_true_iff%has_false.
  apply (preserves_lift_bind _). intros [] Hr%ensure_Ok%negb_true_iff%has_false.
  apply (preserves_lift_bind _). intros [] Hc%ensure_Ok%negb_true_iff%bool_decide_eq_false.
  assert (preserves (sends (sentInLine s)) (cancelFirst q s op)) as Hcf
    by (apply preserves_bind; [apply _|by apply cancel_sends|intros ?; apply preserves_lift, _]).
  unfold refundHeld. destruct (findDeposit (held s) op) as [d|] eqn:Ed.
  - apply findDeposit_Some in Ed as [Hd <-]. apply (preserves_lift_bind _). intros [] Hb.
    destruct (d_hasDest d && negb _) eqn:Eh; [done|]. apply payFromPeg_sends, paysRefund; try done.
    intros Hh. rewrite Hh in Eh. by apply negb_false_iff, has_true in Eh.
  - destruct (findDeposit (deposits s) op); [|apply preserves_lift, _]. apply (preserves_lift_bind _). by intros [] _.
Qed.

Lemma sends_from s c c' : sends (sentInLine s) c c' → resendsSame c c' ∧ ∃ new, sent c' = sent c ++ new ∧ sentFrom s new.
Proof. intros (Hr&new&E&Hn%sentFrom_line). split; [done|]. by exists new. Qed.

(** One step after rebroadcasting, on a solvent view. *)
Lemma sentFrom_nil s c c' : sent c' = sent c → ∃ new, sent c' = sent c ++ new ∧ sentFrom s new.
Proof. intros E. exists []. rewrite app_nil_r. split; [done|]. by apply sentFrom_line. Qed.

Lemma afterBump_sends s c :
  run ('(credited, failed) ← (if vmPending s then mret (None, false)
                              else firstOf (credit q s) (filter (fun d => toCredit q s d = true) (deposits s)) false);
       match credited with
       | Some d => mret (Some d)
       | None =>
           '(paidOut, failed) ← firstOf (payOut q s) (filter (fun p => negb (has (paid s) (p_txid p)) = true) (pegOuts s)) failed;
           match paidOut with
           | Some d => mret (Some d)
           | None => if (failed : bool) then st_lift (Err stepFailed) else mret None
           end
       end) c (fun _ c' => resendsSame c c' ∧ ∃ new, sent c' = sent c ++ new ∧ sentFrom s new).
Proof.
  eapply run_mono; [|intros r2 c2 H2; apply sends_from; exact H2].
  apply run_preserves. apply preserves_bind; [apply _| |].
  { destruct (vmPending s) eqn:Ev; [apply preserves_ret, _|by apply credits_send]. }
  intros [credited failed]. destruct credited; [apply preserves_ret, _|].
  apply preserves_bind; [apply _|apply payouts_send|]. intros [paidOut failed']. destruct paidOut; [apply preserves_ret, _|].
  destruct failed'; [apply preserves_lift, _|apply preserves_ret, _].
Qed.

(** One step on a view. *)
Lemma stepOn_sends s vm doge c : load (q_b q) vm doge = Ok s →
  run (stepOn q s) c (fun _ c' => ∃ new again, sent c' = sent c ++ new ∧ resends c' = resends c ++ again ∧
    sentFrom s new ∧ Forall (resentFor s c c') again).
Proof.
  intros Hl. unfold stepOn. apply run_bind. eapply run_mono; [by eapply rebroadcast_resends|]. cbv beta.
  intros r0 c0 (->&E0&again&Ea&Hf).
  assert (∀ c', resendsSame c0 c' → (∃ new, sent c' = sent c0 ++ new ∧ sentFrom s new) →
    ∃ new again, sent c' = sent c ++ new ∧ resends c' = resends c ++ again ∧ sentFrom s new ∧ Forall (resentFor s c c') again) as Hdone.
  { intros c' [R T] (new&En&Hn). exists new, again. rewrite En, E0, R, Ea. split_and!; [done..|].
    eapply Forall_impl; [exact Hf|]. intros x (H1&H2&H3). split_and!; [done..|]. by rewrite T. }
  apply run_bind. eapply run_mono; [apply bumpStuck_sends|]. cbv beta.
  intros r1 c1 [R1 [E1|(Hr&x&Hx&E1)]].
  - destruct r1 as [[d|]|e1]; [by apply Hdone, sentFrom_nil| |by apply Hdone, sentFrom_nil].
    eapply run_mono; [apply afterBump_sends|]. intros _ c2 [[R2 T2] (new&En&Hn)]. destruct R1 as [R1 T1].
    apply Hdone; [split; congruence|]. exists new. rewrite <- E1. done.
  - destruct r1 as [[d|]|e1]; try done; (apply Hdone; [done|]); exists [x]; (split; [done|by apply sentFrom_one]).
Qed.

Definition sendsOn (P : pegState → Prop) (c c' : coordinator) : Prop :=
  ∃ new again, sent c' = sent c ++ new ∧ resends c' = resends c ++ again ∧
    (new ≠ [] ∨ again ≠ [] → q_paused q = None ∧ ∃ s, load (q_b q) (q_vm q) (q_doge q) = Ok s ∧ P s ∧
       sentFrom s new ∧ Forall (resentFor s c c') again).

Lemma sendsOn_refl P c : sendsOn P c c.
Proof. exists [], []. rewrite !app_nil_r. split_and!; [done..|]. by intros [?|?]. Qed.

Lemma step_sendsOn c : run (step q) c (fun _ c' => sendsOn (fun s => solvent (audit s) = true) c c').
Proof.
  unfold step, ifPaused. destruct (q_paused q) as [e|] eqn:Ep; [apply sendsOn_refl|].
  apply run_lift_bind; [|intros; apply sendsOn_refl]. intros s El.
  apply run_lift_bind; [|intros; apply sendsOn_refl]. intros [] Es%ensure_Ok.
  eapply run_mono; [by eapply stepOn_sends|]. intros _ c' (new&again&E&Ea&Hn). exists new, again. split_and!; [done..|].
  intros _. by eauto.
Qed.

Lemma refund_sendsOn op dest force c :
  run (refund q op dest force) c (fun _ c' => sendsOn (fun _ => True) c c' ∧ resends c' = resends c).
Proof.
  unfold refund, ifPaused. destruct (q_paused q) as [e|] eqn:Ep; [by split; [apply sendsOn_refl|]|].
  apply run_lift_bind; [|by split; [apply sendsOn_refl|]]. intros s El.
  eapply run_mono; [apply run_preserves, refund_sends|]. intros _ c' ([R _]&new&E&Hn)%sends_from. split; [|done].
  exists new, []. rewrite app_nil_r. split_and!; [done..|]. intros _. split; [done|]. by exists s.
Qed.

End sends.

Section property.
Context `{CR : Crypto} `{RO : GoRuntimeOk}.


End property.
