(* ===== verification/Signing.v ===== *)
(** What a signer's answer means (src/cmd/dogevm/cosign.go): the theorems
    about check and handleSign of Cosigner. *)

From Stdlib Require Import Ascii String.
From S2P Require Import Prelude Text Wire Script Tags Amount Peg Lineage State Build Load SigningLog Registry.
From S2P Require Import Cutover Fence Cosigner.

(** ** What handling a request keeps of the log *)

(** The same transactions, values and dates; only the IDs they were seen under
    may have grown. *)
Definition same_tx (t t' : loggedTx) : Prop :=
  Txid t = Txid t' ∧ Inputs t = Inputs t' ∧ lt_Chain t = lt_Chain t' ∧ Fee t = Fee t'.

Definition same_action (a a' : loggedAction) : Prop :=
  la_Value a = la_Value a' ∧ First a = First a' ∧ Forall2 same_tx (Txs a) (Txs a').

Definition kept (l l' : signingLog) : Prop :=
  ∀ k, option_Forall2 same_action (Actions l !! k) (Actions l' !! k).

#[export] Instance same_tx_preorder : PreOrder same_tx.
Proof.
  split; [by intros t|]. intros t1 t2 t3 (A1 & B1 & C1 & D1) (A2 & B2 & C2 & D2).
  split_and!; congruence.
Qed.

#[export] Instance same_action_preorder : PreOrder same_action.
Proof.
  split.
  - intros a. split_and!; [done..|]. reflexivity.
  - intros a1 a2 a3 (A1 & B1 & C1) (A2 & B2 & C2). split_and!; [congruence..|]. by etrans.
Qed.

#[export] Instance kept_preorder : PreOrder kept.
Proof.
  split.
  - intros l k. destruct (Actions l !! k); constructor. reflexivity.
  - intros l1 l2 l3 H1 H2 k. specialize (H1 k). specialize (H2 k).
    destruct H1 as [a1 a2 E1|]; inversion H2; subst; constructor. by etrans.
Qed.

Lemma kept_actions l l' : Actions l' = Actions l → kept l l'.
Proof. intros E k. rewrite E. destruct (Actions l !! k); constructor. reflexivity. Qed.

Lemma kept_has l l' k : kept l l' → log_has l' k = log_has l k.
Proof.
  intros Hk. specialize (Hk k). unfold log_has, has. apply bool_decide_ext.
  inversion Hk as [? ? ? E1 E2|E1 E2]; rewrite <- ?E1, <- ?E2; split; intros [? ?]; by eauto.
Qed.

Lemma kept_entries l l' k : kept l l' → Forall2 same_entry (entries k l) (entries k l').
Proof.
  intros Hk. specialize (Hk k). unfold entries.
  inversion Hk as [a a' (_ & _ & Hf) E1 E2|E1 E2]; [|constructor].
  eapply Forall2_impl; [exact Hf|]. intros t t' (? & ? & _). done.
Qed.

(** In memory and on disk: what reached the disk was the log at some point. *)
Definition keeps_ls (s s' : logState) : Prop :=
  kept (ls_log s) (ls_log s') ∧ (ls_disk s' = ls_disk s ∨ kept (ls_log s) (ls_disk s')).

#[export] Instance keeps_ls_preorder : PreOrder keeps_ls.
Proof.
  split; [intros c; split; [reflexivity|by left]|].
  intros c1 c2 c3 [M1 D1] [M2 D2]. split; [by etrans|].
  destruct D2 as [->|D2]; [exact D1|]. right. by etrans.
Qed.

Definition keeps_log (c c' : cosigner) : Prop := keeps_ls (c_log c) (c_log c').

#[export] Instance keeps_log_preorder : PreOrder keeps_log.
Proof. split; [intros c; unfold keeps_log; reflexivity|]. intros c1 c2 c3. unfold keeps_log. by etrans. Qed.

Section keeps.
Context {CR : Crypto} {RT : GoRuntime}.

Lemma on_log_keeps {A} (m : St logState A) : preserves keeps_ls m → preserves keeps_log (on_log m).
Proof.
  intros Hm c r c'. unfold on_log. destruct (m (c_log c)) as [r1 ls] eqn:E. intros [= _ <-].
  by apply Hm in E.
Qed.

Lemma on_registry_keeps {A} (m : St registryState A) : preserves keeps_log (on_registry m).
Proof.
  intros c r c'. unfold on_registry. destruct (m (c_registry c)) as [r1 rs]. intros [= _ <-].
  unfold keeps_log. reflexivity.
Qed.

Lemma setRegistered_keeps ts : preserves keeps_log (setRegistered ts).
Proof. intros c r c' [= _ <-]. unfold keeps_log. reflexivity. Qed.
Lemma setFenceFee_keeps f : preserves keeps_log (setFenceFee f).
Proof. intros c r c' [= _ <-]. unfold keeps_log. reflexivity. Qed.
Lemma setMine_keeps m : preserves keeps_log (setMine m).
Proof. intros c r c' [= _ <-]. unfold keeps_log. reflexivity. Qed.
Lemma setMarker_keeps m : preserves keeps_log (setMarker m).
Proof. intros c r c' [= _ <-]. unfold keeps_log. reflexivity. Qed.

Lemma getLog_keeps : preserves keeps_ls getLog.
Proof. intros s r s' [= _ <-]. reflexivity. Qed.

Lemma log_write_keeps : preserves keeps_ls log_write.
Proof.
  intros s r s'. unfold log_write. destruct (nextWrite (ls_writes s)) as [o ws]. intros [= _ <-].
  split; [reflexivity|]. simpl. destruct (reaches_disk o); [right; reflexivity|by left].
Qed.

(** Methods of the log that leave its actions alone. *)
Definition acts (A : gmap string loggedAction) (s s' : logState) : Prop :=
  Actions (ls_log s) = A →
  Actions (ls_log s') = A ∧ (ls_disk s' = ls_disk s ∨ Actions (ls_disk s') = A).

#[local] Instance acts_preorder A : PreOrder (acts A).
Proof.
  split; [intros s E; by split; [|left]|]. intros s1 s2 s3 H1 H2 E.
  destruct (H1 E) as [E2 D2], (H2 E2) as [E3 D3]. split; [done|].
  destruct D3 as [->|D3]; [exact D2|by right].
Qed.

Lemma acts_keeps {T} (m : St logState T) : (∀ A, preserves (acts A) m) → preserves keeps_ls m.
Proof.
  intros Hm s r s' E. destruct (Hm (Actions (ls_log s)) s r s' E eq_refl) as [E1 [D|D]];
    split; eauto using kept_actions.
Qed.

Lemma getLog_acts {T} A (f : signingLog → St logState T) :
  (∀ l, Actions l = A → preserves (acts A) (f l)) → preserves (acts A) (getLog ≫= f).
Proof. intros Hf s r s' E Hs. by eapply (Hf (ls_log s)). Qed.

Lemma putLog_acts A l : Actions l = A → preserves (acts A) (putLog l).
Proof. intros El s r s' [= _ <-] _. by split; [|left]. Qed.

Lemma log_write_acts A : preserves (acts A) log_write.
Proof.
  intros s r s'. unfold log_write. destruct (nextWrite (ls_writes s)) as [o ws]. intros [= _ <-] E.
  split; [done|]. simpl. destruct (reaches_disk o); eauto.
Qed.

Hint Resolve getLog_acts putLog_acts log_write_acts : steps.

Lemma startCutover_acts A set pub now s : preserves (acts A) (startCutover set pub now s).
Proof. unfold startCutover, st_ensure. apply getLog_acts. preserve. Qed.

Lemma endCutover_acts A s : preserves (acts A) (endCutover s).
Proof. unfold endCutover, finishCutover. apply getLog_acts. intros l El. cbv zeta. preserve. Qed.

Hint Resolve startCutover_acts endCutover_acts : steps.

Lemma advanceCutover_acts A set pub now s : preserves (acts A) (advanceCutover set pub now s).
Proof. unfold advanceCutover. apply getLog_acts. preserve. Qed.

Hint Resolve advanceCutover_acts : steps.

Lemma cutoverGate_acts A set pub now s : preserves (acts A) (cutoverGate set pub now s).
Proof. unfold cutoverGate, st_ensure. preserve. Qed.

Lemma cutoverBudgetRoom_acts A set s key fee : preserves (acts A) (cutoverBudgetRoom set s key fee).
Proof.
  unfold cutoverBudgetRoom, st_ensure. apply getLog_acts. intros l El.
  pose proof (addFenceCapital_actions s (shareOf set) l) as [Ea _].
  destruct (addFenceCapital s (shareOf set) l) as [l' ch]. simpl in Ea. preserve.
  all: apply putLog_acts; congruence.
Qed.

Lemma learnTx_same e t : same_tx t (learnTx e t).
Proof.
  unfold learnTx. apply (foldl_inv (fun t' => same_tx t t')); [reflexivity|].
  intros t' [chain byID] _ Ht. destruct (byID !! Txid t'); [|done].
  destruct (contains _ _); [done|]. by destruct Ht as (? & ? & ? & ?).
Qed.

Lemma learnLog_kept e l : kept l (learnLog e l).
Proof.
  intros k. unfold learnLog. simpl. rewrite lookup_fmap.
  destruct (Actions l !! k) as [a|]; constructor. split_and!; [done..|]. simpl.
  apply Forall2_fmap_r. apply Forall_Forall2_diag, Forall_true. apply learnTx_same.
Qed.

Lemma learnSigned_keeps e : preserves keeps_ls (learnSigned e).
Proof.
  intros st r st'. unfold learnSigned, mbind, st_bind. simpl.
  set (st1 := mkLogState _ _ _).
  assert (H1 : keeps_ls st st1) by (split; [apply learnLog_kept|by left]).
  destruct (existsb _ _); [|by intros [= _ <-]]. intros E. apply log_write_keeps in E. by etrans.
Qed.

Lemma loadView_keeps e doge : preserves keeps_log (loadView e doge).
Proof. intros c r c' [= _ <-]. reflexivity. Qed.

Lemma advanceCutover_keeps set pub now s : preserves keeps_ls (advanceCutover set pub now s).
Proof. apply acts_keeps. intros A. apply advanceCutover_acts. Qed.
Lemma cutoverGate_keeps set pub now s : preserves keeps_ls (cutoverGate set pub now s).
Proof. apply acts_keeps. intros A. apply cutoverGate_acts. Qed.
Lemma cutoverBudgetRoom_keeps set s key fee : preserves keeps_ls (cutoverBudgetRoom set s key fee).
Proof. apply acts_keeps. intros A. apply cutoverBudgetRoom_acts. Qed.

Hint Resolve on_log_keeps on_registry_keeps setRegistered_keeps setFenceFee_keeps setMine_keeps setMarker_keeps
  learnSigned_keeps loadView_keeps advanceCutover_keeps cutoverGate_keeps cutoverBudgetRoom_keeps : steps.

Lemma register_keeps e d : preserves keeps_log (register e d).
Proof. unfold register, st_ensure. preserve. Qed.

Hint Resolve register_keeps : steps.

Lemma registerAll_keeps e dests : preserves keeps_log (registerAll e dests).
Proof. induction dests; simpl; preserve. Qed.

Lemma catchUp_keeps e s req tx : preserves keeps_log (catchUp e s req tx).
Proof. unfold catchUp. cbv zeta. preserve. Qed.

Lemma fence_keeps e s : preserves keeps_log (fence e s).
Proof. unfold fence, unlogged, quarantine. preserve. Qed.

Hint Resolve registerAll_keeps catchUp_keeps fence_keeps : steps.

Lemma checkView_keeps e req tx : preserves keeps_log (checkView e req tx).
Proof. unfold checkView, st_ensure. cbv zeta. preserve. all: apply on_log_keeps; preserve. Qed.

Lemma checkAction_keeps e x : preserves keeps_log (checkAction e x).
Proof. unfold checkAction, checkCancel, checkFenceAction. cbv zeta. preserve. Qed.

Hint Resolve checkView_keeps checkAction_keeps : steps.

Lemma handleRegister_keeps e d : preserves keeps_log (handleRegister e d).
Proof. unfold handleRegister. preserve. Qed.

Lemma handleStatus_keeps e : preserves keeps_log (handleStatus e).
Proof. unfold handleStatus. cbv zeta. preserve. Qed.
End keeps.

(** ** What a proposal passed before it is recorded *)

Section passed.
Context {CR : Crypto} {RT : GoRuntime}.

(** check passed req in state c, and left the signer in c1. *)
Record passed (e : signerEnv) (req : signRequest) (c : cosigner) (tx : MsgTx) (x : checkCtx) (k : checked)
    (c1 : cosigner) : Prop := {
  passed_running : e_paused e = false ∨ Kind (req_Action req) = actionFence;
  passed_tx : decodeProposal req = Ok tx;
  passed_view : ∃ ca cb, registerAll e (req_Register req) c = (Ok tt, ca) ∧
    checkView e req tx ca = (Ok x, cb) ∧ checkAction e x cb = (Ok k, c1);
  passed_log : checkLog e x k (ls_log (c_log c1)) = Ok tt;
}.

Lemma passed_keeps e req c tx x k c1 : passed e req c tx x k c1 → keeps_log c c1.
Proof.
  intros [_ _ (ca & cb & H1 & H2 & H3) _]. apply registerAll_keeps in H1. apply checkView_keeps in H2.
  apply checkAction_keeps in H3. by do 2 (etrans; [eassumption|]).
Qed.

Lemma check_Ok e req c tx redeems value c1 :
  check e req c = (Ok (tx, redeems, value), c1) →
  ∃ x k, passed e req c tx x k c1 ∧ redeems = k_redeems k ∧ value = k_value k.
Proof.
  unfold check. intros E. apply st_bind_Ok in E as ([] & c0 & Ep & E).
  injection Ep as Ep <-. apply ensure_Ok in Ep.
  apply st_bind_Ok in E as (tx' & c0 & Et & E). injection Et as Et <-.
  apply st_bind_Ok in E as ([] & ca & Er & E). apply st_bind_Ok in E as (x & cb & Ev & E).
  apply st_bind_Ok in E as (k & cc & Ea & E). apply st_bind_Ok in E as (c2 & c3 & [= <- <-] & E).
  apply st_bind_Ok in E as ([] & c4 & El & E). injection El as El <-. injection E as <- <- <- <-.
  exists x, k. split_and!; [|done..]. split; [|done|by eauto|done].
  destruct (e_paused e); [right|by left]. simpl in Ep. rewrite negb_involutive in Ep. by apply bool_decide_eq_true in Ep.
Qed.

Lemma check_keeps e req : preserves keeps_log (check e req).
Proof.
  unfold check, st_ensure. cbv zeta. pose proof registerAll_keeps. pose proof checkView_keeps.
  pose proof checkAction_keeps. preserve.
Qed.

(** The fee a record holds: what a cancellation or a fence takes of the surplus. *)
Definition recordedFee (e : signerEnv) (req : signRequest) (c : cosigner) : Z :=
  if bool_decide (Kind (req_Action req) = actionCancel) then vmFee (e_b e)
  else if bool_decide (Kind (req_Action req) = actionFence) then c_fenceFee c else 0.

(** The log once the proposal is recorded, in memory and on disk. *)
Record recordedAs (e : signerEnv) (req : signRequest) (key : string) (tx : MsgTx) (value : Z) (c1 c' : cosigner)
    (r : result (list bytes)) : Prop := {
  recorded_mem : ls_log (c_log c') =
    recorded (ls_log (c_log c1)) key (req_Chain req) tx value (recordedFee e req c1) (unix (e_now e));
  recorded_disk : ls_disk (c_log c') = ls_log (c_log c') ∨
    ls_disk (c_log c') = ls_disk (c_log c1) ∧ ∃ err, r = Err err;
}.

Lemma record_run key chain tx value fee now st :
  record key chain tx value fee now st =
  let l' := recorded (ls_log st) key chain tx value fee now in
  let '(o, rest) := nextWrite (ls_writes st) in
  (writeError o, mkLogState l' (if reaches_disk o then l' else ls_disk st) rest).
Proof. reflexivity. Qed.

(** Every request handled leaves the log's actions alone, without an answer,
    or records a proposal that passed every check. *)
Lemma handleSign_cases e req c r c' :
  handleSign e req c = (r, c') →
  (keeps_log c c' ∧ ∃ err, r = Err err) ∨
  ∃ key tx x k c1, action_key (req_Action req) = Ok key ∧ passed e req c tx x k c1 ∧
    recordedAs e req key tx (k_value k) c1 c' r ∧
    ∀ sigs, r = Ok sigs → signInputs e tx (k_redeems k) = Ok sigs.
Proof.
  unfold handleSign. unfold mbind at 1, st_bind at 1. simpl.
  destruct (action_key (req_Action req)) as [key|err]; [|intros [= <- <-]; left; split; [reflexivity|eauto]].
  unfold mbind at 1, st_bind at 1. destruct (check e req c) as [[[[tx redeems] value]|err] c1] eqn:Ec.
  2:{ intros [= <- <-]. left. split; [by eapply check_keeps|eauto]. }
  unfold mbind at 1, st_bind at 1. simpl. destruct (signInputs e tx redeems) as [sigs|err] eqn:Es.
  2:{ intros [= <- <-]. left. split; [by eapply check_keeps|eauto]. }
  apply check_Ok in Ec as (x & k & Hp & -> & ->). intros E. right.
  exists key, tx, x, k, c1. split_and!; [done..| |].
  all: revert E; unfold mbind, st_bind, on_log; simpl; rewrite record_run.
  all: destruct (nextWrite (ls_writes (c_log c1))) as [[] ws]; simpl; intros [= <- <-].
  - split; [done|by left].
  - split; [done|by right; eauto].
  - split; [done|by left].
  - by intros ? [= <-].
  - done.
  - done.
Qed.
End passed.

(** ** The view a proposal is checked against *)

Section viewed.
Context {CR : Crypto} {RT : GoRuntime}.

(** The Dogecoin node, or what it knows once transactions were imported. *)
Definition dogeNodeOf (e : signerEnv) (node : chain) : Prop :=
  node = e_doge e ∨ ∃ importTxs missing, e_importTxs e = Some importTxs ∧ node = importTxs missing.

(** What checkView hands to the checks of the action. *)
Record viewed (e : signerEnv) (req : signRequest) (tx : MsgTx) (x : checkCtx) (s : pegState) : Prop := {
  viewed_load : ∃ file, load (setRegistryOf (e_b e) file) (e_vm e) (x_doge x) = Ok s;
  viewed_doge : dogeNodeOf e (x_doge x);
  viewed_req : x_req x = req;
  viewed_tx : x_tx x = tx;
  viewed_listed : listed (x_ev x) = listed (newChainEvidence s None);
  viewed_nodes : nodes (x_ev x) = Some (chainNamed e (x_doge x));
  viewed_state : x_s x = addPendingFees s (x_unseen x);
  viewed_solvent : solvent (audit (x_s x)) = true;
}.

Lemma catchUp_Ok e s req tx c s' doge c' :
  catchUp e s req tx c = (Ok (s', doge), c') →
  c' = c ∧ dogeNodeOf e doge ∧
  (doge = e_doge e ∧ s' = s ∨ load (setRegistryOf (e_b e) (r_file (c_registry c))) (e_vm e) doge = Ok s').
Proof.
  unfold catchUp. destruct (e_importTxs e) as [importTxs|] eqn:Ei.
  - intros E. apply st_bind_Ok in E as (missing & c0 & Em & E). injection Em as _ <-.
    case_bool_decide; [injection E as <- <- <-; split_and!; [done|by left|by left]|].
    apply st_bind_Ok in E as (s1 & c1 & El & E). injection El as El <-. injection E as <- <- <-.
    split_and!; [done|right; eauto|by right].
  - intros [= <- <- <-]. split_and!; [done|by left|by left].
Qed.

Lemma checkView_Ok e req tx c x c' :
  checkView e req tx c = (Ok x, c') → ∃ s, viewed e req tx x s.
Proof.
  unfold checkView. intros E. apply st_bind_Ok in E as (s0 & c0 & El & E). injection El as El <-.
  apply st_bind_Ok in E as ([s doge] & c1 & Ec & E). apply catchUp_Ok in Ec as (-> & Hd & Hs).
  apply st_bind_Ok in E as ([] & c2 & Ef & E). apply st_bind_Ok in E as ([] & c3 & Eg & E).
  cbv zeta in E. apply st_bind_Ok in E as ([] & c4 & Els & E).
  apply st_bind_Ok in E as (c5 & c6 & [= <- <-] & E).
  apply st_bind_Ok in E as ([] & c5 & Es & E). injection Es as Es%ensure_Ok <-.
  injection E as <- <-. exists s. split; simpl; try done.
  destruct Hs as [[-> ->]|Hl]; eauto.
Qed.

(** An honest node of chain name, for a signer with log l: the blocks it knows
    stay, an output the signer logged as an input is gone only once a block
    spends it, and its wallet lists the blocks' transactions the signer logged
    (and, in blocks, nothing else but coinbases). *)
Definition honest_node (final : list MsgTx) (name : string) (l : signingLog) (addr : Address) (node : chain) : Prop :=
  ∃ blocks f, blocks ⊆ final ∧ unspentOn node = Some f ∧
    (∀ key t op, t ∈ entries key l → lt_Chain t = name → OutPoint_String op ∈ Inputs t → f op = false →
       ∃ b, b ∈ blocks ∧ op ∈ prevOuts b) ∧
    (∀ addrs txs, addr ∈ addrs → txsFor node addrs = Ok txs →
       (∀ b key t, b ∈ blocks → t ∈ entries key l → logged_as b t →
          ∃ ct, ct ∈ txs ∧ ct_tx ct = b ∧ 0 < ct_confirmations ct) ∧
       (∀ ct, ct ∈ txs → 0 < ct_confirmations ct → ct_tx ct ∈ blocks ∨ prevOuts (ct_tx ct) = [nullOut])).

Lemma kept_entry l l' key t' :
  kept l l' → t' ∈ entries key l' → ∃ t, t ∈ entries key l ∧ same_tx t t'.
Proof.
  intros Hk. specialize (Hk key). unfold entries.
  inversion Hk as [a a' (_ & _ & Hf) E1 E2|E1 E2]; [|by intros ?%elem_of_nil].
  intros Hin. apply list_elem_of_lookup in Hin as [i Hi].
  destruct (Forall2_lookup_r _ _ _ _ _ Hf Hi) as (t & Ht & Hs). exists t. split; [|done].
  by eapply list_elem_of_lookup_2.
Qed.

Lemma honest_node_kept final name l l' addr node :
  kept l l' → honest_node final name l addr node → honest_node final name l' addr node.
Proof.
  intros Hk (blocks & f & Hf & Hu & Hs & Hw). exists blocks, f. split_and!; [done..| |].
  - intros key t' op Hin Hc Hop Hff. destruct (kept_entry _ _ _ _ Hk Hin) as (t & Ht & (_ & Ei & Ec & _)).
    eapply Hs; [done|congruence|by rewrite Ei|done].
  - intros addrs txs Ha Ht. destruct (Hw addrs txs Ha Ht) as [H1 H2]. split; [|done].
    intros b key t' Hb Hin [L1 L2]. destruct (kept_entry _ _ _ _ Hk Hin) as (t & Hti & (E1 & E2 & _)).
    eapply H1; [done..|]. split; congruence.
Qed.

(** The node a chain's name stands for. *)
Definition nodeNamed (e : signerEnv) (x : checkCtx) (name : string) : chain := chainNamed e (x_doge x) name.

Lemma viewed_history e req tx x s name :
  viewed e req tx x s → name = chainDogecoin ∨ name = chainDogecoinVM →
  ∃ addrs txs, signers_address (signers (e_b e)) ∈ addrs ∧ txsFor (nodeNamed e x name) addrs = Ok txs ∧
    listedOn (x_ev x) name = byUnsignedID txs.
Proof.
  intros [(file & Hl) _ _ _ Hli _ _ _] Hn. apply load_reads in Hl as (Hv & w & Hw & Hd).
  unfold listedOn, nodeNamed, chainNamed. rewrite Hli. destruct Hn as [->| ->]; simpl.
  - exists (w_addrs w), (dogeTxs s). split_and!; [done..|].
    rewrite lookup_insert_ne by discriminate. by rewrite lookup_singleton_eq.
  - eexists _, (vmTxs s). split_and!; [by left|done|]. by rewrite lookup_insert_eq.
Qed.

Lemma viewed_honest final e req tx x s l name key un :
  viewed e req tx x s → name = chainDogecoin ∨ name = chainDogecoinVM →
  honest_node final name l (signers_address (signers (e_b e))) (nodeNamed e x name) →
  (∀ t, t ∈ entries key l → lt_Chain t = name) →
  ∃ blocks, honest_view final key name l blocks un (Some (x_ev x)) (unspentOn (nodeNamed e x name)).
Proof.
  intros Hv Hn (blocks & f & Hf & Hu & Hs & Hw) Hc.
  destruct (viewed_history _ _ _ _ _ _ Hv Hn) as (addrs & txs & Ha & Ht & El).
  destruct (Hw addrs txs Ha Ht) as [H1 _]. exists blocks. rewrite Hu. split; [done|by eauto|].
  intros t e' Hb He Hl. destruct (H1 t key e' Hb He Hl) as (ct & Hct & <- & Hpos).
  unfold ev_confirmed. rewrite El. destruct Hl as [-> _].
  destruct (byUnsignedID_spec txs) as [_ H2]. destruct (H2 ct Hct) as (t' & -> & Hle).
  apply orb_true_iff. left. lia.
Qed.

Lemma nullOut_ok : outpoint_ok nullOut.
Proof. split; [split; [done|by repeat constructor]|by vm_compute]. Qed.

Lemma final_prev_ok final t op : chain_ok final → t ∈ final → op ∈ prevOuts t → outpoint_ok op.
Proof.
  intros Hok Ht Hop. pose proof (final_ops _ Hok) as Ho. rewrite Forall_forall in Ho.
  specialize (Ho t Ht). rewrite Forall_forall in Ho. by apply Ho.
Qed.

(** An input spentElsewhere looks for is one of the transaction's. *)
Lemma parsed_input final b t raw :
  chain_ok final → b ∈ final → Inputs t = OutPoint_String <$> prevOuts b → raw ∈ parsedInputs t →
  ∃ op, op ∈ prevOuts b ∧ outpoint_ok op ∧ raw = OutPoint_String op.
Proof.
  intros Hok Hb HI Hr. apply list_elem_of_omap in Hr as (raw' & Hin & Hp). rewrite HI in Hin.
  apply list_elem_of_fmap in Hin as (op & -> & Hop).
  pose proof (final_prev_ok _ _ _ Hok Hb Hop) as Hopok.
  rewrite parseOutPoint_OutPoint_String in Hp by done. injection Hp as <-. eauto.
Qed.

(** A transaction an input of which another one spent in a block never confirms. *)
Lemma spentElsewhere_dead `{!GoRuntimeOk} final e req tx x s l name key t :
  chain_ok final → viewed e req tx x s → name = chainDogecoin ∨ name = chainDogecoinVM →
  honest_node final name l (signers_address (signers (e_b e))) (nodeNamed e x name) →
  t ∈ entries key l → spentElsewhere (x_ev x) name t = true → ∀ b, b ∈ final → ¬ logged_as b t.
Proof.
  intros Hok Hv Hn (blocks & f & Hf & _ & _ & Hw) Ht Hs b Hb [L1 L2].
  destruct (viewed_history _ _ _ _ _ _ Hv Hn) as (addrs & txs & Ha & Htx & El).
  destruct (Hw addrs txs Ha Htx) as [_ H2]. unfold spentElsewhere in Hs. rewrite El in Hs.
  apply existsb_exists in Hs as ([id lt] & Hin & Hs). apply list_elem_of_In in Hin.
  rewrite !andb_true_iff, negb_true_iff, bool_decide_eq_false in Hs. destruct Hs as [[Hpos Hid] Hsp].
  apply existsb_exists in Hsp as (ti & Hti%list_elem_of_In & Hsp%bool_decide_eq_true).
  rewrite map_range_perm in Hin. apply elem_of_map_to_list in Hin.
  destruct (byUnsignedID_spec txs) as [H1 _]. destruct (H1 _ _ Hin) as [Hlt ->].
  pose proof (parsed_input _ b t _ Hok Hb L2 Hsp) as (op & Hop & Hopok & Eop).
  assert (Hpo : PreviousOutPoint ti ∈ prevOuts (ct_tx lt)) by (apply list_elem_of_fmap; eauto).
  destruct (H2 lt Hlt ltac:(lia)) as [Hbl|Hnull].
  - pose proof (final_prev_ok _ _ _ Hok (Hf _ Hbl) Hpo) as Hti_ok.
    apply OutPoint_String_inj in Eop; [|done..].
    apply Hid. rewrite L1. do 2 f_equal. symmetry.
    apply (final_one final _ _ op Hok Hb (Hf _ Hbl) Hop). congruence.
  - rewrite Hnull in Hpo. apply list_elem_of_singleton in Hpo. rewrite Hpo in Eop.
    apply OutPoint_String_inj in Eop; [|by apply nullOut_ok|done].
    pose proof (final_real _ Hok) as Hr. rewrite Forall_forall in Hr. apply (Hr b Hb). by rewrite Eop.
Qed.
End viewed.

(** ** What each action's check passes *)

Section actions.
Context {CR : Crypto} {RT : GoRuntime}.

Lemma checkAction_release e x c k c' :
  Kind (req_Action (x_req x)) = actionRelease → checkAction e x c = (Ok k, c') →
  c' = c ∧ checkRelease e x (ls_log (c_log c)) = Ok k.
Proof. intros Ek. unfold checkAction. rewrite Ek. simpl. by intros [= -> <-]. Qed.

Lemma checkAction_payment e x c k c' :
  Kind (req_Action (x_req x)) = actionPayout ∨ Kind (req_Action (x_req x)) = actionRefund →
  checkAction e x c = (Ok k, c') → c' = c ∧ checkPayment e x (ls_log (c_log c)) = Ok k.
Proof. intros [Ek|Ek]; unfold checkAction; rewrite Ek; simpl; by intros [= -> <-]. Qed.

Lemma spendsAnchor_Ok tx anchor :
  spendsAnchor tx anchor = Ok tt → ∃ a rest, anchor = Some a ∧ prevOuts tx = u_outPoint a :: rest.
Proof.
  unfold spendsAnchor. destruct anchor as [a|]; [|done]. intros Ha%ensure_Ok. exists a.
  unfold prevOuts. destruct (txIn tx) as [|ti rest]; [done|]. apply bool_decide_eq_true in Ha.
  exists (PreviousOutPoint <$> rest). split; [done|]. simpl. by rewrite Ha.
Qed.

Lemma pick_Ok tx available inputs total :
  pick tx available = Ok (inputs, total) →
  u_outPoint <$> inputs = prevOuts tx ∧ (∀ u, u ∈ inputs → u ∈ available) ∧ total = sum_values inputs.
Proof.
  unfold pick. intros E. apply bind_Ok in E as (ins & Em & [= <- <-]).
  set (m := foldl _ _ _) in Em.
  assert (Hm : ∀ op u, m !! op = Some u → u_outPoint u = op ∧ u ∈ available).
  { subst m. apply (foldl_inv (fun m : gmap OutPoint utxo => ∀ op u, m !! op = Some u → u_outPoint u = op ∧ u ∈ available));
      [done|]. intros m v Hv IH op u [[<- <-]|[_ Hu]]%lookup_insert_Some; [done|by apply IH]. }
  destruct (mapM _ (prevOuts tx)) as [ins'|] eqn:Ei; [|done]. injection Em as ->.
  apply mapM_Some in Ei. split_and!; [| |done].
  - clear -Ei Hm. induction Ei as [|op u ops us Hu _ IH]; [done|]. rewrite fmap_cons, IH. f_equal.
    by destruct (Hm _ _ Hu).
  - intros u Hin. apply list_elem_of_lookup in Hin as [i Hi].
    destruct (Forall2_lookup_r _ _ _ _ _ Ei Hi) as (op & _ & Hu). by destruct (Hm _ _ Hu).
Qed.

Lemma from_option_err_Ok {A} (o : option A) err a : from_option_err o err = Ok a → o = Some a.
Proof. destruct o; by intros [= ->]. Qed.

(** What checkRelease passes. *)
Record releaseChecked (e : signerEnv) (x : checkCtx) (l : signingLog) (k : checked) (op : OutPoint) (d : deposit)
    (inputs : list utxo) : Prop := {
  rel_chain : req_Chain (x_req x) = chainDogecoinVM;
  rel_op : parseOutPoint (Deposit (req_Action (x_req x))) = Ok op;
  rel_fresh : has (released (x_s x)) op = false ∧ has (refunded (x_s x)) op = false ∧ isCancelled (x_s x) op = false;
  rel_logged : log_has l (keyOf actionCancel (OutPoint_String op)) = false ∧
    log_has l (keyOf actionRefund (OutPoint_String op)) = false;
  rel_deposit : d ∈ deposits (x_s x) ∧ d_outPoint d = op;
  rel_deep : confirmationsFor (e_b e) (d_value d) ≤ d_confirmations d;
  rel_cap : 0 < maxCirculating (e_b e) →
    reserveCreated (x_s x) [-] reserveUnspent (x_s x) [+] d_value d ≤ maxCirculating (e_b e);
  rel_shallow : shallowRoom (e_b e) (x_s x) d (promisedShallow (e_b e) l (x_s x) op) = Ok tt;
  rel_anchor : ∃ a rest, reserveAnchor (x_s x) = Some a ∧ prevOuts (x_tx x) = u_outPoint a :: rest;
  rel_inputs : u_outPoint <$> inputs = prevOuts (x_tx x) ∧ (∀ u, u ∈ inputs → u ∈ reserveUTXOs (x_s x));
  rel_cover : d_value d [+] pegDust ≤ sum_values inputs;
  rel_want : buildRelease (e_b e) inputs (sum_values inputs) d = Ok (k_want k);
  rel_value : k_value k = d_value d;
}.

Lemma checkRelease_Ok e x l k :
  checkRelease e x l = Ok k → ∃ op d inputs, releaseChecked e x l k op d inputs.
Proof.
  unfold checkRelease. cbv zeta. intros E.
  apply bind_Ok in E as ([] & H1 & E). apply bind_Ok in E as (op & H2 & E).
  apply bind_Ok in E as ([] & H3 & E). apply bind_Ok in E as ([] & H4 & E).
  apply bind_Ok in E as ([] & H5 & E). apply bind_Ok in E as ([] & H6 & E).
  apply bind_Ok in E as (d & H7 & E). apply bind_Ok in E as ([] & H8 & E).
  apply bind_Ok in E as ([] & H9 & E). apply bind_Ok in E as ([] & H10 & E).
  apply bind_Ok in E as ([] & H11 & E). apply bind_Ok in E as ([inputs total] & H12 & E).
  apply bind_Ok in E as ([] & H13 & E). apply bind_Ok in E as (want & H14 & E).
  apply bind_Ok in E as (all & _ & [= <-]).
  apply pick_Ok in H12 as (I1 & I2 & ->).
  apply ensure_Ok in H1, H3, H4, H5, H6, H8, H9, H13. apply from_option_err_Ok, findDeposit_Some in H7.
  apply bool_decide_eq_true in H1. apply negb_true_iff in H3, H4, H5, H6. apply orb_false_iff in H5 as [H5a H5b].
  exists op, d, inputs. split; try done; try lia. by apply spendsAnchor_Ok.
Qed.

(** What checkCancel passes. *)
Record cancelChecked (e : signerEnv) (x : checkCtx) (l : signingLog) (op : OutPoint) (anchor : utxo)
    (inputs : list utxo) (want : MsgTx) : Prop := {
  can_chain : req_Chain (x_req x) = chainDogecoinVM;
  can_op : parseOutPoint (Deposit (req_Action (x_req x))) = Ok op;
  can_fresh : has (released (x_s x)) op = false ∧ has (refunded (x_s x)) op = false ∧ isCancelled (x_s x) op = false;
  can_dead : releasesDeadOrConflicting l (x_ev x) op (u_outPoint anchor) = true;
  can_approved : cancelApproved e (x_s x) op = Ok tt;
  can_anchor : reserveAnchor (x_s x) = Some anchor ∧ ∃ rest, prevOuts (x_tx x) = u_outPoint anchor :: rest;
  can_inputs : u_outPoint <$> inputs = prevOuts (x_tx x) ∧ (∀ u, u ∈ inputs → u ∈ reserveUTXOs (x_s x));
  can_want : buildCancel (e_b e) inputs op = Ok want;
  can_wait : surplusSpendWait l (x_s x) = Ok tt;
  can_fee : feeRoom (signers (e_b e)) (audit (x_s x)) (vmFee (e_b e)) (x_unseen x) = Ok tt;
}.

Lemma checkAction_cancel e x c k c' :
  Kind (req_Action (x_req x)) = actionCancel → checkAction e x c = (Ok k, c') →
  k_value k = 0 ∧ ∃ op anchor inputs, cancelChecked e x (ls_log (c_log c)) op anchor inputs (k_want k).
Proof.
  intros Ek. unfold checkAction. intros E. apply st_bind_Ok in E as (c0 & c1 & [= <- <-] & E).
  rewrite Ek in E. simpl in E. unfold checkCancel in E.
  apply st_bind_Ok in E as (c0 & c1 & [= <- <-] & E). cbv zeta in E.
  apply st_bind_Ok in E as ([want inputs] & c2 & El & E). injection El as El <-.
  apply st_bind_Ok in E as ([] & c3 & _ & [= <- <-]). split; [done|]. cbn [k_want].
  apply bind_Ok in El as ([] & H1 & El). apply bind_Ok in El as (op & H2 & El).
  apply bind_Ok in El as ([] & H3 & El). apply bind_Ok in El as ([] & H4 & El).
  apply bind_Ok in El as ([] & H5 & El). apply bind_Ok in El as (anchor & H6 & El).
  apply bind_Ok in El as ([] & H7 & El). apply bind_Ok in El as ([] & H8 & El).
  apply bind_Ok in El as ([] & H9 & El). apply bind_Ok in El as ([ins total] & H10 & El).
  apply bind_Ok in El as (want' & H11 & El). apply bind_Ok in El as ([] & H12 & El).
  apply bind_Ok in El as ([] & H13 & [= <- <-]).
  apply ensure_Ok in H1, H3, H4, H5, H7. apply from_option_err_Ok in H6. apply pick_Ok in H10 as (I1 & I2 & _).
  apply bool_decide_eq_true in H1. apply negb_true_iff in H3, H4, H5.
  apply spendsAnchor_Ok in H9 as (a & rest & Ea & Er). rewrite H6 in Ea. injection Ea as <-.
  exists op, anchor, ins. split; try done. eauto.
Qed.

(** What checkPayment passes: a payout or a refund. *)
Record paymentChecked (e : signerEnv) (x : checkCtx) (l : signingLog) (k : checked) (value : Z) (dest : destination)
    (data : bytes) (inputs : list utxo) (fee : Z) : Prop := {
  pay_chain : req_Chain (x_req x) = chainDogecoin;
  pay_action :
    Kind (req_Action (x_req x)) = actionPayout ∧ checkPayoutAction x = Ok (value, dest, data) ∨
    Kind (req_Action (x_req x)) ≠ actionPayout ∧ checkRefundAction e x l = Ok (value, dest, data);
  pay_covers_fee : dogeFee (e_b e) < value;
  pay_inputs : u_outPoint <$> inputs = prevOuts (x_tx x);
  pay_fee : fee = (if 0 <? req_Fee (x_req x) then req_Fee (x_req x) else dogeFee (e_b e));
  pay_coins :
    (req_Fee (x_req x) ≤ 0 ∧ (∃ a rest, pegAnchor (x_s x) = Some a ∧ prevOuts (x_tx x) = u_outPoint a :: rest) ∧
     ∀ u, u ∈ inputs → u ∈ lockedUTXOs (x_s x) ∧ 0 < u_confirmations u) ∨
    (∃ r oldFee, unconfirmedFor (x_s x) data = Some (r, oldFee) ∧ prevOuts (x_tx x) = prevOuts (ct_tx r) ∧
     fee = oldFee [+] dogeFee (e_b e) ∧ checkBumpFee (e_b e) fee oldFee value = Ok tt ∧
     ∀ u, u ∈ inputs → u ∈ coinsOf (x_s x) (ct_tx r));
  pay_cover : value ≤ sum_values inputs;
  pay_want : buildPayout (e_b e) inputs value dest data fee = Ok (k_want k);
  pay_value : k_value k = value;
}.

Lemma checkReplacement_Ok e x value data inputs total un :
  checkReplacement e x value data = Ok (inputs, total, un) →
  total = sum_values inputs ∧ u_outPoint <$> inputs = prevOuts (x_tx x) ∧
  ∃ r oldFee, unconfirmedFor (x_s x) data = Some (r, oldFee) ∧ prevOuts (x_tx x) = prevOuts (ct_tx r) ∧
    req_Fee (x_req x) = oldFee [+] dogeFee (e_b e) ∧
    checkBumpFee (e_b e) (req_Fee (x_req x)) oldFee value = Ok tt ∧
    ∀ u, u ∈ inputs → u ∈ coinsOf (x_s x) (ct_tx r).
Proof.
  unfold checkReplacement. cbv zeta. intros E. apply bind_Ok in E as ([r oldFee] & H1 & E).
  apply bind_Ok in E as ([] & H2 & E). apply bind_Ok in E as ([] & H3 & E).
  apply bind_Ok in E as ([] & H4 & E). apply bind_Ok in E as ([ins tot] & H5 & [= <- <- <-]).
  apply from_option_err_Ok in H1. apply ensure_Ok in H2, H3. apply bool_decide_eq_true in H2.
  apply pick_Ok in H5 as (I1 & I2 & ->). split_and!; [done..|]. exists r, oldFee. split_and!; try done. lia.
Qed.

Lemma checkPayment_Ok e x l k :
  checkPayment e x l = Ok k → ∃ value dest data inputs fee, paymentChecked e x l k value dest data inputs fee.
Proof.
  unfold checkPayment. cbv zeta. intros E. apply bind_Ok in E as ([] & H1 & E).
  apply bind_Ok in E as ([[value dest] data] & H2 & E). apply bind_Ok in E as ([] & H3 & E).
  apply bind_Ok in E as ([[[inputs total] un] fee] & H4 & E). apply bind_Ok in E as ([] & H5 & E).
  apply bind_Ok in E as (want & H6 & E). apply bind_Ok in E as (redeems & _ & [= <-]).
  apply ensure_Ok in H1, H3, H5. apply bool_decide_eq_true in H1.
  assert (Hc : total = sum_values inputs ∧ u_outPoint <$> inputs = prevOuts (x_tx x)).
  { destruct (0 <? req_Fee (x_req x)).
    - apply bind_Ok in H4 as ([[ins tot] un'] & Hr & [= <- <- <- <-]). by apply checkReplacement_Ok in Hr as (? & ? & _).
    - apply bind_Ok in H4 as ([] & _ & H4). apply bind_Ok in H4 as ([ins tot] & Hp & [= <- <- _ _]).
      by apply pick_Ok in Hp as (? & ? & ?). }
  destruct Hc as [-> Hi]. exists value, dest, data, inputs, fee. split; try done; try lia.
  - revert H2. case_bool_decide; eauto.
  - destruct (0 <? req_Fee (x_req x)); [by apply bind_Ok in H4 as ([[? ?] ?] & _ & [= _ _ _ <-])|].
    apply bind_Ok in H4 as ([] & _ & H4). by apply bind_Ok in H4 as ([? ?] & _ & [= _ _ _ <-]).
  - destruct (0 <? req_Fee (x_req x)) eqn:Ef.
    + apply bind_Ok in H4 as ([[ins tot] un'] & Hr & [= <- _ <- <-]).
      right. by apply checkReplacement_Ok in Hr as (_ & _ & Hr).
    + apply bind_Ok in H4 as ([] & Ha & H4). apply bind_Ok in H4 as ([ins tot] & Hp & [= <- _ _ _]).
      left. split; [lia|]. apply pick_Ok in Hp as (_ & Hp & _). split; [by apply spendsAnchor_Ok|].
      intros u Hu. by apply Hp, list_elem_of_filter in Hu as [? ?].
Qed.

(** A refund is only paid once every release of the deposit is dead. *)
Lemma checkRefundAction_dead e x l value dest data :
  checkRefundAction e x l = Ok (value, dest, data) →
  ∃ op, parseOutPoint (Deposit (req_Action (x_req x))) = Ok op ∧ has (released (x_s x)) op = false ∧
    releasesDead l (x_ev x) op = true ∧ is_ok (refundApproved e op dest) = true ∧ data = encodeRefund op.
Proof.
  unfold checkRefundAction. cbv zeta. intros E. apply bind_Ok in E as (op & H1 & E).
  apply bind_Ok in E as (repl & _ & E). apply bind_Ok in E as ([] & H2 & E).
  apply bind_Ok in E as (d & H3 & E). apply bind_Ok in E as ([] & H4 & E).
  apply bind_Ok in E as (f & H5 & E). apply bind_Ok in E as (dep & H6 & E).
  apply bind_Ok in E as ([] & H7 & E). apply bind_Ok in E as ([] & H8 & [= _ <- <-]).
  apply ensure_Ok in H2, H4. exists op. rewrite H5. split_and!; try done. by apply negb_true_iff.
Qed.
End actions.
