(* ===== verification/Run.v ===== *)
(** The signer service over every sequence of requests (src/cmd/dogevm/cosign.go):
    the theorems about what it has answered with signatures. *)

From Stdlib Require Import Ascii String.
From S2P Require Import Prelude Text Wire Runtime Script Tags Amount Peg Lineage State Build Load SigningLog Registry.
From S2P Require Import Cutover Fence Cosigner Signing.

(** ** Every sequence of requests *)

(** A proposal a signer answered with signatures. *)
Record signing := mkSigning { sg_action : action; sg_chain : string; sg_tx : MsgTx }.

Definition answered {A} (req : signRequest) (r : result A) : list signing :=
  match r, decodeProposal req with
  | Ok _, Ok tx => [mkSigning (req_Action req) (req_Chain req) tx]
  | _, _ => []
  end.

(** The chain an action other than a fence is on. *)
Definition kindChain (kind : string) : string :=
  if bool_decide (kind = actionRelease) || bool_decide (kind = actionCancel) then chainDogecoinVM else chainDogecoin.

Section run.
Context {CR : Crypto} {RT : GoRuntime} {ROK : GoRuntimeOk}.

(** The chains as they end up. *)
Context (vmFinal dogeFinal : list MsgTx).

Definition finalOn (name : string) : list MsgTx :=
  if bool_decide (name = chainDogecoin) then dogeFinal else vmFinal.

(** The signer's nodes while it handles a request are honest. *)
Definition honest (e : signerEnv) (l : signingLog) : Prop :=
  let addr := signers_address (signers (e_b e)) in
  honest_node vmFinal chainDogecoinVM l addr (e_vm e) ∧
  ∀ node, dogeNodeOf e node → honest_node dogeFinal chainDogecoin l addr node.

(** The service from a new log on: requests in any order, whatever else it is
    configured with, sees or is asked at each, failed writes and restarts (which
    open the log on disk) included; what it answered with signatures. *)
Inductive signer_run : list signing → cosigner → Prop :=
| run_new c : Actions (ls_log (c_log c)) = ∅ → Actions (ls_disk (c_log c)) = ∅ → signer_run [] c
| run_sign h c e req r c' :
    signer_run h c → honest e (ls_log (c_log c)) → handleSign e req c = (r, c') →
    signer_run (answered req r ++ h) c'
| run_register h c e d r c' : signer_run h c → handleRegister e d c = (r, c') → signer_run h c'
| run_status h c e r c' : signer_run h c → handleStatus e c = (r, c') → signer_run h c'
| run_restart h c l writes :
    signer_run h c → reopen (c_log c) = Ok l →
    signer_run h (mkCosigner (mkLogState l (ls_disk (c_log c)) writes)
                    (c_registry c) [] 0 ∅ (c_marker c) (c_markerOk c)).


(** ** The chain of an action *)

Lemma passed_chain e req c tx x k c1 :
  passed e req c tx x k c1 → Kind (req_Action req) ≠ actionFence → req_Chain req = kindChain (Kind (req_Action req)).
Proof.
  intros [_ _ (ca & cb & _ & Hv & Ha) _] Hf. apply checkView_Ok in Hv as (s & Hv).
  pose proof (viewed_req _ _ _ _ _ Hv) as Er. rewrite <- Er in *. unfold kindChain.
  destruct (decide (Kind (req_Action (x_req x)) = actionRelease)) as [Ek|N1].
  { apply checkAction_release in Ha as [_ Ha]; [|done]. apply checkRelease_Ok in Ha as (op & d & ins & Hr).
    rewrite Ek. by apply rel_chain in Hr. }
  destruct (decide (Kind (req_Action (x_req x)) = actionCancel)) as [Ek|N2].
  { apply checkAction_cancel in Ha as (_ & op & a & ins & Hr); [|done]. rewrite Ek. by apply can_chain in Hr. }
  rewrite !bool_decide_eq_false_2 by done. simpl.
  assert (Hp : Kind (req_Action (x_req x)) = actionPayout ∨ Kind (req_Action (x_req x)) = actionRefund).
  { revert Ha. unfold checkAction, mbind, st_bind. simpl. rewrite !bool_decide_eq_false_2 by done.
    destruct (bool_decide (_ = actionPayout)) eqn:E1; [apply bool_decide_eq_true in E1; auto|].
    destruct (bool_decide (_ = actionRefund)) eqn:E2; [apply bool_decide_eq_true in E2; auto|]. done. }
  apply checkAction_payment in Ha as [_ Ha]; [|done].
  apply checkPayment_Ok in Ha as (v & d & dat & ins & fee & Ha). by apply pay_chain in Ha.
Qed.

Lemma kindChain_named kind : kindChain kind = chainDogecoin ∨ kindChain kind = chainDogecoinVM.
Proof. unfold kindChain. destruct (_ || _); auto. Qed.

(** The entries of a log once a proposal is recorded. *)
Lemma entries_recorded_at l key chain tx value fee now key' :
  entries key' (recorded l key chain tx value fee now) =
  entries key' l ++ (if bool_decide (key' = key) then [entryOf chain tx fee] else []).
Proof.
  case_bool_decide as Hk; [subst; apply entries_recorded|]. rewrite app_nil_r.
  destruct (Actions_recorded l key chain tx value fee now) as (l' & El & ->).
  unfold entries. simpl. by rewrite lookup_insert_ne, El.
Qed.

(** What a proposal that passed met in permit, on the log it is recorded in. *)
Lemma passed_permit e req c tx x k c1 key :
  passed e req c tx x k c1 → action_key (req_Action req) = Ok key → Kind (req_Action req) ≠ actionFence →
  let name := kindChain (Kind (req_Action req)) in
  permit (ls_log (c_log c1)) key name tx (k_unspent k) (Some (x_ev x)) (unspentOn (nodeNamed e x name)) = Ok tt.
Proof.
  intros Hp Hk Hf name. pose proof (passed_chain _ _ _ _ _ _ _ Hp Hf) as Hc. fold name in Hc.
  destruct Hp as [_ _ (ca & cb & _ & Hv & _) Hl]. apply checkView_Ok in Hv as (s & Hv).
  unfold checkLog in Hl. cbv zeta in Hl. rewrite (viewed_req _ _ _ _ _ Hv), (viewed_tx _ _ _ _ _ Hv) in Hl.
  apply bind_Ok in Hl as ([] & _ & Hl). apply bind_Ok in Hl as (key' & Hk' & Hl).
  rewrite Hk in Hk'. injection Hk' as <-. apply bind_Ok in Hl as ([] & Hp & _).
  rewrite Hc in Hp. unfold nodeNamed, chainNamed. by case_bool_decide.
Qed.

Lemma key_of_op a kind sub :
  outpointKind kind = true → action_key a = Ok (keyOf kind sub) →
  Kind a = kind ∧ ∃ op, parseOutPoint (Deposit a) = Ok op ∧ sub = OutPoint_String op.
Proof.
  intros Hk Ha. destruct (action_key_shape _ _ Ha) as (Na & x & Ex & Hx). unfold subject in Ex.
  destruct x as [op|h]; destruct Hx as (Hka & _ & E); apply keyOf_inj in E as [-> ->];
    try done; try by apply outpointKind_no_colon.
  - split; [done|]. rewrite Hka in Ex. destruct (parseOutPoint (Deposit a)) as [op'|]; [|done].
    injection Ex as ->. eauto.
  - rewrite Hka in Hk. by vm_compute in Hk.
Qed.

Lemma log_has_entries l key : log_has l key = false → entries key l = [].
Proof.
  unfold log_has, has, entries. rewrite bool_decide_eq_false. intros Hn.
  destruct (Actions l !! key); [by destruct Hn; eauto|done].
Qed.

(** ** What holds of every log the signer reaches *)

Record log_ok (l : signingLog) : Prop := {
  log_signed a key : action_key a = Ok key → Kind a ≠ actionFence →
    signed_log (finalOn (kindChain (Kind a))) key (kindChain (Kind a)) l;
  log_chains a key t : action_key a = Ok key → Kind a ≠ actionFence → t ∈ entries key l →
    lt_Chain t = kindChain (Kind a);
  log_cancel sub t u : t ∈ entries (keyOf actionRelease sub) l → u ∈ entries (keyOf actionCancel sub) l →
    excluded vmFinal t u;
  log_refund sub t u : t ∈ entries (keyOf actionRelease sub) l → u ∈ entries (keyOf actionRefund sub) l →
    ∀ b, b ∈ vmFinal → ¬ logged_as b t;
}.

Lemma log_ok_empty l : Actions l = ∅ → log_ok l.
Proof.
  intros E. assert (He : ∀ key, entries key l = []) by (intros key; unfold entries; by rewrite E).
  split.
  - intros a key _ _. apply signed_none. by rewrite E.
  - intros a key t _ _ Ht. rewrite He in Ht. by apply elem_of_nil in Ht.
  - intros sub t u Ht. rewrite He in Ht. by apply elem_of_nil in Ht.
  - intros sub t u Ht. rewrite He in Ht. by apply elem_of_nil in Ht.
Qed.

Lemma log_ok_kept l l' : log_ok l → kept l l' → log_ok l'.
Proof.
  intros [Hs Hc Hx Hr] Hk. split.
  - intros a key Ha Hf. eapply signed_other; [by apply Hs|by apply kept_entries].
  - intros a key t Ha Hf Ht. destruct (kept_entry _ _ _ _ Hk Ht) as (t0 & Ht0 & (_ & _ & <- & _)). by eapply Hc.
  - intros sub t u Ht Hu. destruct (kept_entry _ _ _ _ Hk Ht) as (t0 & Ht0 & (E1 & E2 & _)).
    destruct (kept_entry _ _ _ _ Hk Hu) as (u0 & Hu0 & (_ & E4 & _)).
    destruct (Hx sub t0 u0 Ht0 Hu0) as [(raw & R1 & R2)|Hd].
    + left. exists raw. by rewrite <- E2, <- E4.
    + right. intros b Hb [L1 L2]. apply (Hd b Hb). split; congruence.
  - intros sub t u Ht Hu b Hb [L1 L2]. destruct (kept_entry _ _ _ _ Hk Ht) as (t0 & Ht0 & (E1 & E2 & _)).
    destruct (kept_entry _ _ _ _ Hk Hu) as (u0 & Hu0 & _).
    apply (Hr sub t0 u0 Ht0 Hu0 b Hb). split; congruence.
Qed.

Lemma honest_nodes e l x name :
  honest e l → dogeNodeOf e (x_doge x) → name = chainDogecoin ∨ name = chainDogecoinVM →
  honest_node (finalOn name) name l (signers_address (signers (e_b e))) (nodeNamed e x name).
Proof. intros [Hv Hd] Hx [->| ->]; [by apply Hd|exact Hv]. Qed.

Lemma honest_kept e l l' : kept l l' → honest e l → honest e l'.
Proof.
  intros Hk [Hv Hd]. split; [by eapply honest_node_kept|]. intros node Hn. eapply honest_node_kept; eauto.
Qed.

(** ** A release, a cancellation and a refund of one deposit *)

Lemma passed_release e req c tx x k c1 :
  passed e req c tx x k c1 → Kind (req_Action req) = actionRelease →
  ∃ op, parseOutPoint (Deposit (req_Action req)) = Ok op ∧
    entries (keyOf actionCancel (OutPoint_String op)) (ls_log (c_log c1)) = [] ∧
    entries (keyOf actionRefund (OutPoint_String op)) (ls_log (c_log c1)) = [].
Proof.
  intros [_ _ (ca & cb & _ & Hv & Ha) _] Hk. apply checkView_Ok in Hv as (s & Hv).
  rewrite <- (viewed_req _ _ _ _ _ Hv) in *. apply checkAction_release in Ha as [-> Ha]; [|done].
  apply checkRelease_Ok in Ha as (op & d & ins & Hr). exists op. split; [by apply (rel_op _ _ _ _ _ _ _ Hr)|].
  destruct (rel_logged _ _ _ _ _ _ _ Hr). by split; apply log_has_entries.
Qed.

Lemma passed_setup e req c tx x k c1 :
  passed e req c tx x k c1 → ∃ cb s, keeps_log c cb ∧ keeps_log cb c1 ∧ viewed e req tx x s ∧
    checkAction e x cb = (Ok k, c1).
Proof.
  intros [_ _ (ca & cb & H1 & H2 & H3) _]. destruct (checkView_Ok _ _ _ _ _ _ H2) as (s & Hv). exists cb, s.
  apply registerAll_keeps in H1. apply checkView_keeps in H2. split_and!; [by etrans| |done..].
  by eapply checkAction_keeps.
Qed.

(** A release another confirmed transaction spends an input of stays out. *)
Lemma release_dead e req c tx x s cb sub t :
  chain_ok vmFinal → honest e (ls_log (c_log c)) → keeps_log c cb → viewed e req tx x s →
  t ∈ entries (keyOf actionRelease sub) (ls_log (c_log cb)) →
  spentElsewhere (x_ev x) chainDogecoinVM t = true → ∀ b, b ∈ vmFinal → ¬ logged_as b t.
Proof.
  intros Hok Hh [Hk _] Hv Ht Hs. apply (honest_kept _ _ _ Hk) in Hh as [Hh _].
  eapply (spentElsewhere_dead vmFinal e req tx x s _ chainDogecoinVM); eauto.
Qed.

Lemma passed_cancel e req c tx x k c1 :
  chain_ok vmFinal → honest e (ls_log (c_log c)) →
  passed e req c tx x k c1 → Kind (req_Action req) = actionCancel →
  ∃ op, parseOutPoint (Deposit (req_Action req)) = Ok op ∧
    ∀ t fee, t ∈ entries (keyOf actionRelease (OutPoint_String op)) (ls_log (c_log c1)) →
      excluded vmFinal t (entryOf (req_Chain req) tx fee).
Proof.
  intros Hok Hh Hp Hk. destruct (passed_setup _ _ _ _ _ _ _ Hp) as (cb & s & K1 & [K2 _] & Hv & Ha).
  pose proof (viewed_req _ _ _ _ _ Hv) as Er. pose proof (viewed_tx _ _ _ _ _ Hv) as Et. rewrite <- Er in Hk.
  apply checkAction_cancel in Ha as (_ & op & anchor & ins & Hc); [|done].
  exists op. split; [rewrite <- Er; by apply (can_op _ _ _ _ _ _ _ Hc)|]. intros t fee Ht.
  destruct (kept_entry _ _ _ _ K2 Ht) as (t0 & Ht0 & (E1 & E2 & _)).
  pose proof (can_dead _ _ _ _ _ _ _ Hc) as Hd. unfold releasesDeadOrConflicting in Hd.
  pose proof Ht0 as Ht0'. unfold entries in Ht0'.
  destruct (Actions _ !! _) as [a|]; [|by apply elem_of_nil in Ht0'].
  rewrite forallb_forall in Hd. specialize (Hd t0 ltac:(by apply list_elem_of_In)).
  apply andb_true_iff in Hd as [_ Hd]. apply orb_true_iff in Hd as [Hd|Hd].
  - right. intros b Hb [L1 L2]. eapply (release_dead e req c tx x s cb); eauto. split; congruence.
  - left. exists (OutPoint_String (u_outPoint anchor)). unfold contains in Hd. apply bool_decide_eq_true in Hd.
    rewrite <- E2. split; [done|]. destruct (can_anchor _ _ _ _ _ _ _ Hc) as (_ & rest & Hr).
    rewrite Et in Hr. simpl. rewrite Hr. by left.
Qed.

Lemma passed_refund e req c tx x k c1 :
  chain_ok vmFinal → honest e (ls_log (c_log c)) →
  passed e req c tx x k c1 → Kind (req_Action req) = actionRefund →
  ∃ op, parseOutPoint (Deposit (req_Action req)) = Ok op ∧
    ∀ t, t ∈ entries (keyOf actionRelease (OutPoint_String op)) (ls_log (c_log c1)) →
      ∀ b, b ∈ vmFinal → ¬ logged_as b t.
Proof.
  intros Hok Hh Hp Hk. destruct (passed_setup _ _ _ _ _ _ _ Hp) as (cb & s & K1 & [K2 _] & Hv & Ha).
  pose proof (viewed_req _ _ _ _ _ Hv) as Er. rewrite <- Er in Hk.
  apply checkAction_payment in Ha as [-> Ha]; [|by right].
  apply checkPayment_Ok in Ha as (v & d & dat & ins & fee & Ha).
  destruct (pay_action _ _ _ _ _ _ _ _ _ Ha) as [[Hk' _]|[_ Hr]]; [by rewrite Hk' in Hk|].
  apply checkRefundAction_dead in Hr as (op & Hop & _ & Hd & _). exists op. split; [by rewrite <- Er|].
  intros t Ht. unfold releasesDead in Hd. pose proof Ht as Ht'. unfold entries in Ht'.
  destruct (Actions _ !! _) as [a|]; [|by apply elem_of_nil in Ht'].
  rewrite forallb_forall in Hd. specialize (Hd t ltac:(by apply list_elem_of_In)).
  rewrite negb_true_iff, orb_false_iff, negb_false_iff in Hd. destruct Hd as [_ Hd].
  by eapply (release_dead e req c tx x s cb).
Qed.

(** Recording a proposal that passed: permit passed it against an honest node. *)
Lemma signed_recorded e req c tx x k c1 key value fee now :
  honest e (ls_log (c_log c)) → passed e req c tx x k c1 →
  action_key (req_Action req) = Ok key → Kind (req_Action req) ≠ actionFence → log_ok (ls_log (c_log c1)) →
  let name := kindChain (Kind (req_Action req)) in
  signed_log (finalOn name) key name (recorded (ls_log (c_log c1)) key name tx value fee now).
Proof.
  intros Hh Hp Hkey Hf [Hs Hc _ _] name.
  destruct (passed_setup _ _ _ _ _ _ _ Hp) as (cb & s & [K1 _] & [K2 _] & Hv & _).
  assert (Hh1 : honest e (ls_log (c_log c1))) by (eapply honest_kept; [|exact Hh]; by etrans).
  destruct (viewed_honest (finalOn name) e req tx x s (ls_log (c_log c1)) name key (k_unspent k)) as (blocks & Hb).
  { done. } { apply kindChain_named. }
  { apply honest_nodes; [done|by eapply viewed_doge|apply kindChain_named]. }
  { intros t Ht. by apply (Hc (req_Action req) key t). }
  eapply signed_next; [by apply Hs|exact Hb|]. by apply (passed_permit e req c tx x k c1).
Qed.

Lemma entries_recorded_in l key chain tx value fee now key' t :
  t ∈ entries key' (recorded l key chain tx value fee now) →
  t ∈ entries key' l ∨ key' = key ∧ t = entryOf chain tx fee.
Proof.
  rewrite entries_recorded_at, elem_of_app. case_bool_decide; [|by intros [?|?%elem_of_nil]; auto].
  intros [?|?%list_elem_of_singleton]; auto.
Qed.

(** Recording a proposal that passed keeps it all. *)
Lemma log_ok_recorded e req c tx x k c1 key value fee now :
  chain_ok vmFinal → honest e (ls_log (c_log c)) → passed e req c tx x k c1 →
  action_key (req_Action req) = Ok key → log_ok (ls_log (c_log c1)) →
  log_ok (recorded (ls_log (c_log c1)) key (req_Chain req) tx value fee now).
Proof.
  intros Hok Hh Hp Hkey Hl. pose proof Hl as [Hs Hc Hx Hr]. split.
  - intros a key' Ha Hf. destruct (decide (key' = key)) as [->|Hne].
    + destruct (same_key _ _ _ Ha Hkey) as [Ek _]. rewrite Ek in *.
      rewrite (passed_chain _ _ _ _ _ _ _ Hp Hf). by eapply signed_recorded.
    + eapply signed_other; [by apply Hs|]. rewrite entries_recorded_at, bool_decide_eq_false_2 by done.
      rewrite app_nil_r. by apply Forall_Forall2_diag, Forall_true.
  - intros a key' t Ha Hf [Ht|[-> ->]]%entries_recorded_in; [by eapply Hc|].
    destruct (same_key _ _ _ Ha Hkey) as [Ek _]. rewrite Ek in *. by apply (passed_chain _ _ _ _ _ _ _ Hp).
  - intros sub t u [Ht|[Kt ->]]%entries_recorded_in [Hu|[Ku ->]]%entries_recorded_in; [by eapply Hx|..].
    + subst key. apply key_of_op in Hkey as (Hk & op & Hop & ->); [|done].
      destruct (passed_cancel _ _ _ _ _ _ _ Hok Hh Hp Hk) as (op' & Hop' & Hd).
      rewrite Hop in Hop'. injection Hop' as <-. by apply Hd.
    + subst key. apply key_of_op in Hkey as (Hk & op & Hop & ->); [|done].
      destruct (passed_release _ _ _ _ _ _ _ Hp Hk) as (op' & Hop' & Hd & _).
      rewrite Hop in Hop'. injection Hop' as <-. rewrite Hd in Hu. by apply elem_of_nil in Hu.
    + subst key. by apply keyOf_inj in Ku as [? _]; try by apply outpointKind_no_colon.
  - intros sub t u [Ht|[Kt ->]]%entries_recorded_in [Hu|[Ku ->]]%entries_recorded_in; [by eapply Hr|..].
    + subst key. apply key_of_op in Hkey as (Hk & op & Hop & ->); [|done].
      destruct (passed_refund _ _ _ _ _ _ _ Hok Hh Hp Hk) as (op' & Hop' & Hd).
      rewrite Hop in Hop'. injection Hop' as <-. by apply Hd.
    + subst key. apply key_of_op in Hkey as (Hk & op & Hop & ->); [|done].
      destruct (passed_release _ _ _ _ _ _ _ Hp Hk) as (op' & Hop' & _ & Hd).
      rewrite Hop in Hop'. injection Hop' as <-. rewrite Hd in Hu. by apply elem_of_nil in Hu.
    + subst key. by apply keyOf_inj in Ku as [? _]; try by apply outpointKind_no_colon.
Qed.

(** ** The log holds whatever was answered *)

Definition logged_in (l : signingLog) (s : signing) : Prop :=
  ∃ key t, action_key (sg_action s) = Ok key ∧ t ∈ entries key l ∧
    Txid t = Hash_String (TxHash (sg_tx s)) ∧ Inputs t = OutPoint_String <$> prevOuts (sg_tx s).

Lemma logged_in_kept l l' s : kept l l' → logged_in l s → logged_in l' s.
Proof.
  intros Hk (key & t & Ha & Ht & T & I). specialize (Hk key). unfold entries in Ht.
  destruct (Actions l !! key) as [a|] eqn:El; [|by apply elem_of_nil in Ht].
  inversion Hk as [? a' (_ & _ & Hf) E1 E2|]; subst.
  apply list_elem_of_lookup in Ht as [i Hi]. destruct (Forall2_lookup_l _ _ _ _ _ Hf Hi) as (t' & Hi' & (S1 & S2 & _)).
  exists key, t'. split_and!; [done| |congruence..]. unfold entries. rewrite <- E2. by eapply list_elem_of_lookup_2.
Qed.

Lemma logged_in_recorded l key chain tx value fee now s :
  logged_in l s → logged_in (recorded l key chain tx value fee now) s.
Proof.
  intros (key' & t & Ha & Ht & TI). exists key', t. split_and!; [done| |by destruct TI..].
  rewrite entries_recorded_at, elem_of_app. by left.
Qed.

Lemma answered_logged {A} req (r : result A) l key tx value fee now s :
  action_key (req_Action req) = Ok key → decodeProposal req = Ok tx → s ∈ answered req r →
  logged_in (recorded l key (req_Chain req) tx value fee now) s.
Proof.
  intros Hk Ht. unfold answered. rewrite Ht. destruct r; [|by intros ?%elem_of_nil].
  intros Hs%list_elem_of_singleton. subst s.
  exists key, (entryOf (req_Chain req) tx fee). split_and!; [done| |done..].
  rewrite entries_recorded_at, bool_decide_eq_true_2, elem_of_app by done. right. by left.
Qed.

Lemma keys_ok_kept l l' : kept l l' → keys_ok l → keys_ok l'.
Proof.
  intros Hk Hl k Hs. apply Hl. specialize (Hk k). destruct Hs as [a Ha]. rewrite Ha in Hk. inversion Hk. eauto.
Qed.

Lemma keys_ok_recorded l a key chain tx value fee now :
  action_key a = Ok key → keys_ok l → keys_ok (recorded l key chain tx value fee now).
Proof.
  intros Ha Hl k. destruct (Actions_recorded l key chain tx value fee now) as (l' & El & ->). simpl. rewrite El.
  destruct (decide (k = key)) as [->|Hne]; [intros _; by eapply action_key_normal|]. rewrite lookup_insert_ne by done. apply Hl.
Qed.

Definition run_inv (h : list signing) (c : cosigner) : Prop :=
  (log_ok (ls_log (c_log c)) ∧ keys_ok (ls_log (c_log c)) ∧ ∀ s, s ∈ h → logged_in (ls_log (c_log c)) s) ∧
  (log_ok (ls_disk (c_log c)) ∧ keys_ok (ls_disk (c_log c)) ∧ ∀ s, s ∈ h → logged_in (ls_disk (c_log c)) s).

Lemma run_inv_kept h c c' : run_inv h c → keeps_log c c' → run_inv h c'.
Proof.
  intros [(M1 & M3 & M2) D] [Hk Hd].
  assert (Hm : ∀ l', kept (ls_log (c_log c)) l' → log_ok l' ∧ keys_ok l' ∧ ∀ s, s ∈ h → logged_in l' s).
  { intros l' Hl. split; [apply (log_ok_kept _ _ M1 Hl)|]. split; [by eapply keys_ok_kept|]. intros s Hs.
    apply (logged_in_kept _ _ _ Hl), (M2 _ Hs). }
  split; [by apply Hm|]. destruct Hd as [->|Hd]; [done|by apply Hm].
Qed.

Lemma run_inv_sign h c e req r c' :
  chain_ok vmFinal → run_inv h c → honest e (ls_log (c_log c)) → handleSign e req c = (r, c') →
  run_inv (answered req r ++ h) c'.
Proof.
  intros Hok Hi Hh E. apply handleSign_cases in E as [[Hk (err & ->)]|(key & tx & x & k & c1 & Hkey & Hp & [Hm Hd] & _)].
  { simpl. by eapply run_inv_kept. }
  pose proof (run_inv_kept _ _ _ Hi (passed_keeps _ _ _ _ _ _ _ Hp)) as [(M1 & M3 & M2) D].
  pose proof (log_ok_recorded e req c tx x k c1 key (k_value k) (recordedFee e req c1) (unix (e_now e))
                Hok Hh Hp Hkey M1) as Hl.
  assert (Hmem : log_ok (ls_log (c_log c')) ∧ keys_ok (ls_log (c_log c')) ∧ ∀ s, s ∈ answered req r ++ h → logged_in (ls_log (c_log c')) s).
  { rewrite Hm. split; [done|]. split; [by eapply keys_ok_recorded|]. intros s [Hs|Hs]%elem_of_app; [|by apply logged_in_recorded, M2].
    eapply answered_logged; [done|by eapply passed_tx|done]. }
  split; [done|]. destruct Hd as [->|[-> (err & ->)]]; [done|]. exact D.
Qed.

Lemma run_inv_ok h c : chain_ok vmFinal → signer_run h c → run_inv h c.
Proof.
  intros Hok Hr. induction Hr as [c H1 H2|h c e req r c' _ IH Hh E|h c e d r c' _ IH E|h c e r c' _ IH E|h c l ws _ IH E].
  - assert (∀ l, Actions l = ∅ → log_ok l ∧ keys_ok l ∧ ∀ s, s ∈ [] → logged_in l s) as He; [|by split; apply He].
    intros l El. split_and!; [by apply log_ok_empty| |by intros s ?%elem_of_nil].
    intros k. rewrite El, lookup_empty. by intros [].
  - by eapply run_inv_sign.
  - eapply run_inv_kept; [done|by eapply handleRegister_keeps].
  - eapply run_inv_kept; [done|by eapply handleStatus_keeps].
  - destruct IH as [_ IH]. rewrite reopen_normal in E by apply IH. injection E as <-. by split.
Qed.

Lemma prevOuts_stripSigs t : prevOuts (stripSigs t) = prevOuts t.
Proof. unfold prevOuts, stripSigs. simpl. by rewrite <- list_fmap_compose. Qed.

(** t is a signing of tx: tx but for its inputs' scripts. *)
Lemma signing_logged t tx e :
  stripSigs t = tx → Txid e = Hash_String (TxHash tx) → Inputs e = OutPoint_String <$> prevOuts tx → logged_as t e.
Proof.
  intros <- T I. split; [exact T|]. by rewrite I, prevOuts_stripSigs.
Qed.
End run.

(** C5. A signer pays an action at most once: over any sequence of requests,
    failed writes and restarts, each request handled with honest nodes (the blocks
    a node shows stay in its chain: a node that shows a block a reorganisation
    takes away later is not one), of all the signings of all the transactions it
    answered with signatures for one release, cancellation, payout or refund, at
    most one is ever in its chain. *)
Theorem signer_pays_once {CR : Crypto} {RT : GoRuntime} {ROK : GoRuntimeOk} vmFinal dogeFinal h c s1 s2 t1 t2 :
  chain_ok vmFinal → chain_ok dogeFinal → signer_run vmFinal dogeFinal h c → s1 ∈ h → s2 ∈ h →
  action_key (sg_action s1) = action_key (sg_action s2) → Kind (sg_action s1) ≠ actionFence →
  t1 ∈ finalOn vmFinal dogeFinal (kindChain (Kind (sg_action s1))) → stripSigs t1 = sg_tx s1 →
  t2 ∈ finalOn vmFinal dogeFinal (kindChain (Kind (sg_action s1))) → stripSigs t2 = sg_tx s2 →
  t1 = t2.
Proof.
  intros Hv Hd Hr H1 H2 Hk Hf F1 S1 F2 S2. destruct (run_inv_ok _ _ _ _ Hv Hr) as [([Hs _ _ _] & _ & Hl) _].
  destruct (Hl _ H1) as (key & e1 & K1 & E1 & T1 & I1). destruct (Hl _ H2) as (key' & e2 & K2 & E2 & T2 & I2).
  assert (key' = key) as -> by congruence.
  eapply (one_confirms _ key (kindChain (Kind (sg_action s1))) _ t1 t2 e1 e2); [|by apply Hs|done..| |].
  - unfold finalOn. by case_bool_decide.
  - by eapply signing_logged.
  - by eapply signing_logged.
Qed.

(** C6. A deposit is never both credited and given back: over any sequence of
    requests, failed writes and restarts, each request handled with honest nodes
    (the blocks a node shows are not taken away by a reorganisation later), if a
    signer answered with signatures for a release of a deposit and for its
    refund, no signing of the release is ever in DogecoinVM; and a release and a
    cancellation of one deposit it signed never both are. *)
Theorem credited_never_returned {CR : Crypto} {RT : GoRuntime} {ROK : GoRuntimeOk} vmFinal dogeFinal h c s1 s2 t1 op :
  chain_ok vmFinal → signer_run vmFinal dogeFinal h c → s1 ∈ h → s2 ∈ h →
  Kind (sg_action s1) = actionRelease → parseOutPoint (Deposit (sg_action s1)) = Ok op →
  parseOutPoint (Deposit (sg_action s2)) = Ok op →
  t1 ∈ vmFinal → stripSigs t1 = sg_tx s1 → parseRelease t1 = Some op →
  Kind (sg_action s2) ≠ actionRefund ∧
  (Kind (sg_action s2) = actionCancel →
   ∀ t2, t2 ∈ vmFinal → stripSigs t2 = sg_tx s2 → parseCancel t2 = Some op → False).
Proof.
  intros Hv Hr H1 H2 K1 P1 P2 F1 S1 M1. destruct (run_inv_ok _ _ _ _ Hv Hr) as [([_ _ Hx Hd] & _ & Hl) _].
  destruct (Hl _ H1) as (key & e1 & A1 & E1 & T1 & I1). destruct (Hl _ H2) as (key' & e2 & A2 & E2 & T2 & I2).
  assert (Hkey : ∀ a kind k, outpointKind kind = true → Kind a = kind → parseOutPoint (Deposit a) = Ok op →
      action_key a = Ok k → k = keyOf kind (OutPoint_String op)).
  { intros a kind k Hk <- Hp. unfold action_key. rewrite Hk, Hp. by intros [= <-]. }
  rewrite (Hkey _ actionRelease _ eq_refl K1 P1 A1) in E1.
  pose proof (signing_logged _ _ _ S1 T1 I1) as L1. split.
  - intros K2. rewrite (Hkey _ actionRefund _ eq_refl K2 P2 A2) in E2. by apply (Hd _ _ _ E1 E2 t1).
  - intros K2 t2 F2 S2 M2. rewrite (Hkey _ actionCancel _ eq_refl K2 P2 A2) in E2.
    pose proof (signing_logged _ _ _ S2 T2 I2) as L2.
    destruct (Hx _ _ _ E1 E2) as [(raw & R1 & R2)|Hn]; [|by apply (Hn t1)].
    assert (t1 = t2) as ->.
    { rewrite I1 in R1. rewrite I2 in R2. apply list_elem_of_fmap in R1 as (o1 & -> & R1).
      apply list_elem_of_fmap in R2 as (o2 & Eo & R2). rewrite <- S1, prevOuts_stripSigs in R1.
      rewrite <- S2, prevOuts_stripSigs in R2.
      apply OutPoint_String_inj in Eo as <-;
        [|by apply (final_prev_ok _ _ _ Hv F1)|by apply (final_prev_ok _ _ _ Hv F2)].
      by apply (final_one _ _ _ o1 Hv F1 F2). }
    apply parseOutPointTag_tag in M1. apply parseOutPointTag_tag in M2. rewrite M1 in M2. discriminate.
Qed.

(** ** A signer that signs a release twice, then its cancellation *)

Module Samples.
#[local] Existing Instance toyCrypto.
#[local] Existing Instance toyCrypto_ok.
#[local] Existing Instance goRuntime.
#[local] Existing Instance goRuntime_ok.
Import Load.Samples.

Definition anchorOp : OutPoint := mkOutPoint (TxHash coinbase) 0.
Definition vmNode1 : chain := {|
  txsFor := fun _ => Ok [mkChainTx coinbase 9 0];
  unspent := fun _ _ => Ok [mkUtxo anchorOp (1000 * koinuPerDoge) reserve 9];
  confirmer := None; utxoSetter := Some (fun _ => Ok true); conflictLister := None;
|}.
Definition dogeNode1 : chain := {|
  txsFor := fun _ => Ok [mkChainTx (depositTx 2) 70 0];
  unspent := fun _ _ => Ok [mkUtxo (dep 2) (20 * koinuPerDoge) reserve 70;
                            mkUtxo (mkOutPoint (replicate 32 8) 0) (5 * koinuPerDoge) reserve 70];
  confirmer := None; utxoSetter := Some (fun _ => Ok true); conflictLister := None;
|}.
Definition env1 : signerEnv := {|
  e_b := sampleBridge; e_pub := []; e_vm := vmNode1; e_doge := dogeNode1; e_importTxs := None;
  e_now := 0; e_paused := false; e_maxDaily := 0; e_maxRegistrations := 0;
  e_approvals := Some (Ok (OutPoint_String (dep 2) +:+ " addr force")%string);
  e_decodeAddress := fun _ => Err (Errorf "no address"); e_rawSig := fun _ _ _ => Ok [1; 1];
  e_verifies := fun _ _ _ _ => false;
|}.
Definition provenLog : signingLog :=
  mkLog ∅ {[chainDogecoinVM := OutPoint_String anchorOp; chainDogecoin := OutPoint_String (dep 2)]} historyFenced ∅ 0 0 0 [].
Definition signer0 : cosigner :=
  mkCosigner (mkLogState provenLog provenLog []) (mkRegistry (Ok []) [] [] []) [] 0 ∅ None true.
Definition inputs1 : list utxo := [mkUtxo anchorOp (1000 * koinuPerDoge) reserve 9].
(** What a builder returned. *)
Definition orNone (r : result MsgTx) : MsgTx := match r with Ok t => t | Err _ => NewMsgTx 1 end.

Definition dep2 : deposit := mkDeposit 0 (dep 2) (20 * koinuPerDoge) alice true true 70.
Definition release2 : MsgTx := orNone (buildRelease sampleBridge inputs1 (1000 * koinuPerDoge) dep2).
Definition cancel2 : MsgTx := orNone (buildCancel sampleBridge inputs1 (dep 2)).
Definition releaseReq : signRequest :=
  mkRequest chainDogecoinVM (mkAction actionRelease (OutPoint_String (dep 2)) EmptyString EmptyString)
    (encodeTx release2) [] 0.
Definition cancelReq : signRequest :=
  mkRequest chainDogecoinVM (mkAction actionCancel (OutPoint_String (dep 2)) EmptyString EmptyString)
    (encodeTx cancel2) [] 0.

Definition releaseSigning : signing := mkSigning (req_Action releaseReq) chainDogecoinVM release2.
Definition cancelSigning : signing := mkSigning (req_Action cancelReq) chainDogecoinVM cancel2.
Definition signings : list signing := [cancelSigning; releaseSigning; releaseSigning].

(** The release as it ends up in DogecoinVM, signed. *)
Definition releaseInBlock : MsgTx :=
  mkMsgTx (Version release2) ((fun ti => mkTxIn (PreviousOutPoint ti) [7] [] (Sequence ti)) <$> txIn release2)
    (txOut release2) (LockTime release2).

Lemma node_honest node final name l addr txs blocks :
  (∀ addrs, txsFor node addrs = Ok txs) → utxoSetter node = Some (fun _ => Ok true) → blocks ⊆ final →
  (∀ b, b ∈ blocks → ∃ ct, ct ∈ txs ∧ ct_tx ct = b ∧ 0 < ct_confirmations ct) →
  (∀ ct, ct ∈ txs → ct_tx ct ∈ blocks ∨ prevOuts (ct_tx ct) = [nullOut]) →
  honest_node final name l addr node.
Proof.
  intros Ht Hu Hf H1 H2. exists blocks, (fun _ => true). split_and!; [done| |done|].
  - unfold unspentOn. by rewrite Hu.
  - intros addrs txs' _ E. rewrite Ht in E. injection E as <-. split; [by eauto|by auto].
Qed.

Lemma env1_honest l : honest [releaseInBlock] [depositTx 2] env1 l.
Proof.
  split.
  - apply (node_honest _ _ _ _ _ [mkChainTx coinbase 9 0] []); [intros addrs; reflexivity|reflexivity|..].
    + by intros b ?%elem_of_nil.
    + by intros b ?%elem_of_nil.
    + intros ct Hc%list_elem_of_singleton. subst ct. right. reflexivity.
  - intros node [->|(f & m & E & _)]; [|discriminate E].
    apply (node_honest _ _ _ _ _ [mkChainTx (depositTx 2) 70 0] [depositTx 2]);
      [intros addrs; reflexivity|reflexivity|intros b Hb; exact Hb|..].
    + intros b Hb%list_elem_of_singleton. subst b. eexists. split_and!; [left|reflexivity|reflexivity].
    + intros ct Hc%list_elem_of_singleton. subst ct. left. left.
Qed.

(** The release signed twice, then its cancellation. *)
Lemma signings_answered :
  let '(r1, c1) := handleSign env1 releaseReq signer0 in
  let '(r2, c2) := handleSign env1 releaseReq c1 in
  let '(r3, c3) := handleSign env1 cancelReq c2 in
  answered cancelReq r3 ++ answered releaseReq r2 ++ answered releaseReq r1 ++ [] = signings.
Proof. vm_compute. reflexivity. Qed.

Lemma signings_run : ∃ c, signer_run [releaseInBlock] [depositTx 2] signings c.
Proof.
  pose proof signings_answered as Hs. destruct (handleSign env1 releaseReq signer0) as [r1 c1] eqn:E1.
  destruct (handleSign env1 releaseReq c1) as [r2 c2] eqn:E2.
  destruct (handleSign env1 cancelReq c2) as [r3 c3] eqn:E3.
  exists c3. rewrite <- Hs. eapply run_sign; [|apply env1_honest|exact E3].
  eapply run_sign; [|apply env1_honest|exact E2]. eapply run_sign; [|apply env1_honest|exact E1].
  apply run_new; reflexivity.
Qed.

Lemma samples_chains : chain_ok [releaseInBlock] ∧ chain_ok [depositTx 2].
Proof.
  split; split; apply (bool_decide_unpack _); vm_compute; exact I.
Qed.

(** Whatever signing of the release is in DogecoinVM is the one that is. *)
Lemma signer_pays_once_witness :
  length signings = 3%nat ∧ releaseInBlock ∈ [releaseInBlock] ∧
  ∀ t, t ∈ [releaseInBlock] → stripSigs t = release2 → t = releaseInBlock.
Proof.
  split; [reflexivity|]. split; [left|]. destruct samples_chains as [Hv Hd], signings_run as [c Hr]. intros t Ht St.
  apply (signer_pays_once [releaseInBlock] [depositTx 2] signings c releaseSigning releaseSigning
           t releaseInBlock Hv Hd Hr).
  - right. left.
  - right. right. left.
  - reflexivity.
  - discriminate.
  - exact Ht.
  - exact St.
  - left.
  - vm_compute. reflexivity.
Defined.

Lemma credited_never_returned_witness :
  Kind (sg_action cancelSigning) = actionCancel ∧ parseRelease releaseInBlock = Some (dep 2) ∧
  (∀ t2, t2 ∈ [releaseInBlock] → stripSigs t2 = sg_tx cancelSigning → parseCancel t2 = Some (dep 2) → False).
Proof.
  assert (Hm : parseRelease releaseInBlock = Some (dep 2)) by (vm_compute; reflexivity).
  split; [reflexivity|]. split; [exact Hm|]. destruct samples_chains as [Hv _], signings_run as [c Hr].
  destruct (credited_never_returned [releaseInBlock] [depositTx 2] signings c releaseSigning cancelSigning
              releaseInBlock (dep 2) Hv Hr) as [_ H].
  - right. left.
  - left.
  - reflexivity.
  - vm_compute. reflexivity.
  - vm_compute. reflexivity.
  - left.
  - vm_compute. reflexivity.
  - exact Hm.
  - apply H. reflexivity.
Defined.
End Samples.
