(* ===== verification/Answers.v ===== *)
(** What one answer of the signer service means (src/cmd/dogevm/cosign.go,
    fence.go): the theorems about a request handleSign answers with signatures. *)

From Stdlib Require Import Ascii String.
From S2P Require Import Prelude Text Wire Runtime Script Tags Amount Peg Lineage State Build Load SigningLog Registry.
From S2P Require Import Cutover Fence Cosigner Signing Run.

(** ** What handling a request is made of *)

Section handling.
Context {CR : Crypto} {RT : GoRuntime}.

(** A view of the chains a request may be decided on: its nodes', with the
    registry as it was. *)
Definition seen (e : signerEnv) (s : pegState) : Prop :=
  ∃ file doge, load (setRegistryOf (e_b e) file) (e_vm e) doge = Ok s ∧ dogeNodeOf e doge.

Lemma on_log_bind {A B} (m : St logState A) (f : A → St logState B) c :
  on_log (m ≫= f) c = (on_log m ≫= fun a => on_log (f a)) c.
Proof.
  unfold on_log, mbind, st_bind. destruct (m (c_log c)) as [[a|err] ls]; [|done]. cbn [c_log].
  by destruct (f a ls).
Qed.

Context (e : signerEnv) (R : cosigner → cosigner → Prop) `{!PreOrder R}.

(** A relation every step of a request keeps. *)
Record kept_by_steps : Prop := {
  ks_registry {A} (m : St registryState A) : preserves R (on_registry m);
  ks_registered ts : preserves R (setRegistered ts);
  ks_fenceFee fee : preserves R (setFenceFee fee);
  ks_fence s : seen e s → preserves R (fence e s);
  ks_advance s : seen e s → preserves R (on_log (advanceCutover (signers (e_b e)) (e_pub e) (e_now e) s));
  ks_learn ev : preserves R (on_log (learnSigned ev));
  ks_budget set s key fee : preserves R (on_log (cutoverBudgetRoom set s key fee));
  ks_record a key chain tx value fee now : action_key a = Ok key → preserves R (on_log (record key chain tx value fee now)) }.

Context (HK : kept_by_steps).

Lemma on_log_bind_keeps {A B} (m : St logState A) (f : A → St logState B) :
  preserves R (on_log m) → (∀ a, preserves R (on_log (f a))) → preserves R (on_log (m ≫= f)).
Proof. intros Hm Hf c r c'. rewrite on_log_bind. revert c r c'. by apply preserves_bind; [apply _|..]. Qed.

Lemma on_log_pure {A} (m : St logState A) : (∀ st, (m st).2 = st) → preserves R (on_log m).
Proof.
  intros Hm c r c'. unfold on_log. specialize (Hm (c_log c)). destruct (m (c_log c)) as [x ls]. simpl in Hm. subst ls.
  destruct c. simpl. intros [= _ <-]. reflexivity.
Qed.

Lemma loadView_keeps_bind {A} doge (f : pegState → St cosigner A) :
  dogeNodeOf e doge → (∀ s, seen e s → preserves R (f s)) → preserves R (loadView e doge ≫= f).
Proof.
  intros Hd Hf c r c'. rewrite st_bind_run. unfold loadView. destruct (load _ _ doge) as [s|err] eqn:El.
  - intros E. eapply Hf; [|exact E]. by exists (r_file (c_registry c)), doge.
  - intros [= _ <-]. reflexivity.
Qed.

Lemma catchUp_keeps_bind {A} s req tx (f : pegState * chain → St cosigner A) :
  seen e s → (∀ s' doge, seen e s' → preserves R (f (s', doge))) → preserves R (catchUp e s req tx ≫= f).
Proof.
  intros Hs Hf c r c'. rewrite st_bind_run. destruct (catchUp e s req tx c) as [[[s' doge]|err] c1] eqn:Ec.
  - apply catchUp_Ok in Ec as (-> & Hd & [[_ ->]|Hl]); intros E; (eapply Hf; [|exact E]); [done|]. by eexists _, _.
  - revert Ec. unfold catchUp. destruct (e_importTxs e) as [imp|]; [|done]. rewrite st_bind_run.
    destruct (missingTxs s req tx) as [missing|err']; cbn [st_lift]; [|intros [= _ <-] [= _ <-]; reflexivity].
    case_bool_decide; [done|]. rewrite st_bind_run. unfold loadView. destruct (load _ _ _) as [s'|err']; [done|].
    intros [= _ <-] [= _ <-]. reflexivity.
Qed.

Lemma register_kept d : preserves R (register e d).
Proof. destruct HK. unfold register, st_ensure. preserve. Qed.

Lemma registerAll_kept dests : preserves R (registerAll e dests).
Proof. pose proof register_kept. induction dests; simpl; preserve. Qed.

Lemma checkView_kept req tx : preserves R (checkView e req tx).
Proof.
  destruct HK. unfold checkView, st_ensure. cbv zeta. apply loadView_keeps_bind; [by left|]. intros s0 H0.
  apply catchUp_keeps_bind; [done|]. intros s doge Hs. apply preserves_bind; [apply _|by auto|]. intros [].
  apply preserves_bind; [apply _| |].
  - case_bool_decide; [apply on_log_bind_keeps; [by auto|]; intros b; by apply on_log_pure|].
    unfold cutoverGate. apply on_log_bind_keeps; [by auto|]. intros b. apply on_log_bind_keeps; [by apply on_log_pure|].
    intros l. by apply on_log_pure.
  - intros []. preserve.
Qed.

Lemma checkAction_kept x : preserves R (checkAction e x).
Proof. destruct HK. unfold checkAction, checkCancel, checkFenceAction. cbv zeta. preserve. Qed.

Lemma check_kept req : preserves R (check e req).
Proof. pose proof registerAll_kept. pose proof checkView_kept. pose proof checkAction_kept. unfold check, st_ensure. preserve. Qed.

Lemma handleSign_kept req : preserves R (handleSign e req).
Proof.
  destruct HK as [_ _ _ _ _ _ _ Hr]. unfold handleSign. pose proof check_kept as Hc. apply (preserves_lift_bind _).
  intros key Ek. cbv zeta. preserve. all: by eapply Hr.
Qed.

Lemma handleRegister_kept d : preserves R (handleRegister e d).
Proof. pose proof register_kept. unfold handleRegister. preserve. Qed.

Lemma handleStatus_kept : preserves R (handleStatus e).
Proof.
  destruct HK. unfold handleStatus. apply loadView_keeps_bind; [by left|]. intros s Hs. cbv zeta. preserve.
Qed.
End handling.

(** ** The log a signer may sign with *)

Section trusted.
Context {CR : Crypto} {RT : GoRuntime}.

(** Methods that leave the log's history and its cutover alone. *)
Definition same_history (s s' : logState) : Prop :=
  History (ls_log s') = History (ls_log s) ∧ Cutover (ls_log s') = Cutover (ls_log s).

#[local] Instance same_history_preorder : PreOrder same_history.
Proof. split; [by intros s|]. intros s1 s2 s3 [A B] [C D]. split; congruence. Qed.

Lemma log_write_history : preserves same_history log_write.
Proof. intros s r s' E. apply log_write_log in E. unfold same_history. by rewrite E. Qed.

Lemma learnSigned_history ev : preserves same_history (learnSigned ev).
Proof.
  intros s r s'. unfold learnSigned, mbind, st_bind. simpl. destruct (existsb _ _); [|by intros [= _ <-]].
  intros E. by apply log_write_history in E.
Qed.

(** Counting contributions changes the budget and nothing else. *)
Lemma addFenceCapital_budget s share l :
  ∃ budget capital, (addFenceCapital s share l).1 = setBudget l budget capital.
Proof.
  unfold addFenceCapital. set (first := (_ =? 0) && _).
  apply (foldl_inv (fun acc : signingLog * bool => ∃ budget capital, acc.1 = setBudget l budget capital)).
  - destruct first; simpl; [by eexists _, _|]. exists (FenceBudget l), (FenceCapital l). by destruct l.
  - intros [l' ch] u _ (bu & ca & E). simpl in E. subst l'. unfold addContribution. destruct (_ || _); simpl; by eexists _, _.
Qed.

Lemma cutoverBudgetRoom_history set s key fee : preserves same_history (cutoverBudgetRoom set s key fee).
Proof.
  intros st r st'. unfold cutoverBudgetRoom. unfold mbind at 1, st_bind at 1. simpl.
  destruct (CutoverEpoch (ls_log st) =? 0); [by intros [= _ <-]|].
  destruct (addFenceCapital_budget s (shareOf set) (ls_log st)) as (bu & ca & Ha).
  destruct (addFenceCapital s (shareOf set) (ls_log st)) as [l' ch]. simpl in Ha. subst l'.
  unfold mbind at 1, st_bind at 1. simpl. set (st1 := mkLogState _ _ _). intros E.
  assert (Hp : preserves same_history (_ ← (if ch then log_write else mret tt);
      st_ensure (negb (bu <? fenceFees (setBudget (ls_log st) bu ca) key fee)) (Errorf "fences would cost more than the budget"))).
  { pose proof log_write_history. unfold st_ensure. preserve. }
  apply Hp in E. transitivity st1; [done|exact E].
Qed.

(** ** The view is clean *)

(** No two listed transactions share an ID. *)
Definition no_txid_collision (txs : list chainTx) : Prop :=
  ∀ t t', t ∈ txs → t' ∈ txs → TxHash (ct_tx t) = TxHash (ct_tx t') → ct_tx t = ct_tx t'.

(** The signatures remembered are those of the transactions they are kept for. *)
Definition mine_ok (e : signerEnv) (txs : list chainTx) (mine : gmap bytes bool) : Prop :=
  ∀ t signed, t ∈ txs → mine !! TxHash (ct_tx t) = Some signed → signed = signedBy e (ct_tx t).

Lemma unloggedTx_spec e logged all txs mine missing :
  no_txid_collision all → txs ⊆ all → mine_ok e all mine →
  let r := foldl (unloggedTx e logged) (mine, missing) txs in
  mine_ok e all r.1 ∧ (r.2 = [] → missing = [] ∧
    ∀ t, t ∈ txs → signedBy e (ct_tx t) = true → Hash_String (unsignedHash (ct_tx t)) ∈ logged).
Proof.
  intros Hinj. revert mine missing. induction txs as [|t txs IH]; intros mine missing Hsub Hm; simpl.
  { split; [done|]. intros ->. split; [done|]. by intros t ?%elem_of_nil. }
  set (signed := match mine !! _ with Some _ => _ | None => _ end).
  assert (Ht : t ∈ all) by (apply Hsub; by left).
  assert (Es : signed = signedBy e (ct_tx t)).
  { subst signed. destruct (mine !! _) as [b|] eqn:E; [by apply (Hm t b Ht)|done]. }
  set (missing' := if signed && _ then _ else _).
  destruct (IH (<[TxHash (ct_tx t) := signed]> mine) missing') as [I1 I2].
  - intros u Hu. apply Hsub. by right.
  - intros u b Hu [[Eu <-]|[_ Hb]]%lookup_insert_Some; [|by apply Hm].
    rewrite Es. by rewrite (Hinj t u Ht Hu Eu).
  - split; [done|]. intros [Hmiss Hin]%I2. revert Hmiss. unfold missing'.
    destruct (signed && negb _) eqn:Eb; [by destruct missing|]. intros ->. split; [done|].
    intros t' [->|Ht']%elem_of_cons Hs; [|by apply Hin].
    rewrite Es, Hs in Eb. simpl in Eb. apply negb_false_iff in Eb. by apply bool_decide_eq_true in Eb.
Qed.

(** fence passes only a signer not quarantined, whose every signature in the
    view is in its log. *)
Lemma fence_Ok e s c c' :
  fence e s c = (Ok tt, c') →
  quarantined c = EmptyString ∧ c_log c' = c_log c ∧
  (no_txid_collision (vmTxs s ++ dogeTxs s) → mine_ok e (vmTxs s ++ dogeTxs s) (c_mine c) →
   ∀ t, t ∈ vmTxs s ++ dogeTxs s → signedBy e (ct_tx t) = true →
     Hash_String (unsignedHash (ct_tx t)) ∈ txids (ls_log (c_log c))).
Proof.
  unfold fence, unlogged, mbind, st_bind. simpl.
  destruct (bool_decide (quarantined c = EmptyString)) eqn:Eq; simpl; [|done].
  apply bool_decide_eq_true in Eq.
  destruct (foldl _ _ _) as [mine missing] eqn:Ef. simpl.
  destruct (bool_decide (missing = [])) eqn:Em; simpl.
  2:{ unfold quarantine, mbind, st_bind. simpl. by destruct (c_markerOk _). }
  apply bool_decide_eq_true in Em. intros [= <-]. split_and!; [done..|]. intros Hinj Hmine.
  pose proof (unloggedTx_spec e (txids (ls_log (c_log c))) _ (vmTxs s ++ dogeTxs s) (c_mine c) [] Hinj
                ltac:(done) Hmine) as [_ Hu].
  rewrite Ef in Hu. by apply Hu.
Qed.

(** What is remembered stays true of the transactions, whatever is asked. *)
Definition mine_kept (e : signerEnv) (all : list chainTx) (c c' : cosigner) : Prop :=
  mine_ok e all (c_mine c) → mine_ok e all (c_mine c').

#[export] Instance mine_kept_preorder e all : PreOrder (mine_kept e all).
Proof. split; [by intros c H|]. intros c1 c2 c3 A B H. by apply B, A. Qed.

Lemma fence_mine e all s :
  no_txid_collision all → vmTxs s ++ dogeTxs s ⊆ all → preserves (mine_kept e all) (fence e s).
Proof.
  intros Hc Hsub c r c'. unfold fence, unlogged, quarantine, mbind, st_bind. simpl. destruct (negb _); [by intros [= _ <-] Hm|].
  destruct (foldl _ _ _) as [mine missing] eqn:Ef. intros E Hm.
  destruct (unloggedTx_spec e (txids (ls_log (c_log c))) all (vmTxs s ++ dogeTxs s) (c_mine c) [] Hc Hsub Hm) as [Hok _].
  rewrite Ef in Hok. simpl in Hok. revert E. simpl. destruct (negb _); simpl; [|by intros [= _ <-]].
  destruct (c_markerOk c); by intros [= _ <-].
Qed.

Lemma on_log_mine {A} e all (m : St logState A) : preserves (mine_kept e all) (on_log m).
Proof. intros c r c'. unfold on_log. destruct (m (c_log c)). by intros [= _ <-] Hm. Qed.

Lemma mine_steps e all :
  no_txid_collision all → (∀ s, seen e s → vmTxs s ++ dogeTxs s ⊆ all) → kept_by_steps e (mine_kept e all).
Proof.
  intros Hc Hall. split; intros; try apply on_log_mine; [| | |by apply fence_mine; [|apply Hall]].
  - intros c r c'. unfold on_registry. destruct (m (c_registry c)). by intros [= _ <-] Hm.
  - by intros c r c' [= _ <-] Hm.
  - by intros c r c' [= _ <-] Hm.
Qed.

(** Registering addresses changes the registry and its rate only. *)
Definition same_marks (c c' : cosigner) : Prop :=
  c_marker c' = c_marker c ∧ c_mine c' = c_mine c ∧ c_log c' = c_log c.

#[local] Instance same_marks_preorder : PreOrder same_marks.
Proof. split; [by intros c|]. intros c1 c2 c3 (A & B & C) (D & E & F). split_and!; congruence. Qed.

Lemma on_registry_marks {A} (m : St registryState A) : preserves same_marks (on_registry m).
Proof. intros c r c'. unfold on_registry. destruct (m (c_registry c)). by intros [= _ <-]. Qed.

Lemma setRegistered_marks ts : preserves same_marks (setRegistered ts).
Proof. by intros c r c' [= _ <-]. Qed.

Hint Resolve on_registry_marks setRegistered_marks : steps.

Lemma register_marks e d : preserves same_marks (register e d).
Proof. unfold register, st_ensure. preserve. Qed.

Hint Resolve register_marks : steps.

Lemma registerAll_marks e dests : preserves same_marks (registerAll e dests).
Proof. induction dests; simpl; preserve. Qed.

(** The surplus the log l promised, as a signer finds it in a view: what the
    transactions of every action but one may still take, with the IDs the chains
    list them under. *)
Definition viewEvidence (e : signerEnv) (s : pegState) (doge : chain) : chainEvidence :=
  mkEvidence (listed (newChainEvidence s (Some (chainNamed e doge)))) (Some (chainNamed e doge))
    (Z.max (Z.max (depositConfirmations (e_b e)) (confFloor (e_b e))) 1).

Definition feesPromised (e : signerEnv) (s : pegState) (doge : chain) (l : signingLog) (except : string) : Z :=
  unseenFees (learnLog (viewEvidence e s doge) l)
    (list_to_set (u_outPoint <$> lockedUTXOs s) ∪ list_to_set (u_outPoint <$> reserveUTXOs s))
    (Some (viewEvidence e s doge))
    (Some (fun name op => match unspentOn (chainNamed e doge name) with Some f => f op | None => false end)) except.

Lemma unseenFees_actions l l' known ev inChain except :
  Actions l = Actions l' → unseenFees l known ev inChain except = unseenFees l' known ev inChain except.
Proof. unfold unseenFees. by intros ->. Qed.

Lemma learnSigned_log ev st r st' : learnSigned ev st = (r, st') → ls_log st' = learnLog ev (ls_log st).
Proof.
  unfold learnSigned, mbind, st_bind. simpl. destruct (existsb _ _); [|by intros [= _ <-]]. intros E. by apply log_write_log in E.
Qed.

(** What a signer must be to get past checkView. *)
Record trusted (e : signerEnv) (req : signRequest) (c : cosigner) (s : pegState) (x : checkCtx) (c' : cosigner) : Prop := {
  tr_marker : quarantined c = EmptyString;
  tr_clean : no_txid_collision (vmTxs s ++ dogeTxs s) → mine_ok e (vmTxs s ++ dogeTxs s) (c_mine c) →
    ∀ t, t ∈ vmTxs s ++ dogeTxs s → signedBy e (ct_tx t) = true →
      Hash_String (unsignedHash (ct_tx t)) ∈ txids (ls_log (c_log c));
  tr_proven : Kind (req_Action req) ≠ actionFence → unproven (ls_log (c_log c')) = false;
  tr_unseen key : action_key (req_Action req) = Ok key → x_unseen x = feesPromised e s (x_doge x) (ls_log (c_log c)) key;
}.

Lemma unproven_same st st' : same_history st st' → unproven (ls_log st') = unproven (ls_log st).
Proof. intros [E1 E2]. unfold unproven. by rewrite E1, E2. Qed.

Lemma on_log_Ok {A} (m : St logState A) c a c' :
  on_log m c = (Ok a, c') → m (c_log c) = (Ok a, c_log c').
Proof. unfold on_log. destruct (m (c_log c)) as [r ls]. by intros [= -> <-]. Qed.

Lemma cutoverStep_actions e req s st r st' :
  (if bool_decide (Kind (req_Action req) = actionFence)
   then _ ← advanceCutover (signers (e_b e)) (e_pub e) (e_now e) s; mret tt
   else cutoverGate (signers (e_b e)) (e_pub e) (e_now e) s) st = (r, st') →
  Actions (ls_log st') = Actions (ls_log st).
Proof.
  intros E. assert (acts (Actions (ls_log st)) st st') as Ha; [|by apply Ha].
  revert E. case_bool_decide; [|apply cutoverGate_acts]. rewrite st_bind_run.
  destruct (advanceCutover _ _ _ _ st) as [[b|err] st1] eqn:Ea; apply (advanceCutover_acts (Actions (ls_log st))) in Ea; by intros [= _ <-].
Qed.

Lemma checkView_trusted e req tx c x c' :
  checkView e req tx c = (Ok x, c') → ∃ s, viewed e req tx x s ∧ trusted e req c s x c'.
Proof.
  intros E. destruct (checkView_Ok _ _ _ _ _ _ E) as (s0 & Hv0). revert E.
  unfold checkView. intros E. apply st_bind_Ok in E as (s' & c0 & El & E). injection El as El <-.
  apply st_bind_Ok in E as ([s doge] & c1 & Ec & E). apply catchUp_Ok in Ec as (-> & Hd & Hs).
  apply st_bind_Ok in E as ([] & c2 & Ef & E). apply st_bind_Ok in E as ([] & c3 & Eg & E).
  cbv zeta in E. apply st_bind_Ok in E as ([] & c4 & Els & E).
  apply st_bind_Ok in E as (c5 & c6 & [= <- <-] & E).
  apply st_bind_Ok in E as ([] & c5 & Es & E). injection Es as Es%ensure_Ok <-.
  injection E as <- <-. exists s. split.
  { split; simpl; try done. destruct Hs as [[-> ->]|Hl]; eauto. }
  apply fence_Ok in Ef as (Hq & Hc & Hcl). apply on_log_Ok in Eg, Els. pose proof (cutoverStep_actions _ _ _ _ _ _ Eg) as Ha.
  split; [done|done| |].
  - intros Hk. rewrite bool_decide_eq_false_2 in Eg by done.
    rewrite (unproven_same _ _ (learnSigned_history _ _ _ _ Els)).
    unfold cutoverGate in Eg. apply st_bind_Ok in Eg as (ad & st1 & _ & Eg).
    apply st_bind_Ok in Eg as (l & st2 & [= <- <-] & Eg). injection Eg as Eg <-.
    apply ensure_Ok in Eg. by apply negb_true_iff.
  - intros key Hk. rewrite Hk. cbn [x_unseen x_doge]. apply unseenFees_actions. apply learnSigned_log in Els. rewrite Els.
    unfold learnLog. simpl. by rewrite Ha, Hc.
Qed.

Lemma checkAction_history e x c k c' :
  checkAction e x c = (Ok k, c') → unproven (ls_log (c_log c')) = unproven (ls_log (c_log c)).
Proof.
  intros E. apply unproven_same. revert E. generalize (Ok k) c'. 
  assert (Hp : preserves (fun c c' => same_history (c_log c) (c_log c')) (checkAction e x)).
  { assert (Ho : ∀ set s key fee, preserves (fun c c' => same_history (c_log c) (c_log c'))
        (on_log (cutoverBudgetRoom set s key fee))).
    { intros set s key fee c0 r c1. unfold on_log. destruct (cutoverBudgetRoom _ _ _ _ _) as [r' ls] eqn:Eb.
      intros [= _ <-]. by apply cutoverBudgetRoom_history in Eb. }
    assert (Hf : ∀ fee, preserves (fun c c' => same_history (c_log c) (c_log c')) (setFenceFee fee))
      by (by intros fee c0 r c1 [= _ <-]).
    assert (Hr : PreOrder (fun c c' => same_history (c_log c) (c_log c'))).
    { split; [intros ?; reflexivity|]. intros ? ? ? H1 H2. by etrans. }
    unfold checkAction, checkCancel, checkFenceAction. cbv zeta. preserve. }
  intros r c1 E. by apply Hp in E.
Qed.

Lemma unproven_recorded l key chain tx value fee now :
  unproven (recorded l key chain tx value fee now) = unproven l.
Proof. unfold recorded, unproven. destruct (txIn tx); [done|]. by destruct (bool_decide (chain = EmptyString)). Qed.
End trusted.

(** ** One answer *)

Section answers.
Context {CR : Crypto} {RT : GoRuntime}.

(** An answer, by what it went through. *)
Lemma handleSign_Ok e req c sigs c' :
  handleSign e req c = (Ok sigs, c') →
  ∃ key tx x k c1, action_key (req_Action req) = Ok key ∧ passed e req c tx x k c1 ∧
    ls_log (c_log c') = recorded (ls_log (c_log c1)) key (req_Chain req) tx (k_value k) (recordedFee e req c1) (unix (e_now e)) ∧
    ls_disk (c_log c') = ls_log (c_log c') ∧ signInputs e tx (k_redeems k) = Ok sigs.
Proof.
  intros E. apply handleSign_cases in E as [[_ (? & [=])]|(key & tx & x & k & c1 & Hk & Hp & [Hm Hd] & Hs)].
  exists key, tx, x, k, c1. split_and!; [done..| |by apply Hs].
  destruct Hd as [Hd|[_ (? & [=])]]; done.
Qed.

Lemma signEach_length e tx i redeems sigs : signEach e tx i redeems = Ok sigs → length sigs = length redeems.
Proof.
  revert i sigs. induction redeems as [|r rs IH]; intros i sigs; simpl; [by intros [= <-]|].
  intros E. apply bind_Ok in E as (sig & _ & E). apply bind_Ok in E as (rest & Hr & [= <-]). simpl. f_equal. by eapply IH.
Qed.

Lemma recorded_anchor l key chain tx value fee now ti rest :
  txIn tx = ti :: rest → chain ≠ EmptyString →
  Anchors (recorded l key chain tx value fee now) !! chain = Some (OutPoint_String (PreviousOutPoint ti)).
Proof.
  intros Ht Hc. unfold recorded. rewrite Ht, bool_decide_eq_false_2 by done. simpl. by rewrite lookup_insert_eq.
Qed.

(** The anchor a later proposal is held to. *)
Definition anchored_at (l : signingLog) (chain : string) (tx : MsgTx) : Prop :=
  ∀ ti rest, txIn tx = ti :: rest → chain ≠ EmptyString →
  Anchors l !! chain = Some (OutPoint_String (PreviousOutPoint ti)).

(** C15. A signature leaves the signer only after the log that holds it is on
    disk: when handleSign answers, the log on disk is the one in memory, it holds
    the transaction under its action's key as the last entry, and the chain's
    anchor is its first input; there is one signature for each input. *)
Theorem signature_after_write e req c sigs c' :
  handleSign e req c = (Ok sigs, c') →
  ∃ key tx t old, action_key (req_Action req) = Ok key ∧ decodeProposal req = Ok tx ∧
    ls_disk (c_log c') = ls_log (c_log c') ∧
    entries key (ls_disk (c_log c')) = old ++ [t] ∧ Forall2 same_tx (entries key (ls_log (c_log c))) old ∧
    Txid t = Hash_String (TxHash tx) ∧ Inputs t = OutPoint_String <$> prevOuts tx ∧ lt_Chain t = req_Chain req ∧
    anchored_at (ls_disk (c_log c')) (req_Chain req) tx ∧ length sigs = length (txIn tx).
Proof.
  intros E. apply handleSign_Ok in E as (key & tx & x & k & c1 & Hk & Hp & Hm & Hd & Hs).
  exists key, tx, (entryOf (req_Chain req) tx (recordedFee e req c1)), (entries key (ls_log (c_log c1))).
  rewrite Hd, Hm. split_and!; [done|by eapply passed_tx|done|by rewrite entries_recorded| |done..| |].
  - destruct (passed_keeps _ _ _ _ _ _ _ Hp) as [Hkept _]. specialize (Hkept key). unfold entries.
    by inversion Hkept as [? ? (_ & _ & Hf) E1 E2|E1 E2].
  - intros ti rest. apply recorded_anchor.
  - unfold signInputs in Hs. apply bind_Ok in Hs as ([] & Hl & Hs). apply ensure_Ok, Nat.eqb_eq in Hl.
    apply signEach_length in Hs. congruence.
Qed.

(** C11. A signer signs only with a log it can trust. An answered request found
    it unpaused (or is for a fence) and not quarantined; for anything but a fence,
    its log is proven (its history known, and no cutover under way); and the view
    of the chains it was decided on is solvent with every fee the signer promised
    for other actions and that may still be taken (unseenFees of its log in that
    view) held back. Every transaction in that view that carries its signature is
    in its log, as long as no two transactions its nodes show share an ID and what
    it remembers of earlier checks of signatures is true of them, which handling
    the request keeps so. *)
Theorem signs_only_when_trusted e req c sigs c' :
  handleSign e req c = (Ok sigs, c') →
  (e_paused e = false ∨ Kind (req_Action req) = actionFence) ∧ quarantined c = EmptyString ∧
  (Kind (req_Action req) ≠ actionFence → unproven (ls_log (c_log c')) = false) ∧
  ∃ key s file doge, action_key (req_Action req) = Ok key ∧
    load (setRegistryOf (e_b e) file) (e_vm e) doge = Ok s ∧ dogeNodeOf e doge ∧
    solvent (audit (addPendingFees s (feesPromised e s doge (ls_log (c_log c)) key))) = true ∧
    ∀ all, (∀ s', seen e s' → vmTxs s' ++ dogeTxs s' ⊆ all) → no_txid_collision all → mine_ok e all (c_mine c) →
      (∀ t, t ∈ vmTxs s ++ dogeTxs s → signedBy e (ct_tx t) = true →
         Hash_String (unsignedHash (ct_tx t)) ∈ txids (ls_log (c_log c))) ∧
      mine_ok e all (c_mine c').
Proof.
  intros E. pose proof E as Emine.
  apply handleSign_Ok in E as (key & tx & x & k & c1 & Hk & [Hr Ht (ca & cb & Ha & Hv & Hc) _] & Hm & Hd & Hs).
  apply registerAll_marks in Ha as (M1 & M2 & M3).
  apply checkView_trusted in Hv as (s & [(file & Hl) Hdoge _ _ _ _ Hst Hsol] & [T1 T2 T3 T4]).
  split; [done|]. rewrite M2, M3 in T2. rewrite M3 in T4. unfold quarantined in T1 |- *. rewrite M1 in T1. split; [done|]. split.
  - intros Hf. rewrite Hm, unproven_recorded, (checkAction_history _ _ _ _ _ Hc). by apply T3.
  - exists key, s, file, (x_doge x). rewrite <- (T4 key Hk), <- Hst. split_and!; [done..|]. intros all Hall Hcol Hmine.
    assert (vmTxs s ++ dogeTxs s ⊆ all) as Hsub by (apply Hall; by exists file, (x_doge x)). split.
    + apply T2; [intros t t' H1 H2; apply Hcol; by apply Hsub|]. intros t b Hin. apply Hmine. by apply Hsub.
    + apply (handleSign_kept e _ (mine_steps e all Hcol Hall)) in Emine. by apply Emine.
Qed.

(** The proposal is, byte for byte, the transaction this signer would build. *)
Lemma passed_want e req c tx x k c1 :
  passed e req c tx x k c1 → x_tx x = tx → encodeTx (k_want k) = encodeTx tx.
Proof.
  intros [_ _ _ Hl] <-. unfold checkLog in Hl. cbv zeta in Hl. apply bind_Ok in Hl as ([] & Hw & _).
  apply ensure_Ok in Hw. by apply bool_decide_eq_true in Hw.
Qed.

(** The shape of a release. *)
Lemma buildRelease_shape b inputs d tx :
  coins_ok inputs → 0 ≤ d_value d → d_value d + pegDust < two63 → 0 ≤ vmFee b ≤ d_value d →
  d_value d [+] pegDust ≤ sum_values inputs →
  buildRelease b inputs (sum_values inputs) d = Ok tx →
  ∃ dataOut, nullData (encodeRelease (d_outPoint d)) = Ok dataOut ∧ prevOuts tx = u_outPoint <$> inputs ∧
    txOut tx = [mkTxOut (d_value d - vmFee b) (pkScript (d_dest d));
                mkTxOut (total_of inputs - d_value d) (signers_pkScript (signers b)); dataOut] ∧
    pegDust ≤ total_of inputs - d_value d.
Proof.
  intros Hc Hv Hb Hf Hle. rewrite sum_values_exact in * by done. pose proof Hc as [Hn Hs]. fold (total_of inputs) in Hs.
  rewrite pegDust_val in *. rewrite wrap64_small in Hle by i64. unfold buildRelease. rewrite addInputs_fields.
  rewrite !wrap64_small by i64. rewrite (proj2 (Z.ltb_lt _ _)) by lia.
  intros E. apply bind_Ok in E as (dataOut & Hd & [= <-]). exists dataOut. split_and!; [done| |done|lia].
  unfold prevOuts. simpl. by rewrite <- list_fmap_compose.
Qed.

(** C12. A signer signs a release only of a deposit it sees, deep enough and not
    settled, and only the transaction that credits it exactly: in its own view of
    the chains the deposit is creditable with the confirmations its value needs,
    was never credited, refunded or cancelled, and neither is a refund or a
    cancellation of it in the signer's log; the proposal spends the reserve's
    anchor first and otherwise reserve coins, and pays the depositor the value
    less the fee and the reserve the rest, at least the dust limit. *)
Theorem release_answered e req c sigs c' :
  handleSign e req c = (Ok sigs, c') → Kind (req_Action req) = actionRelease →
  ∃ tx want s file doge d anchor inputs,
    decodeProposal req = Ok tx ∧ encodeTx want = encodeTx tx ∧ req_Chain req = chainDogecoinVM ∧
    load (setRegistryOf (e_b e) file) (e_vm e) doge = Ok s ∧ dogeNodeOf e doge ∧
    d ∈ deposits s ∧ parseOutPoint (Deposit (req_Action req)) = Ok (d_outPoint d) ∧
    confirmationsFor (e_b e) (d_value d) ≤ d_confirmations d ∧
    has (released s) (d_outPoint d) = false ∧ has (refunded s) (d_outPoint d) = false ∧
    isCancelled s (d_outPoint d) = false ∧
    entries (keyOf actionRefund (OutPoint_String (d_outPoint d))) (ls_log (c_log c)) = [] ∧
    entries (keyOf actionCancel (OutPoint_String (d_outPoint d))) (ls_log (c_log c)) = [] ∧
    reserveAnchor s = Some anchor ∧ head (prevOuts tx) = Some (u_outPoint anchor) ∧
    u_outPoint <$> inputs = prevOuts tx ∧ (∀ u, u ∈ inputs → u ∈ reserveUTXOs s) ∧
    (coins_ok inputs → 0 ≤ d_value d → d_value d + pegDust < two63 → 0 ≤ vmFee (e_b e) ≤ d_value d →
     ∃ dataOut, nullData (encodeRelease (d_outPoint d)) = Ok dataOut ∧ prevOuts want = prevOuts tx ∧
       txOut want = [mkTxOut (d_value d - vmFee (e_b e)) (pkScript (d_dest d));
                     mkTxOut (total_of inputs - d_value d) (signers_pkScript (signers (e_b e))); dataOut] ∧
       pegDust ≤ total_of inputs - d_value d).
Proof.
  intros E Hkind. apply handleSign_Ok in E as (key & tx & x & k & c1 & _ & Hp & _).
  pose proof Hp as [_ Ht (ca & cb & Ha & Hv & Hc) _]. apply registerAll_keeps in Ha. pose proof Hv as Hk2.
  apply checkView_keeps in Hk2. apply checkView_Ok in Hv as (s & [(file & Hl) Hdoge Hreq Htx _ _ Hst _]).
  rewrite <- Hreq in Hkind. apply checkAction_release in Hc as [-> Hc]; [|done].
  apply checkRelease_Ok in Hc as (op & d & inputs & [R1 R2 R3 R4 [R5 <-] R6 _ _ (a & rest & R7 & R8) [R9 R10] R11 R12 _]).
  rewrite Hst in *. rewrite Htx in *. rewrite Hreq in *. destruct R3 as (R3a & R3b & R3c), R4 as [R4a R4b].
  destruct Ha as [K1 _], Hk2 as [K2 _].
  assert (Hnone : ∀ kind, log_has (ls_log (c_log cb)) (keyOf kind (OutPoint_String (d_outPoint d))) = false →
      entries (keyOf kind (OutPoint_String (d_outPoint d))) (ls_log (c_log c)) = []).
  { intros kind. rewrite (kept_has _ _ _ K2), (kept_has _ _ _ K1). unfold log_has, has, entries.
    rewrite bool_decide_eq_false. intros Hn. destruct (Actions _ !! _); [by destruct Hn; eauto|done]. }
  exists tx, (k_want k), s, file, (x_doge x), d, a, inputs.
  split_and!; try done; try (by apply Hnone).
  { by eapply passed_want. } { by rewrite R8. }
  intros Hco H0 Hb Hf. destruct (buildRelease_shape _ _ _ _ Hco H0 Hb Hf R11 R12) as (dataOut & D1 & D2 & D3 & D4).
  exists dataOut. split_and!; [done|congruence|done..].
Qed.

Lemma findPegOut_Some l txid p : findPegOut l txid = Some p → p ∈ l ∧ p_txid p = txid.
Proof.
  unfold findPegOut. intros Hp. apply head_Some in Hp as [l' El].
  assert (Hin : p ∈ filter (fun p => p_txid p = txid) l) by (rewrite El; by left).
  by apply list_elem_of_filter in Hin as [? ?].
Qed.

(** The coins of a payment: the anchor and confirmed peg coins, or exactly those
    of an unconfirmed payment it replaces, for one fee more. *)
Definition paid_from (b : bridge) (s : pegState) (reqFee : Z) (data : bytes) (tx : MsgTx) (inputs : list utxo)
    (fee : Z) : Prop :=
  u_outPoint <$> inputs = prevOuts tx ∧
  ((reqFee ≤ 0 ∧ fee = dogeFee b ∧ (∃ a rest, pegAnchor s = Some a ∧ prevOuts tx = u_outPoint a :: rest) ∧
    ∀ u, u ∈ inputs → u ∈ lockedUTXOs s ∧ 0 < u_confirmations u) ∨
   (∃ r oldFee, unconfirmedFor s data = Some (r, oldFee) ∧ prevOuts tx = prevOuts (ct_tx r) ∧
    fee = oldFee [+] dogeFee b ∧ oldFee < fee ∧ ∀ u, u ∈ inputs → u ∈ coinsOf s (ct_tx r))).

(** What a payment pays: its destination at most the amount less the fee, the
    peg the rest, and the miner exactly the fee. *)
Definition pays_exactly (b : bridge) (inputs : list utxo) (value : Z) (dest : destination) (data : bytes) (fee : Z)
    (want : MsgTx) : Prop :=
  coins_ok inputs → 0 ≤ fee ≤ value →
  ∃ pays change dataOut, nullData data = Ok dataOut ∧ prevOuts want = u_outPoint <$> inputs ∧
    txOut want = [mkTxOut pays (pkScript dest); mkTxOut change (signers_pkScript (signers b)); dataOut] ∧
    pegDust ≤ pays ≤ value - fee ∧ pegDust ≤ change ∧ pays + change + fee = total_of inputs.

Lemma buildPayout_exactly b inputs value dest data fee want :
  buildPayout b inputs value dest data fee = Ok want → pays_exactly b inputs value dest data fee want.
Proof.
  intros E Hc Hf. apply buildPayout_shape in E as (pays & change & dataOut & -> & Hd & _ & H1 & H2 & H3 & H4); [|done..].
  exists pays, change, dataOut. split_and!; [done| |done|lia..].
  unfold prevOuts. simpl. by rewrite <- list_fmap_compose.
Qed.

(** What answering for a payment went through. *)
Lemma payment_answered e req c sigs c' :
  handleSign e req c = (Ok sigs, c') → Kind (req_Action req) = actionPayout ∨ Kind (req_Action req) = actionRefund →
  ∃ tx x k cb s file value dest data inputs fee,
    decodeProposal req = Ok tx ∧ encodeTx (k_want k) = encodeTx tx ∧ req_Chain req = chainDogecoin ∧
    load (setRegistryOf (e_b e) file) (e_vm e) (x_doge x) = Ok s ∧ dogeNodeOf e (x_doge x) ∧
    x_req x = req ∧ x_s x = addPendingFees s (x_unseen x) ∧ kept (ls_log (c_log c)) (ls_log (c_log cb)) ∧
    (Kind (req_Action req) = actionPayout ∧ checkPayoutAction x = Ok (value, dest, data) ∨
     Kind (req_Action req) = actionRefund ∧ checkRefundAction e x (ls_log (c_log cb)) = Ok (value, dest, data)) ∧
    paid_from (e_b e) s (req_Fee req) data tx inputs fee ∧ dogeFee (e_b e) < value ∧
    pays_exactly (e_b e) inputs value dest data fee (k_want k).
Proof.
  intros E Hkind. apply handleSign_Ok in E as (key & tx & x & k & c1 & _ & Hp & _).
  pose proof Hp as [_ Ht (ca & cb & Ha & Hv & Hc) _]. apply registerAll_keeps in Ha. pose proof Hv as Hk2.
  apply checkView_keeps in Hk2. apply checkView_Ok in Hv as (s & [(file & Hl) Hdoge Hreq Htx _ _ Hst _]).
  rewrite <- Hreq in Hkind. apply checkAction_payment in Hc as [-> Hc]; [|done].
  apply checkPayment_Ok in Hc as (value & dest & data & inputs & fee & [P1 P2 P3 P4 P5 P6 _ P8 _]).
  pose proof (passed_want _ _ _ _ _ _ _ Hp Htx) as Hw. destruct Ha as [K1 _], Hk2 as [K2 _].
  exists tx, x, k, cb, s, file, value, dest, data, inputs, fee. rewrite Hst, Htx, Hreq in *.
  split_and!; try done; [by etrans| |split; [done|]|by apply buildPayout_exactly].
  - destruct P2 as [P2|[N P2]]; [by left|right]. by destruct Hkind.
  - destruct P6 as [(F1 & F2 & F3)|(r & old & F1 & F2 & F3 & F4 & F5)]; [left|right].
    + split_and!; [done| |done..]. rewrite P5. by rewrite (proj2 (Z.ltb_ge _ _)).
    + exists r, old. split_and!; [done..| |done]. unfold checkBumpFee in F4.
      apply bind_Ok in F4 as ([] & F4 & _). apply ensure_Ok in F4. lia.
Qed.

(** C13. A signer signs a payout only of a peg-out it sees, not paid yet, and
    only a transaction that pays it exactly: the peg-out is final in its own view
    and unpaid there (or its payment is unconfirmed and this one replaces it, with
    the same inputs, for one fee more); the proposal spends the peg's anchor first
    and otherwise confirmed peg coins, pays the peg-out's destination at most its
    value less the fee, tags the payment with it, and returns the rest to the
    peg. *)
Theorem payout_answered e req c sigs c' :
  handleSign e req c = (Ok sigs, c') → Kind (req_Action req) = actionPayout →
  ∃ tx want s file doge p inputs fee,
    decodeProposal req = Ok tx ∧ encodeTx want = encodeTx tx ∧ req_Chain req = chainDogecoin ∧
    load (setRegistryOf (e_b e) file) (e_vm e) doge = Ok s ∧ dogeNodeOf e doge ∧
    p ∈ pegOuts s ∧ NewHashFromStr (PegOut (req_Action req)) = Ok (p_txid p) ∧
    (∀ payment, paid s !! p_txid p = Some payment → 0 < req_Fee req ∧ isUnconfirmed s payment = true) ∧
    paid_from (e_b e) s (req_Fee req) (encodePayment (p_txid p)) tx inputs fee ∧ dogeFee (e_b e) < p_value p ∧
    pays_exactly (e_b e) inputs (p_value p) (p_dest p) (encodePayment (p_txid p)) fee want.
Proof.
  intros E Hkind. apply payment_answered in E
    as (tx & x & k & cb & s & file & value & dest & data & inputs & fee & H1 & H2 & H3 & H4 & H5 & Hr & Hst & _ & Hc & H6 & H7 & H8);
    [|by left].
  destruct Hc as [[_ Hc]|[Hk _]]; [|by rewrite Hkind in Hk]. unfold checkPayoutAction in Hc. cbv zeta in Hc.
  rewrite Hr, Hst in Hc. apply bind_Ok in Hc as (txid & Hid & Hc). apply bind_Ok in Hc as ([] & Hpaid & Hc).
  apply bind_Ok in Hc as (p & Hp & [= <- <- <-]). apply from_option_err_Ok, findPegOut_Some in Hp as [Hp <-].
  exists tx, (k_want k), s, file, (x_doge x), p, inputs, fee. split_and!; try done.
  intros payment Hpm. cbn [addPendingFees paid] in Hpaid. rewrite Hpm in Hpaid.
  apply ensure_Ok, andb_true_iff in Hpaid as [Hf Hu]. split; [lia|exact Hu].
Qed.

(** The deposit a refund gives back. *)
Definition refund_due (e : signerEnv) (s : pegState) (reqFee : Z) (d : deposit) : Prop :=
  has (released s) (d_outPoint d) = false ∧
  (d ∈ held s ∧ refunded s !! d_outPoint d = None ∨
   d ∈ settled s ∧ 0 < reqFee ∧ ∃ txid, refunded s !! d_outPoint d = Some txid ∧ isUnconfirmed s txid = true) ∧
  (d_hasDest d = true → cancelled s !! d_outPoint d = Some true) ∧
  confirmationsFor (e_b e) (d_value d) ≤ d_confirmations d.

Lemma checkRefundAction_Ok e x l value dest data :
  checkRefundAction e x l = Ok (value, dest, data) →
  ∃ d, parseOutPoint (Deposit (req_Action (x_req x))) = Ok (d_outPoint d) ∧
    refund_due e (x_s x) (req_Fee (x_req x)) d ∧ parseDest (To (req_Action (x_req x))) = Ok dest ∧
    releasesDead l (x_ev x) (d_outPoint d) = true ∧ is_ok (refundApproved e (d_outPoint d) dest) = true ∧
    value = d_value d ∧ data = encodeRefund (d_outPoint d).
Proof.
  unfold checkRefundAction. cbv zeta. intros E. apply bind_Ok in E as (op & H1 & E).
  apply bind_Ok in E as (repl & H2 & E). apply bind_Ok in E as ([] & H3 & E).
  apply bind_Ok in E as (dst & H4 & E). apply bind_Ok in E as ([] & H5 & E).
  apply bind_Ok in E as (f & H6 & E). apply bind_Ok in E as (d & H7 & E).
  apply bind_Ok in E as ([] & H8 & E). apply bind_Ok in E as ([] & H9 & [= <- <- <-]).
  apply from_option_err_Ok, findDeposit_Some in H7 as [H7 <-]. apply ensure_Ok in H3, H5, H8.
  unfold refundable in H9. apply ensure_Ok in H9. exists d. rewrite H6. split_and!; try done. split; [|split; [|split; [|lia]]].
  - by apply negb_true_iff.
  - destruct (refunded (x_s x) !! d_outPoint d) as [txid|] eqn:Er.
    + apply bind_Ok in H2 as ([] & H2 & [= <-]). apply ensure_Ok, andb_true_iff in H2 as [H2a H2b].
      right. split; [done|]. split; [lia|]. eauto.
    + injection H2 as <-. by left.
  - intros Hd. rewrite Hd in H8. simpl in H8. rewrite negb_involutive in H8.
    destruct (cancelled (x_s x) !! d_outPoint d) as [[]|]; done.
Qed.

(** C14. A signer signs a refund only of a deposit that is due back, to the
    address its operator approved, and only a transaction that pays it exactly:
    in its own view the deposit is held and never credited, deep enough, not
    refunded (or its refund is unconfirmed and this one replaces it), and, if it
    names a destination, its cancellation is in a DogecoinVM block; the coins and
    the outputs are those of a payment. *)
Theorem refund_answered e req c sigs c' :
  handleSign e req c = (Ok sigs, c') → Kind (req_Action req) = actionRefund →
  ∃ tx want s file doge d dest inputs fee,
    decodeProposal req = Ok tx ∧ encodeTx want = encodeTx tx ∧ req_Chain req = chainDogecoin ∧
    load (setRegistryOf (e_b e) file) (e_vm e) doge = Ok s ∧ dogeNodeOf e doge ∧
    parseOutPoint (Deposit (req_Action req)) = Ok (d_outPoint d) ∧ refund_due e s (req_Fee req) d ∧
    parseDest (To (req_Action req)) = Ok dest ∧ is_ok (refundApproved e (d_outPoint d) dest) = true ∧
    paid_from (e_b e) s (req_Fee req) (encodeRefund (d_outPoint d)) tx inputs fee ∧ dogeFee (e_b e) < d_value d ∧
    pays_exactly (e_b e) inputs (d_value d) dest (encodeRefund (d_outPoint d)) fee want.
Proof.
  intros E Hkind. apply payment_answered in E
    as (tx & x & k & cb & s & file & value & dest & data & inputs & fee & H1 & H2 & H3 & H4 & H5 & Hr & Hst & _ & Hc & H6 & H7 & H8);
    [|by right].
  destruct Hc as [[Hk _]|[_ Hc]]; [by rewrite Hkind in Hk|].
  apply checkRefundAction_Ok in Hc as (d & D1 & D2 & D3 & _ & D5 & -> & ->). rewrite Hr in D1, D2, D3. rewrite Hst in D2.
  exists tx, (k_want k), s, file, (x_doge x), d, dest, inputs, fee. by split_and!.
Qed.
End answers.

(** ** Limits *)

Section limits.
Context {CR : Crypto} {RT : GoRuntime} {ROK : GoRuntimeOk}.

Definition dated (a : loggedAction) : Z * Z := (la_Value a, First a).

Lemma volume_dated l t :
  volume l t = sumZ ((fun kv => kv.2.1) <$> filter (fun kv => (t <=? kv.2.2) = true) (map_to_list (dated <$> Actions l))).
Proof.
  unfold volume. rewrite map_to_list_fmap. induction (map_to_list (Actions l)) as [|[k a] rest IH]; [done|].
  rewrite fmap_cons, !filter_cons. simpl. destruct (decide (_ = true)); [|exact IH].
  rewrite !fmap_cons, !sumZ_cons. by rewrite IH.
Qed.

Lemma kept_dated l l' : kept l l' → dated <$> Actions l' = dated <$> Actions l.
Proof.
  intros Hk. apply map_eq. intros k. rewrite !lookup_fmap. specialize (Hk k).
  inversion Hk as [a a' (Hv & Hf & _) E1 E2|E1 E2]; simpl; [|done]. unfold dated. by rewrite Hv, Hf.
Qed.

Lemma kept_volume l l' t : kept l l' → volume l' t = volume l t.
Proof. intros Hk. by rewrite !volume_dated, (kept_dated _ _ Hk). Qed.

Lemma unix_mono a b : a ≤ b → unix a ≤ unix b.
Proof. unfold unix. intros. apply Z.div_le_mono; [|done]. by vm_compute. Qed.

(** What an action moves, in a view: the deposit it credits or gives back, or
    the peg-out it pays; a cancellation and a fence move nothing. *)
Inductive moves_value (s : pegState) (a : action) : Z → Prop :=
| movesRelease d : Kind a = actionRelease → d ∈ deposits s → parseOutPoint (Deposit a) = Ok (d_outPoint d) →
    moves_value s a (d_value d)
| movesRefund d : Kind a = actionRefund → d ∈ held s ∨ d ∈ settled s → parseOutPoint (Deposit a) = Ok (d_outPoint d) →
    moves_value s a (d_value d)
| movesPayout p : Kind a = actionPayout → p ∈ pegOuts s → NewHashFromStr (PegOut a) = Ok (p_txid p) →
    moves_value s a (p_value p)
| movesNothing : Kind a = actionCancel ∨ Kind a = actionFence → moves_value s a 0.

Lemma checkFenceAction_value e x c k c' : checkFenceAction e x c = (Ok k, c') → k_value k = 0.
Proof.
  unfold checkFenceAction. intros E. apply st_bind_Ok in E as (c0 & c1 & _ & E). cbv zeta in E.
  apply st_bind_Ok in E as ([[want redeems] fee] & c2 & _ & E). apply st_bind_Ok in E as ([] & c3 & _ & E).
  apply st_bind_Ok in E as ([] & c4 & _ & [= <- _]). done.
Qed.

Lemma payment_value s e x l value dest data :
  x_s x = addPendingFees s (x_unseen x) →
  Kind (req_Action (x_req x)) = actionPayout ∧ checkPayoutAction x = Ok (value, dest, data) ∨
  Kind (req_Action (x_req x)) = actionRefund ∧ checkRefundAction e x l = Ok (value, dest, data) →
  moves_value s (req_Action (x_req x)) value.
Proof.
  intros Hst [[Hk Hc]|[Hk Hc]].
  - unfold checkPayoutAction in Hc. cbv zeta in Hc. rewrite Hst in Hc. apply bind_Ok in Hc as (txid & Hid & Hc).
    apply bind_Ok in Hc as ([] & _ & Hc). apply bind_Ok in Hc as (p & Hp & [= <- _ _]).
    apply from_option_err_Ok, findPegOut_Some in Hp as [Hp <-]. by apply (movesPayout s _ p).
  - apply checkRefundAction_Ok in Hc as (d & D1 & (_ & D2 & _) & _ & _ & _ & -> & _). rewrite Hst in D2.
    apply (movesRefund s _ d); [done| |done]. destruct D2 as [[? _]|[? _]]; auto.
Qed.

Lemma passed_value e req c tx x k c1 :
  passed e req c tx x k c1 → ∃ s, seen e s ∧ moves_value s (req_Action req) (k_value k).
Proof.
  intros Hp. pose proof (passed_setup _ _ _ _ _ _ _ Hp) as (cb & s & _ & _ & [(file & Hl) Hd Hr _ _ _ Hst _] & Ha).
  exists s. split; [by exists file, (x_doge x)|]. rewrite <- Hr. clear Hp. 
  destruct (decide (Kind (req_Action (x_req x)) = actionRelease)) as [E1|N1].
  { apply checkAction_release in Ha as [_ Ha]; [|done]. apply checkRelease_Ok in Ha as (op & d & ins & [_ R2 _ _ [R5 <-] _ _ _ _ _ _ _ ->]).
    rewrite Hst in R5. by apply (movesRelease s _ d). }
  destruct (decide (Kind (req_Action (x_req x)) = actionCancel)) as [E2|N2].
  { apply checkAction_cancel in Ha as [-> _]; [|done]. apply movesNothing. by left. }
  destruct (decide (Kind (req_Action (x_req x)) = actionFence)) as [E3|N3].
  { revert Ha. unfold checkAction, mbind, st_bind. simpl. rewrite E3. simpl. intros ->%checkFenceAction_value.
    apply movesNothing. by right. }
  assert (Kind (req_Action (x_req x)) = actionPayout ∨ Kind (req_Action (x_req x)) = actionRefund) as Hk.
  { revert Ha. unfold checkAction, mbind, st_bind. simpl. rewrite !bool_decide_eq_false_2 by done.
    destruct (bool_decide (_ = actionPayout)) eqn:E4; [apply bool_decide_eq_true in E4; auto|].
    destruct (bool_decide (_ = actionRefund)) eqn:E5; [apply bool_decide_eq_true in E5; auto|]. done. }
  apply checkAction_payment in Ha as [_ Ha]; [|done]. apply checkPayment_Ok in Ha as (v & dest & dat & ins & fee & [_ P2 _ _ _ _ _ _ ->]).
  eapply payment_value; [exact Hst|]. destruct P2 as [P2|[N P2]]; [by left|right]. destruct Hk; [done|]. by split.
Qed.

(** The room checkLog found under the limit. *)
Lemma passed_limit e req c tx x k c1 key :
  passed e req c tx x k c1 → action_key (req_Action req) = Ok key → 0 < e_maxDaily e →
  log_has (ls_log (c_log c1)) key = false →
  volumeSince (ls_log (c_log c1)) (unix (e_now e - 24 * hour)) [+] k_value k ≤ e_maxDaily e.
Proof.
  intros [_ _ (ca & cb & _ & Hv & _) Hl] Hk Hmax El. apply checkView_Ok in Hv as (s & Hv).
  unfold checkLog in Hl. cbv zeta in Hl. rewrite (viewed_req _ _ _ _ _ Hv) in Hl.
  apply bind_Ok in Hl as ([] & _ & Hl). apply bind_Ok in Hl as (key' & Hk' & Hl).
  rewrite Hk in Hk'. injection Hk' as <-. apply bind_Ok in Hl as ([] & _ & Hl). apply bind_Ok in Hl as ([] & _ & Hl).
  apply ensure_Ok in Hl. rewrite El, (proj2 (Z.ltb_lt _ _)) in Hl by done. simpl in Hl. lia.
Qed.

(** C27. The daily limit holds. With a limit set, an answered request is either
    for an action already in the log, whose recorded value and date it leaves and
    to whose day's volume it adds nothing; or for a new one, which the log then
    holds with the value the action moves in the signer's view (the deposit
    credited or given back, the peg-out paid, nothing for a cancellation or a
    fence) and the time of the request, so that the volume of the 24 hours before
    it grows by exactly that value, and is within the limit, as long as it is an
    int64. *)
Theorem daily_limit e req c sigs c' :
  handleSign e req c = (Ok sigs, c') → 0 < e_maxDaily e →
  let day := unix (e_now e - 24 * hour) in
  let old := ls_log (c_log c) in let new := ls_log (c_log c') in
  ∃ key a', action_key (req_Action req) = Ok key ∧ Actions new !! key = Some a' ∧
  ((∃ a, Actions old !! key = Some a ∧ la_Value a' = la_Value a ∧ First a' = First a ∧ volume new day = volume old day) ∨
   (Actions old !! key = None ∧ (∃ s, seen e s ∧ moves_value s (req_Action req) (la_Value a')) ∧ First a' = unix (e_now e) ∧
    volume new day = volume old day + la_Value a' ∧ (0 ≤ volume new day < two63 → volume new day ≤ e_maxDaily e))).
Proof.
  intros E Hmax day old new. apply handleSign_Ok in E as (key & tx & x & k & c1 & Hk & Hp & Hm & _). fold new in Hm.
  destruct (passed_keeps _ _ _ _ _ _ _ Hp) as [Hkept _]. fold old in Hkept. pose proof (kept_volume _ _ day Hkept) as Ev.
  pose proof (volume_recorded (ls_log (c_log c1)) key (req_Chain req) tx (k_value k) (recordedFee e req c1) (unix (e_now e)) day) as Er.
  rewrite <- Hm, Ev in Er.
  destruct (Actions_recorded (ls_log (c_log c1)) key (req_Chain req) tx (k_value k) (recordedFee e req c1) (unix (e_now e))) as (l' & El & Ea).
  rewrite <- Hm in Ea. pose proof (Hkept key) as Hke. unfold log_has, has in Er.
  destruct (Actions (ls_log (c_log c1)) !! key) as [a1|] eqn:E1; simpl in Ea; rewrite El in Ea.
  - inversion Hke as [a0 ? (V & F & _) E0|]; subst. rewrite bool_decide_eq_true_2 in Er by eauto.
    exists key. eexists. split; [done|]. split; [rewrite Ea; apply lookup_insert_eq|]. left. exists a0. split_and!; [done..|]. lia.
  - inversion Hke as [|E0]. rewrite bool_decide_eq_false_2 in Er by (intros [? ?]; congruence).
    assert ((day <=? unix (e_now e)) = true) as Hday by (apply Z.leb_le, unix_mono; unfold hour, second; lia). rewrite Hday in Er.
    exists key. eexists. split; [done|]. split; [rewrite Ea; apply lookup_insert_eq|]. right. cbn [la_Value First].
    split_and!; [done|by eapply passed_value|done|lia|]. intros Hr.
    assert (log_has (ls_log (c_log c1)) key = false) as Eh by (unfold log_has, has; rewrite E1; apply bool_decide_eq_false_2; by intros [? ?]).
    pose proof (passed_limit _ _ _ _ _ _ _ _ Hp Hk Hmax Eh) as Hl. fold day in Hl.
    rewrite volumeSince_volume, wrap64_add_l, Ev, wrap64_small in Hl by i64. lia.
Qed.

(** ** New deposit addresses *)

(** The times within the hour before now. *)
Definition recent (now : Z) (times : list Z) : list Z := filter (fun t => now - t < hour) times.

(** register admits a destination: it is new, and there is room this hour. *)
Definition admits (e : signerEnv) (d : destination) (c : cosigner) : bool :=
  match (registry_has d (c_registry c)).1 with
  | Ok false => Z.of_nat (length (recent (e_now e) (c_registered c))) <? registrationLimit e
  | _ => false
  end.

Lemma register_times e d c r c' :
  register e d c = (r, c') →
  if admits e d c then c_registered c' = recent (e_now e) (c_registered c) ++ [e_now e]
  else c_registered c' = c_registered c ∨ c_registered c' = recent (e_now e) (c_registered c).
Proof.
  assert (Hr : ∀ A (m : St registryState A) c0 r0 c1, on_registry m c0 = (r0, c1) → c_registered c1 = c_registered c0).
  { intros A m c0 r0 c1. unfold on_registry. destruct (m (c_registry c0)). by intros [= _ <-]. }
  unfold register, admits. unfold mbind at 1, st_bind at 1. destruct (on_registry (registry_has d) c) as [rk ck] eqn:Ek.
  pose proof (Hr _ _ _ _ _ Ek) as Ec. unfold on_registry in Ek.
  destruct (registry_has d (c_registry c)) as [rk' rs] eqn:Eh. injection Ek as <- _. simpl.
  destruct rk' as [[]|err]; [|unfold mbind, st_bind, setRegistered, st_ensure; simpl|by intros [= _ <-]; left].
  - unfold mbind, st_bind. simpl. intros E. left. by rewrite (Hr _ _ _ _ _ E).
  - rewrite Ec. fold (recent (e_now e) (c_registered c)).
    destruct (Z.leb_spec (registrationLimit e) (Z.of_nat (length (recent (e_now e) (c_registered c))))) as [Hle|Hle]; simpl.
    + rewrite (proj2 (Z.ltb_ge _ _)) by lia. intros [= _ <-]. by right.
    + rewrite (proj2 (Z.ltb_lt _ _)) by lia. intros E. by rewrite (Hr _ _ _ _ _ E).
Qed.

(** The service since it started: register called at times that do not go back,
    anything else between the calls leaving its times alone; when each new
    address was admitted, the latest first, and the time of the last call. *)
Inductive registering (limit : Z) : list Z → Z → cosigner → Prop :=
| reg_start c clock : c_registered c = [] → registering limit [] clock c
| reg_call h clock c e d r c' :
    registering limit h clock c → registrationLimit e = limit → clock ≤ e_now e →
    register e d c = (r, c') →
    registering limit ((if admits e d c then [e_now e] else []) ++ h) (e_now e) c'
| reg_other h clock c c' :
    registering limit h clock c → c_registered c' = c_registered c → registering limit h clock c'.

Lemma recent_recent a b l : a ≤ b → recent b (recent a l) = recent b l.
Proof.
  intros Hab. unfold recent. rewrite list_filter_filter. apply list_filter_iff. intros t. split; [tauto|]. lia.
Qed.

(** From the last call on, the signer remembers what it admitted lately. *)
Lemma registering_recent limit h clock c :
  registering limit h clock c →
  Forall (fun t => t ≤ clock) h ∧ ∀ b, clock ≤ b → length (recent b (c_registered c)) = length (recent b h).
Proof.
  induction 1 as [c clock Hc|h clock c e d r c' _ [IH1 IH2] Hl Hcl E|h clock c c' _ IH Hc]; [by rewrite Hc|..].
  2:{ by rewrite Hc. }
  assert (Hle : Forall (fun t => t ≤ e_now e) h) by (eapply Forall_impl; [exact IH1|simpl; lia]).
  apply register_times in E. destruct (admits e d c); simpl.
  - split; [by constructor|]. intros b Hb. rewrite E. unfold recent at 1. rewrite filter_app. fold (recent b (recent (e_now e) (c_registered c))).
    rewrite recent_recent, length_app, IH2 by lia. unfold recent. rewrite (filter_cons _ (e_now e) h), filter_cons, filter_nil.
    destruct (decide _); simpl; lia.
  - split; [done|]. intros b Hb. destruct E as [->| ->]; rewrite ?recent_recent by done; apply IH2; lia.
Qed.

Lemma length_filter_mono {A} (P Q : A → Prop) `{∀ x, Decision (P x)} `{∀ x, Decision (Q x)} (l : list A) :
  (∀ x, P x → Q x) → (length (filter P l) ≤ length (filter Q l))%nat.
Proof.
  intros Hpq. induction l as [|x l IH]; [done|]. rewrite !filter_cons.
  destruct (decide (P x)), (decide (Q x)); simpl; try lia. by destruct n; apply Hpq.
Qed.

(** A signer watches at most its limit of new addresses in any hour: since
    it started, and with a clock that does not go back, no hour (ending at any
    time) has more than registrationLimit admissions. *)
Theorem registration_limit limit h clock c now :
  registering limit h clock c →
  Z.of_nat (length (filter (fun t => now - hour < t ∧ t ≤ now) h)) ≤ Z.max 0 limit.
Proof.
  intros Hr. induction Hr as [c clock Hc|h clock c e d r c' Hr IH Hl Hcl E|]; [simpl; lia| |done].
  destruct (registering_recent _ _ _ _ Hr) as [H1 H2]. destruct (admits e d c) eqn:Ea; [|done].
  simpl app. rewrite filter_cons. destruct (decide _) as [[Hw1 Hw2]|]; [|done]. simpl.
  assert (Hlen : (length (filter (fun t => (now - hour < t ∧ t ≤ now)%Z) h) ≤ length (recent (e_now e) h))%nat).
  { apply length_filter_mono. lia. }
  unfold admits in Ea. destruct (registry_has d (c_registry c)).1 as [[]|]; [done| |done].
  rewrite H2, Hl in Ea by lia. lia.
Qed.
End limits.

(** ** A signer that answers for a release, a payout and a refund *)

Module Samples.
#[local] Existing Instance toyCrypto.
#[local] Existing Instance toyCrypto_ok.
#[local] Existing Instance goRuntime.
#[local] Existing Instance goRuntime_ok.
Import Load.Samples Run.Samples.

Definition bob : destination := mkDest destP2PKH (replicate 20 6).
Definition pegOutTx : MsgTx :=
  mkMsgTx 1 [NewTxIn (mkOutPoint (TxHash releaseTx) 0) [] []]
    [mkTxOut (10 * koinuPerDoge) reserve; mkTxOut 0 (OP_RETURN :: 25 :: encodeDestination tagPegOut bob)] 0.
Definition openNode (txs : list chainTx) (coins : list utxo) : chain := {|
  txsFor := fun _ => Ok txs; unspent := fun _ _ => Ok coins;
  confirmer := None; utxoSetter := Some (fun _ => Ok true); conflictLister := None;
|}.
Definition vmNode2 : chain :=
  openNode [mkChainTx coinbase 9 0; mkChainTx releaseTx 3 0; mkChainTx pegOutTx 2 0]
    [mkUtxo (mkOutPoint (TxHash releaseTx) 1) (980 * koinuPerDoge) reserve 3;
     mkUtxo (mkOutPoint (TxHash pegOutTx) 0) (10 * koinuPerDoge) reserve 2].
Definition straightTx : MsgTx :=
  mkMsgTx 1 [NewTxIn (mkOutPoint (replicate 32 4) 0) [] []] [mkTxOut (7 * koinuPerDoge) reserve] 0.
Definition straight : OutPoint := mkOutPoint (TxHash straightTx) 0.
Definition dogeNode2 : chain :=
  openNode [mkChainTx (depositTx 1) 99 0; mkChainTx straightTx 80 0]
    [mkUtxo (dep 1) (20 * koinuPerDoge) reserve 99; mkUtxo straight (7 * koinuPerDoge) reserve 80].
Definition env2 : signerEnv := {|
  e_b := sampleBridge; e_pub := []; e_vm := vmNode2; e_doge := dogeNode2; e_importTxs := None;
  e_now := 0; e_paused := false; e_maxDaily := 30 * koinuPerDoge; e_maxRegistrations := 0;
  e_approvals := Some (Ok (OutPoint_String straight +:+ " alice")%string);
  e_decodeAddress := fun _ => Ok (address alice); e_rawSig := fun _ _ _ => Ok [1; 1];
  e_verifies := fun _ _ _ _ => false;
|}.
Definition provenLog2 : signingLog :=
  mkLog ∅ {[chainDogecoinVM := OutPoint_String (mkOutPoint (TxHash releaseTx) 1);
            chainDogecoin := OutPoint_String (dep 1)]} historyFenced ∅ 0 0 0 [].
Definition signer2 : cosigner :=
  mkCosigner (mkLogState provenLog2 provenLog2 []) (mkRegistry (Ok []) [] [] []) [] 0 ∅ None true.
Definition coin1 : utxo := mkUtxo (dep 1) (20 * koinuPerDoge) reserve 99.
Definition payout2 : MsgTx :=
  orNone (buildPayout sampleBridge [coin1] (10 * koinuPerDoge) bob (encodePayment (TxHash pegOutTx)) koinuPerDoge).
Definition payoutReq : signRequest :=
  mkRequest chainDogecoin (mkAction actionPayout EmptyString (Hash_String (TxHash pegOutTx)) EmptyString)
    (encodeTx payout2) [] 0.
Definition refund2 : MsgTx :=
  orNone (buildPayout sampleBridge [coin1] (7 * koinuPerDoge) alice (encodeRefund straight) koinuPerDoge).
Definition refundReq : signRequest :=
  mkRequest chainDogecoin (mkAction actionRefund (OutPoint_String straight) EmptyString (encodeDest alice))
    (encodeTx refund2) [] 0.
(** A request a signer answered. *)
Lemma answered_as e req c sigs :
  (handleSign e req c).1 = Ok sigs → ∃ c', handleSign e req c = (Ok sigs, c').
Proof. destruct (handleSign e req c) as [r c']. simpl. intros ->. eauto. Qed.

Lemma signed1_Ok : ∃ c', handleSign env1 releaseReq signer0 = (Ok [[1; 1]], c').
Proof. apply answered_as. vm_compute. reflexivity. Qed.
Lemma paid2_Ok : ∃ c', handleSign env2 payoutReq signer2 = (Ok [[1; 1]], c').
Proof. apply answered_as. vm_compute. reflexivity. Qed.
Lemma refunded2_Ok : ∃ c', handleSign env2 refundReq signer2 = (Ok [[1; 1]], c').
Proof. apply answered_as. vm_compute. reflexivity. Qed.

Lemma signature_after_write_witness :
  ∃ c', ls_disk (c_log c') = ls_log (c_log c') ∧
  ∃ tx, decodeProposal releaseReq = Ok tx ∧ length (txIn tx) = 1%nat.
Proof.
  destruct signed1_Ok as [c' E]. exists c'.
  destruct (signature_after_write _ _ _ _ _ E) as (key & tx & t & old & _ & Ht & Hd & _ & _ & _ & _ & _ & _ & Hl).
  split; [exact Hd|]. exists tx. split; [exact Ht|]. symmetry. exact Hl.
Defined.

(** The signer of the samples, after it answered for the release. *)
Lemma signs_only_when_trusted_witness :
  let c' := (handleSign env1 releaseReq signer0).2 in
  unproven (ls_log (c_log c')) = false ∧
  ∃ s file doge, load (setRegistryOf sampleBridge file) vmNode1 doge = Ok s ∧
    solvent (audit (addPendingFees s (feesPromised env1 s doge provenLog (keyOf actionRelease (OutPoint_String (dep 2)))))) = true ∧
    ∀ t, t ∈ vmTxs s ++ dogeTxs s → signedBy env1 (ct_tx t) = true →
      Hash_String (unsignedHash (ct_tx t)) ∈ txids provenLog.
Proof.
  destruct signed1_Ok as [c' E]. destruct (signs_only_when_trusted _ _ _ _ _ E) as (_ & _ & Hu & key & s & file & doge & Hk & Hl & Hd & Hs & Hm).
  rewrite E. cbn [snd]. split; [apply Hu; discriminate|].
  assert (Hkey : Ok key = Ok (keyOf actionRelease (OutPoint_String (dep 2)))) by (rewrite <- Hk; vm_compute; reflexivity).
  injection Hkey as ->. exists s, file, doge. split; [exact Hl|]. split; [exact Hs|].
  assert (Hall : ∀ s', seen env1 s' → vmTxs s' ++ dogeTxs s' ⊆ [mkChainTx coinbase 9 0; mkChainTx (depositTx 2) 70 0]).
  { intros s' (file' & doge' & Hl' & [->|(f & m & Ei & _)]); [|discriminate Ei].
    destruct (load_reads _ _ _ _ Hl') as (H1 & w & _ & H2). injection H1 as <-. injection H2 as <-. done. }
  apply (Hm _ Hall).
  - intros t t' Ht Ht' Eh. rewrite elem_of_cons, list_elem_of_singleton in Ht, Ht'.
    destruct Ht as [->| ->], Ht' as [->| ->]; [reflexivity| | |reflexivity]; vm_compute in Eh; discriminate Eh.
  - intros t b _ Hb. discriminate Hb.
Defined.

Lemma release_answered_witness :
  ∃ s file doge d, load (setRegistryOf sampleBridge file) vmNode1 doge = Ok s ∧ d ∈ deposits s ∧
    Ok (dep 2) = Ok (d_outPoint d) ∧ has (released s) (d_outPoint d) = false.
Proof.
  destruct signed1_Ok as [c' E]. destruct (release_answered _ _ _ _ _ E eq_refl)
    as (tx & want & s & file & doge & d & a & ins & _ & _ & _ & Hl & _ & Hin & Hop & _ & Hr & _).
  exists s, file, doge, d. split; [exact Hl|]. split; [exact Hin|]. split; [|exact Hr]. rewrite <- Hop.
  vm_compute. reflexivity.
Defined.

Lemma payout_answered_witness :
  ∃ s file doge p, load (setRegistryOf sampleBridge file) vmNode2 doge = Ok s ∧ p ∈ pegOuts s ∧
    Ok (TxHash pegOutTx) = Ok (p_txid p) ∧ koinuPerDoge < p_value p.
Proof.
  destruct paid2_Ok as [c' E]. destruct (payout_answered _ _ _ _ _ E eq_refl)
    as (tx & want & s & file & doge & p & ins & fee & _ & _ & _ & Hl & _ & Hin & Hop & _ & _ & Hf & _).
  exists s, file, doge, p. split; [exact Hl|]. split; [exact Hin|]. split; [|exact Hf]. rewrite <- Hop.
  vm_compute. reflexivity.
Defined.

Lemma refund_answered_witness :
  ∃ s file doge d, load (setRegistryOf sampleBridge file) vmNode2 doge = Ok s ∧
    Ok straight = Ok (d_outPoint d) ∧ refund_due env2 s 0 d.
Proof.
  destruct refunded2_Ok as [c' E]. destruct (refund_answered _ _ _ _ _ E eq_refl)
    as (tx & want & s & file & doge & d & dest & ins & fee & _ & _ & _ & Hl & _ & Hop & Hd & _).
  exists s, file, doge, d. split; [exact Hl|]. split; [|exact Hd]. rewrite <- Hop. vm_compute. reflexivity.
Defined.

Lemma paid2_volume : volume (ls_log (c_log (handleSign env2 payoutReq signer2).2)) (unix (0 - 24 * hour)) = 1000000000.
Proof. vm_compute. reflexivity. Qed.

(** A payout of 10 DOGE, the first of its day, against a limit of 30. *)
Lemma daily_limit_witness :
  let l := ls_log (c_log (handleSign env2 payoutReq signer2).2) in
  ∃ a, Actions l !! keyOf actionPayout (Hash_String (TxHash pegOutTx)) = Some a ∧ la_Value a = 10 * koinuPerDoge ∧
    volume l (unix (e_now env2 - 24 * hour)) ≤ 30 * koinuPerDoge.
Proof.
  destruct paid2_Ok as [c' E]. pose proof paid2_volume as Hv. rewrite E in Hv |- *. cbn [snd] in *.
  destruct (daily_limit _ _ _ _ _ E eq_refl) as (key & a & Hk & Ha & Hcase).
  assert (Hkey : Ok key = Ok (keyOf actionPayout (Hash_String (TxHash pegOutTx)))) by (rewrite <- Hk; vm_compute; reflexivity).
  injection Hkey as ->. exists a. split; [exact Ha|].
  destruct Hcase as [(a0 & H0 & _)|(_ & _ & _ & Hs & Hlim)]; [discriminate H0|]. change (e_now env2) with 0 in *. rewrite Hv in *.
  split; [|apply Hlim; unfold two63; lia].
  change (volume (ls_log (c_log signer2)) (unix (0 - 24 * hour))) with 0 in Hs. rewrite Z.add_0_l in Hs. rewrite <- Hs. reflexivity.
Defined.

(** One address admitted. *)
Lemma registration_limit_witness : Z.of_nat (length (filter (fun t => 0 - hour < t ∧ t ≤ 0) [0])) ≤ Z.max 0 600.
Proof.
  assert (E : (if admits env2 bob signer2 then [e_now env2] else []) ++ [] = [0]) by (vm_compute; reflexivity).
  destruct (register env2 bob signer2) as [r c'] eqn:Er.
  apply (registration_limit 600 [0] 0 c' 0). rewrite <- E.
  eapply (reg_call 600 [] 0 signer2 env2 bob r); [apply reg_start; reflexivity|reflexivity|reflexivity|exact Er].
Defined.
End Samples.
