(* ===== verification/Proven.v ===== *)
(** How a log is proven again (src/cmd/dogevm/cutover.go, cosign.go): a cutover
    over the requests, failed writes and restarts that see it through. *)

From Stdlib Require Import Ascii String.
From S2P Require Import Prelude Text Wire Runtime Script Tags Amount Peg Lineage State Build Load SigningLog Registry.
From S2P Require Import Cutover Fence Cosigner Signing Run Answers.

Section proven.
Context {CR : Crypto} {COK : CryptoOk} {RT : GoRuntime} {ROK : GoRuntimeOk}.

(** ** Coins no signature can spend any more *)

(** A chain's history as the view shows it, what conflicts with its blocks, and
    the depth at which a block stays. *)
Definition historyOn (s : pegState) (chain : string) : list chainTx :=
  if bool_decide (chain = chainDogecoinVM) then vmTxs s else dogeTxs s.
Definition conflictedOn (s : pegState) (chain : string) : list chainTx :=
  if bool_decide (chain = chainDogecoinVM) then [] else default [] (dogeConflicted s).
Definition finalAt (s : pegState) (chain : string) : Z :=
  if bool_decide (chain = chainDogecoinVM) then 1 else Z.max (l_rootDepth (pegLine s)) 1.

(** A transaction that deep spends op, or conflicts with the one that made it. *)
Definition deadIn (s : pegState) (chain : string) (op : OutPoint) : Prop :=
  (∃ t, t ∈ historyOn s chain ∧ op ∈ prevOuts (ct_tx t) ∧ finalAt s chain ≤ ct_confirmations t) ∨
  (∃ t, t ∈ conflictedOn s chain ∧ TxHash (ct_tx t) = Hash op ∧ finalAt s chain ≤ - ct_confirmations t).

(** An output to the set's scripts, of a transaction the view shows (on
    DogecoinVM, in a block). *)
Definition setCoin (s : pegState) (chain : string) (op : OutPoint) : Prop :=
  ∃ t k out, t ∈ historyOn s chain ++ conflictedOn s chain ∧ (chain = chainDogecoinVM → 0 < ct_confirmations t) ∧
    txOut (ct_tx t) !! k = Some out ∧ op = mkOutPoint (TxHash (ct_tx t)) (uint32 (Z.of_nat k)) ∧
    if bool_decide (chain = chainDogecoinVM) then PkScript out = l_script (reserveLine s) else is_Some (redeemFor s !! PkScript out).

Lemma spentAtOf_spec txs op n : spentAtOf txs !! op = Some n →
  ∃ t, t ∈ txs ∧ op ∈ prevOuts (ct_tx t) ∧ 0 < n ∧ n = ct_confirmations t.
Proof.
  unfold spentAtOf. revert op n.
  apply (foldl_inv (fun m : gmap OutPoint Z => ∀ op n, m !! op = Some n →
    ∃ t, t ∈ txs ∧ op ∈ prevOuts (ct_tx t) ∧ 0 < n ∧ n = ct_confirmations t)); [done|].
  intros m t Ht Hm. destruct (Z.leb_spec (ct_confirmations t) 0); [done|].
  apply (foldl_inv (fun m : gmap OutPoint Z => ∀ op n, m !! op = Some n →
    ∃ t, t ∈ txs ∧ op ∈ prevOuts (ct_tx t) ∧ 0 < n ∧ n = ct_confirmations t)); [done|].
  intros m' ti Hti Hm' op n [[<- <-]|[_ Hn]]%lookup_insert_Some; [|by apply Hm'].
  assert (PreviousOutPoint ti ∈ prevOuts (ct_tx t)) as Hp by by apply list_elem_of_fmap_2.
  destruct (m' !! PreviousOutPoint ti) as [p|] eqn:Ep; simpl; [|exists t; split_and!; [done..|lia|lia]].
  destruct (Z.max_spec p (ct_confirmations t)) as [[_ ->]|[_ ->]]; [by exists t|by apply Hm'].
Qed.

Lemma conflictDepthOf_spec txs h n : conflictDepthOf txs !! h = Some n → 0 < n →
  ∃ t, t ∈ txs ∧ TxHash (ct_tx t) = h ∧ n = - ct_confirmations t.
Proof.
  unfold conflictDepthOf. revert h n.
  apply (foldl_inv (fun m : gmap bytes Z => ∀ h n, m !! h = Some n → 0 < n →
    ∃ t, t ∈ txs ∧ TxHash (ct_tx t) = h ∧ n = - ct_confirmations t)); [done|].
  intros m t Ht Hm h n [[<- <-]|[_ Hn]]%lookup_insert_Some Hpos; [|by apply Hm].
  destruct (m !! TxHash (ct_tx t)) as [p|] eqn:Ep; simpl in *.
  - destruct (Z.max_spec p (- ct_confirmations t)) as [[_ E]|[_ E]]; rewrite E in *; [by exists t|by apply Hm].
  - exists t. split_and!; [done..|lia].
Qed.

Lemma cleared_dead s chain op : cleared (view s chain) op = true → deadIn s chain op.
Proof.
  assert (1 ≤ finalAt s chain) as Hf by (unfold finalAt; case_bool_decide; lia).
  unfold cleared, spentAt, conflictDepth. change (cv_depth (view s chain)) with (finalAt s chain).
  change (cv_spentAt (view s chain)) with (spentAtOf (historyOn s chain)).
  change (cv_conflictDepth (view s chain)) with (conflictDepthOf (conflictedOn s chain)).
  rewrite orb_true_iff. intros [H|H]; apply Z.leb_le in H.
  - destruct (spentAtOf _ !! op) as [n|] eqn:E; simpl in H; [|lia]. apply spentAtOf_spec in E as (t & Ht & Hop & _ & ->).
    left. by exists t.
  - destruct (conflictDepthOf _ !! _) as [n|] eqn:E; simpl in H; [|lia].
    apply conflictDepthOf_spec in E as (t & Ht & Hh & ->); [|lia]. right. by exists t.
Qed.

Lemma coinOuts_complete v hash i outs k out :
  outs !! k = Some out → cv_isCoin v out = true →
  let op := mkOutPoint hash (uint32 (i + Z.of_nat k)) in cleared v op = true ∨ op ∈ coinOuts v hash i outs.
Proof.
  revert i k. induction outs as [|o outs IH]; intros i k Hk Hc; [done|]. destruct k as [|k]; cbn [lookup list_lookup] in Hk.
  - injection Hk as ->. cbn [coinOuts]. rewrite Z.add_0_r, Hc, elem_of_app. destruct (cleared v _); [by left|right]. left. by left.
  - cbn [coinOuts]. rewrite elem_of_app. destruct (IH (i + 1) k Hk Hc) as [H|H];
      replace (i + 1 + Z.of_nat k) with (i + Z.of_nat (S k)) in H by lia; auto.
Qed.

Lemma setCoin_known s chain op : setCoin s chain op → cleared (view s chain) op = true ∨ op ∈ chainCoins s chain.
Proof.
  intros (t & k & out & Ht & Hc & Hk & -> & Hp).
  assert (cv_isCoin (view s chain) out = true) as Hcoin.
  { cbn [cv_isCoin view]. revert Hp. case_bool_decide; [intros Hp; by apply bool_decide_eq_true_2|]. by intros Hp%has_true. }
  destruct (coinOuts_complete (view s chain) (TxHash (ct_tx t)) 0 (txOut (ct_tx t)) k out Hk Hcoin) as [?|Hin]; [by left|right].
  unfold chainCoins. apply elem_of_list_to_set, list_elem_of_bind. exists t. split; [|exact Ht].
  destruct (_ && _) eqn:E; [|exact Hin]. apply andb_true_iff in E as [E1%bool_decide_eq_true E2%Z.leb_le]. specialize (Hc E1). lia.
Qed.

(** ** What else a signer does to its log *)

Lemma loggedOn_spec l name raw :
  loggedOn l name raw ↔ ∃ k a t, Actions l !! k = Some a ∧ t ∈ Txs a ∧ raw ∈ Inputs t ∧ lt_Chain t = name.
Proof.
  unfold loggedOn, loggedInputs. setoid_rewrite list_elem_of_bind. split.
  - intros (t & ([k a] & Hin & Hka) & Hn). rewrite map_range_perm, elem_of_map_to_list in Hka.
    apply list_elem_of_bind in Hin as (t' & Ht & Ht'). apply list_elem_of_fmap in Ht as (raw' & [= <- <-] & Hraw). eauto 8.
  - intros (k & a & t & Hk & Ht & Hraw & Hn). exists t. split; [|done]. exists (k, a). split.
    + apply list_elem_of_bind. exists t. split; [by apply list_elem_of_fmap_2|done].
    + by rewrite map_range_perm, elem_of_map_to_list.
Qed.

Lemma loggedOn_kept l l' name raw : kept l l' → loggedOn l name raw → loggedOn l' name raw.
Proof.
  rewrite !loggedOn_spec. intros Hk (k & a & t & Ha & Ht & Hraw & Hn). specialize (Hk k). rewrite Ha in Hk.
  inversion Hk as [? a' (_ & _ & Hf) E1 E2|]; subst. apply list_elem_of_lookup in Ht as [i Hi].
  destruct (Forall2_lookup_l _ _ _ _ _ Hf Hi) as (t' & Hi' & (_ & S2 & S3 & _)). exists k, a', t'.
  split_and!; [done|by eapply list_elem_of_lookup_2|by rewrite <- S2|congruence].
Qed.

Lemma loggedOn_recorded l key chain tx value fee now name raw :
  loggedOn l name raw → loggedOn (recorded l key chain tx value fee now) name raw.
Proof.
  rewrite !loggedOn_spec. intros (k & a & t & Ha & Ht & Hx).
  destruct (Actions_recorded l key chain tx value fee now) as (l' & El & ->). simpl. rewrite El.
  destruct (decide (k = key)) as [->|Hne].
  - eexists key, _, t. rewrite lookup_insert_eq, Ha. split; [reflexivity|]. split; [|done]. simpl. set_solver.
  - exists k, a, t. by rewrite lookup_insert_ne.
Qed.

(** Opening the log again keeps it. *)
Lemma reopen_keeps st l : reopen st = Ok l →
  History l = History (ls_disk st) ∧ Cutover l = Cutover (ls_disk st) ∧
  ∀ name raw, loggedOn (ls_disk st) name raw → loggedOn l name raw.
Proof.
  unfold reopen, openSigningLog, restoreWaived.
  assert (map_range (∅ : gmap string (list string)) = []) as ->.
  { apply Permutation_nil_r. by rewrite map_range_perm, map_to_list_empty. }
  simpl. intros (H1 & _ & _ & ->)%normalizeKeys_keeps. split_and!; [done..|]. intros name raw. rewrite !loggedOn_spec.
  intros (k & a & t & Ha & Ht & Hx). destruct (H1 k a) as (k' & a' & _ & Ha' & (_ & _ & Hsub)); [by rewrite lookup_fmap, Ha|].
  exists k', a', t. split_and!; [done|by apply Hsub|by destruct Hx..].
Qed.

(** ** Every step of a request *)

Definition steps_on (e : signerEnv) (c c' : cosigner) : Prop :=
  ∀ l0 es, progressedBoth seen l0 (es ++ [e]) (c_log c) → progressedBoth seen l0 (es ++ [e]) (c_log c').

#[export] Instance steps_on_preorder e : PreOrder (steps_on e).
Proof. split; [by intros c l0 es H|]. intros c1 c2 c3 H1 H2 l0 es H. by apply H2, H1. Qed.

Lemma same_log_steps e c c' : c_log c' = c_log c → steps_on e c c'.
Proof. intros E l0 es. by rewrite E. Qed.

(** A method of the log that leaves the cutover alone and forgets no input. *)
Lemma other_steps {A} e (m : St logState A) :
  (∀ st r st', m st = (r, st') → same_history st st' ∧ (∀ name raw, loggedOn (ls_log st) name raw → loggedOn (ls_log st') name raw) ∧
     (ls_disk st' = ls_disk st ∨ ls_disk st' = ls_log st')) →
  preserves (steps_on e) (on_log m).
Proof.
  intros Hm c r c'. unfold on_log. destruct (m (c_log c)) as [r1 st'] eqn:Em. intros [= _ <-] l0 es [Hl Hd].
  destruct (Hm _ _ _ Em) as ([Eh Ec] & Hlog & Hdisk).
  assert (progressed seen l0 (es ++ [e]) (ls_log st')) as Hl' by by eapply progressed_other.
  split; [done|]. cbn [c_log]. by destruct Hdisk as [->| ->].
Qed.

Lemma log_write_disk st r st' : log_write st = (r, st') → ls_log st' = ls_log st ∧ (ls_disk st' = ls_disk st ∨ ls_disk st' = ls_log st').
Proof.
  unfold log_write. destruct (nextWrite (ls_writes st)) as [o ws]. intros [= _ <-]. split; [done|]. simpl.
  destruct (reaches_disk o); auto.
Qed.

Lemma learnSigned_steps e ev : preserves (steps_on e) (on_log (learnSigned ev)).
Proof.
  apply other_steps. intros st r st' E. pose proof (learnSigned_log _ _ _ _ E) as El.
  split; [by apply learnSigned_history in E|]. split.
  - intros name raw. rewrite El. apply loggedOn_kept, learnLog_kept.
  - revert E. unfold learnSigned, mbind, st_bind. simpl. destruct (existsb _ _); [|intros [= _ <-]; by left].
    intros [_ Hd]%log_write_disk. done.
Qed.

Lemma cutoverBudgetRoom_steps e set s key fee : preserves (steps_on e) (on_log (cutoverBudgetRoom set s key fee)).
Proof.
  apply other_steps. intros st r st' E. split; [by apply cutoverBudgetRoom_history in E|].
  assert (acts (Actions (ls_log st)) st st') as Ha by (by apply (cutoverBudgetRoom_acts (Actions (ls_log st))) in E). destruct (Ha eq_refl) as [Ea _]. split.
  - intros name raw. apply loggedOn_kept. by apply kept_actions.
  - revert E. unfold cutoverBudgetRoom, mbind, st_bind. simpl. destruct (_ =? 0); [intros [= _ <-]; by left|].
    destruct (addFenceCapital _ _ _) as [l' []]; simpl; [|intros [= _ <-]; by left].
    destruct (log_write _) as [r1 st1] eqn:Ew. apply log_write_disk in Ew as [_ Hd].
    destruct r1; intros [= _ <-]; exact Hd.
Qed.

Lemma record_steps e key chain tx value fee now : preserves (steps_on e) (on_log (record key chain tx value fee now)).
Proof.
  apply other_steps. intros st r st'. rewrite record_run. cbv zeta. destruct (nextWrite (ls_writes st)) as [o ws]. intros [= _ <-].
  unfold same_history. cbn [ls_log ls_disk]. split; [|split; [by apply loggedOn_recorded|destruct (reaches_disk o); auto]].
  unfold recorded. destruct (txIn tx); [done|]. by destruct (bool_decide (chain = EmptyString)).
Qed.

Lemma cutover_steps e : kept_by_steps e (steps_on e).
Proof.
  split.
  - intros A m c r c'. unfold on_registry. destruct (m (c_registry c)). intros [= _ <-]. by apply same_log_steps.
  - intros ts c r c' [= _ <-]. by apply same_log_steps.
  - intros fee c r c' [= _ <-]. by apply same_log_steps.
  - intros s _ c r c'. unfold fence, unlogged, quarantine, mbind, st_bind. simpl.
    destruct (negb _); [intros [= _ <-]; by apply same_log_steps|]. destruct (foldl _ _ _) as [mine missing]. simpl.
    destruct (negb _); simpl; [|intros [= _ <-]; by apply same_log_steps].
    destruct (c_markerOk c); intros [= _ <-]; by apply same_log_steps.
  - intros s Hs c r c'. unfold on_log. destruct (advanceCutover _ _ _ _ (c_log c)) as [r1 st'] eqn:Ea. intros [= _ <-] l0 es HP.
    pose proof (advanceCutover_progressed seen l0 es e (signers (e_b e)) (e_pub e) (e_now e) s (c_log c) Hs HP) as Hrun.
    unfold run in Hrun. by rewrite Ea in Hrun.
  - apply learnSigned_steps.
  - apply cutoverBudgetRoom_steps.
  - intros a key chain tx value fee now _. apply record_steps.
Qed.

(** ** Requests, failed writes and restarts *)

(** A signer that opened log l0, the coins of an old waiver put back, and
    handled the requests of es in that order. *)
Inductive cutover_run (l0 : signingLog) : list signerEnv → cosigner → Prop :=
| cut_open c : ls_log (c_log c) = l0 → ls_disk (c_log c) = l0 → cutover_run l0 [] c
| cut_sign es c e req r c' : cutover_run l0 es c → handleSign e req c = (r, c') → cutover_run l0 (es ++ [e]) c'
| cut_register es c e d r c' : cutover_run l0 es c → handleRegister e d c = (r, c') → cutover_run l0 (es ++ [e]) c'
| cut_status es c e r c' : cutover_run l0 es c → handleStatus e c = (r, c') → cutover_run l0 (es ++ [e]) c'
| cut_restart es c l writes :
    cutover_run l0 es c → reopen (c_log c) = Ok l →
    cutover_run l0 es (mkCosigner (mkLogState l (ls_disk (c_log c)) writes) (c_registry c) [] 0 ∅ (c_marker c) (c_markerOk c)).

Lemma progressed_request l0 es e c c' :
  progressedBoth seen l0 es (c_log c) → steps_on e c c' → progressedBoth seen l0 (es ++ [e]) (c_log c').
Proof. intros [Hl Hd] Hs. apply Hs. split; by apply progressed_more. Qed.

Lemma cutover_run_progressed l0 es c : cutover_run l0 es c → progressedBoth seen l0 es (c_log c).
Proof.
  induction 1 as [c E1 E2|es c e req r c' _ IH E|es c e d r c' _ IH E|es c e r c' _ IH E|es c l ws _ IH E].
  - unfold progressedBoth. rewrite E1, E2. split; apply progressed_open.
  - eapply progressed_request; [exact IH|]. exact (handleSign_kept e _ (cutover_steps e) _ _ _ _ E).
  - eapply progressed_request; [exact IH|]. exact (handleRegister_kept e _ (cutover_steps e) _ _ _ _ E).
  - eapply progressed_request; [exact IH|]. exact (handleStatus_kept e _ (cutover_steps e) _ _ _ E).
  - destruct IH as [_ Hd]. split; [|done]. destruct (reopen_keeps _ _ E) as (Eh & Ec & Hlog).
    cbn [c_log ls_log]. by eapply progressed_other.
Qed.

(** A coin a view of one of the requests shows dead. *)
Definition deadBy (es : list signerEnv) (chain : string) (op : OutPoint) : Prop :=
  ∃ e s, e ∈ es ∧ seen e s ∧ deadIn s chain op.

Lemma clearedBy_dead es chain raw : clearedBy seen es chain raw → ∃ op, parseOutPoint raw = Ok op ∧ deadBy es chain op.
Proof. intros (e & s & op & He & Hs & Hp & Hc%cleared_dead). exists op. split; [done|]. by exists e, s. Qed.

Lemma clearedBy_op es chain op : outpoint_ok op → clearedBy seen es chain (OutPoint_String op) → deadBy es chain op.
Proof. intros Hop (op' & Hp & Hd)%clearedBy_dead. rewrite parseOutPoint_OutPoint_String in Hp by done. by injection Hp as <-. Qed.

(** C23. A log that cannot show every signature its key gave becomes a proven
    one, and signs anything but fences again, only when no signature given before
    can spend. Let a signer open a log, handle any requests, fail writes and
    restart; if its log is proven then, every coin that was recorded in the log it
    opened, whatever its history (one of an old waiver, in a log already fenced,
    included), was dead in a view of one of those requests: spent by a transaction
    as deep as makes a block final on its chain, or made by one that conflicts
    with a block that deep. And if that log had neither a history nor a cutover,
    one of the requests started it, and every output to the set's scripts that
    its view showed (on DogecoinVM, in a block) and every input of every
    transaction in the log was dead in a view of it or of a later one, each chain
    on whichever request that was. *)
Theorem proven_all_cleared l0 es c :
  cutover_run l0 es c → unproven (ls_log (c_log c)) = false →
  (∀ chain raw, recordedIn l0 chain raw → ∃ op, parseOutPoint raw = Ok op ∧ deadBy es chain op) ∧
  (unstarted l0 → ∃ before e after s, es = before ++ e :: after ∧ seen e s ∧
     (∀ chain op, chain ∈ cutoverChains → setCoin s chain op → deadBy (e :: after) chain op) ∧
     ∀ t raw, loggedOn l0 (lt_Chain t) raw → ∃ op, parseOutPoint raw = Ok op ∧ inputChain s t op ∈ cutoverChains ∧
       deadBy (e :: after) (inputChain s t op) op).
Proof.
  intros [Hl _]%cutover_run_progressed Hu. destruct (progressed_proven seen l0 es _ Hu Hl) as [H1 H2].
  split; [intros chain raw Hr; by apply clearedBy_dead, H1|]. intros Hun.
  destruct (H2 Hun) as (before & e & after & s & -> & He & H3 & H4). exists before, e, after, s. split_and!; [done..| |].
  - intros chain op Hch Hcoin. destruct (setCoin_known _ _ _ Hcoin) as [Hc|Hin].
    + exists e, s. split_and!; [by left|done|by apply cleared_dead].
    + apply clearedBy_op; [by apply (chainCoins_ok s chain)|by apply H3].
  - intros t raw Ht. destruct (H4 t raw Ht) as (op & Hp & Hch & Hc). exists op. split_and!; [done..|].
    apply clearedBy_op; [by eapply parseOutPoint_ok|done].
Qed.
End proven.

(** ** A fenced log with a waived coin put back, and one request *)

Module Samples.
#[local] Existing Instance toyCrypto.
#[local] Existing Instance toyCrypto_ok.
#[local] Existing Instance goRuntime.
#[local] Existing Instance goRuntime_ok.
Import Load.Samples Run.Samples Answers.Samples.

Definition spentCoin : OutPoint := default nullOut (head (prevOuts (depositTx 1))).
Definition waivedLog : signingLog :=
  mkLog ∅ (Anchors provenLog2) historyFenced {[chainDogecoin := [OutPoint_String spentCoin]]} 1 0 0 [].
Definition waiting : cosigner :=
  mkCosigner (mkLogState waivedLog waivedLog []) (mkRegistry (Ok []) [] [] []) [] 0 ∅ None true.

Lemma waiting_unproven : unproven (ls_log (c_log waiting)) = true ∧ unproven (ls_log (c_log (handleStatus env2 waiting).2)) = false.
Proof. vm_compute. done. Qed.

Lemma proven_all_cleared_witness :
  unproven waivedLog = true ∧ unproven (ls_log (c_log (handleStatus env2 waiting).2)) = false ∧
  ∃ op, parseOutPoint (OutPoint_String spentCoin) = Ok op ∧ deadBy [env2] chainDogecoin op.
Proof.
  destruct waiting_unproven as [H1 H2]. split; [exact H1|]. split; [exact H2|].
  destruct (handleStatus env2 waiting) as [r c'] eqn:E. cbn [snd] in H2.
  assert (Hr : cutover_run waivedLog ([] ++ [env2]) c').
  { exact (cut_status waivedLog [] waiting env2 r c' (cut_open waivedLog waiting eq_refl eq_refl) E). }
  apply (proj1 (proven_all_cleared waivedLog [env2] c' Hr H2)). left.
Defined.
End Samples.
