(* ===== verification/Agreement.v ===== *)
(** Coordinator and signers (src/cmd/dogevm: bridge.go release and pay,
    cosign.go check): on the same view of the chains, what the coordinator
    proposes for a deposit or a peg-out is what a signer would build for it. *)

From Stdlib Require Import Ascii String.
From S2P Require Import Prelude Text Wire Runtime Decode Script Tags Amount Peg Lineage State Tiers Build Load SigningLog Registry Cutover Cosigner Coordinator Signing Run Answers.

(** ** Coins named by their outpoints *)

(** The same coin, as two listings show it: its confirmations may differ. *)
Definition same_coin (u v : utxo) : Prop :=
  u_outPoint u = u_outPoint v ∧ u_value u = u_value v ∧ u_pkScript u = u_pkScript v.

#[global] Instance same_coin_refl : Reflexive same_coin.
Proof. by intros u. Qed.

Lemma same_outPoints l l' : Forall2 same_coin l l' → u_outPoint <$> l = u_outPoint <$> l'.
Proof. intros Hs. induction Hs as [|u v l l' (E&_) _ IH]; [done|]. cbn. by rewrite E, IH. Qed.

Lemma same_sum l l' t : Forall2 same_coin l l' →
  foldl (fun t u => t [+] u_value u) t l = foldl (fun t u => t [+] u_value u) t l'.
Proof. intros Hs. revert t. induction Hs as [|u v l l' (_&E&_) _ IH]; intros t; [done|]. cbn. by rewrite E. Qed.

Lemma same_addInputs mk tx l l' :
  (∀ u v, u_outPoint u = u_outPoint v → mk u = mk v) → Forall2 same_coin l l' → addInputs mk tx l = addInputs mk tx l'.
Proof.
  intros Hmk Hs. rewrite !addInputs_fields. f_equal. f_equal.
  induction Hs as [|u v l l' (E&_) _ IH]; [done|]. cbn. by rewrite IH, (Hmk u v E).
Qed.

Lemma same_unneeded l l' total need : Forall2 same_coin l l' → unneeded l total need = unneeded l' total need.
Proof.
  intros Hs. unfold unneeded. assert (Forall2 same_coin (drop 1 l) (drop 1 l')) as Hd by by apply Forall2_drop.
  induction Hd as [|u v k k' (_&E&_) _ IH]; [done|]. cbn. by rewrite E, IH.
Qed.

Lemma spend_same u v : u_outPoint u = u_outPoint v → spend u = spend v.
Proof. unfold spend. by intros ->. Qed.

Lemma spendReplaceable_same u v : u_outPoint u = u_outPoint v → spendReplaceable u = spendReplaceable v.
Proof. unfold spendReplaceable. by intros ->. Qed.

(** A transaction depends on the coins' outpoints and values only. *)
Lemma same_release `{CR : Crypto} b l l' total d : Forall2 same_coin l l' → buildRelease b l total d = buildRelease b l' total d.
Proof. intros Hs. unfold buildRelease. by rewrite (same_addInputs spend _ l l' spend_same Hs). Qed.

Lemma same_payout `{CR : Crypto} b l l' value dest data fee :
  Forall2 same_coin l l' → buildPayout b l value dest data fee = buildPayout b l' value dest data fee.
Proof.
  intros Hs. unfold buildPayout. rewrite !payoutLoop_fields, (same_addInputs spendReplaceable _ l l' spendReplaceable_same Hs), (same_sum l l' _ Hs).
  by rewrite (same_unneeded l l' _ _ Hs).
Qed.

Lemma same_redeems (m : gmap bytes bytes) l l' :
  Forall2 same_coin l l' → mapM (fun u => m !! u_pkScript u) l = mapM (fun u => m !! u_pkScript u) l'.
Proof. intros Hs. induction Hs as [|u v l l' (_&_&E) _ IH]; [done|]. cbn. by rewrite E, IH. Qed.

(** ** Picking them *)

Definition byOutPoint (available : list utxo) : gmap OutPoint utxo :=
  foldl (fun (m : gmap OutPoint utxo) u => <[u_outPoint u := u]> m) ∅ available.

Lemma byOutPoint_lookup available u :
  NoDup (u_outPoint <$> available) → u ∈ available → byOutPoint available !! u_outPoint u = Some u.
Proof.
  unfold byOutPoint. induction available as [|v l IH] using rev_ind; [by intros _ ?%elem_of_nil|].
  rewrite fmap_app, foldl_snoc. intros (Hn&Hd&_)%NoDup_app [Hu|Hu%list_elem_of_singleton]%elem_of_app.
  - rewrite lookup_insert_ne; [by apply IH|]. intros E. apply (Hd (u_outPoint u)); [by apply list_elem_of_fmap_2|].
    cbn. rewrite E. by left.
  - subst. by rewrite lookup_insert_eq.
Qed.

(** Coins of a listing: each is in it, up to its confirmations. *)
Definition listed_in (available l : list utxo) : Prop := Forall (fun u => ∃ v, v ∈ available ∧ same_coin v u) l.

Lemma pick_listed available l tx :
  NoDup (u_outPoint <$> available) → listed_in available l → prevOuts tx = u_outPoint <$> l →
  ∃ l', pick tx available = Ok (l', sum_values l) ∧ Forall2 same_coin l' l.
Proof.
  intros Hn Hl Hp. unfold pick. fold (byOutPoint available). rewrite Hp. clear Hp.
  assert (∃ l', mapM (fun op => byOutPoint available !! op) (u_outPoint <$> l) = Some l' ∧ Forall2 same_coin l' l) as (l'&E&Hs).
  { induction Hl as [|u l (v&Hv&Hs) _ (l'&E&IH)]; [by exists []|]. exists (v :: l'). split; [|by constructor].
    cbn. destruct Hs as (Eo&_&_). rewrite <- Eo, (byOutPoint_lookup available v Hn Hv). cbn. by rewrite E. }
  exists l'. rewrite E. cbn. split; [|done]. by rewrite (same_sum l' l 0 Hs : sum_values l' = sum_values l).
Qed.

(** An anchored selection stays in its listing. *)
Lemma anchored_listed a available inputs need :
  anchored a available inputs need → (∃ v, v ∈ available ∧ same_coin v a) → listed_in available inputs.
Proof.
  intros (more&->&Hsub&_) Ha. constructor; [done|]. apply Forall_forall. intros u Hu. exists u. split; [|done].
  by eapply elem_of_submseteq.
Qed.

(** ** A view both have *)

Section agreement.
Context `{CR : Crypto} `{RO : GoRuntimeOk}.

(** What honest nodes show: each coin and deposit once, amounts in range, and
    the anchors as the coins they are. *)
Record view_ok (s : pegState) : Prop := {
  vo_reserve : NoDup (u_outPoint <$> reserveUTXOs s);
  vo_peg : NoDup (u_outPoint <$> confirmedCoins s);
  vo_reserveAnchor a : reserveAnchor s = Some a → coins_ok (a :: reserveUTXOs s) ∧
    ∀ u, u ∈ reserveUTXOs s → u_outPoint u = u_outPoint a → same_coin u a;
  vo_pegAnchor a : pegAnchor s = Some a → coins_ok (a :: confirmedCoins s) ∧
    ∀ u, u ∈ confirmedCoins s → u_outPoint u = u_outPoint a → same_coin u a;
  vo_deposits : NoDup (d_outPoint <$> deposits s);
  vo_deposit d : d ∈ deposits s → outpoint_ok (d_outPoint d) ∧ 0 ≤ d_value d ∧ d_value d + pegDust < two63;
  vo_pegOuts : NoDup (p_txid <$> pegOuts s);
  vo_pegOut p : p ∈ pegOuts s → hash_ok (p_txid p) ∧ p_value p < two63;
  vo_refunded op h : refunded s !! op = Some h → h ≠ zeroHash;
}.

Lemma containsOutPoint_true l op : containsOutPoint l op = true → ∃ u, u ∈ l ∧ u_outPoint u = op.
Proof. unfold containsOutPoint. rewrite existsb_exists. intros (u&Hu%list_elem_of_In&E%bool_decide_eq_true). eauto. Qed.

(** The coins chosen for a release or a payment: in the listing, and enough. *)
Lemma releaseInputs_listed s v inputs total :
  view_ok s → 0 ≤ v → v + pegDust < two63 → releaseInputs s v = Ok (inputs, total) →
  listed_in (reserveUTXOs s) inputs ∧ total = sum_values inputs ∧ v [+] pegDust ≤ total.
Proof.
  intros Hs H0 Hv. unfold releaseInputs. destruct (reserveAnchor s) as [a|] eqn:Ea; [|done].
  destruct (vo_reserveAnchor s Hs a Ea) as [Hc Hsame]. destruct (containsOutPoint _ _) eqn:Hin; [|done].
  apply containsOutPoint_true in Hin as (u&Hu&Eu). rewrite pegDust_val in *. rewrite wrap64_small by i64.
  pose proof (anchoredSelection_spec a (reserveUTXOs s) (v + 1000000) Hc Hv) as Hsel. intros E. rewrite E in Hsel.
  destruct Hsel as (Han&->&Hci). rewrite sum_values_exact by done. split_and!; [|done|].
  - eapply anchored_listed; [exact Han|]. exists u. auto.
  - by destruct Han as (more&_&_&_&Hn&_).
Qed.

Lemma payoutInputs_listed s v inputs :
  view_ok s → v < two63 → payoutInputs s (confirmedCoins s) v = Ok inputs →
  listed_in (confirmedCoins s) inputs ∧ v ≤ sum_values inputs.
Proof.
  intros Hs Hv. unfold payoutInputs. destruct (pegAnchor s) as [a|] eqn:Ea; [|done].
  destruct (vo_pegAnchor s Hs a Ea) as [Hc Hsame]. destruct (containsOutPoint _ _) eqn:Hin; [|done]. cbn [negb].
  apply containsOutPoint_true in Hin as (u&Hu&Eu).
  pose proof (anchoredSelection_spec a (confirmedCoins s) v Hc Hv) as Hsel. intros ([l t]&E&[= <-])%bind_Ok. rewrite E in Hsel.
  destruct Hsel as (Han&_&Hci). rewrite sum_values_exact by done. split.
  - eapply anchored_listed; [exact Han|]. exists u. auto.
  - by destruct Han as (more&_&_&_&Hn&_).
Qed.

Lemma findDeposit_found l d : NoDup (d_outPoint <$> l) → d ∈ l → findDeposit l (d_outPoint d) = Some d.
Proof.
  unfold findDeposit. induction l as [|d' l IH]; [by intros _ ?%elem_of_nil|]. rewrite fmap_cons, NoDup_cons, elem_of_cons.
  intros [Hn Hl] [->|Hd]; [by rewrite filter_cons_True|]. rewrite filter_cons_False; [by apply IH|].
  intros E. apply Hn. rewrite E. by apply list_elem_of_fmap_2.
Qed.

Lemma findPegOut_found l p : NoDup (p_txid <$> l) → p ∈ l → findPegOut l (p_txid p) = Some p.
Proof.
  unfold findPegOut. induction l as [|p' l IH]; [by intros _ ?%elem_of_nil|]. rewrite fmap_cons, NoDup_cons, elem_of_cons.
  intros [Hn Hl] [->|Hp]; [by rewrite filter_cons_True|]. rewrite filter_cons_False; [by apply IH|].
  intros E. apply Hn. rewrite E. by apply list_elem_of_fmap_2.
Qed.

Lemma spendsAnchor_head tx a l : prevOuts tx = u_outPoint <$> a :: l → spendsAnchor tx (Some a) = Ok tt.
Proof.
  unfold prevOuts, spendsAnchor. destruct (txIn tx) as [|ti ins]; [done|]. cbn. intros [= E _]. by rewrite bool_decide_eq_true_2.
Qed.

(** A deposit load shows creditable was neither refunded nor cancelled. *)
Lemma creditable_open b vm doge s d :
  load b vm doge = Ok s → (∀ op h, refunded s !! op = Some h → h ≠ zeroHash) → d ∈ deposits s →
  refunded s !! d_outPoint d = None ∧ cancelled s !! d_outPoint d = None.
Proof.
  intros (w&li&Hf)%load_inv Hz Hd. rewrite (lf_deposits _ _ _ _ Hf) in Hd.
  rewrite (lf_refunded _ _ _ _ Hf) in *. rewrite (lf_cancelled _ _ _ _ Hf). revert Hd. unfold classifyAll.
  set (v := loadVM b (vmTxs s)) in *. set (g := loadDoge b w li (dogeTxs s)) in *.
  apply (foldl_inv (fun c => d ∈ c_deposits c → g_refunded g !! d_outPoint d = None ∧ v_cancelled v !! d_outPoint d = None));
    [by intros ?%elem_of_nil|]. intros c d' _ IH. unfold classify. destruct (settledBy _ _) eqn:Es; [done|].
  destruct (d_valid d' && _) eqn:Ev; [|by destruct (settledBy (v_released v) _)]. cbn.
  intros [Hd|Hd%list_elem_of_singleton]%elem_of_app; [by apply IH|]. subst d'. apply andb_true_iff in Ev as [_ Ev%negb_true_iff%has_false].
  split; [|done]. destruct (g_refunded g !! d_outPoint d) as [h|] eqn:Eh; [|done]. exfalso. apply (Hz _ _ Eh).
  unfold settledBy in Es. rewrite Eh in Es. by apply negb_false_iff, bool_decide_eq_true in Es.
Qed.

(** ** The two agree *)

(** A signer that decides on the same view, from the proposal it was sent. *)
Record asked (q : coordEnv) (e : signerEnv) (s : pegState) (p : proposal) (x : checkCtx) : Prop := {
  ask_bridge : e_b e = q_b q;
  ask_view : x_s x = addPendingFees s (x_unseen x);
  ask_req : x_req x = requestOf p;
  ask_tx : x_tx x = pr_tx p;
}.

(** What it would sign is the proposal. *)
Definition agrees (p : proposal) (value : Z) (r : result checked) : Prop :=
  ∃ k, r = Ok k ∧ k_want k = pr_tx p ∧ k_redeems k = pr_redeems p ∧ k_value k = value.

(** It signed nothing that rules the credit out, and has room for it. *)
Definition undecided (e : signerEnv) (l : signingLog) (s : pegState) (d : deposit) : Prop :=
  log_has l (keyOf actionCancel (OutPoint_String (d_outPoint d))) = false ∧
  log_has l (keyOf actionRefund (OutPoint_String (d_outPoint d))) = false ∧
  shallowRoom (e_b e) s d (promisedShallow (e_b e) l s (d_outPoint d)) = Ok tt ∧
  is_ok (unspent (e_vm e) [signers_address (signers (e_b e))] 0) = true.

(** Going through a check that holds. *)
Lemma pass {A} c e (f : unit → result A) r : c = true → f tt = r → (ensure c e ≫= f) = r.
Proof. by intros -> <-. Qed.

Lemma through {A B} (m : result A) a (f : A → result B) r : m = Ok a → f a = r → (m ≫= f) = r.
Proof. by intros -> <-. Qed.

Lemma release_agrees q e s x l d p :
  load (q_b q) (q_vm q) (q_doge q) = Ok s → view_ok s → asked q e s p x →
  d ∈ deposits s → toCredit q s d = true → creditBy q s d p → undecided e l s d →
  agrees p (d_value d) (checkRelease e x l).
Proof.
  intros Hload Hs [Eb Es Er Et] Hd Hc (inputs&total&tx&Ei&Etx&->) (Hu1&Hu2&Hu3&Hu4).
  destruct (creditable_open _ _ _ _ _ Hload (vo_refunded s Hs) Hd) as [Hrf Hcn].
  destruct (vo_deposit s Hs d Hd) as (Ho&H0&Hv). destruct (releaseInputs_listed _ _ _ _ Hs H0 Hv Ei) as (Hl&->&Hge).
  destruct (releaseInputs_head _ _ _ _ Ei) as (a&more&Ea&E1). pose proof (buildRelease_prevOuts _ _ _ _ _ Etx) as Hp.
  destruct (pick_listed _ _ tx (vo_reserve s Hs) Hl Hp) as (l'&Epick&Hsame).
  unfold toCredit in Hc. apply andb_true_iff in Hc as [[Hrel Hcap]%andb_true_iff _].
  apply negb_true_iff, orb_false_iff in Hrel as [Hrel Hconf].
  destruct (unspent _ _ _) as [all|] eqn:Eun; [|done].
  exists (mkChecked tx (replicate (length l') (redeemScript (signers (q_b q)))) (d_value d) (outPoints all)). split.
  - unfold checkRelease. rewrite Es, Er, Et, Eb. rewrite Eb in Hu3, Eun. cbn [requestOf req_Chain req_Action releaseProposal pr_Chain pr_Action pr_tx Deposit].
    apply pass; [by rewrite bool_decide_eq_true_2|]. eapply through; [by apply parseOutPoint_OutPoint_String|].
    apply pass; [apply negb_true_iff; exact Hrel|]. apply pass; [apply negb_true_iff, has_false; exact Hrf|].
    apply pass; [apply negb_true_iff, orb_false_iff; split; [apply has_false; exact Hcn|exact Hu1]|]. apply pass; [by rewrite Hu2|].
    eapply through; [change (deposits (addPendingFees s _)) with (deposits s); by rewrite (findDeposit_found _ d (vo_deposits s Hs) Hd)|].
    apply pass; [by rewrite Hconf|]. apply pass; [exact Hcap|]. eapply through; [exact Hu3|].
    eapply through; [cbn; rewrite Ea; eapply spendsAnchor_head; by rewrite Hp, E1|]. eapply through; [exact Epick|].
    apply pass; [by rewrite (proj2 (Z.ltb_ge _ _) Hge)|].
    eapply through; [rewrite (same_release _ l' inputs); [exact Etx|done]|]. by eapply through.
  - cbn. split_and!; [done| |done]. rewrite (Forall2_length _ _ _ Hsame).
    apply (f_equal length) in Hp. unfold prevOuts in Hp. rewrite !length_fmap in Hp. by rewrite Hp.
Qed.


Lemma payout_agrees q e s x l o p :
  view_ok s → asked q e s p x → o ∈ pegOuts s → paid s !! p_txid o = None →
  paymentBy q s (p_value o) (p_dest o) (encodePayment (p_txid o)) (payoutAction o) p →
  agrees p (p_value o) (checkPayment e x l).
Proof.
  intros Hs [Eb Es Er Et] Ho Hpaid (inputs&tx&redeems&Hfee&Ei&Etx&Ered&->).
  destruct (vo_pegOut s Hs o Ho) as [Hh Hv]. destruct (payoutInputs_listed _ _ _ Hs Hv Ei) as (Hl&Hge).
  destruct (payoutInputs_head _ _ _ _ Ei) as (a&more&Ea&E1). pose proof (buildPayout_prevOuts _ _ _ _ _ _ _ Etx) as Hp.
  destruct (pick_listed _ _ tx (vo_peg s Hs) Hl Hp) as (l'&Epick&Hsame).
  exists (mkChecked tx redeems (p_value o) (outPoints (lockedUTXOs s))). split; [|done].
  unfold checkPayment. rewrite Es, Er, Et, Eb. cbn [requestOf req_Chain req_Action req_Fee payoutAction pr_Chain pr_Action pr_Fee pr_tx Kind].
  apply pass; [by rewrite bool_decide_eq_true_2|]. rewrite bool_decide_eq_true_2 by done.
  eapply (through _ (p_value o, p_dest o, encodePayment (p_txid o))).
  { unfold checkPayoutAction. rewrite Es, Er. eapply through; [by apply NewHashFromStr_String|].
    apply pass; [change (paid (addPendingFees s _)) with (paid s); by rewrite Hpaid|].
    eapply through; [change (pegOuts (addPendingFees s _)) with (pegOuts s); by rewrite (findPegOut_found _ o (vo_pegOuts s Hs) Ho)|]. done. }
  apply pass; [by apply negb_true_iff, Z.leb_gt|]. change (0 <? 0) with false. cbv iota.
  eapply (through _ (l', sum_values inputs, outPoints (lockedUTXOs s), dogeFee (q_b q))).
  { eapply through; [cbn; rewrite Ea; eapply spendsAnchor_head; by rewrite Hp, E1|]. by eapply through; [exact Epick|]. }
  apply pass; [by rewrite (proj2 (Z.ltb_ge _ _) Hge)|].
  eapply through; [rewrite (same_payout _ l' inputs); [exact Etx|done]|].
  apply from_option_err_Ok in Ered. eapply through; [|done]. change (redeemFor (addPendingFees s _)) with (redeemFor s).
  by rewrite (same_redeems _ l' inputs Hsame), Ered.
Qed.

(** C10. An honest signer does not refuse an honest coordinator: when both see
    the same chains, the release the coordinator proposes for a deposit it
    credits passes a signer's checks of the release, unless that signer signed a
    refund or a cancellation of the deposit or has no room left for shallow
    deposits; the payout it proposes for a peg-out that is not paid passes the
    signer's checks of a payment; and what the signer would sign is the proposed
    transaction, with the redeem scripts the coordinator takes for its inputs. *)
Theorem signer_agrees q e s p x l :
  load (q_b q) (q_vm q) (q_doge q) = Ok s → view_ok s → asked q e s p x →
  (∀ d, d ∈ deposits s → toCredit q s d = true → creditBy q s d p → undecided e l s d →
     agrees p (d_value d) (checkRelease e x l)) ∧
  (∀ o, o ∈ pegOuts s → paid s !! p_txid o = None →
     paymentBy q s (p_value o) (p_dest o) (encodePayment (p_txid o)) (payoutAction o) p →
     agrees p (p_value o) (checkPayment e x l)).
Proof. intros Hl Hs Ha. split; eauto using release_agrees, payout_agrees. Qed.

End agreement.

Module Samples.
#[local] Existing Instance toyCrypto.
#[local] Existing Instance toyCrypto_ok.
#[local] Existing Instance goRuntime.
#[local] Existing Instance goRuntime_ok.
Import Load.Samples Run.Samples.

(** A coordinator holding every key, over the chains the signer's samples see. *)
Definition coord1 : coordEnv := {|
  q_b := sampleBridge; q_vm := vmNode1; q_doge := dogeNode1;
  q_keys := (fun pub => (pub, fun _ _ _ => Ok [1; 1])) <$> pubKeys (signers sampleBridge);
  q_remotes := []; q_parsePub := Some; q_verifies := fun _ _ _ _ _ => false;
  q_send := fun _ tx => Ok (TxHash tx); q_resend := fun _ => None; q_now := 0; q_paused := None;
|}.
Definition idle : coordinator := mkCoordinator [] [] ∅.

(** Its step credits the deposit. *)
Lemma step_sent : length (sent (step coord1 idle).2) = 1%nat.
Proof. vm_compute. reflexivity. Qed.


#[local] Instance deposit_eq_dec : EqDecision deposit.
Proof. solve_decision. Defined.

(** The conditions on a view, evaluated. *)
Definition anchorWell (anchor : option utxo) (coins : list utxo) : bool :=
  match anchor with
  | None => true
  | Some a => bool_decide (Forall (fun u => 0 ≤ u_value u) (a :: coins) ∧ sumZ (u_value <$> a :: coins) < two63) &&
      bool_decide (Forall (fun u => u_outPoint u = u_outPoint a → u_value u = u_value a ∧ u_pkScript u = u_pkScript a) coins)
  end.

Definition sawWell (s : pegState) : bool :=
  bool_decide (NoDup (u_outPoint <$> reserveUTXOs s)) && bool_decide (NoDup (u_outPoint <$> confirmedCoins s)) &&
  anchorWell (reserveAnchor s) (reserveUTXOs s) && anchorWell (pegAnchor s) (confirmedCoins s) &&
  bool_decide (deposits s = [dep2]) && Nat.eqb (length (pegOuts s)) 0 && bool_decide (refunded s = ∅).

Lemma anchorWell_ok anchor coins a : anchorWell anchor coins = true → anchor = Some a →
  coins_ok (a :: coins) ∧ ∀ u, u ∈ coins → u_outPoint u = u_outPoint a → same_coin u a.
Proof.
  intros Hw ->. cbn [anchorWell] in Hw. apply andb_true_iff in Hw as [Hc%bool_decide_eq_true Hs%bool_decide_eq_true].
  split; [exact Hc|]. intros u Hu E. rewrite Forall_forall in Hs. by destruct (Hs u Hu E).
Qed.

Lemma dep2_ok : outpoint_ok (d_outPoint dep2) ∧ 0 ≤ d_value dep2 ∧ d_value dep2 + pegDust < two63.
Proof. split_and!; [split; [apply (bool_decide_unpack _)|split]|..]; vm_compute; try exact I; congruence. Qed.

Lemma sawWell_ok s : sawWell s = true → view_ok s.
Proof.
  unfold sawWell. rewrite !andb_true_iff, !bool_decide_eq_true. intros [[[[[[H1 H2] H3] H4] H5] H6] H7].
  apply Nat.eqb_eq, nil_length_inv in H6. split; try done.
  - intros a. by apply anchorWell_ok.
  - intros a. by apply anchorWell_ok.
  - rewrite H5. apply NoDup_singleton.
  - rewrite H5. intros d ->%list_elem_of_singleton. apply dep2_ok.
  - rewrite H6. constructor.
  - rewrite H6. by intros p ?%elem_of_nil.
  - by rewrite H7.
Qed.

Definition proposal1 : proposal := releaseProposal coord1 dep2 release2.
Definition ctx1 (s : pegState) : checkCtx :=
  mkCtx (requestOf proposal1) release2 (addPendingFees s 0) (newChainEvidence s None) 0 EmptyString dogeNode1.

Definition ready (s : pegState) : bool :=
  sawWell s && toCredit coord1 s dep2 && match releaseInputs s (d_value dep2) with Ok it => bool_decide (it = (inputs1, 1000 * koinuPerDoge)) | Err _ => false end &&
  is_ok (shallowRoom sampleBridge s dep2 (promisedShallow sampleBridge provenLog s (d_outPoint dep2))).

Lemma view_ready : ∃ s, load sampleBridge vmNode1 dogeNode1 = Ok s ∧ ready s = true.
Proof.
  assert (match load sampleBridge vmNode1 dogeNode1 with Ok s => ready s | Err _ => false end = true) as Hl by (vm_compute; reflexivity).
  destruct (load sampleBridge vmNode1 dogeNode1) as [s|e]; [|discriminate Hl]. by exists s.
Qed.

Lemma signer_agrees_witness : ∃ s, agrees proposal1 (20 * koinuPerDoge) (checkRelease env1 (ctx1 s) provenLog).
Proof.
  destruct view_ready as (s&Hl&Hr). unfold ready in Hr. rewrite !andb_true_iff in Hr. destruct Hr as [[[Hw Hc] Hi] Hroom].
  assert (deposits s = [dep2]) as Hd by (unfold sawWell in Hw; rewrite !andb_true_iff, !bool_decide_eq_true in Hw; tauto).
  apply sawWell_ok in Hw. destruct (releaseInputs s _) as [it|e] eqn:Ei; [|discriminate Hi]. apply bool_decide_eq_true in Hi. subst it. exists s.
  apply (proj1 (signer_agrees coord1 env1 s proposal1 (ctx1 s) provenLog Hl Hw ltac:(split; reflexivity)) dep2).
  - rewrite Hd. left.
  - exact Hc.
  - exists inputs1, (1000 * koinuPerDoge), release2. split; [exact Ei|]. split; [vm_compute; reflexivity|reflexivity].
  - split_and!; [vm_compute; reflexivity..| |reflexivity]. destruct (shallowRoom _ _ _ _) as [[]|e]; [reflexivity|discriminate Hroom].
Defined.
End Samples.
